(* ===== verification/_CoqProject ===== *)
-Q . S2P
Prelude.v
PyStr.v
PyPath.v
PyVal.v
PyLib.v
PyBytes.v
PyUrl.v
PyRe.v
Http.v
AsyncQueue.v
Semaphore.v
Broadcast.v
EventSchema.v
EventStream.v
SessionStream.v
Bus.v
Utils.v
PromptEnv.v
Tracing.v
Webhooks.v
WebhookDelivery.v
WebhookRunner.v
Continuations.v
HooksEngine.v
McpAllowlist.v
SessionBinding.v
Tasks.v
Routing.v
Lru.v
Executor.v
A2ABackend.v
Background.v
Triggers.v
McpAuth.v
EventIngress.v
HookTransport.v
Jobs.v
AdHoc.v
Heartbeat.v
TaskRuns.v
Dispatch.v
Readiness.v
ClaudeConfig.v
ClaudeTurn.v
ClaudeHooks.v
GeminiHistory.v
SessionLocks.v
SessionDisk.v
GeminiSessions.v
Conversations.v
ConversationsProxy.v
McpStacks.v
