(* ===== verification/Prelude.v ===== *)
(** * Verification of the witwave harness core

    witwave runs LLM agents in containers.  An agent is a _harness_ (Python,
    [src/harness/]) that receives prompts from outside (A2A requests, inbound
    triggers, cron jobs, calendar tasks, continuations, a heartbeat), routes
    each to one of its _backends_ ([src/backends/], one adapter per vendor) over
    the A2A protocol, and announces what happened on event streams and to
    webhooks.  Backends report their tool calls to the harness over HTTP;
    their tool calls pass a policy engine, their subprocesses an allow-list,
    and their tool servers ([src/tools/]) an authentication layer, all of
    them in [src/shared/].

    This library models the harness and the shared modules as Rocq functions
    and transition systems, one file per component, and proves what makes each
    correct.

    ** Conventions

    - A Python call that may raise is a [res] (below): [Ok v] or [Raise e].
    - Python values of JSON or YAML are [PyVal.pyval]; [str] is [string], one
      character per code point below 256.
    - A coroutine that suspends is cut at its awaits: each piece between two
      awaits is a step that changes a state without interruption, the
      suspended calls are part of the state, and a run is any interleaving of
      steps.  Cancellation at an await is a step of its own.
    - A lock, semaphore, queue or set of the standard library is modelled
      with the laws its users rely on ([AsyncQueue], [Semaphore], [Lru]).
    - What is not under [src/] (httpx, the A2A SDK, croniter, YAML and JSON
      parsers, HMAC and hashes, DNS, the clocks, [os.environ]) is a parameter
      or an argument; the few laws needed are named hypotheses, and each
      theorem that has one is applied in a witness to a concrete function.
    - Times are integers (microseconds unless said otherwise); the code's
      floats are such times or ratios and are never used for more.

    ** The standard library of Python

    - [Prelude]: exceptions, the error type, boolean reflection, the folds,
      the finite-map size lemmas and the generic tactics.
    - [PyStr], [PyPath], [PyBytes], [PyUrl], [PyRe], [PyLib], [PyVal]: text,
      POSIX paths, UTF-8, [urlsplit] and [ipaddress], the regular-expression
      forms in use, [shlex.split], [json.dumps], dynamic values.
    - [Http]: requests to our own servers, the capped read of a streamed
      body, [hmac.compare_digest].
    - [AsyncQueue]: [asyncio.Queue] and bounded [deque]s, refined against a
      list.  [Semaphore]: [asyncio.Semaphore] with its queue of waiters, and
      the permits of a pool of coroutines.  [Lru]: bounded dictionaries kept in
      the order of last use.

    ** Components

    Events.
    - [EventSchema] (shared/event_schema.py): the validator; it accepts
      exactly the well-formed envelopes of a declarative schema.
    - [Broadcast] (what the two streams share), [EventStream]
      (harness/events.py): ids contiguous, ring a suffix of the history, no
      event delivered twice to a subscriber, the splice of replay and live
      frames of the SSE endpoint of harness/main.py.
    - [SessionStream] (shared/session_stream.py): the registry of streams
      with its sweep; no subscriber is left on a stream that was swept.
    - [HookTransport] (shared/hook_events.py) and [EventIngress] (the two
      /internal/events endpoints of harness/main.py): the posts of a backend
      and their reception.  Posts are counted exactly against their cap; the
      lock between threads is always released; the circuit breaker counts as
      a window over the failures; nothing reaches the channel of [Bus]
      without its dedicated token.

    Prompts.
    - [Bus] (harness/bus.py and its worker): dedup slots are released on
      every path; the hook-decision channel.
    - [Routing] (harness/backends/config.py, harness/executor.py): the parsed
      configuration, hot reload, which backend and model serve a message.
    - [A2ABackend] (harness/backends/a2a.py): requests, retries and the
      circuit breaker of one backend, refining a three-state breaker.
    - [Executor] (harness/executor.py): consensus over several backends, the
      session LRU.  [Dispatch]: from a prompt to its answer and to the
      announcement of its completion, which goes to [Continuations] and
      [WebhookRunner] through the bounded set of [Background]; every
      completion is announced, shed or run inline, exactly once.
    - [Readiness] (harness/main.py, harness/executor.py): the readiness probe
      with its single-flight cache, the supervisor of the bus worker.
    - [PromptEnv] (shared/prompt_env.py), [SessionBinding]
      (shared/session_binding.py), [Tracing] (harness/tracing.py).

    Schedulers.
    - [Utils] (harness/utils.py): durations, frontmatter, the file cache.
    - [Continuations] (harness/continuations.py): runs fire only when an
      upstream justifies them, throttles and fan-in counted exactly.
    - [Jobs] (harness/jobs.py): the cron loop and the run of a job, runs
      accounted by the flag, the semaphore and the checkpoint file.
    - [Tasks], [TaskRuns] (harness/tasks.py): the calendar windows ([Tasks]),
      the coroutine that works through them ([TaskRuns]).
    - [Triggers] (harness/triggers.py, its endpoint): authentication, one run
      per endpoint at a time, the fence around untrusted headers.
    - [AdHoc] (endpoints that fire a job, a task or the heartbeat, and the file
      of the latter), [Heartbeat] (harness/heartbeat.py): the loop and the
      runner that replaces it when the file changes; one loop, one heartbeat in
      flight.

    Logs.
    - [Conversations] (shared/conversations.py): the log endpoints of the
      backends and the cache of parsed files their threads share; a reader
      never answers a version that was gone before it began.
    - [ConversationsProxy] (harness/conversations_proxy.py): the harness's
      merge of the backends' logs; a limit pushed down loses no row.

    Outgoing.
    - [Webhooks] (subscriptions, URL templates, the guard against internal
      addresses), [WebhookDelivery] (one delivery with its retries and the
      byte budget), [WebhookRunner] (fan-out under two caps).

    Policy.
    - [HooksEngine] (shared/hooks_engine.py): the baseline predicates, the
      rule tables, [evaluate_pre_tool_use].
    - [McpAllowlist] (shared/mcp_command_allowlist.py), [McpAuth]
      (shared/mcp_auth.py, shared/mcp_body_cap.py).

    The Claude backend (backends/claude/executor.py).
    - [ClaudeConfig]: allowed tools, settings, MCP servers through both passes
      of checks, hot reloads of the live configuration, the file of a session.
    - [ClaudeTurn]: a request from its gates to its reply, over the stream of
      the SDK: chunks, tool calls, the token budget, the one retry.
    - [ClaudeHooks]: the callback that denies tool calls, with its capped
      background posts.

    The Gemini backend (backends/gemini/executor.py).
    - [GeminiHistory]: the file of a conversation: dump, trim, load.
    - [SessionLocks] (the reference-counted locks), [SessionDisk] (the files
      and the writer threads), [GeminiSessions] (the turns over both, with the
      cleanup epochs, the LRU and the removals): turns of a session exclude
      each other and no save is lost.

    The OpenAI and Gemini backends (backends/openai/executor.py,
    backends/gemini/executor.py).
    - [McpStacks]: the tool servers a backend keeps open, shared by requests
      with a count, replaced on reload, closed once when the last user lets go,
      by the watchdog of the Gemini backend, or at shutdown.

    ** What the groups of theorems show

    - Functional exactness: for each routine without concurrency, the result
      on every branch as a closed formula or an iff with a declarative
      specification ([validate_envelope_iff_well_formed],
      [evaluate_pre_tool_use_spec], [next_window_open_earliest],
      [guard_accepts_exactly], [trim_keeps_a_conversation]).
    - Invariants of the interleaved systems, by induction on the step
      relation, stated as what is counted where ([run_keeps_invariant],
      [slots_exact], [runs_accounted], [fires_accounted],
      [completions_accounted], [transport_accounted],
      [hook_posts_bounded], [reloads_keep_policy], [no_lost_update],
      [reads_are_current]).
    - Safety: what never happens on any run ([no_stranded_subscriber],
      [only_authorised_fire], [tool_access], [mcp_spawn_policy],
      [mcp_servers_vetted], [retry_is_safe], [pre_tool_use_decides],
      [one_heartbeat_loop], [turns_exclusive], [stacks_closed_once]).
    - Liveness of a step system: from every reachable state the awaited
      outcome is reachable, or every sequence of that length contains it
      ([dedup_slot_never_leaks], [windows_forward], [ticks_forward],
      [registration_lock], [readiness_follows_worker], [edit_takes_effect]); or
      that a system at rest has reclaimed all it had ([quiet_reclaims]).
    - Refinement of an abstract machine: [circuit_breaker_refines],
      [retry_budget_refines].
    - Equivalence with a simpler computation: [stream_is_answer],
      [limit_reaches_the_same_rows].
    - Round trips: [traceparent_roundtrip], [history_roundtrip].

    ** Bounds and fuel

    No definition truncates what the code does.  Where recursion is on fuel
    the fuel is a length the definition computes itself, and a lemma shows it
    is enough: the tokenizers of [PyLib] and [HooksEngine] consume a
    character per step, [Tasks] searches seven days after the start (a
    nonempty set of weekdays repeats within seven), the retry loops of
    [A2ABackend] and [WebhookDelivery] recurse on the attempts left, the trim
    of [GeminiHistory] shortens the history at each cut.  Integers
    of Python are unbounded, hence [Z].

    ** Not modelled

    - Text beyond code point 255, and floats beyond times and their
      representation.
    - Log lines and metrics, except where the code decides by a counter (the
      warnings re-armed after so many misses, the counters of [A2ABackend]).
    - The Starlette application itself: start-up and shutdown order, the
      discovery, OAuth, trace and metrics routes; watchfiles polling.
    - The streams of the OpenAI and Gemini adapters, and the applications
      of the backends (main.py), mostly the control flow of the SDKs they
      consume; the tool servers
      (src/tools), which wrap command lines and HTTP APIs; SQLite task stores;
      OpenTelemetry; redaction (a table of general regular expressions).
    - The Go operator and CLI, the dashboard and the charts.

    PROJECT.json lists every part with its state, and the definition that
    models each function with its lines. *)
From Stdlib Require Export ZArith Lia.
From Stdlib Require Ascii String.
From stdpp Require Export base tactics gmap strings list fin_maps pretty relations.

#[global] Set Warnings "-clear-no-such-hyp".
#[global] Open Scope string_scope.
#[global] Open Scope list_scope.
#[global] Open Scope Z_scope.

(** ** Exceptions and fallible computations

    A Python call either returns or raises.  [exn] lists the exception
    classes the modelled code raises or catches. *)
Inductive exn : Type :=
| TypeError | ValueError | KeyError | IndexError | AttributeError | RuntimeError
| QueueFull | TimeoutError | ConnectionError | CancelledError | OtherError.

#[export] Instance exn_eq_dec : EqDecision exn.
Proof. intros x y. unfold Decision. decide equality. Defined.

Inductive res (A : Type) : Type :=
| Ok (a : A)
| Raise (e : exn).
Arguments Ok {A} a.
Arguments Raise {A} e.

#[export] Instance res_eq_dec {A} `{EqDecision A} : EqDecision (res A).
Proof. intros x y. unfold Decision. decide equality; apply decide; tc_solve. Defined.

Definition res_bind {A B : Type} (m : res A) (k : A -> res B) : res B :=
  match m with
  | Ok a => k a
  | Raise e => Raise e
  end.

Declare Scope py_scope.
Delimit Scope py_scope with py.
Notation "x <-- m ;; k" := (res_bind m (fun x => k))
  (at level 100, m at next level, right associativity) : py_scope.
#[global] Open Scope py_scope.

Lemma res_bind_Ok {A B} (m : res A) (k : A -> res B) (b : B) :
  res_bind m k = Ok b <-> exists a, m = Ok a /\ k a = Ok b.
Proof. destruct m; cbn; naive_solver. Qed.

Lemma res_bind_Raise {A B} (m : res A) (k : A -> res B) (e : exn) :
  res_bind m k = Raise e <-> m = Raise e \/ exists a, m = Ok a /\ k a = Raise e.
Proof. destruct m; cbn; naive_solver. Qed.

(** ** Boolean reflection

    [boolp] rewrites boolean tests to propositions; the components'
    specification lemmas are added to it where they are proved. *)
Create Rewrite HintDb boolp.

#[export] Hint Rewrite andb_true_iff orb_true_iff negb_true_iff andb_false_iff
  orb_false_iff negb_false_iff Z.leb_le Z.ltb_lt Z.eqb_eq Z.leb_gt Z.ltb_ge Z.eqb_neq
  Nat.leb_le Nat.ltb_lt Nat.eqb_eq Nat.leb_gt Nat.ltb_ge Nat.eqb_neq
  @bool_decide_eq_true @bool_decide_eq_false : boolp.

Ltac boolp := autorewrite with boolp in *.

(** Case analysis on the innermost tests of a goal or hypothesis. *)
Ltac cases := repeat (case_match; simplify_eq/=; try done).
Ltac cases_in H :=
  repeat match type of H with
  | context [match ?x with _ => _ end] =>
      first [ is_var x; destruct x | destruct x eqn:? ]; simplify_eq/=
  end.

(** [lia] after turning the boolean tests in the context into propositions. *)
Ltac blia := boolp; lia.

(** ** Lists *)

(** The last [n] elements of a list: what a [deque(maxlen=n)] retains. *)
Definition lastn {A} (n : nat) (l : list A) : list A := drop (length l - n) l.

Lemma length_lastn {A} n (l : list A) : length (lastn n l) = Nat.min n (length l).
Proof. unfold lastn. rewrite length_drop. lia. Qed.

Lemma lastn_all {A} n (l : list A) : (length l <= n)%nat -> lastn n l = l.
Proof. intros H. unfold lastn. by replace (length l - n)%nat with 0%nat by lia. Qed.

(** Appending to a bounded deque keeps the last [n] elements of the
    history: the ring is a window on the log. *)
Lemma lastn_snoc {A} n (l : list A) x :
  (0 < n)%nat -> lastn n (lastn n l ++ [x]) = lastn n (l ++ [x]).
Proof.
  intros Hn. unfold lastn.
  rewrite !length_app, length_drop. cbn [length].
  destruct (decide (length l < n)%nat).
  - by replace (length l - (length l - n) + 1 - n)%nat with (length l + 1 - n)%nat by lia;
      replace (length l - n)%nat with 0%nat by lia.
  - rewrite !drop_app_le by (rewrite ?length_drop; lia).
    rewrite drop_drop. do 2 f_equal. lia.
Qed.

Lemma lastn_suffix {A} n (l : list A) : lastn n l `suffix_of` l.
Proof. exists (take (length l - n) l). unfold lastn. by rewrite take_drop. Qed.

Lemma elem_of_lastn {A} n (l : list A) x : x ∈ lastn n l -> x ∈ l.
Proof.
  intros H. destruct (lastn_suffix n l) as [p ->]. set_solver.
Qed.

Lemma filter_none {A} (P : A -> Prop) `{!forall x, Decision (P x)} (l : list A) :
  Forall (fun x => ~ P x) l -> filter P l = [].
Proof. induction 1; [done|]. by rewrite filter_cons_False. Qed.

Lemma filter_all {A} (P : A -> Prop) `{!forall x, Decision (P x)} (l : list A) :
  Forall P l -> filter P l = l.
Proof. induction 1; [done|]. rewrite filter_cons_True by done. by f_equal. Qed.

Lemma filter_ext_in {A} (P Q : A -> Prop) `{!forall x, Decision (P x), !forall x, Decision (Q x)} (l : list A) :
  (forall x, x ∈ l -> P x <-> Q x) -> filter P l = filter Q l.
Proof.
  induction l as [|x l IH]; intros HPQ; [done|]. rewrite !filter_cons.
  rewrite IH by (intros; apply HPQ; by right).
  pose proof (HPQ x (list_elem_of_here _ _)) as Hx.
  destruct (decide (P x)), (decide (Q x)); tauto.
Qed.

Lemma filter_conj {A} (P Q : A -> Prop) `{!forall x, Decision (P x), !forall x, Decision (Q x)} (l : list A) :
  filter P (filter Q l) = filter (fun x => P x /\ Q x) l.
Proof.
  induction l as [|x l IH]; [done|]. rewrite (filter_cons Q), (filter_cons (fun x => P x /\ Q x)).
  destruct (decide (Q x)); [rewrite filter_cons|]; rewrite IH;
    destruct (decide (P x /\ Q x)); try tauto; destruct (decide (P x)); tauto.
Qed.

Lemma filter_fmap_NoDup {A B} (f : A -> B) (P : A -> Prop) `{!forall x, Decision (P x)} (l : list A) :
  NoDup (f <$> l) -> NoDup (f <$> filter P l).
Proof.
  induction l as [|x l IH]; [done|]. rewrite filter_cons, fmap_cons.
  intros [Hx Hl]%NoDup_cons. case_decide; [|auto]. rewrite fmap_cons. apply NoDup_cons.
  split; [|auto]. intros (y & Hy & [_ Hin]%list_elem_of_filter)%list_elem_of_fmap.
  apply Hx, list_elem_of_fmap. eauto.
Qed.

(** Python's [l[-n:]] for an integer [n] computed at run time: [n = 0]
    keeps the whole list. *)
Definition py_last_slice {A} (n : Z) (l : list A) : list A :=
  if 0 <? n then lastn (Z.to_nat n) l
  else drop (Z.to_nat (- n)) l.

(** ** Insertion-ordered dictionaries

    A Python [dict] remembers insertion order; assignment to a present key
    keeps its position.  Components for which the order matters use these
    association lists, the others use [gmap]. *)
Section OrderedDict.
Context {K V : Type} `{EqDecision K}.

Fixpoint od_get (d : list (K * V)) (k : K) : option V :=
  match d with
  | [] => None
  | (k', v) :: d' => if decide (k = k') then Some v else od_get d' k
  end.

Fixpoint od_set (d : list (K * V)) (k : K) (v : V) : list (K * V) :=
  match d with
  | [] => [(k, v)]
  | (k', v') :: d' =>
      if decide (k = k') then (k, v) :: d' else (k', v') :: od_set d' k v
  end.

Definition od_pop (d : list (K * V)) (k : K) : list (K * V) :=
  filter (fun kv => kv.1 <> k) d.

Definition od_keys (d : list (K * V)) : list K := d.*1.
Definition od_values (d : list (K * V)) : list V := d.*2.

Lemma od_get_elem d k v : od_get d k = Some v -> (k, v) ∈ d.
Proof. induction d as [|[k' v'] d IH]; cbn; [done|]. case_decide; set_solver. Qed.

Lemma od_get_None d k : od_get d k = None <-> k ∉ od_keys d.
Proof.
  unfold od_keys. induction d as [|[k' v'] d IH]; cbn; [set_solver|].
  case_decide; set_solver.
Qed.

Lemma od_get_Some d k v : NoDup (od_keys d) -> od_get d k = Some v <-> (k, v) ∈ d.
Proof.
  unfold od_keys. induction d as [|[k' v'] d IH]; cbn; [set_solver|].
  intros [Hk Hd]%NoDup_cons. case_decide; subst.
  - split; [set_solver|]. rewrite elem_of_cons. intros [?|Hin]; [congruence|].
    destruct Hk. apply list_elem_of_fmap. by exists (k', v).
  - rewrite IH by done. set_solver.
Qed.

Lemma od_set_get d k v : od_get (od_set d k v) k = Some v.
Proof. induction d as [|[k' v'] d IH]; cbn; repeat case_decide; cbn; repeat case_decide; done. Qed.

Lemma od_set_get_ne d k k' v : k <> k' -> od_get (od_set d k v) k' = od_get d k'.
Proof.
  intros Hk. induction d as [|[k1 v1] d IH]; cbn; repeat (case_decide; cbn; subst); congruence.
Qed.

Lemma od_set_new d k v : k ∉ od_keys d -> od_set d k v = d ++ [(k, v)].
Proof.
  unfold od_keys. induction d as [|[k1 v1] d IH]; cbn; [done|].
  rewrite not_elem_of_cons. intros [??]. case_decide; [done|]. by rewrite IH.
Qed.

Lemma od_set_keys d k v : k ∈ od_keys d -> od_keys (od_set d k v) = od_keys d.
Proof.
  unfold od_keys. induction d as [|[k1 v1] d IH]; cbn; [set_solver|].
  intros Hk. case_decide; subst; cbn; [done|]. rewrite IH; set_solver.
Qed.

Lemma od_set_NoDup d k v : NoDup (od_keys d) -> NoDup (od_keys (od_set d k v)).
Proof.
  intros Hd. destruct (decide (k ∈ od_keys d)) as [Hk|Hk].
  - by rewrite od_set_keys.
  - rewrite od_set_new by done. unfold od_keys in *. rewrite fmap_app.
    apply NoDup_app. split_and!; [done| |apply NoDup_singleton]. set_solver.
Qed.

Lemma od_set_length d k v :
  length (od_set d k v) =
  if decide (k ∈ od_keys d) then length d else S (length d).
Proof.
  case_decide as Hk.
  - transitivity (length (od_keys (od_set d k v))); [unfold od_keys; by rewrite length_fmap|].
    rewrite od_set_keys by done. unfold od_keys. by rewrite length_fmap.
  - rewrite od_set_new, length_app by done. cbn. lia.
Qed.

Lemma elem_of_od_set d k v k' v' :
  (k', v') ∈ od_set d k v -> (k', v') = (k, v) \/ (k', v') ∈ d.
Proof.
  induction d as [|[k1 v1] d IH]; cbn; [rewrite list_elem_of_singleton; auto|].
  case_decide; rewrite !elem_of_cons; [tauto|]. intros [?|?]; tauto.
Qed.

Lemma od_pop_get d k : od_get (od_pop d k) k = None.
Proof.
  apply od_get_None. unfold od_keys, od_pop. intros Hin.
  apply list_elem_of_fmap in Hin as [[??] [Heq Hin]]. cbn in Heq. subst.
  apply list_elem_of_filter in Hin as [? _]. by cbn in *.
Qed.

Lemma od_pop_get_ne d k k' : k <> k' -> od_get (od_pop d k) k' = od_get d k'.
Proof.
  intros Hk. unfold od_pop. induction d as [|[k1 v1] d IH]; [done|].
  rewrite filter_cons. cbn [fst]. cbn [od_get].
  case_decide; cbn [od_get]; rewrite ?IH; repeat case_decide; subst; tauto || done.
Qed.

Lemma od_pop_keys d k : od_keys (od_pop d k) = filter (fun k' => k' <> k) (od_keys d).
Proof.
  unfold od_keys, od_pop. induction d as [|[k1 v1] d IH]; [done|].
  rewrite fmap_cons, !filter_cons. cbn [fst].
  case_decide; rewrite ?fmap_cons; by f_equal.
Qed.

Lemma od_pop_NoDup d k : NoDup (od_keys d) -> NoDup (od_keys (od_pop d k)).
Proof. rewrite od_pop_keys. apply NoDup_filter. Qed.

Lemma od_pop_length d k : (length (od_pop d k) <= length d)%nat.
Proof. apply length_filter. Qed.

Lemma elem_of_od_pop d k k' v : (k', v) ∈ od_pop d k <-> k' <> k /\ (k', v) ∈ d.
Proof. unfold od_pop. by rewrite list_elem_of_filter. Qed.
End OrderedDict.

(** ** Counting the entries of a map *)
Section MapCount.
Context {K V : Type} `{Countable K}.
Implicit Types (m : gmap K V) (P : V -> bool).

Definition map_count P m : nat := size (filter (fun kv => P kv.2 = true) m).

Lemma map_count_empty P : map_count P ∅ = 0%nat.
Proof. unfold map_count. by rewrite map_filter_empty, map_size_empty. Qed.

Lemma map_count_fresh P m i x :
  m !! i = None -> map_count P (<[i := x]> m) = (map_count P m + if P x then 1 else 0)%nat.
Proof.
  intros Hi. unfold map_count. destruct (P x) eqn:Hx.
  - rewrite map_filter_insert_True by done. rewrite map_size_insert_None by (by apply map_lookup_filter_None_2; left). lia.
  - rewrite map_filter_insert_not' by (cbn; intros; congruence || (rewrite Hx; done)). lia.
Qed.

Lemma map_count_insert P m i x :
  (map_count P (<[i := x]> m) + (if from_option P false (m !! i) then 1 else 0) =
   map_count P m + if P x then 1 else 0)%nat.
Proof.
  destruct (m !! i) as [y|] eqn:Hi; cbn [from_option]; [|rewrite map_count_fresh by done; lia].
  rewrite <-(insert_delete_id m i y) at 2 by done. rewrite <-insert_delete_eq.
  rewrite !map_count_fresh by apply lookup_delete_eq. lia.
Qed.

Lemma map_count_delete P m i x :
  m !! i = Some x -> (map_count P (delete i m) + (if P x then 1 else 0) = map_count P m)%nat.
Proof. intros Hi. rewrite <-(insert_delete_id m i x Hi) at 2. by rewrite map_count_fresh by apply lookup_delete_eq. Qed.

Lemma map_count_0 P m : map_count P m = 0%nat <-> forall i x, m !! i = Some x -> P x = false.
Proof.
  unfold map_count. rewrite map_size_empty_iff. split.
  - intros He i x Hx. destruct (P x) eqn:E; [|done].
    assert (Hl : filter (fun kv : K * V => P kv.2 = true) m !! i = Some x) by by apply map_lookup_filter_Some.
    rewrite He in Hl. by rewrite lookup_empty in Hl.
  - intros Hm. apply map_empty. intros i. apply map_lookup_filter_None. right. intros x Hx.
    cbn. rewrite (Hm i x Hx). done.
Qed.
End MapCount.

(** ** Labelled transition systems

    Runs with their labels, and the lifting of a one-step simulation to
    runs. *)
Section Lts.
Context {S L : Type} (step : S -> L -> S -> Prop).

Inductive runs : S -> list L -> S -> Prop :=
| runs_nil s : runs s [] s
| runs_cons s l s1 ls s2 : step s l s1 -> runs s1 ls s2 -> runs s (l :: ls) s2.

Lemma runs_snoc s ls s1 l s2 : runs s ls s1 -> step s1 l s2 -> runs s (ls ++ [l]) s2.
Proof. induction 1; intros Hl; cbn; econstructor; eauto; constructor. Qed.

Lemma runs_app s ls1 s1 ls2 s2 : runs s ls1 s1 -> runs s1 ls2 s2 -> runs s (ls1 ++ ls2) s2.
Proof. induction 1; intros Hr; [done|]. cbn. econstructor; eauto. Qed.

(** An invariant of the steps holds of the runs. *)
Lemma runs_invariant (I : S -> Prop) :
  (forall s l s', step s l s' -> I s -> I s') -> forall s ls s', runs s ls s' -> I s -> I s'.
Proof. intros HI. induction 1; eauto. Qed.

(** An invariant of the steps with admissible labels. *)
Lemma runs_invariant_labels (P : L -> Prop) (I : S -> Prop) :
  (forall s l s', P l -> step s l s' -> I s -> I s') ->
  forall s ls s', runs s ls s' -> Forall P ls -> I s -> I s'.
Proof. intros HI. induction 1; [done|]. intros [Hl Hls]%Forall_cons Hs. eauto. Qed.
End Lts.

Lemma runs_simulation {S1 S2 L} (step1 : S1 -> L -> S1 -> Prop) (step2 : S2 -> L -> S2 -> Prop)
    (R : S1 -> S2 -> Prop) :
  (forall a l a' b, R a b -> step1 a l a' -> exists b', step2 b l b' /\ R a' b') ->
  forall a ls a' b, R a b -> runs step1 a ls a' -> exists b', runs step2 b ls b' /\ R a' b'.
Proof.
  intros Hsim a ls a' b HR Hrun. revert b HR. induction Hrun as [a|a l a1 ls a2 Hstep _ IH]; intros b HR.
  - exists b. split; [constructor|done].
  - destruct (Hsim a l a1 b HR Hstep) as (b1 & Hb & HR1). destruct (IH b1 HR1) as (b2 & Hrun & HR2).
    exists b2. split; [by econstructor|done].
Qed.
