(* ===== verification/PyStr.v ===== *)
(** * Python text

    [str] values are Stdlib [string]s, one [ascii] per code point; the model
    therefore covers text whose code points are below 256 (Latin-1), and the
    character classes below ([str.strip], [str.lower]) are Python's on that
    range.  The functions are the methods of [str] and of [os.path],
    [fnmatch] and [int] that the modelled files call. *)
From Stdlib Require Import Ascii DecimalString DecimalFacts DecimalZ DecimalPos.
From S2P Require Import Prelude.

Abbreviation code c := (Z.of_N (N_of_ascii c)).

(** ** Characters *)

Definition is_space (c : ascii) : bool :=
  let n := code c in
  ((9 <=? n) && (n <=? 13)) || ((28 <=? n) && (n <=? 32)) || (n =? 133) || (n =? 160).

Definition is_digit (c : ascii) : bool := (48 <=? code c) && (code c <=? 57).

Definition lower_char (c : ascii) : ascii :=
  let n := code c in
  if ((65 <=? n) && (n <=? 90)) || ((192 <=? n) && (n <=? 222) && negb (n =? 215))
  then ascii_of_N (Z.to_N (n + 32)) else c.

Definition sl : string := "/".
Definition slash : ascii := "/"%char.

(** ** Methods of [str] *)

Fixpoint str_map (f : ascii -> ascii) (s : string) : string :=
  match s with
  | "" => ""
  | String c s' => String (f c) (str_map f s')
  end.

Definition str_lower : string -> string := str_map lower_char.

(** [s.upper()] of an ASCII text. *)
Definition upper_char (c : ascii) : ascii :=
  if (97 <=? code c) && (code c <=? 122) then ascii_of_N (N_of_ascii c - 32) else c.

Definition str_upper : string -> string := str_map upper_char.

Fixpoint str_all (p : ascii -> bool) (s : string) : bool :=
  match s with
  | "" => true
  | String c s' => p c && str_all p s'
  end.

Fixpoint lstrip_by (p : ascii -> bool) (s : string) : string :=
  match s with
  | "" => ""
  | String c s' => if p c then lstrip_by p s' else s
  end.

Fixpoint rstrip_by (p : ascii -> bool) (s : string) : string :=
  match s with
  | "" => ""
  | String c s' =>
      match rstrip_by p s' with
      | "" => if p c then "" else String c ""
      | t => String c t
      end
  end.

Definition str_strip (s : string) : string := rstrip_by is_space (lstrip_by is_space s).

(** [s.rstrip(chars)] *)
Definition in_chars (chars : string) (c : ascii) : bool :=
  bool_decide (c ∈ String.list_ascii_of_string chars).
Definition str_rstrip (chars s : string) : string := rstrip_by (in_chars chars) s.

Definition startswith (p s : string) : bool := String.prefix p s.

Definition str_rev (s : string) : string :=
  String.string_of_list_ascii (rev (String.list_ascii_of_string s)).

Definition endswith (p s : string) : bool := String.prefix (str_rev p) (str_rev s).

(** [sub in s] *)
Fixpoint str_contains (sub s : string) : bool :=
  String.prefix sub s ||
  match s with
  | "" => false
  | String _ s' => str_contains sub s'
  end.

(** [s.split(c)] for a one-character separator: never empty. *)
Fixpoint str_split (sep : ascii) (s : string) : list string :=
  match s with
  | "" => [""]
  | String c s' =>
      if decide (c = sep) then "" :: str_split sep s'
      else match str_split sep s' with
           | [] => [String c ""]
           | w :: ws => String c w :: ws
           end
  end.

(** [s.split()]: maximal runs of non-space characters. *)
Fixpoint split_ws_go (cur : string) (s : string) : list string :=
  match s with
  | "" => if decide (cur = "") then [] else [str_rev cur]
  | String c s' =>
      if is_space c
      then (if decide (cur = "") then [] else [str_rev cur]) ++ split_ws_go "" s'
      else split_ws_go (String c cur) s'
  end.
Definition str_split_ws (s : string) : list string := split_ws_go "" s.

Fixpoint str_join (sep : string) (l : list string) : string :=
  match l with
  | [] => ""
  | [s] => s
  | s :: l' => s +:+ sep +:+ str_join sep l'
  end.

(** [s[:n]] and [s[n:]] for [0 <= n]. *)
Fixpoint str_take (n : nat) (s : string) : string :=
  match n, s with
  | S n', String c s' => String c (str_take n' s')
  | _, _ => ""
  end.

Fixpoint str_drop (n : nat) (s : string) : string :=
  match n, s with
  | S n', String _ s' => str_drop n' s'
  | _, _ => s
  end.

Definition str_len (s : string) : Z := Z.of_nat (String.length s).

(** ** [int] of a decimal string and [str] of an integer

    [int(s)] strips white space, accepts one sign and underscores between
    digits.  (The interpreter's limit on the length of such strings is not
    modelled.) *)
Definition py_str_int (z : Z) : string := NilZero.string_of_int (Z.to_int z).

Fixpoint drop_underscores (after_digit : bool) (s : string) : option string :=
  match s with
  | "" => if after_digit then Some "" else None
  | String c s' =>
      if decide (c = "_"%char) then
        if after_digit then drop_underscores false s' else None
      else option_map (String c) (drop_underscores (is_digit c) s')
  end.

Definition py_int_unsigned (s : string) : option Z :=
  match drop_underscores false s with
  | Some t => option_map Z.of_uint (NilZero.uint_of_string t)
  | None => None
  end.

Definition py_int (s : string) : option Z :=
  match str_strip s with
  | String "-" t => option_map Z.opp (py_int_unsigned t)
  | String "+" t => py_int_unsigned t
  | t => py_int_unsigned t
  end.

(** ** [os.path] (POSIX) *)

(** Everything after the last slash. *)
Definition basename (p : string) : string := default "" (last (str_split slash p)).

Definition isabs (p : string) : bool := startswith "/" p.

(** One component of [normpath]'s loop: [stack] is the reversed list of
    components kept so far. *)
Definition normpath_step (initial_slashes : bool) (stack : list string) (comp : string)
  : list string :=
  if decide (comp = "" \/ comp = ".") then stack
  else if decide (comp <> "..") then comp :: stack
  else match stack with
       | [] => if initial_slashes then [] else [comp]
       | top :: rest => if decide (top = "..") then comp :: stack else rest
       end.

(** POSIX keeps exactly two leading slashes and collapses three or more. *)
Definition initial_slashes (p : string) : string :=
  if startswith "/" p then
    if startswith "//" p && negb (startswith "///" p) then "//" else "/"
  else "".

Definition normpath (p : string) : string :=
  if decide (p = "") then "." else
  let lead := initial_slashes p in
  let comps := foldl (normpath_step (startswith "/" p)) [] (str_split slash p) in
  let path := lead +:+ str_join "/" (rev comps) in
  if decide (path = "") then "." else path.

(** ** [fnmatch.fnmatch] on a POSIX system

    [*] any run, [?] any character, [[...]] a set with ranges, negated by
    [!]; an unterminated [[] is literal. *)
Inductive glob_item : Type :=
| GLit (c : ascii)
| GAny
| GStar
| GSet (neg : bool) (ranges : list (ascii * ascii)).

(** The members of a bracket: [x-y] is a range when [y] exists. *)
Fixpoint glob_ranges (l : list ascii) : list (ascii * ascii) :=
  match l with
  | [] => []
  | x :: "-"%char :: y :: l' => (x, y) :: glob_ranges l'
  | x :: l' => (x, x) :: glob_ranges l'
  end.

(** Splits at the first closing bracket that is not the first member. *)
Fixpoint take_until_bracket (l : list ascii) : option (list ascii * list ascii) :=
  match l with
  | [] => None
  | "]"%char :: l' => Some ([], l')
  | c :: l' => option_map (fun p => (c :: p.1, p.2)) (take_until_bracket l')
  end.

Definition glob_bracket (l : list ascii) : option (glob_item * list ascii) :=
  let (neg, l1) := match l with "!"%char :: l' => (true, l') | _ => (false, l) end in
  let r := match l1 with
           | "]"%char :: l2 => option_map (fun p => ("]"%char :: p.1, p.2)) (take_until_bracket l2)
           | _ => take_until_bracket l1
           end in
  option_map (fun p => (GSet neg (glob_ranges p.1), p.2)) r.

Fixpoint glob_parse (fuel : nat) (l : list ascii) : list glob_item :=
  match fuel with
  | O => []
  | S fuel' =>
      match l with
      | [] => []
      | "*"%char :: l' => GStar :: glob_parse fuel' l'
      | "?"%char :: l' => GAny :: glob_parse fuel' l'
      | "["%char :: l' =>
          match glob_bracket l' with
          | Some (it, l'') => it :: glob_parse fuel' l''
          | None => GLit "["%char :: glob_parse fuel' l'
          end
      | c :: l' => GLit c :: glob_parse fuel' l'
      end
  end.

Definition glob_item_matches (it : glob_item) (c : ascii) : bool :=
  match it with
  | GLit c' => bool_decide (c = c')
  | GAny => true
  | GStar => false
  | GSet neg rs =>
      xorb neg (existsb (fun r => (code r.1 <=? code c) && (code c <=? code r.2)) rs)
  end.

Fixpoint glob_match (items : list glob_item) : list ascii -> bool :=
  match items with
  | [] => fun l => match l with [] => true | _ => false end
  | GStar :: items' =>
      fix star (l : list ascii) : bool :=
        glob_match items' l || match l with [] => false | _ :: l' => star l' end
  | it :: items' =>
      fun l => match l with
               | [] => false
               | c :: l' => glob_item_matches it c && glob_match items' l'
               end
  end.

Definition fnmatch (name pat : string) : bool :=
  let p := String.list_ascii_of_string pat in
  glob_match (glob_parse (length p) p) (String.list_ascii_of_string name).

(** ** Lemmas *)

Lemma str_app_nil_r (s : string) : s +:+ "" = s.
Proof. induction s as [|c s IH]; [done|]. change (String c (s +:+ "") = String c s). by rewrite IH. Qed.

Lemma str_app_assoc (s t u : string) : (s +:+ t) +:+ u = s +:+ (t +:+ u).
Proof.
  induction s as [|c s IH]; [done|].
  change (String c ((s +:+ t) +:+ u) = String c (s +:+ (t +:+ u))). by rewrite IH.
Qed.

Lemma str_app_cons c (s t : string) : String c s +:+ t = String c (s +:+ t).
Proof. done. Qed.

Lemma str_length_app (s t : string) :
  String.length (s +:+ t) = (String.length s + String.length t)%nat.
Proof. induction s as [|c s IH]; [done|]. rewrite str_app_cons. cbn. by rewrite IH. Qed.

Lemma str_take_drop n (s : string) : str_take n s +:+ str_drop n s = s.
Proof.
  revert s. induction n as [|n IH]; intros [|c s]; try done.
  cbn [str_take str_drop]. by rewrite str_app_cons, IH.
Qed.

Lemma str_take_length n (s : string) :
  String.length (str_take n s) = Nat.min n (String.length s).
Proof. revert s. induction n as [|n IH]; intros [|c s]; cbn; try done. by rewrite IH. Qed.

Lemma str_take_short n s : (String.length s <= n)%nat -> str_take n s = s.
Proof. revert s. induction n as [|n IH]; intros [|c s]; cbn; try done; try lia. intros. by rewrite IH by lia. Qed.

Lemma str_len_app (a b : string) : str_len (a +:+ b) = str_len a + str_len b.
Proof. unfold str_len. rewrite str_length_app. lia. Qed.

Lemma str_join_nil_cons c (cs : list string) : str_join "" (c :: cs) = c +:+ str_join "" cs.
Proof. destruct cs; cbn; [by rewrite str_app_nil_r|done]. Qed.

Lemma startswith_spec (p s : string) : startswith p s = true <-> exists t, s = p +:+ t.
Proof.
  unfold startswith. revert s. induction p as [|c p IH]; intros s.
  - split; [by exists s|by destruct s].
  - destruct s as [|c' s]; cbn.
    + split; [done|]. by intros [t ?].
    + destruct (ascii_dec c c') as [->|Hc].
      * rewrite IH. split; intros [t Ht]; exists t.
        -- by rewrite Ht.
        -- by injection Ht.
      * split; [done|]. intros [t Ht]. injection Ht. congruence.
Qed.

Lemma startswith_app (p t : string) : startswith p (p +:+ t) = true.
Proof. apply startswith_spec. by exists t. Qed.

#[export] Hint Rewrite startswith_spec : boolp.

(** An occurrence cannot start in a part that lacks its first character. *)
Lemma str_contains_skip c (p a b : string) :
  c ∉ String.list_ascii_of_string a -> str_contains (String c p) (a +:+ b) = str_contains (String c p) b.
Proof.
  induction a as [|x a IH]; intros Hc; [done|]. cbn in Hc. apply not_elem_of_cons in Hc as [Hx Hc].
  rewrite str_app_cons. cbn [str_contains String.prefix].
  destruct (ascii_dec c x); [done|]. cbn. by apply IH.
Qed.

Lemma str_contains_none c (p s : string) :
  c ∉ String.list_ascii_of_string s -> str_contains (String c p) s = false.
Proof.
  intros Hc. rewrite <-(str_app_nil_r s). by rewrite str_contains_skip.
Qed.

Lemma str_split_nonempty sep (s : string) : str_split sep s <> [].
Proof. destruct s as [|c s]; cbn; [done|]. repeat case_match; done. Qed.

Lemma str_join_split sep (s : string) :
  str_join (String sep "") (str_split sep s) = s.
Proof.
  induction s as [|c s IH]; [done|]. cbn [str_split].
  pose proof (str_split_nonempty sep s) as Hne.
  destruct (str_split sep s) as [|w ws] eqn:E; [done|].
  case_decide as Hc.
  - subst c. cbn [str_join] in *. by rewrite <-IH.
  - cbn [str_join] in *. destruct ws; cbn in *; by rewrite <-IH.
Qed.

Lemma str_split_no_sep sep (s w : string) :
  w ∈ str_split sep s -> ~ sep ∈ String.list_ascii_of_string w.
Proof.
  revert w. induction s as [|c s IH]; intros w; cbn.
  - intros ->%list_elem_of_singleton. cbn. set_solver.
  - case_decide as Hc.
    + rewrite elem_of_cons. intros [->|?]; [set_solver|eauto].
    + pose proof (str_split_nonempty sep s) as Hne.
      destruct (str_split sep s) as [|w' ws]; [done|].
      rewrite elem_of_cons. intros [->|?].
      * cbn. rewrite elem_of_cons. intros [?|?]; [congruence|].
        eapply (IH w'); [left|done].
      * apply IH. by right.
Qed.

(** *** Decimal round trip *)

Lemma digits_of_uint (d : Decimal.uint) :
  str_all is_digit (NilEmpty.string_of_uint d) = true.
Proof. induction d; cbn [NilEmpty.string_of_uint str_all]; rewrite ?IHd; done. Qed.

Lemma drop_underscores_digits b (s : string) :
  str_all is_digit s = true -> (b = true \/ s <> "") -> drop_underscores b s = Some s.
Proof.
  revert b. induction s as [|c s IH]; intros b; cbn.
  - intros _ [->|?]; done.
  - intros [Hc Hs]%andb_true_iff _. case_decide as Hu; [by subst c|].
    rewrite Hc, IH by eauto. done.
Qed.

Lemma digit_not_space c : is_digit c = true -> is_space c = false.
Proof.
  unfold is_digit, is_space. intros H. boolp.
  repeat split; lia || (destruct H; lia).
Qed.

Lemma rstrip_digits (s : string) : str_all is_digit s = true -> rstrip_by is_space s = s.
Proof.
  induction s as [|c s IH]; cbn; [done|]. intros [Hc Hs]%andb_true_iff.
  rewrite IH by done. destruct s; [|done]. by rewrite digit_not_space.
Qed.

Lemma lstrip_digits (s : string) : str_all is_digit s = true -> lstrip_by is_space s = s.
Proof.
  destruct s as [|c s]; cbn; [done|]. intros [Hc _]%andb_true_iff. by rewrite digit_not_space.
Qed.

Lemma nz_string_of_uint_nonempty d : NilZero.string_of_uint d <> "".
Proof. by destruct d. Qed.

Lemma nz_string_of_uint_digits d : str_all is_digit (NilZero.string_of_uint d) = true.
Proof. destruct d; [done|apply (digits_of_uint (Decimal.D0 _))|..]; apply digits_of_uint. Qed.

Lemma nz_roundtrip (d : Decimal.uint) :
  d <> Decimal.Nil ->
  option_map Z.of_uint (NilZero.uint_of_string (NilZero.string_of_uint d)) = Some (Z.of_uint d).
Proof. intros Hd. by rewrite NilZero.usu. Qed.

Lemma py_int_unsigned_uint (d : Decimal.uint) :
  d <> Decimal.Nil ->
  py_int_unsigned (NilZero.string_of_uint d) = Some (Z.of_uint d).
Proof.
  intros Hd. unfold py_int_unsigned.
  rewrite drop_underscores_digits;
    [by apply nz_roundtrip|apply nz_string_of_uint_digits|right; apply nz_string_of_uint_nonempty].
Qed.

Lemma strip_digits (s : string) : str_all is_digit s = true -> str_strip s = s.
Proof. intros H. unfold str_strip. by rewrite lstrip_digits, rstrip_digits. Qed.

Lemma strip_minus_digits (s : string) :
  str_all is_digit s = true -> s <> "" -> str_strip ("-" +:+ s) = "-" +:+ s.
Proof.
  intros H Hs. unfold str_strip. change ("-" +:+ s) with (String "-" s).
  change (lstrip_by is_space (String "-" s)) with (String "-" s).
  cbn [rstrip_by]. rewrite rstrip_digits by done. by destruct s.
Qed.

(** Printing an integer and reading it back gives the integer. *)
Lemma py_int_str (z : Z) : py_int (py_str_int z) = Some z.
Proof.
  unfold py_str_int. pose proof (DecimalZ.of_to z) as Hz.
  assert (Hnil : forall d, Z.to_int z = Decimal.Pos d \/ Z.to_int z = Decimal.Neg d ->
                 d <> Decimal.Nil).
  { intros d Hd ->. destruct z; cbn in Hd; destruct Hd as [Hd|Hd]; try done; injection Hd;
      apply DecimalPos.Unsigned.to_uint_nonnil. }
  destruct (Z.to_int z) as [d|d]; cbn [NilZero.string_of_int Z.of_int] in *; subst z.
  - unfold py_int. rewrite strip_digits by apply nz_string_of_uint_digits.
    pose proof (nz_string_of_uint_digits d) as Hd.
    pose proof (py_int_unsigned_uint d (Hnil d (or_introl eq_refl))) as Hu.
    destruct (NilZero.string_of_uint d) as [|c s] eqn:E; [done|].
    destruct c as [[] [] [] [] [] [] [] []]; try done.
  - unfold py_int. change (String "-" ?s) with ("-" +:+ s).
    rewrite strip_minus_digits by
      (apply nz_string_of_uint_digits || apply nz_string_of_uint_nonempty).
    change (option_map Z.opp (py_int_unsigned (NilZero.string_of_uint d)) = Some (- Z.of_uint d)).
    by rewrite py_int_unsigned_uint by eauto.
Qed.

Lemma py_str_int_nonempty (z : Z) : py_str_int z <> "".
Proof. intros H. pose proof (py_int_str z) as E. by rewrite H in E. Qed.

Lemma py_str_int_inj (a b : Z) : py_str_int a = py_str_int b -> a = b.
Proof. intros H. pose proof (py_int_str a) as E. rewrite H, py_int_str in E. congruence. Qed.

(** Text with a character that no decimal numeral contains is not a
    numeral. *)
Lemma drop_underscores_preserves b (s t : string) c :
  drop_underscores b s = Some t -> c <> "_"%char ->
  c ∈ String.list_ascii_of_string s -> c ∈ String.list_ascii_of_string t.
Proof.
  revert b t. induction s as [|c' s IH]; intros b t; cbn; [set_solver|].
  case_decide.
  - destruct b; [|done]. intros ? ? [?|?]%elem_of_cons; [congruence|eauto].
  - destruct (drop_underscores _ s) as [u|] eqn:E; [|done]. cbn. intros [= <-] ? [->|?]%elem_of_cons; cbn; set_solver.
Qed.
