(* ===== verification/PyPath.v ===== *)
(** * Lemmas on POSIX paths and separated text

    What [os.path.normpath] of [PyStr] leaves of an absolute path: the
    components after resolving ["."], [".."] and empty ones. *)
From Stdlib Require Import Ascii.
From S2P Require Import Prelude PyStr.

Lemma startswith_cons c (p s : string) : startswith (String c p) (String c s) = startswith p s.
Proof. unfold startswith. cbn. by destruct (ascii_dec c c). Qed.

Lemma head_rev {A} (l : list A) : head (rev l) = last l.
Proof. rewrite rev_alt. apply head_reverse. Qed.

(** The components of an absolute path after resolving ["."] and [".."],
    innermost first. *)
Definition resolved (p : string) : list string := foldl (normpath_step true) [] (str_split slash p).

Definition plain_component (c : string) : Prop :=
  c <> "" /\ c <> "." /\ c <> ".." /\ ~ slash ∈ String.list_ascii_of_string c.

Lemma normpath_step_plain stack c :
  Forall plain_component stack -> ~ slash ∈ String.list_ascii_of_string c ->
  Forall plain_component (normpath_step true stack c).
Proof.
  intros Hst Hc. unfold normpath_step.
  destruct (decide (c = "" \/ c = ".")) as [|Hno]; [done|].
  destruct (decide (c <> "..")).
  - constructor; [|done]. unfold plain_component. tauto.
  - destruct Hst as [|top rest Htop Hrest]; [done|].
    destruct Htop as (_ & _ & ? & _). by rewrite decide_False.
Qed.

Lemma foldl_step_plain comps stack :
  Forall plain_component stack ->
  Forall (fun c => ~ slash ∈ String.list_ascii_of_string c) comps ->
  Forall plain_component (foldl (normpath_step true) stack comps).
Proof.
  intros Hst Hc. revert stack Hst. induction Hc as [|c comps Hc _ IH]; [done|].
  intros stack Hst. cbn. apply IH. by apply normpath_step_plain.
Qed.

Lemma resolved_plain p : Forall plain_component (resolved p).
Proof.
  apply foldl_step_plain; [constructor|]. apply Forall_forall. intros w Hw.
  by eapply str_split_no_sep.
Qed.

Lemma normpath_abs p :
  startswith "/" p = true -> normpath p = initial_slashes p +:+ str_join "/" (rev (resolved p)).
Proof.
  intros Hp. unfold normpath, resolved. cbv zeta. rewrite Hp.
  rewrite decide_False by (by intros ->).
  rewrite decide_False; [done|]. unfold initial_slashes. rewrite Hp.
  by case_match.
Qed.

Lemma str_split_app_sep sep (w s : string) :
  ~ sep ∈ String.list_ascii_of_string w ->
  str_split sep (w +:+ String sep s) = w :: str_split sep s.
Proof.
  induction w as [|c w IH]; intros Hw.
  - change ("" +:+ String sep s) with (String sep s). cbn [str_split]. by rewrite decide_True.
  - change (String c w +:+ String sep s) with (String c (w +:+ String sep s)). cbn [str_split].
    cbn in Hw. rewrite not_elem_of_cons in Hw. rewrite decide_False by naive_solver.
    by rewrite IH by tauto.
Qed.

Lemma str_split_single sep (w : string) :
  ~ sep ∈ String.list_ascii_of_string w -> str_split sep w = [w].
Proof.
  induction w as [|c w IH]; [done|]. cbn. rewrite not_elem_of_cons. intros [??].
  rewrite decide_False by congruence. by rewrite IH.
Qed.

(** Splitting what was joined. *)
Lemma str_split_join sep (l : list string) :
  l <> [] -> Forall (fun w => ~ sep ∈ String.list_ascii_of_string w) l ->
  str_split sep (str_join (String sep "") l) = l.
Proof.
  intros Hne Hl. induction Hl as [|w l Hw Hl IH]; [done|].
  destruct l as [|w' l]; [by apply str_split_single|].
  change (str_join (String sep "") (w :: w' :: l))
    with (w +:+ String sep (str_join (String sep "") (w' :: l))).
  rewrite str_split_app_sep by done. by rewrite IH.
Qed.

(** [root] (without its slash) covers a joined path when it is its first
    component. *)
Lemma covered_iff root comps :
  Forall plain_component comps -> plain_component root ->
  (str_join "/" comps = root \/ startswith (root +:+ "/") (str_join "/" comps) = true)
  <-> head comps = Some root.
Proof.
  intros Hc Hr. destruct (decide (comps = [])) as [->|Hne].
  { split; [|done]. destruct Hr as (Hr & _). cbn [str_join]. intros [<-|H]; [done|].
    apply startswith_spec in H as [t Ht]. by destruct root. }
  assert (Hns : Forall (fun w => ~ slash ∈ String.list_ascii_of_string w) comps)
    by (eapply Forall_impl; [exact Hc|]; by intros w (_ & _ & _ & ?)).
  assert (Hrs : ~ slash ∈ String.list_ascii_of_string root) by apply Hr.
  pose proof (str_split_join slash comps Hne Hns) as Hsj. change (String slash "") with "/" in Hsj.
  split.
  - intros [H|(t & H)%startswith_spec].
    + rewrite H, str_split_single in Hsj by done. by rewrite <-Hsj.
    + rewrite H, str_app_assoc in Hsj. change ("/" +:+ t) with (String slash t) in Hsj.
      rewrite str_split_app_sep in Hsj by done. by rewrite <-Hsj.
  - destruct comps as [|w comps]; [done|]. intros [= ->].
    destruct comps as [|w' comps]; [by left|]. right. apply startswith_spec.
    exists (str_join "/" (w' :: comps)). by rewrite str_app_assoc.
Qed.

Lemma str_split_app (sep : ascii) (a b : string) :
  str_split sep (a +:+ String sep b) = str_split sep a ++ str_split sep b.
Proof.
  induction a as [|c a IH].
  - change ("" +:+ String sep b) with (String sep b). cbn [str_split]. by rewrite decide_True.
  - change (String c a +:+ String sep b) with (String c (a +:+ String sep b)). cbn [str_split].
    rewrite IH. case_decide; [done|].
    pose proof (str_split_nonempty sep a). by destruct (str_split sep a).
Qed.

Lemma normpath_step_push b stack c :
  c <> "" -> c <> "." -> c <> ".." -> normpath_step b stack c = c :: stack.
Proof. intros. unfold normpath_step. rewrite decide_False by tauto. by rewrite decide_True. Qed.

Lemma normpath_step_pop b stack c : c <> ".." -> normpath_step b (c :: stack) ".." = stack.
Proof.
  intros. unfold normpath_step. rewrite decide_False by (by intros [?|?]).
  rewrite decide_False by (by intros []). by rewrite decide_False.
Qed.

(** A component followed by [".."] leaves no trace. *)
Lemma resolved_detour p c q :
  plain_component c ->
  resolved (p +:+ "/" +:+ c +:+ "/../" +:+ q) = resolved (p +:+ "/" +:+ q).
Proof.
  intros (Hc1 & Hc2 & Hc3 & Hc). unfold resolved.
  change ("/" +:+ c +:+ "/../" +:+ q) with (String slash (c +:+ String slash (".." +:+ String slash q))).
  change ("/" +:+ q) with (String slash q).
  rewrite !str_split_app, (str_split_single slash c) by done. cbn [app].
  rewrite !foldl_app. cbn [foldl]. change (str_split slash "..") with [".."]. cbn [app foldl].
  by rewrite (normpath_step_push _ _ c), normpath_step_pop by done.
Qed.

(** ** Text with a separator *)

(** Text without the separator before it can be cut in one way. *)
Lemma app_sep_inj (c : ascii) (a b s t : string) :
  ~ c ∈ String.list_ascii_of_string a -> ~ c ∈ String.list_ascii_of_string b ->
  a +:+ String c s = b +:+ String c t -> a = b /\ s = t.
Proof.
  revert b. induction a as [|x a IH]; intros [|y b] Ha Hb E; cbn in Ha, Hb.
  - by injection E.
  - injection E as -> _. set_solver.
  - injection E as <- _. set_solver.
  - change (String x (a +:+ String c s) = String y (b +:+ String c t)) in E.
    injection E as -> E. destruct (IH b) as [-> ->]; [set_solver..|done|done].
Qed.
