(* ===== verification/PyVal.v ===== *)
(** * Python values

    The values [json.loads] and [yaml.safe_load] produce, with the operations
    on them the modelled code uses: membership, indexing, truthiness,
    hashability and [repr].  A [float] is represented by its [repr], which
    determines it.  Dictionaries keep insertion order. *)
From Stdlib Require Import Ascii.
From S2P Require Import Prelude PyStr.

Inductive pyval : Type :=
| VNone
| VBool (b : bool)
| VInt (z : Z)
| VFloat (r : string)
| VStr (s : string)
| VList (l : list pyval)
| VDict (d : list (pyval * pyval)).

Abbreviation pydict := (list (pyval * pyval)).

(** [isinstance] tests; [bool] is a subclass of [int]. *)
Definition is_str (v : pyval) : bool := match v with VStr _ => true | _ => false end.
Definition is_bool (v : pyval) : bool := match v with VBool _ => true | _ => false end.
Definition is_int (v : pyval) : bool := match v with VInt _ | VBool _ => true | _ => false end.
Definition is_list (v : pyval) : bool := match v with VList _ => true | _ => false end.
Definition is_dict (v : pyval) : bool := match v with VDict _ => true | _ => false end.
Definition is_none (v : pyval) : bool := match v with VNone => true | _ => false end.

(** The integer an [int] instance stands for. *)
Definition int_value (v : pyval) : Z :=
  match v with VInt z => z | VBool true => 1 | _ => 0 end.

(** [bool(v)] *)
Definition truthy (v : pyval) : bool :=
  match v with
  | VNone => false
  | VBool b => b
  | VInt z => negb (z =? 0)
  | VFloat r => bool_decide (r <> "0.0" /\ r <> "-0.0")
  | VStr s => bool_decide (s <> "")
  | VList l => match l with [] => false | _ => true end
  | VDict d => match d with [] => false | _ => true end
  end.

(** Lists and dictionaries have no hash: membership in a set or a dict
    raises [TypeError] for them. *)
Definition hashable (v : pyval) : bool :=
  match v with VList _ | VDict _ => false | _ => true end.

(** [v in S] for a set [S] of strings. *)
Definition in_str_set (v : pyval) (S : list string) : res bool :=
  match v with
  | VStr s => Ok (bool_decide (s ∈ S))
  | _ => if hashable v then Ok false else Raise TypeError
  end.

(** [d.get(k)], [k in d] and [d[k]] for a string key. *)
Fixpoint dict_get (d : pydict) (k : string) : option pyval :=
  match d with
  | [] => None
  | (VStr k', v) :: d' => if decide (k' = k) then Some v else dict_get d' k
  | _ :: d' => dict_get d' k
  end.

Definition dict_has (d : pydict) (k : string) : bool :=
  match dict_get d k with Some _ => true | None => false end.

Definition dict_index (d : pydict) (k : string) : res pyval :=
  match dict_get d k with Some v => Ok v | None => Raise KeyError end.

(** [d.get(k)] with Python's default [None], and [d.get(k, dflt)]. *)
Definition dict_get_none (d : pydict) (k : string) : pyval := default VNone (dict_get d k).
Definition dict_get_default (d : pydict) (k : string) (dflt : pyval) : pyval :=
  default dflt (dict_get d k).

(** A dictionary literal with string keys. *)
Definition mk_dict (kvs : list (string * pyval)) : pydict :=
  (fun kv => (VStr kv.1, kv.2)) <$> kvs.

Section Repr.
Definition quote_char : ascii := "'"%char.
Definition dquote_char : ascii := ascii_of_N 34.
Definition backslash : ascii := ascii_of_N 92.

Definition hex_digit (n : N) : ascii :=
  if (n <? 10)%N then ascii_of_N (n + 48) else ascii_of_N (n + 87).

(** One character of a string literal quoted with [q]. *)
Definition repr_char (q c : ascii) : string :=
  if decide (c = q \/ c = backslash) then String backslash (String c "")
  else if decide (c = ascii_of_N 10) then String backslash "n"
  else if decide (c = ascii_of_N 13) then String backslash "r"
  else if decide (c = ascii_of_N 9) then String backslash "t"
  else
    let n := N_of_ascii c in
    if ((n <? 32) || ((127 <=? n) && (n <=? 160)) || (n =? 173))%N
    then String backslash (String "x" (String (hex_digit (n / 16)) (String (hex_digit (n mod 16)) "")))
    else String c "".

Definition repr_str (s : string) : string :=
  let cs := String.list_ascii_of_string s in
  let q := if bool_decide (quote_char ∈ cs) && negb (bool_decide (dquote_char ∈ cs))
           then dquote_char else quote_char in
  String q (foldr (fun c acc => repr_char q c +:+ acc) (String q "") cs).

Fixpoint py_repr (v : pyval) : string :=
  match v with
  | VNone => "None"
  | VBool true => "True"
  | VBool false => "False"
  | VInt z => py_str_int z
  | VFloat r => r
  | VStr s => repr_str s
  | VList l => "[" +:+ str_join ", " (py_repr <$> l) +:+ "]"
  | VDict d =>
      "{" +:+ str_join ", " ((fun kv => py_repr kv.1 +:+ ": " +:+ py_repr kv.2) <$> d) +:+ "}"
  end.
End Repr.

(** [str(v)] *)
Definition py_str (v : pyval) : string :=
  match v with VStr s => s | _ => py_repr v end.

(** ** Lemmas *)

Lemma in_str_set_true v S : in_str_set v S = Ok true <-> exists s, v = VStr s /\ s ∈ S.
Proof.
  destruct v; cbn; split; try done; try (by intros (? & ? & ?)).
  - intros [= H%bool_decide_eq_true]. eauto.
  - intros (? & [= <-] & ?). by rewrite bool_decide_true.
Qed.

Lemma in_str_set_raises v S e : in_str_set v S = Raise e <-> e = TypeError /\ hashable v = false.
Proof. destruct v; cbn; naive_solver. Qed.

Lemma dict_has_true d k : dict_has d k = true <-> is_Some (dict_get d k).
Proof. unfold dict_has. destruct (dict_get d k); split; naive_solver. Qed.

Lemma dict_has_false d k : dict_has d k = false <-> dict_get d k = None.
Proof. unfold dict_has. destruct (dict_get d k); naive_solver. Qed.

Lemma dict_index_Ok d k v : dict_index d k = Ok v <-> dict_get d k = Some v.
Proof. unfold dict_index. destruct (dict_get d k); naive_solver. Qed.

Lemma dict_index_Raise d k e : dict_index d k = Raise e <-> e = KeyError /\ dict_get d k = None.
Proof. unfold dict_index. destruct (dict_get d k); naive_solver. Qed.

#[export] Hint Rewrite dict_has_true dict_has_false : boolp.

Example repr_check :
  py_repr (VDict [(VStr "a'b", VList [VInt (-3); VBool true; VNone])]) =
  "{" +:+ String dquote_char ("a'b" +:+ String dquote_char ": [-3, True, None]}").
Proof. vm_compute. reflexivity. Qed.
