(* ===== verification/PyLib.v ===== *)
(** * Standard-library text functions: [shlex.split] and [json.dumps]

    [shlex.split(s, posix=True)] as the state machine of [shlex.read_token]
    with [whitespace_split] set and no comment characters, and
    [json.dumps(v, default=str, ensure_ascii=False)] on the values of
    [PyVal]. *)
From Stdlib Require Import Ascii.
From S2P Require Import Prelude PyStr PyVal.

(** ** [shlex] *)

(** Between words, in a word, in quotes [q], after a backslash in a word or
    after a backslash in quotes. *)
Inductive lex_state : Type :=
| LSpace
| LWord
| LQuote (q : ascii)
| LEscWord
| LEscQuote (q : ascii).

Definition lex_white (c : ascii) : bool :=
  bool_decide (c = " "%char \/ c = ascii_of_N 9 \/ c = ascii_of_N 13 \/ c = ascii_of_N 10).
Definition lex_quote (c : ascii) : bool := bool_decide (c = quote_char \/ c = dquote_char).

(** [tok] is the reversed token so far and [quoted] whether it had quotes: a
    quoted token is emitted even when it is empty. *)
Fixpoint shlex_go (st : lex_state) (tok : string) (quoted : bool) (s : string) : res (list string) :=
  match s with
  | "" =>
      match st with
      | LSpace => Ok []
      | LWord => Ok (if bool_decide (tok <> "") || quoted then [str_rev tok] else [])
      | _ => Raise ValueError
      end
  | String c s' =>
      match st with
      | LSpace =>
          if lex_white c then shlex_go LSpace "" false s'
          else if decide (c = backslash) then shlex_go LEscWord "" quoted s'
          else if lex_quote c then shlex_go (LQuote c) "" quoted s'
          else shlex_go LWord (String c "") quoted s'
      | LWord =>
          if lex_white c then
            (if bool_decide (tok <> "") || quoted
             then ts <-- shlex_go LSpace "" false s' ;; Ok (str_rev tok :: ts)
             else shlex_go LSpace "" quoted s')
          else if lex_quote c then shlex_go (LQuote c) tok quoted s'
          else if decide (c = backslash) then shlex_go LEscWord tok quoted s'
          else shlex_go LWord (String c tok) quoted s'
      | LQuote q =>
          if decide (c = q) then shlex_go LWord tok true s'
          else if decide (c = backslash /\ q = dquote_char) then shlex_go (LEscQuote q) tok true s'
          else shlex_go (LQuote q) (String c tok) true s'
      | LEscWord => shlex_go LWord (String c tok) quoted s'
      | LEscQuote q =>
          shlex_go (LQuote q)
            (String c (if decide (c <> backslash /\ c <> q) then String backslash tok else tok)) quoted s'
      end
  end.

Definition shlex_split (s : string) : res (list string) := shlex_go LSpace "" false s.

(** ** [json.dumps] *)

Definition hex4 (n : N) : string :=
  "00" +:+ String (hex_digit (n / 16)) (String (hex_digit (n mod 16)) "").

Definition json_char (c : ascii) : string :=
  if decide (c = dquote_char \/ c = backslash) then String backslash (String c "")
  else if decide (c = ascii_of_N 10) then String backslash "n"
  else if decide (c = ascii_of_N 13) then String backslash "r"
  else if decide (c = ascii_of_N 9) then String backslash "t"
  else if decide (c = ascii_of_N 8) then String backslash "b"
  else if decide (c = ascii_of_N 12) then String backslash "f"
  else if (N_of_ascii c <? 32)%N then String backslash ("u" +:+ hex4 (N_of_ascii c))
  else String c "".

Definition json_str (s : string) : string :=
  String dquote_char
    (foldr (fun c acc => json_char c +:+ acc) (String dquote_char "") (String.list_ascii_of_string s)).

(** With [ensure_ascii] (the default of [json.dumps]) the characters above 126
    are escaped as well. *)
Definition json_char_ascii (c : ascii) : string :=
  if (126 <? N_of_ascii c)%N then
    String backslash ("u" +:+ hex4 (N_of_ascii c))
  else json_char c.

Definition json_str_ascii (s : string) : string :=
  String dquote_char
    (foldr (fun c acc => json_char_ascii c +:+ acc) (String dquote_char "") (String.list_ascii_of_string s)).

Definition json_float (r : string) : string :=
  if decide (r = "nan") then "NaN" else if decide (r = "inf") then "Infinity"
  else if decide (r = "-inf") then "-Infinity" else r.

(** Keys that are not text are converted; a list or a dict cannot be a key. *)
Definition json_key (v : pyval) : string :=
  json_str match v with
           | VStr s => s
           | VNone => "null"
           | VBool true => "true"
           | VBool false => "false"
           | VInt z => py_str_int z
           | VFloat r => json_float r
           | _ => py_repr v
           end.

(** [json.dumps(v)] of a value whose keys are texts. *)
Fixpoint json_dumps_ascii (v : pyval) : string :=
  match v with
  | VNone => "null"
  | VBool true => "true"
  | VBool false => "false"
  | VInt z => py_str_int z
  | VFloat r => json_float r
  | VStr s => json_str_ascii s
  | VList l => "[" +:+ str_join ", " (json_dumps_ascii <$> l) +:+ "]"
  | VDict d =>
      "{" +:+ str_join ", " ((fun kv => json_str_ascii (py_str kv.1) +:+ ": " +:+ json_dumps_ascii kv.2) <$> d)
          +:+ "}"
  end.

Fixpoint json_dumps (v : pyval) : string :=
  match v with
  | VNone => "null"
  | VBool true => "true"
  | VBool false => "false"
  | VInt z => py_str_int z
  | VFloat r => json_float r
  | VStr s => json_str s
  | VList l => "[" +:+ str_join ", " (json_dumps <$> l) +:+ "]"
  | VDict d =>
      "{" +:+ str_join ", " ((fun kv => json_key kv.1 +:+ ": " +:+ json_dumps kv.2) <$> d) +:+ "}"
  end.

(** ** Lemmas *)

Lemma str_rev_length s : String.length (str_rev s) = String.length s.
Proof.
  unfold str_rev.
  assert (H : forall l, String.length (String.string_of_list_ascii l) = length l)
    by (induction l; cbn; congruence).
  rewrite H, length_rev. induction s; cbn; congruence.
Qed.

(** The characters of a list of words. *)
Definition total_length (ts : list string) : nat := sum_list (String.length <$> ts).

Lemma total_length_cons t ts : total_length (t :: ts) = (String.length t + total_length ts)%nat.
Proof. done. Qed.

Lemma total_length_app ts us : total_length (ts ++ us) = (total_length ts + total_length us)%nat.
Proof. induction ts as [|t ts IH]; [done|]. cbn [app]. rewrite !total_length_cons, IH. lia. Qed.

Definition lex_pending (st : lex_state) : nat :=
  match st with LEscQuote _ => 1 | _ => 0 end.

(** The words of a command line have together no more characters than it. *)
Lemma shlex_go_length st tok quoted s ts :
  shlex_go st tok quoted s = Ok ts ->
  (total_length ts <= String.length tok + lex_pending st + String.length s)%nat.
Proof.
  revert st tok quoted ts. induction s as [|c s IH]; intros st tok quoted ts; cbn [shlex_go].
  - destruct st; try done.
    + intros [= <-]. cbn. lia.
    + case_match; intros [= <-]; cbn; rewrite ?str_rev_length; lia.
  - cbn [String.length].
    destruct st; repeat case_match; intros Hgo;
      try (apply res_bind_Ok in Hgo as (ts' & Hgo & [= <-]); rewrite total_length_cons, str_rev_length);
      apply IH in Hgo; cbn [String.length lex_pending] in *; lia.
Qed.

Lemma shlex_split_length s ts :
  shlex_split s = Ok ts -> (total_length ts <= String.length s)%nat.
Proof. intros H%shlex_go_length. cbn in H. lia. Qed.

Lemma split_ws_go_length cur s :
  (total_length (split_ws_go cur s) <= String.length cur + String.length s)%nat.
Proof.
  revert cur. induction s as [|c s IH]; intros cur; cbn [split_ws_go].
  - case_decide; cbn; rewrite ?str_rev_length; lia.
  - case_match; [|specialize (IH (String c cur)); cbn in *; lia].
    rewrite total_length_app. specialize (IH ""). cbn [String.length] in *.
    case_decide; cbn; rewrite ?str_rev_length; lia.
Qed.

Lemma str_split_ws_length s : (total_length (str_split_ws s) <= String.length s)%nat.
Proof. apply (split_ws_go_length "" s). Qed.

Example shlex_check :
  shlex_split ("rm  -rf '/ a' " +:+ String dquote_char ("x\'\$" +:+ String dquote_char "y \ z")) =
  Ok ["rm"; "-rf"; "/ a"; "x\'\$y"; " z"].
Proof. vm_compute. reflexivity. Qed.

Example shlex_unbalanced : shlex_split "echo 'x" = Raise ValueError.
Proof. reflexivity. Qed.

Example json_check :
  json_dumps (VDict [(VStr "a", VList [VInt 1; VNone; VStr (String (ascii_of_N 7) "x")])]) =
  "{" +:+ String dquote_char "a" +:+ String dquote_char (": [1, null, " +:+ String dquote_char "\u0007x")
      +:+ String dquote_char "]}".
Proof. vm_compute. reflexivity. Qed.
