(* ===== verification/PyBytes.v ===== *)
(** * Bytes and UTF-8

    The encoding of text below code point 256 and the lenient decoding of a
    prefix of such an encoding.  A byte is an [ascii], a byte string a
    [string]. *)
From Stdlib Require Import Ascii.
From S2P Require Import Prelude PyStr.

(** UTF-8 of text below code point 256; a byte is an [ascii]. *)
Definition byte_of (n : Z) : ascii := ascii_of_N (Z.to_N n).

Fixpoint utf8_encode (s : string) : string :=
  match s with
  | "" => ""
  | String c s' =>
      if code c <? 128 then String c (utf8_encode s')
      else String (byte_of (192 + code c / 64)) (String (byte_of (128 + code c mod 64)) (utf8_encode s'))
  end.

(** [b.decode("utf-8", errors="ignore")] of bytes of such text: a lead byte
    without its continuation is dropped. *)
Fixpoint utf8_decode_ignore (b : string) : string :=
  match b with
  | "" => ""
  | String x b' =>
      if code x <? 128 then String x (utf8_decode_ignore b')
      else match b' with
           | String y b'' =>
               if (code x <? 194) || (195 <? code x) || (code y <? 128) || (191 <? code y)
               then utf8_decode_ignore b'
               else String (byte_of ((code x - 192) * 64 + (code y - 128))) (utf8_decode_ignore b'')
           | "" => ""
           end
  end.

(** ** Lemmas: bytes *)

Lemma code_byte_of n : 0 <= n < 256 -> code (byte_of n) = n.
Proof. intros Hn. unfold byte_of. rewrite N_ascii_embedding by lia. lia. Qed.

Lemma code_range c : 0 <= code c < 256.
Proof. pose proof (N_ascii_bounded c). lia. Qed.

Lemma byte_of_code c : byte_of (code c) = c.
Proof. unfold byte_of. rewrite N2Z.id. apply ascii_N_embedding. Qed.

(** The two bytes of a character above 127. *)
Lemma two_bytes c :
  128 <= code c ->
  let x := code (byte_of (192 + code c / 64)) in
  let y := code (byte_of (128 + code c mod 64)) in
  194 <= x <= 195 /\ 128 <= y <= 191 /\ byte_of ((x - 192) * 64 + (y - 128)) = c.
Proof.
  intros Hc. cbv zeta. pose proof (code_range c) as Hr.
  pose proof (Z.mod_pos_bound (code c) 64 ltac:(lia)) as Hm.
  pose proof (Z.div_mod (code c) 64 ltac:(lia)) as Hd.
  rewrite !code_byte_of by lia. split_and!; try lia.
  replace ((192 + code c / 64 - 192) * 64 + (128 + code c mod 64 - 128)) with (code c) by lia.
  apply byte_of_code.
Qed.

Lemma str_take_cons n c s : str_take (S n) (String c s) = String c (str_take n s).
Proof. done. Qed.

Lemma encode_low c s : code c < 128 -> utf8_encode (String c s) = String c (utf8_encode s).
Proof. intros H. cbn [utf8_encode]. destruct (Z.ltb_spec (code c) 128); [done|lia]. Qed.

Lemma encode_high c s :
  128 <= code c ->
  utf8_encode (String c s) =
    String (byte_of (192 + code c / 64)) (String (byte_of (128 + code c mod 64)) (utf8_encode s)).
Proof. intros H. cbn [utf8_encode]. destruct (Z.ltb_spec (code c) 128); [lia|done]. Qed.

Lemma decode_low c b : code c < 128 -> utf8_decode_ignore (String c b) = String c (utf8_decode_ignore b).
Proof. intros H. cbn [utf8_decode_ignore]. destruct (Z.ltb_spec (code c) 128); [done|lia]. Qed.

Lemma decode_high c b :
  128 <= code c ->
  utf8_decode_ignore (String (byte_of (192 + code c / 64)) (String (byte_of (128 + code c mod 64)) b)) =
    String c (utf8_decode_ignore b).
Proof.
  intros Hc. destruct (two_bytes c Hc) as (Hx & Hy & Hxy). cbn [utf8_decode_ignore].
  destruct (Z.ltb_spec (code (byte_of (192 + code c / 64))) 128); [lia|].
  destruct (Z.ltb_spec (code (byte_of (192 + code c / 64))) 194); [lia|].
  destruct (Z.ltb_spec 195 (code (byte_of (192 + code c / 64)))); [lia|].
  destruct (Z.ltb_spec (code (byte_of (128 + code c mod 64))) 128); [lia|].
  destruct (Z.ltb_spec 191 (code (byte_of (128 + code c mod 64)))); [lia|]. cbn [orb]. by rewrite Hxy.
Qed.

(** Decoding a prefix of an encoding gives the longest prefix of the text that
    fits. *)
Lemma decode_take n s :
  exists k, utf8_decode_ignore (str_take n (utf8_encode s)) = str_take k s /\
    (k <= String.length s)%nat /\
    (String.length (utf8_encode (str_take k s)) <= n)%nat /\
    ((k < String.length s)%nat -> (n < String.length (utf8_encode (str_take (S k) s)))%nat).
Proof.
  revert n. induction s as [|c s IH]; intros n.
  { exists 0%nat. split_and!; try (cbn; lia). by destruct n. }
  destruct (Z.lt_ge_cases (code c) 128) as [Hc|Hc].
  - rewrite encode_low by done. destruct n as [|n].
    + exists 0%nat. split_and!; try (cbn; lia); [done|]. intros _.
      rewrite str_take_cons, encode_low by done. cbn [String.length]. lia.
    + destruct (IH n) as (k & Hk & Hl & Hle & Hmax). exists (S k).
      rewrite !str_take_cons, encode_low, decode_low, Hk by done. cbn [String.length].
      split_and!; [done|lia|lia|]. intros Hlt. rewrite encode_low by done.
      cbn [String.length]. lia.
  - rewrite encode_high by done. destruct n as [|[|n]].
    + exists 0%nat. split_and!; try (cbn; lia); [done|]. intros _.
      rewrite str_take_cons, encode_high by done. cbn [String.length]. lia.
    + exists 0%nat. split_and!; try (cbn; lia).
      * destruct (two_bytes c Hc) as (Hx & _). rewrite str_take_cons. cbn [str_take utf8_decode_ignore].
        destruct (Z.ltb_spec (code (byte_of (192 + code c / 64))) 128); [lia|done].
      * intros _. rewrite str_take_cons, encode_high by done. cbn [String.length]. lia.
    + destruct (IH n) as (k & Hk & Hl & Hle & Hmax). exists (S k).
      rewrite !str_take_cons, encode_high, decode_high, Hk by done. cbn [String.length].
      split_and!; [done|lia|lia|]. intros Hlt. rewrite encode_high by done.
      cbn [String.length]. lia.
Qed.

