(* ===== verification/PyUrl.v ===== *)
(** * URLs and IP addresses

    [urllib.parse.urlsplit] with the [hostname] and [port] of its result, and
    [ipaddress.ip_address] with the address classes the code tests.  Both
    follow CPython 3.12, the version of the harness image; the NFKC check of
    [urlsplit] cannot reject text below code point 256. *)
From Stdlib Require Import Ascii.
From S2P Require Import Prelude PyStr PyPath.

(** ** Text *)

(** [s.partition(c)]: the text before and after the first [c], and whether
    there is one. *)
Fixpoint partition (c : ascii) (s : string) : string * bool * string :=
  match s with
  | "" => ("", false, "")
  | String c' s' =>
      if decide (c' = c) then ("", true, s')
      else let '(a, b, r) := partition c s' in (String c' a, b, r)
  end.

(** [s.rpartition(c)[2]] *)
Definition after_last (c : ascii) (s : string) : string := default "" (last (str_split c s)).

Definition has_char (c : ascii) (s : string) : bool := in_chars s c.

Definition is_alpha (c : ascii) : bool :=
  ((65 <=? code c) && (code c <=? 90)) || ((97 <=? code c) && (code c <=? 122)).
Definition is_hex (c : ascii) : bool :=
  is_digit c || ((65 <=? code c) && (code c <=? 70)) || ((97 <=? code c) && (code c <=? 102)).

(** [s.replace(c, "")] *)
Fixpoint str_remove (p : ascii -> bool) (s : string) : string :=
  match s with
  | "" => ""
  | String c s' => if p c then str_remove p s' else String c (str_remove p s')
  end.

(** ** IPv4 addresses *)

Definition parse_octet (s : string) : option Z :=
  if bool_decide (s = "") then None
  else if negb (str_all is_digit s) then None
  else if 3 <? str_len s then None
  else if bool_decide (s <> "0") && startswith "0" s then None
  else n ← py_int s; if 255 <? n then None else Some n.

(** [int.from_bytes(octets, "big")] *)
Definition join_octets (l : list Z) : Z := foldl (fun a o => a * 256 + o) 0 l.

Definition parse_ipv4 (s : string) : option Z :=
  if has_char slash s then None
  else if decide (s = "") then None
  else let octets := str_split "." s in
       if decide (length octets = 4%nat) then join_octets <$> mapM parse_octet octets else None.

(** ** IPv6 addresses *)

Definition hex_value (c : ascii) : Z :=
  if is_digit c then code c - 48 else if code c <=? 70 then code c - 55 else code c - 87.

(** [int(s, 16)] of hexadecimal digits. *)
Fixpoint hex_int_from (acc : Z) (s : string) : Z :=
  match s with
  | "" => acc
  | String c s' => hex_int_from (acc * 16 + hex_value c) s'
  end.

Definition parse_hextet (s : string) : option Z :=
  if negb (str_all is_hex s) then None
  else if 4 <? str_len s then None
  else if decide (s = "") then None
  else Some (hex_int_from 0 s).

Definition hex_char (d : Z) : ascii := ascii_of_N (Z.to_N (if d <? 10 then 48 + d else 87 + d)).

(** ['%x' % n] for [0 <= n <= 0xffff]. *)
Fixpoint hex_text_go (fuel : nat) (n : Z) (acc : string) : string :=
  match fuel with
  | O => acc
  | S fuel' =>
      let acc := String (hex_char (n mod 16)) acc in
      if n <? 16 then acc else hex_text_go fuel' (n / 16) acc
  end.
Definition hex_text (n : Z) : string := hex_text_go 4 n "".

(** An IPv4 suffix becomes two hextets. *)
Definition expand_v4_suffix (parts : list string) : option (list string) :=
  let tail := default "" (last parts) in
  if has_char "." tail then
    v4 ← parse_ipv4 tail;
    Some (removelast parts ++ [hex_text (Z.land (Z.shiftr v4 16) 65535); hex_text (Z.land v4 65535)])
  else Some parts.

(** The inner empty parts: where ["::"] stands. *)
Definition skip_indices (parts : list string) : list nat :=
  filter (fun i => parts !! i = Some "") (seq 1 (length parts - 2)).

(** How many parts are read before and after the ["::"], and how many are
    skipped. *)
Definition v6_layout (parts : list string) : option (nat * nat * nat) :=
  let first_empty := bool_decide (head parts = Some "") in
  let last_empty := bool_decide (last parts = Some "") in
  match skip_indices parts with
  | [] =>
      if decide (length parts <> 8%nat) then None
      else if first_empty || last_empty then None
      else Some (8%nat, 0%nat, 0%nat)
  | [skip] =>
      let hi := skip in
      let lo := (length parts - skip - 1)%nat in
      if first_empty && bool_decide (hi <> 1%nat) then None
      else
        let hi := if first_empty then (hi - 1)%nat else hi in
        if last_empty && bool_decide (lo <> 1%nat) then None
        else
          let lo := if last_empty then (lo - 1)%nat else lo in
          if (8 <=? hi + lo)%nat then None else Some (hi, lo, (8 - (hi + lo))%nat)
  | _ => None
  end.

Definition add_hextet (acc h : Z) : Z := Z.lor (Z.shiftl acc 16) h.

Definition parse_ipv6_text (s : string) : option Z :=
  if decide (s = "") then None
  else
    let parts := str_split ":" s in
    if (length parts <? 3)%nat then None
    else
      parts ← expand_v4_suffix parts;
      if (9 <? length parts)%nat then None
      else
        '(hi, lo, skipped) ← v6_layout parts;
        his ← mapM parse_hextet (take hi parts);
        los ← mapM parse_hextet (lastn lo parts);
        Some (foldl add_hextet (Z.shiftl (foldl add_hextet 0 his) (16 * Z.of_nat skipped)) los).

(** A scope id after [%] must be there and hold no second [%]. *)
Definition parse_ipv6 (s : string) : option Z :=
  if has_char slash s then None
  else let '(addr, sep, scope) := partition "%" s in
       if sep && (bool_decide (scope = "") || has_char "%" scope) then None
       else parse_ipv6_text addr.

Inductive ip_addr : Type :=
| V4 (ip : Z)
| V6 (ip : Z).

(** [ipaddress.ip_address(s)]: [None] is its [ValueError]. *)
Definition ip_address (s : string) : option ip_addr :=
  match parse_ipv4 s with
  | Some ip => Some (V4 ip)
  | None => V6 <$> parse_ipv6 s
  end.

(** ** Address classes *)

(** [ip in network] for a network of [width]-bit addresses. *)
Definition in_net (width : Z) (ip : Z) (net : Z * Z) : bool :=
  Z.shiftr ip (width - net.2) =? Z.shiftr net.1 (width - net.2).

Definition net4 (s : string) (plen : Z) : Z * Z := (default 0 (parse_ipv4 s), plen).
Definition net6 (s : string) (plen : Z) : Z * Z := (default 0 (parse_ipv6 s), plen).

Definition linklocal4 : Z * Z := net4 "169.254.0.0" 16.
Definition loopback4 : Z * Z := net4 "127.0.0.0" 8.
Definition multicast4 : Z * Z := net4 "224.0.0.0" 4.
Definition reserved4 : Z * Z := net4 "240.0.0.0" 4.

Definition private4 : list (Z * Z) :=
  [net4 "0.0.0.0" 8; net4 "10.0.0.0" 8; net4 "127.0.0.0" 8; net4 "169.254.0.0" 16;
   net4 "172.16.0.0" 12; net4 "192.0.0.0" 24; net4 "192.0.0.170" 31; net4 "192.0.2.0" 24;
   net4 "192.168.0.0" 16; net4 "198.18.0.0" 15; net4 "198.51.100.0" 24; net4 "203.0.113.0" 24;
   net4 "240.0.0.0" 4; net4 "255.255.255.255" 32].
Definition private4_exceptions : list (Z * Z) := [net4 "192.0.0.9" 32; net4 "192.0.0.10" 32].

Definition linklocal6 : Z * Z := net6 "fe80::" 10.
Definition multicast6 : Z * Z := net6 "ff00::" 8.

Definition private6 : list (Z * Z) :=
  [net6 "::1" 128; net6 "::" 128; net6 "::ffff:0:0" 96; net6 "64:ff9b:1::" 48; net6 "100::" 64;
   net6 "2001::" 23; net6 "2001:db8::" 32; net6 "2002::" 16; net6 "fc00::" 7; net6 "fe80::" 10].
Definition private6_exceptions : list (Z * Z) :=
  [net6 "2001:1::1" 128; net6 "2001:1::2" 128; net6 "2001:3::" 32; net6 "2001:4:112::" 48;
   net6 "2001:20::" 28; net6 "2001:30::" 28].
Definition reserved6 : list (Z * Z) :=
  [net6 "::" 8; net6 "100::" 8; net6 "200::" 7; net6 "400::" 6; net6 "800::" 5; net6 "1000::" 4;
   net6 "4000::" 3; net6 "6000::" 3; net6 "8000::" 3; net6 "A000::" 3; net6 "C000::" 3;
   net6 "E000::" 4; net6 "F000::" 5; net6 "F800::" 6; net6 "FE00::" 9].

Definition is_private4 (ip : Z) : bool :=
  existsb (in_net 32 ip) private4 && negb (existsb (in_net 32 ip) private4_exceptions).

Definition is_private6 (ip : Z) : bool :=
  if Z.shiftr ip 32 =? 65535 then is_private4 (Z.land ip 4294967295)
  else existsb (in_net 128 ip) private6 && negb (existsb (in_net 128 ip) private6_exceptions).

Definition is_loopback (a : ip_addr) : bool :=
  match a with V4 ip => in_net 32 ip loopback4 | V6 ip => ip =? 1 end.
Definition is_link_local (a : ip_addr) : bool :=
  match a with V4 ip => in_net 32 ip linklocal4 | V6 ip => in_net 128 ip linklocal6 end.
Definition is_private (a : ip_addr) : bool :=
  match a with V4 ip => is_private4 ip | V6 ip => is_private6 ip end.
Definition is_reserved (a : ip_addr) : bool :=
  match a with V4 ip => in_net 32 ip reserved4 | V6 ip => existsb (in_net 128 ip) reserved6 end.
Definition is_multicast (a : ip_addr) : bool :=
  match a with V4 ip => in_net 32 ip multicast4 | V6 ip => in_net 128 ip multicast6 end.
Definition is_unspecified (a : ip_addr) : bool :=
  match a with V4 ip => ip =? 0 | V6 ip => ip =? 0 end.

(** ** [urlsplit] *)

Record split_result : Type := mk_split {
  u_scheme : string;
  u_netloc : string;
  u_path : string;
  u_query : string;
  u_fragment : string
}.

Definition c0_or_space (c : ascii) : bool := code c <=? 32.
Definition unsafe_url_char (c : ascii) : bool := (code c =? 9) || (code c =? 10) || (code c =? 13).
Definition scheme_char (c : ascii) : bool :=
  is_alpha c || is_digit c || in_chars "+-." c.

(** The scheme is what precedes the first colon, when it looks like one. *)
Definition split_scheme (url : string) : string * string :=
  let '(pre, found, post) := partition ":" url in
  match pre with
  | String c _ =>
      if found && is_alpha c && str_all scheme_char pre then (str_lower pre, post) else ("", url)
  | "" => ("", url)
  end.

(** [_splitnetloc]: up to the first of [/?#]. *)
Fixpoint split_netloc (s : string) : string * string :=
  match s with
  | "" => ("", "")
  | String c s' =>
      if in_chars "/?#" c then ("", s) else prod_map (String c) id (split_netloc s')
  end.

Definition is_ipvfuture (s : string) : bool :=
  match s with
  | String "v" s' =>
      let '(hex, dot, rest) := partition "." s' in
      dot && bool_decide (hex <> "") && str_all is_hex hex && bool_decide (rest <> "")
  | _ => false
  end.

(** Of the IPvFuture shape the code's [.+] stops at a line feed, which a URL
    no longer holds here. *)
Definition check_bracketed_host (h : string) : bool :=
  if startswith "v" h then is_ipvfuture h
  else match ip_address h with Some (V6 _) => true | _ => false end.

Definition check_bracketed_netloc (netloc : string) : bool :=
  let host_and_port := after_last "@" netloc in
  let '(before, have_open, bracketed) := partition "[" host_and_port in
  if have_open then
    if decide (before <> "") then false
    else let '(h, _, port) := partition "]" bracketed in
         if bool_decide (port <> "") && negb (startswith ":" port) then false
         else check_bracketed_host h
  else check_bracketed_host (partition ":" host_and_port).1.1.

(** [Raise ValueError] for an authority with bad brackets. *)
Definition urlsplit (url : string) : res split_result :=
  let url := str_remove unsafe_url_char (lstrip_by c0_or_space url) in
  let '(scheme, url) := split_scheme url in
  let '(netloc, url) :=
    if startswith "//" url then split_netloc (str_drop 2 url) else ("", url) in
  let op := has_char "[" netloc in
  let cl := has_char "]" netloc in
  if xorb op cl then Raise ValueError
  else if op && negb (check_bracketed_netloc netloc) then Raise ValueError
  else
    let '(url, _, fragment) := partition "#" url in
    let '(path, _, query) := partition "?" url in
    Ok (mk_split scheme netloc path query fragment).

(** [SplitResult._hostinfo] *)
Definition hostinfo (netloc : string) : string * option string :=
  let host_and_port := after_last "@" netloc in
  let '(_, have_open, bracketed) := partition "[" host_and_port in
  let '(h, port) :=
    if have_open then
      let '(h, _, rest) := partition "]" bracketed in (h, (partition ":" rest).2)
    else let '(h, _, port) := partition ":" host_and_port in (h, port) in
  (h, if decide (port = "") then None else Some port).

(** The host in lower case; the zone of a scoped address keeps its case. *)
Definition hostname (netloc : string) : option string :=
  let h := (hostinfo netloc).1 in
  if decide (h = "") then None
  else let '(name, percent, zone) := partition "%" h in
       Some (str_lower name +:+ (if percent then "%" else "") +:+ zone).

Definition port (netloc : string) : res (option Z) :=
  match (hostinfo netloc).2 with
  | None => Ok None
  | Some p =>
      if str_all is_digit p then
        let n := default 0 (py_int p) in
        if n <=? 65535 then Ok (Some n) else Raise ValueError
      else Raise ValueError
  end.

(** ** Examples *)

Example urlsplit_userinfo :
  urlsplit "HTTP://user:pw@Example.COM:8080/a/b?q=1#f" =
    Ok (mk_split "http" "user:pw@Example.COM:8080" "/a/b" "q=1" "f") /\
  hostname "user:pw@Example.COM:8080" = Some "example.com" /\
  port "user:pw@Example.COM:8080" = Ok (Some 8080).
Proof. split_and!; vm_compute; reflexivity. Qed.

Example urlsplit_ipv6 :
  urlsplit "http://[::1]:99/" = Ok (mk_split "http" "[::1]:99" "/" "" "") /\
  hostname "[::1]:99" = Some "::1" /\
  port "[::1]:99" = Ok (Some 99) /\
  urlsplit "http://[127.0.0.1]/" = Raise ValueError /\
  urlsplit "http://a]/" = Raise ValueError.
Proof. split_and!; vm_compute; reflexivity. Qed.

Example ip_address_parses :
  ip_address "169.254.169.254" = Some (V4 2852039166) /\
  ip_address "0127.0.0.1" = None /\ ip_address "127.1" = None /\
  ip_address "::ffff:127.0.0.1" = Some (V6 281472812449793) /\
  ip_address "2001:db8::1" = Some (V6 42540766411282592856903984951653826561) /\
  ip_address "fe80::1%eth0" = Some (V6 338288524927261089654018896841347694593) /\
  ip_address "1:2:3:4:5:6:7:8:9" = None /\ ip_address "::1::" = None /\
  ip_address ":1:2:3:4:5:6:7" = None.
Proof. split_and!; vm_compute; reflexivity. Qed.

(** ** Lemmas *)

(** Membership in an aligned network is a range of addresses. *)
Lemma in_net_range w ip base p :
  0 <= p <= w -> base mod 2 ^ (w - p) = 0 ->
  in_net w ip (base, p) = true <-> base <= ip < base + 2 ^ (w - p).
Proof.
  intros Hp Hal. unfold in_net. cbn [fst snd]. rewrite Z.eqb_eq, !Z.shiftr_div_pow2 by lia.
  pose proof (Z.pow_pos_nonneg 2 (w - p)) as Hpos. set (m := 2 ^ (w - p)) in *.
  assert (0 < m) as Hm by (apply Hpos; lia).
  pose proof (Z.div_mod base m ltac:(lia)) as Eb. rewrite Hal in Eb.
  pose proof (Z.div_mod ip m ltac:(lia)) as Ei. pose proof (Z.mod_pos_bound ip m Hm).
  split; intros; nia.
Qed.

(** *** Dotted quads *)

Definition is_byte (n : Z) : Prop := 0 <= n <= 255.

Definition dotted (a b c d : Z) : string :=
  str_join "." [py_str_int a; py_str_int b; py_str_int c; py_str_int d].

Definition octet_text_ok (n : Z) : bool :=
  bool_decide (parse_octet (py_str_int n) = Some n) &&
  str_all is_digit (py_str_int n).

Lemma bytes_octet_text : forallb octet_text_ok (seqZ 0 256) = true.
Proof. vm_compute. reflexivity. Qed.

Lemma octet_text n : is_byte n -> parse_octet (py_str_int n) = Some n /\ str_all is_digit (py_str_int n) = true.
Proof.
  intros Hn. pose proof bytes_octet_text as H. rewrite forallb_forall in H.
  specialize (H n). unfold octet_text_ok in H. rewrite andb_true_iff, bool_decide_eq_true in H.
  apply H, list_elem_of_In, elem_of_seqZ. unfold is_byte in Hn. lia.
Qed.

Lemma digits_no_char c s :
  str_all is_digit s = true -> is_digit c = false -> ~ c ∈ String.list_ascii_of_string s.
Proof.
  intros Hs Hc. induction s as [|x s IH]; cbn in *; [by intros ?%not_elem_of_nil|].
  apply andb_true_iff in Hs as [Hx Hs]. rewrite elem_of_cons. intros [->|?]; [congruence|].
  by apply IH.
Qed.

Lemma has_char_false c s : has_char c s = false <-> ~ c ∈ String.list_ascii_of_string s.
Proof. unfold has_char, in_chars. apply bool_decide_eq_false. Qed.

Lemma elem_of_app_chars c s t :
  c ∈ String.list_ascii_of_string (s +:+ t) <->
  c ∈ String.list_ascii_of_string s \/ c ∈ String.list_ascii_of_string t.
Proof.
  induction s as [|x s IH].
  - change ("" +:+ t) with t. cbn. split; [tauto|]. intros [?%not_elem_of_nil|?]; done.
  - rewrite str_app_cons. cbn. rewrite !elem_of_cons, IH. tauto.
Qed.

Lemma parse_ipv4_dotted a b c d :
  is_byte a -> is_byte b -> is_byte c -> is_byte d ->
  parse_ipv4 (dotted a b c d) = Some (join_octets [a; b; c; d]).
Proof.
  intros [Pa Ha]%octet_text [Pb Hb]%octet_text [Pc Hc]%octet_text [Pd Hd]%octet_text.
  assert (Hdig : forall x y, str_all is_digit x = true -> is_digit y = false ->
                 ~ y ∈ String.list_ascii_of_string x) by (intros; by apply digits_no_char).
  unfold parse_ipv4. destruct (has_char slash (dotted a b c d)) eqn:Hsl.
  { exfalso. unfold has_char, in_chars in Hsl. apply bool_decide_eq_true in Hsl. revert Hsl.
    unfold dotted. cbn [str_join]. rewrite !elem_of_app_chars.
    intros [Hin|[Hin|[Hin|[Hin|[Hin|[Hin|Hin]]]]]]; revert Hin;
      try (by apply Hdig); by intros ?%list_elem_of_singleton. }
  rewrite decide_False.
  2:{ unfold dotted. cbn [str_join]. pose proof (py_str_int_nonempty a). by destruct (py_str_int a). }
  assert (Hs : str_split "." (dotted a b c d)
               = [py_str_int a; py_str_int b; py_str_int c; py_str_int d]).
  { apply str_split_join; [done|]. repeat constructor; by apply Hdig. }
  rewrite Hs. cbn [length mapM]. rewrite Pa, Pb, Pc, Pd. done.
Qed.

Lemma join_octets_4 a b c d : join_octets [a; b; c; d] = ((a * 256 + b) * 256 + c) * 256 + d.
Proof. done. Qed.

(** The addresses the standard library does not count as public, as ranges of
    the four octets. *)
Definition internal_quad (a b c d : Z) : Prop :=
  a = 0 \/ a = 10 \/ a = 127 \/ 224 <= a \/
  (a = 169 /\ b = 254) \/ (a = 172 /\ 16 <= b <= 31) \/ (a = 192 /\ b = 168) \/
  (a = 192 /\ b = 0 /\ c = 0 /\ d <> 9 /\ d <> 10) \/ (a = 192 /\ b = 0 /\ c = 2) \/
  (a = 198 /\ 18 <= b <= 19) \/ (a = 198 /\ b = 51 /\ c = 100) \/ (a = 203 /\ b = 0 /\ c = 113).

Definition not_public (x : ip_addr) : bool :=
  is_loopback x || is_link_local x || is_private x || is_reserved x || is_multicast x || is_unspecified x.

Ltac eval_nets :=
  repeat match goal with
  | |- context [net4 ?s ?p] =>
      let v := eval vm_compute in (net4 s p) in change (net4 s p) with v
  end.

(** Which octets a network fixes. *)
Lemma quad_in_range a b c d lo hi (P : Prop) base p :
  0 <= p <= 32 -> base mod 2 ^ (32 - p) = 0 -> base = lo -> base + 2 ^ (32 - p) = hi ->
  (lo <= ((a * 256 + b) * 256 + c) * 256 + d < hi <-> P) ->
  in_net 32 (join_octets [a; b; c; d]) (base, p) = true <-> P.
Proof. intros ? ? <- <- <-. rewrite join_octets_4. by apply in_net_range. Qed.

Ltac quad_net :=
  eapply quad_in_range; [lia|reflexivity|reflexivity|reflexivity|lia].

Lemma private4_quad a b c d :
  is_byte a -> is_byte b -> is_byte c -> is_byte d ->
  existsb (in_net 32 (join_octets [a; b; c; d])) private4 = true <->
  a = 0 \/ a = 10 \/ a = 127 \/ (a = 169 /\ b = 254) \/ (a = 172 /\ 16 <= b <= 31) \/
  (a = 192 /\ b = 0 /\ c = 0) \/ (a = 192 /\ b = 0 /\ c = 0 /\ 170 <= d <= 171) \/
  (a = 192 /\ b = 0 /\ c = 2) \/ (a = 192 /\ b = 168) \/
  (a = 198 /\ 18 <= b <= 19) \/ (a = 198 /\ b = 51 /\ c = 100) \/ (a = 203 /\ b = 0 /\ c = 113) \/
  240 <= a \/ (a = 255 /\ b = 255 /\ c = 255 /\ d = 255).
Proof.
  unfold is_byte. intros Ha Hb Hc Hd. unfold private4. eval_nets. cbn [existsb].
  rewrite !orb_true_iff. repeat (apply Morphisms_Prop.or_iff_morphism; [quad_net|]).
  rewrite (quad_in_range a b c d 4294967295 4294967296 (a = 255 /\ b = 255 /\ c = 255 /\ d = 255))
    by (done || lia).
  split; [by intros [?|?]|tauto].
Qed.

(** A disjunction one of whose members is linear arithmetic. *)
Ltac pick_lia :=
  lazymatch goal with
  | |- _ \/ _ => first [ left; pick_lia | right; pick_lia ]
  | |- _ => split_and?; lia
  end.

Lemma not_public_quad a b c d :
  is_byte a -> is_byte b -> is_byte c -> is_byte d ->
  not_public (V4 (join_octets [a; b; c; d])) = true <-> internal_quad a b c d.
Proof.
  intros Ha Hb Hc Hd.
  unfold not_public, is_loopback, is_link_local, is_private, is_private4, is_reserved, is_multicast,
    is_unspecified.
  rewrite !orb_true_iff, andb_true_iff, negb_true_iff, <-not_true_iff_false, private4_quad by done.
  unfold is_byte in *.
  assert (in_net 32 (join_octets [a; b; c; d]) loopback4 = true <-> a = 127) as ->
    by (unfold loopback4; eval_nets; quad_net).
  assert (in_net 32 (join_octets [a; b; c; d]) linklocal4 = true <-> a = 169 /\ b = 254) as ->
    by (unfold linklocal4; eval_nets; quad_net).
  assert (in_net 32 (join_octets [a; b; c; d]) reserved4 = true <-> 240 <= a) as ->
    by (unfold reserved4; eval_nets; quad_net).
  assert (in_net 32 (join_octets [a; b; c; d]) multicast4 = true <-> 224 <= a <= 239) as ->
    by (unfold multicast4; eval_nets; quad_net).
  assert (existsb (in_net 32 (join_octets [a; b; c; d])) private4_exceptions = true <->
          a = 192 /\ b = 0 /\ c = 0 /\ (d = 9 \/ d = 10)) as ->.
  { unfold private4_exceptions. eval_nets. cbn [existsb]. rewrite !orb_true_iff.
    rewrite (quad_in_range a b c d 3221225481 3221225482 (a = 192 /\ b = 0 /\ c = 0 /\ d = 9)),
      (quad_in_range a b c d 3221225482 3221225483 (a = 192 /\ b = 0 /\ c = 0 /\ d = 10))
      by (done || lia).
    intuition (discriminate || lia). }
  assert ((join_octets [a; b; c; d] =? 0) = true <-> a = 0 /\ b = 0 /\ c = 0 /\ d = 0) as ->
    by (rewrite join_octets_4; lia).
  unfold internal_quad. split.
  - intros H. destruct_or!; destruct_and?; destruct_or?; destruct_and?;
      try (repeat match goal with E : ~ _ |- _ => clear E end; pick_lia).
    assert (d <> 9 /\ d <> 10) by (split; intros ->; tauto). tauto.
  - destruct (decide (240 <= a)); [intros _; left; left; right; done|].
    destruct (decide (224 <= a)); [intros _; left; right; lia|].
    intros H. left; left; left; right.
    destruct_or!; destruct_and?; try (exfalso; lia); (split; [pick_lia|intros (? & ? & ? & ?); lia]).
Qed.

Lemma ip_address_dotted a b c d :
  is_byte a -> is_byte b -> is_byte c -> is_byte d ->
  ip_address (dotted a b c d) = Some (V4 (join_octets [a; b; c; d])).
Proof. intros. unfold ip_address. by rewrite parse_ipv4_dotted. Qed.

(** An IPv4 address inside an IPv6 one is private when the former is. *)
Lemma mapped_is_private v :
  0 <= v < 2 ^ 32 -> is_private (V6 (65535 * 2 ^ 32 + v)) = is_private (V4 v).
Proof.
  intros Hv. cbn [is_private]. unfold is_private6.
  rewrite Z.shiftr_div_pow2 by lia. rewrite Z.div_add_l by lia.
  rewrite (Z.div_small v) by lia. change (65535 + 0 =? 65535) with true. cbv iota.
  f_equal. change 4294967295 with (Z.ones 32). rewrite Z.land_ones by lia.
  rewrite (Z.add_comm (65535 * 2 ^ 32)), Z_mod_plus_full. apply Z.mod_small. lia.
Qed.
