(* ===== verification/PyRe.v ===== *)
(** * Regular expressions

    The parts of [re] the models use, below code point 256: the class [\w],
    references [opening(\w+)}}] in templates, and their substitution. *)
From Stdlib Require Import Ascii.
From S2P Require Import Prelude PyStr PyUrl.

(** ** References *)

(** [\w] below code point 256. *)
Definition word_char (c : ascii) : bool :=
  let n := code c in
  is_digit c || is_alpha c || (n =? 95) ||
  bool_decide (n ∈ [170; 178; 179; 181; 185; 186; 188; 189; 190]) ||
  ((192 <=? n) && negb (n =? 215) && negb (n =? 247)).

Fixpoint take_word (s : string) : string * string :=
  match s with
  | String c s' => if word_char c then prod_map (String c) id (take_word s') else ("", s)
  | "" => ("", "")
  end.

(** A match of [opening(\w+)}}] at the start of the text: the group and the
    rest. *)
Definition match_ref (opening : string) (s : string) : option (string * string) :=
  if startswith opening s then
    let '(w, r) := take_word (str_drop (String.length opening) s) in
    if bool_decide (w <> "") && startswith "}}" r then Some (w, str_drop 2 r) else None
  else None.

(** [regex.sub(f, s)] and the groups of [regex.finditer(s)]; the fuel is the
    length of the text, of which every step consumes a character. *)
Fixpoint re_sub_go (fuel : nat) (m : string -> option (string * string)) (f : string -> string)
    (s : string) : string :=
  match fuel, s with
  | S fuel', String c s' =>
      match m s with
      | Some (g, rest) => f g +:+ re_sub_go fuel' m f rest
      | None => String c (re_sub_go fuel' m f s')
      end
  | _, _ => s
  end.
Definition re_sub m f s : string := re_sub_go (String.length s) m f s.

Fixpoint re_groups_go (fuel : nat) (m : string -> option (string * string)) (s : string) : list string :=
  match fuel, s with
  | S fuel', String _ s' =>
      match m s with
      | Some (g, rest) => g :: re_groups_go fuel' m rest
      | None => re_groups_go fuel' m s'
      end
  | _, _ => []
  end.
Definition re_groups m s : list string := re_groups_go (String.length s) m s.

(** ** Lemmas *)

Lemma re_sub_ext_go fuel m f f' s :
  (forall w, w ∈ re_groups_go fuel m s -> f w = f' w) -> re_sub_go fuel m f s = re_sub_go fuel m f' s.
Proof.
  revert s. induction fuel as [|fuel IH]; intros s Hf; [done|]. destruct s as [|c s]; [done|].
  cbn [re_sub_go re_groups_go] in *. destruct (m (String c s)) as [[w rest]|].
  - rewrite (Hf w) by left. rewrite (IH rest); [done|]. intros v Hv. apply Hf. by right.
  - by rewrite IH.
Qed.

(** Only the groups that occur matter. *)
Lemma re_sub_ext m f f' s :
  (forall w, w ∈ re_groups m s -> f w = f' w) -> re_sub m f s = re_sub m f' s.
Proof. apply re_sub_ext_go. Qed.

Lemma re_sub_no_groups m f s : re_groups m s = [] -> re_sub m f s = s.
Proof.
  unfold re_groups, re_sub. generalize (String.length s) as fuel. intros fuel. revert s.
  induction fuel as [|fuel IH]; intros s Hg; [done|]. destruct s as [|c s]; [done|].
  cbn [re_sub_go re_groups_go] in *. destruct (m (String c s)) as [[w rest]|]; [done|].
  by rewrite IH.
Qed.

Lemma match_ref_contains opening s w rest :
  match_ref opening s = Some (w, rest) -> startswith opening s = true.
Proof. unfold match_ref. by destruct (startswith opening s). Qed.

Lemma no_braces_no_groups opening s :
  startswith "{{" opening = true -> str_contains "{{" s = false -> re_groups (match_ref opening) s = [].
Proof.
  intros Ho. unfold re_groups. generalize (String.length s) as fuel. intros fuel. revert s.
  induction fuel as [|fuel IH]; intros s Hs; [done|]. destruct s as [|c s]; [done|].
  cbn [re_groups_go]. cbn [str_contains] in Hs. apply orb_false_iff in Hs as [Hp Hs].
  destruct (match_ref opening (String c s)) as [[w rest]|] eqn:Hm; [|by apply IH].
  apply match_ref_contains in Hm. exfalso.
  apply startswith_spec in Ho as [t ->]. apply startswith_spec in Hm as [u Hu].
  rewrite str_app_assoc in Hu. change (startswith "{{" (String c s) = false) in Hp.
  rewrite Hu, startswith_app in Hp. done.
Qed.

