(* ===== verification/Http.v ===== *)
(** * Requests to the program's own servers

    What the handlers read of a request: method, path, headers, and a body
    that arrives in chunks and may end early; the capped read the endpoints
    share; and [hmac.compare_digest] of texts. *)
From Stdlib Require Import Ascii.
From S2P Require Import Prelude PyStr PyVal.

(** [hmac.compare_digest] of two texts raises [TypeError] unless both are
    ASCII. *)
Definition is_ascii (s : string) : bool := str_all (fun c => code c <? 128) s.

Definition compare_digest (a b : string) : res bool :=
  if is_ascii a && is_ascii b then Ok (bool_decide (a = b)) else Raise TypeError.

(** How the body of a request ends after the chunks that arrive. *)
Inductive stream_end : Type := StreamDone | StreamCancelled | StreamFails.

Record request : Type := mk_request {
  rq_method : string;
  rq_path : string;
  (** names in lower case, in the order of the request *)
  rq_headers : list (string * string);
  rq_chunks : list string;
  rq_end : stream_end
}.

(** [headers.get(k, "")]: the first value. *)
Definition header (rq : request) (k : string) : string := default "" (od_get (rq_headers rq) k).

(** A response status, or the exception that escapes the handler. *)
Inductive outcome : Type := Status (code : Z) | Escapes (e : exn).

#[export] Instance outcome_eq_dec : EqDecision outcome.
Proof. solve_decision. Defined.

(** The declared length, -1 when there is none or it is no number. *)
Definition declared_length (rq : request) : Z :=
  let raw := header rq "content-length" in
  if decide (raw = "") then -1 else default (-1) (py_int raw).

(** What the stream raises at its end. *)
Definition end_error (e : stream_end) : option exn :=
  match e with StreamDone => None | StreamCancelled => Some CancelledError | StreamFails => Some OtherError end.

(** The chunks are gathered until they would pass the cap: [Ok None]. *)
Fixpoint read_chunks (cap : Z) (acc : string) (chunks : list string) (ends : stream_end) : res (option string) :=
  match chunks with
  | [] => match end_error ends with None => Ok (Some acc) | Some e => Raise e end
  | c :: cs => if cap <? str_len acc + str_len c then Ok None else read_chunks cap (acc +:+ c) cs ends
  end.

(** ** Lemmas *)

Lemma compare_raises a b e : compare_digest a b = Raise e -> e = TypeError /\ (is_ascii a = false \/ is_ascii b = false).
Proof.
  unfold compare_digest. destruct (is_ascii a) eqn:Ea, (is_ascii b) eqn:Eb; cbn; intros [= <-]; auto.
Qed.

Lemma compare_true a b : compare_digest a b = Ok true <-> a = b /\ is_ascii a = true.
Proof.
  unfold compare_digest. destruct (is_ascii a) eqn:Ea, (is_ascii b) eqn:Eb; cbn; split; try done.
  - intros [= H%bool_decide_eq_true]. done.
  - intros [-> _]. by rewrite bool_decide_eq_true_2.
  - intros [-> _]. congruence.
  - intros [-> ?]. congruence.
  - intros [-> ?]. congruence.
Qed.


Definition str_concat : list string -> string := foldr String.append "".

(** The capped read: the whole body within the cap, or a body past it, or the
    error of a stream that ended early within it. *)
Lemma read_chunks_spec cap acc chunks ends :
  str_len acc <= cap ->
  match read_chunks cap acc chunks ends with
  | Ok (Some b) => b = acc +:+ str_concat chunks /\ str_len b <= cap /\ end_error ends = None
  | Ok None => cap < str_len (acc +:+ str_concat chunks)
  | Raise e => end_error ends = Some e /\ str_len (acc +:+ str_concat chunks) <= cap
  end.
Proof.
  revert acc. induction chunks as [|c cs IH]; intros acc Hacc; cbn [read_chunks str_concat foldr].
  - rewrite str_app_nil_r. by destruct (end_error ends).
  - assert (Hn : 0 <= str_len (str_concat cs)) by (unfold str_len; lia).
    destruct (Z.ltb_spec cap (str_len acc + str_len c)).
    + rewrite !str_len_app. fold str_concat. lia.
    + specialize (IH (acc +:+ c)). rewrite str_app_assoc in IH. apply IH. rewrite str_len_app. lia.
Qed.
