(* ===== verification/AsyncQueue.v ===== *)
(** * Bounded queues

    [asyncio.Queue(maxsize)] and [collections.deque(maxlen)] of the standard
    library, as the event streams and the message bus use them.  [maxsize <= 0]
    is an unbounded queue.  [spec] is the abstract queue: a list with a
    capacity test; every operation is shown to act on it as expected. *)
From S2P Require Import Prelude.

Record queue (A : Type) : Type := mk_queue { q_maxsize : Z; q_items : list A }.
Arguments mk_queue {A} _ _.
Arguments q_maxsize {A} _.
Arguments q_items {A} _.

Section Queue.
Context {A : Type}.
Implicit Types (q : queue A) (x : A).

Definition new_queue (maxsize : Z) : queue A := mk_queue maxsize [].

Definition qsize q : Z := Z.of_nat (length (q_items q)).
Definition q_empty q : bool := match q_items q with [] => true | _ => false end.
Definition q_full q : bool := (0 <? q_maxsize q) && (q_maxsize q <=? qsize q).

(** [put_nowait]: [None] is the [QueueFull] exception. *)
Definition put_nowait q x : option (queue A) :=
  if q_full q then None else Some (mk_queue (q_maxsize q) (q_items q ++ [x])).

(** [get_nowait]: [None] is the [QueueEmpty] exception, or the state in
    which [await get()] waits. *)
Definition get_nowait q : option (A * queue A) :=
  match q_items q with
  | [] => None
  | x :: l => Some (x, mk_queue (q_maxsize q) l)
  end.

(** [try: put_nowait(x) except QueueFull: pass] *)
Definition put_or_pass q x : queue A := default q (put_nowait q x).

(** [try: get_nowait() except QueueEmpty: pass] *)
Definition drop_one q : queue A := default q (snd <$> get_nowait q).

Definition q_wf q : Prop := 0 < q_maxsize q -> qsize q <= q_maxsize q.

Lemma q_empty_true q : q_empty q = true <-> q_items q = [].
Proof. unfold q_empty. destruct (q_items q); naive_solver. Qed.

Lemma q_full_true q : q_full q = true <-> 0 < q_maxsize q /\ q_maxsize q <= qsize q.
Proof. unfold q_full. by boolp. Qed.

Lemma put_nowait_Some q x q' :
  put_nowait q x = Some q' <->
  q_full q = false /\ q' = mk_queue (q_maxsize q) (q_items q ++ [x]).
Proof. unfold put_nowait. destruct (q_full q); naive_solver. Qed.

Lemma put_nowait_None q x : put_nowait q x = None <-> q_full q = true.
Proof. unfold put_nowait. destruct (q_full q); naive_solver. Qed.

Lemma put_nowait_wf q x q' : put_nowait q x = Some q' -> q_wf q'.
Proof.
  intros [Hf ->]%put_nowait_Some. unfold q_wf, qsize, q_full, qsize in *. cbn.
  rewrite length_app. cbn. intros H. boolp. lia.
Qed.

Lemma put_or_pass_wf q x : q_wf q -> q_wf (put_or_pass q x).
Proof.
  unfold put_or_pass. destruct (put_nowait q x) eqn:E; [|done].
  intros _. by eapply put_nowait_wf.
Qed.

Lemma drop_one_items q : q_items (drop_one q) = tail (q_items q).
Proof. unfold drop_one, get_nowait. by destruct q as [n [|x l]]. Qed.

Lemma drop_one_maxsize q : q_maxsize (drop_one q) = q_maxsize q.
Proof. unfold drop_one, get_nowait. by destruct q as [n [|x l]]. Qed.

Lemma put_or_pass_maxsize q x : q_maxsize (put_or_pass q x) = q_maxsize q.
Proof. unfold put_or_pass, put_nowait. by destruct (q_full q). Qed.

Lemma put_or_pass_nonempty q x : 0 < q_maxsize q -> q_items (put_or_pass q x) <> [].
Proof.
  unfold put_or_pass, put_nowait. intros Hm. destruct (q_full q) eqn:Hf; cbn.
  - intros Hnil. apply q_full_true in Hf as [_ Hf].
    unfold qsize in Hf. rewrite Hnil in Hf. cbn in Hf. lia.
  - by destruct (q_items q).
Qed.

Lemma get_nowait_wf q x q' : q_wf q -> get_nowait q = Some (x, q') -> q_wf q'.
Proof.
  unfold q_wf, qsize, get_nowait. destruct q as [n [|y l]]; cbn; [done|].
  intros H [= <- <-]. cbn. lia.
Qed.

Lemma drop_one_wf q : q_wf q -> q_wf (drop_one q).
Proof.
  unfold drop_one. destruct (get_nowait q) as [[x q']|] eqn:E; [|done].
  intros Hq. by eapply get_nowait_wf.
Qed.

(** What an eviction leaves behind: after dropping the head of a full
    queue the next item fits, and the one after it does not. *)
Lemma full_drop_put q x :
  q_wf q -> q_full q = true ->
  put_or_pass (drop_one q) x = mk_queue (q_maxsize q) (tail (q_items q) ++ [x]).
Proof.
  intros Hw [H1 H2]%q_full_true. unfold put_or_pass, put_nowait, q_full.
  rewrite drop_one_maxsize. unfold q_wf, qsize in *. rewrite drop_one_items.
  destruct (q_items q) as [|y l] eqn:E; cbn [length tail] in *; [lia|].
  replace (q_maxsize q <=? Z.of_nat (length l)) with false by (symmetry; blia).
  by rewrite andb_false_r.
Qed.

Lemma full_drop_put_full q x y :
  q_wf q -> q_full q = true ->
  put_or_pass (put_or_pass (drop_one q) x) y = put_or_pass (drop_one q) x.
Proof.
  intros Hw Hf. rewrite (full_drop_put _ _ Hw Hf).
  unfold put_or_pass at 1, put_nowait.
  replace (q_full _) with true; [done|]. symmetry. apply q_full_true.
  apply q_full_true in Hf as [H1 H2]. unfold q_wf, qsize in *. cbn.
  split; [done|]. rewrite length_app.
  destruct (q_items q) as [|z l]; cbn [length tail] in *; lia.
Qed.
End Queue.

Create HintDb queues.
#[export] Hint Resolve put_nowait_wf put_or_pass_wf get_nowait_wf drop_one_wf : queues.

(** [deque(maxlen=n).append(x)] *)
Definition deque_append {A} (maxlen : nat) (d : list A) (x : A) : list A := lastn maxlen (d ++ [x]).

Lemma deque_append_length {A} n (d : list A) x : (length (deque_append n d x) <= n)%nat.
Proof. unfold deque_append. rewrite length_lastn. lia. Qed.

(** A deque fed from a log holds the log's last entries. *)
Lemma deque_append_log {A} n (log : list A) x :
  (0 < n)%nat -> deque_append n (lastn n log) x = lastn n (log ++ [x]).
Proof. apply lastn_snoc. Qed.
