(* ===== verification/Semaphore.v ===== *)
(** * Counting semaphores

    [asyncio.Semaphore] of the standard library, as the schedulers use it:
    a permit is taken at once or waited for in a queue; [release] hands the
    permit to the first waiter that has none yet, which holds it from then on
    even though its task has not resumed.  [sem_ok cap held] is the contract:
    the permits that are free, handed out and held add up to the capacity,
    and whoever waits while one is free has a waiter before it that will pass
    the free permit on. *)
From S2P Require Import Prelude.

(** Each waiter is the future of a caller, with whether its result is set. *)
Record semaphore : Type := mk_semaphore { sem_value : nat; sem_waiters : list (nat * bool) }.

Definition new_semaphore (cap : nat) : semaphore := mk_semaphore cap [].

Definition locked (s : semaphore) : bool :=
  bool_decide (sem_value s = 0%nat) || negb (bool_decide (sem_waiters s = [])).

(** The result of the first future that is not done. *)
Fixpoint grant_first (ws : list (nat * bool)) : option (list (nat * bool)) :=
  match ws with
  | [] => None
  | (c, true) :: ws => cons (c, true) <$> grant_first ws
  | (c, false) :: ws => Some ((c, true) :: ws)
  end.

(** [_wake_up_next]: [None] when it returns [False]. *)
Definition wake_up_next (s : semaphore) : option semaphore :=
  (fun ws => mk_semaphore (pred (sem_value s)) ws) <$> grant_first (sem_waiters s).

(** [while self._value > 0: if not self._wake_up_next(): break] *)
Fixpoint wake_loop (value : nat) (ws : list (nat * bool)) : semaphore :=
  match value with
  | O => mk_semaphore 0 ws
  | S v => match grant_first ws with Some ws' => wake_loop v ws' | None => mk_semaphore value ws end
  end.

(** [acquire] up to its first suspension: whether the caller has its permit. *)
Definition acquire (s : semaphore) (c : nat) : bool * semaphore :=
  if locked s then (false, mk_semaphore (sem_value s) (sem_waiters s ++ [(c, false)]))
  else (true, mk_semaphore (pred (sem_value s)) (sem_waiters s)).

Definition release (s : semaphore) : semaphore :=
  let s := mk_semaphore (S (sem_value s)) (sem_waiters s) in default s (wake_up_next s).

Definition drop_waiter (c : nat) (ws : list (nat * bool)) : list (nat * bool) := od_pop ws c.

(** [acquire] after the wait, when the future has its result. *)
Definition resume (s : semaphore) (c : nat) : semaphore := wake_loop (sem_value s) (drop_waiter c (sem_waiters s)).

(** [acquire] when the caller is cancelled during the wait; a result that is
    set already is given back. *)
Definition abandon (s : semaphore) (c : nat) : semaphore :=
  let value := if bool_decide ((c, true) ∈ sem_waiters s) then S (sem_value s) else sem_value s in
  wake_loop value (drop_waiter c (sem_waiters s)).

(** The permits handed to futures whose tasks have not resumed. *)
Definition granted (ws : list (nat * bool)) : nat := length (filter (fun w => w.2 = true) ws).

Record sem_ok (cap held : nat) (s : semaphore) : Prop := {
  sk_once : NoDup (sem_waiters s).*1;
  sk_permits : (sem_value s + granted (sem_waiters s) + held = cap)%nat;
  sk_work : (0 < sem_value s)%nat -> sem_waiters s = [] \/ exists c, (c, true) ∈ sem_waiters s
}.

(** ** Lemmas *)

Lemma granted_app ws1 ws2 : granted (ws1 ++ ws2) = (granted ws1 + granted ws2)%nat.
Proof. unfold granted. by rewrite filter_app, length_app. Qed.

Lemma granted_cons w ws : granted (w :: ws) = ((if w.2 then 1 else 0) + granted ws)%nat.
Proof. unfold granted. rewrite filter_cons. destruct w as [c []]; cbn; case_decide; cbn; lia || done. Qed.

Lemma grant_first_Some ws ws' :
  grant_first ws = Some ws' ->
  ws'.*1 = ws.*1 /\ granted ws' = S (granted ws) /\ (forall c, (c, true) ∈ ws -> (c, true) ∈ ws').
Proof.
  revert ws'. induction ws as [|[c []] ws IH]; intros ws'; cbn [grant_first]; [done| |].
  - destruct (grant_first ws) as [l|] eqn:Hl; [|done]. intros [= <-].
    destruct (IH l eq_refl) as (He & Hg & Hk). rewrite !granted_cons, Hg. cbn. rewrite He. split_and!; [done|lia|].
    intros c'. rewrite !elem_of_cons. intros [?|?]; auto.
  - intros [= <-]. rewrite !granted_cons. cbn. split_and!; [done|done|].
    intros c'. rewrite !elem_of_cons. intros [?|?]; [congruence|auto].
Qed.

Lemma grant_first_None ws : grant_first ws = None <-> forall w, w ∈ ws -> w.2 = true.
Proof.
  induction ws as [|[c []] ws IH]; cbn [grant_first].
  - split; [intros _ w Hw; by apply elem_of_nil in Hw|done].
  - destruct (grant_first ws) eqn:E; cbn.
    + split; [done|]. intros Hw. exfalso. assert (Some l = None); [|done]. apply IH. intros w Hw'. apply Hw. by right.
    + split; [|done]. intros _ w. rewrite elem_of_cons. intros [->|Hw]; [done|]. by apply IH.
  - split; [done|]. intros Hw. specialize (Hw (c, false)). discriminate Hw. by left.
Qed.

Lemma granted_pos ws : granted ws <> 0%nat -> exists c, (c, true) ∈ ws.
Proof.
  unfold granted. intros Hg. destruct (filter _ ws) as [|[c b] l] eqn:Ef; [done|].
  assert (Hin : (c, b) ∈ filter (fun w : nat * bool => w.2 = true) ws) by (rewrite Ef; by left).
  apply list_elem_of_filter in Hin as [Hb Hin]. cbn in Hb. subst. by exists c.
Qed.

Lemma all_granted ws : grant_first ws = None -> ws = [] \/ exists c, (c, true) ∈ ws.
Proof.
  rewrite grant_first_None. intros Hw. destruct ws as [|[c b] ws]; [by left|right].
  exists c. rewrite <-(Hw (c, b) ltac:(by left)). by left.
Qed.

Lemma drop_waiter_keys c ws : (drop_waiter c ws).*1 = filter (fun k => k <> c) ws.*1.
Proof. apply od_pop_keys. Qed.

Lemma drop_waiter_granted (c : nat) (b : bool) ws :
  NoDup ws.*1 -> (c, b) ∈ ws -> granted ws = ((if b then 1 else 0) + granted (drop_waiter c ws))%nat.
Proof.
  induction ws as [|[k b'] ws IH]; [intros _ Hx; by apply elem_of_nil in Hx|]. cbn [fmap list_fmap fst]. intros [Hk Hn]%NoDup_cons.
  unfold drop_waiter, od_pop in *. rewrite filter_cons, granted_cons, elem_of_cons. cbn [fst snd]. intros [[= <- <-]|Hin].
  - rewrite decide_False by (intros Hx; by apply Hx). f_equal. f_equal. clear IH Hn. induction ws as [|[k b'] ws IH]; [done|].
    rewrite filter_cons. cbn [fst] in *. rewrite fmap_cons in Hk. apply not_elem_of_cons in Hk as [??].
    rewrite decide_True by done. f_equal. by apply IH.
  - rewrite decide_True; [|intros ->; apply Hk; apply list_elem_of_fmap; by exists (c, b)].
    rewrite granted_cons, (IH Hn Hin). cbn. lia.
Qed.

(** The loop hands out what is free while somebody waits. *)
Lemma wake_loop_ok cap held v ws :
  NoDup ws.*1 -> (v + granted ws + held = cap)%nat -> sem_ok cap held (wake_loop v ws).
Proof.
  revert ws. induction v as [|v IH]; intros ws Hn Hp; cbn [wake_loop].
  { split; [done|done|cbn; lia]. }
  destruct (grant_first ws) as [ws'|] eqn:E.
  - apply grant_first_Some in E as (He & Hg & _). apply IH; [by rewrite He|lia].
  - split; [done|done|]. intros _. by apply all_granted.
Qed.

Lemma wake_loop_keys v ws : (sem_waiters (wake_loop v ws)).*1 = ws.*1.
Proof.
  revert ws. induction v as [|v IH]; intros ws; cbn [wake_loop]; [done|].
  destruct (grant_first ws) as [ws'|] eqn:E; [|done]. rewrite IH. by apply grant_first_Some in E as (-> & _).
Qed.

Lemma new_semaphore_ok cap : sem_ok cap 0 (new_semaphore cap).
Proof. split; cbn; [constructor|lia|by left]. Qed.

Lemma acquire_now cap held s c s' :
  sem_ok cap held s -> acquire s c = (true, s') -> sem_ok cap (S held) s' /\ sem_waiters s' = sem_waiters s.
Proof.
  intros [Hn Hp Hw]. unfold acquire. destruct (locked s) eqn:El; [done|]. intros [= <-].
  unfold locked in El. apply orb_false_iff in El as [El _]. apply bool_decide_eq_false in El.
  split; [|done]. destruct (sem_value s) as [|v] eqn:Ev; [done|]. split; cbn [sem_value sem_waiters pred Nat.pred]; [done|lia|]. intros ?. apply Hw. lia.
Qed.

Lemma acquire_later cap held s c s' :
  sem_ok cap held s -> c ∉ (sem_waiters s).*1 -> acquire s c = (false, s') ->
  sem_ok cap held s' /\ sem_waiters s' = sem_waiters s ++ [(c, false)].
Proof.
  intros [Hn Hp Hw] Hc. unfold acquire. destruct (locked s) eqn:El; [|done]. intros [= <-]. split; [|done].
  split; cbn [sem_value sem_waiters].
  - rewrite fmap_app. apply NoDup_app. split_and!; [done| |apply NoDup_singleton].
    intros x Hx ->%list_elem_of_singleton. done.
  - rewrite granted_app, granted_cons. cbn [snd]. change (granted []) with 0%nat. lia.
  - intros Hv. right. apply orb_true_iff in El as [El|El]; [apply bool_decide_eq_true in El; lia|].
    apply negb_true_iff, bool_decide_eq_false in El. destruct (Hw Hv) as [?|[k Hk]]; [done|].
    exists k. apply elem_of_app. by left.
Qed.

Lemma release_ok cap held s : sem_ok cap (S held) s -> sem_ok cap held (release s) /\ (sem_waiters (release s)).*1 = (sem_waiters s).*1.
Proof.
  intros [Hn Hp Hw]. unfold release, wake_up_next. cbn.
  destruct (grant_first (sem_waiters s)) as [ws|] eqn:E; cbn.
  - apply grant_first_Some in E as (He & Hg & _). split; [|done]. split; cbn [sem_value sem_waiters pred Nat.pred]; [by rewrite He|lia|].
    intros _. right. apply granted_pos. lia.
  - split; [|done]. split; cbn [sem_value sem_waiters pred Nat.pred]; [done|lia|]. intros _. by apply all_granted.
Qed.

Lemma resume_ok cap held s c :
  sem_ok cap held s -> (c, true) ∈ sem_waiters s ->
  sem_ok cap (S held) (resume s c) /\ (sem_waiters (resume s c)).*1 = filter (fun k => k <> c) (sem_waiters s).*1.
Proof.
  intros [Hn Hp Hw] Hc. split; [|unfold resume; by rewrite wake_loop_keys, drop_waiter_keys].
  apply wake_loop_ok; [rewrite drop_waiter_keys; by apply NoDup_filter|].
  rewrite (drop_waiter_granted c true) in Hp by done. lia.
Qed.

Lemma abandon_ok cap held s c b :
  sem_ok cap held s -> (c, b) ∈ sem_waiters s ->
  sem_ok cap held (abandon s c) /\ (sem_waiters (abandon s c)).*1 = filter (fun k => k <> c) (sem_waiters s).*1.
Proof.
  intros [Hn Hp Hw] Hc. split; [|unfold abandon; by rewrite wake_loop_keys, drop_waiter_keys].
  apply wake_loop_ok; [rewrite drop_waiter_keys; by apply NoDup_filter|].
  rewrite (drop_waiter_granted c b) in Hp by done. case_bool_decide as Hb.
  - destruct b; [lia|]. assert (true = false); [|done].
    apply od_get_Some in Hb, Hc; [congruence|done..].
  - destruct b; [done|]. lia.
Qed.

(** Somebody waits: the permits are all out, or one is on its way. *)
Lemma waiters_progress cap held s c :
  sem_ok cap held s -> (c, false) ∈ sem_waiters s ->
  (exists k, (k, true) ∈ sem_waiters s) \/ held = cap.
Proof.
  intros [Hn Hp Hw] Hc. destruct (decide (sem_value s = 0%nat)) as [Hz|Hz].
  - destruct (decide (granted (sem_waiters s) = 0%nat)) as [Hg|Hg]; [right; lia|left].
    by apply granted_pos.
  - left. destruct (Hw ltac:(lia)) as [He|?]; [|done]. rewrite He in Hc. by apply elem_of_nil in Hc.
Qed.

(** ** Pools of callers

    The callers of a scheduler that share a semaphore, or none when the
    capacity is not positive: each is in a state in which it waits for its
    permit ([queued]), holds it ([active]), or has nothing to do with it. *)
Section Pool.
Context {K : Type} (queued active : K -> bool).
Implicit Types (calls : gmap nat K) (sem : option semaphore).

Definition new_pool (cap : Z) : option semaphore :=
  if 0 <? cap then Some (new_semaphore (Z.to_nat cap)) else None.

Definition holders calls : nat := map_count active calls.

Definition waits calls (c : nat) : Prop := exists k, calls !! c = Some k /\ queued k = true.

Definition pool_inv (cap : Z) sem calls : Prop :=
  match sem with
  | Some s => 0 < cap /\ sem_ok (Z.to_nat cap) (holders calls) s /\ forall c, c ∈ (sem_waiters s).*1 <-> waits calls c
  | None => cap <= 0 /\ forall c, ~ waits calls c
  end.

(** A caller that neither waits nor holds. *)
Definition quiet (k : K) : Prop := queued k = false /\ active k = false.
Definition quiet_at calls (c : nat) : Prop := forall k, calls !! c = Some k -> quiet k.

Lemma holders_insert calls c k :
  (holders (<[c := k]> calls) + (if from_option active false (calls !! c) then 1 else 0) =
   holders calls + if active k then 1 else 0)%nat.
Proof. apply map_count_insert. Qed.

Lemma holders_quiet calls c k :
  quiet_at calls c -> holders (<[c := k]> calls) = (holders calls + if active k then 1 else 0)%nat.
Proof.
  intros Hq. pose proof (holders_insert calls c k) as Hn. destruct (calls !! c) as [k0|] eqn:Hc; cbn in Hn; [|lia].
  destruct (Hq k0 Hc) as [_ Ha]. rewrite Ha in Hn. lia.
Qed.

Lemma waits_insert calls c k c' :
  waits (<[c := k]> calls) c' <-> (waits calls c' /\ c' <> c) \/ (c' = c /\ queued k = true).
Proof.
  unfold waits. destruct (decide (c' = c)) as [->|Hne].
  - rewrite lookup_insert_eq. naive_solver.
  - rewrite lookup_insert_ne by done. naive_solver.
Qed.

Lemma quiet_not_waiting calls c : quiet_at calls c -> ~ waits calls c.
Proof. intros Hq (k & Hk & Hw). destruct (Hq k Hk). congruence. Qed.

Lemma new_pool_inv cap : pool_inv cap (new_pool cap) ∅.
Proof.
  unfold new_pool, pool_inv. destruct (Z.ltb_spec 0 cap).
  - split_and!; [done|apply new_semaphore_ok|]. intros c. split; [intros Hc; by apply elem_of_nil in Hc|by intros (? & ? & _)].
  - split; [lia|]. by intros c (? & ? & _).
Qed.

(** The invariant after the state of [c] has changed to one that does not
    wait, the semaphore being that of the others. *)
Lemma pool_inv_update cap s s' calls c k :
  pool_inv cap (Some s) calls -> queued k = false -> sem_ok (Z.to_nat cap) (holders (<[c := k]> calls)) s' ->
  (forall c', c' ∈ (sem_waiters s').*1 <-> c' ∈ (sem_waiters s).*1 /\ c' <> c) ->
  pool_inv cap (Some s') (<[c := k]> calls).
Proof.
  intros (Hcap & _ & Hw) Hk Hok Hws. split_and!; [done|done|]. intros c'. rewrite waits_insert, Hws, Hw, Hk. naive_solver.
Qed.

(** A caller asks for its permit. *)
Lemma pool_acquire cap s calls c k mine s' :
  pool_inv cap (Some s) calls -> quiet_at calls c -> acquire s c = (mine, s') -> queued k = negb mine -> active k = mine ->
  pool_inv cap (Some s') (<[c := k]> calls).
Proof.
  intros Hp Hq Ha Hk Hk'. destruct (Hp) as (Hcap & Hok & Hw).
  assert (Hcw : c ∉ (sem_waiters s).*1) by (rewrite Hw; by apply quiet_not_waiting).
  pose proof (holders_quiet calls c k Hq) as Hn. rewrite Hk' in Hn. destruct mine; cbn in Hk.
  - apply (acquire_now _ _ _ _ _ Hok) in Ha as [Hok' Hws]. apply (pool_inv_update cap s); [done|done| |].
    + by rewrite Hn, Nat.add_1_r.
    + intros c'. rewrite Hws. split; [|naive_solver]. intros Hin. split; [done|]. by intros ->.
  - apply (acquire_later _ _ _ _ _ Hok Hcw) in Ha as [Hok' Hws]. split_and!; [done| |].
    + by rewrite Hn, Nat.add_0_r.
    + intros c'. rewrite waits_insert, Hws, fmap_app, elem_of_app, Hw, Hk. cbn. rewrite list_elem_of_singleton.
      split; [|naive_solver]. intros [Hin|Heq]; [|by right]. left. split; [done|]. intros ->. by apply Hcw, Hw.
Qed.

(** Without a semaphore nobody waits. *)
Lemma pool_unlimited cap calls c k :
  pool_inv cap None calls -> queued k = false -> pool_inv cap None (<[c := k]> calls).
Proof. intros [Hcap Hw] Hk. split; [done|]. intros c'. rewrite waits_insert, Hk. naive_solver. Qed.

(** Who leaves the queue with its permit, or without. *)
Lemma pool_resume cap s calls c k0 k :
  pool_inv cap (Some s) calls -> (c, true) ∈ sem_waiters s -> calls !! c = Some k0 -> active k0 = false ->
  queued k = false -> active k = true -> pool_inv cap (Some (resume s c)) (<[c := k]> calls).
Proof.
  intros Hp Hin Hc Hk0 Hk Hk'. destruct (Hp) as (_ & Hok & _). destruct (resume_ok _ _ _ _ Hok Hin) as [Hok' Hws].
  pose proof (holders_insert calls c k) as Hn. rewrite Hc, Hk' in Hn. cbn in Hn. rewrite Hk0 in Hn.
  apply (pool_inv_update cap s); [done|done| |].
  - by replace (holders (<[c := k]> calls)) with (S (holders calls)) by lia.
  - intros c'. rewrite Hws, list_elem_of_filter. tauto.
Qed.

Lemma pool_abandon cap s calls c b k0 k :
  pool_inv cap (Some s) calls -> (c, b) ∈ sem_waiters s -> calls !! c = Some k0 -> active k0 = false -> quiet k ->
  pool_inv cap (Some (abandon s c)) (<[c := k]> calls).
Proof.
  intros Hp Hin Hc Hk0 [Hk Hk']. destruct (Hp) as (_ & Hok & _). destruct (abandon_ok _ _ _ _ _ Hok Hin) as [Hok' Hws].
  pose proof (holders_insert calls c k) as Hn. rewrite Hc, Hk' in Hn. cbn in Hn. rewrite Hk0 in Hn.
  apply (pool_inv_update cap s); [done|done| |].
  - by replace (holders (<[c := k]> calls)) with (holders calls) by lia.
  - intros c'. rewrite Hws, list_elem_of_filter. tauto.
Qed.

(** A holder goes on, or gives its permit back. *)
Lemma pool_holder cap sem calls c k0 k :
  pool_inv cap sem calls -> calls !! c = Some k0 -> active k0 = true -> queued k0 = false -> queued k = false ->
  pool_inv cap (if active k then sem else release <$> sem) (<[c := k]> calls).
Proof.
  intros Hp Hc Hk0 Hq0 Hk. pose proof (holders_insert calls c k) as Hn. rewrite Hc in Hn. cbn in Hn. rewrite Hk0 in Hn.
  destruct sem as [s|]; [|replace (if active k then None else release <$> None) with (@None semaphore) by (by destruct (active k));
    by apply pool_unlimited].
  destruct (Hp) as (Hcap & Hok & Hw).
  assert (Hcw : forall c', c' ∈ (sem_waiters s).*1 <-> c' ∈ (sem_waiters s).*1 /\ c' <> c).
  { intros c'. split; [|tauto]. intros Hin. split; [done|]. intros ->. apply Hw in Hin as (k' & Hk' & ?). congruence. }
  destruct (active k); [|change (release <$> Some s) with (Some (release s))].
  - apply (pool_inv_update cap s); [done|done| |done]. by replace (holders (<[c := k]> calls)) with (holders calls) by lia.
  - replace (holders calls) with (S (holders (<[c := k]> calls))) in Hok by lia.
    apply release_ok in Hok as [Hok Hkeys]. apply (pool_inv_update cap s); [done|done|done|]. intros c'. by rewrite Hkeys.
Qed.

(** A caller that has nothing to do with the permits moves. *)
Lemma pool_quiet cap sem calls c k :
  pool_inv cap sem calls -> quiet_at calls c -> quiet k -> pool_inv cap sem (<[c := k]> calls).
Proof.
  intros Hp Hq [Hk Hk']. pose proof (holders_quiet calls c k Hq) as Hn. rewrite Hk' in Hn.
  destruct sem as [s|]; [|by apply pool_unlimited]. destruct (Hp) as (Hcap & Hok & Hw).
  apply (pool_inv_update cap s); [done|done|by rewrite Hn, Nat.add_0_r|].
  intros c'. split; [|tauto]. intros Hin. split; [done|]. intros ->. apply Hw in Hin. by apply quiet_not_waiting in Hin.
Qed.

Lemma pool_bound cap sem calls : pool_inv cap sem calls -> 0 < cap -> Z.of_nat (holders calls) <= cap.
Proof. unfold pool_inv. destruct sem; [|lia]. intros (_ & [_ Hp _] & _). lia. Qed.

(** Who waits does so because every permit is held, or some waiter has one
    that it has not taken up yet. *)
Lemma pool_waits cap sem calls c :
  pool_inv cap sem calls -> waits calls c ->
  Z.of_nat (holders calls) = cap \/ exists s k, sem = Some s /\ (k, true) ∈ sem_waiters s /\ waits calls k.
Proof.
  intros Hp Hc. destruct sem as [s|]; [|by destruct Hp as [_ Hp]; apply Hp in Hc]. destruct Hp as (Hcap & Hok & Hw).
  assert (Hin : c ∈ (sem_waiters s).*1) by by apply Hw.
  apply list_elem_of_fmap in Hin as ([c' b] & Hcc & Hin). cbn in Hcc. subst c'.
  destruct b; [right; by exists s, c|]. destruct (waiters_progress _ _ _ _ Hok Hin) as [[k Hk]|Hx]; [right|left; lia].
  exists s, k. split_and!; [done|done|]. apply Hw, list_elem_of_fmap. by exists (k, true).
Qed.

(** When nobody holds or waits the pool is as new. *)
Lemma pool_idle cap sem calls :
  pool_inv cap sem calls -> (forall c k, calls !! c = Some k -> quiet k) -> sem = new_pool cap.
Proof.
  intros Hp Hall. unfold new_pool. destruct sem as [[v ws]|].
  - destruct Hp as (Hcap & [_ Hn _] & Hw). destruct (Z.ltb_spec 0 cap); [|lia]. cbn in Hn, Hw.
    assert (Hh : holders calls = 0%nat) by (apply map_count_0; intros c k Hk; by apply (Hall c k Hk)).
    assert (ws = []) as ->.
    { destruct ws as [|[c b] ws]; [done|]. destruct (Hw c) as [(k & Hk & Hq) _]; [by left|]. destruct (Hall c k Hk). congruence. }
    unfold new_semaphore. repeat f_equal. rewrite Hh in Hn. cbn in Hn. lia.
  - destruct Hp as [? _]. by destruct (Z.ltb_spec 0 cap); [lia|].
Qed.
End Pool.
