(* ===== verification/Broadcast.v ===== *)
(** * Broadcasting to bounded subscriber queues

    What harness/events.py and shared/session_stream.py have in common: the
    envelope, the subscriber record, the asynchronous generator [_iterate]
    that drains a subscriber's queue, the eviction of a slow subscriber and
    the replay of a ring.  Each stream instantiates these on its own state. *)
From S2P Require Import Prelude PyStr PyVal AsyncQueue.

(** ** Envelopes *)

Record envelope : Type := mk_envelope {
  e_type : string;
  e_version : pyval;
  e_id : string;
  e_ts : string;
  e_agent_id : pyval;
  e_payload : pydict
}.

Definition to_dict (e : envelope) : pyval :=
  VDict (mk_dict
    [("type", VStr (e_type e)); ("version", e_version e); ("id", VStr (e_id e));
     ("ts", VStr (e_ts e)); ("agent_id", e_agent_id e); ("payload", VDict (e_payload e))]).

(** What a stream asks of the validator of its envelopes: a check, the types
    it accepts, and that the check raises nothing but [TypeError]. *)
Class Validator : Type := {
  validate : pyval -> res (option string);
  known_types : list string;
  validate_known : forall e, validate (to_dict e) = Ok None -> e_type e ∈ known_types;
  validate_raises : forall v x, validate v = Raise x -> x = TypeError
}.

(** What a subscriber's queue holds: an envelope or [_OVERRUN_SENTINEL]. *)
Inductive item : Type :=
| IEnv (e : envelope)
| ISentinel.

(** ** Subscribers and their iterators

    [Fresh]: the generator object exists but was never resumed; [Getting]:
    it waits in [queue.get()]; [Suspended]: it waits at its [yield];
    [Finished]: it returned, or was closed or cancelled. *)
Inductive gen_pc : Type := Fresh | Getting | Suspended | Finished.

#[export] Instance gen_pc_eq_dec : EqDecision gen_pc.
Proof. solve_decision. Defined.

Record subscriber : Type := mk_subscriber {
  sub_queue : queue item;
  sub_closed : bool;
  sub_pc : gen_pc
}.

Definition new_subscriber (queue_max : Z) : subscriber :=
  mk_subscriber (new_queue queue_max) false Fresh.

Definition set_queue (s : subscriber) (q : queue item) : subscriber :=
  mk_subscriber q (sub_closed s) (sub_pc s).

Definition set_pc (s : subscriber) (pc : gen_pc) : subscriber :=
  mk_subscriber (sub_queue s) (sub_closed s) pc.

Definition close_subscriber (s : subscriber) : subscriber :=
  mk_subscriber (sub_queue s) true (sub_pc s).

Inductive next_result : Type :=
| Blocked
| Yields (e : envelope)
| Stops.

(** The head of the [while True] loop: [item = await sub.queue.get()]. *)
Definition iter_get (s : subscriber) : next_result * subscriber :=
  match get_nowait (sub_queue s) with
  | None => (Blocked, set_pc s Getting)
  | Some (ISentinel, q) => (Stops, set_pc (set_queue s q) Finished)
  | Some (IEnv e, q) => (Yields e, set_pc (set_queue s q) Suspended)
  end.

(** [__anext__()] of [_iterate].  Resumed at its [yield] the generator first
    tests [sub.closed and sub.queue.empty()]. *)
Definition iter_next (s : subscriber) : next_result * subscriber :=
  match sub_pc s with
  | Finished => (Stops, s)
  | Suspended =>
      if sub_closed s && q_empty (sub_queue s) then (Stops, set_pc s Finished) else iter_get s
  | Fresh | Getting => iter_get s
  end.

(** [aclose()] of the generator, and the cancellation of a task that waits in
    [__anext__()]: the exception is raised at the suspension point, the
    [finally] clause runs and the generator is finished.  A generator that
    was never resumed is finished without running its body: no [finally]. *)
Definition iter_abort (s : subscriber) : bool * subscriber :=
  (match sub_pc s with Getting | Suspended => true | Fresh | Finished => false end,
   set_pc s Finished).

(** ** Delivery and eviction *)

(** [sub.queue.put_nowait(envelope)]: [None] when the queue is full. *)
Definition deliver (s : subscriber) (e : envelope) : option subscriber :=
  set_queue s <$> put_nowait (sub_queue s) (IEnv e).

Definition overrun_payload (s : subscriber) (queue_max : Z) (reason : string) : pydict :=
  mk_dict [("queue_depth", VInt (qsize (sub_queue s))); ("queue_max", VInt queue_max);
           ("reason", VStr reason)].

(** [try: put_nowait(overrun) ...; try: put_nowait(_OVERRUN_SENTINEL) ...] *)
Definition put_terminal (s : subscriber) (overrun : envelope) : subscriber :=
  set_queue s (put_or_pass (put_or_pass (sub_queue s) (IEnv overrun)) ISentinel).

(** ** Replay *)

(** The ids of a ring are decimal integers or are skipped. *)
Definition newer_than (last_n : Z) (ev : envelope) : bool :=
  match py_int (e_id ev) with Some n => last_n <? n | None => false end.

Definition replay (ring : list envelope) (last_id : option string) : list envelope :=
  match last_id with
  | None => ring
  | Some s =>
      if decide (s = "") then ring
      else match py_int s with
           | None => ring
           | Some last_n => filter (fun ev => newer_than last_n ev = true) ring
           end
  end.

(** ** Well-formed subscribers *)

(** A closed subscriber has something left that ends its iteration. *)
Record sub_ok (queue_max : Z) (s : subscriber) : Prop := {
  ok_maxsize : q_maxsize (sub_queue s) = queue_max;
  ok_wf : q_wf (sub_queue s);
  ok_closed : sub_closed s = true -> q_items (sub_queue s) = [] ->
              sub_pc s = Suspended \/ sub_pc s = Finished
}.

Lemma new_subscriber_ok queue_max : sub_ok queue_max (new_subscriber queue_max).
Proof. split; cbn; [done| |done]. unfold q_wf, qsize. cbn. lia. Qed.

Lemma iter_next_ok n s : sub_ok n s -> sub_ok n (iter_next s).2.
Proof.
  intros [Hm Hw Hc]. unfold iter_next, iter_get, q_empty, get_nowait.
  destruct s as [[m l] c pc]; cbn in *.
  assert (Hq : forall x l', l = x :: l' -> q_wf (mk_queue m l'))
    by (intros x l' ->; unfold q_wf, qsize in *; cbn in *; lia).
  destruct pc; cbn; try (destruct c; cbn); destruct l as [|[e|] l']; cbn;
    (split; cbn; [done| |]); try done; eauto; naive_solver.
Qed.

Lemma deliver_ok n s e s' : sub_ok n s -> deliver s e = Some s' -> sub_ok n s'.
Proof.
  intros [Hm Hw Hc] (q & Hq & ->)%fmap_Some. pose proof (put_nowait_wf _ _ _ Hq) as Hq'.
  apply put_nowait_Some in Hq as [_ ->].
  split; cbn; [done|done|]. intros _ Hnil. by destruct (q_items (sub_queue s)).
Qed.

Lemma deliver_items s e s' :
  deliver s e = Some s' ->
  q_items (sub_queue s') = q_items (sub_queue s) ++ [IEnv e] /\
  sub_closed s' = sub_closed s /\ sub_pc s' = sub_pc s.
Proof. intros (q & [_ ->]%put_nowait_Some & ->)%fmap_Some. done. Qed.

Lemma deliver_None sub e : deliver sub e = None <-> q_full (sub_queue sub) = true.
Proof. unfold deliver. by rewrite fmap_None, put_nowait_None. Qed.

(** ** Draining *)

(** The envelopes a drain yields: those before the first sentinel. *)
Fixpoint envelopes_of (l : list item) : list envelope :=
  match l with
  | IEnv e :: l' => e :: envelopes_of l'
  | _ => []
  end.

(** Repeated [__anext__()] until the iterator blocks or stops. *)
Fixpoint run_iter (fuel : nat) (s : subscriber) : list envelope * next_result * subscriber :=
  match fuel with
  | O => ([], Blocked, s)
  | S fuel' =>
      match iter_next s with
      | (Yields e, s') => let '(es, r, s'') := run_iter fuel' s' in (e :: es, r, s'')
      | (r, s') => ([], r, s')
      end
  end.

(** A closed subscriber whose queue still holds something, or whose iterator
    stands at its [yield], is drained in at most one call more than the queue
    is long; it never waits, and it has yielded every envelope up to the
    sentinel. *)
Lemma run_iter_closed s fuel :
  sub_closed s = true ->
  (q_items (sub_queue s) = [] -> sub_pc s = Suspended) ->
  sub_pc s <> Finished ->
  (length (q_items (sub_queue s)) < fuel)%nat ->
  exists s', run_iter fuel s = (envelopes_of (q_items (sub_queue s)), Stops, s') /\
             sub_pc s' = Finished.
Proof.
  destruct s as [[m l] c pc]; cbn. intros ->. revert l pc.
  induction fuel as [|fuel IH]; intros l pc Hl Hf Hlen; [lia|].
  destruct l as [|x l].
  - rewrite Hl by done. cbn. eauto.
  - assert (Hget : iter_next (mk_subscriber (mk_queue m (x :: l)) true pc)
                   = iter_get (mk_subscriber (mk_queue m (x :: l)) true pc))
      by (by destruct pc).
    cbn [run_iter]. rewrite Hget. unfold iter_get. cbn.
    destruct x as [e|]; cbn; [|eauto].
    destruct (IH l Suspended) as (s' & Hs' & ?); [done|done|cbn in *; lia|].
    unfold set_pc, set_queue. cbn. rewrite Hs'. eauto.
Qed.

(** An open subscriber yields all it was sent, and then waits. *)
Lemma run_iter_open s fuel es :
  sub_closed s = false -> sub_pc s <> Finished ->
  q_items (sub_queue s) = IEnv <$> es ->
  (length es < fuel)%nat ->
  exists s', run_iter fuel s = (es, Blocked, s') /\ q_items (sub_queue s') = [] /\
             sub_closed s' = false /\ sub_pc s' = Getting.
Proof.
  destruct s as [[m l] c pc]; cbn. intros -> Hpc ->. revert es pc Hpc.
  induction fuel as [|fuel IH]; intros es pc Hpc Hlen; [lia|].
  assert (Hget : forall q, iter_next (mk_subscriber q false pc)
                 = iter_get (mk_subscriber q false pc)) by (by destruct pc).
  cbn [run_iter]. rewrite Hget. unfold iter_get. destruct es as [|e es]; cbn; [eauto|].
  destruct (IH es Suspended) as (s' & Hs' & ?); [done|cbn in *; lia|].
  unfold set_pc, set_queue. cbn. rewrite Hs'. eauto.
Qed.

(** ** Eviction *)

(** What [_evict_slow] does to the subscriber: close it, drop the oldest
    item, then the overrun envelope and, if it fits, the sentinel. *)
Definition evict_subscriber (s : subscriber) (overrun : envelope) : subscriber :=
  let s := close_subscriber s in
  put_terminal (set_queue s (drop_one (sub_queue s))) overrun.

Lemma evict_full_items n s overrun :
  sub_ok n s -> q_full (sub_queue s) = true ->
  q_items (sub_queue (evict_subscriber s overrun)) = tail (q_items (sub_queue s)) ++ [IEnv overrun].
Proof.
  intros [_ Hw _] Hf. cbn. rewrite full_drop_put_full by done. by rewrite full_drop_put.
Qed.

Lemma evict_ok n s overrun :
  sub_ok n s -> q_full (sub_queue s) = true -> sub_ok n (evict_subscriber s overrun).
Proof.
  intros Hok Hf. pose proof (evict_full_items _ _ overrun Hok Hf) as Hi.
  destruct Hok as [Hm Hw Hc]. split.
  - cbn. by rewrite !put_or_pass_maxsize, drop_one_maxsize.
  - cbn. auto with queues.
  - rewrite Hi. by destruct (tail _).
Qed.

Lemma terminate_ok n s overrun :
  0 < n -> sub_ok n s -> sub_ok n (put_terminal (close_subscriber s) overrun).
Proof.
  intros Hn [Hm Hw Hc]. split.
  - cbn. by rewrite !put_or_pass_maxsize.
  - cbn. auto with queues.
  - cbn. intros _ Hnil. exfalso. revert Hnil. apply put_or_pass_nonempty.
    rewrite put_or_pass_maxsize. lia.
Qed.

(** ** Rings of increasing ids *)

(** The id of an envelope, when it is a number. *)
Definition env_num (e : envelope) (n : Z) : Prop := e_id e = py_str_int n.

(** [ids_upto l n]: the ids of [l] are increasing numbers in [1..n]. *)
Inductive ids_upto : list envelope -> Z -> Prop :=
| ids_nil n : 0 <= n -> ids_upto [] n
| ids_snoc l e n k : ids_upto l n -> env_num e k -> n < k -> ids_upto (l ++ [e]) k
| ids_weaken l n m : ids_upto l n -> n <= m -> ids_upto l m.

Lemma newer_than_num e n last_n : env_num e n -> newer_than last_n e = (last_n <? n).
Proof. unfold newer_than. intros ->. by rewrite py_int_str. Qed.

Lemma ids_upto_bound l n e : ids_upto l n -> e ∈ l -> exists k, env_num e k /\ 0 < k <= n.
Proof.
  intros H He. cut (0 <= n /\ exists k, env_num e k /\ 0 < k <= n); [tauto|].
  revert He. induction H as [n Hn|l e' n k H IH Hk Hlt|l n m H IH Hle]; intros He.
  - by apply not_elem_of_nil in He.
  - apply elem_of_app in He as [He|He%list_elem_of_singleton].
    + destruct (IH He) as [? (k' & ? & ?)]. split; [lia|]. exists k'. split; [done|lia].
    + subst e'. assert (0 <= n) by (clear -H; induction H; lia).
      split; [lia|]. exists k. split; [done|lia].
  - destruct (IH He) as [? (k' & ? & ?)]. split; [lia|]. exists k'. split; [done|lia].
Qed.

Lemma ids_upto_nonneg l n : ids_upto l n -> 0 <= n.
Proof. induction 1; lia. Qed.

Lemma ids_upto_NoDup l n : ids_upto l n -> NoDup (e_id <$> l).
Proof.
  induction 1 as [n Hn|l e n k H IH Hk Hlt|l n m H IH Hle]; [constructor| |done].
  rewrite fmap_app. apply NoDup_app. split_and!; [done| |apply NoDup_singleton].
  intros x (e' & -> & He')%list_elem_of_fmap. cbn. rewrite list_elem_of_singleton.
  destruct (ids_upto_bound _ _ _ H He') as (k' & Hk' & ?). unfold env_num in *.
  rewrite Hk', Hk. intros ->%py_str_int_inj. lia.
Qed.

(** Selecting the ids above [k] keeps nothing of what precedes [k] and
    everything after it. *)
Lemma newer_all l1 l2 e n k :
  ids_upto (l1 ++ e :: l2) n -> env_num e k ->
  filter (fun ev => newer_than k ev = true) (l1 ++ e :: l2) = l2.
Proof.
  intros H He. remember (l1 ++ e :: l2) as l eqn:Hl. revert l2 Hl.
  induction H as [n Hn|l' e' n k' H IH Hk' Hlt|l' n m H IH Hle]; intros l2 Hl; [by destruct l1| |eauto].
  destruct l2 as [|e3 l3 _] using rev_ind.
  - apply app_inj_tail in Hl as [-> ->]. rewrite filter_app, filter_cons_False.
    2:{ rewrite (newer_than_num _ _ _ He). intros ?%Z.ltb_lt. lia. }
    rewrite app_nil_r. apply filter_none. apply Forall_forall. intros ev Hev.
    destruct (ids_upto_bound _ _ _ H Hev) as (k1 & Hk1 & ?).
    rewrite (newer_than_num _ _ _ Hk1). intros ?%Z.ltb_lt.
    assert (k' = k) by (apply py_str_int_inj; unfold env_num in *; congruence). lia.
  - change (l1 ++ e :: l3 ++ [e3]) with (l1 ++ (e :: l3) ++ [e3]) in Hl.
    rewrite app_assoc in Hl. apply app_inj_tail in Hl as [-> ->].
    rewrite filter_app, (IH l3) by done. rewrite filter_cons_True; [done|].
    assert (e ∈ l1 ++ e :: l3) as He' by set_solver.
    destruct (ids_upto_bound _ _ _ H He') as (k1 & Hk1 & ?).
    assert (k1 = k) by (apply py_str_int_inj; unfold env_num in *; congruence).
    rewrite (newer_than_num _ _ _ Hk'). apply Z.ltb_lt. lia.
Qed.

Lemma ids_upto_suffix l1 l2 n : ids_upto (l1 ++ l2) n -> ids_upto l2 n.
Proof.
  intros H. remember (l1 ++ l2) as l eqn:Hl. revert l2 Hl.
  induction H as [n Hn|l' e' n k' H IH Hk' Hlt|l' n m H IH Hle]; intros l2 Hl.
  - symmetry in Hl. apply app_nil in Hl as [-> ->]. by constructor.
  - destruct l2 as [|e3 l3 _] using rev_ind.
    + apply ids_nil. apply ids_upto_nonneg in H. lia.
    + rewrite app_assoc in Hl. apply app_inj_tail in Hl as [-> ->]. eapply ids_snoc; eauto.
  - eapply ids_weaken; eauto.
Qed.

Lemma ids_upto_lastn m l n : ids_upto l n -> ids_upto (lastn m l) n.
Proof. destruct (lastn_suffix m l) as [p Hp]. rewrite Hp at 1. apply ids_upto_suffix. Qed.

(** Resuming at an envelope that is still in the ring's window, or was the
    last one to leave it, replays exactly what was published after it. *)
Lemma replay_resumes m l1 e l2 n :
  ids_upto (l1 ++ e :: l2) n -> (length l2 <= m)%nat ->
  replay (lastn m (l1 ++ e :: l2)) (Some (e_id e)) = l2.
Proof.
  intros H Hm. assert (e ∈ l1 ++ e :: l2) as Hin by set_solver.
  destruct (ids_upto_bound _ _ _ H Hin) as (k & Hk & _).
  unfold replay. rewrite Hk, decide_False by apply py_str_int_nonempty. rewrite py_int_str.
  unfold lastn. destruct (decide (length (l1 ++ e :: l2) - m <= length l1)%nat) as [Hd|Hd].
  - rewrite drop_app_le by done. eapply newer_all; [|done].
    rewrite <-(take_drop (length (l1 ++ e :: l2) - m) l1), <-app_assoc in H at 1.
    by eapply ids_upto_suffix.
  - rewrite length_app in *. cbn [length] in *.
    replace (length l1 + S (length l2) - m)%nat with (length (l1 ++ [e]))
      by (rewrite length_app; cbn; lia).
    change (l1 ++ e :: l2) with (l1 ++ [e] ++ l2). rewrite app_assoc, drop_app_length.
    pose proof (newer_all [] l2 e n k (ids_upto_suffix l1 _ _ H) Hk) as Hf.
    cbn [app] in Hf. rewrite filter_cons_False in Hf; [done|].
    rewrite (newer_than_num _ _ _ Hk). intros ?%Z.ltb_lt. lia.
Qed.
