(* ===== verification/EventSchema.v ===== *)
(** * The event-envelope validator (shared/event_schema.py)

    Every envelope is checked before it is put on a stream.  The validators
    are translated statement by statement: a check either passes ([Ok None]),
    rejects with the source's message ([Ok (Some msg)]) or raises, since
    [payload[k]] raises on a missing key and [v not in SET] raises on an
    unhashable value.  [conforms] is the declarative schema they implement. *)
From S2P Require Import Prelude PyStr PyVal AsyncQueue Broadcast.

(** ** Checks *)

Definition check : Type := res (option string).

Definition cseq (a b : check) : check :=
  match a with Ok None => b | _ => a end.
Notation "a ;;; b" := (cseq a b) (at level 100, b at level 200, right associativity) : py_scope.

Definition pass : check := Ok None.

(** [if not t: return _err(msg)] *)
Definition fail_unless (t : res bool) (msg : string) : check :=
  match t with
  | Ok true => pass
  | Ok false => Ok (Some msg)
  | Raise e => Raise e
  end.

(** [if k in p and not t(p[k]): return _err(msg)] *)
Definition fail_unless_opt (p : pydict) (k : string) (t : pyval -> bool) (msg : string) : check :=
  match dict_get p k with
  | Some v => fail_unless (Ok (t v)) msg
  | None => pass
  end.

(** [t(p[k])] *)
Definition at_key (p : pydict) (k : string) (t : pyval -> bool) : res bool :=
  v <-- dict_index p k ;; Ok (t v).

(** [p[k] in S] *)
Definition key_in (p : pydict) (k : string) (S : list string) : res bool :=
  v <-- dict_index p k ;; in_str_set v S.

(** ** Field predicates *)

Definition is_nonempty_str (v : pyval) : bool :=
  match v with VStr s => negb (Nat.eqb (String.length s) 0) | _ => false end.

Definition is_nonneg_int (v : pyval) : bool :=
  is_int v && negb (is_bool v) && (0 <=? int_value v).

Definition is_http_status (v : pyval) : bool :=
  is_int v && negb (is_bool v) && ((100 <=? int_value v) && (int_value v <=? 599)).

Definition is_session_hash (v : pyval) : bool :=
  match v with VStr s => Nat.eqb (String.length s) 12 | _ => false end.

(** The unknown keys only feed a debug line. *)
Fixpoint require_keys (payload : pydict) (required : list string) (type_ : string) : check :=
  match required with
  | [] => pass
  | k :: required' =>
      if dict_has payload k then require_keys payload required' type_
      else Ok (Some (type_ +:+ ": missing required payload field " +:+ repr_str k))
  end.

Definition OUTCOMES := ["success"; "error"; "timeout"; "skipped"].
Definition CONTINUATION_KINDS := ["job"; "task"; "trigger"; "a2a"; "continuation"].
Definition WEBHOOK_FAILURE_REASONS := ["timeout"; "dns_denied"; "http_error"; "exception"].
Definition HOOK_BACKENDS := ["claude"; "openai"; "codex"; "gemini"].
Definition HOOK_DECISIONS := ["allow"; "deny"; "warn"].
Definition A2A_CONCERNS := ["a2a"; "heartbeat"; "job"; "task"; "trigger"; "continuation"].
Definition LIFECYCLE_EVENTS := ["started"; "stopped"; "config_reloaded"; "credential_rotated"].
Definition CONVERSATION_ROLES := ["user"; "assistant"].
Definition TOOL_OUTCOMES := ["ok"; "error"; "denied"].
Definition SPAN_STATUSES := ["ok"; "error"].

(** [f"... one of {sorted(S)}"], the sorted list spelled out. *)
Definition one_of (field : string) (sorted_S : list string) : string :=
  field +:+ " must be one of " +:+ py_repr (VList (VStr <$> sorted_S)).
Definition OUTCOMES_sorted := ["error"; "skipped"; "success"; "timeout"].

(** ** One validator per envelope type *)

Definition validate_job_fired (p : pydict) : check :=
  require_keys p ["name"; "schedule"; "duration_ms"; "outcome"] "job.fired" ;;;
  fail_unless (at_key p "name" is_nonempty_str) "job.fired: name must be a non-empty string" ;;;
  fail_unless (at_key p "schedule" is_str) "job.fired: schedule must be a string" ;;;
  fail_unless (at_key p "duration_ms" is_nonneg_int)
    "job.fired: duration_ms must be a non-negative integer" ;;;
  fail_unless (key_in p "outcome" OUTCOMES) (one_of "job.fired: outcome" OUTCOMES_sorted) ;;;
  fail_unless_opt p "error" is_str "job.fired: error must be a string".

Definition validate_task_fired (p : pydict) : check :=
  require_keys p ["name"; "duration_ms"; "outcome"] "task.fired" ;;;
  fail_unless (at_key p "name" is_nonempty_str) "task.fired: name must be a non-empty string" ;;;
  fail_unless_opt p "window" is_str "task.fired: window must be a string" ;;;
  fail_unless (at_key p "duration_ms" is_nonneg_int)
    "task.fired: duration_ms must be a non-negative integer" ;;;
  fail_unless (key_in p "outcome" OUTCOMES) (one_of "task.fired: outcome" OUTCOMES_sorted) ;;;
  fail_unless_opt p "error" is_str "task.fired: error must be a string".

Definition validate_heartbeat_fired (p : pydict) : check :=
  require_keys p ["duration_ms"; "outcome"] "heartbeat.fired" ;;;
  fail_unless_opt p "schedule" is_str "heartbeat.fired: schedule must be a string" ;;;
  fail_unless (at_key p "duration_ms" is_nonneg_int)
    "heartbeat.fired: duration_ms must be a non-negative integer" ;;;
  fail_unless (key_in p "outcome" OUTCOMES) (one_of "heartbeat.fired: outcome" OUTCOMES_sorted) ;;;
  fail_unless_opt p "error" is_str "heartbeat.fired: error must be a string".

Definition validate_continuation_fired (p : pydict) : check :=
  require_keys p ["name"; "upstream_kind"; "upstream_name"; "duration_ms"; "outcome"]
    "continuation.fired" ;;;
  fail_unless (at_key p "name" is_nonempty_str)
    "continuation.fired: name must be a non-empty string" ;;;
  fail_unless (key_in p "upstream_kind" CONTINUATION_KINDS)
    (one_of "continuation.fired: upstream_kind" ["a2a"; "continuation"; "job"; "task"; "trigger"]) ;;;
  fail_unless (at_key p "upstream_name" is_str)
    "continuation.fired: upstream_name must be a string" ;;;
  fail_unless (at_key p "duration_ms" is_nonneg_int)
    "continuation.fired: duration_ms must be a non-negative integer" ;;;
  fail_unless (key_in p "outcome" OUTCOMES)
    (one_of "continuation.fired: outcome" OUTCOMES_sorted) ;;;
  fail_unless_opt p "error" is_str "continuation.fired: error must be a string".

Definition validate_trigger_fired (p : pydict) : check :=
  require_keys p ["name"; "endpoint"; "duration_ms"; "outcome"] "trigger.fired" ;;;
  fail_unless (at_key p "name" is_nonempty_str) "trigger.fired: name must be a non-empty string" ;;;
  fail_unless (at_key p "endpoint" is_str) "trigger.fired: endpoint must be a string" ;;;
  fail_unless (at_key p "duration_ms" is_nonneg_int)
    "trigger.fired: duration_ms must be a non-negative integer" ;;;
  fail_unless (key_in p "outcome" OUTCOMES) (one_of "trigger.fired: outcome" OUTCOMES_sorted) ;;;
  fail_unless_opt p "error" is_str "trigger.fired: error must be a string".

Definition validate_webhook_delivered (p : pydict) : check :=
  require_keys p ["name"; "url_host"; "status_code"; "duration_ms"] "webhook.delivered" ;;;
  fail_unless (at_key p "name" is_nonempty_str)
    "webhook.delivered: name must be a non-empty string" ;;;
  fail_unless (at_key p "url_host" is_str) "webhook.delivered: url_host must be a string" ;;;
  fail_unless (at_key p "status_code" is_http_status)
    "webhook.delivered: status_code must be an int 100..599" ;;;
  fail_unless (at_key p "duration_ms" is_nonneg_int)
    "webhook.delivered: duration_ms must be a non-negative integer".

Definition validate_webhook_failed (p : pydict) : check :=
  require_keys p ["name"; "url_host"; "reason"; "duration_ms"] "webhook.failed" ;;;
  fail_unless (at_key p "name" is_nonempty_str) "webhook.failed: name must be a non-empty string" ;;;
  fail_unless (at_key p "url_host" is_str) "webhook.failed: url_host must be a string" ;;;
  fail_unless (key_in p "reason" WEBHOOK_FAILURE_REASONS)
    (one_of "webhook.failed: reason" ["dns_denied"; "exception"; "http_error"; "timeout"]) ;;;
  fail_unless_opt p "status_code" is_http_status
    "webhook.failed: status_code must be an int 100..599" ;;;
  fail_unless (at_key p "duration_ms" is_nonneg_int)
    "webhook.failed: duration_ms must be a non-negative integer" ;;;
  fail_unless_opt p "error" is_str "webhook.failed: error must be a string".

Definition validate_hook_decision (p : pydict) : check :=
  require_keys p ["backend"; "session_id_hash"; "tool"; "decision"] "hook.decision" ;;;
  fail_unless (key_in p "backend" HOOK_BACKENDS)
    (one_of "hook.decision: backend" ["claude"; "codex"; "gemini"; "openai"]) ;;;
  fail_unless (at_key p "session_id_hash" is_nonempty_str)
    "hook.decision: session_id_hash must be a non-empty string" ;;;
  fail_unless (at_key p "tool" is_str) "hook.decision: tool must be a string" ;;;
  fail_unless (key_in p "decision" HOOK_DECISIONS)
    (one_of "hook.decision: decision" ["allow"; "deny"; "warn"]) ;;;
  fail_unless_opt p "rule_id" is_str "hook.decision: rule_id must be a string" ;;;
  fail_unless_opt p "reason" is_str "hook.decision: reason must be a string".

Definition A2A_CONCERNS_sorted := ["a2a"; "continuation"; "heartbeat"; "job"; "task"; "trigger"].

Definition validate_a2a_received (p : pydict) : check :=
  require_keys p ["concern"] "a2a.request.received" ;;;
  fail_unless (key_in p "concern" A2A_CONCERNS)
    (one_of "a2a.request.received: concern" A2A_CONCERNS_sorted) ;;;
  fail_unless_opt p "model" is_str "a2a.request.received: model must be a string".

Definition validate_a2a_completed (p : pydict) : check :=
  require_keys p ["concern"; "outcome"; "duration_ms"] "a2a.request.completed" ;;;
  fail_unless (key_in p "concern" A2A_CONCERNS)
    (one_of "a2a.request.completed: concern" A2A_CONCERNS_sorted) ;;;
  fail_unless (key_in p "outcome" OUTCOMES)
    (one_of "a2a.request.completed: outcome" OUTCOMES_sorted) ;;;
  fail_unless (at_key p "duration_ms" is_nonneg_int)
    "a2a.request.completed: duration_ms must be a non-negative integer" ;;;
  fail_unless_opt p "error" is_str "a2a.request.completed: error must be a string".

Definition validate_agent_lifecycle (p : pydict) : check :=
  require_keys p ["backend"; "event"] "agent.lifecycle" ;;;
  fail_unless (key_in p "backend" HOOK_BACKENDS)
    (one_of "agent.lifecycle: backend" ["claude"; "codex"; "gemini"; "openai"]) ;;;
  fail_unless (key_in p "event" LIFECYCLE_EVENTS)
    (one_of "agent.lifecycle: event" ["config_reloaded"; "credential_rotated"; "started"; "stopped"]) ;;;
  fail_unless_opt p "detail" is_str "agent.lifecycle: detail must be a string".

Definition validate_conversation_turn (p : pydict) : check :=
  require_keys p ["session_id_hash"; "role"; "content_bytes"] "conversation.turn" ;;;
  fail_unless (at_key p "session_id_hash" is_session_hash)
    "conversation.turn: session_id_hash must be a 12-char string" ;;;
  fail_unless (key_in p "role" CONVERSATION_ROLES)
    (one_of "conversation.turn: role" ["assistant"; "user"]) ;;;
  fail_unless (at_key p "content_bytes" is_nonneg_int)
    "conversation.turn: content_bytes must be a non-negative integer" ;;;
  fail_unless_opt p "model" is_str "conversation.turn: model must be a string".

Definition validate_conversation_chunk (p : pydict) : check :=
  require_keys p ["session_id_hash"; "role"; "seq"; "content"; "final"] "conversation.chunk" ;;;
  fail_unless (at_key p "session_id_hash" is_session_hash)
    "conversation.chunk: session_id_hash must be a 12-char string" ;;;
  fail_unless (key_in p "role" CONVERSATION_ROLES)
    (one_of "conversation.chunk: role" ["assistant"; "user"]) ;;;
  fail_unless (at_key p "seq" is_nonneg_int)
    "conversation.chunk: seq must be a non-negative integer" ;;;
  fail_unless (at_key p "content" is_str) "conversation.chunk: content must be a string" ;;;
  fail_unless (at_key p "final" is_bool) "conversation.chunk: final must be a boolean".

Definition validate_tool_use (p : pydict) : check :=
  require_keys p ["session_id_hash"; "tool"; "duration_ms"; "outcome"] "tool.use" ;;;
  fail_unless (at_key p "session_id_hash" is_session_hash)
    "tool.use: session_id_hash must be a 12-char string" ;;;
  fail_unless (at_key p "tool" is_str) "tool.use: tool must be a string" ;;;
  fail_unless (at_key p "duration_ms" is_nonneg_int)
    "tool.use: duration_ms must be a non-negative integer" ;;;
  fail_unless (key_in p "outcome" TOOL_OUTCOMES)
    (one_of "tool.use: outcome" ["denied"; "error"; "ok"]) ;;;
  fail_unless_opt p "result_size_bytes" is_nonneg_int
    "tool.use: result_size_bytes must be a non-negative integer" ;;;
  fail_unless_opt p "error" is_str "tool.use: error must be a string".

Definition validate_trace_span (p : pydict) : check :=
  require_keys p ["span_name"; "duration_ms"; "status"; "service"] "trace.span" ;;;
  fail_unless (at_key p "span_name" is_nonempty_str)
    "trace.span: span_name must be a non-empty string" ;;;
  fail_unless (at_key p "duration_ms" is_nonneg_int)
    "trace.span: duration_ms must be a non-negative integer" ;;;
  fail_unless (key_in p "status" SPAN_STATUSES)
    (one_of "trace.span: status" ["error"; "ok"]) ;;;
  fail_unless (at_key p "service" is_str) "trace.span: service must be a string" ;;;
  fail_unless_opt p "session_id_hash" is_session_hash
    "trace.span: session_id_hash must be a 12-char string".

Definition validate_stream_gap (p : pydict) : check :=
  require_keys p ["last_seen_id"; "resume_id"] "stream.gap" ;;;
  fail_unless (at_key p "last_seen_id" is_nonempty_str)
    "stream.gap: last_seen_id must be a non-empty string" ;;;
  fail_unless (at_key p "resume_id" is_nonempty_str)
    "stream.gap: resume_id must be a non-empty string" ;;;
  fail_unless_opt p "reason" is_str "stream.gap: reason must be a string".

Definition validate_stream_overrun (p : pydict) : check :=
  require_keys p ["queue_depth"; "queue_max"] "stream.overrun" ;;;
  fail_unless (at_key p "queue_depth" is_nonneg_int)
    "stream.overrun: queue_depth must be a non-negative integer" ;;;
  fail_unless (at_key p "queue_max" is_nonneg_int)
    "stream.overrun: queue_max must be a non-negative integer" ;;;
  fail_unless_opt p "reason" is_str "stream.overrun: reason must be a string".

Definition VALIDATORS : list (string * (pydict -> check)) :=
  [ ("job.fired", validate_job_fired);
    ("task.fired", validate_task_fired);
    ("heartbeat.fired", validate_heartbeat_fired);
    ("continuation.fired", validate_continuation_fired);
    ("trigger.fired", validate_trigger_fired);
    ("webhook.delivered", validate_webhook_delivered);
    ("webhook.failed", validate_webhook_failed);
    ("hook.decision", validate_hook_decision);
    ("a2a.request.received", validate_a2a_received);
    ("a2a.request.completed", validate_a2a_completed);
    ("agent.lifecycle", validate_agent_lifecycle);
    ("conversation.turn", validate_conversation_turn);
    ("conversation.chunk", validate_conversation_chunk);
    ("tool.use", validate_tool_use);
    ("trace.span", validate_trace_span);
    ("stream.gap", validate_stream_gap);
    ("stream.overrun", validate_stream_overrun) ].

Definition KNOWN_TYPES : list string := od_keys VALIDATORS.

Fixpoint require_envelope_keys (env : pydict) (keys : list string) : check :=
  match keys with
  | [] => pass
  | key :: keys' =>
      if dict_has env key then require_envelope_keys env keys'
      else Ok (Some ("envelope: missing required field " +:+ repr_str key))
  end.

Definition validate_envelope (envelope : pyval) : check :=
  match envelope with
  | VDict env =>
      require_envelope_keys env ["type"; "version"; "id"; "ts"; "agent_id"; "payload"] ;;;
      type_ <-- dict_index env "type" ;;
      match (match type_ with VStr t => od_get VALIDATORS t | _ => None end) with
      | None => Ok (Some ("envelope: unknown type " +:+ py_repr type_))
      | Some validator =>
          fail_unless (at_key env "version"
                         (fun v => is_int v && negb (is_bool v) && (1 <=? int_value v)))
            "envelope: version must be a positive integer" ;;;
          fail_unless (at_key env "id" is_nonempty_str) "envelope: id must be a non-empty string" ;;;
          fail_unless (at_key env "ts" is_nonempty_str) "envelope: ts must be a non-empty string" ;;;
          fail_unless (at_key env "agent_id" (fun v => is_none v || is_str v))
            "envelope: agent_id must be a string or null" ;;;
          payload <-- dict_index env "payload" ;;
          match payload with
          | VDict p => validator p
          | _ => Ok (Some "envelope: payload must be an object")
          end
      end
  | _ => Ok (Some "envelope must be a JSON object")
  end.

(** ** The declarative schema *)

Inductive fty : Type :=
| FNonEmptyStr | FStr | FNonNeg | FHttpStatus | FSessionHash | FBool
| FEnum (names : list string).

Definition has_fty (t : fty) (v : pyval) : Prop :=
  match t with
  | FNonEmptyStr => exists s, v = VStr s /\ s <> ""
  | FStr => exists s, v = VStr s
  | FNonNeg => exists z, v = VInt z /\ 0 <= z
  | FHttpStatus => exists z, v = VInt z /\ 100 <= z <= 599
  | FSessionHash => exists s, v = VStr s /\ String.length s = 12%nat
  | FBool => exists b, v = VBool b
  | FEnum names => exists s, v = VStr s /\ s ∈ names
  end.

Definition has_field (p : pydict) (k : string) (t : fty) : Prop :=
  exists v, dict_get p k = Some v /\ has_fty t v.
Definition opt_field (p : pydict) (k : string) (t : fty) : Prop :=
  forall v, dict_get p k = Some v -> has_fty t v.

Inductive field_spec : Type :=
| Req (k : string) (t : fty)
| Opt (k : string) (t : fty).

Definition field_ok (p : pydict) (f : field_spec) : Prop :=
  match f with Req k t => has_field p k t | Opt k t => opt_field p k t end.

(** Unknown keys are tolerated: only the listed fields are constrained. *)
Definition conforms (fs : list field_spec) (p : pydict) : Prop := Forall (field_ok p) fs.

Definition outcome_duration : list field_spec :=
  [Req "duration_ms" FNonNeg; Req "outcome" (FEnum OUTCOMES); Opt "error" FStr].

Definition payload_schema : list (string * list field_spec) :=
  [ ("job.fired", Req "name" FNonEmptyStr :: Req "schedule" FStr :: outcome_duration);
    ("task.fired", Req "name" FNonEmptyStr :: Opt "window" FStr :: outcome_duration);
    ("heartbeat.fired", Opt "schedule" FStr :: outcome_duration);
    ("continuation.fired",
       Req "name" FNonEmptyStr :: Req "upstream_kind" (FEnum CONTINUATION_KINDS) ::
       Req "upstream_name" FStr :: outcome_duration);
    ("trigger.fired", Req "name" FNonEmptyStr :: Req "endpoint" FStr :: outcome_duration);
    ("webhook.delivered",
       [Req "name" FNonEmptyStr; Req "url_host" FStr; Req "status_code" FHttpStatus;
        Req "duration_ms" FNonNeg]);
    ("webhook.failed",
       [Req "name" FNonEmptyStr; Req "url_host" FStr; Req "reason" (FEnum WEBHOOK_FAILURE_REASONS);
        Opt "status_code" FHttpStatus; Req "duration_ms" FNonNeg; Opt "error" FStr]);
    ("hook.decision",
       [Req "backend" (FEnum HOOK_BACKENDS); Req "session_id_hash" FNonEmptyStr; Req "tool" FStr;
        Req "decision" (FEnum HOOK_DECISIONS); Opt "rule_id" FStr; Opt "reason" FStr]);
    ("a2a.request.received", [Req "concern" (FEnum A2A_CONCERNS); Opt "model" FStr]);
    ("a2a.request.completed", Req "concern" (FEnum A2A_CONCERNS) :: outcome_duration);
    ("agent.lifecycle",
       [Req "backend" (FEnum HOOK_BACKENDS); Req "event" (FEnum LIFECYCLE_EVENTS);
        Opt "detail" FStr]);
    ("conversation.turn",
       [Req "session_id_hash" FSessionHash; Req "role" (FEnum CONVERSATION_ROLES);
        Req "content_bytes" FNonNeg; Opt "model" FStr]);
    ("conversation.chunk",
       [Req "session_id_hash" FSessionHash; Req "role" (FEnum CONVERSATION_ROLES);
        Req "seq" FNonNeg; Req "content" FStr; Req "final" FBool]);
    ("tool.use",
       [Req "session_id_hash" FSessionHash; Req "tool" FStr; Req "duration_ms" FNonNeg;
        Req "outcome" (FEnum TOOL_OUTCOMES); Opt "result_size_bytes" FNonNeg; Opt "error" FStr]);
    ("trace.span",
       [Req "span_name" FNonEmptyStr; Req "duration_ms" FNonNeg; Req "status" (FEnum SPAN_STATUSES);
        Req "service" FStr; Opt "session_id_hash" FSessionHash]);
    ("stream.gap",
       [Req "last_seen_id" FNonEmptyStr; Req "resume_id" FNonEmptyStr; Opt "reason" FStr]);
    ("stream.overrun",
       [Req "queue_depth" FNonNeg; Req "queue_max" FNonNeg; Opt "reason" FStr]) ].

Definition well_formed (envelope : pyval) : Prop :=
  exists env t fs p z,
    envelope = VDict env /\
    dict_get env "type" = Some (VStr t) /\ od_get payload_schema t = Some fs /\
    dict_get env "version" = Some (VInt z) /\ 1 <= z /\
    has_field env "id" FNonEmptyStr /\ has_field env "ts" FNonEmptyStr /\
    (dict_get env "agent_id" = Some VNone \/ has_field env "agent_id" FStr) /\
    dict_get env "payload" = Some (VDict p) /\ conforms fs p.

(** ** Lemmas on checks *)

Create Rewrite HintDb checks.

Lemma cseq_None a b : cseq a b = Ok None <-> a = Ok None /\ b = Ok None.
Proof. destruct a as [[?|]|?]; cbn; naive_solver. Qed.

Lemma fail_unless_None t m : fail_unless t m = Ok None <-> t = Ok true.
Proof. destruct t as [[]|?]; cbn; naive_solver. Qed.

Lemma at_key_true p k t : at_key p k t = Ok true <-> exists v, dict_get p k = Some v /\ t v = true.
Proof.
  unfold at_key, dict_index. destruct (dict_get p k) as [v|]; cbn; split.
  - intros [= H]. eauto.
  - by intros (? & [= <-] & ->).
  - done.
  - by intros (? & ? & ?).
Qed.

Lemma key_in_true p k S : key_in p k S = Ok true <-> has_field p k (FEnum S).
Proof.
  unfold key_in, has_field, dict_index. destruct (dict_get p k) as [v|]; cbn.
  - rewrite in_str_set_true. naive_solver.
  - naive_solver.
Qed.

Lemma require_keys_None p ks t :
  require_keys p ks t = Ok None <-> Forall (fun k => is_Some (dict_get p k)) ks.
Proof.
  induction ks as [|k ks IH]; cbn.
  - by split; [constructor|].
  - rewrite Forall_cons, <-IH, <-dict_has_true. destruct (dict_has p k); naive_solver.
Qed.

(** The boolean field tests decide the field types. *)
Definition decides (t : pyval -> bool) (ty : fty) : Prop :=
  forall v, t v = true <-> has_fty ty v.

Lemma nonempty_str_decides : decides is_nonempty_str FNonEmptyStr.
Proof.
  intros [| | | |s| |]; cbn; split; try done; try (by intros (? & ? & ?)).
  - intros H. exists s. split; [done|]. by intros ->.
  - intros (? & [= <-] & ?). by destruct s.
Qed.
Lemma str_decides : decides is_str FStr.
Proof. intros []; cbn; split; eauto; try done; by intros (? & ?). Qed.
Lemma bool_decides : decides is_bool FBool.
Proof. intros []; cbn; split; eauto; try done; by intros (? & ?). Qed.
Lemma nonneg_decides : decides is_nonneg_int FNonNeg.
Proof.
  intros []; cbn; split; try done; try (by intros (? & ? & ?)); intros H.
  - boolp. eauto.
  - destruct H as (? & [= <-] & ?). blia.
Qed.
Lemma http_status_decides : decides is_http_status FHttpStatus.
Proof.
  intros []; cbn; split; try done; try (by intros (? & ? & ?)); intros H.
  - boolp. eauto.
  - destruct H as (? & [= <-] & ?). blia.
Qed.
Lemma session_hash_decides : decides is_session_hash FSessionHash.
Proof.
  intros []; cbn; split; try done; try (by intros (? & ? & ?)); intros H.
  - boolp. eauto.
  - destruct H as (? & [= <-] & ?). by boolp.
Qed.

Lemma at_key_decides p k t ty : decides t ty -> at_key p k t = Ok true <-> has_field p k ty.
Proof.
  intros Ht. rewrite at_key_true. unfold has_field.
  split; intros (v & ? & ?%Ht); eauto.
Qed.

Lemma opt_decides p k t ty m :
  decides t ty -> fail_unless_opt p k t m = Ok None <-> opt_field p k ty.
Proof.
  intros Ht. unfold fail_unless_opt, opt_field. destruct (dict_get p k) as [v|].
  - rewrite fail_unless_None. split.
    + intros [= Hv] ? [= <-]. by apply Ht.
    + intros H. f_equal. apply Ht. by apply H.
  - by split.
Qed.

#[export] Hint Rewrite cseq_None fail_unless_None key_in_true require_keys_None @Forall_cons @Forall_nil
  (fun p k => at_key_decides p k _ _ nonempty_str_decides)
  (fun p k => at_key_decides p k _ _ str_decides)
  (fun p k => at_key_decides p k _ _ bool_decides)
  (fun p k => at_key_decides p k _ _ nonneg_decides)
  (fun p k => at_key_decides p k _ _ http_status_decides)
  (fun p k => at_key_decides p k _ _ session_hash_decides)
  (fun p k m => opt_decides p k _ _ m nonempty_str_decides)
  (fun p k m => opt_decides p k _ _ m str_decides)
  (fun p k m => opt_decides p k _ _ m nonneg_decides)
  (fun p k m => opt_decides p k _ _ m http_status_decides)
  (fun p k m => opt_decides p k _ _ m session_hash_decides) : checks.

Lemma has_field_Some p k t : has_field p k t -> is_Some (dict_get p k).
Proof. intros (v & -> & _). eauto. Qed.

Ltac solve_checks :=
  autorewrite with checks; cbn [field_ok]; unfold pass;
  split; intros; destruct_and?; split_and?; eauto using has_field_Some.

(** One goal per entry of the dispatch table. *)
Ltac each_validator H :=
  unfold VALIDATORS in H; rewrite !elem_of_cons in H;
  repeat (destruct H as [[= -> ->]|H]); [..|by apply not_elem_of_nil in H].

Ltac unfold_validators :=
  unfold validate_job_fired, validate_task_fired, validate_heartbeat_fired,
    validate_continuation_fired, validate_trigger_fired, validate_webhook_delivered,
    validate_webhook_failed, validate_hook_decision, validate_a2a_received,
    validate_a2a_completed, validate_agent_lifecycle, validate_conversation_turn,
    validate_conversation_chunk, validate_tool_use, validate_trace_span,
    validate_stream_gap, validate_stream_overrun in *.

(** Each validator decides its row of the schema. *)
Lemma validators_conform t validator :
  od_get VALIDATORS t = Some validator ->
  exists fs, od_get payload_schema t = Some fs /\
             forall p, validator p = Ok None <-> conforms fs p.
Proof.
  intros H%od_get_elem. each_validator H; eexists; (split; [reflexivity|]); intros p;
    unfold conforms, outcome_duration; unfold_validators; solve_checks.
Qed.

(** *** When a validator raises *)

(** Some enumerated field of the schema holds a list or an object. *)
Definition unhashable_enum (fs : list field_spec) (p : pydict) : Prop :=
  exists k names v, Req k (FEnum names) ∈ fs /\ dict_get p k = Some v /\ hashable v = false.

Lemma cseq_Raise a b e : cseq a b = Raise e -> a = Raise e \/ (a = Ok None /\ b = Raise e).
Proof. destruct a as [[?|]|?]; cbn; naive_solver. Qed.

Lemma fail_unless_Raise t m e : fail_unless t m = Raise e -> t = Raise e.
Proof. destruct t as [[]|?]; cbn; naive_solver. Qed.

Lemma require_keys_total p ks t e : require_keys p ks t <> Raise e.
Proof. induction ks as [|k ks IH]; cbn; [done|]. by destruct (dict_has p k). Qed.

Lemma fail_unless_opt_total p k t m e : fail_unless_opt p k t m <> Raise e.
Proof. unfold fail_unless_opt. destruct (dict_get p k) as [v|]; [|done]. by destruct (t v). Qed.

Lemma at_key_total p k t e : is_Some (dict_get p k) -> at_key p k t <> Raise e.
Proof. intros [v Hv]. unfold at_key, dict_index. by rewrite Hv. Qed.

Lemma key_in_Raise p k names e :
  is_Some (dict_get p k) -> key_in p k names = Raise e ->
  e = TypeError /\ exists v, dict_get p k = Some v /\ hashable v = false.
Proof.
  intros [v Hv]. unfold key_in, dict_index. rewrite Hv. cbn.
  intros [-> ?]%in_str_set_raises. eauto.
Qed.

Ltac check_raises H :=
  let Hk := fresh "Hkeys" in
  apply cseq_Raise in H as [H|[Hk H]];
  [by apply require_keys_total in H|
   apply require_keys_None in Hk; rewrite ?Forall_cons in Hk; destruct_and?];
  repeat (apply cseq_Raise in H as [H|[_ H]]);
  solve [ by apply fail_unless_opt_total in H
        | apply fail_unless_Raise in H; by apply at_key_total in H
        | apply fail_unless_Raise in H; apply key_in_Raise in H as [-> (v & ? & ?)]; [|done];
          split; [done|]; eexists _, _, v; split_and!; [|eassumption|done];
          unfold outcome_duration;
          repeat first [apply list_elem_of_here | apply list_elem_of_further] ].

(** A validator raises only [TypeError], and only for an unhashable value in
    an enumerated field: never [KeyError]. *)
Lemma validators_raise t validator p e :
  od_get VALIDATORS t = Some validator -> validator p = Raise e ->
  e = TypeError /\ exists fs, od_get payload_schema t = Some fs /\ unhashable_enum fs p.
Proof.
  intros Ht%od_get_elem H.
  enough (exists fs, od_get payload_schema t = Some fs /\ e = TypeError /\ unhashable_enum fs p)
    as (fs & ? & ? & ?) by eauto.
  each_validator Ht; eexists; (split; [reflexivity|]); unfold_validators; check_raises H.
Qed.

(** *** The envelope *)

Lemma require_envelope_keys_None env ks :
  require_envelope_keys env ks = Ok None <-> Forall (fun k => is_Some (dict_get env k)) ks.
Proof.
  induction ks as [|k ks IH]; cbn.
  - by split; [constructor|].
  - rewrite Forall_cons, <-IH, <-dict_has_true. destruct (dict_has env k); naive_solver.
Qed.

Lemma require_envelope_keys_total env ks e : require_envelope_keys env ks <> Raise e.
Proof. induction ks as [|k ks IH]; cbn; [done|]. by destruct (dict_has env k). Qed.

Lemma version_decides v :
  is_int v && negb (is_bool v) && (1 <=? int_value v) = true <-> exists z, v = VInt z /\ 1 <= z.
Proof.
  destruct v; cbn; split; try done; try (by intros (? & ? & ?)); intros H.
  - boolp. eauto.
  - destruct H as (? & [= <-] & ?). blia.
Qed.

Lemma agent_id_decides v : is_none v || is_str v = true <-> v = VNone \/ has_fty FStr v.
Proof. destruct v; cbn; split; try done; try naive_solver. Qed.

(** The dispatch of an envelope that has all its keys. *)
Lemma known_type_schema t :
  is_Some (od_get VALIDATORS t) <-> is_Some (od_get payload_schema t).
Proof.
  cbn. repeat (case_decide; [subst; split; intros _; eauto|]).
  split; intros [? [=]].
Qed.

(** The validator of a type accepts exactly the payloads of its row. *)
Lemma validator_spec t validator fs p :
  od_get VALIDATORS t = Some validator -> od_get payload_schema t = Some fs ->
  validator p = Ok None <-> conforms fs p.
Proof. intros (fs' & Hfs' & Hspec)%validators_conform Hfs. rewrite Hspec. by simplify_option_eq. Qed.

Lemma validate_envelope_None envelope :
  validate_envelope envelope = Ok None <-> well_formed envelope.
Proof.
  split.
  - destruct envelope as [| | | | | |env]; cbn [validate_envelope]; try done.
    intros [Hk%require_envelope_keys_None H]%cseq_None.
    apply res_bind_Ok in H as (ty & Hty%dict_index_Ok & H).
    destruct ty as [| | | |t| |]; try done.
    destruct (od_get VALIDATORS t) as [validator|] eqn:Ev; [|done].
    rewrite !cseq_None, !fail_unless_None in H.
    destruct H as (Hver & Hid & Hts & Hag & H).
    apply res_bind_Ok in H as (pl & Hpl%dict_index_Ok & H).
    destruct pl as [| | | | | |p]; try done.
    destruct (proj1 (known_type_schema t)) as [fs Hfs]; [eauto|].
    rewrite (validator_spec _ _ _ _ Ev Hfs) in H.
    apply at_key_true in Hver as (v & Hv & (z & -> & Hz)%version_decides).
    apply at_key_true in Hag as (a & Ha & Hag%agent_id_decides).
    apply (at_key_decides _ _ _ _ nonempty_str_decides) in Hid, Hts.
    exists env, t, fs, p, z. unfold has_field. split_and!; try done.
    destruct Hag as [->|?]; eauto.
  - intros (env & t & fs & p & z & -> & Hty & Hfs & Hv & Hz & Hid & Hts & Hag & Hp & Hc).
    destruct (proj2 (known_type_schema t)) as [validator Ev]; [eauto|].
    cbn [validate_envelope]. rewrite cseq_None. split.
    + apply require_envelope_keys_None. repeat constructor; eauto using has_field_Some.
      destruct Hag; eauto using has_field_Some.
    + apply res_bind_Ok. exists (VStr t). rewrite dict_index_Ok, Ev. split; [done|].
      rewrite !cseq_None, !fail_unless_None, !(at_key_decides _ _ _ _ nonempty_str_decides), !at_key_true.
      split_and!; try done.
      * exists (VInt z). split; [done|]. apply version_decides. eauto.
      * destruct Hag as [?|(a & ? & ?)]; eexists; (split; [eassumption|]); apply agent_id_decides; eauto.
      * apply res_bind_Ok. exists (VDict p). rewrite dict_index_Ok.
        by rewrite (validator_spec _ _ _ _ Ev Hfs).
Qed.


Lemma validate_envelope_TypeError envelope e :
  validate_envelope envelope = Raise e ->
  e = TypeError /\
  exists env t fs p, envelope = VDict env /\ dict_get env "type" = Some (VStr t) /\
    od_get payload_schema t = Some fs /\ dict_get env "payload" = Some (VDict p) /\
    unhashable_enum fs p.
Proof.
  destruct envelope as [| | | | | |env]; cbn [validate_envelope]; try done.
  intros [H|[Hk H]]%cseq_Raise; [by apply require_envelope_keys_total in H|].
  apply require_envelope_keys_None in Hk. rewrite !Forall_cons in Hk.
  destruct Hk as (Hkt & Hkv & Hki & Hks & Hka & Hkp & _).
  apply res_bind_Raise in H as [[_ H]%dict_index_Raise|(ty & Hty%dict_index_Ok & H)];
    [by rewrite H in Hkt; destruct Hkt|].
  destruct ty as [| | | |t| |]; try done.
  destruct (od_get VALIDATORS t) as [validator|] eqn:Ev; [|done].
  do 4 (apply cseq_Raise in H as [H%fail_unless_Raise|[_ H]]; [by apply at_key_total in H|]).
  apply res_bind_Raise in H as [[_ H]%dict_index_Raise|(pl & Hpl%dict_index_Ok & H)];
    [by rewrite H in Hkp; destruct Hkp|].
  destruct pl as [| | | | | |p]; try done.
  destruct (validators_raise _ _ _ _ Ev H) as (-> & fs & ? & ?).
  split; [done|]. exists env, t, fs, p. done.
Qed.

(** [validate_envelope] raises only [TypeError], and only because an
    enumerated field of the payload of a known type is a list or an object;
    no input makes it raise [KeyError].  So the publish path, which has no
    handler around the call, can raise on a payload that came as JSON. *)
Theorem validate_envelope_raises envelope e :
  validate_envelope envelope = Raise e ->
  e = TypeError /\
  exists env t fs p, envelope = VDict env /\ dict_get env "type" = Some (VStr t) /\
    od_get payload_schema t = Some fs /\ dict_get env "payload" = Some (VDict p) /\
    unhashable_enum fs p.
Proof. apply validate_envelope_TypeError. Qed.

Definition unhashable_outcome : pyval :=
  VDict $ mk_dict [("type", VStr "heartbeat.fired"); ("version", VInt 1); ("id", VStr "1");
         ("ts", VStr "2026-01-01T00:00:00.000Z"); ("agent_id", VNone);
         ("payload", VDict (mk_dict [("duration_ms", VInt 3); ("outcome", VList [])]))].

Lemma validate_envelope_raises_witness :
  validate_envelope unhashable_outcome = Raise TypeError /\
  (TypeError = TypeError /\
   exists env t fs p, unhashable_outcome = VDict env /\ dict_get env "type" = Some (VStr t) /\
    od_get payload_schema t = Some fs /\ dict_get env "payload" = Some (VDict p) /\
    unhashable_enum fs p).
Proof. split; [reflexivity|]. apply (validate_envelope_raises unhashable_outcome). reflexivity. Defined.

(** ** The validator interface *)

Lemma validate_envelope_type e :
  validate_envelope (to_dict e) = Ok None -> e_type e ∈ KNOWN_TYPES.
Proof.
  cbn [validate_envelope to_dict]. intros [_ H]%cseq_None. cbn [mk_dict fmap] in H.
  change (dict_index _ "type") with (Ok (VStr (e_type e))) in H. cbn [res_bind] in H.
  destruct (od_get VALIDATORS (e_type e)) as [v|] eqn:Hv; [|done].
  apply od_get_elem in Hv. apply list_elem_of_fmap. by exists (e_type e, v).
Qed.

#[export] Instance schema_validator : Validator := {|
  validate := validate_envelope;
  known_types := KNOWN_TYPES;
  validate_known := validate_envelope_type;
  validate_raises v x H := proj1 (validate_envelope_TypeError v x H)
|}.
