(* ===== verification/EventStream.v ===== *)
(** * The harness event stream (harness/events.py)

    [stream] is an [EventStream]: the replay ring, the set of live
    subscribers, the id counter and the metrics.  Subscriber objects outlive
    their membership of the set (an evicted subscriber is still being drained
    by its iterator), so they live in a heap indexed by object identity.
    [run] executes a sequence of operations and collects the published
    envelopes; [stream_inv] relates the state to that history. *)
From S2P Require Import Prelude PyStr PyVal AsyncQueue Broadcast EventSchema.

(** ** Metrics *)

(** Each collector is absent until [attach_metrics]; a labelled counter maps
    its label to the count. *)
Record metrics : Type := mk_metrics {
  m_subscribers : option Z;
  m_published_total : option (gmap string Z);
  m_dropped_total : option (gmap string Z);
  m_overruns_total : option Z;
  m_validation_errors_total : option (gmap string Z);
  m_ring_size : option Z
}.

Definition no_metrics : metrics := mk_metrics None None None None None None.

Definition bump_label (c : option (gmap string Z)) (label : string) : option (gmap string Z) :=
  (fun m => <[label := default 0 (m !! label) + 1]> m) <$> c.
Definition bump (c : option Z) : option Z := Z.succ <$> c.
Definition gauge_set (g : option Z) (v : Z) : option Z := (fun _ => v) <$> g.

(** ** State *)

Record stream : Type := mk_stream {
  queue_max : Z;
  ring_max : Z;
  ring : list envelope;
  subscribers : gset nat;
  heap : gmap nat subscriber;
  alloc : nat;
  next_id : Z;
  metrics_of : metrics
}.

Definition new_stream (qmax rmax : Z) : stream :=
  mk_stream (Z.max 1 qmax) (Z.max 1 rmax) [] ∅ ∅ 0 0 no_metrics.

Definition with_metrics (s : stream) (m : metrics) : stream :=
  mk_stream (queue_max s) (ring_max s) (ring s) (subscribers s) (heap s) (alloc s) (next_id s) m.
Definition with_next_id (s : stream) (n : Z) : stream :=
  mk_stream (queue_max s) (ring_max s) (ring s) (subscribers s) (heap s) (alloc s) n (metrics_of s).
Definition with_sub (s : stream) (i : nat) (sub : subscriber) : stream :=
  mk_stream (queue_max s) (ring_max s) (ring s) (subscribers s) (<[i := sub]> (heap s)) (alloc s)
    (next_id s) (metrics_of s).
Definition with_subscribers (s : stream) (subs : gset nat) : stream :=
  mk_stream (queue_max s) (ring_max s) (ring s) subs (heap s) (alloc s) (next_id s) (metrics_of s).

Definition attach_metrics (s : stream) (m : metrics) : stream := with_metrics s m.

Definition sync_subscribers_gauge (s : stream) : stream :=
  let m := metrics_of s in
  with_metrics s
    (mk_metrics (gauge_set (m_subscribers m) (Z.of_nat (size (subscribers s))))
       (m_published_total m) (m_dropped_total m) (m_overruns_total m)
       (m_validation_errors_total m) (m_ring_size m)).

Definition bump_published (s : stream) (type_ : string) : stream :=
  let m := metrics_of s in
  with_metrics s (mk_metrics (m_subscribers m) (bump_label (m_published_total m) type_)
    (m_dropped_total m) (m_overruns_total m) (m_validation_errors_total m) (m_ring_size m)).
Definition bump_dropped (s : stream) (reason : string) : stream :=
  let m := metrics_of s in
  with_metrics s (mk_metrics (m_subscribers m) (m_published_total m)
    (bump_label (m_dropped_total m) reason) (m_overruns_total m) (m_validation_errors_total m)
    (m_ring_size m)).
Definition bump_overruns (s : stream) : stream :=
  let m := metrics_of s in
  with_metrics s (mk_metrics (m_subscribers m) (m_published_total m) (m_dropped_total m)
    (bump (m_overruns_total m)) (m_validation_errors_total m) (m_ring_size m)).
Definition bump_validation_errors (s : stream) (type_ : string) : stream :=
  let m := metrics_of s in
  with_metrics s (mk_metrics (m_subscribers m) (m_published_total m) (m_dropped_total m)
    (m_overruns_total m) (bump_label (m_validation_errors_total m) type_) (m_ring_size m)).

(** [self._ring.append(envelope)] and the ring gauge. *)
Definition ring_append (s : stream) (e : envelope) : stream :=
  let ring' := deque_append (Z.to_nat (ring_max s)) (ring s) e in
  let m := metrics_of s in
  mk_stream (queue_max s) (ring_max s) ring' (subscribers s) (heap s) (alloc s) (next_id s)
    (mk_metrics (m_subscribers m) (m_published_total m) (m_dropped_total m) (m_overruns_total m)
       (m_validation_errors_total m) (gauge_set (m_ring_size m) (Z.of_nat (length ring')))).

(** ** Subscription *)

Definition remove_subscriber (s : stream) (i : nat) : stream :=
  if decide (i ∈ subscribers s)
  then sync_subscribers_gauge (with_subscribers s (subscribers s ∖ {[i]}))
  else s.

(** The new subscriber's identity is returned with the state. *)
Definition subscribe (s : stream) : nat * stream :=
  let i := alloc s in
  (i, sync_subscribers_gauge
        (mk_stream (queue_max s) (ring_max s) (ring s) (subscribers s ∪ {[i]})
           (<[i := new_subscriber (queue_max s)]> (heap s)) (S i) (next_id s) (metrics_of s))).

(** [__anext__()] of the iterator of subscriber [i]; its [finally] clause
    removes the subscriber at the moment the generator finishes. *)
Definition anext (s : stream) (i : nat) : next_result * stream :=
  match heap s !! i with
  | None => (Stops, s)
  | Some sub =>
      let '(r, sub') := iter_next sub in
      let s' := with_sub s i sub' in
      (r, if bool_decide (sub_pc sub' = Finished /\ sub_pc sub <> Finished)
          then remove_subscriber s' i else s')
  end.

(** [aclose()] of the iterator, or the cancellation of its [__anext__()]. *)
Definition aclose (s : stream) (i : nat) : stream :=
  match heap s !! i with
  | None => s
  | Some sub =>
      let '(unwinds, sub') := iter_abort sub in
      let s' := with_sub s i sub' in
      if unwinds then remove_subscriber s' i else s'
  end.

(** ** Publishing *)

(** [now] is the formatted reading of the clock at the eviction. *)
Definition overrun_envelope (s : stream) (sub : subscriber) (now : string) : envelope :=
  mk_envelope "stream.overrun" (VInt 1) (py_str_int (next_id s) +:+ ".overrun") now VNone
    (overrun_payload sub (queue_max s) "subscriber queue full; evicted").

Definition evict_slow (s : stream) (i : nat) (sub : subscriber) (now : string) : stream :=
  let overrun := overrun_envelope s sub now in
  let s := bump_dropped (bump_overruns s) "overrun" in
  remove_subscriber (with_sub s i (evict_subscriber sub overrun)) i.

Definition fanout_one (now_ov : nat -> string) (e : envelope) (s : stream) (i : nat) : stream :=
  match heap s !! i with
  | None => s
  | Some sub =>
      if sub_closed sub then s
      else match deliver sub e with
           | Some sub' => with_sub s i sub'
           | None => evict_slow s i sub (now_ov i)
           end
  end.

(** [list(self._subscribers)] is some ordering of the set; [fanout_heap]
    below shows that the result does not depend on it. *)
Definition fanout (now_ov : nat -> string) (s : stream) (e : envelope) : stream :=
  foldl (fanout_one now_ov e) s (elements (subscribers s)).

(** The two critical sections of the id lock. *)
Definition assign_id (s : stream) : Z * stream :=
  let n := next_id s + 1 in (n, with_next_id s n).
Definition rollback_id (s : stream) (assigned : Z) : stream :=
  if next_id s =? assigned then with_next_id s (next_id s - 1) else s.

Definition publish `{Validator} (s : stream) (type_ : string) (payload : pydict)
    (agent_id version : pyval) (now : string) (now_ov : nat -> string) :
    res (option envelope) * stream :=
  let '(assigned, s) := assign_id s in
  let e := mk_envelope type_ version (py_str_int assigned) now agent_id payload in
  match validate (to_dict e) with
  | Raise x => (Raise x, s)
  | Ok (Some err) =>
      let s := bump_dropped (bump_validation_errors s type_) "validation" in
      (Ok None, rollback_id s assigned)
  | Ok None =>
      let s := ring_append s e in
      let s := fanout now_ov s e in
      (Ok (Some e), bump_published s type_)
  end.

(** An envelope the stream builds around a payload that conforms to the schema
    of its type is accepted. *)
Lemma payload_accepted t fs p agent now n :
  od_get payload_schema t = Some fs -> conforms fs p -> now <> "" ->
  (agent = VNone \/ exists a, agent = VStr a) ->
  validate (to_dict (mk_envelope t (VInt 1) (py_str_int n) now agent p)) = Ok None.
Proof.
  intros Hfs Hp Hnow Ha. apply validate_envelope_None.
  eexists _, t, fs, p, 1. split_and!; try done.
  - exists (VStr (py_str_int n)). split; [done|]. eexists. split; [done|]. apply py_str_int_nonempty.
  - exists (VStr now). split; [done|]. by exists now.
  - destruct Ha as [->|[a ->]]; [by left|]. right. exists (VStr a). split; [done|]. by eexists.
Qed.

(** ** Replay and introspection *)

Definition replay_from (s : stream) (last_id : option string) : list envelope :=
  replay (ring s) last_id.

Definition subscriber_count (s : stream) : Z := Z.of_nat (size (subscribers s)).
Definition ring_size (s : stream) : Z := Z.of_nat (length (ring s)).

(** ** Runs *)

Inductive op : Type :=
| Publish (type_ : string) (payload : pydict) (agent_id version : pyval)
          (now : string) (now_ov : nat -> string)
| Subscribe
| Next (i : nat)
| Close (i : nat)
| AttachMetrics (m : metrics).

(** The state after one operation, and the envelope it broadcast. *)
Definition exec `{Validator} (s : stream) (o : op) : stream * list envelope :=
  match o with
  | Publish t p a v now now_ov =>
      let '(r, s') := publish s t p a v now now_ov in
      (s', match r with Ok (Some e) => [e] | _ => [] end)
  | Subscribe => ((subscribe s).2, [])
  | Next i => ((anext s i).2, [])
  | Close i => (aclose s i, [])
  | AttachMetrics m => (attach_metrics s m, [])
  end.

Fixpoint run `{Validator} (s : stream) (ops : list op) : stream * list envelope :=
  match ops with
  | [] => (s, [])
  | o :: ops' =>
      let '(s', h) := exec s o in
      let '(s'', h') := run s' ops' in
      (s'', h ++ h')
  end.

(** ** Invariant *)

(** [h] is the history of published envelopes. *)
Record stream_inv (h : list envelope) (s : stream) : Prop := {
  inv_queue_max : 0 < queue_max s;
  inv_ring_max : 0 < ring_max s;
  inv_ring : ring s = lastn (Z.to_nat (ring_max s)) h;
  inv_ids : ids_upto h (next_id s);
  inv_subs : forall i, i ∈ subscribers s ->
             exists sub, heap s !! i = Some sub /\ sub_closed sub = false;
  inv_heap : forall i sub, heap s !! i = Some sub -> sub_ok (queue_max s) sub /\ (i < alloc s)%nat
}.

Lemma new_stream_inv q r : stream_inv [] (new_stream q r).
Proof.
  split; cbn; try lia; try set_solver.
  - by constructor.
Qed.

(** The fields an operation leaves alone. *)
Definition same_log (s s' : stream) : Prop :=
  queue_max s' = queue_max s /\ ring_max s' = ring_max s /\ ring s' = ring s /\
  next_id s' = next_id s /\ alloc s' = alloc s.

#[export] Instance same_log_refl : Reflexive same_log.
Proof. done. Qed.
#[export] Instance same_log_trans : Transitive same_log.
Proof. intros s1 s2 s3 (?&?&?&?&?) (?&?&?&?&?). unfold same_log. split_and!; congruence. Qed.

Lemma remove_subscriber_log s i : same_log s (remove_subscriber s i).
Proof. unfold remove_subscriber. by case_decide. Qed.
Lemma remove_subscriber_heap s i : heap (remove_subscriber s i) = heap s.
Proof. unfold remove_subscriber. by case_decide. Qed.
Lemma remove_subscriber_set s i : subscribers (remove_subscriber s i) = subscribers s ∖ {[i]}.
Proof. unfold remove_subscriber. case_decide; cbn; set_solver. Qed.

(** Replacing one subscriber by a well-formed one; a closed one must leave
    the set. *)
Lemma with_sub_inv h s i sub :
  stream_inv h s -> sub_ok (queue_max s) sub -> (i < alloc s)%nat ->
  (i ∈ subscribers s -> sub_closed sub = false) -> stream_inv h (with_sub s i sub).
Proof.
  intros [] Hok Hi Hc. split; cbn; try done.
  - intros j Hj. destruct (decide (i = j)) as [->|Hne].
    + rewrite lookup_insert_eq. eauto.
    + rewrite lookup_insert_ne by done. auto.
  - intros j sub' [[-> ->]|[Hne Hj]]%lookup_insert_Some; auto.
Qed.

Lemma remove_subscriber_inv h s i : stream_inv h s -> stream_inv h (remove_subscriber s i).
Proof.
  intros [Hq Hr Hring Hids Hs Hh]. destruct (remove_subscriber_log s i) as (E1&E2&E3&E4&E5).
  split; rewrite ?remove_subscriber_set, ?remove_subscriber_heap, ?E1, ?E2, ?E3, ?E4, ?E5; try done.
  intros j Hj. apply Hs. set_solver.
Qed.

Lemma metrics_inv h s m : stream_inv h s -> stream_inv h (with_metrics s m).
Proof. intros []. by split. Qed.

Lemma evict_slow_heap s i sub now :
  heap (evict_slow s i sub now)
  = <[i := evict_subscriber sub (overrun_envelope s sub now)]> (heap s).
Proof. unfold evict_slow. by rewrite remove_subscriber_heap. Qed.

Lemma evict_slow_log s i sub now : same_log s (evict_slow s i sub now).
Proof. unfold evict_slow. by destruct (remove_subscriber_log
  (with_sub (bump_dropped (bump_overruns s) "overrun") i
     (evict_subscriber sub (overrun_envelope s sub now))) i). Qed.

Lemma evict_slow_set s i sub now : subscribers (evict_slow s i sub now) = subscribers s ∖ {[i]}.
Proof. unfold evict_slow. by rewrite remove_subscriber_set. Qed.

Lemma evict_slow_inv h s i sub now :
  stream_inv h s -> heap s !! i = Some sub -> q_full (sub_queue sub) = true ->
  stream_inv h (evict_slow s i sub now).
Proof.
  intros Hs Hi Hf. pose proof Hs as [? ? ? ? Hl Hh]. destruct (Hh _ _ Hi) as [Hok Hlt].
  destruct (evict_slow_log s i sub now) as (E1&E2&E3&E4&E5).
  split; rewrite ?evict_slow_set, ?evict_slow_heap, ?E1, ?E2, ?E3, ?E4, ?E5; try done.
  - intros j Hj. rewrite lookup_insert_ne by set_solver. apply Hl. set_solver.
  - intros j sub' [[-> <-]|[Hne Hj]]%lookup_insert_Some; auto using evict_ok.
Qed.

(** ** Fan-out *)

(** What the fan-out makes of one live subscriber. *)
Definition fanout_sub (s : stream) (now_ov : nat -> string) (e : envelope) (i : nat)
    (sub : subscriber) : subscriber :=
  if sub_closed sub then sub
  else match deliver sub e with
       | Some sub' => sub'
       | None => evict_subscriber sub (overrun_envelope s sub (now_ov i))
       end.

Definition survives (s : stream) (e : envelope) (i : nat) : Prop :=
  forall sub, heap s !! i = Some sub -> sub_closed sub = false -> deliver sub e <> None.

Lemma fanout_one_log now_ov e s i : same_log s (fanout_one now_ov e s i).
Proof.
  unfold fanout_one. destruct (heap s !! i) as [sub|]; [|done].
  destruct (sub_closed sub); [done|]. destruct (deliver sub e); [done|]. apply evict_slow_log.
Qed.

Lemma fanout_one_inv h now_ov e s i :
  stream_inv h s -> stream_inv h (fanout_one now_ov e s i).
Proof.
  intros Hs. unfold fanout_one. destruct (heap s !! i) as [sub|] eqn:Hi; [|done].
  destruct (sub_closed sub) eqn:Hc; [done|].
  destruct (inv_heap _ _ Hs _ _ Hi) as [Hok Hlt].
  destruct (deliver sub e) as [sub'|] eqn:Hd.
  - apply with_sub_inv; try done; [by eapply deliver_ok|].
    intros _. apply deliver_items in Hd as (_ & -> & _). done.
  - apply evict_slow_inv; [done..|]. by apply deliver_None in Hd.
Qed.

Lemma fanout_one_heap now_ov e s i :
  heap (fanout_one now_ov e s i) !! i = fanout_sub s now_ov e i <$> heap s !! i.
Proof.
  unfold fanout_one, fanout_sub. destruct (heap s !! i) as [sub|] eqn:Hi; cbn; [|done].
  destruct (sub_closed sub); [done|]. destruct (deliver sub e); cbn.
  - by rewrite lookup_insert_eq.
  - by rewrite evict_slow_heap, lookup_insert_eq.
Qed.

Lemma fanout_one_heap_ne now_ov e s i j :
  i <> j -> heap (fanout_one now_ov e s i) !! j = heap s !! j.
Proof.
  intros Hne. unfold fanout_one. destruct (heap s !! i) as [sub|]; [|done].
  destruct (sub_closed sub); [done|]. destruct (deliver sub e); cbn.
  - by rewrite lookup_insert_ne.
  - by rewrite evict_slow_heap, lookup_insert_ne.
Qed.

Lemma fanout_one_set now_ov e s i j :
  j ∈ subscribers (fanout_one now_ov e s i) <->
  j ∈ subscribers s /\ (i = j -> survives s e j).
Proof.
  unfold fanout_one, survives. destruct (heap s !! i) as [sub|] eqn:Hi.
  2:{ split; [|by intros [? _]]. intros ?. split; [done|]. intros <- ? Hj. congruence. }
  destruct (sub_closed sub) eqn:Hc.
  { split; [|by intros [? _]]. intros ?. split; [done|]. intros <- ? Hj. congruence. }
  destruct (deliver sub e) eqn:Hd; cbn.
  - split; [|by intros [? _]]. intros Hj. split; [done|]. intros <- sub' Hsub. congruence.
  - rewrite evict_slow_set, elem_of_difference, elem_of_singleton. split.
    + intros [? Hne]. split; [done|]. by intros ->.
    + intros [? Hs]. split; [done|]. intros ->. by apply (Hs eq_refl sub).
Qed.

Lemma fanout_list_inv h now_ov e l s :
  stream_inv h s -> stream_inv h (foldl (fanout_one now_ov e) s l).
Proof. revert s. induction l as [|i l IH]; intros s Hs; [done|]. apply IH, fanout_one_inv, Hs. Qed.

Lemma fanout_list_log now_ov e l s : same_log s (foldl (fanout_one now_ov e) s l).
Proof.
  revert s. induction l as [|i l IH]; intros s; [done|]. cbn.
  by etransitivity; [apply fanout_one_log|].
Qed.

(** Every order of the subscribers gives the same heap and the same set. *)
Lemma fanout_list_spec now_ov e l s i :
  NoDup l ->
  heap (foldl (fanout_one now_ov e) s l) !! i =
    (if decide (i ∈ l) then fanout_sub s now_ov e i <$> heap s !! i else heap s !! i) /\
  (i ∈ subscribers (foldl (fanout_one now_ov e) s l) <->
   i ∈ subscribers s /\ (i ∈ l -> survives s e i)).
Proof.
  revert s. induction l as [|j l IH]; intros s Hl.
  - cbn. rewrite decide_False by set_solver. set_solver.
  - apply NoDup_cons in Hl as [Hj Hl]. destruct (IH (fanout_one now_ov e s j) Hl) as [IH1 IH2].
    cbn. rewrite IH1, IH2. clear IH IH1 IH2. destruct (decide (j = i)) as [->|Hne].
    + rewrite decide_False, decide_True, fanout_one_heap, fanout_one_set by set_solver.
      split; [done|]. set_solver.
    + assert (Hs : forall o, fanout_sub (fanout_one now_ov e s j) now_ov e i o
                              = fanout_sub s now_ov e i o).
      { intros o. unfold fanout_sub, overrun_envelope.
        destruct (fanout_one_log now_ov e s j) as (-> & _ & _ & -> & _). done. }
      rewrite fanout_one_heap_ne, fanout_one_set by done. unfold survives.
      rewrite fanout_one_heap_ne by done. split.
      * destruct (decide (i ∈ l)); [rewrite decide_True by set_solver|rewrite decide_False by set_solver; done].
        by destruct (heap s !! i); cbn; rewrite ?Hs.
      * set_solver.
Qed.

Lemma fanout_spec now_ov e s i :
  heap (fanout now_ov s e) !! i =
    (if decide (i ∈ subscribers s) then fanout_sub s now_ov e i <$> heap s !! i else heap s !! i) /\
  (i ∈ subscribers (fanout now_ov s e) <-> i ∈ subscribers s /\ survives s e i).
Proof.
  unfold fanout. destruct (fanout_list_spec now_ov e (elements (subscribers s)) s i) as [H1 H2];
    [apply NoDup_elements|].
  rewrite H1, H2. split; [|set_solver].
  repeat case_decide; set_solver.
Qed.

Lemma fanout_log now_ov e s : same_log s (fanout now_ov s e).
Proof. apply fanout_list_log. Qed.

(** ** Preservation *)

Lemma ring_append_inv h s e n :
  stream_inv h s -> env_num e n -> next_id s = n ->
  ids_upto (h ++ [e]) n -> stream_inv (h ++ [e]) (ring_append s e).
Proof.
  intros [Hq Hr Hring Hids Hs Hh] He <- Hn. split; cbn; try done.
  rewrite Hring. apply deque_append_log. lia.
Qed.

Lemma with_next_id_inv h s n : stream_inv h s -> ids_upto h n -> stream_inv h (with_next_id s n).
Proof. intros [] ?. by split. Qed.

(** The three outcomes of a publish. *)
Section Publish.
Context `{Validator}.

Lemma publish_cases s t p a v now now_ov :
  let e := mk_envelope t v (py_str_int (next_id s + 1)) now a p in
  let s1 := with_next_id s (next_id s + 1) in
  let out := publish s t p a v now now_ov in
  (exists x, validate (to_dict e) = Raise x /\ out = (Raise x, s1)) \/
  (exists err, validate (to_dict e) = Ok (Some err) /\
     out = (Ok None, with_next_id (bump_dropped (bump_validation_errors s t) "validation")
                       (next_id s))) \/
  (validate (to_dict e) = Ok None /\
     out = (Ok (Some e), bump_published (fanout now_ov (ring_append s1 e) e) t)).
Proof.
  intros e s1 out. unfold out, publish, assign_id. fold s1 e.
  destruct (validate (to_dict e)) as [[err|]|x] eqn:Hv; [right; left|right; right|left].
  - exists err. split; [done|]. unfold rollback_id. cbn.
    rewrite Z.eqb_refl. by rewrite Z.add_simpl_r.
  - done.
  - eauto.
Qed.

Lemma publish_inv h s t p a v now now_ov :
  stream_inv h s ->
  stream_inv (h ++ (exec s (Publish t p a v now now_ov)).2) ((exec s (Publish t p a v now now_ov)).1).
Proof.
  intros Hs. pose proof (publish_cases s t p a v now now_ov) as Hp. cbn [exec].
  set (e := mk_envelope t v (py_str_int (next_id s + 1)) now a p) in *.
  assert (Hs1 : stream_inv h (with_next_id s (next_id s + 1))).
  { apply with_next_id_inv; [done|]. eapply ids_weaken; [apply (inv_ids _ _ Hs)|lia]. }
  destruct Hp as [(x & _ & ->)|[(err & _ & ->)|(_ & ->)]]; cbn [fst snd].
  - by rewrite app_nil_r.
  - rewrite app_nil_r. apply (with_next_id_inv h); [|apply (inv_ids _ _ Hs)].
    by do 2 apply metrics_inv.
  - apply metrics_inv, fanout_list_inv. eapply ring_append_inv; [done|done|done|].
    eapply ids_snoc; [apply (inv_ids _ _ Hs)|done|lia].
Qed.
End Publish.

Lemma iter_next_closed sub : sub_closed (iter_next sub).2 = sub_closed sub.
Proof.
  unfold iter_next, iter_get. destruct sub as [[m [|[]]] c []], c; done.
Qed.

Lemma anext_inv h s i : stream_inv h s -> stream_inv h (anext s i).2.
Proof.
  intros Hs. unfold anext. destruct (heap s !! i) as [sub|] eqn:Hi; [|done].
  destruct (inv_heap _ _ Hs _ _ Hi) as [Hok Hlt].
  assert (Hw : stream_inv h (with_sub s i (iter_next sub).2)).
  { apply with_sub_inv; [done|by apply iter_next_ok|done|].
    intros Hin. rewrite iter_next_closed. destruct (inv_subs _ _ Hs _ Hin) as (? & ? & ?).
    by simplify_eq. }
  destruct (iter_next sub) as [r sub']. cbn in *. case_bool_decide; [|done].
  by apply remove_subscriber_inv.
Qed.

Lemma iter_abort_ok n sub : sub_ok n sub -> sub_ok n (iter_abort sub).2.
Proof. intros []. split; cbn; auto. Qed.

Lemma aclose_inv h s i : stream_inv h s -> stream_inv h (aclose s i).
Proof.
  intros Hs. unfold aclose. destruct (heap s !! i) as [sub|] eqn:Hi; [|done].
  destruct (inv_heap _ _ Hs _ _ Hi) as [Hok Hlt].
  assert (Hw : stream_inv h (with_sub s i (iter_abort sub).2)).
  { apply with_sub_inv; [done|by apply iter_abort_ok|done|].
    intros Hin. destruct (inv_subs _ _ Hs _ Hin) as (? & ? & ?). by simplify_eq. }
  destruct (iter_abort sub) as [u sub']. cbn in *. destruct u; [|done].
  by apply remove_subscriber_inv.
Qed.

Lemma subscribe_inv h s : stream_inv h s -> stream_inv h (subscribe s).2.
Proof.
  intros [Hq Hr Hring Hids Hs Hh]. split; cbn; try done.
  - intros i Hi. destruct (decide (alloc s = i)) as [->|Hne].
    + rewrite lookup_insert_eq. by eexists.
    + rewrite lookup_insert_ne by done. apply Hs. set_solver.
  - intros j sub' [[<- <-]|[Hne Hj]]%lookup_insert_Some.
    + split; [apply new_subscriber_ok|lia].
    + apply Hh in Hj as [? ?]. split; [done|lia].
Qed.

#[export] Hint Resolve anext_inv aclose_inv subscribe_inv metrics_inv new_stream_inv : queues.

Lemma exec_inv `{Validator} h s o : stream_inv h s -> stream_inv (h ++ (exec s o).2) (exec s o).1.
Proof.
  intros Hs. destruct o; [by apply publish_inv|..]; cbn [exec fst snd]; rewrite app_nil_r;
    unfold attach_metrics; auto with queues.
Qed.

Lemma run_inv `{Validator} h s ops : stream_inv h s -> stream_inv (h ++ (run s ops).2) (run s ops).1.
Proof.
  revert h s. induction ops as [|o ops IH]; intros h s Hs; cbn; [by rewrite app_nil_r|].
  pose proof (exec_inv h s o Hs) as Ho. destruct (exec s o) as [s' h']. cbn in *.
  pose proof (IH _ _ Ho) as Hr. destruct (run s' ops) as [s'' h'']. cbn in *.
  by rewrite app_assoc.
Qed.

Lemma reachable_inv `{Validator} q r ops :
  stream_inv (run (new_stream q r) ops).2 (run (new_stream q r) ops).1.
Proof. apply (run_inv [] (new_stream q r) ops), new_stream_inv. Qed.

(** ** Properties *)

(** Whatever sequence of publishes, subscriptions, iterator steps and
    closings runs on a new stream, the state is sound: the ring is the last
    [ring_max] entries of the history of published envelopes, whose ids are
    increasing and at most [next_id]; every subscriber's queue keeps its
    capacity and its bound; the subscribers in the set are open; and a closed
    subscriber always has something left that ends its iteration. *)
Theorem run_keeps_invariant `{Validator} q r ops :
  let '(s, h) := run (new_stream q r) ops in
  ring s = lastn (Z.to_nat (ring_max s)) h /\
  NoDup (e_id <$> h) /\ ids_upto h (next_id s) /\
  (forall i sub, heap s !! i = Some sub -> sub_ok (queue_max s) sub) /\
  (forall i, i ∈ subscribers s -> exists sub, heap s !! i = Some sub /\ sub_closed sub = false).
Proof.
  pose proof (reachable_inv q r ops) as Hi. destruct (run (new_stream q r) ops) as [s h].
  cbn in Hi. destruct Hi as [_ _ Hring Hids Hs Hh]. split_and!; try done.
  - by eapply ids_upto_NoDup.
  - intros i sub Hi. by destruct (Hh _ _ Hi).
Qed.

(** Resuming with [Last-Event-ID]. If at most [ring_max] envelopes were
    published after [e], then [replay_from] of the id of [e] returns exactly
    those, in publish order: nothing is lost and nothing repeated. *)
Theorem replay_from_resumes `{Validator} q r ops h1 e h2 :
  (run (new_stream q r) ops).2 = h1 ++ e :: h2 ->
  (length h2 <= Z.to_nat (ring_max (run (new_stream q r) ops).1))%nat ->
  replay_from (run (new_stream q r) ops).1 (Some (e_id e)) = h2.
Proof.
  intros Hh Hlen. destruct (reachable_inv q r ops) as [_ _ Hring Hids _ _].
  unfold replay_from. rewrite Hring, Hh. rewrite Hh in Hids. by eapply replay_resumes.
Qed.

(** Isolation of the fan-out. On a reachable stream a valid publish gives
    the envelope to every open subscriber in the set whose queue has room;
    one whose queue is full is closed, loses its oldest item and ends with an
    overrun envelope, and leaves the set; no other subscriber is touched. The
    result does not depend on the order in which the set is traversed. *)
Theorem publish_delivers `{Validator} q r ops s h t p a v now now_ov e s' i sub :
  run (new_stream q r) ops = (s, h) ->
  publish s t p a v now now_ov = (Ok (Some e), s') ->
  heap s !! i = Some sub ->
    (i ∈ subscribers s -> q_full (sub_queue sub) = true ->
       exists sub' ov, heap s' !! i = Some sub' /\ (i ∉ subscribers s') /\ sub_closed sub' = true /\
         q_items (sub_queue sub') = tail (q_items (sub_queue sub)) ++ [IEnv ov] /\
         e_type ov = "stream.overrun") /\
    (i ∈ subscribers s -> q_full (sub_queue sub) = false ->
       exists sub', heap s' !! i = Some sub' /\ i ∈ subscribers s' /\ sub_closed sub' = false /\
         q_items (sub_queue sub') = q_items (sub_queue sub) ++ [IEnv e]) /\
    (i ∉ subscribers s -> heap s' !! i = Some sub /\ i ∉ subscribers s').
Proof.
  intros Hrun Hpub Hi. pose proof (reachable_inv q r ops) as Hinv. rewrite Hrun in Hinv. cbn in Hinv.
  destruct (publish_cases s t p a v now now_ov) as [(? & _ & Hp)|[(? & _ & Hp)|(_ & Hp)]];
    rewrite Hpub in Hp; [discriminate Hp..|]. injection Hp as -> ->.
  cbn [bump_published with_metrics heap subscribers]. set (e := mk_envelope _ _ _ _ _ _).
  set (base := ring_append (with_next_id s (next_id s + 1)) e).
  destruct (fanout_spec now_ov e base i) as [-> H2].
  change (heap base) with (heap s). change (subscribers base) with (subscribers s) in *.
  unfold survives in H2. change (heap base) with (heap s) in H2.
  rewrite Hi, H2. split_and!; intros Hin; [intros Hf|intros Hf|].
  3:{ rewrite decide_False by done. split; [done|]. by intros [??]. }
  all: destruct (inv_subs _ _ Hinv _ Hin) as (sub0 & Hsub0 & Hopen); rewrite Hi in Hsub0;
    injection Hsub0 as <-; rewrite decide_True by done; cbn [fmap option_fmap option_map];
    unfold fanout_sub; rewrite Hopen; destruct (inv_heap _ _ Hinv _ _ Hi) as [Hok _].
  - rewrite (proj2 (deliver_None sub e) Hf). eexists _, _.
    split_and!; [done| |done|by eapply evict_full_items|done].
    rewrite H2. intros [_ Hs]. eapply Hs; [done..|]. by apply deliver_None.
  - destruct (deliver sub e) as [sub'|] eqn:Hd; [|apply deliver_None in Hd; congruence].
    destruct (deliver_items _ _ _ Hd) as (? & ? & ?).
    exists sub'. split_and!; try done; [|congruence]. rewrite H2. split; [done|].
    intros sub2 Hsub2. rewrite Hi in Hsub2. injection Hsub2 as <-. by rewrite Hd.
Qed.

(** A publish on any state has one of three outcomes. A valid envelope is
    broadcast under the next id and is the only change to the history. An
    invalid one changes nothing but the metrics: its id is given back, so the
    ids stay contiguous. A validator that raises makes [publish] raise
    [TypeError], which the code says it never does, and the id is lost. *)
Theorem publish_outcomes `{Validator} s t p a v now now_ov :
  let e := mk_envelope t v (py_str_int (next_id s + 1)) now a p in
  let '(r, s') := publish s t p a v now now_ov in
  match r with
  | Ok (Some e') => e' = e /\ validate (to_dict e) = Ok None /\ t ∈ known_types /\
      next_id s' = next_id s + 1 /\ ring s' = lastn (Z.to_nat (ring_max s)) (ring s ++ [e])
  | Ok None => (exists err, validate (to_dict e) = Ok (Some err)) /\
      exists m, s' = with_metrics s m
  | Raise x => x = TypeError /\ s' = with_next_id s (next_id s + 1)
  end.
Proof.
  intros e. destruct (publish_cases s t p a v now now_ov) as [(x & Hx & ->)|[(err & Herr & ->)|(Hok & ->)]].
  - split; [by eapply validate_raises|done].
  - split; [eauto|]. eexists. by destruct s.
  - pose proof (fanout_log now_ov e (ring_append (with_next_id s (next_id s + 1)) e))
      as (_ & _ & Hr & Hn & _).
    split_and!; [done..|by apply (validate_known e)|exact Hn|exact Hr].
Qed.

(** An evicted subscriber is told so and its iterator terminates. On a
    reachable stream, when a valid publish finds the queue of an open
    subscriber full, the iterator of that subscriber, which is not finished,
    then yields what was queued except the oldest item, then an overrun
    envelope, and stops: it never waits again, and needs at most one call
    more than the queue is long. *)
Theorem evicted_subscriber_drains `{Validator} q r ops s h t p a v now now_ov e s' i sub es :
  run (new_stream q r) ops = (s, h) ->
  publish s t p a v now now_ov = (Ok (Some e), s') ->
  i ∈ subscribers s -> heap s !! i = Some sub -> sub_pc sub <> Finished ->
  q_items (sub_queue sub) = IEnv <$> es -> q_full (sub_queue sub) = true ->
  exists sub' sub'' ov, heap s' !! i = Some sub' /\ e_type ov = "stream.overrun" /\
    run_iter (S (length es)) sub' = (tail es ++ [ov], Stops, sub'') /\ sub_pc sub'' = Finished.
Proof.
  intros Hrun0 Hpub Hin Hi Hpc Hes Hf. pose proof (reachable_inv q r ops) as Hinv.
  rewrite Hrun0 in Hinv. cbn in Hinv.
  destruct (inv_subs _ _ Hinv _ Hin) as (sub0 & Hsub0 & Hopen).
  rewrite Hi in Hsub0. injection Hsub0 as <-.
  destruct (inv_heap _ _ Hinv _ _ Hi) as [Hok _].
  destruct (publish_cases s t p a v now now_ov) as [(? & _ & Hp)|[(? & _ & Hp)|(_ & Hp)]];
    rewrite Hpub in Hp; [discriminate Hp..|]. injection Hp as -> ->.
  cbn [bump_published with_metrics heap]. set (e := mk_envelope _ _ _ _ _ _).
  set (base := ring_append (with_next_id s (next_id s + 1)) e).
  destruct (fanout_spec now_ov e base i) as [-> _].
  change (heap base) with (heap s). change (subscribers base) with (subscribers s).
  rewrite decide_True, Hi by done. cbn [fmap option_fmap option_map]. unfold fanout_sub.
  rewrite Hopen, (proj2 (deliver_None sub e) Hf). set (ov := overrun_envelope _ _ _).
  pose proof (evict_full_items _ _ ov Hok Hf) as Hitems. rewrite Hes in Hitems.
  assert (Hlen : (0 < length es)%nat).
  { apply q_full_true in Hf as [??]. unfold qsize in *. rewrite Hes, length_fmap in *. lia. }
  destruct (run_iter_closed (evict_subscriber sub ov) (S (length es))) as (sub'' & Hrun & ?);
    [done| |done| |].
  - rewrite Hitems. by destruct (tail _).
  - rewrite Hitems, length_app. destruct es; cbn in *; [lia|]. rewrite length_fmap. lia.
  - exists (evict_subscriber sub ov), sub'', ov. split_and!; [done..| |done].
    rewrite Hrun, Hitems. do 2 f_equal. destruct es as [|e0 es]; [cbn in Hlen; lia|].
    cbn. clear. induction es as [|e1 es IH]; cbn; congruence.
Qed.

(** ** The SSE endpoint (events_stream_handler in harness/main.py)

    The handler subscribes, takes the replay of what was published up to
    that point and remembers the replayed ids; the frames of the live
    iterator follow, those with a remembered id skipped. *)
Definition sse_open (s : stream) (last_id : option string) :
    list envelope * gset string * nat * stream :=
  let replay_snapshot_id := next_id s in
  let '(i, s') := subscribe s in
  let frames := filter (fun e => match py_int (e_id e) with
                                 | Some n => n <=? replay_snapshot_id
                                 | None => true
                                 end = true) (replay_from s' last_id) in
  (frames, list_to_set (e_id <$> frames), i, s').

Fixpoint sse_live (delivered_ids : gset string) (es : list envelope) : list envelope :=
  match es with
  | [] => []
  | e :: es' =>
      if decide (e_id e ∈ delivered_ids) then sse_live (delivered_ids ∖ {[e_id e]}) es'
      else e :: sse_live delivered_ids es'
  end.

(** The iterator of subscriber [i] is only driven by its own connection. *)
Definition drives (i : nat) (o : op) : Prop :=
  match o with Next j | Close j => i = j | _ => False end.

(** Subscriber [i] is open and has [es] queued. *)
Definition holds (s : stream) (i : nat) (es : list envelope) : Prop :=
  i ∈ subscribers s /\
  exists sub, heap s !! i = Some sub /\ sub_closed sub = false /\ sub_pc sub = Fresh /\
              q_items (sub_queue sub) = IEnv <$> es.

Lemma remove_subscriber_holds s i j es : i <> j -> holds s i es -> holds (remove_subscriber s j) i es.
Proof.
  intros Hne [Hin Hs]. split; [rewrite remove_subscriber_set; set_solver|].
  by rewrite remove_subscriber_heap.
Qed.

Lemma with_sub_holds s i j es sub : i <> j -> holds s i es -> holds (with_sub s j sub) i es.
Proof. intros Hne [Hin Hs]. split; [done|]. cbn. by rewrite lookup_insert_ne. Qed.

Lemma fanout_holds h now_ov s i es e :
  stream_inv h s -> holds s i es -> Z.of_nat (length es) < queue_max s ->
  holds (fanout now_ov s e) i (es ++ [e]).
Proof.
  intros Hs [Hin (sub & Hi & Hc & Hpc & Hes)] Hlen.
  destruct (fanout_spec now_ov e s i) as [H1 H2].
  destruct (deliver sub e) as [sub'|] eqn:Hd.
  - destruct (deliver_items _ _ _ Hd) as (Hq & Hc' & Hpc'). split.
    + rewrite H2. split; [done|]. intros ? Hj. rewrite Hi in Hj. injection Hj as <-. by rewrite Hd.
    + exists sub'. rewrite H1, decide_True, Hi by done. cbn. unfold fanout_sub.
      rewrite Hc, Hd, Hq, Hes, fmap_app. split_and!; congruence || done.
  - apply deliver_None, q_full_true in Hd as [? Hd]. destruct (inv_heap _ _ Hs _ _ Hi) as [[] _].
    unfold qsize in Hd. rewrite Hes, length_fmap in Hd. lia.
Qed.

Lemma exec_holds `{Validator} h s i es o :
  stream_inv h s -> holds s i es -> ~ drives i o ->
  Z.of_nat (length (es ++ (exec s o).2)) <= queue_max s ->
  holds (exec s o).1 i (es ++ (exec s o).2).
Proof.
  intros Hs Hh Hd Hlen. destruct o as [t p a v now now_ov| |j|j|m]; cbn in Hd.
  - pose proof (publish_cases s t p a v now now_ov) as Hp. cbn [exec] in *.
    set (e := mk_envelope t v _ now a p) in *.
    destruct Hp as [(x & _ & ->)|[(err & _ & ->)|(_ & Hp)]]; cbn [fst snd] in *.
    1-2: by rewrite app_nil_r.
    rewrite Hp in *. cbn [fst snd] in *. rewrite length_app in Hlen. cbn in Hlen.
    eapply (fanout_holds (h ++ [e])); [|done|cbn; lia].
    eapply ring_append_inv; [|done|done|].
    + apply with_next_id_inv; [done|]. eapply ids_weaken; [apply (inv_ids _ _ Hs)|lia].
    + eapply ids_snoc; [apply (inv_ids _ _ Hs)|done|lia].
  - cbn. rewrite app_nil_r. destruct Hh as [Hin (sub & Hi & ?)].
    destruct (inv_heap _ _ Hs _ _ Hi) as [_ ?]. split; cbn; [set_solver|].
    exists sub. rewrite lookup_insert_ne by lia. done.
  - cbn. rewrite app_nil_r. unfold anext. destruct (heap s !! j) as [sub|]; [|done].
    destruct (iter_next sub) as [r sub']. cbn.
    case_bool_decide; eauto using remove_subscriber_holds, with_sub_holds.
  - cbn. rewrite app_nil_r. unfold aclose. destruct (heap s !! j) as [sub|]; [|done].
    destruct (iter_abort sub) as [[] sub']; eauto using remove_subscriber_holds, with_sub_holds.
  - cbn. by rewrite app_nil_r.
Qed.

Lemma exec_queue_max `{Validator} s o : queue_max (exec s o).1 = queue_max s.
Proof.
  destruct o as [t p a v now now_ov| |j|j|m]; cbn [exec fst snd]; [|done| | |done].
  - destruct (publish_cases s t p a v now now_ov) as [(? & _ & ->)|[(? & _ & ->)|(_ & ->)]]; [done..|].
    cbn [fst snd bump_published with_metrics queue_max]. match goal with |- queue_max (fanout ?n ?x ?e) = _ => by destruct (fanout_log n e x) end.
  - unfold anext. destruct (heap s !! j) as [sub|]; [|done].
    destruct (iter_next sub) as [r sub']. cbn [snd]. case_bool_decide; [|done].
    by destruct (remove_subscriber_log (with_sub s j sub') j).
  - unfold aclose. destruct (heap s !! j) as [sub|]; [|done].
    destruct (iter_abort sub) as [[] sub']; [|done].
    by destruct (remove_subscriber_log (with_sub s j sub') j).
Qed.

Lemma run_holds `{Validator} h s i es ops :
  stream_inv h s -> holds s i es -> Forall (fun o => ~ drives i o) ops ->
  Z.of_nat (length (es ++ (run s ops).2)) <= queue_max s ->
  holds (run s ops).1 i (es ++ (run s ops).2).
Proof.
  revert h s es. induction ops as [|o ops IH]; intros h s es Hs Hh Hd Hlen; cbn in *.
  - by rewrite app_nil_r.
  - apply Forall_cons in Hd as [Ho Hd].
    pose proof (exec_inv h s o Hs) as Hs'. pose proof (exec_queue_max s o) as Hq.
    pose proof (exec_holds h s i es o Hs Hh Ho) as Hh'.
    destruct (exec s o) as [s1 h1]. cbn [fst snd] in *.
    pose proof (IH (h ++ h1) s1 (es ++ h1) Hs') as IH'.
    destruct (run s1 ops) as [s2 h2]. cbn [fst snd] in *.
    rewrite <-app_assoc, Hq in IH'. apply IH'; [|done|done].
    apply Hh'. rewrite !length_app in *. lia.
Qed.

Lemma sse_live_fresh delivered es :
  Forall (fun e => e_id e ∉ delivered) es -> sse_live delivered es = es.
Proof. induction 1 as [|e es He _ IH]; cbn; [done|]. rewrite decide_False by done. by rewrite IH. Qed.

Lemma subscribe_holds h s : stream_inv h s -> holds (subscribe s).2 (subscribe s).1 [].
Proof.
  intros Hs. split; cbn; [set_solver|]. exists (new_subscriber (queue_max s)).
  by rewrite lookup_insert_eq.
Qed.

(** Everything in the ring was published before the connection opened. *)
Lemma sse_open_frames h s last_id :
  stream_inv h s -> (sse_open s last_id).1.1.1 = replay_from s last_id.
Proof.
  intros Hs. cbn. apply filter_all, Forall_forall. intros e He.
  assert (He' : e ∈ h).
  { apply (elem_of_lastn (Z.to_nat (ring_max s))). rewrite <-(inv_ring _ _ Hs).
    unfold replay_from, replay in He. cbn in He. destruct last_id as [l|]; [|done].
    case_decide; [done|]. destruct (py_int l); [|done]. by apply list_elem_of_filter in He as [_ ?]. }
  destruct (ids_upto_bound _ _ _ (inv_ids _ _ Hs) He') as (k & -> & ?).
  rewrite py_int_str. apply Z.leb_le. lia.
Qed.

Lemma sse_open_spec s last_id :
  (sse_open s last_id).1.1.2 = list_to_set (e_id <$> (sse_open s last_id).1.1.1) /\
  subscribe s = ((sse_open s last_id).1.2, (sse_open s last_id).2) /\
  queue_max (sse_open s last_id).2 = queue_max s.
Proof. done. Qed.

(** C2: the splice of replay and live frames loses and repeats nothing. A
    client reconnects with the id of [e], after which at most [ring_max]
    envelopes were published; then any operations run that are not its own
    iterator's steps, publishing at most [queue_max] envelopes. The replay
    frames followed by the live frames are exactly the envelopes published
    after [e], in order, and the connection then waits for more. *)
Theorem sse_splice_complete `{Validator} q r ops ops' s h1 e h2 frames delivered i s1 s2 h3 :
  run (new_stream q r) ops = (s, h1 ++ e :: h2) ->
  sse_open s (Some (e_id e)) = (frames, delivered, i, s1) ->
  run s1 ops' = (s2, h3) ->
  (length h2 <= Z.to_nat (ring_max s))%nat ->
  Forall (fun o => ~ drives i o) ops' -> Z.of_nat (length h3) <= queue_max s ->
  exists sub live sub', heap s2 !! i = Some sub /\
    run_iter (S (length h3)) sub = (live, Blocked, sub') /\
    frames ++ sse_live delivered live = h2 ++ h3.
Proof.
  intros Hrun0 Hopen Hrun1 Hlen Hd Hq. pose proof (reachable_inv q r ops) as Hs.
  rewrite Hrun0 in Hs. cbn in Hs.
  pose proof (sse_open_frames _ _ (Some (e_id e)) Hs) as Hframes.
  pose proof (subscribe_inv _ _ Hs) as Hs1. pose proof (subscribe_holds _ _ Hs) as Hh.
  destruct (sse_open_spec s (Some (e_id e))) as (Hdel & Hsub & Hqm).
  rewrite Hopen in Hframes, Hdel, Hsub, Hqm. cbn [fst snd] in *. rewrite Hsub in Hs1, Hh.
  cbn [fst snd] in *. subst frames.
  pose proof (run_inv _ s1 ops' Hs1) as Hs2.
  pose proof (run_holds _ s1 i [] ops' Hs1 Hh) as Hr. rewrite Hrun1 in Hr, Hs2.
  cbn [fst snd app] in *.
  destruct Hr as [_ (sub & Hi & Hc & Hpc & Hes)]; [done|by rewrite Hqm|].
  destruct (run_iter_open sub (S (length h3)) h3) as (sub' & Hrun & _);
    [done|by rewrite Hpc|done|lia|].
  exists sub, h3, sub'. split_and!; [done..|].
  assert (replay_from s (Some (e_id e)) = h2) as Hf.
  { unfold replay_from. rewrite (inv_ring _ _ Hs).
    eapply replay_resumes; [apply (inv_ids _ _ Hs)|done]. }
  rewrite Hf in Hdel |- *. f_equal. apply sse_live_fresh. rewrite Hdel.
  apply Forall_forall.
  intros e' He' Hin. pose proof (ids_upto_NoDup _ _ (inv_ids _ _ Hs2)) as Hnd.
  rewrite fmap_app in Hnd. apply NoDup_app in Hnd as (_ & Hnd & _).
  apply elem_of_list_to_set in Hin. apply (Hnd (e_id e')).
  - rewrite fmap_app, fmap_cons. set_solver.
  - apply list_elem_of_fmap. eauto.
Qed.

(** ** Publishing from several threads

    The id lock makes the two critical sections of [publish] atomic; between
    them the validation of one thread interleaves with the other threads'.
    [pending] holds the ids assigned but not yet decided, by thread. *)
Record publishers : Type := mk_publishers {
  p_stream : stream;
  p_pending : list (nat * Z);
  p_issued : list Z
}.

Inductive thread_step : publishers -> publishers -> Prop :=
| thread_assigns t st pending issued :
    thread_step (mk_publishers st pending issued)
      (mk_publishers (assign_id st).2 (pending ++ [(t, (assign_id st).1)]) issued)
| thread_broadcasts t n st l1 l2 issued :
    thread_step (mk_publishers st (l1 ++ (t, n) :: l2) issued)
      (mk_publishers st (l1 ++ l2) (issued ++ [n]))
| thread_rejects t n st l1 l2 issued :
    thread_step (mk_publishers st (l1 ++ (t, n) :: l2) issued)
      (mk_publishers (rollback_id st n) (l1 ++ l2) issued)
| thread_raises t n st l1 l2 issued :
    thread_step (mk_publishers st (l1 ++ (t, n) :: l2) issued)
      (mk_publishers st (l1 ++ l2) issued).

Definition ids_unique (p : publishers) : Prop :=
  NoDup ((p_pending p).*2 ++ p_issued p) /\
  Forall (fun n => n <= next_id (p_stream p)) ((p_pending p).*2 ++ p_issued p).

Lemma ids_unique_drop st t n l1 l2 issued :
  ids_unique (mk_publishers st (l1 ++ (t, n) :: l2) issued) ->
  NoDup (n :: (l1 ++ l2).*2 ++ issued) /\
  Forall (fun m => m <= next_id st) (n :: (l1 ++ l2).*2 ++ issued).
Proof.
  unfold ids_unique. cbn. rewrite !fmap_app, fmap_cons. cbn.
  rewrite <-!app_assoc. cbn. by rewrite <-Permutation_middle.
Qed.

Lemma thread_step_unique p p' : thread_step p p' -> ids_unique p -> ids_unique p'.
Proof.
  destruct 1 as [t st pending issued|t n st l1 l2 issued|t n st l1 l2 issued|t n st l1 l2 issued].
  - intros [Hnd Hle]. unfold ids_unique. cbn in *.
    rewrite fmap_app, <-app_assoc. cbn. rewrite <-Permutation_middle. split.
    + constructor; [|done]. intros Hin. rewrite Forall_forall in Hle.
      specialize (Hle _ Hin). lia.
    + constructor; [lia|]. eapply Forall_impl; [exact Hle|]. cbn. lia.
  - intros H%ids_unique_drop. unfold ids_unique. cbn. rewrite app_assoc.
    by rewrite (Permutation_app_comm _ [n]).
  - intros [[Hn Hnd]%NoDup_cons [Hle Hall]%Forall_cons]%ids_unique_drop.
    split; [done|]. unfold rollback_id. cbn in *.
    destruct (Z.eqb_spec (next_id st) n) as [He|Hne]; [|done]. cbn.
    apply Forall_forall. intros m Hm. rewrite Forall_forall in Hall. specialize (Hall _ Hm).
    assert (m <> n) by (by intros ->). lia.
  - intros [[Hn Hnd]%NoDup_cons [Hle Hall]%Forall_cons]%ids_unique_drop. by split.
Qed.

(** With any number of threads publishing at once, whatever the order in
    which they take the id lock and finish validating, no id is broadcast
    twice: the conditional roll-back never gives back an id below which, or
    at which, another publisher stands. *)
Theorem concurrent_ids_unique st p :
  rtc thread_step (mk_publishers st [] []) p -> NoDup (p_issued p).
Proof.
  intros H. enough (ids_unique p) as [Hnd _] by by apply NoDup_app in Hnd as (_ & _ & ?).
  assert (ids_unique (mk_publishers st [] [])) as H0 by (split; constructor).
  revert H0. induction H as [x|x y z Hxy _ IH]; eauto using thread_step_unique.
Qed.

(** ** The publish endpoint's kernel ([parse_and_publish_envelope]) *)

Definition MAX_EVENT_PUBLISH_FIELD_BYTES : Z := 4096.

Definition cap_value (v : pyval) : pyval :=
  match v with
  | VStr s =>
      if MAX_EVENT_PUBLISH_FIELD_BYTES <? str_len s
      then VStr (str_take (Z.to_nat MAX_EVENT_PUBLISH_FIELD_BYTES) s +:+ "...[truncated]")
      else v
  | _ => v
  end.

(** The copying loop: [None] on a key that is not a string. *)
Fixpoint cap_payload (payload : pydict) : option pydict :=
  match payload with
  | [] => Some []
  | (VStr k, v) :: payload' => cons (VStr k, cap_value v) <$> cap_payload payload'
  | _ :: _ => None
  end.

Section ParseAndPublish.
Context `{Validator}.
(** [bytes.decode] and [json.loads]: [None] is the exception that the
    function catches. *)
Variable utf8_decode : list Byte.byte -> option string.
Variable json_loads : string -> option pyval.

(** The rejection counter, by reason. *)
Definition counter : Type := option (gmap string Z).

Definition parse_and_publish_envelope (body_bytes : list Byte.byte) (rejected : counter)
    (s : stream) (now : string) (now_ov : nat -> string) :
    res (Z * option string) * counter * stream :=
  let reject reason err := (Ok (400, Some err), bump_label rejected reason, s) in
  let body := text ← utf8_decode body_bytes;
              json_loads (if decide (text = "") then "{}" else text) in
  match body with
  | None => reject "malformed_json" "malformed json"
  | Some (VDict body) =>
      let type_raw := dict_get_none body "type" in
      let payload_raw := dict_get_none body "payload" in
      let agent_id_raw := dict_get_none body "agent_id" in
      let version_raw := dict_get_default body "version" (VInt 1) in
      match type_raw with
      | VStr type_ =>
          if decide (type_ = "") then reject "validation" "type is required"
          else match payload_raw with
          | VDict payload =>
              if negb (is_none agent_id_raw) && negb (is_str agent_id_raw)
              then reject "validation" "agent_id must be a string or null"
              else
                let agent_id := cap_value agent_id_raw in
                if negb (is_int version_raw) || is_bool version_raw || (int_value version_raw <? 1)
                then reject "validation" "version must be a positive integer"
                else match cap_payload payload with
                | None => reject "validation" "payload keys must be strings"
                | Some capped_payload =>
                    match publish s type_ capped_payload agent_id version_raw now now_ov with
                    | (Raise x, s') => (Raise x, rejected, s')
                    | (Ok None, s') =>
                        (Ok (400, Some "validation failed"), bump_label rejected "validation", s')
                    | (Ok (Some _), s') => (Ok (204, None), rejected, s')
                    end
                end
          | _ => reject "validation" "payload must be an object"
          end
      | _ => reject "validation" "type is required"
      end
  | Some _ => reject "validation" "payload must be a JSON object"
  end.

(** A string value is at most the cap and the truncation mark long. *)
Definition capped (v : pyval) : Prop :=
  forall str, v = VStr str -> str_len str <= MAX_EVENT_PUBLISH_FIELD_BYTES + 14.

Lemma cap_value_capped v : capped (cap_value v).
Proof.
  intros str. destruct v as [| | | |s0| |]; cbn [cap_value]; try done.
  assert (0 <= MAX_EVENT_PUBLISH_FIELD_BYTES) as Hcap by done. revert Hcap.
  generalize MAX_EVENT_PUBLISH_FIELD_BYTES as cap. intros cap Hcap.
  destruct (Z.ltb_spec cap (str_len s0)); intros [= <-]; [|lia].
  unfold str_len in *. rewrite str_length_app, str_take_length. cbn [String.length]. lia.
Qed.

Lemma cap_payload_capped p p' :
  cap_payload p = Some p' -> Forall (fun kv => is_str kv.1 = true /\ capped kv.2) p'.
Proof.
  revert p'. induction p as [|[k v] p IH]; cbn; intros p'; [by intros [= <-]; constructor|].
  destruct k; try done. intros (p1 & Hp1 & ->)%fmap_Some.
  constructor; [split; [done|apply cap_value_capped]|auto].
Qed.

(** The publish endpoint. It answers 204 exactly when one envelope was
    broadcast: then the ring gained it, its type is known, and its agent id
    and every string field of its payload are within the cap. It answers
    400 with an error text otherwise, and then the ring, the subscribers
    and the ids are as before. It raises only [TypeError]. *)
Theorem parse_and_publish_statuses body_bytes rejected s now now_ov :
  let '(r, _, s') := parse_and_publish_envelope body_bytes rejected s now now_ov in
  match r with
  | Ok (code, None) => code = 204 /\
      exists e, ring s' = lastn (Z.to_nat (ring_max s)) (ring s ++ [e]) /\
        e_id e = py_str_int (next_id s + 1) /\ next_id s' = next_id s + 1 /\
        e_type e ∈ known_types /\ capped (e_agent_id e) /\
        Forall (fun kv => is_str kv.1 = true /\ capped kv.2) (e_payload e)
  | Ok (code, Some _) => code = 400 /\ exists m, s' = with_metrics s m
  | Raise x => x = TypeError
  end.
Proof.
  unfold parse_and_publish_envelope.
  assert (Hm : exists m, s = with_metrics s m) by (exists (metrics_of s); by destruct s).
  destruct (utf8_decode body_bytes ≫= _) as [body|]; [|done].
  destruct body as [| | | | | |body]; try done.
  destruct (dict_get_none body "type") as [| | | |type_| |]; try done. case_decide; [done|].
  destruct (dict_get_none body "payload") as [| | | | | |payload]; try done.
  destruct (negb _ && negb _); [done|]. destruct (_ || _); [done|].
  destruct (cap_payload payload) as [p'|] eqn:Hp; [|done].
  set (a := cap_value _). set (v := dict_get_default _ _ _).
  destruct (publish_cases s type_ p' a v now now_ov)
    as [(x & Hx & ->)|[(err & Herr & ->)|(Hok & ->)]].
  - by eapply validate_raises.
  - split; [done|]. eexists. by destruct s.
  - set (e := mk_envelope _ _ _ _ _ _) in *.
    pose proof (fanout_log now_ov e (ring_append (with_next_id s (next_id s + 1)) e))
      as (_ & _ & Hr & Hn & _).
    split; [done|]. exists e. split_and!; [exact Hr|done|exact Hn| | |].
    + by apply (validate_known e).
    + apply cap_value_capped.
    + by eapply cap_payload_capped.
Qed.
End ParseAndPublish.

(** ** Witnesses and examples *)

Definition beat (n : Z) : op :=
  Publish "heartbeat.fired" (mk_dict [("duration_ms", VInt n); ("outcome", VStr "success")])
    VNone (VInt 1) "2026-01-01T00:00:00.000Z" (fun _ => "2026-01-01T00:00:00.001Z").
Definition beat_envelope (n : Z) (id : string) : envelope :=
  mk_envelope "heartbeat.fired" (VInt 1) id "2026-01-01T00:00:00.000Z" VNone
    (mk_dict [("duration_ms", VInt n); ("outcome", VStr "success")]).

Lemma replay_from_resumes_witness :
  replay_from (run (new_stream 5 2) [beat 7; beat 8; beat 9]).1 (Some "1")
  = [beat_envelope 8 "2"; beat_envelope 9 "3"].
Proof.
  apply (replay_from_resumes 5 2 [beat 7; beat 8; beat 9] [] (beat_envelope 7 "1")
           [beat_envelope 8 "2"; beat_envelope 9 "3"]).
  - vm_compute. reflexivity.
  - vm_compute. lia.
Defined.

Definition full_subscriber : subscriber :=
  mk_subscriber (mk_queue 1 [IEnv (beat_envelope 7 "1")]) false Fresh.

Definition publish_beat (s : stream) (n : Z) : res (option envelope) * stream :=
  publish s "heartbeat.fired" (mk_dict [("duration_ms", VInt n); ("outcome", VStr "success")])
    VNone (VInt 1) "2026-01-01T00:00:00.000Z" (fun _ => "2026-01-01T00:00:00.001Z").

Lemma publish_delivers_witness :
  exists s', (exists e, publish_beat (run (new_stream 1 2) [Subscribe; beat 7]).1 8
                        = (Ok (Some e), s')) /\
  exists sub' ov,
    heap s' !! 0%nat = Some sub' /\ (0%nat ∉ subscribers s') /\
    sub_closed sub' = true /\ q_items (sub_queue sub') = [] ++ [IEnv ov] /\
    e_type ov = "stream.overrun".
Proof.
  eexists. split; [eexists; vm_compute; reflexivity|].
  refine (proj1 (publish_delivers 1 2 [Subscribe; beat 7] _ _ "heartbeat.fired"
           (mk_dict [("duration_ms", VInt 8); ("outcome", VStr "success")]) VNone (VInt 1)
           "2026-01-01T00:00:00.000Z" (fun _ => "2026-01-01T00:00:00.001Z") _ _
           0%nat full_subscriber _ _ _) _ _); [vm_compute; reflexivity..].
Defined.

Lemma evicted_subscriber_drains_witness :
  exists s', (exists e, publish_beat (run (new_stream 1 2) [Subscribe; beat 7]).1 8
                        = (Ok (Some e), s')) /\
  exists sub' sub'' ov,
    heap s' !! 0%nat = Some sub' /\ e_type ov = "stream.overrun" /\
    run_iter 2 sub' = ([] ++ [ov], Stops, sub'') /\ sub_pc sub'' = Finished.
Proof.
  eexists. split; [eexists; vm_compute; reflexivity|].
  refine (evicted_subscriber_drains 1 2 [Subscribe; beat 7] _ _ "heartbeat.fired"
           (mk_dict [("duration_ms", VInt 8); ("outcome", VStr "success")]) VNone (VInt 1)
           "2026-01-01T00:00:00.000Z" (fun _ => "2026-01-01T00:00:00.001Z") _ _
           0%nat full_subscriber [beat_envelope 7 "1"] _ _ _ _ _ _ _);
    first [ vm_compute; reflexivity | done ].
Defined.

Lemma sse_splice_complete_witness :
  exists s2 sub live sub',
    heap s2 !! 0%nat = Some sub /\
    run_iter 2 sub = (live, Blocked, sub') /\
    [beat_envelope 8 "2"] ++ sse_live {["2"]} live = [beat_envelope 8 "2"; beat_envelope 9 "3"].
Proof.
  eexists.
  refine (sse_splice_complete 5 2 [beat 7; beat 8] [beat 9] _ [] (beat_envelope 7 "1")
           [beat_envelope 8 "2"] [beat_envelope 8 "2"] {["2"]} 0%nat _ _ [beat_envelope 9 "3"]
           _ _ _ _ _ _).
  - vm_compute. reflexivity.
  - vm_compute. reflexivity.
  - vm_compute. reflexivity.
  - vm_compute. lia.
  - constructor; [by intros []|constructor].
  - vm_compute. congruence.
Defined.

Lemma concurrent_ids_unique_witness :
  rtc thread_step (mk_publishers (new_stream 1 1) [] [])
    (mk_publishers (with_next_id (new_stream 1 1) 2) [] [2]) /\ NoDup [2].
Proof.
  assert (H : rtc thread_step (mk_publishers (new_stream 1 1) [] [])
            (mk_publishers (with_next_id (new_stream 1 1) 2) [] [2])).
  { eapply rtc_l; [apply (thread_assigns 0)|]. eapply rtc_l; [apply (thread_assigns 1)|].
    eapply rtc_l; [apply (thread_rejects 0 1 _ [])|]. cbn.
    eapply rtc_l; [apply (thread_broadcasts 1 2 _ [])|]. apply rtc_refl. }
  split; [exact H|]. exact (concurrent_ids_unique _ _ H).
Defined.

(** A JSON payload with a list where an enumeration is expected makes
    [publish] raise, and its id is never used. *)
Definition bad_beat : op :=
  Publish "heartbeat.fired" (mk_dict [("duration_ms", VInt 1); ("outcome", VList [])])
    VNone (VInt 1) "2026-01-01T00:00:00.000Z" (fun _ => "2026-01-01T00:00:00.001Z").

Example publish_raises_and_skips_an_id :
  (publish (new_stream 1 1) "heartbeat.fired"
     (mk_dict [("duration_ms", VInt 1); ("outcome", VList [])]) VNone (VInt 1) "t" (fun _ => "t")).1
  = Raise TypeError /\
  e_id <$> (run (new_stream 1 1) [bad_beat; beat 2]).2 = ["2"].
Proof. split; vm_compute; reflexivity. Qed.

(** Closing an iterator that was never resumed, as happens when a client
    disconnects during the replay, leaves its subscriber in the set. *)
Example unstarted_iterator_leaks :
  subscriber_count (run (new_stream 1 1) [Subscribe; Close 0]).1 = 1.
Proof. vm_compute. reflexivity. Qed.
