(* ===== verification/SessionStream.v ===== *)
(** * Per-session streams (shared/session_stream.py)

    One [session_stream] per session, kept in an insertion-ordered registry.
    Streams and subscribers are objects that outlive their registration (a
    connection holds a reference to both), so the process state [world] has a
    heap for each.  The monotonic clock is a number; every operation takes its
    readings as arguments. *)
From S2P Require Import Prelude PyStr PyVal AsyncQueue Broadcast EventSchema.

Record session_stream : Type := mk_session_stream {
  session_id : string;
  session_hash : string;
  queue_max : Z;
  ring_max : Z;
  ring : list envelope;
  subscribers : gset nat;
  next_id : Z;
  agent_id : pyval;
  turn_seq : Z;
  idle_since : option Z;
  last_activity : Z
}.

Definition set_subscribers (s : session_stream) (subs : gset nat) (idle : option Z) : session_stream :=
  mk_session_stream (session_id s) (session_hash s) (queue_max s) (ring_max s) (ring s) subs
    (next_id s) (agent_id s) (turn_seq s) idle (last_activity s).
Definition set_next_id (s : session_stream) (n : Z) : session_stream :=
  mk_session_stream (session_id s) (session_hash s) (queue_max s) (ring_max s) (ring s)
    (subscribers s) n (agent_id s) (turn_seq s) (idle_since s) (last_activity s).
Definition set_turn_seq (s : session_stream) (n : Z) : session_stream :=
  mk_session_stream (session_id s) (session_hash s) (queue_max s) (ring_max s) (ring s)
    (subscribers s) (next_id s) (agent_id s) n (idle_since s) (last_activity s).
Definition set_ring (s : session_stream) (r : list envelope) (activity : Z) : session_stream :=
  mk_session_stream (session_id s) (session_hash s) (queue_max s) (ring_max s) r
    (subscribers s) (next_id s) (agent_id s) (turn_seq s) (idle_since s) activity.

(** A stream together with the heap of all subscribers. *)
Abbreviation sub_heap := (gmap nat subscriber).

(** ** One stream *)

(** [hashlib.sha256(...).hexdigest()] is a parameter. *)
Section Hash.
Variable sha256_hex : string -> string.

Definition session_id_hash (sid : string) : string := str_take 12 (sha256_hex sid).

Definition new_session_stream (sid : string) (qmax rmax : Z) (agent : pyval) (now : Z) : session_stream :=
  mk_session_stream sid (session_id_hash sid) (Z.max 1 qmax) (Z.max 1 rmax) [] ∅ 0 agent 0
    (Some now) now.
End Hash.

(** The new subscriber is the heap object [i]. *)
Definition subscribe (s : session_stream) (h : sub_heap) (i : nat) : session_stream * sub_heap :=
  (set_subscribers s (subscribers s ∪ {[i]}) None, <[i := new_subscriber (queue_max s)]> h).

Definition remove_subscriber (s : session_stream) (i : nat) (now : Z) : session_stream :=
  let subs := subscribers s ∖ {[i]} in
  set_subscribers s subs (if decide (subs = ∅) then Some now else idle_since s).

Definition next_turn_seq (s : session_stream) : Z * session_stream :=
  (turn_seq s, set_turn_seq s (turn_seq s + 1)).
Definition reset_turn_seq (s : session_stream) : session_stream := set_turn_seq s 0.

(** The terminal envelope takes the stream's next id. *)
Definition overrun_envelope (s : session_stream) (sub : subscriber) (reason ts : string) : envelope :=
  mk_envelope "stream.overrun" (VInt 1) (py_str_int (next_id s)) ts (agent_id s)
    (overrun_payload sub (queue_max s) reason).

Definition evict_slow (s : session_stream) (h : sub_heap) (i : nat) (sub : subscriber)
    (ts : string) (now : Z) : session_stream * sub_heap :=
  let s := set_next_id s (next_id s + 1) in
  let overrun := overrun_envelope s sub "subscriber queue full; evicted" ts in
  let h := <[i := evict_subscriber sub overrun]> h in
  let s := if decide (i ∈ subscribers s) then remove_subscriber s i now else s in
  (s, h).

Definition fanout_one (e : envelope) (ts : string) (now : Z) (st : session_stream * sub_heap) (i : nat) :
    session_stream * sub_heap :=
  let '(s, h) := st in
  match h !! i with
  | None => (s, h)
  | Some sub =>
      if sub_closed sub then (s, h)
      else match deliver sub e with
           | Some sub' => (s, <[i := sub']> h)
           | None => evict_slow s h i sub ts now
           end
  end.

Definition fanout (s : session_stream) (h : sub_heap) (e : envelope) (ts : string) (now : Z) :
    session_stream * sub_heap :=
  foldl (fanout_one e ts now) (s, h) (elements (subscribers s)).

Definition publish `{Validator} (s : session_stream) (h : sub_heap) (type_ : string)
    (payload : pydict) (version : pyval) (ts : string) (now : Z) :
    res (option envelope) * (session_stream * sub_heap) :=
  let s := set_next_id s (next_id s + 1) in
  let e := mk_envelope type_ version (py_str_int (next_id s)) ts (agent_id s) payload in
  match validate (to_dict e) with
  | Raise x => (Raise x, (s, h))
  | Ok (Some err) => (Ok None, (set_next_id s (next_id s - 1), h))
  | Ok None =>
      let s := set_ring s (deque_append (Z.to_nat (ring_max s)) (ring s) e) now in
      (Ok (Some e), fanout s h e ts now)
  end.

Definition publish_chunk `{Validator} (s : session_stream) (h : sub_heap) (role : string) (seq : Z)
    (content : string) (final : bool) (ts : string) (now : Z) :
    res (option envelope) * (session_stream * sub_heap) :=
  publish s h "conversation.chunk"
    (mk_dict [("session_id_hash", VStr (session_hash s)); ("role", VStr role); ("seq", VInt seq);
              ("content", VStr content); ("final", VBool final)]) (VInt 1) ts now.

Definition replay_from (s : session_stream) (last_id : option string) : list envelope :=
  replay (ring s) last_id.

Definition subscriber_count (s : session_stream) : Z := Z.of_nat (size (subscribers s)).
Definition ring_size (s : session_stream) : Z := Z.of_nat (length (ring s)).

(** The inspection may start the idle clock. *)
Definition is_idle_past (s : session_stream) (grace_sec now : Z) : bool * session_stream :=
  if negb (bool_decide (subscribers s = ∅)) then (false, s)
  else match idle_since s with
       | None => (false, set_subscribers s (subscribers s) (Some now))
       | Some since =>
           ((grace_sec <=? now - since) && (grace_sec <=? now - last_activity s), s)
       end.

(** ** The registry *)

Record world : Type := mk_world {
  registry : list (string * nat);
  streams : gmap nat session_stream;
  subs : sub_heap;
  stream_alloc : nat;
  sub_alloc : nat
}.

Definition empty_world : world := mk_world [] ∅ ∅ 0 0.

Definition with_stream (w : world) (k : nat) (st : session_stream * sub_heap) : world :=
  mk_world (registry w) (<[k := st.1]> (streams w)) st.2 (stream_alloc w) (sub_alloc w).
Definition with_registry (w : world) (r : list (string * nat)) : world :=
  mk_world r (streams w) (subs w) (stream_alloc w) (sub_alloc w).

(** The teardown of one attached subscriber, in the sweep and in the
    eviction of the oldest broadcaster. *)
Definition terminate_one (reason ts : string) (st : session_stream * sub_heap) (i : nat) :
    session_stream * sub_heap :=
  let '(s, h) := st in
  match h !! i with
  | None => (s, h)
  | Some sub =>
      let s := set_next_id s (next_id s + 1) in
      let overrun := overrun_envelope s sub reason ts in
      (set_subscribers s (subscribers s ∖ {[i]}) (idle_since s),
       <[i := put_terminal (close_subscriber sub) overrun]> h)
  end.

Definition terminate_all (reason ts : string) (s : session_stream) (h : sub_heap) :
    session_stream * sub_heap :=
  foldl (terminate_one reason ts) (s, h) (elements (subscribers s)).

Definition evict_oldest_broadcaster (w : world) (ts : string) : world :=
  match registry w with
  | [] => w
  | (oldest_sid, k) :: _ =>
      let w := match streams w !! k with
               | None => w
               | Some s =>
                   with_stream w k
                     (terminate_all "broadcaster evicted by registry-cap LRU" ts s (subs w))
               end in
      with_registry w (od_pop (registry w) oldest_sid)
  end.

Definition drop_session_stream (w : world) (sid : string) : world :=
  with_registry w (od_pop (registry w) sid).

Section Registry.
Variable sha256_hex : string -> string.
(** [CONVERSATION_STREAM_REGISTRY_MAX], [..._QUEUE_MAX] and [..._RING_MAX]. *)
Variables registry_max qmax rmax : Z.

Definition get_session_stream (w : world) (sid : string) (agent : pyval) (create : bool)
    (ts : string) (now : Z) : option nat * world :=
  match od_get (registry w) sid with
  | Some k => (Some k, w)
  | None =>
      if negb create then (None, w)
      else
        let w := if registry_max <=? Z.of_nat (length (registry w))
                 then evict_oldest_broadcaster w ts else w in
        let k := stream_alloc w in
        (Some k,
         mk_world (od_set (registry w) sid k)
           (<[k := new_session_stream sha256_hex sid qmax rmax agent now]> (streams w))
           (subs w) (S k) (sub_alloc w))
  end.
End Registry.

(** First the idle streams are collected, then each is torn down and popped. *)
Fixpoint collect_idle (entries : list (string * nat)) (w : world) (grace_sec now : Z) :
    list string * world :=
  match entries with
  | [] => ([], w)
  | (sid, k) :: entries' =>
      match streams w !! k with
      | None => collect_idle entries' w grace_sec now
      | Some s =>
          let '(idle, s') := is_idle_past s grace_sec now in
          let '(dropped, w') := collect_idle entries' (with_stream w k (s', subs w)) grace_sec now in
          ((if idle then [sid] else []) ++ dropped, w')
      end
  end.

Definition sweep_one (ts : string) (w : world) (sid : string) : world :=
  let w := match od_get (registry w) sid with
           | None => w
           | Some k =>
               match streams w !! k with
               | None => w
               | Some s =>
                   with_stream w k
                     (terminate_all "broadcaster swept while subscriber attached" ts s (subs w))
               end
           end in
  with_registry w (od_pop (registry w) sid).

Definition sweep_idle_streams (w : world) (grace_sec : Z) (ts : string) (now : Z) : Z * world :=
  let '(dropped, w) := collect_idle (registry w) w grace_sec now in
  (Z.of_nat (length dropped), foldl (sweep_one ts) w dropped).

Definition registry_size (w : world) : Z := Z.of_nat (length (registry w)).

(** ** The SSE body of a connection

    A connection drives the iterator of its subscriber under
    [asyncio.wait_for]: when the keepalive timeout fires while [__anext__]
    waits, the pending call is cancelled, which finishes the generator. *)
Inductive frame : Type :=
| FEvent (e : envelope)
| FKeepalive
| FEnd.

(** The world after the iterator step of subscriber [i] of stream [k]. *)
Definition step_iterator (w : world) (k i : nat) (sub' : subscriber) (finishes : bool) (now : Z) : world :=
  let h := <[i := sub']> (subs w) in
  match streams w !! k with
  | None => mk_world (registry w) (streams w) h (stream_alloc w) (sub_alloc w)
  | Some s => with_stream w k (if finishes then remove_subscriber s i now else s, h)
  end.

(** One turn of the loop of [_body]; [Blocked] with the timeout fired is the
    [TimeoutError] branch. [None]: the connection is still waiting. *)
Definition body_turn (w : world) (k i : nat) (timeout : bool) (now : Z) : option frame * world :=
  match subs w !! i with
  | None => (Some FEnd, w)
  | Some sub =>
      match iter_next sub with
      | (Stops, sub') =>
          (Some FEnd, step_iterator w k i sub' (bool_decide (sub_pc sub <> Finished)) now)
      | (Yields e, sub') => (Some (FEvent e), step_iterator w k i sub' false now)
      | (Blocked, sub') =>
          if timeout
          then (Some FKeepalive, step_iterator w k i (iter_abort sub').2 true now)
          else (None, step_iterator w k i sub' false now)
      end
  end.

(** The loop ends after [FEnd] and after an overrun envelope. *)
Definition ends_body (f : frame) : bool :=
  match f with
  | FEnd => true
  | FEvent e => bool_decide (e_type e = "stream.overrun")
  | FKeepalive => false
  end.

(** ** The per-caller cap on concurrent streams *)

Abbreviation counts := (gmap string Z).

(** [None]: refused with 429. *)
Definition reserve_slot (per_caller_max : Z) (c : counts) (caller : string) : option counts :=
  if 0 <? per_caller_max then
    let cur := default 0 (c !! caller) in
    if per_caller_max <=? cur then None else Some (<[caller := cur + 1]> c)
  else Some c.

(** [released] is the connection's closure flag. *)
Definition release_slot (per_caller_max : Z) (c : counts) (caller : string) (released : bool) :
    counts * bool :=
  if per_caller_max <=? 0 then (c, released)
  else if released then (c, released)
  else
    let cur := default 0 (c !! caller) in
    (if cur <=? 1 then delete caller c else <[caller := cur - 1]> c, true).

(** ** Invariants of one stream and the heap *)

(** A subscriber whose iterator cannot be stuck once it is closed. *)
Definition good (sub : subscriber) : Prop :=
  0 < q_maxsize (sub_queue sub) /\ sub_ok (q_maxsize (sub_queue sub)) sub.

Record stream_ok (s : session_stream) (h : sub_heap) : Prop := {
  so_queue_max : 0 < queue_max s;
  so_ring : 0 < ring_max s /\ Z.of_nat (length (ring s)) <= ring_max s;
  so_ids : ids_upto (ring s) (next_id s);
  so_subs : forall i, i ∈ subscribers s ->
            exists sub, h !! i = Some sub /\ sub_closed sub = false
}.

Definition heap_ok (h : sub_heap) : Prop := forall i sub, h !! i = Some sub -> good sub.

(** [evolves X s h s' h']: the subscribers outside [X] are untouched, none
    appears, none is reopened, and one that stays open stays in the set. *)
Record evolves (X : gset nat) (s : session_stream) (h : sub_heap)
    (s' : session_stream) (h' : sub_heap) : Prop := {
  ev_subs : subscribers s' ⊆ subscribers s;
  ev_frame : forall j, j ∉ X -> h' !! j = h !! j;
  ev_live : forall j sub', h' !! j = Some sub' ->
            exists sub, h !! j = Some sub /\
              (sub_closed sub' = false ->
               sub_closed sub = false /\ sub_pc sub' = sub_pc sub /\
               (j ∈ subscribers s -> j ∈ subscribers s'));
  ev_pc : forall j sub, h !! j = Some sub -> exists sub', h' !! j = Some sub' /\ sub_pc sub' = sub_pc sub
}.

Lemma evolves_refl X s h : evolves X s h s h.
Proof. split; eauto. Qed.

Lemma evolves_trans X s h s1 h1 s2 h2 :
  evolves X s h s1 h1 -> evolves X s1 h1 s2 h2 -> evolves X s h s2 h2.
Proof.
  intros [A1 A2 A3 A4] [B1 B2 B3 B4]. split.
  - by etransitivity.
  - intros j Hj. by rewrite B2, A2.
  - intros j sub2 H2. destruct (B3 _ _ H2) as (sub1 & H1 & Hb).
    destruct (A3 _ _ H1) as (sub & H0 & Ha). exists sub. split; [done|].
    intros Hc. destruct (Hb Hc) as (Hc1 & Hp1 & Hin1). destruct (Ha Hc1) as (? & ? & ?).
    split_and!; [done|congruence|auto].
  - intros j sub H0. destruct (A4 _ _ H0) as (sub1 & H1 & Hp1).
    destruct (B4 _ _ H1) as (sub2 & ? & ?). exists sub2. split; congruence.
Qed.

Lemma evict_good sub ov : good sub -> q_full (sub_queue sub) = true -> good (evict_subscriber sub ov).
Proof.
  intros [Hm Hok] Hf. unfold good. destruct (evict_ok _ _ ov Hok Hf) as [Hq Hw Hc].
  rewrite Hq. split; [done|]. by split.
Qed.

Lemma deliver_good sub e sub' : good sub -> deliver sub e = Some sub' -> good sub'.
Proof.
  intros [Hm Hok] Hd. destruct (deliver_ok _ _ _ _ Hok Hd) as [Hq Hw Hc].
  unfold good. rewrite Hq. split; [done|]. by split.
Qed.

Lemma terminate_good sub ov : good sub -> good (put_terminal (close_subscriber sub) ov).
Proof.
  intros [Hm Hok]. destruct (terminate_ok _ _ ov Hm Hok) as [Hq Hw Hc].
  unfold good. rewrite Hq. split; [done|]. by split.
Qed.

Lemma iter_next_good sub : good sub -> good (iter_next sub).2.
Proof.
  intros [Hm Hok]. destruct (iter_next_ok _ _ Hok) as [Hq Hw Hc].
  unfold good. rewrite Hq. split; [done|]. by split.
Qed.

Lemma set_pc_good sub : good sub -> good (set_pc sub Finished).
Proof. intros [Hm [Hq Hw Hc]]. split; [done|]. split; cbn; auto. Qed.

Lemma new_subscriber_good n : 0 < n -> good (new_subscriber n).
Proof. intros Hn. split; [done|]. apply new_subscriber_ok. Qed.

Lemma heap_ok_insert h i sub : heap_ok h -> good sub -> heap_ok (<[i := sub]> h).
Proof. intros Hh Hg j sub' [[-> <-]|[_ Hj]]%lookup_insert_Some; eauto. Qed.

#[export] Hint Resolve evict_good deliver_good terminate_good iter_next_good set_pc_good
  new_subscriber_good heap_ok_insert evolves_refl : queues.

(** Closing subscriber [i] while it leaves the set. *)
Lemma close_one X s h i sub sub' s' :
  i ∈ X -> stream_ok s h -> heap_ok h -> h !! i = Some sub ->
  good sub' -> sub_closed sub' = true -> sub_pc sub' = sub_pc sub ->
  subscribers s' = subscribers s ∖ {[i]} -> queue_max s' = queue_max s -> ring_max s' = ring_max s ->
  ring s' = ring s -> next_id s <= next_id s' ->
  stream_ok s' (<[i := sub']> h) /\ heap_ok (<[i := sub']> h) /\ evolves X s h s' (<[i := sub']> h).
Proof.
  intros HX [Hq Hr Hids Hs] Hh Hi Hg Hc Hpc Esubs Eq Erm Er Hn. split_and!.
  - split; rewrite ?Eq, ?Er, ?Erm; [done|done|by eapply ids_weaken|].
    intros j. rewrite Esubs. intros [Hj Hne]%elem_of_difference.
    rewrite lookup_insert_ne by set_solver. auto.
  - by apply heap_ok_insert.
  - split.
    + rewrite Esubs. set_solver.
    + intros j Hj. by rewrite lookup_insert_ne by set_solver.
    + intros j sub2 [[-> <-]|[Hne Hj]]%lookup_insert_Some.
      * exists sub. split; [done|]. congruence.
      * exists sub2. split; [done|]. intros ?. split_and!; [done|done|]. rewrite Esubs. set_solver.
    + intros j sj Hj. destruct (decide (i = j)) as [<-|Hne].
      * rewrite lookup_insert_eq. exists sub'. split; congruence.
      * rewrite lookup_insert_ne by done. eauto.
Qed.

(** The three facts every operation on a stream and the heap establishes. *)
Definition step_ok (X : gset nat) (s : session_stream) (h : sub_heap)
    (st : session_stream * sub_heap) : Prop :=
  stream_ok st.1 st.2 /\ heap_ok st.2 /\ evolves X s h st.1 st.2.

Lemma fold_ok X f l s h :
  (forall s h i, i ∈ X -> stream_ok s h -> heap_ok h -> step_ok X s h (f (s, h) i)) ->
  Forall (fun i => i ∈ X) l -> stream_ok s h -> heap_ok h -> step_ok X s h (foldl f (s, h) l).
Proof.
  intros Hf Hl. revert s h. induction Hl as [|i l Hi Hl IH]; intros s h Hs Hh.
  - split_and!; auto with queues.
  - cbn. destruct (Hf s h i Hi Hs Hh) as (Hs1 & Hh1 & He1).
    destruct (f (s, h) i) as [s1 h1]. cbn in *.
    destruct (IH s1 h1 Hs1 Hh1) as (Hs2 & Hh2 & He2).
    split_and!; [done..|]. by eapply evolves_trans.
Qed.

Lemma fanout_one_ok X e ts now s h i :
  i ∈ X -> stream_ok s h -> heap_ok h -> step_ok X s h (fanout_one e ts now (s, h) i).
Proof.
  intros HX Hs Hh. unfold fanout_one. destruct (h !! i) as [sub|] eqn:Hi.
  2:{ split_and!; auto with queues. }
  destruct (sub_closed sub) eqn:Hc; [split_and!; auto with queues|].
  destruct (deliver sub e) as [sub'|] eqn:Hd.
  - destruct (deliver_items _ _ _ Hd) as (_ & Hc' & Hpc'). split_and!; cbn.
    + destruct Hs as [? ? ? Hs]. split; [done..|]. intros j Hj.
      destruct (decide (i = j)) as [->|Hne].
      * rewrite lookup_insert_eq. eexists. split; [done|congruence].
      * rewrite lookup_insert_ne by done. auto.
    + eauto with queues.
    + split; [done| | |].
      * intros j Hj. by rewrite lookup_insert_ne by set_solver.
      * intros j sub2 [[-> <-]|[Hne Hj]]%lookup_insert_Some; [|eauto].
        exists sub. split; [done|]. by intros _.
      * intros j sj Hj. destruct (decide (i = j)) as [<-|Hne].
        -- rewrite lookup_insert_eq. exists sub'. split; congruence.
        -- rewrite lookup_insert_ne by done. eauto.
  - apply deliver_None in Hd. unfold evict_slow. eapply close_one; try done; try (by case_decide).
    + apply evict_good; eauto.
    + case_decide; cbn; [done|set_solver].
    + case_decide; cbn; lia.
Qed.

Lemma terminate_one_ok X reason ts s h i :
  i ∈ X -> stream_ok s h -> heap_ok h -> step_ok X s h (terminate_one reason ts (s, h) i).
Proof.
  intros HX Hs Hh. unfold terminate_one. destruct (h !! i) as [sub|] eqn:Hi.
  - eapply close_one; try done; [|cbn; lia]. apply terminate_good. eauto.
  - split_and!; auto with queues.
Qed.

Lemma elements_subset (X : gset nat) : Forall (fun i => i ∈ X) (elements X).
Proof. apply Forall_forall. intros i. by rewrite elem_of_elements. Qed.

Lemma terminate_all_ok reason ts s h :
  stream_ok s h -> heap_ok h ->
  step_ok (subscribers s) s h (terminate_all reason ts s h).
Proof. intros. apply fold_ok; auto using terminate_one_ok, elements_subset. Qed.

(** After the teardown nobody is attached. *)
Lemma terminate_all_empty reason ts s h :
  stream_ok s h -> subscribers (terminate_all reason ts s h).1 = ∅.
Proof.
  intros [_ _ _ Hs]. unfold terminate_all.
  enough (forall l s h, (forall i, i ∈ subscribers s -> is_Some (h !! i)) ->
     forall i, i ∈ subscribers (foldl (terminate_one reason ts) (s, h) l).1 ->
     i ∈ subscribers s /\ i ∉ l) as Hfold.
  { apply set_eq. intros i. split; [|set_solver]. intros Hi.
    apply Hfold in Hi as [Hin Hni]; [by rewrite elem_of_elements in Hni|].
    intros j Hj. destruct (Hs j Hj) as (? & ? & _). eauto. }
  clear. induction l as [|j l IH]; intros s h Hs i; cbn; [by split; [|apply not_elem_of_nil]|].
  destruct (h !! j) as [sub|] eqn:Hj.
  - intros Hi. apply IH in Hi as [Hi Hl].
    + cbn in Hi. set_solver.
    + intros k Hk. cbn in Hk. rewrite lookup_insert_ne by set_solver. apply Hs. set_solver.
  - intros Hi. apply IH in Hi as [Hi Hl]; [|done]. split; [done|].
    intros [->|?]%elem_of_cons; [|done]. destruct (Hs _ Hi). congruence.
Qed.

Lemma deque_append_bound {A} m (r : list A) x :
  0 < m -> Z.of_nat (length (deque_append (Z.to_nat m) r x)) <= m.
Proof. intros Hm. pose proof (deque_append_length (Z.to_nat m) r x). lia. Qed.

Lemma ids_upto_deque m r e n k :
  ids_upto r n -> env_num e k -> n < k -> ids_upto (deque_append m r e) k.
Proof. intros. apply ids_upto_lastn. by eapply ids_snoc. Qed.

Lemma publish_ok `{Validator} s h t p v ts now :
  stream_ok s h -> heap_ok h ->
  step_ok (subscribers s) s h (publish s h t p v ts now).2.
Proof.
  intros Hs Hh. pose proof (so_ring _ _ Hs) as [Hr _]. unfold publish. set (s1 := set_next_id s (next_id s + 1)).
  assert (Hs1 : stream_ok s1 h).
  { destruct Hs. split; cbn; try done. eapply ids_weaken; [done|lia]. }
  destruct (validate _) as [[err|]|x]; cbn [snd].
  - split_and!; cbn; [|done|split; eauto].
    destruct Hs. split; cbn; try done. eapply ids_weaken; [done|lia].
  - unfold fanout. set (s2 := set_ring s1 _ now).
    change (subscribers s) with (subscribers s2).
    enough (step_ok (subscribers s2) s2 h (foldl (fanout_one _ ts now) (s2, h) (elements (subscribers s2))))
      as (? & ? & []) by (split_and!; [done..|split; done]).
    apply fold_ok; [auto using fanout_one_ok|apply elements_subset| |done].
    destruct Hs as [? Hrng Hids ?]. split; cbn; [done| | |done].
    + split; [done|]. by apply deque_append_bound.
    + eapply ids_upto_deque; [done|done|lia].
  - split_and!; cbn; [done|done|split; eauto].
Qed.

(** ** Steps of the process *)

Section World.
Context `{Validator}.
Variable sha256_hex : string -> string.
Variables registry_max qmax rmax : Z.

(** What the event loop interleaves: lookups, publishes and subscriptions on
    registered streams, turns of connections, and sweeps. *)
Inductive wstep : world -> world -> Prop :=
| step_get w sid agent create ts now :
    wstep w (get_session_stream sha256_hex registry_max qmax rmax w sid agent create ts now).2
| step_publish w sid k s t p v ts now :
    (sid, k) ∈ registry w -> streams w !! k = Some s ->
    wstep w (with_stream w k (publish s (subs w) t p v ts now).2)
| step_subscribe w sid k s :
    (sid, k) ∈ registry w -> streams w !! k = Some s ->
    wstep w (mk_world (registry w) (<[k := (subscribe s (subs w) (sub_alloc w)).1]> (streams w))
               (subscribe s (subs w) (sub_alloc w)).2 (stream_alloc w) (S (sub_alloc w)))
| step_turn w k i timeout now :
    wstep w (body_turn w k i timeout now).2
| step_sweep w grace ts now :
    wstep w (sweep_idle_streams w grace ts now).2.

(** Subscriber [i] is attached to a registered stream. *)
Definition attached (w : world) (i : nat) : Prop :=
  exists sid k s, (sid, k) ∈ registry w /\ streams w !! k = Some s /\ i ∈ subscribers s.

Definition running (sub : subscriber) : Prop := sub_closed sub = false /\ sub_pc sub <> Finished.

Record world_ok (w : world) : Prop := {
  wo_size : Z.of_nat (length (registry w)) <= registry_max;
  wo_keys : NoDup (od_keys (registry w));
  wo_vals : NoDup (registry w).*2;
  wo_streams : forall sid k, (sid, k) ∈ registry w -> is_Some (streams w !! k);
  wo_ok : forall k s, streams w !! k = Some s -> stream_ok s (subs w);
  wo_alloc : forall k s, streams w !! k = Some s -> (k < stream_alloc w)%nat;
  wo_disj : forall k k' s s', streams w !! k = Some s -> streams w !! k' = Some s' -> k <> k' ->
            subscribers s ## subscribers s';
  wo_heap : heap_ok (subs w);
  wo_sub_alloc : forall i, is_Some (subs w !! i) -> (i < sub_alloc w)%nat;
  wo_attached : forall i sub, subs w !! i = Some sub -> running sub -> attached w i
}.

Lemma empty_world_ok : 0 <= registry_max -> world_ok empty_world.
Proof.
  intros Hm. split; cbn; try done; try set_solver; try (by intros ? ? ?%lookup_empty_Some).
  - constructor.
  - constructor.
  - intros i [? ?]. by rewrite lookup_empty in *.
Qed.

(** Running an operation on one stream. *)
Lemma with_stream_ok w k s st :
  world_ok w -> streams w !! k = Some s -> step_ok (subscribers s) s (subs w) st ->
  world_ok (with_stream w k st).
Proof.
  intros [Hsz Hk Hv Hst Hok Hal Hd Hh Hsa Hat] Hs (Hs' & Hh' & [E1 E2 E3 _]). split; cbn; try done.
  - intros sid k' Hin. destruct (decide (k = k')) as [->|Hne];
      [rewrite lookup_insert_eq; eauto|rewrite lookup_insert_ne by done; eauto].
  - intros k' s' [[-> <-]|[Hne Hk']]%lookup_insert_Some; [done|].
    destruct (Hok _ _ Hk') as [? ? ? Hsubs]. split; [done..|].
    intros i Hi. rewrite E2 by (specialize (Hd _ _ _ _ Hs Hk' Hne); set_solver). auto.
  - intros k' s' [[-> <-]|[Hne Hk']]%lookup_insert_Some; eauto.
  - intros k1 k2 s1 s2 H1 H2 Hne.
    apply lookup_insert_Some in H1 as [[<- <-]|[Hn1 H1]];
      apply lookup_insert_Some in H2 as [[<- <-]|[Hn2 H2]]; [done|..|eauto].
    + specialize (Hd _ _ _ _ Hs H2 Hne). set_solver.
    + assert (k1 <> k) as Hn by done. specialize (Hd _ _ _ _ H1 Hs Hn). set_solver.
  - intros i [sub' Hi]. destruct (E3 _ _ Hi) as (sub & Hsub & _). eauto.
  - intros i sub' Hi [Hc Hp]. destruct (E3 _ _ Hi) as (sub & Hsub & Hlive).
    destruct (Hlive Hc) as (Hc0 & Hpc & Hin).
    destruct (Hat _ _ Hsub) as (sid & k' & s' & Hr & Hk' & Hi'); [split; congruence|].
    destruct (decide (k = k')) as [->|Hne].
    + exists sid, k', st.1. cbn. rewrite lookup_insert_eq. split_and!; [done..|].
      rewrite Hs in Hk'. injection Hk' as <-. auto.
    + exists sid, k', s'. cbn. by rewrite lookup_insert_ne.
Qed.

(** A popped entry must not leave a running subscriber behind. *)
Lemma with_registry_pop_ok w sid k s :
  world_ok w -> od_get (registry w) sid = Some k -> streams w !! k = Some s ->
  subscribers s = ∅ -> world_ok (with_registry w (od_pop (registry w) sid)).
Proof.
  intros [Hsz Hk Hv Hst Hok Hal Hd Hh Hsa Hat] Hget Hs Hempty. split; cbn; try done.
  - pose proof (od_pop_length (registry w) sid). lia.
  - by apply od_pop_NoDup.
  - by apply filter_fmap_NoDup.
  - intros sid' k' [_ Hin]%list_elem_of_filter. eauto.
  - intros i sub Hi Hrun. destruct (Hat _ _ Hi Hrun) as (sid' & k' & s' & Hr & Hk' & Hi').
    exists sid', k', s'. split_and!; [|done..]. apply list_elem_of_filter. split; [|done].
    cbn. intros ->. apply (od_get_Some _ _ _ Hk) in Hr.
    assert (k' = k) as -> by congruence. rewrite Hs in Hk'. injection Hk' as <-. set_solver.
Qed.

Lemma with_stream_registry w k st : registry (with_stream w k st) = registry w.
Proof. done. Qed.

(** Tearing a registered stream down and popping it. *)
Lemma teardown_ok w sid k s reason ts :
  world_ok w -> od_get (registry w) sid = Some k -> streams w !! k = Some s ->
  world_ok (with_registry (with_stream w k (terminate_all reason ts s (subs w)))
              (od_pop (registry w) sid)).
Proof.
  intros Hw Hget Hs. pose proof (wo_ok _ Hw _ _ Hs) as Hso.
  eapply (with_registry_pop_ok (with_stream w k (terminate_all reason ts s (subs w)))).
  - eapply with_stream_ok; [done..|]. apply terminate_all_ok; [done|apply (wo_heap _ Hw)].
  - done.
  - cbn. by rewrite lookup_insert_eq.
  - by apply terminate_all_empty.
Qed.

Lemma registered_stream w sid k :
  world_ok w -> od_get (registry w) sid = Some k -> exists s, streams w !! k = Some s.
Proof. intros Hw Hget. apply od_get_elem in Hget. by apply (wo_streams _ Hw) in Hget as [s ?]; eauto. Qed.

Lemma evict_oldest_ok w ts : world_ok w -> world_ok (evict_oldest_broadcaster w ts).
Proof.
  intros Hw. unfold evict_oldest_broadcaster. destruct (registry w) as [|[sid k] r] eqn:Hr; [done|].
  assert (Hget : od_get (registry w) sid = Some k) by (rewrite Hr; cbn; by rewrite decide_True).
  destruct (registered_stream _ _ _ Hw Hget) as [s Hs]. rewrite Hs.
  exact (teardown_ok w sid k s _ ts Hw Hget Hs).
Qed.

Lemma sweep_one_ok w ts sid : world_ok w -> world_ok (sweep_one ts w sid).
Proof.
  intros Hw. unfold sweep_one. destruct (od_get (registry w) sid) as [k|] eqn:Hget.
  - destruct (registered_stream _ _ _ Hw Hget) as [s Hs]. rewrite Hs.
  exact (teardown_ok w sid k s _ ts Hw Hget Hs).
  - assert (od_pop (registry w) sid = registry w) as ->; [|by destruct w].
    apply od_get_None in Hget. apply filter_all, Forall_forall. intros [sid' k'] Hin. cbn.
    intros ->. apply Hget, list_elem_of_fmap. by exists (sid, k').
Qed.

Lemma is_idle_past_ok s h grace now :
  stream_ok s h -> heap_ok h -> step_ok (subscribers s) s h ((is_idle_past s grace now).2, h).
Proof.
  intros Hs Hh. unfold is_idle_past.
  destruct (negb _); [split_and!; auto with queues|].
  destruct (idle_since s); [split_and!; auto with queues|].
  split_and!; cbn; [by destruct Hs|done|split; eauto].
Qed.

(** The test the sweep applies to a registered stream. *)
Definition idle_entry (w : world) (grace now : Z) (entry : string * nat) : bool :=
  match streams w !! entry.2 with
  | Some s => (is_idle_past s grace now).1
  | None => false
  end.

Lemma collect_idle_spec entries w grace now :
  world_ok w -> NoDup entries.*2 ->
  let '(dropped, w') := collect_idle entries w grace now in
  world_ok w' /\ registry w' = registry w /\
  dropped = (filter (fun e => idle_entry w grace now e = true) entries).*1.
Proof.
  revert w. induction entries as [|[sid k] entries IH]; intros w Hw Hnd; [done|].
  cbn in Hnd. apply NoDup_cons in Hnd as [Hk Hnd]. cbn [collect_idle].
  rewrite filter_cons.
  destruct (streams w !! k) as [s|] eqn:Hs.
  - pose proof (is_idle_past_ok s (subs w) grace now (wo_ok _ Hw _ _ Hs) (wo_heap _ Hw)) as Hstep.
    assert (Hie : idle_entry w grace now (sid, k) = (is_idle_past s grace now).1)
      by (unfold idle_entry; cbn; by rewrite Hs). rewrite Hie. clear Hie.
    destruct (is_idle_past s grace now) as [idle s'] eqn:Hidle. cbn [fst snd] in *.
    pose proof (with_stream_ok _ _ _ _ Hw Hs Hstep) as Hw1.
    specialize (IH _ Hw1 Hnd). destruct (collect_idle _ _ _ _) as [dropped w'].
    destruct IH as (Hw' & Hreg & ->). split_and!; [done|done|].
    assert (filter (fun e => idle_entry (with_stream w k (s', subs w)) grace now e = true) entries
            = filter (fun e => idle_entry w grace now e = true) entries) as ->.
    { apply filter_ext_in. intros [sid2 k2] Hin. unfold idle_entry. cbn.
      rewrite lookup_insert_ne; [done|]. intros ->. apply Hk, list_elem_of_fmap.
      by exists (sid2, k2). }
    destruct idle; cbn; [by rewrite decide_True|by rewrite decide_False].
  - rewrite decide_False by (unfold idle_entry; cbn; by rewrite Hs). specialize (IH _ Hw Hnd).
    by destruct (collect_idle entries w grace now).
Qed.

Lemma sweep_fold_spec ts dropped w :
  world_ok w ->
  world_ok (foldl (sweep_one ts) w dropped) /\
  registry (foldl (sweep_one ts) w dropped) = filter (fun e => e.1 ∉ dropped) (registry w).
Proof.
  revert w. induction dropped as [|sid dropped IH]; intros w Hw; cbn.
  - split; [done|]. symmetry. apply filter_all, Forall_forall. intros ? _. apply not_elem_of_nil.
  - destruct (IH (sweep_one ts w sid)) as [Hw' ->]; [by apply sweep_one_ok|]. split; [done|].
    assert (registry (sweep_one ts w sid) = od_pop (registry w) sid) as ->.
    { unfold sweep_one. destruct (od_get _ _) as [k|]; [|done]. by destruct (streams w !! k). }
    unfold od_pop. rewrite filter_conj. apply list_filter_iff. intros [sid' k']. cbn.
    rewrite not_elem_of_cons. tauto.
Qed.

(** What a sweep keeps. *)
Lemma sweep_registry w grace ts now :
  world_ok w ->
  let '(n, w') := sweep_idle_streams w grace ts now in
  world_ok w' /\
  registry w' = filter (fun e => idle_entry w grace now e = false) (registry w) /\
  n = Z.of_nat (length (filter (fun e => idle_entry w grace now e = true) (registry w))).
Proof.
  intros Hw. unfold sweep_idle_streams.
  pose proof (collect_idle_spec (registry w) w grace now Hw (wo_vals _ Hw)) as Hc.
  destruct (collect_idle _ _ _ _) as [dropped w1]. destruct Hc as (Hw1 & Hr1 & ->).
  destruct (sweep_fold_spec ts (filter (fun e => idle_entry w grace now e = true) (registry w)).*1 w1 Hw1)
    as [Hw' Hr']. rewrite Hr1 in Hr'. split_and!; [done| |by rewrite length_fmap].
  rewrite Hr'. apply filter_ext_in. intros [sid k] Hin. cbn.
  rewrite list_elem_of_fmap. split.
  - intros Hni. destruct (idle_entry w grace now (sid, k)) eqn:Hi; [|done]. exfalso. apply Hni.
    exists (sid, k). split; [done|]. by apply list_elem_of_filter.
  - intros Hi ([sid' k'] & Heq & [Hi' Hin']%list_elem_of_filter). cbn in Heq. subst sid'.
    apply (od_get_Some _ _ _ (wo_keys _ Hw)) in Hin, Hin'. congruence.
Qed.

Lemma get_ok w sid agent create ts now :
  0 < registry_max -> world_ok w ->
  world_ok (get_session_stream sha256_hex registry_max qmax rmax w sid agent create ts now).2.
Proof.
  intros Hmax Hw. unfold get_session_stream. destruct (od_get (registry w) sid) as [k|] eqn:Hget; [done|].
  destruct create; [|done]. cbn [negb snd].
  set (w1 := if registry_max <=? Z.of_nat (length (registry w)) then _ else w).
  assert (Hw1 : world_ok w1 /\ Z.of_nat (length (registry w1)) < registry_max /\
                od_get (registry w1) sid = None).
  { unfold w1. destruct (Z.leb_spec registry_max (Z.of_nat (length (registry w)))); [|done].
    split; [by apply evict_oldest_ok|]. pose proof (wo_size _ Hw).
    pose proof (wo_keys _ Hw) as Hnd. unfold evict_oldest_broadcaster.
    destruct (registry w) as [|[sid0 k0] r] eqn:Hr; [cbn in *; lia|].
    set (w2 := match streams w !! k0 with Some _ => _ | None => _ end).
    assert (registry w2 = registry w) as Hr2 by (unfold w2; by destruct (streams w !! k0)).
    cbn [with_registry registry]. rewrite Hr2, Hr. cbn in Hnd. apply NoDup_cons in Hnd as [Hn _].
    unfold od_pop. rewrite filter_cons_False by (cbn; tauto).
    rewrite filter_all.
    2:{ apply Forall_forall. intros [sid1 k1] Hin. cbn. intros ->. apply Hn, list_elem_of_fmap.
        by exists (sid0, k1). }
    split; [cbn in *; lia|]. cbn in Hget. by case_decide. }
  clearbody w1. destruct Hw1 as (Hw1 & Hlen & Hnone). clear Hw Hget w. rename w1 into w.
  pose proof (proj1 (od_get_None _ _) Hnone) as Hsid.
  destruct Hw1 as [Hsz Hk Hv Hst Hok Hal Hd Hh Hsa Hat].
  assert (Hfresh : streams w !! stream_alloc w = None).
  { destruct (streams w !! stream_alloc w) as [s|] eqn:Hs; [|done]. apply Hal in Hs. lia. }
  rewrite od_set_new by done.
  assert (Hlift : forall k s, streams w !! k = Some s ->
    <[stream_alloc w := new_session_stream sha256_hex sid qmax rmax agent now]> (streams w) !! k = Some s)
    by (intros k s Hs; rewrite lookup_insert_ne; [done|intros Heq; congruence]).
  split; cbn.
  - rewrite length_app. cbn. lia.
  - unfold od_keys in *. rewrite fmap_app. apply NoDup_app. split_and!; [done| |apply NoDup_singleton].
    intros x Hx ->%list_elem_of_singleton. done.
  - rewrite fmap_app. apply NoDup_app. split_and!; [done| |apply NoDup_singleton].
    intros x ([sid' k'] & -> & Hin)%list_elem_of_fmap Hx%list_elem_of_singleton. cbn in Hx.
    apply Hst in Hin as [s Hs]. congruence.
  - intros sid' k' [Hin|[= -> ->]%list_elem_of_singleton]%elem_of_app.
    + apply Hst in Hin as [s Hs]. eauto.
    + by rewrite lookup_insert_eq.
  - intros k s [[<- <-]|[Hne Hs]]%lookup_insert_Some; [|by eapply Hok].
    split; cbn; [lia|split; [lia|cbn; lia]|by constructor|]. by intros i ?%elem_of_empty.
  - intros k s [[<- <-]|[Hne Hs]]%lookup_insert_Some; [lia|]. apply Hal in Hs. lia.
  - intros k1 k2 s1 s2 H1 H2 Hne.
    apply lookup_insert_Some in H1 as [[<- <-]|[Hn1 H1]];
      apply lookup_insert_Some in H2 as [[<- <-]|[Hn2 H2]]; [done|cbn; set_solver..|eauto].
  - done.
  - done.
  - intros i sub Hi Hrun. destruct (Hat _ _ Hi Hrun) as (sid' & k' & s' & Hr & Hk' & Hi').
    exists sid', k', s'. cbn. split_and!; [set_solver|auto|done].
Qed.

Lemma subscribe_ok w sid k s :
  world_ok w -> (sid, k) ∈ registry w -> streams w !! k = Some s ->
  world_ok (mk_world (registry w) (<[k := (subscribe s (subs w) (sub_alloc w)).1]> (streams w))
              (subscribe s (subs w) (sub_alloc w)).2 (stream_alloc w) (S (sub_alloc w))).
Proof.
  intros [Hsz Hk Hv Hst Hok Hal Hd Hh Hsa Hat] Hin Hs. set (i := sub_alloc w) in *.
  assert (Hfresh : subs w !! i = None).
  { destruct (subs w !! i) as [sub|] eqn:Hi; [|done]. specialize (Hsa i). rewrite Hi in Hsa.
    assert (i < i)%nat by eauto. lia. }
  assert (Hni : forall k' s', streams w !! k' = Some s' -> i ∉ subscribers s').
  { intros k' s' Hs' Hi. destruct (so_subs _ _ (Hok _ _ Hs') _ Hi) as (? & ? & _). congruence. }
  split; cbn; try done.
  - intros sid' k' Hin'. destruct (decide (k = k')) as [->|Hne];
      [rewrite lookup_insert_eq; eauto|rewrite lookup_insert_ne by done; eauto].
  - assert (Hsubs : forall k' s', streams w !! k' = Some s' -> forall j, j ∈ subscribers s' ->
      exists sub, <[i := new_subscriber (queue_max s)]> (subs w) !! j = Some sub /\
                  sub_closed sub = false).
    { intros k' s' Hs' j Hj. rewrite lookup_insert_ne by (intros ->; by eapply Hni).
      by eapply so_subs; [apply (Hok _ _ Hs')|]. }
    intros k' s' [[-> <-]|[Hne Hs']]%lookup_insert_Some.
    + destruct (Hok _ _ Hs) as [? ? ? Hsb]. split; [done..|]. cbn. intros j Hj.
      destruct (decide (i = j)) as [<-|Hne]; [rewrite lookup_insert_eq; eauto|].
      eapply Hsubs; [done|]. set_solver.
    + destruct (Hok _ _ Hs') as [? ? ? Hsb]. split; [done..|]. eauto.
  - intros k' s' [[-> <-]|[Hne Hs']]%lookup_insert_Some; eauto.
  - intros k1 k2 s1 s2 H1 H2 Hne.
    apply lookup_insert_Some in H1 as [[<- <-]|[Hn1 H1]];
      apply lookup_insert_Some in H2 as [[<- <-]|[Hn2 H2]]; [done|..|eauto]; cbn.
    + pose proof (Hd _ _ _ _ Hs H2 Hne). pose proof (Hni _ _ H2). set_solver.
    + assert (k1 <> k) as Hn by done. pose proof (Hd _ _ _ _ H1 Hs Hn). pose proof (Hni _ _ H1).
      set_solver.
  - apply heap_ok_insert; [done|]. apply new_subscriber_good. apply (Hok _ _ Hs).
  - intros j [sub [[<- _]|[_ Hj]]%lookup_insert_Some]; [lia|].
    assert (j < sub_alloc w)%nat by eauto. lia.
  - intros j sub [[<- <-]|[Hne Hj]]%lookup_insert_Some Hrun.
    + exists sid, k. eexists. cbn. rewrite lookup_insert_eq. split_and!; [done..|]. cbn. set_solver.
    + destruct (Hat _ _ Hj Hrun) as (sid' & k' & s' & Hr & Hk' & Hi').
      destruct (decide (k = k')) as [<-|Hnk].
      * rewrite Hs in Hk'. injection Hk' as <-. exists sid', k. eexists. cbn.
        rewrite lookup_insert_eq. split_and!; [done..|]. cbn. set_solver.
      * exists sid', k', s'. cbn. by rewrite lookup_insert_ne.
Qed.
(** A step of an iterator changes the position and the queue of its
    subscriber, never whether it is closed. *)
Lemma iterator_heap_ok w i sub sub' :
  world_ok w -> subs w !! i = Some sub -> good sub' -> sub_closed sub' = sub_closed sub ->
  (sub_pc sub = Finished -> sub_pc sub' = Finished) ->
  world_ok (mk_world (registry w) (streams w) (<[i := sub']> (subs w)) (stream_alloc w) (sub_alloc w)).
Proof.
  intros [Hsz Hk Hv Hst Hok Hal Hd Hh Hsa Hat] Hi Hg Hc Hp. split; cbn; try done.
  - intros k s Hs. destruct (Hok _ _ Hs) as [? ? ? Hsubs]. split; [done..|].
    intros j Hj. destruct (Hsubs _ Hj) as (sj & Hsj & Hcj).
    destruct (decide (i = j)) as [<-|Hne].
    + rewrite lookup_insert_eq. exists sub'. split; [done|]. rewrite Hi in Hsj. congruence.
    + rewrite lookup_insert_ne by done. eauto.
  - by apply heap_ok_insert.
  - intros j [sj [[<- _]|[_ Hj]]%lookup_insert_Some]; eauto.
  - intros j sj [[<- <-]|[Hne Hj]]%lookup_insert_Some [Hc' Hp'].
    + apply (Hat _ _ Hi). split; [congruence|auto].
    + by apply (Hat _ _ Hj).
Qed.

Lemma remove_subscriber_ok w k s i now :
  world_ok w -> streams w !! k = Some s ->
  (forall sub, subs w !! i = Some sub -> ~ running sub) ->
  world_ok (with_stream w k (remove_subscriber s i now, subs w)).
Proof.
  intros [Hsz Hk Hv Hst Hok Hal Hd Hh Hsa Hat] Hs Hi. split; cbn; try done.
  - intros sid k' Hin. destruct (decide (k = k')) as [->|Hne];
      [rewrite lookup_insert_eq; eauto|rewrite lookup_insert_ne by done; eauto].
  - intros k' s' [[-> <-]|[Hne Hs']]%lookup_insert_Some; [|by eapply Hok].
    destruct (Hok _ _ Hs) as [? ? ? Hsubs]. split; [done..|]. cbn. intros j Hj. apply Hsubs. set_solver.
  - intros k' s' [[-> <-]|[Hne Hs']]%lookup_insert_Some; eauto.
  - intros k1 k2 s1 s2 H1 H2 Hne.
    apply lookup_insert_Some in H1 as [[<- <-]|[Hn1 H1]];
      apply lookup_insert_Some in H2 as [[<- <-]|[Hn2 H2]]; [done|..|eauto]; cbn.
    + pose proof (Hd _ _ _ _ Hs H2 Hne). set_solver.
    + assert (k1 <> k) as Hn by done. pose proof (Hd _ _ _ _ H1 Hs Hn). set_solver.
  - intros j sub Hj Hrun. destruct (Hat _ _ Hj Hrun) as (sid & k' & s' & Hr & Hk' & Hi').
    assert (i <> j) by (intros ->; by eapply Hi).
    destruct (decide (k = k')) as [<-|Hne].
    + exists sid, k. eexists. cbn. rewrite lookup_insert_eq. split_and!; [done..|].
      rewrite Hs in Hk'. injection Hk' as <-. cbn. set_solver.
    + exists sid, k', s'. cbn. by rewrite lookup_insert_ne.
Qed.

Lemma step_iterator_ok w k i sub sub' finishes now :
  world_ok w -> subs w !! i = Some sub -> good sub' -> sub_closed sub' = sub_closed sub ->
  (sub_pc sub = Finished -> sub_pc sub' = Finished) ->
  (finishes = true -> sub_pc sub' = Finished) ->
  world_ok (step_iterator w k i sub' finishes now).
Proof.
  intros Hw Hi Hg Hc Hp Hf. pose proof (iterator_heap_ok _ _ _ _ Hw Hi Hg Hc Hp) as Hw1.
  unfold step_iterator. destruct (streams w !! k) as [s|] eqn:Hs; [|done].
  set (w1 := mk_world _ _ _ _ _) in Hw1. destruct finishes.
  - apply (remove_subscriber_ok w1 k s i now Hw1 Hs). cbn. intros sub2. rewrite lookup_insert_eq.
    intros [= <-] [_ Hrun]. auto.
  - apply (with_stream_ok w1 k s (s, subs w1) Hw1 Hs). split_and!; cbn.
    + by apply (wo_ok _ Hw1 k).
    + apply (wo_heap _ Hw1).
    + apply evolves_refl.
Qed.

Lemma body_turn_ok w k i timeout now : world_ok w -> world_ok (body_turn w k i timeout now).2.
Proof.
  intros Hw. unfold body_turn. destruct (subs w !! i) as [sub|] eqn:Hi; [|done].
  pose proof (iter_next_good _ (wo_heap _ Hw _ _ Hi)) as Hg.
  assert (Hc : sub_closed (iter_next sub).2 = sub_closed sub).
  { unfold iter_next, iter_get. by destruct sub as [[m [|[]]] c []], c. }
  assert (Hp : sub_pc sub = Finished -> sub_pc (iter_next sub).2 = Finished).
  { intros Hp. unfold iter_next. by rewrite Hp. }
  assert (Hs : (iter_next sub).1 = Stops -> sub_pc (iter_next sub).2 = Finished).
  { unfold iter_next, iter_get. by destruct sub as [[m [|[]]] c []], c. }
  destruct (iter_next sub) as [r sub']. cbn [fst snd] in *.
  destruct r; [destruct timeout|..]; cbn [snd].
  - eapply step_iterator_ok; try done. by apply set_pc_good.
  - by eapply step_iterator_ok.
  - by eapply step_iterator_ok.
  - apply (step_iterator_ok _ _ _ _ _ _ _ Hw Hi Hg Hc Hp). auto.
Qed.

Lemma wstep_ok w w' : 0 < registry_max -> wstep w w' -> world_ok w -> world_ok w'.
Proof.
  intros Hmax Hstep Hw. destruct Hstep.
  - by apply get_ok.
  - eapply with_stream_ok; [done..|].
    apply publish_ok; [by eapply wo_ok|by apply wo_heap].
  - by eapply subscribe_ok.
  - by apply body_turn_ok.
  - pose proof (sweep_registry w grace ts now Hw) as Hs.
    by destruct (sweep_idle_streams w grace ts now), Hs.
Qed.

Lemma reachable_world_ok w : 0 < registry_max -> rtc wstep empty_world w -> world_ok w.
Proof.
  intros Hmax Hr. assert (world_ok empty_world) as H0 by (apply empty_world_ok; lia).
  revert H0. induction Hr as [|w1 w2 w3 H12 _ IH]; [done|]. intros H1. eauto using wstep_ok.
Qed.

(** ** Properties *)


(** On a reachable process a sweep drops exactly the streams that have
    no subscriber and have been without subscriber and without publish for
    the grace period, reports their number, and keeps the others in order. *)
Theorem sweep_drops_exactly_idle w grace ts now :
  0 < registry_max -> rtc wstep empty_world w ->
  let '(n, w') := sweep_idle_streams w grace ts now in
  registry w' = filter (fun e => idle_entry w grace now e = false) (registry w) /\
  n = registry_size w - registry_size w' /\
  forall sid k s since, (sid, k) ∈ registry w -> streams w !! k = Some s ->
    subscribers s = ∅ -> idle_since s = Some since ->
    ((sid, k) ∉ registry w' <-> grace <= now - since /\ grace <= now - last_activity s).
Proof.
  intros Hmax Hr. pose proof (reachable_world_ok w Hmax Hr) as Hw.
  pose proof (sweep_registry w grace ts now Hw) as Hs.
  destruct (sweep_idle_streams w grace ts now) as [n w']. destruct Hs as (Hw' & Hreg & ->).
  split_and!; [done| |].
  - unfold registry_size. rewrite Hreg. generalize (registry w). intros l.
    induction l as [|x l IH]; [done|]. rewrite !filter_cons.
    destruct (idle_entry w grace now x);
      [rewrite decide_True, decide_False by done|rewrite decide_False, decide_True by done];
      cbn [length]; lia.
  - intros sid k s since Hin Hk Hempty Hsince. rewrite Hreg, list_elem_of_filter.
    unfold idle_entry. cbn. rewrite Hk. unfold is_idle_past.
    rewrite bool_decide_true, Hsince by done. cbn.
    destruct (Z.leb_spec grace (now - since)), (Z.leb_spec grace (now - last_activity s)); cbn;
      split; try tauto; try lia.
Qed.

(** A finished iterator stays finished. *)
Definition finished (w : world) (i : nat) : Prop :=
  exists sub, subs w !! i = Some sub /\ sub_pc sub = Finished.

Lemma evolves_finished w i k X s st :
  evolves X s (subs w) st.1 st.2 -> finished w i -> finished (with_stream w k st) i.
Proof.
  intros [_ _ _ Hp] (sub & Hi & Hf). destruct (Hp _ _ Hi) as (sub' & ? & ?).
  exists sub'. split; [done|congruence].
Qed.

Lemma sweep_one_finished w i ts sid : world_ok w -> finished w i -> finished (sweep_one ts w sid) i.
Proof.
  intros Hw Hf. unfold sweep_one. destruct (od_get (registry w) sid) as [k|] eqn:Hget; [|done].
  destruct (registered_stream _ _ _ Hw Hget) as [s Hs]. rewrite Hs.
  apply (evolves_finished w i k (subscribers s) s); [|done].
  apply terminate_all_ok; [by eapply wo_ok|by apply wo_heap].
Qed.

Lemma step_iterator_finished w k i j sub sub' f now :
  subs w !! j = Some sub -> (sub_pc sub = Finished -> sub_pc sub' = Finished) ->
  finished w i -> finished (step_iterator w k j sub' f now) i.
Proof.
  intros Hj Hp (si & Hi & Hf).
  assert (finished (mk_world (registry w) (streams w) (<[j := sub']> (subs w)) 0 0) i) as (s2 & H2 & ?).
  { unfold finished. cbn. destruct (decide (j = i)) as [->|Hne].
    - rewrite lookup_insert_eq. exists sub'. split; [done|]. apply Hp. congruence.
    - rewrite lookup_insert_ne by done. eauto. }
  unfold step_iterator. destruct (streams w !! k); exists s2; done.
Qed.

Lemma collect_idle_subs entries w grace now : subs (collect_idle entries w grace now).2 = subs w.
Proof.
  revert w. induction entries as [|[sid k] entries IH]; intros w; cbn; [done|].
  destruct (streams w !! k) as [s|]; [|done]. destruct (is_idle_past s grace now) as [idle s'].
  specialize (IH (with_stream w k (s', subs w))). by destruct (collect_idle _ _ _ _).
Qed.

Lemma evict_oldest_finished w ts i : world_ok w -> finished w i -> finished (evict_oldest_broadcaster w ts) i.
Proof.
  intros Hw Hf. unfold evict_oldest_broadcaster. destruct (registry w) as [|[sid k] r] eqn:Hr; [done|].
  destruct (streams w !! k) as [s|] eqn:Hs; [|done].
  apply (evolves_finished w i k (subscribers s) s); [|done].
  apply terminate_all_ok; [by eapply wo_ok|by apply wo_heap].
Qed.

Lemma wstep_finished w w' i : world_ok w -> wstep w w' -> finished w i -> finished w' i.
Proof.
  intros Hw Hstep Hf. destruct Hstep.
  - unfold get_session_stream. destruct (od_get _ _); [done|]. destruct (negb create); [done|].
    cbn. case_match; [|done]. pose proof (evict_oldest_finished w ts i Hw Hf) as (sub & ? & ?).
    by exists sub.
  - eapply evolves_finished; [|done]. apply publish_ok; [by eapply wo_ok|by apply wo_heap].
  - destruct Hf as (sub & Hi & Hp). exists sub. cbn. split; [|done].
    assert (i < sub_alloc w)%nat by (apply (wo_sub_alloc _ Hw); eauto).
    rewrite lookup_insert_ne by lia. done.
  - unfold body_turn. destruct (subs w !! i0) as [sub|] eqn:Hi; [|done].
    assert (Hp : sub_pc sub = Finished -> sub_pc (iter_next sub).2 = Finished)
      by (intros Hp; unfold iter_next; by rewrite Hp).
    destruct (iter_next sub) as [r sub']. destruct r; [destruct timeout|..]; cbn [snd] in *;
      by eapply step_iterator_finished.
  - pose proof (collect_idle_spec (registry w) w grace now Hw (wo_vals _ Hw)) as Hc.
    pose proof (collect_idle_subs (registry w) w grace now) as Hsubs.
    unfold sweep_idle_streams. destruct (collect_idle _ _ _ _) as [dropped w1]. cbn in *.
    destruct Hc as (Hw1 & _ & _). assert (finished w1 i) as Hf1.
    { destruct Hf as (sub & ? & ?). exists sub. by rewrite Hsubs. }
    clear Hsubs Hf Hw. revert w1 Hw1 Hf1. induction dropped as [|sid dropped IH]; intros w1 Hw1 Hf1; [done|].
    cbn. apply IH; [by apply sweep_one_ok|by apply sweep_one_finished].
Qed.

(** The keepalive ends the connection. On a reachable process, when the
    timeout fires while a connection waits for an event, it sends its
    keepalive frame, but cancelling the pending call has finished the
    iterator: whatever happens afterwards (publishes included), the next turn
    of this connection ends the body. The handler's loop means to go on. *)
Theorem keepalive_ends_connection w k i sub now w1 w2 timeout now' :
  0 < registry_max -> rtc wstep empty_world w ->
  subs w !! i = Some sub -> iter_next sub = (Blocked, set_pc sub Getting) ->
  body_turn w k i true now = (Some FKeepalive, w1) -> rtc wstep w1 w2 ->
  (body_turn w2 k i timeout now').1 = Some FEnd.
Proof.
  intros Hmax Hr Hi Hnext Hturn Hr2. pose proof (reachable_world_ok w Hmax Hr) as Hw.
  assert (world_ok w1) as Hw1.
  { pose proof (body_turn_ok w k i true now Hw) as H0. by rewrite Hturn in H0. }
  assert (finished w1 i) as Hf1.
  { unfold body_turn in Hturn. rewrite Hi, Hnext in Hturn. injection Hturn as <-.
    unfold step_iterator. destruct (streams w !! k); eexists; (split; [cbn; apply lookup_insert_eq|done]). }
  assert (finished w2 i) as (sub2 & Hi2 & Hf2).
  { clear Hturn Hnext Hi Hr. induction Hr2 as [|a b c Hab _ IH]; [done|].
    eauto using wstep_ok, wstep_finished. }
  unfold body_turn, iter_next. by rewrite Hi2, Hf2.
Qed.
End World.

(** ** The per-caller cap *)

(** A connection that holds a slot: its caller and its [_released] flag. *)
Abbreviation connection := (string * bool)%type.

Inductive slot_op : Type :=
| Connect (caller : string)
| Release (conn : nat).

(** [_release_slot] runs from the body's [finally], from the background task
    and from the set-up's error path, any number of times. *)
Definition exec_slot (per_caller_max : Z) (st : counts * list connection) (o : slot_op) :
    counts * list connection :=
  let '(c, conns) := st in
  match o with
  | Connect caller =>
      match reserve_slot per_caller_max c caller with
      | None => st
      | Some c' => (c', conns ++ [(caller, false)])
      end
  | Release n =>
      match conns !! n with
      | None => st
      | Some (caller, released) =>
          let '(c', released') := release_slot per_caller_max c caller released in
          (c', <[n := (caller, released')]> conns)
      end
  end.

Definition holding (caller : string) (conns : list connection) : Z :=
  Z.of_nat (length (filter (fun cn => cn = (caller, false)) conns)).

Definition slots_ok (per_caller_max : Z) (st : counts * list connection) : Prop :=
  forall caller, default 0 (st.1 !! caller) = holding caller st.2 /\
                 holding caller st.2 <= per_caller_max.

Lemma holding_app caller l1 l2 : holding caller (l1 ++ l2) = holding caller l1 + holding caller l2.
Proof. unfold holding. rewrite filter_app, length_app. lia. Qed.

Lemma holding_cons caller cn l :
  holding caller (cn :: l) = (if decide (cn = (caller, false)) then 1 else 0) + holding caller l.
Proof. unfold holding. rewrite filter_cons. case_decide; cbn [length]; lia. Qed.

Lemma holding_nonneg caller l : 0 <= holding caller l.
Proof. unfold holding. lia. Qed.

Lemma exec_slot_ok m st o : 0 < m -> slots_ok m st -> slots_ok m (exec_slot m st o).
Proof.
  destruct st as [c conns]. intros Hm Hst. destruct o as [caller|n]; cbn [exec_slot].
  - unfold reserve_slot. replace (0 <? m) with true by (symmetry; blia).
    destruct (Z.leb_spec m (default 0 (c !! caller))) as [Hle|Hlt]; [done|].
    intros caller'. destruct (Hst caller') as [H1 H2]. cbn in *.
    rewrite holding_app, holding_cons. change (holding caller' []) with 0.
    destruct (decide (caller = caller')) as [->|Hne].
    + rewrite lookup_insert_eq, decide_True by done. cbn. lia.
    + rewrite lookup_insert_ne, decide_False by congruence. lia.
  - destruct (conns !! n) as [[caller released]|] eqn:Hn; [|done].
    unfold release_slot. replace (m <=? 0) with false by (symmetry; blia).
    pose proof (take_drop_middle _ _ _ Hn) as Hmid.
    destruct released; [by rewrite list_insert_id|].
    intros caller'. cbn [fst snd].
    destruct (Hst caller) as [Hc1 _]. destruct (Hst caller') as [H1 H2]. cbn in *.
    rewrite insert_take_drop by (by eapply lookup_lt_Some).
    rewrite <-Hmid in Hc1, H1, H2. rewrite holding_app, holding_cons in Hc1, H1, H2.
    rewrite holding_app, holding_cons, (decide_False (P := (_, true) = _)) by congruence.
    pose proof (holding_nonneg caller (take n conns)). pose proof (holding_nonneg caller (drop (S n) conns)).
    rewrite decide_True in Hc1 by done.
    destruct (decide (caller = caller')) as [->|Hne].
    + rewrite decide_True in H1, H2 by done.
      destruct (Z.leb_spec (default 0 (c !! caller')) 1).
      * rewrite lookup_delete_eq. cbn. lia.
      * rewrite lookup_insert_eq. cbn. lia.
    + rewrite decide_False in H1, H2 by congruence.
      destruct (_ <=? 1); [rewrite lookup_delete_ne by done|rewrite lookup_insert_ne by done]; lia.
Qed.

(** The concurrent-stream cap. Whatever the order of connections and of
    (repeated) releases, the counter of a caller is the number of its
    connections that have not released their slot, and never exceeds the
    cap: no release is lost and none is counted twice. *)
Theorem caller_slots_exact per_caller_max ops :
  0 < per_caller_max ->
  let '(c, conns) := foldl (exec_slot per_caller_max) (∅, []) ops in
  forall caller, default 0 (c !! caller) = holding caller conns /\
                 holding caller conns <= per_caller_max.
Proof.
  intros Hm. assert (slots_ok per_caller_max (∅, [])) as H0.
  { intros caller. cbn. rewrite lookup_empty. unfold holding. cbn. lia. }
  assert (forall st, slots_ok per_caller_max st -> slots_ok per_caller_max (foldl (exec_slot per_caller_max) st ops)) as Hall.
  { induction ops as [|o ops IH]; intros st Hst; [done|]. cbn. auto using exec_slot_ok. }
  specialize (Hall _ H0). by destruct (foldl _ _ _).
Qed.

(** ** Witnesses and examples *)

Definition hash0 (s : string) : string := "0123456789abcdef".
Definition w_open : world :=
  (get_session_stream hash0 2 4 4 empty_world "s1" VNone true "t0" 100).2.
Definition w_sub : world :=
  let s := new_session_stream hash0 "s1" 4 4 VNone 100 in
  mk_world (registry w_open) (<[0%nat := (subscribe s ∅ 0).1]> (streams w_open)) (subscribe s ∅ 0).2 1 1.

Lemma w_open_reachable : rtc (wstep hash0 2 4 4) empty_world w_open.
Proof. apply rtc_once, step_get. Defined.

Lemma w_sub_reachable : rtc (wstep hash0 2 4 4) empty_world w_sub.
Proof.
  eapply rtc_r; [exact w_open_reachable|].
  apply (step_subscribe hash0 2 4 4 w_open "s1" 0%nat (new_session_stream hash0 "s1" 4 4 VNone 100)).
  - by apply list_elem_of_singleton.
  - reflexivity.
Defined.


Lemma sweep_drops_exactly_idle_witness :
  registry (sweep_idle_streams w_open 60 "t" 200).2 = [] /\
  (sweep_idle_streams w_open 60 "t" 200).1 = 1.
Proof.
  pose proof (sweep_drops_exactly_idle hash0 2 4 4 w_open 60 "t" 200 eq_refl w_open_reachable) as H.
  destruct (sweep_idle_streams w_open 60 "t" 200) as [n w'] eqn:E. destruct H as (H1 & H2 & _).
  cbn in H1. cbn [fst snd]. split; [rewrite H1; reflexivity|]. rewrite H2. unfold registry_size.
  rewrite H1. reflexivity.
Defined.

Lemma keepalive_ends_connection_witness :
  (body_turn (body_turn w_sub 0 0 true 120).2 0 0 true 121).1 = Some FEnd.
Proof.
  eapply (keepalive_ends_connection hash0 2 4 4 w_sub 0 0 (new_subscriber 4) 120 _ _ true 121 eq_refl
           w_sub_reachable eq_refl eq_refl eq_refl). apply rtc_refl.
Defined.

Lemma caller_slots_exact_witness :
  default 0 ((foldl (exec_slot 2) (∅, []) [Connect "a"; Connect "a"; Connect "a"; Release 0; Release 0]).1 !! "a")
  = 1.
Proof.
  pose proof (caller_slots_exact 2 [Connect "a"; Connect "a"; Connect "a"; Release 0; Release 0] eq_refl) as H.
  cbn [foldl] in H |- *. destruct (exec_slot _ _ _) as [c conns] eqn:E. cbn [fst].
  rewrite (proj1 (H "a")). replace conns with (c, conns).2 by done. rewrite <-E. vm_compute. reflexivity.
Defined.

(** A connection computes its replay before its body subscribes: what is
    published in between is neither replayed nor delivered. *)
Example replay_gap :
  let s := new_session_stream hash0 "s1" 4 4 VNone 100 in
  let chunk n s h := publish_chunk s h "user" n "text" true "t" 101 in
  let '(_, (s, h)) := chunk 0 s ∅ in
  let replayed := replay_from s (Some "0") in
  let '(_, (s, h)) := chunk 1 s h in
  let '(s, h) := subscribe s h 0 in
  let '(_, (s, h)) := chunk 2 s h in
  e_id <$> replayed = ["1"] /\
  match h !! 0%nat with
  | Some sub => e_id <$> envelopes_of (q_items (sub_queue sub)) = ["3"]
  | None => False
  end.
Proof. vm_compute. split; reflexivity. Qed.
