(* ===== verification/Bus.v ===== *)
(** * The message bus (harness/bus.py, bus_worker in harness/main.py)

    Producers enqueue messages with [send] or [try_send]; one worker receives
    them, processes them and releases the dedup slot of their kind.  [send]
    spans several suspension points, so a producer is in one of two phases
    (waiting in [queue.put], waiting for the result); [bstep] interleaves the
    producers and the worker.  The second part is the hook-decision channel:
    listeners, the bounded queue and its dispatcher. *)
From S2P Require Import Prelude PyStr PyVal AsyncQueue Broadcast EventSchema EventStream.

(** ** Messages and the bus *)

(** The state of a message's [result]. *)
Inductive future : Type := FUnset | FPending | FResult | FException | FCancelled.

#[export] Instance future_eq_dec : EqDecision future.
Proof. solve_decision. Defined.

Definition future_done (f : future) : bool :=
  match f with FResult | FException | FCancelled => true | _ => false end.

(** A message object: its identity and its kind. *)
Record message : Type := mk_message { msg_id : nat; kind : string }.

Record bus : Type := mk_bus {
  bus_queue : queue message;
  pending_kinds : gset string;
  results : gmap nat future
}.

Definition new_bus (max_depth : Z) : bus := mk_bus (new_queue max_depth) ∅ ∅.

Definition result_of (b : bus) (m : message) : future := default FUnset (results b !! msg_id m).

(** [if message.result is None or message.result.done(): create_future()] *)
Definition mint_future (b : bus) (m : message) : bus :=
  match result_of b m with
  | FPending => b
  | _ => mk_bus (bus_queue b) (pending_kinds b) (<[msg_id m := FPending]> (results b))
  end.

Definition add_kind (b : bus) (k : string) : bus :=
  mk_bus (bus_queue b) (pending_kinds b ∪ {[k]}) (results b).

(** [self._pending_kinds.discard(kind)]: also [release_pending]. *)
Definition release_pending (b : bus) (k : string) : bus :=
  mk_bus (bus_queue b) (pending_kinds b ∖ {[k]}) (results b).

Definition set_queue (b : bus) (q : queue message) : bus := mk_bus q (pending_kinds b) (results b).

Definition set_result (b : bus) (m : message) (f : future) : bus :=
  mk_bus (bus_queue b) (pending_kinds b) (<[msg_id m := f]> (results b)).

Definition try_send (b : bus) (m : message) : bool * bus :=
  if decide (kind m ∈ pending_kinds b) then (false, b)
  else
    let b := add_kind (mint_future b m) (kind m) in
    match put_nowait (bus_queue b) m with
    | None => (false, release_pending b (kind m))
    | Some q => (true, set_queue b q)
    end.

(** *** The phases of [send] *)

(** Up to [await wait_for(queue.put(message))]. *)
Definition send_begin (b : bus) (m : message) : bus := add_kind (mint_future b m) (kind m).

(** The put succeeds: the producer goes on to [await message.result]. *)
Definition send_put (b : bus) (m : message) : option bus := set_queue b <$> put_nowait (bus_queue b) m.

(** The [except BaseException] branch: a put that timed out, a cancellation
    in either phase, or a result that is an exception. *)
Definition send_fail (b : bus) (m : message) : bus := release_pending b (kind m).

(** A cancelled [await message.result] cancels the future. *)
Definition send_cancel_result (b : bus) (m : message) : bus :=
  send_fail (if future_done (result_of b m) then b else set_result b m FCancelled) m.

Definition receive (b : bus) : option (message * bus) :=
  '(m, q) ← get_nowait (bus_queue b); Some (m, set_queue b q).

(** The [finally] clause of the worker, after [process_bus] has set a result,
    an exception, or nothing. *)
Definition worker_finish (b : bus) (m : message) (outcome : future) : bus :=
  let b := if future_done (result_of b m) then b else set_result b m outcome in
  let b := if future_done (result_of b m) then b else set_result b m FCancelled in
  release_pending b (kind m).

(** *** Interleaving *)

Inductive phase : Type := Putting | Awaiting.

Record system : Type := mk_system {
  s_bus : bus;
  s_senders : list (phase * message);
  s_current : option message
}.

Inductive bstep : system -> system -> Prop :=
| step_try_send b ss cur m :
    bstep (mk_system b ss cur) (mk_system (try_send b m).2 ss cur)
| step_send_begin b ss cur m :
    bstep (mk_system b ss cur) (mk_system (send_begin b m) (ss ++ [(Putting, m)]) cur)
| step_send_put b l1 m l2 cur b' :
    send_put b m = Some b' ->
    bstep (mk_system b (l1 ++ (Putting, m) :: l2) cur) (mk_system b' (l1 ++ (Awaiting, m) :: l2) cur)
| step_send_put_fail b l1 m l2 cur :
    (** timeout on a full queue, or cancellation *)
    bstep (mk_system b (l1 ++ (Putting, m) :: l2) cur) (mk_system (send_fail b m) (l1 ++ l2) cur)
| step_send_returns b l1 m l2 cur :
    result_of b m = FResult ->
    bstep (mk_system b (l1 ++ (Awaiting, m) :: l2) cur) (mk_system b (l1 ++ l2) cur)
| step_send_raises b l1 m l2 cur :
    result_of b m = FException \/ result_of b m = FCancelled ->
    bstep (mk_system b (l1 ++ (Awaiting, m) :: l2) cur) (mk_system (send_fail b m) (l1 ++ l2) cur)
| step_send_cancelled b l1 m l2 cur :
    bstep (mk_system b (l1 ++ (Awaiting, m) :: l2) cur)
      (mk_system (send_cancel_result b m) (l1 ++ l2) cur)
| step_receive b ss m b' :
    receive b = Some (m, b') -> bstep (mk_system b ss None) (mk_system b' ss (Some m))
| step_finish b ss m outcome :
    bstep (mk_system b ss (Some m)) (mk_system (worker_finish b m outcome) ss None).

Definition initial (max_depth : Z) : system := mk_system (new_bus max_depth) [] None.

(** ** The dedup slot *)

(** The messages queued or being processed. *)
Definition in_flight (s : system) : list message :=
  q_items (bus_queue (s_bus s)) ++ match s_current s with Some m => [m] | None => [] end.

Definition of_kind (k : string) (ms : list message) : list message :=
  filter (fun m => kind m = k) ms.

(** Nobody uses [send] for kind [k]. *)
Definition only_try_send (k : string) (s : system) : Prop :=
  Forall (fun pm => kind pm.2 <> k) (s_senders s).

Lemma mint_future_queue b m : bus_queue (mint_future b m) = bus_queue b.
Proof. unfold mint_future. by destruct (result_of b m). Qed.
Lemma mint_future_kinds b m : pending_kinds (mint_future b m) = pending_kinds b.
Proof. unfold mint_future. by destruct (result_of b m). Qed.

Lemma worker_finish_queue b m o : bus_queue (worker_finish b m o) = bus_queue b.
Proof. unfold worker_finish. by repeat case_match. Qed.
Lemma worker_finish_kinds b m o : pending_kinds (worker_finish b m o) = pending_kinds b ∖ {[kind m]}.
Proof. unfold worker_finish. by repeat case_match. Qed.
Lemma send_cancel_queue b m : bus_queue (send_cancel_result b m) = bus_queue b.
Proof. unfold send_cancel_result. by case_match. Qed.
Lemma send_cancel_kinds b m : pending_kinds (send_cancel_result b m) = pending_kinds b ∖ {[kind m]}.
Proof. unfold send_cancel_result. by case_match. Qed.

Create Rewrite HintDb bus.
#[local] Hint Rewrite mint_future_queue mint_future_kinds worker_finish_queue worker_finish_kinds
  send_cancel_queue send_cancel_kinds : bus.

(** The outcomes of [try_send]. *)
Lemma try_send_cases b m :
  (try_send b m).1 = true /\ (kind m ∉ pending_kinds b) /\ q_full (bus_queue b) = false /\
    q_items (bus_queue (try_send b m).2) = q_items (bus_queue b) ++ [m] /\
    pending_kinds (try_send b m).2 = pending_kinds b ∪ {[kind m]} \/
  (try_send b m).1 = false /\ (kind m ∈ pending_kinds b \/ q_full (bus_queue b) = true) /\
    bus_queue (try_send b m).2 = bus_queue b /\ pending_kinds (try_send b m).2 = pending_kinds b.
Proof.
  unfold try_send. case_decide as Hk; [right; eauto|].
  change (bus_queue (add_kind ?b ?k)) with (bus_queue b). rewrite mint_future_queue.
  destruct (put_nowait (bus_queue b) m) as [q|] eqn:Hq.
  - apply put_nowait_Some in Hq as [Hf ->]. left. cbn. by rewrite mint_future_kinds.
  - apply put_nowait_None in Hq. right. cbn. rewrite mint_future_queue, mint_future_kinds.
    split_and!; [done|by right|done|set_solver].
Qed.

Lemma of_kind_app k l1 l2 : of_kind k (l1 ++ l2) = of_kind k l1 ++ of_kind k l2.
Proof. apply filter_app. Qed.

Lemma of_kind_one k m : of_kind k [m] = if decide (kind m = k) then [m] else [].
Proof. unfold of_kind. by rewrite filter_cons. Qed.

Lemma receive_Some b m b' :
  receive b = Some (m, b') ->
  exists q, q_items (bus_queue b) = m :: q /\ q_items (bus_queue b') = q /\
            pending_kinds b' = pending_kinds b.
Proof.
  unfold receive, get_nowait. destruct (q_items (bus_queue b)) as [|x q] eqn:Hq; cbn; [done|].
  intros [= <- <-]. exists q. done.
Qed.

Lemma send_put_Some b m b' :
  send_put b m = Some b' ->
  q_items (bus_queue b') = q_items (bus_queue b) ++ [m] /\ pending_kinds b' = pending_kinds b.
Proof. unfold send_put. intros (q & [_ ->]%put_nowait_Some & ->)%fmap_Some. done. Qed.

(** The slot of [k] is taken exactly when one message of kind [k] is in
    flight. *)
Definition slot_exact (k : string) (s : system) : Prop :=
  length (of_kind k (in_flight s)) = if decide (k ∈ pending_kinds (s_bus s)) then 1%nat else 0%nat.

Ltac bus_simp := unfold in_flight in *; cbn [s_bus s_senders s_current] in *;
  autorewrite with bus in *; rewrite ?of_kind_app, ?of_kind_one, ?length_app in *.

Lemma decide_difference k k' (X : gset string) {A} (x y : A) :
  k <> k' -> (if decide (k ∈ X ∖ {[k']}) then x else y) = if decide (k ∈ X) then x else y.
Proof. intros. repeat case_decide; set_solver. Qed.

Lemma decide_union k k' (X : gset string) {A} (x y : A) :
  k <> k' -> (if decide (k ∈ X ∪ {[k']}) then x else y) = if decide (k ∈ X) then x else y.
Proof. intros. repeat case_decide; set_solver. Qed.

Lemma bstep_slot_exact k s s' :
  bstep s s' -> only_try_send k s -> only_try_send k s' -> slot_exact k s -> slot_exact k s'.
Proof.
  unfold slot_exact, only_try_send.
  destruct 1 as [b ss cur m|b ss cur m|b l1 m l2 cur b' Hp|b l1 m l2 cur|b l1 m l2 cur Hr
    |b l1 m l2 cur Hr|b l1 m l2 cur|b ss m b' Hr|b ss m o]; bus_simp;
    rewrite ?Forall_app, ?Forall_cons; intros Hs Hs' Hk; destruct_and?; cbn [snd] in *.
  - destruct (try_send_cases b m) as [(_ & Hn & _ & Hq & Hp)|(_ & _ & Hq & Hp)].
    + rewrite Hq, Hp, of_kind_app, of_kind_one, length_app in *.
      destruct (decide (kind m = k)) as [<-|Hne].
      * rewrite decide_False in Hk by done. rewrite decide_True by set_solver. cbn [length]. lia.
      * rewrite decide_union by done. cbn [length]. lia.
    + by rewrite Hq, Hp.
  - unfold send_begin. cbn. rewrite mint_future_queue, mint_future_kinds, Hk.
    repeat case_decide; set_solver.
  - destruct (send_put_Some _ _ _ Hp) as [-> ->]. rewrite of_kind_app, of_kind_one, length_app.
    rewrite decide_False by done. cbn. lia.
  - cbn. rewrite decide_difference; congruence.
  - done.
  - cbn. rewrite decide_difference; congruence.
  - rewrite decide_difference; congruence.
  - destruct (receive_Some _ _ _ Hr) as (q & Hq & Hq' & ->). rewrite Hq in Hk. rewrite Hq'.
    change (m :: q) with ([m] ++ q) in Hk. rewrite of_kind_app, of_kind_one, length_app in Hk.
    cbn [length of_kind filter] in *. unfold of_kind in *. cbn in Hk. lia.
  - cbn. change (of_kind k []) with (@nil message). cbn.
    destruct (decide (kind m = k)) as [<-|Hne].
    + rewrite decide_False by set_solver. cbn in Hk. case_decide; lia.
    + rewrite decide_difference by done. cbn in Hk. lia.
Qed.

(** At most one heartbeat in flight. In any interleaving in which a kind
    is only ever enqueued with [try_send], at most one message of that kind
    is queued or being processed, and its dedup slot is taken exactly while
    there is one: no second firing overlaps the first, and none is refused
    when nothing is in flight. *)
Theorem try_send_at_most_one k depth s :
  rtc (fun s1 s2 => bstep s1 s2 /\ only_try_send k s2) (initial depth) s ->
  (length (of_kind k (in_flight s)) <= 1)%nat /\
  (k ∈ pending_kinds (s_bus s) <-> length (of_kind k (in_flight s)) = 1%nat).
Proof.
  intros Hr. enough (slot_exact k s /\ only_try_send k s) as [Hs _].
  { unfold slot_exact in Hs. rewrite Hs. case_decide; split; try lia; by split. }
  assert (slot_exact k (initial depth) /\ only_try_send k (initial depth)) as H0.
  { split; [|constructor]. unfold slot_exact. cbn. by rewrite decide_False by set_solver. }
  revert H0. induction Hr as [|s1 s2 s3 [Hstep Hk] _ IH]; [done|].
  intros [Hs1 Hk1]. apply IH. split; [by eapply bstep_slot_exact|done].
Qed.

(** What holds the slot of kind [k]: a message in flight, or a [send] that
    has not put its message yet. *)
Definition slot_held (k : string) (s : system) : Prop :=
  (exists m, m ∈ in_flight s /\ kind m = k) \/
  (exists m, (Putting, m) ∈ s_senders s /\ kind m = k).

Definition no_leak (s : system) : Prop := forall k, k ∈ pending_kinds (s_bus s) -> slot_held k s.

Lemma bstep_no_leak s s' : bstep s s' -> no_leak s -> no_leak s'.
Proof.
  intros Hstep Hs k Hk. specialize (Hs k).
  destruct Hstep as [b ss cur m|b ss cur m|b l1 m l2 cur b' Hp|b l1 m l2 cur|b l1 m l2 cur Hr
    |b l1 m l2 cur Hr|b l1 m l2 cur|b ss m b' Hr|b ss m o];
    unfold slot_held, in_flight in *; cbn [s_bus s_senders s_current] in *.
  - destruct (try_send_cases b m) as [(_ & _ & _ & Hq & Hp)|(_ & _ & Hq & Hp)]; rewrite Hp in Hk; rewrite Hq; [|auto].
    apply elem_of_union in Hk as [Hk| ->%elem_of_singleton].
    + destruct (Hs Hk) as [(m' & ? & ?)|?]; [left; exists m'; set_solver|auto].
    + left. exists m. set_solver.
  - unfold send_begin in *. cbn in *. rewrite mint_future_queue. rewrite mint_future_kinds in Hk.
    apply elem_of_union in Hk as [Hk| ->%elem_of_singleton].
    + destruct (Hs Hk) as [?|(m' & ? & ?)]; [auto|right; exists m'; set_solver].
    + right. exists m. set_solver.
  - destruct (send_put_Some _ _ _ Hp) as [-> E]. rewrite E in Hk.
    destruct (Hs Hk) as [(m' & ? & ?)|(m' & Hin & Hm)]; [left; exists m'; set_solver|].
    apply elem_of_app in Hin as [Hin|[[= ->]|Hin]%elem_of_cons]; [right|left|right].
    + exists m'. set_solver.
    + exists m. set_solver.
    + exists m'. set_solver.
  - cbn in *. apply elem_of_difference in Hk as [Hk Hne].
    destruct (Hs Hk) as [?|(m' & Hin & Hm)]; [auto|]. right. exists m'. split; [|done].
    apply elem_of_app in Hin as [Hin|[[= ->]|Hin]%elem_of_cons]; set_solver.
  - destruct (Hs Hk) as [?|(m' & Hin & Hm)]; [auto|]. right. exists m'. split; [|done].
    apply elem_of_app in Hin as [Hin|[?|Hin]%elem_of_cons]; [set_solver|done|set_solver].
  - cbn in *. apply elem_of_difference in Hk as [Hk Hne].
    destruct (Hs Hk) as [?|(m' & Hin & Hm)]; [auto|]. right. exists m'. split; [|done].
    apply elem_of_app in Hin as [Hin|[?|Hin]%elem_of_cons]; [set_solver|done|set_solver].
  - rewrite send_cancel_queue. rewrite send_cancel_kinds in Hk.
    apply elem_of_difference in Hk as [Hk Hne].
    destruct (Hs Hk) as [?|(m' & Hin & Hm)]; [auto|]. right. exists m'. split; [|done].
    apply elem_of_app in Hin as [Hin|[?|Hin]%elem_of_cons]; [set_solver|done|set_solver].
  - destruct (receive_Some _ _ _ Hr) as (q & Hq & Hq' & E). rewrite E in Hk. rewrite Hq'.
    rewrite Hq in Hs. destruct (Hs Hk) as [(m' & ? & ?)|?]; [left; exists m'; set_solver|auto].
  - rewrite worker_finish_queue. rewrite worker_finish_kinds in Hk.
    apply elem_of_difference in Hk as [Hk Hne].
    destruct (Hs Hk) as [(m' & Hin & Hm)|?]; [left; exists m'; set_solver|auto].
Qed.

(** C4: no dedup slot is leaked. In any interleaving of [send], [try_send],
    timeouts, cancellations and the worker, whatever the outcome of each
    message, a kind stays pending only while a message of that kind is
    queued, is being processed or is waiting to be put: a failed message
    cannot starve the later ones. *)
Theorem dedup_slot_never_leaks depth s k :
  rtc bstep (initial depth) s -> k ∈ pending_kinds (s_bus s) -> slot_held k s.
Proof.
  intros Hr. enough (no_leak s) by auto.
  assert (no_leak (initial depth)) as H0 by (intros k' Hk; set_solver).
  revert H0. induction Hr; eauto using bstep_no_leak.
Qed.

(** The slot is not exact for a kind that is also used with [send]: the
    failure of one [send] frees the slot while another message of the kind is
    still queued, and [try_send] then accepts a second one. *)
Example send_failure_frees_the_slot_of_another :
  let m1 := mk_message 1 "k" in let m2 := mk_message 2 "k" in let m3 := mk_message 3 "k" in
  let b := (try_send (new_bus 10) m1).2 in
  let b := send_fail (send_begin b m2) m2 in
  (try_send b m3).1 = true /\ q_items (bus_queue (try_send b m3).2) = [m1; m3].
Proof. vm_compute. by split. Qed.

(** ** Hook-decision listeners

    A callable has an identity ([id(listener)]) and an equality class: the
    two agree for functions, while two reads of a bound method are equal
    objects with different identities.  Calling a listener returns or raises;
    a raise is counted and goes no further. *)
Record listener : Type := mk_listener { l_id : Z; l_eq : Z }.

Record hook_event : Type := mk_hook_event {
  h_agent : string;
  h_session_id : string;
  h_tool : string;
  h_decision : string;
  h_rule_name : string;
  h_reason : string;
  h_source : string;
  h_traceparent : option string
}.

Record hooks : Type := mk_hooks {
  h_listeners : list listener;
  h_listener_ids : gset Z;
  h_dup_rejects : Z;
  h_queue : option (queue hook_event);
  h_dropped : Z;
  h_errors : Z
}.

Definition new_hooks : hooks := mk_hooks [] ∅ 0 None 0 0.

Definition subscribe_hook_decision (s : hooks) (l : listener) : hooks :=
  if decide (l_id l ∈ h_listener_ids s)
  then mk_hooks (h_listeners s) (h_listener_ids s) (h_dup_rejects s + 1) (h_queue s) (h_dropped s) (h_errors s)
  else mk_hooks (h_listeners s ++ [l]) (h_listener_ids s ∪ {[l_id l]}) (h_dup_rejects s) (h_queue s)
         (h_dropped s) (h_errors s).

(** [list.remove]: the first equal element, if any. *)
Fixpoint list_remove (l : listener) (ls : list listener) : list listener :=
  match ls with
  | [] => []
  | l' :: ls' => if l_eq l' =? l_eq l then ls' else l' :: list_remove l ls'
  end.

Definition unsubscribe_hook_decision (s : hooks) (l : listener) : hooks :=
  mk_hooks (list_remove l (h_listeners s)) (h_listener_ids s ∖ {[l_id l]}) (h_dup_rejects s)
    (h_queue s) (h_dropped s) (h_errors s).

Definition HOOK_DECISION_QUEUE_MAX : Z := 1024.

Definition start_hook_decision_dispatcher (s : hooks) : hooks :=
  mk_hooks (h_listeners s) (h_listener_ids s) (h_dup_rejects s)
    (Some (new_queue HOOK_DECISION_QUEUE_MAX)) (h_dropped s) (h_errors s).

(** The calls made, in order. *)
Definition calls : Type := list (listener * hook_event).

Section Dispatch.
(** [raises l e]: the listener's body raises on the event. *)
Variable raises : listener -> hook_event -> bool.

Fixpoint fan_out (ls : list listener) (e : hook_event) : calls * Z :=
  match ls with
  | [] => ([], 0)
  | l :: ls' =>
      let '(cs, errors) := fan_out ls' e in
      ((l, e) :: cs, if raises l e then errors + 1 else errors)
  end.

Definition add_errors (s : hooks) (n : Z) : hooks :=
  mk_hooks (h_listeners s) (h_listener_ids s) (h_dup_rejects s) (h_queue s) (h_dropped s) (h_errors s + n).

Definition publish_hook_decision (s : hooks) (e : hook_event) : calls * hooks :=
  match h_queue s with
  | Some q =>
      match put_nowait q e with
      | Some q' => ([], mk_hooks (h_listeners s) (h_listener_ids s) (h_dup_rejects s) (Some q')
                          (h_dropped s) (h_errors s))
      | None => ([], mk_hooks (h_listeners s) (h_listener_ids s) (h_dup_rejects s) (Some q)
                       (h_dropped s + 1) (h_errors s))
      end
  | None =>
      let '(cs, errors) := fan_out (h_listeners s) e in (cs, add_errors s errors)
  end.

(** One turn of the dispatcher: [None] when it waits in [q.get()]. *)
Definition dispatch_one (s : hooks) : option (calls * hooks) :=
  q ← h_queue s;
  '(e, q') ← get_nowait q;
  let '(cs, errors) := fan_out (h_listeners s) e in
  Some (cs, add_errors (mk_hooks (h_listeners s) (h_listener_ids s) (h_dup_rejects s) (Some q')
                          (h_dropped s) (h_errors s)) errors).

Lemma fan_out_calls ls e : (fan_out ls e).1 = (fun l => (l, e)) <$> ls.
Proof.
  induction ls as [|l ls IH]; [done|]. cbn. destruct (fan_out ls e) as [cs n]. cbn in *. by f_equal.
Qed.

(** What happens on the channel once the dispatcher runs. *)
Inductive hook_op : Type :=
| HPublish (e : hook_event)
| HDispatch
| HSubscribe (l : listener)
| HUnsubscribe (l : listener).

Definition exec_hook (st : calls * hooks) (o : hook_op) : calls * hooks :=
  let '(log, s) := st in
  match o with
  | HPublish e => let '(cs, s') := publish_hook_decision s e in (log ++ cs, s')
  | HDispatch => match dispatch_one s with
                 | None => (log, s)
                 | Some (cs, s') => (log ++ cs, s')
                 end
  | HSubscribe l => (log, subscribe_hook_decision s l)
  | HUnsubscribe l => (log, unsubscribe_hook_decision s l)
  end.

Definition published (ops : list hook_op) : list hook_event :=
  omap (fun o => match o with HPublish e => Some e | _ => None end) ops.

(** [HPublish] and [HDispatch] only. *)
Definition no_registration (ops : list hook_op) : Prop :=
  Forall (fun o => match o with HPublish _ | HDispatch => True | _ => False end) ops.

(** The events waiting in the dispatcher's queue. *)
Definition queued (s : hooks) : list hook_event :=
  match h_queue s with Some q => q_items q | None => [] end.

(** Every listener called once for every event, in order. *)
Definition calls_for (ls : list listener) (es : list hook_event) : calls :=
  es ≫= fun e => (fun l => (l, e)) <$> ls.

(** [ps]: what has been published; the running dispatcher has delivered a
    prefix of what was accepted. *)
Definition channel_ok (ls : list listener) (ps : list hook_event) (st : calls * hooks) : Prop :=
  h_listeners st.2 = ls /\
  (exists q, h_queue st.2 = Some q /\ q_maxsize q = HOOK_DECISION_QUEUE_MAX /\ q_wf q) /\
  exists delivered, st.1 = calls_for ls delivered /\
    delivered ++ queued st.2 `sublist_of` ps /\
    Z.of_nat (length ps) = Z.of_nat (length delivered) + Z.of_nat (length (queued st.2)) + h_dropped st.2.

Lemma calls_for_snoc ls es e : calls_for ls (es ++ [e]) = calls_for ls es ++ ((fun l => (l, e)) <$> ls).
Proof. unfold calls_for. rewrite bind_app. cbn. by rewrite app_nil_r. Qed.

Lemma exec_publish_ok ls ps st e :
  channel_ok ls ps st -> channel_ok ls (ps ++ [e]) (exec_hook st (HPublish e)).
Proof.
  destruct st as [log s]. intros (Hl & (q & Hq & Hm & Hw) & d & Hlog & Hsub & Hlen). cbn [fst snd] in *.
  cbn. unfold publish_hook_decision. rewrite Hq. unfold queued in *. rewrite Hq in Hsub, Hlen.
  destruct (put_nowait q e) as [q'|] eqn:Hput; cbn.
  - pose proof (put_nowait_wf _ _ _ Hput). apply put_nowait_Some in Hput as [_ ->].
    split_and!; [done|by eexists|]. exists d. cbn. split_and!.
    + by rewrite app_nil_r.
    + rewrite app_assoc. by apply sublist_app.
    + rewrite !length_app. cbn. lia.
  - split_and!; [done|by eexists|]. exists d. cbn. split_and!.
    + by rewrite app_nil_r.
    + by apply sublist_inserts_r.
    + rewrite length_app. cbn. lia.
Qed.

Lemma exec_dispatch_ok ls ps st : channel_ok ls ps st -> channel_ok ls ps (exec_hook st HDispatch).
Proof.
  destruct st as [log s]. intros (Hl & (q & Hq & Hm & Hw) & d & Hlog & Hsub & Hlen). cbn [fst snd] in *.
  cbn [exec_hook]. unfold dispatch_one. rewrite Hq. cbn.
  destruct (get_nowait q) as [[e q']|] eqn:Hget; cbn.
  2:{ split_and!; [done|by eexists|]. by exists d. }
  pose proof (get_nowait_wf _ _ _ Hw Hget) as Hw'. unfold get_nowait in Hget.
  destruct (q_items q) as [|x l] eqn:Hitems; [done|]. injection Hget as <- <-.
  pose proof (fan_out_calls (h_listeners s) x) as Hc. destruct (fan_out (h_listeners s) x) as [cs n].
  cbn in Hc. subst cs. unfold queued in *. rewrite Hq, Hitems in Hsub, Hlen. cbn.
  split_and!; [done|by eexists|]. exists (d ++ [x]). cbn. split_and!.
  - rewrite calls_for_snoc. by rewrite Hlog, Hl.
  - by rewrite <-app_assoc.
  - rewrite length_app. cbn in *. lia.
Qed.

(** Delivery on the hook-decision channel. While the dispatcher runs,
    every accepted event is delivered to every listener exactly once, in the
    order of publication, whichever listeners raise; and the published events
    are accounted for: delivered, queued (at most 1024) or counted as
    dropped. *)
Theorem hook_channel_accounts s ops :
  let s0 := start_hook_decision_dispatcher s in
  no_registration ops -> h_dropped s = 0 ->
  let '(log, s') := foldl exec_hook ([], s0) ops in
  exists delivered, log = calls_for (h_listeners s) delivered /\
    delivered ++ queued s' `sublist_of` published ops /\
    Z.of_nat (length (queued s')) <= HOOK_DECISION_QUEUE_MAX /\
    Z.of_nat (length (published ops))
      = Z.of_nat (length delivered) + Z.of_nat (length (queued s')) + h_dropped s'.
Proof.
  intros s0 Hops Hd. enough (channel_ok (h_listeners s) (published ops) (foldl exec_hook ([], s0) ops)) as Hok.
  { destruct (foldl exec_hook ([], s0) ops) as [log s'].
    destruct Hok as (_ & (q & Hq & Hm & Hw) & d & ? & ? & ?). exists d. split_and!; try done.
    unfold queued. cbn in Hq. rewrite Hq. unfold q_wf, qsize in Hw. rewrite Hm in Hw. by apply Hw. }
  assert (channel_ok (h_listeners s) [] ([], s0)) as H0.
  { split_and!; [done| |].
    - eexists. split_and!; [done|done|]. unfold q_wf, qsize. cbn. lia.
    - exists []. cbn. by rewrite Hd. }
  change (published ops) with ([] ++ published ops). revert H0. generalize (@nil hook_event) as ps.
  generalize (@nil (listener * hook_event), s0) as st.
  induction Hops as [|o ops Ho Hops IH]; intros st ps Hst; cbn [foldl]; [by rewrite app_nil_r|].
  destruct o as [e| | |]; try done.
  - assert (published (HPublish e :: ops) = [e] ++ published ops) as -> by done. rewrite app_assoc.
    apply IH. by apply exec_publish_ok.
  - apply IH. by apply exec_dispatch_ok.
Qed.
End Dispatch.

(** *** The two views of the registered listeners *)

(** Identity and equality agree, as they do for functions. *)
Definition functions (ls : list listener) : Prop :=
  forall l l', l ∈ ls -> l' ∈ ls -> l_id l = l_id l' <-> l_eq l = l_eq l'.

Definition ids_agree (s : hooks) : Prop :=
  NoDup (l_id <$> h_listeners s) /\ h_listener_ids s = list_to_set (l_id <$> h_listeners s).

Lemma list_remove_ids l ls :
  functions (l :: ls) -> NoDup (l_id <$> ls) ->
  l_id <$> list_remove l ls = filter (fun i => i <> l_id l) (l_id <$> ls).
Proof.
  induction ls as [|l' ls IH]; intros Hf Hnd; [done|]. cbn [list_remove fmap list_fmap] in *.
  apply NoDup_cons in Hnd as [Hn Hnd]. rewrite filter_cons.
  assert (Heq : l_id l' = l_id l <-> l_eq l' = l_eq l) by (apply Hf; set_solver).
  destruct (Z.eqb_spec (l_eq l') (l_eq l)) as [He|He].
  - rewrite decide_False by tauto. apply Heq in He. symmetry. apply filter_all, Forall_forall.
    intros i Hi ->. by rewrite <-He in Hi.
  - rewrite decide_True by tauto. cbn. f_equal. apply IH; [|done].
    intros x y Hx Hy. apply Hf; set_solver.
Qed.

Lemma unsubscribe_ids_agree s l :
  functions (l :: h_listeners s) -> ids_agree s -> ids_agree (unsubscribe_hook_decision s l).
Proof.
  intros Hf [Hnd Hids]. unfold ids_agree. cbn. rewrite list_remove_ids by done.
  split; [by apply NoDup_filter|]. rewrite Hids. apply set_eq. intros i.
  rewrite elem_of_difference, !elem_of_list_to_set, list_elem_of_filter, elem_of_singleton. tauto.
Qed.

Lemma subscribe_ids_agree s l : ids_agree s -> ids_agree (subscribe_hook_decision s l).
Proof.
  intros [Hnd Hids]. unfold subscribe_hook_decision, ids_agree. case_decide as Hin; cbn; [done|].
  rewrite fmap_app. cbn. split.
  - apply NoDup_app. split_and!; [done| |apply NoDup_singleton].
    intros i Hi ->%list_elem_of_singleton. apply Hin. rewrite Hids. by apply elem_of_list_to_set.
  - rewrite Hids, list_to_set_app_L. cbn. set_solver.
Qed.

(** With bound methods the views part: the unsubscription removes the equal
    listener from the list but leaves its identity behind. *)
Example bound_method_unsubscribe_leaves_id :
  let s := unsubscribe_hook_decision (subscribe_hook_decision new_hooks (mk_listener 1 7)) (mk_listener 2 7) in
  h_listeners s = [] /\ h_listener_ids s = {[1]}.
Proof. vm_compute. by split. Qed.

(** ** Hook decisions on the event stream *)

Section Emit.
Variable sha256_hex : string -> string.

(** The payload [_emit_hook_decision_event_stream] publishes, or [None] when
    it drops the event. *)
Definition hook_decision_payload (e : hook_event) : option pydict :=
  if negb (bool_decide (h_agent e ∈ ["claude"; "openai"; "codex"; "gemini"])) then None
  else if negb (bool_decide (h_decision e ∈ ["allow"; "deny"; "warn"])) then None
  else
    let sid_hash := str_take 12 (sha256_hex (h_session_id e)) in
    Some (mk_dict
      ([("backend", VStr (h_agent e));
        ("session_id_hash", VStr (if decide (sid_hash = "") then "000000000000" else sid_hash));
        ("tool", VStr (h_tool e));
        ("decision", VStr (h_decision e))] ++
       (if decide (h_rule_name e = "") then [] else [("rule_id", VStr (h_rule_name e))]) ++
       (if decide (h_reason e = "") then [] else [("reason", VStr (h_reason e))]))).

(** A failure of the publish is swallowed. *)
Definition emit_hook_decision_event_stream (s : stream) (e : hook_event) (agent_name now : string)
    (now_ov : nat -> string) : stream :=
  match hook_decision_payload e with
  | None => s
  | Some payload => (publish s "hook.decision" payload (VStr agent_name) (VInt 1) now now_ov).2
  end.

Lemma hook_payload_conforms e p :
  hook_decision_payload e = Some p -> validate_hook_decision p = Ok None.
Proof.
  unfold hook_decision_payload. destruct (bool_decide _) eqn:Ha; [|done]. cbn [negb].
  destruct (bool_decide (h_decision e ∈ _)) eqn:Hd; [|done]. cbn [negb].
  apply bool_decide_eq_true in Ha, Hd. intros [= <-].
  pose proof (validators_conform "hook.decision" validate_hook_decision eq_refl) as (fs & Hfs & Hc).
  apply Hc. injection Hfs as <-. unfold conforms. set (hash := if decide _ then _ else _).
  assert (Hhash : hash <> "") by (unfold hash; by case_decide).
  repeat apply Forall_cons_2; [..|apply Forall_nil_2]; cbn [field_ok].
  - exists (VStr (h_agent e)). split; [done|]. eexists. by split.
  - exists (VStr hash). split; [done|]. by exists hash.
  - exists (VStr (h_tool e)). split; [done|]. by eexists.
  - exists (VStr (h_decision e)). split; [done|]. eexists. by split.
  - intros v. cbn. repeat case_decide; cbn; intros [= <-]; by eexists.
  - intros v. cbn. repeat case_decide; cbn; intros [= <-]; by eexists.
Qed.

Lemma hook_payload_accepted e p agent_name now n :
  hook_decision_payload e = Some p -> now <> "" ->
  validate (to_dict (mk_envelope "hook.decision" (VInt 1) (py_str_int n) now (VStr agent_name) p)) = Ok None.
Proof.
  intros Hp%hook_payload_conforms Hnow.
  pose proof (validators_conform "hook.decision" validate_hook_decision eq_refl) as (fs & Hfs & Hc).
  apply (payload_accepted "hook.decision" fs); [done|by apply Hc|done|by right; eexists].
Qed.

(** A hook decision of a known backend and decision always reaches the
    event stream: the payload built from it is accepted by the validator, so
    the stream gains exactly one envelope; any other event leaves the stream
    as it is. *)
Theorem hook_decision_emitted s e agent_name now now_ov :
  now <> "" ->
  let s' := emit_hook_decision_event_stream s e agent_name now now_ov in
  if bool_decide (h_agent e ∈ HOOK_BACKENDS /\ h_decision e ∈ HOOK_DECISIONS)
  then exists env, e_type env = "hook.decision" /\ next_id s' = next_id s + 1 /\
       ring s' = lastn (Z.to_nat (ring_max s)) (ring s ++ [env])
  else s' = s.
Proof.
  intros Hnow. cbn. unfold emit_hook_decision_event_stream.
  destruct (hook_decision_payload e) as [p|] eqn:Hp.
  - pose proof (hook_payload_accepted e p agent_name now (next_id s + 1) Hp Hnow) as Hv.
    unfold hook_decision_payload in Hp.
    destruct (bool_decide (h_agent e ∈ _)) eqn:Ha; [|done].
    destruct (bool_decide (h_decision e ∈ _)) eqn:Hd; [|done].
    apply bool_decide_eq_true in Ha, Hd. rewrite bool_decide_true by done. clear Hp.
    destruct (publish_cases s "hook.decision" p (VStr agent_name) (VInt 1) now now_ov)
      as [(x & Hx & _)|[(err & Hx & _)|(_ & ->)]]; [congruence..|]. cbn [snd].
    set (env := mk_envelope _ _ _ _ _ _).
    pose proof (fanout_log now_ov env (ring_append (with_next_id s (next_id s + 1)) env))
      as (_ & _ & Hr & Hn & _).
    exists env. split_and!; [done|exact Hn|exact Hr].
  - rewrite bool_decide_false; [done|]. intros [Ha Hd]. unfold hook_decision_payload in Hp.
    by rewrite !bool_decide_true in Hp.
Qed.
End Emit.

Lemma hook_decision_emitted_witness :
  let e := mk_hook_event "claude" "s1" "Bash" "deny" "rm" "no" "baseline" None in
  let s' := emit_hook_decision_event_stream (fun _ => "0123456789abcdef") (new_stream 1 5) e "iris" "t" (fun _ => "t") in
  exists env, e_type env = "hook.decision" /\ next_id s' = 0 + 1 /\ ring s' = lastn 5 ([] ++ [env]).
Proof.
  refine (hook_decision_emitted (fun _ => "0123456789abcdef") (new_stream 1 5)
    (mk_hook_event "claude" "s1" "Bash" "deny" "rm" "no" "baseline" None) "iris" "t" (fun _ => "t") _).
  discriminate.
Defined.

Definition hb (n : nat) : message := mk_message n "heartbeat".
Definition one_heartbeat : system := mk_system (try_send (new_bus 2) (hb 1)).2 [] None.

Lemma try_send_at_most_one_witness :
  (length (of_kind "heartbeat" (in_flight one_heartbeat)) <= 1)%nat /\
  ("heartbeat" ∈ pending_kinds (s_bus one_heartbeat) <->
   length (of_kind "heartbeat" (in_flight one_heartbeat)) = 1%nat).
Proof.
  apply (try_send_at_most_one "heartbeat" 2). apply rtc_once.
  split; [apply step_try_send|constructor].
Defined.

Lemma dedup_slot_never_leaks_witness : slot_held "heartbeat" one_heartbeat.
Proof.
  apply (dedup_slot_never_leaks 2).
  - apply rtc_once, step_try_send.
  - vm_compute. reflexivity.
Defined.

Lemma hook_channel_accounts_witness :
  let e := mk_hook_event "claude" "s1" "Bash" "deny" "rm" "no" "baseline" None in
  let s := subscribe_hook_decision new_hooks (mk_listener 1 1) in
  let '(log, s') := foldl (exec_hook (fun _ _ => true)) ([], start_hook_decision_dispatcher s)
                      [HPublish e; HDispatch] in
  exists delivered, log = calls_for [mk_listener 1 1] delivered /\
    delivered ++ queued s' `sublist_of` [e] /\ Z.of_nat (length (queued s')) <= 1024 /\
    1 = Z.of_nat (length delivered) + Z.of_nat (length (queued s')) + h_dropped s'.
Proof.
  refine (hook_channel_accounts (fun _ _ => true) (subscribe_hook_decision new_hooks (mk_listener 1 1))
    [HPublish (mk_hook_event "claude" "s1" "Bash" "deny" "rm" "no" "baseline" None); HDispatch] _ _).
  - by repeat constructor.
  - reflexivity.
Defined.
