(* ===== verification/Utils.v ===== *)
(** * Shared utilities of the harness (harness/utils.py)

    Durations, the consensus field, the frontmatter of a markdown file with
    its size cap, and the bounded cache of file contents.  [yaml.safe_load]
    is a parameter. *)
From Stdlib Require Import Ascii.
From S2P Require Import Prelude PyStr PyVal.

(** ** Durations *)

(** The longest run of digits and what follows. *)
Fixpoint take_digits (s : string) : string * string :=
  match s with
  | String c s' =>
      if is_digit c then let '(d, r) := take_digits s' in (String c d, r) else ("", s)
  | "" => ("", "")
  end.

(** The optional group [(?:(\d+)u)?]: digits up to the unit letter, or
    nothing. *)
Definition unit_group (u : ascii) (s : string) : option string * string :=
  let '(d, r) := take_digits s in
  match r with
  | String c r' => if decide (d <> "" /\ c = u) then (Some d, r') else (None, s)
  | "" => (None, s)
  end.

(** [_DURATION_RE.match]: the three groups, or no match. *)
Definition duration_match (s : string) : option (option string * option string * option string) :=
  let '(h, r) := unit_group "h" s in
  let '(m, r) := unit_group "m" r in
  let '(sec, r) := unit_group "s" r in
  if decide (r = "") then Some (h, m, sec) else None.

(** [int(m.group(i) or 0)] *)
Definition group_int (g : option string) : Z :=
  match g with None => 0 | Some d => default 0 (py_int d) end.

Definition is_group (g : option string) : bool := match g with Some _ => true | None => false end.

Definition parse_duration (value : string) : res Z :=
  match duration_match (str_strip value) with
  | Some (h, m, s) =>
      if is_group h || is_group m || is_group s
      then Ok (group_int h * 3600 + group_int m * 60 + group_int s)
      else Raise ValueError
  | None => Raise ValueError
  end.

(** ** The consensus field *)

Record consensus_entry : Type := mk_consensus { c_backend : string; c_model : option string }.

(** One item of the list: an object with a truthy backend. *)
Definition consensus_item (v : pyval) : option consensus_entry :=
  match v with
  | VDict d =>
      if truthy (dict_get_none d "backend")
      then Some (mk_consensus (py_str (dict_get_none d "backend"))
                   (if truthy (dict_get_none d "model")
                    then Some (py_str (dict_get_none d "model")) else None))
      else None
  | _ => None
  end.

Definition parse_consensus (value : pyval) : list consensus_entry :=
  match value with
  | VList l => omap consensus_item l
  | _ => []
  end.

(** ** Frontmatter *)

Definition nl : ascii := ascii_of_N 10.

(** What can follow [\s*\n]: the text after each newline of the leading white
    space, the last newline first (the star is greedy). *)
Fixpoint after_blank_lines (s : string) : list string :=
  match s with
  | String c s' =>
      if is_space c
      then after_blank_lines s' ++ (if decide (c = nl) then [s'] else [])
      else []
  | "" => []
  end.

(** The text before and after the first occurrence of [sub]. *)
Fixpoint split_at (sub : string) (s : string) : option (string * string) :=
  if String.prefix sub s then Some ("", str_drop (String.length sub) s)
  else match s with
       | "" => None
       | String c s' => prod_map (String c) id <$> split_at sub s'
       end.

Definition fence : string := String nl "---".

(** [_FRONTMATTER_RE.match]: the two groups. After the closing fence [\s*]
    takes all the white space. *)
Definition frontmatter_match (raw : string) : option (string * string) :=
  if String.prefix "---" raw
  then head (omap (fun s => '(yaml, rest) ← split_at fence s; Some (yaml, lstrip_by is_space rest))
               (after_blank_lines (str_drop 3 raw)))
  else None.

Section Frontmatter.
(** [yaml.safe_load] returns a value or raises. *)
Variable yaml_safe_load : string -> res pyval.
(** [PARSE_FRONTMATTER_MAX_YAML_BYTES]. *)
Variable max_yaml_bytes : Z.

(** The UTF-8 length of text below code point 256. *)
Definition utf8_length (s : string) : Z :=
  foldr (fun c n => (if code c <? 128 then 1 else 2) + n) 0 (String.list_ascii_of_string s).

(** [FrontmatterTooLarge] is a [ValueError]. *)
Definition safe_load_bounded (yaml_text : string) : res pyval :=
  if max_yaml_bytes <? utf8_length yaml_text then Raise ValueError else yaml_safe_load yaml_text.

Definition parse_frontmatter_raw (raw : string) : res (pydict * string) :=
  match frontmatter_match raw with
  | None => Ok ([], raw)
  | Some (yaml, body) =>
      parsed <-- safe_load_bounded yaml ;;
      Ok (match parsed with VDict d => d | _ => [] end, str_strip body)
  end.

(** [str(v) if v is not None else ""] for every value. *)
Definition field_text (v : pyval) : string := match v with VNone => "" | _ => py_str v end.

Definition parse_frontmatter (raw : string) : res (pydict * string) :=
  match frontmatter_match raw with
  | None => Ok ([], raw)
  | Some (yaml, body) =>
      parsed <-- safe_load_bounded yaml ;;
      let d := match parsed with VDict d => d | _ => [] end in
      Ok (prod_map id (fun v => VStr (field_text v)) <$> d, str_strip body)
  end.
End Frontmatter.

(** [fields.get(k)] on the text fields. *)
Definition get_field (fields : pydict) (k : string) : option string :=
  match dict_get fields k with Some (VStr s) => Some s | _ => None end.

(** [fields.get(k) or None] *)
Definition get_nonempty (fields : pydict) (k : string) : option string :=
  match get_field fields k with
  | Some s => if decide (s = "") then None else Some s
  | None => None
  end.

(** ** Fields shared by the definition parsers *)

(** [Path(path).stem] of a file name: the part before the last dot, unless
    the dot leads. *)
Definition stem (p : string) : string :=
  let b := basename p in
  match str_split "." b with
  | [] | [_] => b
  | parts =>
      let s := str_join "." (removelast parts) in
      if decide (s = "" \/ default "" (last parts) = "") then b else s
  end.

(** [str(v).lower() not in (...)] *)
Definition text_flag (falsy : list string) (dflt : bool) (fields : pydict) (k : string) : bool :=
  match get_field fields k with
  | None => dflt
  | Some s => negb (bool_decide (str_lower s ∈ falsy))
  end.

(** [fields.get(a) or fields.get(b)] *)
Definition field_or (fields : pydict) (a b : string) : option string :=
  match get_nonempty fields a with Some s => Some s | None => get_field fields b end.

(** [max(1, int(raw))], the default when [raw] is absent or not an integer. *)
Definition positive_field (raw : option string) (dflt : option Z) : option Z :=
  match raw with
  | None => dflt
  | Some s => match py_int s with Some n => Some (Z.max 1 n) | None => dflt end
  end.

(** ** The cache of markdown files *)

(** What [os.stat] and [open] see at a path: the file's modification time,
    size and text; [None] when it is gone. *)
Record md_file : Type := mk_md_file { f_mtime : Z; f_size : Z; f_text : string }.

Definition md_cache : Type := list (string * (Z * Z * string)).

Definition move_to_end (c : md_cache) (path : string) : md_cache :=
  match od_get c path with
  | None => c
  | Some e => od_pop c path ++ [(path, e)]
  end.

Section Cache.
(** [_MD_CACHE_MAX] and [PARSE_FRONTMATTER_MAX_FILE_BYTES]. *)
Variables cache_max max_file_bytes : Z.

(** [stat_ok = false] is an [OSError] other than [FileNotFoundError]; [opened]
    is the text the later [open] reads, [None] when it raises [OSError]. *)
Definition read_md_bounded (c : md_cache) (path : string) (st : option md_file) (stat_ok : bool)
    (opened : option string) : option string * md_cache :=
  if negb stat_ok then (None, c)
  else match st with
  | None => (None, od_pop c path)
  | Some st =>
      if max_file_bytes <? f_size st then (None, od_pop c path)
      else
        let hit := match od_get c path with
                   | Some (mtime, size, text) =>
                       if (mtime =? f_mtime st) && (size =? f_size st) then Some text else None
                   | None => None
                   end in
        match hit with
        | Some text => (Some text, move_to_end c path)
        | None =>
            match opened with
            | None => (None, c)
            | Some text =>
                let raw := str_take (Z.to_nat (max_file_bytes + 1)) text in
                if max_file_bytes <? utf8_length raw then (None, od_pop c path)
                else
                  let c := if cache_max <=? Z.of_nat (length c) then tail c else c in
                  (Some raw, od_set c path (f_mtime st, f_size st, raw))
            end
        end
  end.
End Cache.

(** ** Lemmas: durations *)

Lemma take_digits_app d u r :
  str_all is_digit d = true -> is_digit u = false -> take_digits (d +:+ String u r) = (d, String u r).
Proof.
  induction d as [|c d IH]; intros Hd Hu.
  - change ("" +:+ String u r) with (String u r). cbn [take_digits]. by rewrite Hu.
  - cbn [str_all] in Hd. apply andb_true_iff in Hd as [Hc Hd]. rewrite str_app_cons.
    cbn [take_digits]. by rewrite Hc, IH.
Qed.

Lemma take_digits_spec s :
  s = (take_digits s).1 +:+ (take_digits s).2 /\ str_all is_digit (take_digits s).1 = true.
Proof.
  induction s as [|c s [IH1 IH2]]; [done|]. cbn [take_digits]. destruct (is_digit c) eqn:Hc; [|done].
  destruct (take_digits s) as [d r]. cbn [fst snd str_all] in *. rewrite Hc. split; [|done].
  rewrite str_app_cons. by f_equal.
Qed.

Definition digits (n : Z) : string := py_str_int n.

Lemma digits_all n : 0 <= n -> str_all is_digit (digits n) = true.
Proof.
  intros Hn. unfold digits, py_str_int. destruct n; cbn; [done| |lia].
  apply nz_string_of_uint_digits.
Qed.

(** A count and its unit letter, or nothing. *)
Definition show_unit (u : ascii) (n : option Z) : string :=
  match n with None => "" | Some n => digits n +:+ String u "" end.

Lemma unit_group_show u n r :
  0 <= n -> is_digit u = false ->
  unit_group u (digits n +:+ String u r) = (Some (digits n), r).
Proof.
  intros Hn Hu. unfold unit_group. rewrite take_digits_app by auto using digits_all.
  rewrite decide_True; [done|]. split; [apply py_str_int_nonempty|done].
Qed.

(** Another unit's group is left alone. *)
Lemma unit_group_other u u' n r :
  0 <= n -> is_digit u' = false -> u <> u' ->
  unit_group u (digits n +:+ String u' r) = (None, digits n +:+ String u' r).
Proof.
  intros Hn Hu Hne. unfold unit_group. rewrite take_digits_app by auto using digits_all.
  rewrite decide_False; [done|]. intros [_ ?]. congruence.
Qed.

Definition opt_nonneg (n : option Z) : Prop := match n with Some n => 0 <= n | None => True end.

Definition show_duration (h m s : option Z) : string :=
  show_unit "h" h +:+ show_unit "m" m +:+ show_unit "s" s.

Lemma show_unit_app u n r : show_unit u (Some n) +:+ r = digits n +:+ String u r.
Proof. cbn. by rewrite str_app_assoc. Qed.

Lemma duration_match_show h m s :
  opt_nonneg h -> opt_nonneg m -> opt_nonneg s ->
  duration_match (show_duration h m s) = Some (digits <$> h, digits <$> m, digits <$> s).
Proof.
  intros Hh Hm Hs. unfold show_duration, duration_match.
  assert (Hsec : unit_group "s" (show_unit "s" s) = (digits <$> s, "")).
  { destruct s as [s|]; [|done]. cbn [fmap option_fmap option_map].
    rewrite <-(str_app_nil_r (show_unit "s" (Some s))), show_unit_app. by rewrite unit_group_show. }
  assert (Hmin : unit_group "m" (show_unit "m" m +:+ show_unit "s" s) = (digits <$> m, show_unit "s" s)).
  { destruct m as [m|]; [rewrite show_unit_app; by rewrite unit_group_show|].
    destruct s as [s|]; [|done]. cbn [show_unit fmap option_fmap option_map].
    change ("" +:+ ?x) with x. by rewrite unit_group_other. }
  assert (Hhour : unit_group "h" (show_unit "h" h +:+ show_unit "m" m +:+ show_unit "s" s)
                  = (digits <$> h, show_unit "m" m +:+ show_unit "s" s)).
  { destruct h as [h|]; [rewrite show_unit_app; by rewrite unit_group_show|].
    change (show_unit "h" None +:+ ?x) with x.
    destruct m as [m|]; [rewrite show_unit_app; by rewrite unit_group_other|].
    change (show_unit "m" None +:+ ?x) with x.
    destruct s as [s|]; [|done]. cbn [show_unit fmap option_fmap option_map].
    by rewrite unit_group_other. }
  rewrite Hhour, Hmin, Hsec. by rewrite decide_True.
Qed.

Lemma group_int_digits n : opt_nonneg n -> group_int (digits <$> n) = default 0 n.
Proof. destruct n as [n|]; [|done]. intros _. cbn. unfold digits. by rewrite py_int_str. Qed.

(** Text without white space is its own [strip]. *)
Definition no_space (s : string) : bool := str_all (fun c => negb (is_space c)) s.

Lemma rstrip_no_space s : no_space s = true -> rstrip_by is_space s = s.
Proof.
  induction s as [|c s IH]; [done|]. cbn. intros [Hc Hs]%andb_true_iff.
  rewrite IH by done. destruct s; [|done]. by destruct (is_space c).
Qed.

Lemma strip_no_space s : no_space s = true -> str_strip s = s.
Proof.
  intros H. unfold str_strip. destruct s as [|c s]; [done|]. cbn [lstrip_by].
  destruct (is_space c) eqn:Hc; [cbn in H; by rewrite Hc in H|]. by apply rstrip_no_space.
Qed.

Lemma str_all_app p s t : str_all p (s +:+ t) = str_all p s && str_all p t.
Proof. induction s as [|c s IH]; [done|]. rewrite str_app_cons. cbn. by rewrite IH, andb_assoc. Qed.

Lemma str_all_impl (p q : ascii -> bool) s :
  (forall c, p c = true -> q c = true) -> str_all p s = true -> str_all q s = true.
Proof.
  intros Hpq. induction s as [|c s IH]; [done|]. cbn. rewrite !andb_true_iff. naive_solver.
Qed.

Lemma show_unit_no_space u n : opt_nonneg n -> is_space u = false -> no_space (show_unit u n) = true.
Proof.
  intros Hn Hu. destruct n as [n|]; [|done]. unfold no_space. cbn [show_unit].
  rewrite str_all_app. cbn [str_all]. rewrite Hu, andb_true_r.
  eapply str_all_impl; [|by apply digits_all]. intros c Hc. by rewrite digit_not_space.
Qed.

(** The text of a group. *)
Definition group_text (u : ascii) (g : option string) : string :=
  match g with None => "" | Some d => d +:+ String u "" end.

Definition digit_group (g : option string) : Prop :=
  match g with None => True | Some d => d <> "" /\ str_all is_digit d = true end.

Lemma unit_group_spec u s :
  s = group_text u (unit_group u s).1 +:+ (unit_group u s).2 /\ digit_group (unit_group u s).1.
Proof.
  unfold unit_group. destruct (take_digits_spec s) as [Hs Hd].
  destruct (take_digits s) as [d r]. cbn [fst snd] in *. destruct r as [|c r]; [done|].
  case_decide as Hu; [|done]. destruct Hu as [Hne ->]. cbn [fst snd group_text digit_group].
  split; [|done]. by rewrite str_app_assoc.
Qed.

(** ** Properties *)

(** Durations. Text made of hours, minutes and seconds (any of them left
    out, not all) is parsed to its number of seconds; and only such text,
    with white space around it, is accepted. *)
Theorem parse_duration_spec :
  (forall h m s, opt_nonneg h -> opt_nonneg m -> opt_nonneg s ->
     parse_duration (show_duration h m s) =
       if decide (h = None /\ m = None /\ s = None) then Raise ValueError
       else Ok (default 0 h * 3600 + default 0 m * 60 + default 0 s)) /\
  (forall value n, parse_duration value = Ok n ->
     exists h m s, digit_group h /\ digit_group m /\ digit_group s /\
       str_strip value = group_text "h" h +:+ group_text "m" m +:+ group_text "s" s /\
       n = group_int h * 3600 + group_int m * 60 + group_int s).
Proof.
  split.
  - intros h m s Hh Hm Hs. unfold parse_duration.
    rewrite strip_no_space, duration_match_show by (done || (unfold show_duration, no_space;
      rewrite !str_all_app; fold (no_space (show_unit "h" h)) (no_space (show_unit "m" m))
        (no_space (show_unit "s" s)); by rewrite !show_unit_no_space)).
    rewrite !group_int_digits by done.
    destruct h, m, s; cbn; try done; by rewrite decide_False by naive_solver.
  - intros value n. unfold parse_duration, duration_match.
    destruct (unit_group_spec "h" (str_strip value)) as [E1 D1].
    destruct (unit_group "h" (str_strip value)) as [h r1]. cbn [fst snd] in *.
    destruct (unit_group_spec "m" r1) as [E2 D2]. destruct (unit_group "m" r1) as [m r2].
    cbn [fst snd] in *. destruct (unit_group_spec "s" r2) as [E3 D3].
    destruct (unit_group "s" r2) as [s r3]. cbn [fst snd] in *. case_decide as Hr; [|done].
    case_match; [|done]. intros [= <-]. exists h, m, s. split_and!; try done.
    by rewrite E1, E2, E3, Hr, str_app_nil_r.
Qed.

(** The cached texts are what the file system says they are. *)
Definition cache_valid (contents : string -> Z -> Z -> string) (c : md_cache) : Prop :=
  forall path mtime size text, (path, (mtime, size, text)) ∈ c -> text = contents path mtime size.

(** The invariant of the cache. *)
Record cache_ok (contents : string -> Z -> Z -> string) (cache_max : Z) (c : md_cache) : Prop := {
  ck_valid : cache_valid contents c;
  ck_keys : NoDup (od_keys c);
  ck_size : Z.of_nat (length c) <= Z.max 1 cache_max
}.

Lemma utf8_length_ge s : str_len s <= utf8_length s.
Proof.
  unfold str_len, utf8_length. induction s as [|c s IH]; [done|]. cbn -[Z.of_nat code].
  case_match; lia.
Qed.

(** The write-race guard: what passes it is the whole text. *)
Lemma read_whole text max_bytes :
  0 <= max_bytes -> utf8_length (str_take (Z.to_nat (max_bytes + 1)) text) <= max_bytes ->
  str_take (Z.to_nat (max_bytes + 1)) text = text.
Proof.
  intros Hm Hu. apply str_take_short. pose proof (utf8_length_ge (str_take (Z.to_nat (max_bytes + 1)) text)) as H.
  unfold str_len in H. rewrite str_take_length in H. lia.
Qed.

Lemma cache_pop_ok contents m c path : cache_ok contents m c -> cache_ok contents m (od_pop c path).
Proof.
  intros [Hv Hk Hs]. split; [|by apply od_pop_NoDup|pose proof (od_pop_length c path); lia].
  intros p mt sz t [_ Hin]%list_elem_of_filter. eauto.
Qed.

Lemma od_pop_length_lt (c : md_cache) path : path ∈ od_keys c -> (length (od_pop c path) < length c)%nat.
Proof.
  unfold od_keys, od_pop. induction c as [|[p e] c IH]; [by intros ?%not_elem_of_nil|].
  rewrite fmap_cons. intros [Hp|Hin]%elem_of_cons; [cbn [fst] in Hp; subst path|].
  - rewrite filter_cons_False by (cbn; tauto). apply Nat.lt_succ_r, length_filter.
  - rewrite filter_cons. specialize (IH Hin). case_decide; cbn [length]; lia.
Qed.

Lemma cache_move_ok contents m c path : cache_ok contents m c -> cache_ok contents m (move_to_end c path).
Proof.
  intros Hc. unfold move_to_end. destruct (od_get c path) as [e|] eqn:He; [|done].
  destruct (cache_pop_ok _ _ _ path Hc) as [Hv Hk Hs]. split.
  - intros p mt sz t [Hin|[= -> <-]%list_elem_of_singleton]%elem_of_app; [eauto|].
    eapply (ck_valid _ _ _ Hc). by apply od_get_elem.
  - unfold od_keys in *. rewrite fmap_app. apply NoDup_app. split_and!; [done| |apply NoDup_singleton].
    intros p Hp ->%list_elem_of_singleton. cbn in Hp. fold (od_keys (od_pop c path)) in Hp.
    by apply (proj1 (od_get_None _ _) (od_pop_get c path)).
  - assert (path ∈ od_keys c) as Hin.
    { destruct (decide (path ∈ od_keys c)); [done|]. apply od_get_None in n. congruence. }
    pose proof (od_pop_length_lt _ _ Hin). destruct Hc. rewrite length_app. cbn. lia.
Qed.

Lemma cache_insert_ok contents m c path mt sz :
  cache_ok contents m c ->
  cache_ok contents m
    (od_set (if m <=? Z.of_nat (length c) then tail c else c) path (mt, sz, contents path mt sz)).
Proof.
  intros [Hv Hk Hs]. set (c1 := if m <=? Z.of_nat (length c) then tail c else c).
  assert (Hc1 : cache_valid contents c1 /\ NoDup (od_keys c1) /\ Z.of_nat (length c1) < Z.max 1 m).
  { unfold c1. destruct (Z.leb_spec m (Z.of_nat (length c))); [|split_and!; [done..|lia]].
    destruct c as [|x c]; cbn [tail length] in *; [split_and!; [done..|cbn; lia]|].
    split_and!; [|by apply NoDup_cons in Hk as [_ ?]|lia].
    intros p a b t Hin. apply (Hv p). by right. }
  destruct Hc1 as (Hv1 & Hk1 & Hs1). split; [|by apply od_set_NoDup|].
  - intros p a b t [[= -> -> -> ->]|Hin]%elem_of_od_set; [done|eauto].
  - rewrite od_set_length. case_decide; lia.
Qed.

(** The file cache. Under the assumption the code makes, that a file's
    modification time and size determine its text, a read that returns a
    text returns the file's text, cached or not; and the cache only ever
    holds such texts, never twice the same path, and never more entries than
    its bound (one, if the bound is not positive). *)
Theorem read_md_bounded_sound contents cache_max max_bytes c path st stat_ok opened :
  0 <= max_bytes -> cache_ok contents cache_max c ->
  (forall f text, st = Some f -> opened = Some text -> text = contents path (f_mtime f) (f_size f)) ->
  let '(r, c') := read_md_bounded cache_max max_bytes c path st stat_ok opened in
  cache_ok contents cache_max c' /\
  (forall text, r = Some text -> exists f, st = Some f /\ text = contents path (f_mtime f) (f_size f)).
Proof.
  intros Hm Hc Hopen. pose proof (cache_pop_ok _ _ _ path Hc) as Hpop.
  unfold read_md_bounded. destruct stat_ok; [|done]. cbn [negb]. destruct st as [f|]; [|done].
  destruct (Z.ltb_spec max_bytes (f_size f)) as [|Hfs]; [done|].
  destruct (match od_get c path with Some _ => _ | None => None end) as [text|] eqn:Hhit.
  - split; [by apply cache_move_ok|]. intros t [= <-]. exists f. split; [done|].
    destruct (od_get c path) as [[[mt sz] t]|] eqn:Hget; [|done].
    destruct (Z.eqb_spec mt (f_mtime f)); [|done]. destruct (Z.eqb_spec sz (f_size f)); [|done].
    cbn in Hhit. injection Hhit as <-. subst. eapply (ck_valid _ _ _ Hc). by apply od_get_elem.
  - destruct opened as [text|]; [|done].
    destruct (Z.ltb_spec max_bytes (utf8_length (str_take (Z.to_nat (max_bytes + 1)) text))); [done|].
    rewrite read_whole by done. rewrite (Hopen f text eq_refl eq_refl). split; [by apply cache_insert_ok|].
    intros t [= <-]. eauto.
Qed.

Lemma read_md_bounded_sound_witness :
  let contents := fun (p : string) (m s : Z) => "abc" in
  cache_ok contents 2 [] /\
  cache_ok contents 2 (read_md_bounded 2 10 [] "p" (Some (mk_md_file 1 3 "abc")) true (Some "abc")).2.
Proof.
  cbv zeta. assert (H0 : cache_ok (fun _ _ _ => "abc") 2 []).
  { split; [by intros ? ? ? ? ?%not_elem_of_nil|constructor|cbn; lia]. }
  split; [exact H0|].
  apply (read_md_bounded_sound (fun _ _ _ => "abc") 2 10 [] "p" (Some (mk_md_file 1 3 "abc")) true (Some "abc"));
    [lia|exact H0|]. intros f text _ [= <-]. reflexivity.
Defined.
