(* ===== verification/PromptEnv.v ===== *)
(** * Environment references in prompts (shared/prompt_env.py)

    [{{env.VAR}}] references of operator-written prompts, their allow-list,
    the size cap of the result and the warnings, which are re-armed every so
    many misses.  [os.environ] is an argument, read at every call. *)
From Stdlib Require Import Ascii.
From S2P Require Import Prelude PyStr PyBytes PyRe.

Definition ENV_VAR_RE : string -> option (string * string) := match_ref "{{env.".

Definition DEFAULT_MAX_BYTES : Z := 65536.

(** The module's counters. *)
Record warn_state : Type := mk_warn {
  warned_vars : list (string * Z);
  warned_no_allowlist : Z;
  warned_oversize : Z
}.

Definition no_warnings : warn_state := mk_warn [] 0 0.

Inductive signal : Type :=
| WarnNoAllowlist
| WarnDenied (name : string)
| WarnOversize
| Bump (result : string).

#[export] Instance signal_eq_dec : EqDecision signal.
Proof. solve_decision. Defined.

Section Env.
Variable environ : string -> option string.
(** [_PROMPT_ENV_REARM_EVERY], at least one. *)
Variable rearm_every : Z.

Definition max_bytes : Z :=
  let raw := default "" (environ "PROMPT_ENV_MAX_BYTES") in
  if decide (raw = "") then DEFAULT_MAX_BYTES else default DEFAULT_MAX_BYTES (py_int raw).

Definition config : bool * list string :=
  let enabled := str_lower (str_strip (default "" (environ "PROMPT_ENV_ENABLED"))) in
  (bool_decide (enabled ∈ ["1"; "true"; "yes"; "on"]),
   filter (fun p => p <> "") (str_strip <$> str_split "," (default "" (environ "PROMPT_ENV_ALLOWLIST")))).

Definition pattern_allows (name pattern : string) : bool :=
  if negb (str_contains "*" pattern) && negb (str_contains "?" pattern)
  then startswith pattern name else fnmatch name pattern.

Definition var_allowed (name : string) (allowlist : list string) : bool :=
  existsb (pattern_allows name) allowlist.

(** The value a reference is replaced by. *)
Definition ref_value (allowlist : list string) (name : string) : string :=
  if var_allowed name allowlist then default "" (environ name) else "".

(** What a reference does besides. *)
Definition note_ref (allowlist : list string) (acc : warn_state * list signal) (name : string)
  : warn_state * list signal :=
  let '(st, sigs) := acc in
  if var_allowed name allowlist then
    (st, sigs ++ [Bump (if decide (default "" (environ name) = "") then "missing" else "hit")])
  else
    let count := default 0 (od_get (warned_vars st) name) in
    (mk_warn (od_set (warned_vars st) name (count + 1)) (warned_no_allowlist st) (warned_oversize st),
     sigs ++ (if count mod rearm_every =? 0 then [WarnDenied name] else []) ++ [Bump "denied"]).

Definition note_no_allowlist (allowlist : list string) (st : warn_state) : warn_state * list signal :=
  match allowlist with
  | [] =>
      (mk_warn (warned_vars st) (warned_no_allowlist st + 1) (warned_oversize st),
       if warned_no_allowlist st mod rearm_every =? 0 then [WarnNoAllowlist] else [])
  | _ => (st, [])
  end.

(** The size cap on the result. *)
Definition cap_prompt (st : warn_state) (resolved : string) : string * warn_state * list signal :=
  let cap := max_bytes in
  let encoded := utf8_encode resolved in
  if (0 <? cap) && (cap <? str_len encoded) then
    (utf8_decode_ignore (str_take (Z.to_nat cap) encoded),
     mk_warn (warned_vars st) (warned_no_allowlist st) (warned_oversize st + 1),
     if warned_oversize st mod rearm_every =? 0 then [WarnOversize] else [])
  else (resolved, st, []).

(** The references are visited from left to right. *)
Definition resolve_prompt_env (st : warn_state) (text : string) : string * warn_state * list signal :=
  let '(enabled, allowlist) := config in
  if negb enabled then (text, st, [])
  else
    let '(st, s1) := note_no_allowlist allowlist st in
    let '(st, s2) := foldl (note_ref allowlist) (st, []) (re_groups ENV_VAR_RE text) in
    let '(out, st, s3) := cap_prompt st (re_sub ENV_VAR_RE (ref_value allowlist) text) in
    (out, st, s1 ++ s2 ++ s3).
End Env.

(** The text alone, as the callers use it. *)
Definition prompt_text (environ : string -> option string) (text : string) : string :=
  (resolve_prompt_env environ 1 no_warnings text).1.1.

(** ** Properties *)

Section Spec.
Variable environ : string -> option string.
Variable rearm_every : Z.

Lemma resolve_text st text :
  (resolve_prompt_env environ rearm_every st text).1.1 =
    if (config environ).1
    then (cap_prompt environ rearm_every st (re_sub ENV_VAR_RE (ref_value environ (config environ).2) text)).1.1
    else text.
Proof.
  unfold resolve_prompt_env. destruct (config environ) as [[] allow]; [|done]. cbn [negb fst snd].
  destruct (note_no_allowlist _ _ _) as [st1 s1]. destruct (foldl _ _ _) as [st2 s2].
  unfold cap_prompt. cbv zeta. by destruct ((0 <? _) && _).
Qed.

Lemma cap_prompt_text st resolved :
  let out := (cap_prompt environ rearm_every st resolved).1.1 in
  exists k, out = str_take k resolved /\
    (0 < max_bytes environ -> str_len (utf8_encode out) <= max_bytes environ) /\
    (max_bytes environ <= 0 \/ str_len (utf8_encode resolved) <= max_bytes environ -> out = resolved) /\
    ((k < String.length resolved)%nat -> max_bytes environ < str_len (utf8_encode (str_take (S k) resolved))).
Proof.
  unfold cap_prompt. cbv zeta. destruct ((0 <? _) && _) eqn:E; boolp; cbn [fst snd].
  - destruct E as [E1 E2].
    destruct (decode_take (Z.to_nat (max_bytes environ)) resolved) as (k & Hk & Hlen & Hle & Hmax).
    exists k. rewrite Hk. unfold str_len in *. split_and!; [done|lia|lia|]. intros H. specialize (Hmax H). lia.
  - exists (String.length resolved). rewrite str_take_short by lia.
    split_and!; [done| |done|lia]. intros Hpos. lia.
Qed.
End Spec.

(** Interpolation. Without the opt-in a prompt is unchanged and nothing
    is counted. With it, the result is the text with every reference replaced
    by the variable's value when a pattern of the allow-list covers its name
    and by nothing otherwise, cut to the longest prefix whose encoding fits
    the cap; so it depends on the environment only through the settings and
    the allow-listed variables. *)
Theorem resolve_prompt_env_spec environ rearm st text :
  let '(out, st', sigs) := resolve_prompt_env environ rearm st text in
  let '(enabled, allow) := config environ in
  let full := re_sub ENV_VAR_RE (fun v => if var_allowed v allow then default "" (environ v) else "") text in
  (enabled = false -> out = text /\ st' = st /\ sigs = []) /\
  (enabled = true ->
     (exists k, out = str_take k full /\
        ((k < String.length full)%nat -> max_bytes environ < str_len (utf8_encode (str_take (S k) full)))) /\
     (0 < max_bytes environ -> str_len (utf8_encode out) <= max_bytes environ) /\
     (max_bytes environ <= 0 \/ str_len (utf8_encode full) <= max_bytes environ -> out = full)) /\
  (forall environ' st2,
     config environ' = config environ -> max_bytes environ' = max_bytes environ ->
     (forall v, var_allowed v allow = true -> environ' v = environ v) ->
     (resolve_prompt_env environ' rearm st2 text).1.1 = out).
Proof.
  destruct (resolve_prompt_env environ rearm st text) as [[out st'] sigs] eqn:E.
  pose proof (resolve_text environ rearm st text) as Hout. rewrite E in Hout. cbn [fst snd] in Hout.
  destruct (config environ) as [enabled allow] eqn:Hc. cbv zeta. cbn [fst snd] in Hout. split_and!.
  - intros ->. revert E. unfold resolve_prompt_env. rewrite Hc. cbn. by intros [= <- <- <-].
  - intros ->. destruct (cap_prompt_text environ rearm st (re_sub ENV_VAR_RE (ref_value environ allow) text))
      as (k & Hk & Hcap & Hfit & Hmax). rewrite <-Hout in *. split_and!; [by exists k|done|done].
  - intros environ' st2 Hc' Hm Hagree. rewrite resolve_text, Hc', Hout. cbn [fst snd]. destruct enabled; [|done].
    rewrite (re_sub_ext _ (ref_value environ' allow) (ref_value environ allow)).
    + unfold cap_prompt. cbv zeta. rewrite Hm. by destruct ((0 <? _) && _).
    + intros w _. unfold ref_value. destruct (var_allowed w allow) eqn:Ev; [|done]. by rewrite Hagree.
Qed.

Definition example_environ (v : string) : option string :=
  if decide (v = "PROMPT_ENV_ENABLED") then Some "on"
  else if decide (v = "PROMPT_ENV_ALLOWLIST") then Some "REGION, DEPLOY_*"
  else if decide (v = "REGION") then Some "eu" else if decide (v = "TOKEN") then Some "hunter2" else None.

Lemma resolve_prompt_env_spec_witness :
  prompt_text example_environ "in {{env.REGION}}: {{env.TOKEN}}." = "in eu: ." /\
  (resolve_prompt_env (fun v => if decide (v = "TOKEN") then Some "other" else example_environ v) 1 no_warnings
     "in {{env.REGION}}: {{env.TOKEN}}.").1.1 = "in eu: .".
Proof.
  pose proof (resolve_prompt_env_spec example_environ 1 no_warnings "in {{env.REGION}}: {{env.TOKEN}}.") as H.
  destruct (resolve_prompt_env example_environ 1 no_warnings _) as [[out st'] sigs] eqn:E. vm_compute in E.
  injection E as <- <- <-. destruct (config example_environ) as [en al] eqn:Ec. vm_compute in Ec.
  injection Ec as <- <-. destruct H as (_ & _ & H). split; [vm_compute; reflexivity|].
  apply H; [vm_compute; reflexivity|vm_compute; reflexivity|].
  intros v Hv. case_decide as Ht; [|done]. subst v. vm_compute in Hv. discriminate.
Defined.

(** A denied variable is warned about at its first miss and then at every
    [rearm_every]-th, whatever text it occurs in. *)
Example rearmed_by_count :
  let run := fun st => resolve_prompt_env example_environ 2 st "{{env.TOKEN}}" in
  let '(_, s1, g1) := run no_warnings in
  let '(_, s2, g2) := run s1 in
  let '(_, _, g3) := run s2 in
  (bool_decide (WarnDenied "TOKEN" ∈ g1), bool_decide (WarnDenied "TOKEN" ∈ g2), bool_decide (WarnDenied "TOKEN" ∈ g3))
    = (true, false, true).
Proof. vm_compute. reflexivity. Qed.
