(* ===== verification/Tracing.v ===== *)
(** * W3C trace contexts (harness/tracing.py)

    Parsing, printing and deriving [traceparent] headers.  [os.urandom] is an
    argument: the byte strings it returns, in order.  The OpenTelemetry layer
    the module re-exports is third-party code behind [shared/otel.py]. *)
From Stdlib Require Import Ascii.
From S2P Require Import Prelude PyStr PyPath PyUrl Utils.

Record trace_context : Type := mk_trace {
  trace_id : string;
  parent_id : string;
  flags : string;
  version : string
}.

Definition to_header (t : trace_context) : string :=
  str_join "-" [version t; trace_id t; parent_id t; flags t].

(** [\[0-9a-f\]] *)
Definition lower_hex (c : ascii) : bool := is_digit c || ((97 <=? code c) && (code c <=? 102)).

Definition hex_field (n : nat) (s : string) : bool :=
  str_all lower_hex s && bool_decide (String.length s = n).

Fixpoint zeros (n : nat) : string := match n with O => "" | S n' => String "0" (zeros n') end.

(** [_TRACEPARENT_RE.match]: four hexadecimal fields of fixed widths. (The
    text is stripped, so [$] is its end.) *)
Definition traceparent_match (value : string) : option trace_context :=
  match str_split "-" value with
  | [v; t; p; f] =>
      if hex_field 2 v && hex_field 32 t && hex_field 16 p && hex_field 2 f
      then Some (mk_trace t p f v) else None
  | _ => None
  end.

Definition parse_traceparent (header_value : option string) : option trace_context :=
  match header_value with
  | None | Some "" => None
  | Some h =>
      let value := str_strip (default "" (head (str_split "," h))) in
      match traceparent_match value with
      | None => None
      | Some t =>
          if decide (version t = "ff") then None
          else if decide (trace_id t = zeros 32 \/ parent_id t = zeros 16) then None
          else Some t
      end
  end.

(** *** Fresh ids *)

(** [bytes.hex()] *)
Fixpoint bytes_hex (b : list Z) : string :=
  match b with
  | [] => ""
  | x :: b' => String (hex_char (x / 16)) (String (hex_char (x mod 16)) (bytes_hex b'))
  end.

(** The first draw with a non-zero byte, and the draws left; [None] while
    every draw so far was zero. *)
Fixpoint random_hex (draws : list (list Z)) : option (string * list (list Z)) :=
  match draws with
  | [] => None
  | b :: draws' => if existsb (fun x => negb (x =? 0)) b then Some (bytes_hex b, draws') else random_hex draws'
  end.

Definition child (t : trace_context) (draws : list (list Z)) : option (trace_context * list (list Z)) :=
  '(span, draws) ← random_hex draws;
  Some (mk_trace (trace_id t) span (flags t) (version t), draws).

(** [trace_draws] are the 16-byte draws and [span_draws] the 8-byte ones. *)
Definition new_context (trace_draws span_draws : list (list Z)) : option trace_context :=
  '(t, _) ← random_hex trace_draws;
  '(p, _) ← random_hex span_draws;
  Some (mk_trace t p "01" "00").

Definition context_from_inbound (header_value : option string) (trace_draws span_draws : list (list Z))
  : option (trace_context * bool) :=
  match parse_traceparent header_value with
  | None => t ← new_context trace_draws span_draws; Some (t, false)
  | Some t => Some (t, true)
  end.

(** ** Lemmas *)

(** What the W3C format asks of a context. *)
Record valid_context (t : trace_context) : Prop := {
  vc_version : hex_field 2 (version t) = true /\ version t <> "ff";
  vc_trace : hex_field 32 (trace_id t) = true /\ trace_id t <> zeros 32;
  vc_parent : hex_field 16 (parent_id t) = true /\ parent_id t <> zeros 16;
  vc_flags : hex_field 2 (flags t) = true
}.

Lemma lower_hex_not c s :
  str_all lower_hex s = true -> lower_hex c = false -> ~ c ∈ String.list_ascii_of_string s.
Proof.
  intros Hs Hc. induction s as [|x s IH]; cbn in *; [by intros ?%not_elem_of_nil|].
  apply andb_true_iff in Hs as [Hx Hs]. rewrite elem_of_cons. intros [->|?]; [congruence|].
  by apply IH.
Qed.

Lemma hex_field_spec n s : hex_field n s = true <-> str_all lower_hex s = true /\ String.length s = n.
Proof. unfold hex_field. by rewrite andb_true_iff, bool_decide_eq_true. Qed.

Lemma split_header t :
  valid_context t ->
  str_split "-" (to_header t) = [version t; trace_id t; parent_id t; flags t].
Proof.
  intros [[[Hv _]%hex_field_spec _] [[Ht _]%hex_field_spec _] [[Hp _]%hex_field_spec _] [Hf _]%hex_field_spec].
  apply str_split_join; [done|].
  do 4 (apply Forall_cons_2; [by apply lower_hex_not|]). apply Forall_nil_2.
Qed.

Lemma join_header value v t p f :
  str_split "-" value = [v; t; p; f] -> value = to_header (mk_trace t p f v).
Proof. intros H. rewrite <-(str_join_split "-" value), H. done. Qed.

Lemma header_chars t (q : ascii -> bool) :
  valid_context t -> (forall c, lower_hex c = true -> q c = true) -> q "-"%char = true ->
  str_all q (to_header t) = true.
Proof.
  intros [[[Hv _]%hex_field_spec _] [[Ht _]%hex_field_spec _] [[Hp _]%hex_field_spec _] [Hf _]%hex_field_spec] Hq Hd.
  unfold to_header. cbn [str_join]. rewrite !str_all_app.
  pose proof (str_all_impl lower_hex q) as Himp. 
  rewrite (Himp (version t)), (Himp (trace_id t)), (Himp (parent_id t)), (Himp (flags t)) by done.
  cbn. by rewrite Hd.
Qed.

Lemma lower_hex_not_space c : lower_hex c = true -> negb (is_space c) = true.
Proof.
  unfold lower_hex. rewrite orb_true_iff. intros [H|H]; [by rewrite digit_not_space|].
  apply andb_true_iff in H as [H1%Z.leb_le H2%Z.leb_le].
  unfold is_space. rewrite negb_true_iff, !orb_false_iff, !andb_false_iff. lia.
Qed.

Lemma str_all_not_elem c s :
  str_all (fun x => negb (bool_decide (x = c))) s = true -> ~ c ∈ String.list_ascii_of_string s.
Proof.
  induction s as [|x s IH]; cbn; [by intros _ ?%not_elem_of_nil|].
  rewrite andb_true_iff, negb_true_iff, bool_decide_eq_false, elem_of_cons.
  intros [? Hs] [?|?]; [congruence|]. by apply IH.
Qed.

(** The printed form of a valid context is one unspaced element. *)
Lemma header_element t :
  valid_context t ->
  to_header t <> "" /\ str_strip (default "" (head (str_split "," (to_header t)))) = to_header t.
Proof.
  intros Hok. split.
  { pose proof (split_header t Hok) as E. intros H. by rewrite H in E. }
  rewrite str_split_single; cbn [head default from_option id].
  - apply strip_no_space, header_chars; [done|apply lower_hex_not_space|done].
  - apply str_all_not_elem, header_chars; [done| |done].
    intros c Hx. rewrite bool_decide_false; [done|]. by intros ->.
Qed.

(** A header whose first element is the printed form of a valid context. *)
Lemma parse_element s t :
  valid_context t -> str_strip (default "" (head (str_split "," s))) = to_header t ->
  parse_traceparent (Some s) = Some t.
Proof.
  intros Hok Hs. unfold parse_traceparent. destruct s as [|c s].
  { destruct (header_element t Hok) as [Hne _]. by rewrite <-Hs in Hne. }
  rewrite Hs. unfold traceparent_match. rewrite split_header by done.
  destruct Hok as [[-> Hv] [-> Ht] [-> Hp] ->]. cbn [andb version trace_id parent_id].
  rewrite decide_False by done. rewrite decide_False by tauto. by destruct t.
Qed.

(** Whatever is parsed is valid, and is the first element of the header. *)
Lemma parse_traceparent_valid h t :
  parse_traceparent h = Some t ->
  valid_context t /\
  exists s, h = Some s /\ str_strip (default "" (head (str_split "," s))) = to_header t.
Proof.
  unfold parse_traceparent. destruct h as [s|]; [|done]. destruct s as [|c s]; [done|].
  set (value := str_strip _). destruct (traceparent_match value) as [t'|] eqn:Hm; [|done].
  destruct (decide (version t' = "ff")); [done|]. destruct (decide (_ \/ _)) as [|Hz]; [done|].
  intros [= <-]. unfold traceparent_match in Hm.
  destruct (str_split "-" value) as [|v [|tr [|p [|f []]]]] eqn:Hs; try done.
  destruct (hex_field 2 v && _ && _ && _) eqn:Hx; [|done]. injection Hm as <-.
  rewrite !andb_true_iff in Hx. destruct Hx as [[[? ?] ?] ?]. cbn in Hz, n.
  split; [split; cbn; tauto|]. exists (String c s). split; [done|]. by apply join_header.
Qed.

(** *** Fresh ids *)

Lemma bytes_hex_length b : String.length (bytes_hex b) = (2 * length b)%nat.
Proof. induction b as [|x b IH]; [done|]. cbn [bytes_hex String.length length]. lia. Qed.

Definition hex_char_ok (d : Z) : bool := lower_hex (hex_char d) && implb (bool_decide (hex_char d = "0"%char)) (d =? 0).

Lemma hex_char_digits : forallb hex_char_ok (seqZ 0 16) = true.
Proof. vm_compute. reflexivity. Qed.

Lemma hex_char_spec d :
  0 <= d < 16 -> lower_hex (hex_char d) = true /\ (hex_char d = "0"%char -> d = 0).
Proof.
  intros Hd. pose proof hex_char_digits as H. rewrite forallb_forall in H. specialize (H d).
  unfold hex_char_ok in H. rewrite andb_true_iff, implb_true_iff, bool_decide_eq_true, Z.eqb_eq in H.
  apply H, list_elem_of_In, elem_of_seqZ. lia.
Qed.

Lemma bytes_hex_lower b : Forall is_byte b -> str_all lower_hex (bytes_hex b) = true.
Proof.
  induction 1 as [|x b Hx Hb IH]; [done|]. unfold is_byte in Hx. cbn [bytes_hex str_all]. rewrite IH.
  destruct (hex_char_spec (x / 16)) as [-> _];
    [split; [apply Z.div_pos; lia|apply Z.div_lt_upper_bound; lia]|].
  by destruct (hex_char_spec (x mod 16)) as [-> _]; [apply Z.mod_pos_bound; lia|].
Qed.

Lemma bytes_hex_zeros b :
  Forall is_byte b -> bytes_hex b = zeros (2 * length b) -> Forall (fun x => x = 0) b.
Proof.
  induction 1 as [|x b Hx Hb IH]; [constructor|]. unfold is_byte in Hx. intros E.
  replace (2 * length (x :: b))%nat with (S (S (2 * length b))) in E by (cbn; lia).
  cbn [bytes_hex zeros] in E. injection E as Eh El E. constructor; [|by apply IH].
  apply hex_char_spec in Eh; [|split; [apply Z.div_pos; lia|apply Z.div_lt_upper_bound; lia]].
  apply hex_char_spec in El; [|apply Z.mod_pos_bound; lia].
  rewrite (Z.div_mod x 16) by lia. lia.
Qed.

(** A fresh id has the width asked for and is not zero. *)
Lemma random_hex_spec n draws s rest :
  Forall (fun b => Forall is_byte b /\ length b = n) draws ->
  random_hex draws = Some (s, rest) ->
  hex_field (2 * n) s = true /\ s <> zeros (2 * n) /\ rest `suffix_of` draws.
Proof.
  induction 1 as [|b draws [Hb Hn] _ IH]; cbn [random_hex]; [done|].
  destruct (existsb _ b) eqn:He.
  - intros [= <- <-]. split_and!.
    + apply hex_field_spec. by rewrite bytes_hex_lower, bytes_hex_length, Hn by done.
    + rewrite <-Hn. intros Hz%bytes_hex_zeros; [|done].
      apply existsb_exists in He as (x & Hx%list_elem_of_In & Hx0). rewrite Forall_forall in Hz.
      rewrite (Hz x Hx) in Hx0. done.
    + by exists [b].
  - intros H. destruct (IH H) as (? & ? & [l ->]). split_and!; [done..|]. by exists (b :: l).
Qed.

(** ** Properties *)

Definition draws_ok (n : nat) (draws : list (list Z)) : Prop :=
  Forall (fun b => Forall is_byte b /\ length b = n) draws.

(** Trace contexts. A header is accepted exactly when the first element
    of its comma-separated list, stripped, is the printed form of a valid
    context, which is then the result; and what this service sends on, a
    child of an accepted context or a fresh one, is again valid, so the next
    service accepts it, a child with the same trace id, flags and version. *)
Theorem traceparent_roundtrip :
  (forall t, valid_context t -> parse_traceparent (Some (to_header t)) = Some t) /\
  (forall h t, parse_traceparent h = Some t <->
     valid_context t /\
     exists s, h = Some s /\ str_strip (default "" (head (str_split "," s))) = to_header t) /\
  (forall t draws t' rest, valid_context t -> draws_ok 8 draws -> child t draws = Some (t', rest) ->
     valid_context t' /\ trace_id t' = trace_id t /\ flags t' = flags t /\ version t' = version t) /\
  (forall td sd t, draws_ok 16 td -> draws_ok 8 sd -> new_context td sd = Some t -> valid_context t).
Proof.
  split_and!.
  - intros t Hok. by apply parse_element, header_element.
  - intros h t. split; [apply parse_traceparent_valid|]. intros (Hok & s & -> & Hs).
    by apply parse_element.
  - intros t draws t' rest [Hv Ht Hp Hf] Hd. unfold child.
    destruct (random_hex draws) as [[s r]|] eqn:E; [|done]. cbn. intros [= <- <-].
    destruct (random_hex_spec 8 draws s r Hd E) as (? & ? & _). done.
  - intros td sd t Htd Hsd. unfold new_context.
    destruct (random_hex td) as [[a ra]|] eqn:Ea; [|done]. cbn.
    destruct (random_hex sd) as [[b rb]|] eqn:Eb; [|done]. cbn. intros [= <-].
    destruct (random_hex_spec 16 td a ra Htd Ea) as (? & ? & _).
    destruct (random_hex_spec 8 sd b rb Hsd Eb) as (? & ? & _). done.
Qed.

Definition example_header : string := "00-4bf92f3577b34da6a3ce929d0e0e4736-00f067aa0ba902b7-01".
Definition example_context : trace_context :=
  mk_trace "4bf92f3577b34da6a3ce929d0e0e4736" "00f067aa0ba902b7" "01" "00".

Lemma traceparent_roundtrip_witness :
  parse_traceparent (Some (" " +:+ example_header +:+ " , 00-x")) = Some example_context /\
  child example_context [[0; 0; 0; 0; 0; 0; 0; 0]; [0; 0; 0; 0; 0; 0; 0; 171]] =
    Some (mk_trace (trace_id example_context) "00000000000000ab" "01" "00", []) /\
  valid_context (mk_trace (trace_id example_context) "00000000000000ab" "01" "00").
Proof.
  assert (Hok : valid_context example_context).
  { split; try (split; [vm_compute; reflexivity|discriminate]). vm_compute; reflexivity. }
  split; [|split].
  - apply (proj1 (proj2 traceparent_roundtrip)). split; [exact Hok|]. eexists. split; [reflexivity|].
    vm_compute. reflexivity.
  - vm_compute. reflexivity.
  - refine (proj1 (proj1 (proj2 (proj2 traceparent_roundtrip)) example_context
      [[0; 0; 0; 0; 0; 0; 0; 0]; [0; 0; 0; 0; 0; 0; 0; 171]] _ [] Hok _ _)); [|vm_compute; reflexivity].
    unfold draws_ok, is_byte. repeat constructor; lia.
Defined.
