(* ===== verification/Webhooks.v ===== *)
(** * Webhook subscriptions (harness/webhooks.py)

    The subscription files, the URL templates with their allow-list of
    variables, the guard against requests to internal addresses, and the
    filters that select the subscriptions of an event.  Delivery is in
    [WebhookDelivery], the runner in [WebhookRunner].  [getaddrinfo],
    [yaml.safe_load], the environment and the file's text are arguments. *)
From Stdlib Require Import Ascii.
From S2P Require Import Prelude PyStr PyPath PyVal PyRe PyUrl Utils.

(** ** Event kinds *)

Definition EVENT_KIND_COMPLETION : string := "completion".
Definition EVENT_KIND_HOOK_DECISION : string := "hook.decision".
Definition DEFAULT_EVENT_KINDS : list string := [EVENT_KIND_COMPLETION].
Definition KNOWN_EVENT_KINDS : list string := [EVENT_KIND_COMPLETION; EVENT_KIND_HOOK_DECISION].
Definition HOOK_DECISION_SUB_KINDS : list string := ["allow"; "warn"; "deny"].

(** The non-empty stripped members of a list of texts. *)
Definition stripped (l : list string) : list string := filter (fun x => x <> "") (str_strip <$> l).

Section ListField.
(** [ast.literal_eval] of a text that opens a bracket: a value, or any
    exception. *)
Variable literal_eval : string -> res pyval.

Definition parse_list_field (value : pyval) : list string :=
  if negb (truthy value) then []
  else match value with
  | VList l => stripped (py_str <$> l)
  | _ =>
      let s := str_strip (py_str value) in
      if bool_decide (s = "" \/ s = "[]") then []
      else
        let split := stripped (str_split "," s) in
        if startswith "[" s then
          match literal_eval s with
          | Ok (VList l) => stripped (py_str <$> l)
          | _ => split
          end
        else split
  end.

(** One entry of [events:]; [None] when it is dropped. *)
Definition normalize_event (item : string) : option string :=
  let '(base, _, sub) := partition ":" item in
  let base := str_strip base in
  let sub := str_strip sub in
  if decide (base ∉ KNOWN_EVENT_KINDS) then None
  else if decide (sub = "") then Some base
  else if decide (base <> EVENT_KIND_HOOK_DECISION \/ sub ∉ HOOK_DECISION_SUB_KINDS) then None
  else Some (base +:+ ":" +:+ sub).

Definition normalize_events_field (raw : pyval) : list string :=
  match raw with
  | VNone | VStr "" => DEFAULT_EVENT_KINDS
  | _ =>
      match parse_list_field raw with
      | [] => DEFAULT_EVENT_KINDS
      | items =>
          match omap normalize_event items with
          | [] => DEFAULT_EVENT_KINDS
          | cleaned => cleaned
          end
      end
  end.
End ListField.

Definition events_match (sub_events : list string) (event_kind : string) (qualifier : option string)
  : bool :=
  if decide (event_kind = EVENT_KIND_COMPLETION) then bool_decide (EVENT_KIND_COMPLETION ∈ sub_events)
  else if decide (event_kind = EVENT_KIND_HOOK_DECISION) then
    if decide (EVENT_KIND_HOOK_DECISION ∈ sub_events) then true
    else match qualifier with
         | None | Some "" => false
         | Some q => bool_decide (EVENT_KIND_HOOK_DECISION +:+ ":" +:+ q ∈ sub_events)
         end
  else false.

(** ** Templates *)

Definition ENV_VAR_RE : string -> option (string * string) := match_ref "{{env.".
Definition VAR_RE : string -> option (string * string) := match_ref "{{".

Definition URL_TEMPLATE_ALLOWED_VARS : list string :=
  ["agent"; "kind"; "session_id"; "source"; "model"; "success"; "error"; "response_preview";
   "duration_seconds"; "timestamp"; "delivery_id"].

(** The variables of a delivery, as the [context] dict. *)
Abbreviation ctx := (list (string * pyval)).

(** [str(context.get(key, ""))] *)
Definition ctx_text (c : ctx) (key : string) : string := py_str (default (VStr "") (od_get c key)).

Section Env.
(** [os.environ.get] *)
Variable environ : string -> option string.

Definition resolve_env_vars (text : string) : string :=
  re_sub ENV_VAR_RE (fun v => default "" (environ v)) text.

Definition substitute (template : string) (context : ctx) : string :=
  re_sub VAR_RE (fun m => ctx_text context (str_strip m)) (resolve_env_vars template).
End Env.

(** [None] when every reference is allowed, else the offending one. *)
Inductive forbidden_ref : Type :=
| ForbiddenEnv
| ForbiddenVar (key : string).

Definition url_template_has_forbidden_refs (template : string) : option forbidden_ref :=
  match re_groups ENV_VAR_RE template with
  | _ :: _ => Some ForbiddenEnv
  | [] =>
      match filter (fun k => k ∉ URL_TEMPLATE_ALLOWED_VARS) (str_strip <$> re_groups VAR_RE template) with
      | key :: _ => Some (ForbiddenVar key)
      | [] => None
      end
  end.

Definition url_var (context : ctx) (m : string) : string :=
  let key := str_strip m in
  if decide (key ∉ URL_TEMPLATE_ALLOWED_VARS) then "" else ctx_text context key.

Definition substitute_url (template : string) (context : ctx) : string :=
  re_sub VAR_RE (url_var context) (re_sub ENV_VAR_RE (fun _ => "") template).

(** ** The URL guard *)

Definition URL_ALLOWED_SCHEMES : list string := ["http"; "https"].
Definition LOOPBACK_HOST_ALIASES : list string :=
  ["localhost"; "localhost.localdomain"; "ip6-localhost"; "ip6-loopback"].

(** [WEBHOOK_URL_ALLOWED_HOSTS] and [WEBHOOK_ALLOW_LOOPBACK_HOSTS]. *)
Record guard : Type := mk_guard { allowed_hosts : list string; allow_loopback_hosts : bool }.

Definition load_guard (hosts loopback : string) : guard :=
  mk_guard (filter (fun h => h <> "") ((fun h => str_lower (str_strip h)) <$> str_split "," hosts))
           (bool_decide (str_lower (str_strip loopback) ∈ ["1"; "true"; "yes"])).

Definition host_is_private (host : string) : bool :=
  match ip_address host with
  | None => false
  | Some ip => is_loopback ip || is_link_local ip || is_private ip || is_reserved ip
               || is_multicast ip || is_unspecified ip
  end.

(** Why a URL is refused; the code's text of it only reaches the log. *)
Inductive url_diag : Type :=
| EmptyUrl
| UnparseableUrl
| BadScheme (scheme : string)
| NoHost
| LoopbackAlias (host : string)
| PrivateHost (host : string)
| DnsFailed (host : string)
| ResolvesPrivate (host addr : string).

(** What [socket.getaddrinfo] answers: the addresses (the first component of
    each [sockaddr], [""] for an empty one), [gaierror], or another
    exception. *)
Inductive dns_answer : Type :=
| Resolved (addrs : list string)
| GaiError
| DnsRaises (e : exn).

Definition opt_port_text (p : option Z) (host : string) : string :=
  match p with Some n => host +:+ ":" +:+ py_str_int n | None => host end.

Definition host_allowlisted (g : guard) (host host_port : string) : bool :=
  match allowed_hosts g with
  | [] => false
  | hs => bool_decide (host ∈ hs \/ host_port ∈ hs)
  end.

(** The loop over the resolved addresses. *)
Fixpoint scan_addrs (host : string) (seen : gset string) (addrs : list string) : option url_diag :=
  match addrs with
  | [] => None
  | addr :: rest =>
      if decide (addr = "" \/ addr ∈ seen) then scan_addrs host seen rest
      else if host_is_private addr then Some (ResolvesPrivate host addr)
      else scan_addrs host ({[addr]} ∪ seen) rest
  end.

(** [Ok None] accepts; an invalid port and an exception of the resolver other
    than [gaierror] escape. *)
Definition validate_url (g : guard) (dns : string -> dns_answer) (url : string) : res (option url_diag) :=
  if decide (url = "") then Ok (Some EmptyUrl)
  else match urlsplit url with
  | Raise _ => Ok (Some UnparseableUrl)
  | Ok parts =>
      let scheme := str_lower (u_scheme parts) in
      if decide (scheme ∉ URL_ALLOWED_SCHEMES) then Ok (Some (BadScheme scheme))
      else
        let host := str_lower (default "" (hostname (u_netloc parts))) in
        if decide (host = "") then Ok (Some NoHost)
        else
          p <-- port (u_netloc parts) ;;
          let allowlisted := host_allowlisted g host (opt_port_text p host) in
          if allowlisted && allow_loopback_hosts g then Ok None
          else if negb allowlisted && bool_decide (host ∈ LOOPBACK_HOST_ALIASES)
          then Ok (Some (LoopbackAlias host))
          else if negb allowlisted && host_is_private host then Ok (Some (PrivateHost host))
          else match dns host with
               | GaiError => Ok (Some (DnsFailed host))
               | DnsRaises e => Raise e
               | Resolved addrs => Ok (scan_addrs host ∅ addrs)
               end
  end.

(** ** Subscriptions *)

Definition VALID_NOTIFY_WHEN : list string := ["always"; "on_success"; "on_error"].

Record subscription : Type := mk_sub {
  s_path : string;
  s_name : string;
  s_url_template : string;
  s_enabled : bool;
  s_signing_secret : option string;
  s_notify_when : string;
  s_notify_on_kind : list string;
  s_notify_on_response : list string;
  s_content_type : string;
  s_description : option string;
  s_headers : list (string * string);
  s_timeout_seconds : Z;
  s_retries : Z;
  s_extract : list (string * string);
  s_body_template : option string;
  s_context_template : option string;
  s_backend_id : option string;
  s_model : option string;
  s_max_concurrent : Z;
  s_events : list string
}.

(** [{str(k): str(v) if v is not None else "" for ...}] of a YAML map, [{}]
    of anything else. *)
Definition text_map (v : pyval) : list (string * string) :=
  match v with
  | VDict d => foldl (fun acc kv => od_set acc (py_str kv.1) (field_text kv.2)) [] d
  | _ => []
  end.

Section Parse.
Variable literal_eval yaml_safe_load : string -> res pyval.
(** [int(x)] of a float, which raises for infinities and NaN. *)
Variable float_trunc : string -> res Z.
Variable environ : string -> option string.
Variable g : guard.
Variable dns : string -> dns_answer.
(** [WEBHOOK_MAX_CONCURRENT_DELIVERIES_PER_SUB] *)
Variable default_max_concurrent : Z.

Definition py_int_of (v : pyval) : res Z :=
  match v with
  | VInt _ | VBool _ => Ok (int_value v)
  | VFloat r => float_trunc r
  | VStr s => match py_int s with Some n => Ok n | None => Raise ValueError end
  | _ => Raise TypeError
  end.

(** [max(lo, int(raw))], the default for a missing value or one that is not
    an integer. *)
Definition bounded_int (lo dflt : Z) (raw : pyval) : res Z :=
  match raw with
  | VNone => Ok dflt
  | _ => match py_int_of raw with
         | Ok n => Ok (Z.max lo n)
         | Raise ValueError | Raise TypeError => Ok dflt
         | Raise e => Raise e
         end
  end.

(** [a or b] on values. *)
Definition py_or (a b : pyval) : pyval := if truthy a then a else b.

Definition environ_nonempty (v : string) : option string :=
  s ← environ v; if decide (s = "") then None else Some s.

(** The template and whether it came from [url-env-var]. *)
Definition resolve_url_template (fields : pydict) : string * bool :=
  match get_nonempty fields "url" with
  | Some u => (u, false)
  | None =>
      match get_nonempty fields "url-env-var" with
      | Some v => (default "" (environ_nonempty v), true)
      | None => ("", false)
      end
  end.

(** The tests on the URL at parse time: acceptance, or a skip. *)
Definition url_accepted (template : string) (from_env : bool) : res bool :=
  if decide (template = "") then Ok false
  else if from_env && str_contains "{{" template then Ok false
  else if negb from_env && bool_decide (url_template_has_forbidden_refs template <> None) then Ok false
  else
    let target := if from_env then template else re_sub VAR_RE (fun _ => "") template in
    d <-- validate_url g dns target ;;
    Ok (bool_decide (d = None)).

(** The text shown for a missing URL has a long dash, outside the range of the
    model's text: its UTF-8 bytes stand for it. *)
Definition disabled_subscription (path name : string) (fields : pydict) : subscription :=
  mk_sub path name (default "(disabled — url not validated)" (get_nonempty fields "url")) false
    None "on_success" [] [] "application/json" (get_nonempty fields "description") [] 10 0 [] None
    None (get_nonempty fields "agent") (get_nonempty fields "model") default_max_concurrent
    DEFAULT_EVENT_KINDS.

Definition parse_timeout (raw : option string) : Z :=
  match raw with
  | None => 10
  | Some t => match parse_duration t with Ok n => n | Raise _ => 10 end
  end.

Definition parse_subscription (path : string) (parsed : pydict) (context_body : string)
  : res (option subscription) :=
  let fields : pydict := prod_map id (fun v => VStr (field_text v)) <$> parsed in
  let name := default (stem path) (get_nonempty fields "name") in
  if negb (text_flag ["false"; "no"; "off"; "n"; "0"; ""] true fields "enabled")
  then Ok (Some (disabled_subscription path name fields))
  else
    let '(template, from_env) := resolve_url_template fields in
    accepted <-- url_accepted template from_env ;;
    if negb accepted then Ok None
    else
      let secret := v ← (match get_nonempty fields "signing-secret-env-var" with
                         | Some v => Some v
                         | None => get_nonempty fields "signing_secret_env_var"
                         end); environ_nonempty v in
      let when := default "on_success" (get_nonempty fields "notify-when") in
      let when := if decide (when ∈ VALID_NOTIFY_WHEN) then when else "on_success" in
      let list_of k := parse_list_field literal_eval (py_or (dict_get_none parsed k) (VStr "")) in
      retries <-- bounded_int 0 0 (dict_get_none parsed "retries") ;;
      cap <-- bounded_int 1 default_max_concurrent
                (py_or (dict_get_none parsed "max-concurrent-deliveries")
                       (dict_get_none parsed "max_concurrent_deliveries")) ;;
      let body := dict_get_none parsed "body" in
      Ok (Some (mk_sub path name template true secret when
        (list_of "notify-on-kind") (list_of "notify-on-response")
        (default "application/json" (get_nonempty fields "content-type"))
        (get_nonempty fields "description")
        (text_map (dict_get_none parsed "headers"))
        (parse_timeout (get_nonempty fields "timeout")) retries
        (text_map (dict_get_none parsed "extract"))
        (if truthy body then Some (str_strip (py_str body)) else None)
        (if decide (context_body = "") then None else Some context_body)
        (get_nonempty fields "agent") (get_nonempty fields "model") cap
        (normalize_events_field literal_eval (dict_get_none parsed "events")))).

(** [opened] is the file's text, [None] when [open] or [read] raises; every
    exception is caught and makes the file skipped. *)
Definition parse_webhook_file (path : string) (opened : option string) : option subscription :=
  match opened with
  | None => None
  | Some raw =>
      let r :=
        match frontmatter_match raw with
        | Some (yaml, rest) =>
            v <-- yaml_safe_load yaml ;;
            (if negb (truthy v) then parse_subscription path [] (str_strip rest)
             else match v with
                  | VDict d => parse_subscription path d (str_strip rest)
                  | _ => Raise AttributeError
                  end)
        | None => parse_subscription path [] (str_strip raw)
        end in
      match r with Ok s => s | Raise _ => None end
  end.
End Parse.

(** ** Filters *)

Definition matches_filters (sub : subscription) (success : bool) (kind response_preview : string) : bool :=
  if negb (events_match (s_events sub) EVENT_KIND_COMPLETION None) then false
  else if bool_decide (s_notify_when sub = "on_success") && negb success then false
  else if bool_decide (s_notify_when sub = "on_error") && success then false
  else if bool_decide (s_notify_on_kind sub <> []) &&
          negb (existsb (fnmatch kind) (s_notify_on_kind sub)) then false
  else if bool_decide (s_notify_on_response sub <> []) &&
          negb (existsb (fnmatch response_preview) (s_notify_on_response sub)) then false
  else true.

(** ** Lemmas *)

Lemma filter_nil_Forall {A} (P : A -> Prop) `{!forall x, Decision (P x)} (l : list A) :
  filter P l = [] -> Forall (fun x => ~ P x) l.
Proof.
  induction l as [|x l IH]; [constructor|]. rewrite filter_cons. case_decide; [done|].
  constructor; auto.
Qed.

(** What the parse-time test establishes. *)
Lemma no_forbidden_refs template :
  url_template_has_forbidden_refs template = None ->
  re_groups ENV_VAR_RE template = [] /\
  Forall (fun w => str_strip w ∈ URL_TEMPLATE_ALLOWED_VARS) (re_groups VAR_RE template).
Proof.
  unfold url_template_has_forbidden_refs. destruct (re_groups ENV_VAR_RE template); [|done].
  destruct (filter _ _) eqn:Hf; [|done]. intros _. split; [done|].
  apply filter_nil_Forall in Hf. rewrite Forall_forall in Hf. apply Forall_forall. intros w Hw.
  apply dec_stable, Hf, list_elem_of_fmap. eauto.
Qed.

(** A URL is a function of the allow-listed variables. *)
Lemma substitute_url_agree template c c' :
  (forall k, k ∈ URL_TEMPLATE_ALLOWED_VARS -> od_get c k = od_get c' k) ->
  substitute_url template c = substitute_url template c'.
Proof.
  intros Hk. unfold substitute_url. apply re_sub_ext. intros w _. unfold url_var, ctx_text.
  cbv zeta. destruct (decide (str_strip w ∉ URL_TEMPLATE_ALLOWED_VARS)) as [|Ha]; [done|].
  apply dec_stable in Ha. by rewrite Hk.
Qed.

(** *** The guard *)

Lemma scan_addrs_None host seen addrs :
  scan_addrs host seen addrs = None <->
  Forall (fun a => a = "" \/ a ∈ seen \/ host_is_private a = false) addrs.
Proof.
  revert seen. induction addrs as [|a addrs IH]; intros seen; [split; [constructor|done]|].
  cbn [scan_addrs]. rewrite Forall_cons. case_decide as Hd.
  - rewrite IH. tauto.
  - destruct (host_is_private a) eqn:Hp.
    + split; [done|]. intros [[?|[?|?]] _]; tauto || done.
    + rewrite IH, !Forall_forall. split.
      * intros H. split; [tauto|]. intros b Hb. destruct (H b Hb) as [|[[?%elem_of_singleton|]%elem_of_union|]]; subst; auto.
      * intros [_ H] b Hb. destruct (H b Hb) as [|[|]]; set_solver.
Qed.

(** Every resolved address is one that is not private, ... *)
Definition all_public (addrs : list string) : Prop :=
  Forall (fun a => a = "" \/ host_is_private a = false) addrs.

Lemma scan_addrs_public host addrs : scan_addrs host ∅ addrs = None <-> all_public addrs.
Proof.
  rewrite scan_addrs_None. unfold all_public. rewrite !Forall_forall. split; intros H a Ha;
    destruct (H a Ha) as [|]; set_solver.
Qed.

Lemma host_is_private_dotted a b c d :
  is_byte a -> is_byte b -> is_byte c -> is_byte d ->
  host_is_private (dotted a b c d) = true <-> internal_quad a b c d.
Proof.
  intros. unfold host_is_private. rewrite ip_address_dotted by done.
  rewrite <-not_public_quad by done. done.
Qed.

(** The conditions on the URL itself. *)
Definition url_target (url : string) (host : string) (p : option Z) : Prop :=
  exists parts, url <> "" /\ urlsplit url = Ok parts /\
    str_lower (u_scheme parts) ∈ URL_ALLOWED_SCHEMES /\
    host = str_lower (default "" (hostname (u_netloc parts))) /\ host <> "" /\
    port (u_netloc parts) = Ok p.

Lemma validate_url_accepts g dns url :
  validate_url g dns url = Ok None <->
  exists host p, url_target url host p /\
    let allowlisted := host_allowlisted g host (opt_port_text p host) in
    ((allowlisted = true /\ allow_loopback_hosts g = true) \/
     ((allowlisted = true \/ ((host ∉ LOOPBACK_HOST_ALIASES) /\ host_is_private host = false)) /\
      exists addrs, dns host = Resolved addrs /\ all_public addrs)).
Proof.
  unfold validate_url, url_target. split.
  - case_decide as Hne; [done|]. destruct (urlsplit url) as [parts|] eqn:Hu; [|done].
    case_decide as Hsch; [done|].
    remember (str_lower (default "" (hostname (u_netloc parts)))) as host eqn:Eh.
    case_decide as Hh; [done|]. rewrite res_bind_Ok. intros (p & Hp & Hv). exists host, p.
    split; [eauto 10|]. cbv zeta.
    destruct (host_allowlisted g host (opt_port_text p host)) eqn:Hal; cbn [andb negb] in *.
    + destruct (allow_loopback_hosts g); [auto|]. right. split; [auto|].
      destruct (dns host) as [addrs| |]; try done. injection Hv as Hv.
      exists addrs. by rewrite <-(scan_addrs_public host).
    + case_bool_decide as Hlo; [done|]. destruct (host_is_private host); [done|]. right. split; [auto|].
      destruct (dns host) as [addrs| |]; try done. injection Hv as Hv.
      exists addrs. by rewrite <-(scan_addrs_public host).
  - intros (host & p & (parts & Hne & Hu & Hsch & Eh & Hh & Hp) & Hor). cbv zeta in Hor.
    rewrite decide_False by done. rewrite Hu. rewrite decide_False by tauto. rewrite <-Eh.
    rewrite decide_False by done. rewrite Hp. cbn [res_bind].
    destruct (host_allowlisted g host (opt_port_text p host)) eqn:Hal; cbn [andb negb].
    + destruct (allow_loopback_hosts g); [done|].
      destruct Hor as [[_ ?]|(_ & addrs & -> & Ha)]; [done|]. by rewrite (proj2 (scan_addrs_public host addrs)).
    + destruct Hor as [[? _]|([?|[Hlo Hpr]] & addrs & -> & Ha)]; [done|done|].
      rewrite bool_decide_false by done. rewrite Hpr. by rewrite (proj2 (scan_addrs_public host addrs)).
Qed.

(** *** Normalised events *)

(** What a subscription can list. *)
Definition valid_event (e : string) : Prop :=
  e ∈ KNOWN_EVENT_KINDS \/ exists q, q ∈ HOOK_DECISION_SUB_KINDS /\ e = EVENT_KIND_HOOK_DECISION +:+ ":" +:+ q.

Lemma normalize_event_valid item e : normalize_event item = Some e -> valid_event e.
Proof.
  unfold normalize_event. destruct (partition ":" item) as [[base b] sub]. cbv zeta.
  destruct (decide (str_strip base ∉ KNOWN_EVENT_KINDS)) as [|Hb]; [done|].
  case_decide; [intros [= <-]; left; by apply dec_stable|].
  destruct (decide (_ \/ _)) as [|Hno]; [done|]. intros [= <-]. right. exists (str_strip sub).
  split; [apply dec_stable; tauto|]. f_equal.
  destruct (decide (str_strip base = EVENT_KIND_HOOK_DECISION)); tauto.
Qed.

Lemma normalize_events_valid lit raw :
  normalize_events_field lit raw <> [] /\ Forall valid_event (normalize_events_field lit raw).
Proof.
  assert (Hd : DEFAULT_EVENT_KINDS <> [] /\ Forall valid_event DEFAULT_EVENT_KINDS).
  { split; [done|]. repeat constructor. }
  assert (Hgo : forall items, Forall valid_event (omap normalize_event items)).
  { intros items. apply Forall_forall. intros e (i & _ & Hi)%list_elem_of_omap.
    by eapply normalize_event_valid. }
  unfold normalize_events_field. repeat case_match; try exact Hd; (split; [done|]);
    match goal with E : omap _ ?l = _ |- _ => rewrite <-E; apply Hgo end.
Qed.

(** *** Fields *)

Lemma bounded_int_ge ft lo dflt raw n :
  lo <= dflt -> bounded_int ft lo dflt raw = Ok n -> lo <= n.
Proof.
  intros Hd. unfold bounded_int. destruct raw; try (intros [= <-]; lia);
    (destruct (py_int_of _ _) as [m|[]]; intros [= <-]; lia).
Qed.

(** The template was accepted. *)
Lemma url_accepted_spec g dns template from_env :
  url_accepted g dns template from_env = Ok true ->
  template <> "" /\ re_groups ENV_VAR_RE template = [] /\
  Forall (fun w => str_strip w ∈ URL_TEMPLATE_ALLOWED_VARS) (re_groups VAR_RE template) /\
  validate_url g dns (re_sub VAR_RE (fun _ => "") template) = Ok None.
Proof.
  unfold url_accepted. case_decide as Hne; [done|].
  destruct from_env; cbn [andb negb].
  - destruct (str_contains "{{" template) eqn:Hc; [done|].
    rewrite res_bind_Ok. intros (d & Hd & [= Hb%bool_decide_eq_true]). subst d.
    assert (Hv : re_groups VAR_RE template = []) by by apply no_braces_no_groups.
    assert (He : re_groups ENV_VAR_RE template = []) by by apply no_braces_no_groups.
    rewrite re_sub_no_groups by done. rewrite He, Hv. split_and!; done || constructor.
  - case_bool_decide as Hf; [done|]. apply no_forbidden_refs in Hf as [He Hv].
    rewrite res_bind_Ok. intros (d & Hd & [= Hb%bool_decide_eq_true]). by subst d.
Qed.

(** *** Parsed subscriptions *)

Section ParseLemmas.
Variable literal_eval yaml_safe_load : string -> res pyval.
Variable float_trunc : string -> res Z.
Variable environ : string -> option string.
Variable g : guard.
Variable dns : string -> dns_answer.
Variable default_max_concurrent : Z.

Abbreviation parse_file :=
  (parse_webhook_file literal_eval yaml_safe_load float_trunc environ g dns default_max_concurrent).
Abbreviation parse_sub :=
  (parse_subscription literal_eval float_trunc environ g dns default_max_concurrent).

Lemma parse_file_sub path opened sub :
  parse_file path opened = Some sub -> exists d ctx, parse_sub path d ctx = Ok (Some sub).
Proof.
  destruct opened as [raw|]; [|done]. cbn [parse_webhook_file].
  destruct (frontmatter_match raw) as [[yaml rest]|].
  - destruct (yaml_safe_load yaml) as [v|]; [|done]. cbn [res_bind].
    destruct (truthy v); cbn [negb].
    + destruct v; try done. destruct (parse_sub _ _ _) eqn:E; [|done]. intros ->. eauto.
    + destruct (parse_sub _ _ _) eqn:E; [|done]. intros ->. eauto.
  - destruct (parse_sub _ _ _) eqn:E; [|done]. intros ->. eauto.
Qed.

(** The invariant of an enabled subscription. *)
Record sub_ok (sub : subscription) : Prop := {
  so_template : s_url_template sub <> "";
  so_env : re_groups ENV_VAR_RE (s_url_template sub) = [];
  so_vars : Forall (fun w => str_strip w ∈ URL_TEMPLATE_ALLOWED_VARS)
              (re_groups VAR_RE (s_url_template sub));
  so_guard : validate_url g dns (re_sub VAR_RE (fun _ => "") (s_url_template sub)) = Ok None;
  so_when : s_notify_when sub ∈ VALID_NOTIFY_WHEN;
  so_retries : 0 <= s_retries sub;
  so_cap : 1 <= s_max_concurrent sub;
  so_events : s_events sub <> [] /\ Forall valid_event (s_events sub)
}.

Lemma parse_sub_ok path d c sub :
  1 <= default_max_concurrent -> parse_sub path d c = Ok (Some sub) -> s_enabled sub = true -> sub_ok sub.
Proof.
  intros Hdm. unfold parse_subscription. cbv zeta. case_match; [by intros [= <-]|].
  destruct (resolve_url_template _ _) as [template from_env].
  rewrite res_bind_Ok. intros ([] & Hacc & Hr); [|done]. cbn [negb] in Hr.
  apply url_accepted_spec in Hacc as (Ht & He & Hv & Hg).
  apply res_bind_Ok in Hr as (retries & Hret & Hr). apply res_bind_Ok in Hr as (cap & Hcap & Hr).
  injection Hr as <-. intros _. apply bounded_int_ge in Hret; [|done]. apply bounded_int_ge in Hcap; [|done].
  pose proof (normalize_events_valid literal_eval (dict_get_none d "events")).
  split; cbn [s_url_template s_notify_when s_retries s_max_concurrent s_events]; try done.
  case_decide; [done|]. by left + (right; by left).
Qed.
End ParseLemmas.

(** ** Properties *)



(** Subscription files. An enabled subscription that the parser returns
    has a template without environment references and with allow-listed
    variables only, accepted by the guard once its placeholders are removed;
    a valid completion filter, non-negative retries, a positive cap, and
    events the runner knows, at least one; and the URL it renders depends on
    the allow-listed variables alone, so neither an extraction nor any other
    variable can steer a request. *)
Theorem parse_webhook_file_spec lit yaml ft environ g dns dmc path opened sub :
  1 <= dmc ->
  parse_webhook_file lit yaml ft environ g dns dmc path opened = Some sub ->
  s_enabled sub = true ->
  sub_ok g dns sub /\
  (forall c c', (forall k, k ∈ URL_TEMPLATE_ALLOWED_VARS -> od_get c k = od_get c' k) ->
     substitute_url (s_url_template sub) c = substitute_url (s_url_template sub) c').
Proof.
  intros Hd (d & c & Hp)%parse_file_sub He. split; [by eapply parse_sub_ok|].
  intros c1 c2. apply substitute_url_agree.
Qed.

Definition example_file : string :=
  "---" +:+ String nl "x" +:+ String nl "---" +:+ String nl "body".

Definition example_yaml : pydict :=
  mk_dict [("url", VStr "https://hooks.example/{{kind}}?s={{session_id}}"); ("retries", VInt 3);
           ("events", VStr "hook.decision:deny, completed, completion")].

Definition example_dns (h : string) : dns_answer := Resolved ["93.184.216.34"].

Definition example_parse : option subscription :=
  parse_webhook_file (fun _ => Raise ValueError) (fun _ => Ok (VDict example_yaml)) (fun _ => Raise ValueError)
    (fun _ => None) (mk_guard [] false) example_dns 10 "/w/notify.md" (Some example_file).

Lemma parse_webhook_file_spec_witness :
  exists sub, example_parse = Some sub /\ s_name sub = "notify" /\ s_retries sub = 3 /\
    s_events sub = ["hook.decision:deny"; "completion"] /\
    sub_ok (mk_guard [] false) example_dns sub.
Proof.
  eexists. split_and!; [vm_compute; reflexivity|vm_compute; reflexivity..|].
  refine (proj1 (parse_webhook_file_spec (fun _ => Raise ValueError) (fun _ => Ok (VDict example_yaml))
    (fun _ => Raise ValueError) (fun _ => None) (mk_guard [] false) example_dns 10 "/w/notify.md"
    (Some example_file) _ _ _ _)); [lia|vm_compute; reflexivity|reflexivity].
Defined.

(** A built-in variable next to the host changes it: the template passes the
    parse-time test on one host and renders to another. *)
Example variable_moves_the_host :
  let template := "https://hooks.example{{session_id}}/x" in
  url_template_has_forbidden_refs template = None /\
  validate_url (mk_guard [] false) example_dns (re_sub VAR_RE (fun _ => "") template) = Ok None /\
  substitute_url template [("session_id", VStr "@evil.example")] = "https://hooks.example@evil.example/x" /\
  hostname "hooks.example@evil.example" = Some "evil.example".
Proof. split_and!; vm_compute; reflexivity. Qed.

(** An invalid port is not a diagnostic: the [ValueError] escapes. *)
Example bad_port_escapes :
  validate_url (mk_guard [] false) example_dns "http://hooks.example:99999/" = Raise ValueError.
Proof. vm_compute. reflexivity. Qed.

(** Shared address space (RFC 6598), which some clouds use for their metadata
    service, is not internal to the guard. *)
Example shared_address_space_accepted :
  validate_url (mk_guard [] false) (fun _ => Resolved ["100.100.100.200"]) "http://meta.example/" = Ok None.
Proof. vm_compute. reflexivity. Qed.

(** A zero cap in the first field counts as missing. *)
Example zero_cap_ignored :
  let yaml := mk_dict [("url", VStr "https://h.example/"); ("max-concurrent-deliveries", VInt 0)] in
  s_max_concurrent <$>
    parse_webhook_file (fun _ => Raise ValueError) (fun _ => Ok (VDict yaml)) (fun _ => Raise ValueError)
      (fun _ => None) (mk_guard [] false) example_dns 10 "/w/notify.md" (Some example_file) = Some 10.
Proof. vm_compute. reflexivity. Qed.
