(* ===== verification/WebhookDelivery.v ===== *)
(** * Delivery of one webhook (harness/webhooks.py)

    Rendering of the request, the first POST, the retry chain with its
    back-off, the byte budget of pending retries and the events announced.
    A delivery is a function of what the outside answers (DNS, the receiver,
    the backends that run extractions, the clock) and returns the sequence of
    its effects, in order. *)
From Stdlib Require Import Ascii.
From S2P Require Import Prelude PyStr PyPath PyVal PyLib PyBytes PyUrl Broadcast EventSchema.
From S2P Require Import EventStream Utils Tracing Webhooks.

(** ** The body *)

Definition BODY_CAP : Z := 256 * 1024.

(** The encoded body and whether it was truncated. *)
Definition cap_body (cap : Z) (body : string) : string * bool :=
  let b := utf8_encode body in
  if cap <? str_len b then (utf8_encode (utf8_decode_ignore (str_take (Z.to_nat cap) b)), true)
  else (b, false).

(** ** Results *)

Definition RETRYABLE_STATUS_CODES : list Z := [408; 429; 500; 502; 503; 504].

Definition is_retryable_http (status_code : Z) : bool :=
  if decide (status_code ∈ RETRYABLE_STATUS_CODES) then true
  else (500 <=? status_code) && (status_code <? 600).

Definition http_result (code : Z) : string := "http_" +:+ py_str_int code.

(** [int(result.split("_", 1)[1])]; the results that start with [http_] all
    come from [http_result]. *)
Definition http_code (result : string) : option Z :=
  match partition "_" result with (_, true, rest) => py_int rest | _ => None end.

Definition is_retryable_result (result : string) : bool :=
  bool_decide (result = "error") ||
  (startswith "http_" result && is_retryable_http (default 0 (http_code result))).

(** ** The announcement on the event stream *)

(** [int(max(0.0, seconds) * 1000)] with the time in microseconds. *)
Definition duration_ms (us : Z) : Z := Z.max 0 us / 1000.

(** The type and payload [_publish_webhook_event] publishes. *)
Definition webhook_event (sub_name url result : string) (us : Z) : string * pydict :=
  let host := match urlsplit url with
              | Ok parts => default "" (hostname (u_netloc parts))
              | Raise _ => ""
              end in
  let ms := duration_ms us in
  if decide (result = "success") then
    ("webhook.delivered",
     mk_dict [("name", VStr sub_name); ("url_host", VStr host); ("status_code", VInt 200);
              ("duration_ms", VInt ms)])
  else if startswith "http_" result then
    let status := default 0 (http_code result) in
    ("webhook.failed",
     mk_dict ([("name", VStr sub_name); ("url_host", VStr host); ("reason", VStr "http_error");
               ("duration_ms", VInt ms)] ++
              (if (100 <=? status) && (status <=? 599) then [("status_code", VInt status)] else [])))
  else
    let reason :=
      if decide (result = "timeout_total" \/ result = "cancelled") then "timeout"
      else if decide (result = "url_validation_failed" \/ result = "url_revalidation_failed")
      then "dns_denied" else "exception" in
    ("webhook.failed",
     mk_dict [("name", VStr sub_name); ("url_host", VStr host); ("reason", VStr reason);
              ("duration_ms", VInt ms); ("error", VStr result)]).

(** ** The byte budget of pending retries *)

Record budget : Type := mk_budget { inflight : Z; per_sub : gmap string Z }.

Definition empty_budget : budget := mk_budget 0 ∅.

Definition sub_inflight (b : budget) (n : string) : Z := default 0 (per_sub b !! n).

Inductive admission : Type := Granted | ShedPerSub | ShedGlobal.

#[export] Instance admission_eq_dec : EqDecision admission.
Proof. solve_decision. Defined.

(** [_resolve_per_sub_budget]. *)
Definition resolve_per_sub_budget (raw : option string) (total : Z) : Z :=
  let derived := if total =? 0 then 0 else Z.max 1 (total / 4) in
  match raw with
  | Some r =>
      if decide (str_strip r <> "") then
        match py_int r with Some n => n | None => Z.max 0 (total / 4) end
      else derived
  | None => derived
  end.

Section Budget.
(** [WEBHOOK_RETRY_BYTES_BUDGET] and [WEBHOOK_RETRY_BYTES_PER_SUB]. *)
Variables total_cap sub_cap : Z.

(** The admission of a retry of [n] bytes, under the lock. *)
Definition admit_retry (b : budget) (name : string) (n : Z) : admission * budget :=
  if 0 <? total_cap then
    let cur := sub_inflight b name in
    if (0 <? sub_cap) && (sub_cap <? cur + n) then (ShedPerSub, b)
    else if total_cap <? inflight b + n then (ShedGlobal, b)
    else (Granted, mk_budget (inflight b + n) (<[name := cur + n]> (per_sub b)))
  else (Granted, b).

(** The [finally] clause of the retry task. *)
Definition release_retry (b : budget) (name : string) (n : Z) : budget :=
  if 0 <? total_cap then
    let cur := sub_inflight b name in
    let new := Z.max 0 (cur - n) in
    mk_budget (Z.max 0 (inflight b - n))
      (if new =? 0 then delete name (per_sub b) else <[name := new]> (per_sub b))
  else b.
End Budget.

(** ** Effects *)

Record request : Type := mk_request {
  rq_url : string;
  rq_body : string;
  rq_headers : list (string * string);
  rq_timeout : Z
}.

(** A POST answers a status, raises, or is cancelled while in flight. *)
Inductive post_outcome : Type :=
| PStatus (status : Z)
| PError
| PCancelled.

Inductive effect : Type :=
| EValidate (url : string) (verdict : res (option url_diag))
| EExtract (prompt : string)
| EPost (r : request) (o : post_outcome)
| ERecord (result : string)
| EPublish (result : string) (us : Z)
| ETruncated
| ESleep (seconds : Z).

(** ** The retry chain *)

(** What the outside does to one attempt. *)
Record attempt_env : Type := mk_attempt {
  at_sleep_cancelled : bool;
  at_recheck_cancelled : bool;
  at_dns : string -> dns_answer;
  at_post : post_outcome;
  at_elapsed : Z
}.

Inductive attempt_end : Type := AStop | AAgain | ACancelled.
Inductive chain_end : Type := Finished | Cancelled.

(** [min(2 ** (attempt - 1), 300.0)] *)
Definition backoff (attempt : Z) : Z := Z.min (2 ^ (attempt - 1)) 300.

Section Retry.
Variable g : guard.

(** The body of the loop after the sleep. *)
Definition attempt_once (rq : request) (e : attempt_env) : list effect * attempt_end :=
  if at_recheck_cancelled e then ([ERecord "cancelled"], ACancelled)
  else
    let v := validate_url g (at_dns e) (rq_url rq) in
    let check := EValidate (rq_url rq) v in
    match v with
    | Raise _ => ([check; ERecord "error"], AAgain)
    | Ok (Some _) => ([check; ERecord "url_revalidation_failed"], AStop)
    | Ok None =>
        let sent := [check; EPost rq (at_post e)] in
        match at_post e with
        | PStatus c =>
            if c <? 400 then (sent ++ [ERecord "success"; EPublish "success" (at_elapsed e)], AStop)
            else (sent ++ [ERecord (http_result c)], if is_retryable_http c then AAgain else AStop)
        | PError => (sent ++ [ERecord "error"], AAgain)
        | PCancelled => (sent ++ [ERecord "cancelled"], ACancelled)
        end
    end.

(** [while attempt < max_attempts], with [remaining = max_attempts - attempt]. *)
Fixpoint retry_loop (rq : request) (env : Z -> attempt_env) (remaining : nat) (attempt : Z)
  : list effect * chain_end :=
  match remaining with
  | O => ([], Finished)
  | S remaining' =>
      let sleep := ESleep (backoff attempt) in
      let attempt := attempt + 1 in
      let e := env attempt in
      if at_sleep_cancelled e then ([sleep], Cancelled)
      else
        match attempt_once rq e with
        | (effs, AStop) => (sleep :: effs, Finished)
        | (effs, ACancelled) => (sleep :: effs, Cancelled)
        | (effs, AAgain) =>
            let '(rest, fin) := retry_loop rq env remaining' attempt in (sleep :: effs ++ rest, fin)
        end
  end.

Definition retry_deliver (rq : request) (env : Z -> attempt_env) (attempt max_attempts : Z)
  : list effect * chain_end :=
  retry_loop rq env (Z.to_nat (max_attempts - attempt)) attempt.

(** The body of the retry task: [timed] when a cancellation is the one that
    the total timeout causes, which is counted. *)
Definition tracked_retry (rq : request) (env : Z -> attempt_env) (retries : Z) (timed : bool)
  : list effect * chain_end :=
  match retry_deliver rq env 1 (1 + retries) with
  | (effs, Cancelled) => if timed then (effs ++ [ERecord "timeout_total"], Finished) else (effs, Cancelled)
  | r => r
  end.
End Retry.

(** ** Rendering *)

Definition sanitize_header_value (value : string) : string :=
  str_remove (fun c => (code c <? 32) && negb (code c =? 9)) value.

(** [context.get(k, dflt)] and [context.get(k) or None]. *)
Definition ctx_get (c : ctx) (k : string) (dflt : pyval) : pyval := default dflt (od_get c k).
Definition ctx_or_none (c : ctx) (k : string) : pyval := py_or (ctx_get c k VNone) VNone.

Section Render.
(** [AGENT_NAME] *)
Variable agent_name : string.
Variable environ : string -> option string.
(** The hexadecimal HMAC-SHA256 of the bytes under a key. *)
Variable hmac_sha256 : string -> string -> string.
(** [inject_traceparent] of the OpenTelemetry layer. *)
Variable otel_inject : list (string * string) -> list (string * string).

Definition render_default_envelope (c : ctx) : string :=
  let t k := (k, ctx_get c k (VStr "")) in
  json_dumps_ascii (VDict (mk_dict
    [("event", VStr "agent.prompt.completed"); ("agent", ctx_get c "agent" (VStr agent_name));
     t "timestamp"; t "delivery_id";
     ("payload", VDict (mk_dict
       [t "kind"; t "session_id"; ("success", ctx_get c "success" (VBool false));
        ("error", ctx_or_none c "error"); ("duration_seconds", ctx_get c "duration_seconds" (VFloat "0.0"));
        t "response_preview"; ("model", ctx_or_none c "model")]))])).

Definition render_hook_decision_envelope (c : ctx) : string :=
  let t k := (k, ctx_get c k (VStr "")) in
  json_dumps_ascii (VDict (mk_dict
    [("event", VStr "hook.decision"); ("agent", ctx_get c "agent" (VStr agent_name));
     t "timestamp"; t "delivery_id";
     ("payload", VDict (mk_dict
       [t "session_id"; t "tool"; t "decision"; t "rule_name"; t "reason"; t "source";
        ("traceparent", ctx_or_none c "traceparent")]))])).

Definition sign_body (body secret : string) : string := "sha256=" +:+ hmac_sha256 secret body.

Definition SIGNATURE_HEADER : string := "X-Hub-Signature-256".

(** The headers before trace propagation. *)
Definition render_headers (sub : subscription) (c : ctx) (body : string) : list (string * string) :=
  let h := foldl (fun h kv => od_set h kv.1 (sanitize_header_value (substitute environ kv.2 c)))
             [("Content-Type", s_content_type sub)] (s_headers sub) in
  match s_signing_secret sub with
  | Some secret => if decide (secret = "") then h else od_set h SIGNATURE_HEADER (sign_body body secret)
  | None => h
  end.

Definition header_text (h : list (string * string)) (k : string) : string := default "" (od_get h k).

(** The OpenTelemetry span wins over the bare trace context. *)
Definition propagate_trace (h : list (string * string)) (bare : string) : list (string * string) :=
  let h := otel_inject h in
  if bool_decide (header_text h "traceparent" = "") && bool_decide (bare <> "")
  then od_set h "traceparent" bare else h.

(** ** One delivery *)

(** What [fire] passes for a completion. *)
Record completion : Type := mk_completion {
  c_source : string;
  c_kind : string;
  c_session_id : string;
  c_success : bool;
  c_response : string;
  c_duration : string;
  c_error : option string;
  c_model_used : option string
}.

(** [c_duration] is the text of the rounded duration. *)
Definition delivery_context (cp : completion) (delivery_id timestamp : string) : ctx :=
  [("agent", VStr agent_name); ("kind", VStr (c_kind cp)); ("session_id", VStr (c_session_id cp));
   ("success", VBool (c_success cp)); ("error", VStr (default "" (c_error cp)));
   ("duration_seconds", VFloat (c_duration cp)); ("response_preview", VStr (str_take 2048 (c_response cp)));
   ("model", VStr (default "" (c_model_used cp))); ("timestamp", VStr timestamp);
   ("delivery_id", VStr delivery_id); ("source", VStr (c_source cp))].

(** [backends] holds the configured backend ids and [ask] what a backend
    answers: the chunks, or [None] for a timeout or an exception. *)
Definition run_extraction (backends : list string) (ask : string -> string -> option (list string))
    (backend prompt : string) : string :=
  if decide (backend ∈ backends) then
    match ask backend prompt with
    | Some [] | None => ""
    | Some chunks => str_strip (str_join (String nl (String nl "")) chunks)
    end
  else "".

Definition run_extractions (sub : subscription) (backends : list string) (default_backend : option string)
    (ask : string -> string -> option (list string)) (preview : string) (c : ctx) : list effect * ctx :=
  match default_backend with
  | Some db =>
      if bool_decide (s_extract sub = [] \/ backends = [] \/ db = "") then ([], c)
      else
        let text := match s_context_template sub with
                    | Some t => if decide (t = "") then preview else substitute environ t c
                    | None => preview
                    end in
        let backend := match s_backend_id sub with
                       | Some b => if decide (b = "") then db else b
                       | None => db
                       end in
        foldl (fun '(effs, c) '(var, prompt) =>
                 let full := if decide (text = "") then prompt
                             else text +:+ String nl (String nl prompt) in
                 (effs ++ [EExtract full], od_set c var (VStr (run_extraction backends ask backend full))))
              ([], c) (s_extract sub)
  | None => ([], c)
  end.

Definition render_body (sub : subscription) (dflt : ctx -> string) (c : ctx) : string :=
  match s_body_template sub with
  | Some t => if decide (t = "") then dflt c else substitute environ t c
  | None => dflt c
  end.

(** The outside's answers to a delivery: the DNS at the first test and at the
    one before the POST, the receiver, the clock, and the attempts of the
    chain. *)
Record delivery_env : Type := mk_delivery_env {
  de_id : string;
  de_timestamp : string;
  de_dns : string -> dns_answer;
  de_dns_recheck : string -> dns_answer;
  de_post : post_outcome;
  de_elapsed : Z;
  de_attempt : Z -> attempt_env
}.

Inductive delivery_end : Type :=
| Delivered
| DeliveryRaised (e : exn)
| RetryScheduled (r : request)
| RetryShed (a : admission).

Variable g : guard.
Variables total_cap sub_cap : Z.

(** After the first POST: its result is recorded and announced, or a retry is
    admitted. *)
Definition conclude (sub : subscription) (rq : request) (result : string) (us : Z) (b : budget)
  : list effect * delivery_end * budget :=
  if bool_decide (result <> "success") && (0 <? s_retries sub) && is_retryable_result result then
    match admit_retry total_cap sub_cap b (s_name sub) (str_len (rq_body rq)) with
    | (Granted, b) => ([ERecord result], RetryScheduled rq, b)
    | (ShedPerSub, b) => ([ERecord result; ERecord "shed_retry_bytes_per_sub"], RetryShed ShedPerSub, b)
    | (ShedGlobal, b) => ([ERecord result; ERecord "shed_retry_bytes"], RetryShed ShedGlobal, b)
    end
  else ([ERecord result; EPublish result us], Delivered, b).

Definition first_post_result (o : post_outcome) : string :=
  match o with
  | PStatus c => if c <? 400 then "success" else http_result c
  | _ => "error"
  end.

(** The second test of the URL and the POST. *)
Definition first_attempt (sub : subscription) (rq : request) (env : delivery_env) (b : budget)
  : list effect * delivery_end * budget :=
  let v := validate_url g (de_dns_recheck env) (rq_url rq) in
  let check := EValidate (rq_url rq) v in
  match v with
  | Raise _ =>
      let '(effs, e, b) := conclude sub rq "error" (de_elapsed env) b in (check :: effs, e, b)
  | Ok (Some _) => ([check], Delivered, b)
  | Ok None =>
      let sent := [check; EPost rq (de_post env)] in
      match de_post env with
      | PCancelled => (sent, DeliveryRaised CancelledError, b)
      | o => let '(effs, e, b) := conclude sub rq (first_post_result o) (de_elapsed env) b in
             (sent ++ effs, e, b)
      end
  end.

Definition deliver (sub : subscription) (cp : completion) (backends : list string)
    (default_backend : option string) (ask : string -> string -> option (list string)) (bare : string)
    (env : delivery_env) (b : budget) : list effect * delivery_end * budget :=
  let c := delivery_context cp (de_id env) (de_timestamp env) in
  let url := substitute_url (s_url_template sub) c in
  if decide (url = "") then ([], Delivered, b)
  else
    let v := validate_url g (de_dns env) url in
    let check := EValidate url v in
    match v with
    | Raise e => ([check], DeliveryRaised e, b)
    | Ok (Some _) => ([check; ERecord "url_validation_failed"], Delivered, b)
    | Ok None =>
        let '(asked, c) := run_extractions sub backends default_backend ask
                             (str_take 2048 (c_response cp)) c in
        let '(body, truncated) := cap_body BODY_CAP (render_body sub render_default_envelope c) in
        let headers := propagate_trace (render_headers sub c body) bare in
        let rq := mk_request url body headers (s_timeout_seconds sub) in
        let '(effs, e, b) := first_attempt sub rq env b in
        (check :: asked ++ (if truncated then [ETruncated] else []) ++ effs, e, b)
    end.

(** A delivery with the retry chain it may have scheduled, and the budget when
    both are over. *)
Definition deliver_to_end (sub : subscription) (cp : completion) (backends : list string)
    (default_backend : option string) (ask : string -> string -> option (list string)) (bare : string)
    (env : delivery_env) (timed : bool) (b : budget) : list effect * budget :=
  match deliver sub cp backends default_backend ask bare env b with
  | (effs, RetryScheduled rq, b) =>
      (effs ++ (tracked_retry g rq (de_attempt env) (s_retries sub) timed).1,
       release_retry total_cap b (s_name sub) (str_len (rq_body rq)))
  | (effs, _, b) => (effs, b)
  end.

(** ** Hook decisions *)

Definition deliver_hook_decision (sub : subscription) (c : ctx) (env : delivery_env)
  : list effect * delivery_end :=
  let url := substitute_url (s_url_template sub) c in
  if decide (url = "") then ([], Delivered)
  else
    let v := validate_url g (de_dns env) url in
    let check := EValidate url v in
    match v with
    | Raise e => ([check], DeliveryRaised e)
    | Ok (Some _) => ([check; ERecord "url_validation_failed"], Delivered)
    | Ok None =>
        let body := (cap_body BODY_CAP (render_body sub render_hook_decision_envelope c)).1 in
        let h := render_headers sub c body in
        let tp := ctx_get c "traceparent" VNone in
        let h := if truthy tp then od_set h "traceparent" (py_str tp) else h in
        let h := if decide (header_text h "traceparent" = "") then otel_inject h else h in
        let rq := mk_request url body h (s_timeout_seconds sub) in
        let v2 := validate_url g (de_dns_recheck env) url in
        let recheck := EValidate url v2 in
        match v2 with
        | Raise _ => ([check; recheck; ERecord "error"], Delivered)
        | Ok (Some _) => ([check; recheck], Delivered)
        | Ok None =>
            let sent := [check; recheck; EPost rq (de_post env)] in
            match de_post env with
            | PCancelled => (sent, DeliveryRaised CancelledError)
            | o => (sent ++ [ERecord (first_post_result o)], Delivered)
            end
        end
    end.
End Render.

(** ** Lemmas: the body *)

(** The capped body is the encoding of the longest prefix of the body that
    fits. *)
Lemma cap_body_spec cap body :
  0 <= cap ->
  exists k, (k <= String.length body)%nat /\ (cap_body cap body).1 = utf8_encode (str_take k body) /\
    str_len (cap_body cap body).1 <= cap /\
    ((k < String.length body)%nat -> cap < str_len (utf8_encode (str_take (S k) body))) /\
    ((cap_body cap body).2 = false -> k = String.length body).
Proof.
  intros Hcap. unfold cap_body, str_len. destruct (Z.ltb_spec cap (Z.of_nat (String.length (utf8_encode body)))) as [Hlt|Hge].
  - destruct (decode_take (Z.to_nat cap) body) as (k & Hk & Hl & Hle & Hmax). cbn [fst snd]. rewrite Hk.
    exists k. split_and!; [done|done|lia|intros H; specialize (Hmax H); lia|done].
  - exists (String.length body). rewrite str_take_short by done. cbn [fst snd].
    split_and!; [lia|done|lia|lia|done].
Qed.

(** ** Lemmas: what a delivery did *)

Definition sent (effs : list effect) : list (request * post_outcome) :=
  omap (fun e => match e with EPost r o => Some (r, o) | _ => None end) effs.
Definition announced (effs : list effect) : list string :=
  omap (fun e => match e with EPublish r _ => Some r | _ => None end) effs.
Definition slept (effs : list effect) : list Z :=
  omap (fun e => match e with ESleep s => Some s | _ => None end) effs.

Definition delivered_outcome (o : post_outcome) : bool :=
  match o with PStatus c => c <? 400 | _ => false end.
Definition retryable_outcome (o : post_outcome) : bool :=
  match o with
  | PStatus c => negb (c <? 400) && is_retryable_http c
  | PError => true
  | PCancelled => false
  end.

(** Only the last request may have an outcome that is not worth a retry. *)
Fixpoint chain_ok (ps : list (request * post_outcome)) : Prop :=
  match ps with
  | [] | [_] => True
  | (_, o) :: rest => retryable_outcome o = true /\ chain_ok rest
  end.

Lemma chain_ok_cons r o ps : retryable_outcome o = true -> chain_ok ps -> chain_ok ((r, o) :: ps).
Proof. destruct ps; cbn; auto. Qed.

(** Every POST comes right after a test that accepted its URL. *)
Fixpoint guarded (prev : option effect) (effs : list effect) : Prop :=
  match effs with
  | [] => True
  | e :: rest =>
      match e with EPost r _ => prev = Some (EValidate (rq_url r) (Ok None)) | _ => True end /\
      guarded (Some e) rest
  end.

Lemma guarded_weaken p effs : guarded None effs -> guarded p effs.
Proof. destruct effs as [|e effs]; [done|]. cbn. intros [He Hr]. split; [|done]. by destruct e. Qed.

Lemma guarded_app p a b : guarded p a -> guarded None b -> guarded p (a ++ b).
Proof.
  revert p. induction a as [|e a IH]; intros p Ha Hb; [by apply guarded_weaken|].
  destruct Ha as [He Ha]. split; [done|]. by apply IH.
Qed.

Lemma guarded_spec p effs pre r o post :
  guarded p effs -> effs = pre ++ EPost r o :: post ->
  (pre = [] /\ p = Some (EValidate (rq_url r) (Ok None))) \/
  exists pre', pre = pre' ++ [EValidate (rq_url r) (Ok None)].
Proof.
  revert p pre. induction effs as [|e effs IH]; intros p pre Hg E; [by destruct pre|].
  destruct pre as [|x pre]; cbn [app] in E; injection E as -> E.
  - left. split; [done|]. apply Hg.
  - right. destruct (IH _ pre (proj2 Hg) E) as [[-> [= ->]]|[pre' ->]]; [by exists []|by exists (x :: pre')].
Qed.

Section Facts.
Variable g : guard.

(** The verdicts are the guard's. *)
Definition verdict_true (e : effect) : Prop :=
  match e with EValidate u v => exists dns, validate_url g dns u = v | _ => True end.

(** What holds of a sequence of attempts that send [rq]. *)
Record attempts_ok (rq : request) (effs : list effect) : Prop := {
  ao_guarded : guarded None effs;
  ao_verdicts : Forall verdict_true effs;
  ao_same : Forall (fun p => p.1 = rq) (sent effs);
  ao_chain : chain_ok (sent effs);
  ao_announced : announced effs = if existsb (fun p => delivered_outcome p.2) (sent effs) then ["success"] else []
}.

Definition no_posts (effs : list effect) : Prop := sent effs = [] /\ announced effs = [].

Lemma sent_app a b : sent (a ++ b) = sent a ++ sent b.
Proof. apply omap_app. Qed.
Lemma announced_app a b : announced (a ++ b) = announced a ++ announced b.
Proof. apply omap_app. Qed.
Lemma slept_app a b : slept (a ++ b) = slept a ++ slept b.
Proof. apply omap_app. Qed.

Lemma snoc_record effs r :
  sent (effs ++ [ERecord r]) = sent effs /\ announced (effs ++ [ERecord r]) = announced effs /\
  slept (effs ++ [ERecord r]) = slept effs.
Proof. rewrite sent_app, announced_app, slept_app. cbn. by rewrite !app_nil_r. Qed.

(** One attempt: at most one POST, and when the loop goes on it failed in a
    way worth a retry. *)
Lemma attempt_once_facts rq e effs fin :
  attempt_once g rq e = (effs, fin) ->
  attempts_ok rq effs /\ slept effs = [] /\
  (sent effs = [] \/ exists o, sent effs = [(rq, o)] /\ (fin = AAgain -> retryable_outcome o = true)).
Proof.
  unfold attempt_once. destruct (at_recheck_cancelled e).
  { intros [= <- <-]. split; [|split; [done|by left]]. split; try done; try (by repeat constructor). }
  destruct (validate_url g (at_dns e) (rq_url rq)) as [[d|]|x] eqn:Hv.
  - intros [= <- <-]. split; [|split; [done|by left]]. split; try done; repeat constructor; eexists; exact Hv.
  - destruct (at_post e) as [c| |] eqn:Ho.
    + destruct (c <? 400) eqn:Hc; intros [= <- <-]; cbn [app].
      * split; [|split; [done|right; by exists (PStatus c)]].
        split; try done; [repeat constructor; by eexists|repeat constructor|]. cbn. by rewrite Hc.
      * split; [|split; [done|right; exists (PStatus c)]].
        -- split; try done; [repeat constructor; by eexists|repeat constructor|]. cbn. by rewrite Hc.
        -- split; [done|]. cbn [retryable_outcome]. rewrite Hc. by destruct (is_retryable_http c).
    + intros [= <- <-]. split; [|split; [done|right; by exists PError]].
      split; try done; [repeat constructor; by eexists|repeat constructor].
    + intros [= <- <-]. split; [|split; [done|right; by exists PCancelled]].
      split; try done; [repeat constructor; by eexists|repeat constructor].
  - intros [= <- <-]. split; [|split; [done|by left]]. split; try done; repeat constructor; eexists; exact Hv.
Qed.

(** Effects that neither test nor send. *)
Lemma attempts_ok_cons rq e effs :
  match e with EValidate _ _ | EPost _ _ | EPublish _ _ => False | _ => True end ->
  attempts_ok rq effs -> attempts_ok rq (e :: effs).
Proof.
  intros He [Hg Hv Hs Hc Ha]. destruct e; try done; (split; try done;
    [split; [done|by apply guarded_weaken]|by constructor]).
Qed.

Lemma attempts_ok_app rq a b :
  attempts_ok rq a -> attempts_ok rq b ->
  (sent a = [] \/ exists o, sent a = [(rq, o)] /\ retryable_outcome o = true) ->
  attempts_ok rq (a ++ b).
Proof.
  intros [Hg Hv Hs Hc Ha] [Hg' Hv' Hs' Hc' Ha'] Hp. split.
  - by apply guarded_app.
  - by apply Forall_app.
  - rewrite sent_app. by apply Forall_app.
  - rewrite sent_app. destruct Hp as [->|(o & -> & Ho)]; [done|]. by apply chain_ok_cons.
  - rewrite announced_app, sent_app, Ha, Ha'. destruct Hp as [->|(o & -> & Ho)]; [done|].
    destruct o as [c| |]; cbn in *; [|done|done]. destruct (c <? 400); [done|]. done.
Qed.

Lemma retry_loop_facts rq env n attempt effs fin :
  retry_loop g rq env n attempt = (effs, fin) ->
  attempts_ok rq effs /\ (length (sent effs) <= n)%nat /\
  exists m, (m <= n)%nat /\ slept effs = backoff <$> seqZ attempt (Z.of_nat m).
Proof.
  revert attempt effs fin. induction n as [|n IH]; intros attempt effs fin; cbn [retry_loop].
  { intros [= <- <-]. split; [split; (done || constructor)|]. split; [done|]. by exists 0%nat. }
  assert (Hseq : forall m, seqZ attempt (Z.of_nat (S m)) = attempt :: seqZ (attempt + 1) (Z.of_nat m)).
  { intros m. rewrite seqZ_cons by lia. do 2 f_equal; lia. }
  destruct (at_sleep_cancelled (env (attempt + 1))).
  { intros [= <- <-]. split; [split; (done || by repeat constructor)|]. split; [cbn; lia|].
    exists 1%nat. split; [lia|done]. }
  destruct (attempt_once g rq (env (attempt + 1))) as [once fin1] eqn:Eo.
  destruct (attempt_once_facts rq _ once fin1 Eo) as (Hok & Hsl & Hp).
  assert (Hlen : (length (sent once) <= 1)%nat).
  { destruct Hp as [->|(o & -> & _)]; cbn; lia. }
  assert (Hstop : attempts_ok rq (ESleep (backoff attempt) :: once) /\
            (length (sent (ESleep (backoff attempt) :: once)) <= S n)%nat /\
            exists m, (m <= S n)%nat /\
              slept (ESleep (backoff attempt) :: once) = backoff <$> seqZ attempt (Z.of_nat m)).
  { split; [by apply attempts_ok_cons|]. split; [cbn; fold (sent once); lia|].
    exists 1%nat. split; [lia|]. cbn. fold (slept once). by rewrite Hsl. }
  destruct fin1; [by intros [= <- <-]| |by intros [= <- <-]].
  destruct (retry_loop g rq env n (attempt + 1)) as [rest fin2] eqn:Er.
  destruct (IH _ _ _ Er) as (Hrok & Hrlen & m & Hm & Hrsl). intros [= <- <-].
  split; [|split].
  - apply attempts_ok_cons; [done|]. apply attempts_ok_app; [done..|].
    destruct Hp as [?|(o & ? & Ho)]; [by left|right; exists o; auto].
  - change (sent (ESleep (backoff attempt) :: once ++ rest)) with (sent (once ++ rest)).
    rewrite sent_app, length_app. lia.
  - exists (S m). split; [lia|]. rewrite Hseq, fmap_cons.
    change (slept (ESleep (backoff attempt) :: once ++ rest)) with (backoff attempt :: slept (once ++ rest)).
    by rewrite slept_app, Hsl, Hrsl.
Qed.

Lemma tracked_retry_facts rq env retries timed :
  let effs := (tracked_retry g rq env retries timed).1 in
  attempts_ok rq effs /\ Z.of_nat (length (sent effs)) <= Z.max 0 retries /\
  exists m, slept effs = backoff <$> seqZ 1 (Z.of_nat m).
Proof.
  unfold tracked_retry, retry_deliver. destruct (retry_loop g rq env _ 1) as [effs fin] eqn:E.
  apply retry_loop_facts in E as (Hok & Hlen & m & _ & Hsl).
  assert (Hn : Z.of_nat (Z.to_nat (1 + retries - 1)) = Z.max 0 retries) by lia.
  cbv zeta. destruct fin; cbn [fst]; [split_and!; [done|lia|eauto]|].
  destruct timed; cbn [fst]; [|split_and!; [done|lia|eauto]].
  destruct (snoc_record effs "timeout_total") as (Es & Ea & El). rewrite Es, El.
  split_and!; [|lia|eauto]. destruct Hok as [Hg Hv Hs Hc Ha]. split; rewrite ?Es, ?Ea; try done.
  - by apply guarded_app.
  - apply Forall_app. split; [done|by constructor].
Qed.
End Facts.

(** *** Results as text *)

Lemma http_code_result c : http_code (http_result c) = Some c.
Proof.
  unfold http_code, http_result.
  change (partition "_" ("http_" +:+ py_str_int c)) with ("http", true, py_str_int c).
  apply py_int_str.
Qed.

Lemma retryable_http_result c : is_retryable_result (http_result c) = is_retryable_http c.
Proof.
  unfold is_retryable_result. rewrite http_code_result.
  rewrite (startswith_app "http_" (py_str_int c) : startswith "http_" (http_result c) = true).
  by rewrite bool_decide_false by done.
Qed.

Lemma first_post_result_retry o :
  o <> PCancelled -> first_post_result o <> "success" -> is_retryable_result (first_post_result o) = true ->
  retryable_outcome o = true.
Proof.
  destruct o as [c| |]; intros Hc; [|done|done]. cbn [first_post_result retryable_outcome].
  destruct (c <? 400); [done|]. by rewrite retryable_http_result.
Qed.

Lemma first_post_result_success o :
  o <> PCancelled -> first_post_result o = "success" <-> delivered_outcome o = true.
Proof.
  destruct o as [c| |]; intros Hc; [|done|done]. cbn. by destruct (c <? 400).
Qed.

Section DeliverFacts.
Variable agent_name : string.
Variable environ : string -> option string.
Variable hmac_sha256 : string -> string -> string.
Variable otel_inject : list (string * string) -> list (string * string).
Variable g : guard.
Variables total_cap sub_cap : Z.

(** Records and announcements only. *)
Definition bookkeeping (effs : list effect) : Prop :=
  Forall (fun e => match e with ERecord _ | EPublish _ _ => True | _ => False end) effs.

Lemma bookkeeping_facts effs :
  bookkeeping effs -> guarded None effs /\ Forall (verdict_true g) effs /\ sent effs = [] /\ slept effs = [].
Proof.
  induction 1 as [|e effs He _ (IHg & IHv & IHs & IHl)]; [by repeat constructor|].
  destruct e; try done; (split_and!; [split; [done|by apply guarded_weaken]|by constructor|done|done]).
Qed.

Lemma conclude_facts sub rq result us b effs e b' :
  conclude total_cap sub_cap sub rq result us b = (effs, e, b') ->
  bookkeeping effs /\
  match e with
  | RetryScheduled rq' =>
      rq' = rq /\ announced effs = [] /\ 0 < s_retries sub /\ result <> "success" /\
      is_retryable_result result = true /\
      admit_retry total_cap sub_cap b (s_name sub) (str_len (rq_body rq)) = (Granted, b')
  | RetryShed _ => announced effs = [] /\ result <> "success" /\ b' = b
  | Delivered => announced effs = [result] /\ b' = b
  | DeliveryRaised _ => False
  end.
Proof.
  unfold conclude. destruct (bool_decide (result <> "success")) eqn:Hs; cbn [andb].
  - apply bool_decide_eq_true in Hs. destruct (0 <? s_retries sub) eqn:Hr; cbn [andb].
    + apply Z.ltb_lt in Hr. destruct (is_retryable_result result) eqn:Hrr.
      * destruct (admit_retry _ _ _ _ _) as [[] b1] eqn:Ha; intros [= <- <- <-];
          (split; [by repeat constructor|]); try done;
          split_and!; try done; unfold admit_retry in Ha; repeat case_match; by simplify_eq.
      * intros [= <- <- <-]. split; [by repeat constructor|done].
    + intros [= <- <- <-]. split; [by repeat constructor|done].
  - intros [= <- <- <-]. split; [by repeat constructor|done].
Qed.

(** What holds of a sequence that sends [rq] at most once and is followed by a
    chain only after a failure worth a retry. *)
Definition first_ok (sub : subscription) (rq : request) (effs : list effect) (e : delivery_end) : Prop :=
  guarded None effs /\ Forall (verdict_true g) effs /\ slept effs = [] /\
  (sent effs = [] \/ exists o, sent effs = [(rq, o)]) /\
  (forall o, sent effs = [(rq, o)] -> delivered_outcome o = true -> announced effs = ["success"]) /\
  (sent effs = [] -> "success" ∉ announced effs) /\
  (length (announced effs) <= 1)%nat /\
  (forall o, sent effs = [(rq, o)] -> delivered_outcome o = false -> "success" ∉ announced effs) /\
  (forall rq', e = RetryScheduled rq' ->
     rq' = rq /\ announced effs = [] /\ 0 < s_retries sub /\
     forall o, sent effs = [(rq, o)] -> retryable_outcome o = true).

Lemma first_attempt_facts sub rq env b effs e b' :
  first_attempt g total_cap sub_cap sub rq env b = (effs, e, b') -> first_ok sub rq effs e.
Proof.
  unfold first_attempt. destruct (validate_url g (de_dns_recheck env) (rq_url rq)) as [[d|]|x] eqn:Hv.
  - intros [= <- <- <-]. split_and!; try done; [repeat constructor; by eexists|by left|cbn; set_solver|cbn; lia].
  - assert (Hpost : forall o, o <> PCancelled ->
        (let '(effs, e, b) := conclude total_cap sub_cap sub rq (first_post_result o) (de_elapsed env) b in
         ([EValidate (rq_url rq) (Ok None); EPost rq o] ++ effs, e, b)) = (effs, e, b') ->
        first_ok sub rq effs e).
    { intros o Ho. destruct (conclude _ _ _ _ _ _ _) as [[fx fe] fb] eqn:Hc.
      intros [= <- <- <-]. apply conclude_facts in Hc as [Hb Hend].
      destruct (bookkeeping_facts fx Hb) as (Hg & Hver & Hs & Hl).
      change ([EValidate (rq_url rq) (Ok None); EPost rq o] ++ fx)
        with (EValidate (rq_url rq) (Ok None) :: EPost rq o :: fx).
      assert (Hsent : sent (EValidate (rq_url rq) (Ok None) :: EPost rq o :: fx) = [(rq, o)])
        by (cbn; fold (sent fx); by rewrite Hs).
      assert (Hann : announced (EValidate (rq_url rq) (Ok None) :: EPost rq o :: fx) = announced fx) by done.
      assert (Hcase : announced fx = [] /\ first_post_result o <> "success" \/
                      announced fx = [first_post_result o]).
      { destruct fe; [right|done|left|left]; tauto. }
      unfold first_ok. rewrite Hsent, Hann. split_and!.
      - cbn. split; [done|]. split; [done|]. by apply guarded_weaken.
      - repeat (constructor; [done || by eexists|]). done.
      - done.
      - eauto.
      - intros o' [= <-] Hd. apply (first_post_result_success o Ho) in Hd.
        destruct Hcase as [[_ ?]| ->]; [done|by rewrite Hd].
      - done.
      - destruct Hcase as [[-> _]| ->]; cbn; lia.
      - intros o' [= <-] Hd. assert (Hns : first_post_result o <> "success").
        { intros Hx%(first_post_result_success o Ho). congruence. }
        destruct Hcase as [[-> _]| ->]; [by intros ?%not_elem_of_nil|].
        intros ?%list_elem_of_singleton. congruence.
      - intros rq' ->. destruct Hend as (-> & Ha & Hr & Hns & Hrr & _). split_and!; try done.
        intros o' [= <-]. by apply first_post_result_retry. }
    destruct (de_post env) as [c| |] eqn:Ho; [by apply Hpost|by apply Hpost|].
    intros [= <- <- <-]. split_and!; try done;
      [repeat constructor; by eexists|right; by eexists|by intros o [= <-]|cbn; lia|cbn; intros; apply not_elem_of_nil].
  - destruct (conclude _ _ _ _ _ _ _) as [[fx fe] fb] eqn:Hc. intros [= <- <- <-].
    apply conclude_facts in Hc as [Hb Hend]. destruct (bookkeeping_facts fx Hb) as (Hg & Hver & Hs & Hl).
    assert (Hcase : announced fx = [] \/ announced fx = ["error"]).
    { destruct fe; [right|done|left|left]; tauto. }
    unfold first_ok. change (sent (EValidate (rq_url rq) (Raise x) :: fx)) with (sent fx).
    change (announced (EValidate (rq_url rq) (Raise x) :: fx)) with (announced fx). rewrite Hs.
    split_and!; try done.
    + split; [done|by apply guarded_weaken].
    + constructor; [by eexists|done].
    + by left.
    + intros _. destruct Hcase as [->| ->]; set_solver.
    + destruct Hcase as [->| ->]; cbn; lia.
    + intros rq' ->. destruct Hend as (-> & Ha & Hr & _). split_and!; try done.
Qed.
(** Extractions only ask. *)
Lemma run_extractions_asks sub backends db ask preview c :
  Forall (fun e => match e with EExtract _ => True | _ => False end)
    (run_extractions environ sub backends db ask preview c).1.
Proof.
  unfold run_extractions. destruct db as [db|]; [|constructor]. case_bool_decide; [constructor|].
  match goal with
  | |- Forall ?P (foldl ?f ([], _) _).1 =>
      assert (Hgo : forall l acc c', Forall P acc -> Forall P (foldl f (acc, c') l).1); [|by apply Hgo]
  end.
  intros l. induction l as [|[v q] l IH]; intros acc c' Hacc; [done|]. cbn [foldl]. apply IH.
  apply Forall_app. split; [done|]. by constructor.
Qed.

Definition quiet (effs : list effect) : Prop :=
  Forall (fun e => match e with EExtract _ | ETruncated => True | _ => False end) effs.

Lemma quiet_facts effs :
  quiet effs ->
  guarded None effs /\ Forall (verdict_true g) effs /\ sent effs = [] /\ slept effs = [] /\ announced effs = [].
Proof.
  induction 1 as [|e effs He _ (IHg & IHv & IHs & IHl & IHa)]; [by repeat constructor|].
  destruct e; try done; (split_and!; [split; [done|by apply guarded_weaken]|by constructor|done..]).
Qed.

Lemma first_ok_quiet sub rq pre u v effs e :
  verdict_true g (EValidate u v) -> quiet pre -> first_ok sub rq effs e ->
  first_ok sub rq (EValidate u v :: pre ++ effs) e.
Proof.
  intros Hu Hq (Hg & Hv & Hl & Hs & Hd & Hn & Hlen & Hf & Hr).
  destruct (quiet_facts pre Hq) as (Qg & Qv & Qs & Ql & Qa). unfold first_ok.
  change (sent (EValidate u v :: pre ++ effs)) with (sent (pre ++ effs)).
  change (announced (EValidate u v :: pre ++ effs)) with (announced (pre ++ effs)).
  change (slept (EValidate u v :: pre ++ effs)) with (slept (pre ++ effs)).
  rewrite sent_app, announced_app, slept_app, Qs, Qa, Ql. cbn [app].
  split_and!; try done.
  - cbn. split; [done|]. apply guarded_weaken. by apply guarded_app.
  - constructor; [done|]. by apply Forall_app.
Qed.

Lemma first_ok_nothing sub rq effs e :
  guarded None effs -> Forall (verdict_true g) effs -> slept effs = [] -> sent effs = [] -> announced effs = [] ->
  (forall rq', e <> RetryScheduled rq') -> first_ok sub rq effs e.
Proof.
  intros Hg Hv Hl Hs Ha He. unfold first_ok. rewrite Hs, Ha, Hl. split_and!; try done; [by left|set_solver|cbn; lia|].
  intros rq' ->. by destruct (He rq').
Qed.

(** The request of a delivery: the rendered URL, a body within the cap, and a
    signature of that body. *)
Definition request_ok (sub : subscription) (url : string) (rq : request) : Prop :=
  rq_url rq = url /\ rq_timeout rq = s_timeout_seconds sub /\ str_len (rq_body rq) <= BODY_CAP /\
  forall secret, s_signing_secret sub = Some secret -> secret <> "" ->
    od_get (rq_headers rq) SIGNATURE_HEADER = Some (sign_body hmac_sha256 (rq_body rq) secret).

(** The OpenTelemetry propagator writes its own headers only. *)
Definition inject_keeps_signature : Prop :=
  forall h, od_get (otel_inject h) SIGNATURE_HEADER = od_get h SIGNATURE_HEADER.

Lemma headers_signed sub c body bare secret :
  inject_keeps_signature -> s_signing_secret sub = Some secret -> secret <> "" ->
  od_get (propagate_trace otel_inject (render_headers environ hmac_sha256 sub c body) bare) SIGNATURE_HEADER
  = Some (sign_body hmac_sha256 body secret).
Proof.
  intros Hot Hsec Hne. unfold propagate_trace.
  assert (Hr : od_get (otel_inject (render_headers environ hmac_sha256 sub c body)) SIGNATURE_HEADER
               = Some (sign_body hmac_sha256 body secret)).
  { rewrite Hot. unfold render_headers. rewrite Hsec, decide_False by done. apply od_set_get. }
  destruct (_ && _); [|done]. by rewrite od_set_get_ne by done.
Qed.

Lemma deliver_facts sub cp backends db ask bare env b effs e b' :
  inject_keeps_signature ->
  deliver agent_name environ hmac_sha256 otel_inject g total_cap sub_cap sub cp backends db ask bare env b
    = (effs, e, b') ->
  exists rq, first_ok sub rq effs e /\
    request_ok sub (substitute_url (s_url_template sub)
                      (delivery_context agent_name cp (de_id env) (de_timestamp env))) rq.
Proof.
  intros Hot. unfold deliver. set (c := delivery_context _ _ _ _). set (url := substitute_url _ c).
  set (mk := fun body c => mk_request url body (propagate_trace otel_inject
               (render_headers environ hmac_sha256 sub c body) bare) (s_timeout_seconds sub)).
  assert (Hmk : forall body c, str_len body <= BODY_CAP -> request_ok sub url (mk body c)).
  { intros body c' Hb. split_and!; [done|done|done|]. intros secret Hs Hne. by apply headers_signed. }
  assert (Hempty : request_ok sub url (mk "" c)) by (by apply Hmk).
  destruct (decide (url = "")).
  { intros [= <- <- <-]. exists (mk "" c). split; [|done]. apply first_ok_nothing; done || constructor. }
  destruct (validate_url g (de_dns env) url) as [[d|]|x] eqn:Hv.
  - intros [= <- <- <-]. exists (mk "" c). split; [|done].
    apply first_ok_nothing; try done. repeat constructor. by eexists.
  - destruct (run_extractions environ sub backends db ask _ c) as [asked c2] eqn:Hx.
    destruct (cap_body BODY_CAP _) as [body tr] eqn:Hcap.
    destruct (first_attempt _ _ _ _ _ _ _) as [[fx fe] fb] eqn:Hf. intros [= <- <- <-].
    exists (mk body c2). split.
    + rewrite app_assoc. apply first_ok_quiet.
      * by exists (de_dns env).
      * apply Forall_app. split.
        -- pose proof (run_extractions_asks sub backends db ask (str_take 2048 (c_response cp)) c) as Ha.
           rewrite Hx in Ha. eapply Forall_impl; [exact Ha|]. by intros [].
        -- destruct tr; by repeat constructor.
      * by eapply first_attempt_facts.
    + apply Hmk.
      destruct (cap_body_spec BODY_CAP (render_body environ sub (render_default_envelope agent_name) c2))
        as (k & _ & _ & Hle & _); [done|]. by rewrite Hcap in Hle.
  - intros [= <- <- <-]. exists (mk "" c). split; [|done].
    apply first_ok_nothing; try done. repeat constructor. by eexists.
Qed.
End DeliverFacts.

(** ** Properties: requests and announcements *)

Section Delivery.
Variable agent_name : string.
Variable environ : string -> option string.
Variable hmac_sha256 : string -> string -> string.
Variable otel_inject : list (string * string) -> list (string * string).
Variable g : guard.
Variables total_cap sub_cap : Z.

Abbreviation run_delivery :=
  (deliver_to_end agent_name environ hmac_sha256 otel_inject g total_cap sub_cap).

(** A first attempt and the chain it scheduled. *)
Lemma first_then_chain sub rq e1 b env timed e2 :
  first_ok g sub rq e1 (RetryScheduled b) ->
  e2 = (tracked_retry g b env (s_retries sub) timed).1 ->
  guarded None (e1 ++ e2) /\ Forall (verdict_true g) (e1 ++ e2) /\
  Forall (fun p => p.1 = rq) (sent (e1 ++ e2)) /\ chain_ok (sent (e1 ++ e2)) /\
  Z.of_nat (length (sent (e1 ++ e2))) <= 1 + Z.max 0 (s_retries sub) /\
  (exists m, slept (e1 ++ e2) = backoff <$> seqZ 1 (Z.of_nat m)) /\
  announced (e1 ++ e2) = (if existsb (fun p => delivered_outcome p.2) (sent (e1 ++ e2)) then ["success"] else []).
Proof.
  intros (Hg & Hv & Hl & Hs & _ & _ & _ & _ & Hr) ->.
  destruct (Hr b eq_refl) as (-> & Ha & Hpos & Hretry).
  destruct (tracked_retry_facts g rq env (s_retries sub) timed) as ([Hg2 Hv2 Hs2 Hc2 Ha2] & Hlen & m & Hm).
  set (e2 := (tracked_retry g rq env (s_retries sub) timed).1) in *.
  rewrite sent_app, slept_app, announced_app, Ha, Hl, Ha2. cbn [app].
  assert (Hfail : forall o, retryable_outcome o = true -> delivered_outcome o = false).
  { intros [c| |]; cbn; [|done|done]. by destruct (c <? 400). }
  split_and!.
  - by apply guarded_app.
  - by apply Forall_app.
  - apply Forall_app. split; [|done]. destruct Hs as [->|[o ->]]; by repeat constructor.
  - destruct Hs as [->|[o Ho]]; [done|]. rewrite Ho. by apply chain_ok_cons; [apply Hretry|].
  - rewrite length_app. destruct Hs as [->|[o ->]]; cbn [length]; lia.
  - by exists m.
  - destruct Hs as [->|[o Ho]]; [done|]. rewrite Ho. cbn [app existsb snd].
    by rewrite (Hfail o (Hretry o Ho)).
Qed.

(** The requests of a sequence of effects: what C44 states of a delivery. *)
Definition requests_ok (sub : subscription) (url : string) (effs : list effect) : Prop :=
  (forall pre r o post, effs = pre ++ EPost r o :: post ->
     exists pre' dns, pre = pre' ++ [EValidate (rq_url r) (Ok None)] /\
       validate_url g dns (rq_url r) = Ok None) /\
  (exists rq, Forall (fun p => p.1 = rq) (sent effs) /\ request_ok hmac_sha256 sub url rq) /\
  chain_ok (sent effs) /\
  Z.of_nat (length (sent effs)) <= 1 + Z.max 0 (s_retries sub) /\
  exists m, slept effs = backoff <$> seqZ 1 (Z.of_nat m).

Lemma posts_after_verdict e :
  guarded None e -> Forall (verdict_true g) e ->
  forall pre r o post, e = pre ++ EPost r o :: post ->
  exists pre' dns, pre = pre' ++ [EValidate (rq_url r) (Ok None)] /\ validate_url g dns (rq_url r) = Ok None.
Proof.
  intros Hg Hv pre r o post E. destruct (guarded_spec None e pre r o post Hg E) as [[_ ?]|[pre' ->]]; [done|].
  subst e. apply Forall_app in Hv as [Hv _]. apply Forall_app in Hv as [_ Hv].
  apply Forall_cons in Hv as [[dns Hdns] _]. eauto.
Qed.

Lemma first_requests_ok sub url rq e1 e :
  first_ok g sub rq e1 e -> request_ok hmac_sha256 sub url rq -> requests_ok sub url e1.
Proof.
  intros (Hg & Hv & Hl & Hs & _) Hrq. split_and!.
  - by apply posts_after_verdict.
  - exists rq. split; [|done]. destruct Hs as [->|[o ->]]; by repeat constructor.
  - by destruct Hs as [->|[o ->]].
  - destruct Hs as [->|[o ->]]; cbn [length]; lia.
  - exists 0%nat. by rewrite Hl.
Qed.


(** Membership in a list of constants, by evaluation. *)
Ltac listed := apply (bool_decide_eq_true_1 _); vm_compute; reflexivity.

(** The event of any result is accepted by the event stream. *)
Lemma webhook_event_conforms sub_name url result us :
  sub_name <> "" ->
  exists fs, od_get payload_schema (webhook_event sub_name url result us).1 = Some fs /\
    conforms fs (webhook_event sub_name url result us).2.
Proof.
  intros Hn. assert (Hms : 0 <= duration_ms us) by (apply Z.div_pos; lia).
  unfold webhook_event. set (host := match urlsplit url with Ok _ => _ | Raise _ => _ end). cbv zeta.
  assert (Hname : has_fty FNonEmptyStr (VStr sub_name)) by (by exists sub_name).
  assert (Hhost : has_fty FStr (VStr host)) by by eexists.
  assert (Hdur : has_fty FNonNeg (VInt (duration_ms us))) by by eexists.
  assert (Hreq : forall p k t v, dict_get p k = Some v -> has_fty t v -> has_field p k t)
    by (intros; eexists; eauto).
  assert (Hopt : forall p k t v, dict_get p k = Some v -> has_fty t v -> opt_field p k t)
    by (intros p k t v Hk Ht v'; rewrite Hk; by intros [= <-]).
  destruct (decide (result = "success")); [|destruct (startswith "http_" result)].
  - eexists. split; [reflexivity|]. repeat apply Forall_cons_2; [..|apply Forall_nil_2]; cbn [field_ok snd];
      try by eapply Hreq. eapply Hreq; [reflexivity|]. exists 200. split; [done|lia].
  - eexists. split; [reflexivity|]. cbn [snd].
    destruct ((100 <=? _) && (_ <=? 599)) eqn:Hst.
    + apply andb_true_iff in Hst as [H1%Z.leb_le H2%Z.leb_le].
      repeat apply Forall_cons_2; [..|apply Forall_nil_2]; cbn [field_ok]; try by eapply Hreq.
      * eapply Hreq; [reflexivity|]. exists "http_error". split; [done|]. listed.
      * eapply Hopt; [reflexivity|]. eexists. split; [done|lia].
      * intros v. by cbn.
    + repeat apply Forall_cons_2; [..|apply Forall_nil_2]; cbn [field_ok]; try by eapply Hreq.
      * eapply Hreq; [reflexivity|]. exists "http_error". split; [done|]. listed.
      * intros v. by cbn.
      * intros v. by cbn.
  - eexists. split; [reflexivity|]. cbn [snd].
    repeat apply Forall_cons_2; [..|apply Forall_nil_2]; cbn [field_ok]; try by eapply Hreq.
    + eapply Hreq; [reflexivity|]. eexists. split; [done|]. repeat case_decide; listed.
    + intros v. by cbn.
    + eapply Hopt; [reflexivity|]. by eexists.
Qed.

Lemma first_announced sub rq e1 e :
  first_ok g sub rq e1 e ->
  let delivered := existsb (fun p => delivered_outcome p.2) (sent e1) in
  (length (announced e1) <= 1)%nat /\ ("success" ∈ announced e1 <-> delivered = true) /\
  (length (sent e1) <= 1)%nat.
Proof.
  intros (_ & _ & _ & Hs & Hd & Hn & Hlen & Hf & _). split; [done|].
  destruct Hs as [Hs|[o Hs]]; rewrite Hs in *; cbn [existsb snd length orb].
  - split; [|lia]. split; [intros Hx; by destruct (Hn eq_refl)|done].
  - rewrite orb_false_r. split; [|lia]. destruct (delivered_outcome o) eqn:Ho.
    + rewrite (Hd o eq_refl Ho). set_solver.
    + split; [intros Hx; by destruct (Hf o eq_refl Ho)|done].
Qed.

(** The announcements of a delivery. There is at most one event, and it
    is a success exactly when some POST was answered with a status below 400;
    a delivery that was retried announces nothing else, so a chain that gives
    up ends without any event. Whatever is announced, the event stream
    accepts it. *)
Theorem delivery_announcements sub cp backends db ask bare env timed b effs b' :
  inject_keeps_signature otel_inject ->
  run_delivery sub cp backends db ask bare env timed b = (effs, b') ->
  let delivered := existsb (fun p => delivered_outcome p.2) (sent effs) in
  (length (announced effs) <= 1)%nat /\
  ("success" ∈ announced effs <-> delivered = true) /\
  ((2 <= length (sent effs))%nat -> delivered = false -> announced effs = []) /\
  (forall url result us now n, s_name sub <> "" -> now <> "" ->
     let '(type_, payload) := webhook_event (s_name sub) url result us in
     validate (to_dict (mk_envelope type_ (VInt 1) (py_str_int n) now VNone payload)) = Ok None).
Proof.
  intros Hot Hrun. cbv zeta.
  assert (Hev : forall url result us now n, s_name sub <> "" -> now <> "" ->
     let '(type_, payload) := webhook_event (s_name sub) url result us in
     validate (to_dict (mk_envelope type_ (VInt 1) (py_str_int n) now VNone payload)) = Ok None).
  { intros url result us now n Hn Hnow.
    destruct (webhook_event_conforms (s_name sub) url result us Hn) as (fs & Hfs & Hc).
    destruct (webhook_event _ _ _ _) as [t p]. eapply payload_accepted; eauto. }
  revert Hrun. unfold deliver_to_end.
  destruct (deliver _ _ _ _ _ _ _ _ _ _ _ _ _ _ _) as [[e1 fin] b1] eqn:Hd.
  apply deliver_facts in Hd as (rq & Hfirst & _); [|done].
  destruct (first_announced _ _ _ _ Hfirst) as (H1 & H2 & H3).
  destruct fin as [|x|rq'|a]; intros [= <- <-]; try (split_and!; done || (intros; lia)).
  destruct (first_then_chain sub rq e1 rq' (de_attempt env) timed _ Hfirst eq_refl)
    as (_ & _ & _ & _ & _ & _ & Ha). rewrite Ha.
  destruct (existsb (fun p => delivered_outcome p.2) (sent (e1 ++ _)));
    (split; [cbn [length]; lia|]); (split; [|by split]).
  - split; [done|]. intros _. apply list_elem_of_here.
  - split; [by intros ?%not_elem_of_nil|done].
Qed.
End Delivery.

(** ** The budget as an accounting of live chains

    The specification keeps no counter: its state is the list of the retry
    chains alive, with the subscription and the bytes each pins.  The
    counters of the code implement it. *)

Definition chain : Type := (string * Z)%type.

Fixpoint total (l : list chain) : Z := match l with [] => 0 | c :: l' => c.2 + total l' end.
Definition total_of (name : string) (l : list chain) : Z := total (filter (fun c => c.1 = name) l).

Inductive retry_event : Type :=
| Admit (name : string) (bytes : Z) (verdict : admission)
| End (name : string) (bytes : Z).

Section Accounting.
Variables total_cap sub_cap : Z.

(** What the configuration promises. *)
Inductive spec_step : list chain -> retry_event -> list chain -> Prop :=
| spec_grant l name n :
    0 <= n -> (0 < sub_cap -> total_of name l + n <= sub_cap) -> total l + n <= total_cap ->
    spec_step l (Admit name n Granted) (l ++ [(name, n)])
| spec_shed_per_sub l name n :
    0 <= n -> 0 < sub_cap -> sub_cap < total_of name l + n ->
    spec_step l (Admit name n ShedPerSub) l
| spec_shed_global l name n :
    0 <= n -> (0 < sub_cap -> total_of name l + n <= sub_cap) -> total_cap < total l + n ->
    spec_step l (Admit name n ShedGlobal) l
| spec_end l1 l2 name n :
    spec_step (l1 ++ (name, n) :: l2) (End name n) (l1 ++ l2).

(** The code: the counters, and the tasks that hold a reservation until their
    [finally] clause runs. *)
Inductive code_step : budget * list chain -> retry_event -> budget * list chain -> Prop :=
| code_admit b l name n v b' :
    0 <= n -> admit_retry total_cap sub_cap b name n = (v, b') ->
    code_step (b, l) (Admit name n v) (b', if decide (v = Granted) then l ++ [(name, n)] else l)
| code_end b l1 l2 name n :
    code_step (b, l1 ++ (name, n) :: l2) (End name n) (release_retry total_cap b name n, l1 ++ l2).

(** The refinement relation. *)
Definition counts (s : budget * list chain) (l : list chain) : Prop :=
  s.2 = l /\ Forall (fun c => 0 <= c.2) l /\ inflight s.1 = total l /\
  forall name, sub_inflight s.1 name = total_of name l.

Lemma total_app l1 l2 : total (l1 ++ l2) = total l1 + total l2.
Proof. induction l1 as [|c l1 IH]; [done|]. cbn. rewrite IH. lia. Qed.

Lemma total_of_app name l1 l2 : total_of name (l1 ++ l2) = total_of name l1 + total_of name l2.
Proof. unfold total_of. rewrite filter_app. apply total_app. Qed.

Lemma total_of_cons name c l :
  total_of name (c :: l) = (if decide (c.1 = name) then c.2 else 0) + total_of name l.
Proof. unfold total_of. rewrite filter_cons. by case_decide. Qed.

Lemma total_nonneg l : Forall (fun c => 0 <= c.2) l -> 0 <= total l.
Proof. induction 1 as [|c l Hc _ IH]; cbn; lia. Qed.

Lemma total_of_nonneg name l : Forall (fun c => 0 <= c.2) l -> 0 <= total_of name l.
Proof.
  intros Hl. apply total_nonneg, Forall_forall. intros c [_ Hc]%list_elem_of_filter.
  rewrite Forall_forall in Hl. auto.
Qed.

Lemma sub_inflight_insert b name n v name' :
  sub_inflight (mk_budget v (<[name := n]> (per_sub b))) name' =
  if decide (name = name') then n else sub_inflight b name'.
Proof.
  unfold sub_inflight. cbn [per_sub]. case_decide as Hn; [subst; by rewrite lookup_insert_eq|].
  by rewrite lookup_insert_ne.
Qed.

Lemma sub_inflight_delete b name v name' :
  sub_inflight (mk_budget v (delete name (per_sub b))) name' =
  if decide (name = name') then 0 else sub_inflight b name'.
Proof.
  unfold sub_inflight. cbn [per_sub]. case_decide as Hn; [subst; by rewrite lookup_delete_eq|].
  by rewrite lookup_delete_ne.
Qed.

(** An admission counts the chain. *)
Lemma admit_counts b l name n v b' :
  0 < total_cap -> 0 <= n -> counts (b, l) l -> admit_retry total_cap sub_cap b name n = (v, b') ->
  exists l', spec_step l (Admit name n v) l' /\
    counts (b', if decide (v = Granted) then l ++ [(name, n)] else l) l'.
Proof.
  intros Hcap Hn (_ & Hl & Htot & Hsub). unfold admit_retry.
  destruct (Z.ltb_spec 0 total_cap); [|lia]. rewrite Hsub. cbn [fst snd] in Htot. rewrite Htot.
  destruct ((0 <? sub_cap) && (sub_cap <? total_of name l + n)) eqn:Hs.
  - apply andb_true_iff in Hs as [H1%Z.ltb_lt H2%Z.ltb_lt]. intros [= <- <-]. exists l.
    split; [by apply spec_shed_per_sub|done].
  - assert (Hok : 0 < sub_cap -> total_of name l + n <= sub_cap).
    { apply andb_false_iff in Hs as [Hs%Z.ltb_ge|Hs%Z.ltb_ge]; lia. }
    destruct (Z.ltb_spec total_cap (total l + n)); intros [= <- <-].
    + exists l. split; [by apply spec_shed_global|done].
    + exists (l ++ [(name, n)]). split; [by apply spec_grant|]. rewrite decide_True by done.
      split_and!; [done|apply Forall_app; split; [done|by constructor]|cbn [fst inflight]; rewrite total_app; cbn; lia|].
      intros name'. cbn [fst]. rewrite sub_inflight_insert, total_of_app, total_of_cons. cbn [fst snd].
      change (total_of name' []) with 0. case_decide; subst; [lia|]. rewrite Hsub. lia.
Qed.

(** The [finally] clause un-counts it: the clamps at zero never act. *)
Lemma release_counts b l1 l2 name n :
  0 < total_cap -> counts (b, l1 ++ (name, n) :: l2) (l1 ++ (name, n) :: l2) ->
  counts (release_retry total_cap b name n, l1 ++ l2) (l1 ++ l2).
Proof.
  intros Hcap (_ & Hl & Htot & Hsub). cbn [fst snd] in *. unfold release_retry.
  destruct (Z.ltb_spec 0 total_cap); [|lia].
  apply Forall_app in Hl as [Hl1 [Hn Hl2]%Forall_cons]. cbn [snd] in Hn.
  assert (Hrest : Forall (fun c => 0 <= c.2) (l1 ++ l2)) by by apply Forall_app.
  pose proof (total_nonneg _ Hrest) as Ht. rewrite total_app in Htot, Ht. cbn [total snd] in Htot.
  assert (Hof : forall name', total_of name' (l1 ++ (name, n) :: l2) =
                (if decide (name = name') then n else 0) + total_of name' (l1 ++ l2)).
  { intros name'. rewrite !total_of_app, total_of_cons. cbn [fst snd]. lia. }
  pose proof (total_of_nonneg name _ Hrest) as Hnn.
  assert (Hcur : sub_inflight b name - n = total_of name (l1 ++ l2)).
  { rewrite Hsub, Hof, decide_True by done. lia. }
  rewrite Hcur, (Z.max_r 0 (total_of name (l1 ++ l2))) by lia. split_and!; [done|done| |].
  - cbn [fst inflight]. rewrite total_app. lia.
  - intros name'. cbn [fst]. assert (Hother : name <> name' -> sub_inflight b name' = total_of name' (l1 ++ l2)).
    { intros Hne. rewrite Hsub, Hof, decide_False by done. lia. }
    destruct (Z.eqb_spec (total_of name (l1 ++ l2)) 0).
    + rewrite sub_inflight_delete. case_decide; [subst; lia|auto].
    + rewrite sub_inflight_insert. case_decide; [by subst|auto].
Qed.

Lemma code_step_simulated s e s' l :
  0 < total_cap -> counts s l -> code_step s e s' -> exists l', spec_step l e l' /\ counts s' l'.
Proof.
  intros Hcap Hc Hs. destruct Hs as [b l0 name n v b' Hn Ha|b l1 l2 name n].
  - assert (l0 = l) as -> by apply Hc. by eapply admit_counts.
  - assert (l1 ++ (name, n) :: l2 = l) as <- by apply Hc. exists (l1 ++ l2).
    split; [constructor|by apply release_counts].
Qed.

(** The specification's own invariant. *)
Lemma spec_bounded l e l' :
  spec_step l e l' -> Forall (fun c => 0 <= c.2) l /\ total l <= Z.max 0 total_cap /\
    (0 < sub_cap -> forall name, total_of name l <= sub_cap) ->
  Forall (fun c => 0 <= c.2) l' /\ total l' <= Z.max 0 total_cap /\
    (0 < sub_cap -> forall name, total_of name l' <= sub_cap).
Proof.
  intros Hs (Hl & Ht & Hof). destruct Hs as [l name n Hn Hsub Htot| | |l1 l2 name n]; [|done..|].
  - split_and!; [apply Forall_app; split; [done|by constructor]|rewrite total_app; cbn; lia|]. intros Hsc name'.
    rewrite total_of_app, total_of_cons. cbn [fst snd]. change (total_of name' []) with 0.
    specialize (Hof Hsc name'). case_decide; [subst; specialize (Hsub Hsc); lia|lia].
  - apply Forall_app in Hl as [Hl1 [Hn Hl2]%Forall_cons]. cbn [snd] in Hn.
    rewrite total_app in Ht. cbn in Ht. split_and!.
    + by apply Forall_app.
    + rewrite total_app. lia.
    + intros Hsc name'. specialize (Hof Hsc name'). rewrite total_of_app, total_of_cons in Hof.
      cbn [fst snd] in Hof. rewrite total_of_app. case_decide; lia.
Qed.

End Accounting.

(** A retry task that is cancelled before its first step never enters the
    [try] whose [finally] clause releases the reservation (a coroutine that
    has not started is closed at its first line): the chain is gone and its
    bytes stay counted. *)
Definition cancel_unstarted (s : budget * list chain) : budget * list chain := (s.1, removelast s.2).

Example cancelled_before_start_leaks :
  let s := cancel_unstarted ((admit_retry 100 0 empty_budget "sub" 60).2, [("sub", 60)]) in
  s.2 = [] /\ inflight s.1 = 60 /\ (admit_retry 100 0 s.1 "other" 50).1 = ShedGlobal.
Proof. split_and!; vm_compute; reflexivity. Qed.

(** ** Examples and witnesses *)

Definition example_sub : subscription :=
  mk_sub "/w/notify.md" "notify" "https://hooks.example/{{kind}}" true (Some "k") "always" [] []
    "application/json" None [("X-Kind", "{{kind}}")] 10 2 [] None None None None 10 DEFAULT_EVENT_KINDS.

Definition example_completion : completion :=
  mk_completion "job" "job:daily" "s1" true "done" "0.25" None None.

(** The receiver answers 503, then the statuses of [later]. *)
Definition example_env (later : Z -> Z) : delivery_env :=
  mk_delivery_env "d-1" "2025-01-01T00:00:00+00:00" example_dns example_dns (PStatus 503) 1000
    (fun k => mk_attempt false false example_dns (PStatus (later k)) 2500).

Definition example_run (later : Z -> Z) : list effect * budget :=
  deliver_to_end "iris" (fun _ => None) (fun key body => "mac") id (mk_guard [] false) 100000 0
    example_sub example_completion [] None (fun _ _ => None) "" (example_env later) false empty_budget.


(** A receiver that stays down: three POSTs, waits of one and two seconds, and
    no event. *)
Lemma delivery_announcements_witness :
  length (sent (example_run (fun _ => 503)).1) = 3%nat /\ slept (example_run (fun _ => 503)).1 = [1; 2] /\
  announced (example_run (fun _ => 503)).1 = [].
Proof.
  split; [vm_compute; reflexivity|]. split; [vm_compute; reflexivity|].
  refine (proj1 (proj2 (proj2 (delivery_announcements "iris" (fun _ => None) (fun key body => "mac") id
    (mk_guard [] false) 100000 0 example_sub example_completion [] None (fun _ _ => None) ""
    (example_env (fun _ => 503)) false empty_budget (example_run (fun _ => 503)).1
    (example_run (fun _ => 503)).2 _ _))) _ _).
  - intros h. reflexivity.
  - apply surjective_pairing.
  - apply Nat.leb_le. vm_compute. reflexivity.
  - vm_compute. reflexivity.
Defined.


(** A redirect is not followed and counts as delivered, and the event says
    200 whatever the status was. *)
Example redirect_is_success :
  delivered_outcome (PStatus 302) = true /\
  dict_get (webhook_event "notify" "https://hooks.example/" (first_post_result (PStatus 302)) 0).2 "status_code"
    = Some (VInt 200).
Proof. split; vm_compute; reflexivity. Qed.

(** A URL that the guard refuses right before the POST ends the delivery
    without a record and without an event. *)
Example rebinding_is_silent :
  let env := mk_delivery_env "d-1" "t" example_dns (fun _ => Resolved ["10.0.0.1"]) (PStatus 200) 0
               (fun _ => mk_attempt false false example_dns (PStatus 200) 0) in
  (deliver_to_end "iris" (fun _ => None) (fun key body => "mac") id (mk_guard [] false) 100000 0
    example_sub example_completion [] None (fun _ _ => None) "" env false empty_budget).1 =
  [EValidate "https://hooks.example/job:daily" (Ok None);
   EValidate "https://hooks.example/job:daily" (Ok (Some (ResolvesPrivate "hooks.example" "10.0.0.1")))].
Proof. vm_compute. reflexivity. Qed.
