(* ===== verification/WebhookRunner.v ===== *)
(** * The webhook runner (harness/webhooks.py, class WebhookRunner)

    The registry of subscriptions, the fan-out of completions and of hook
    decisions under the two concurrency caps, and the tracking of the tasks
    in flight, retries included.  A task is a number; what it does is
    [WebhookDelivery]. *)
From S2P Require Import Prelude PyStr PyVal Webhooks.

Record wrunner : Type := mk_wrunner {
  items : list (string * subscription);
  active : gset nat;
  by_name : gmap string (gset nat);
  next_task : nat
}.

Definition new_wrunner : wrunner := mk_wrunner [] ∅ ∅ 0.

(** ** The registry *)

Definition unregister (r : wrunner) (path : string) : wrunner :=
  mk_wrunner (od_pop (items r) path) (active r) (by_name r) (next_task r).

(** [parsed] is the result of [parse_webhook_file]: a file that does not parse
    leaves the registration as it is. *)
Definition register (r : wrunner) (path : string) (parsed : option subscription) : wrunner :=
  match parsed with
  | None => r
  | Some sub =>
      let r := unregister r path in
      mk_wrunner (od_set (items r) path sub) (active r) (by_name r) (next_task r)
  end.

(** [run]'s cleanup. *)
Definition unregister_all (r : wrunner) : wrunner := foldl unregister r (od_keys (items r)).

(** The value of the registered-items gauge. *)
Definition items_registered (r : wrunner) : nat :=
  length (filter (fun s => s_enabled s = true) (od_values (items r))).

(** ** Tasks in flight *)

Definition in_flight_of (r : wrunner) (name : string) : gset nat := default ∅ (by_name r !! name).

(** Both sets gain the task. *)
Definition track (r : wrunner) (t : nat) (name : string) : wrunner :=
  mk_wrunner (items r) (active r ∪ {[t]}) (<[name := in_flight_of r name ∪ {[t]}]> (by_name r))
    (next_task r).

(** The done-callback: an entry whose set has drained is dropped. *)
Definition cleanup (r : wrunner) (t : nat) (name : string) : wrunner :=
  let rest := in_flight_of r name ∖ {[t]} in
  mk_wrunner (items r) (active r ∖ {[t]})
    (match by_name r !! name with
     | None => by_name r
     | Some _ => if decide (rest = ∅) then delete name (by_name r) else <[name := rest]> (by_name r)
     end)
    (next_task r).

(** [asyncio.create_task] *)
Definition create_task (r : wrunner) : nat * wrunner :=
  (next_task r, mk_wrunner (items r) (active r) (by_name r) (S (next_task r))).

Definition start_delivery (r : wrunner) (name : string) : nat * wrunner :=
  let '(t, r) := create_task r in (t, track r t name).

(** [on_retry_task]: a delivery registers the retry task it has created. *)
Definition on_retry_task (r : wrunner) (name : string) : nat * wrunner := start_delivery r name.

(** ** Fan-out *)

Section Fire.
(** [WEBHOOK_MAX_CONCURRENT_DELIVERIES] *)
Variable global_cap : Z.

Inductive fired : Type := NotForIt | Shed | Started (t : nat).

(** The body of the loop for one subscription. *)
Definition fire_one (eligible : subscription -> bool) (r : wrunner) (sub : subscription) : fired * wrunner :=
  if negb (s_enabled sub) then (NotForIt, r)
  else if negb (eligible sub) then (NotForIt, r)
  else if s_max_concurrent sub <=? Z.of_nat (size (in_flight_of r (s_name sub))) then (Shed, r)
  else if global_cap <=? Z.of_nat (size (active r)) then (Shed, r)
  else let '(t, r) := start_delivery r (s_name sub) in (Started t, r).

Fixpoint fire_list (eligible : subscription -> bool) (r : wrunner) (subs : list subscription)
  : list (subscription * fired) * wrunner :=
  match subs with
  | [] => ([], r)
  | sub :: rest =>
      let '(f, r) := fire_one eligible r sub in
      let '(fs, r) := fire_list eligible r rest in ((sub, f) :: fs, r)
  end.

Definition fire (r : wrunner) (kind : string) (success : bool) (response : string)
  : list (subscription * fired) * wrunner :=
  fire_list (fun sub => matches_filters sub success kind (str_take 2048 response)) r (od_values (items r)).

Definition hook_qualifier (decision : string) : option string :=
  if decide (decision ∈ HOOK_DECISION_SUB_KINDS) then Some decision else None.

Definition fire_hook_decision (r : wrunner) (decision : string) : list (subscription * fired) * wrunner :=
  fire_list (fun sub => events_match (s_events sub) EVENT_KIND_HOOK_DECISION (hook_qualifier decision))
    r (od_values (items r)).
End Fire.

(** ** Runs

    [live] remembers, for each task in flight, the subscription it works for
    and whether it may still hand over to a retry task: a delivery may, once;
    a retry task and the delivery of a hook decision may not. *)
Record world : Type := mk_world { wr : wrunner; live : gmap nat (string * bool) }.

Definition started (fs : list (subscription * fired)) : list (nat * string) :=
  omap (fun p => match p.2 with Started t => Some (t, s_name p.1) | _ => None end) fs.

Definition add_live (b : bool) (l : gmap nat (string * bool)) (ts : list (nat * string)) : gmap nat (string * bool) :=
  foldl (fun l p => <[p.1 := (p.2, b)]> l) l ts.

Section Runs.
Variable global_cap : Z.
(** A bound on the cap of every subscription of a name. *)
Variable name_cap : string -> Z.

Inductive wstep : world -> world -> Prop :=
| wstep_register r l path parsed :
    (forall sub, parsed = Some sub -> s_max_concurrent sub <= name_cap (s_name sub)) ->
    wstep (mk_world r l) (mk_world (register r path parsed) l)
| wstep_unregister r l path : wstep (mk_world r l) (mk_world (unregister r path) l)
| wstep_fire r l kind success response fs r' :
    fire global_cap r kind success response = (fs, r') ->
    wstep (mk_world r l) (mk_world r' (add_live true l (started fs)))
| wstep_fire_hook r l decision fs r' :
    fire_hook_decision global_cap r decision = (fs, r') ->
    wstep (mk_world r l) (mk_world r' (add_live false l (started fs)))
| wstep_retry r l t name t' r' :
    l !! t = Some (name, true) -> on_retry_task r name = (t', r') ->
    wstep (mk_world r l) (mk_world r' (<[t' := (name, false)]> (<[t := (name, false)]> l)))
| wstep_done r l t name b :
    l !! t = Some (name, b) -> wstep (mk_world r l) (mk_world (cleanup r t name) (delete t l)).

Definition initial_world : world := mk_world new_wrunner ∅.

(** The tasks of the selected names. *)
Definition of_names (sel : string -> bool) (l : gmap nat (string * bool)) : gmap nat (string * bool) :=
  filter (fun kv => sel kv.2.1 = true) l.
Definition of_name (name : string) : gmap nat (string * bool) -> gmap nat (string * bool) :=
  of_names (fun n => bool_decide (n = name)).

(** What a task weighs: two while it may hand over to a retry, one after. *)
Definition weight (v : string * bool) : Z := if v.2 then 2 else 1.

(** The tasks of the selected names, by weight. *)
Definition load (sel : string -> bool) (l : gmap nat (string * bool)) : Z :=
  map_fold (fun _ v n => (if sel v.1 then weight v else 0) + n) 0 l.
Definition load_of (name : string) : gmap nat (string * bool) -> Z := load (fun n => bool_decide (n = name)).

Record winv (w : world) : Prop := {
  wi_fresh : forall t, is_Some (live w !! t) -> (t < next_task (wr w))%nat;
  wi_active : forall t, t ∈ active (wr w) <-> is_Some (live w !! t);
  wi_by_name : forall t name, t ∈ in_flight_of (wr w) name <-> exists b, live w !! t = Some (name, b);
  wi_no_empty : forall name s, by_name (wr w) !! name = Some s -> s <> ∅;
  wi_caps : forall path sub, (path, sub) ∈ items (wr w) -> s_max_concurrent sub <= name_cap (s_name sub);
  wi_load : load (fun _ => true) (live w) <= 2 * Z.max 0 global_cap;
  wi_load_name : forall name, load_of name (live w) <= 2 * Z.max 0 (name_cap name)
}.

(** ** Lemmas: loads *)

Lemma load_empty sel : load sel ∅ = 0.
Proof. apply map_fold_empty. Qed.

Lemma load_insert sel l t v :
  l !! t = None -> load sel (<[t := v]> l) = (if sel v.1 then weight v else 0) + load sel l.
Proof.
  intros Hl. unfold load. rewrite map_fold_insert_L; [done| |done]. intros. apply Z.add_shuffle3.
Qed.

Lemma load_delete sel l t v :
  l !! t = Some v -> load sel l = (if sel v.1 then weight v else 0) + load sel (delete t l).
Proof.
  intros Hl. rewrite <-(insert_delete_id l t v) at 1 by done. apply load_insert, lookup_delete_eq.
Qed.

Lemma load_update sel l t v w :
  l !! t = Some v ->
  load sel (<[t := w]> l) = (if sel w.1 then weight w else 0) - (if sel v.1 then weight v else 0) + load sel l.
Proof.
  intros Hl. rewrite (load_delete sel l t v) by done. rewrite <-insert_delete_eq.
  rewrite load_insert by apply lookup_delete_eq. lia.
Qed.

(** A task weighs one or two. *)
Lemma size_load sel l :
  Z.of_nat (size (of_names sel l)) <= load sel l <= 2 * Z.of_nat (size (of_names sel l)).
Proof.
  unfold of_names. induction l as [|t v l Hl IH] using map_ind.
  - rewrite map_filter_empty, map_size_empty, load_empty. lia.
  - rewrite load_insert by done. destruct (sel v.1) eqn:Hs.
    + rewrite map_filter_insert_True by done. rewrite map_size_insert_None by by apply map_lookup_filter_None_2; left.
      unfold weight. destruct v.2; lia.
    + rewrite map_filter_insert_not' by (cbn; intros; congruence || (rewrite Hs; done)). lia.
Qed.

(** ** Lemmas: the invariant *)

Lemma elem_of_dom_of_name t name l : t ∈ dom (of_name name l) <-> exists b, l !! t = Some (name, b).
Proof.
  unfold of_name, of_names. rewrite elem_of_dom. split.
  - intros [[n b] [Hl Hn]%map_lookup_filter_Some]. cbn in Hn. apply bool_decide_eq_true in Hn. subst. eauto.
  - intros [b Hb]. exists (name, b). apply map_lookup_filter_Some. split; [done|]. by apply bool_decide_eq_true.
Qed.

(** The number of tasks the code counts. *)
Lemma active_size w : winv w -> size (active (wr w)) = size (live w).
Proof.
  intros Hw. rewrite <-size_dom. f_equal. apply set_eq. intros t. rewrite elem_of_dom. apply (wi_active w Hw).
Qed.

Lemma in_flight_size w name : winv w -> size (in_flight_of (wr w) name) = size (of_name name (live w)).
Proof.
  intros Hw. rewrite <-size_dom. f_equal. apply set_eq. intros t.
  rewrite elem_of_dom_of_name. apply (wi_by_name w Hw).
Qed.

Lemma in_flight_start r name n :
  in_flight_of (start_delivery r name).2 n =
  if decide (n = name) then in_flight_of r name ∪ {[next_task r]} else in_flight_of r n.
Proof.
  unfold in_flight_of. cbn. case_decide as Hn; [subst; by rewrite lookup_insert_eq|].
  by rewrite lookup_insert_ne by congruence.
Qed.

(** A new task of a name, when the loads allow it. *)
Lemma winv_start r l name b :
  winv (mk_world r l) ->
  load (fun _ => true) l + weight (name, b) <= 2 * Z.max 0 global_cap ->
  load_of name l + weight (name, b) <= 2 * Z.max 0 (name_cap name) ->
  winv (mk_world (start_delivery r name).2 (<[(start_delivery r name).1 := (name, b)]> l)).
Proof.
  intros [Hf Ha Hb Hne Hc Hl Hln] Hg Hk. cbn [wr live] in *.
  change (start_delivery r name).1 with (next_task r).
  assert (Hfresh : l !! next_task r = None).
  { destruct (l !! next_task r) eqn:E; [|done]. assert (next_task r < next_task r)%nat by (apply Hf; by rewrite E). lia. }
  split; cbn [wr live]; try done.
  - intros t [v Hv]. cbn [start_delivery create_task snd track next_task].
    destruct (decide (t = next_task r)) as [->|Hn]; [lia|].
    rewrite lookup_insert_ne in Hv by done. assert (t < next_task r)%nat by (apply Hf; by rewrite Hv). lia.
  - intros t. cbn [start_delivery create_task snd track active].
    destruct (decide (t = next_task r)) as [->|Hn].
    + rewrite lookup_insert_eq. split; [by eexists|set_solver].
    + rewrite lookup_insert_ne by done. rewrite <-Ha. set_solver.
  - intros t n. rewrite in_flight_start. destruct (decide (t = next_task r)) as [->|Ht].
    + rewrite lookup_insert_eq. case_decide as Hn; [subst; split; [by eexists|set_solver]|].
      rewrite Hb, Hfresh. split; intros [? [=]]. congruence.
    + rewrite lookup_insert_ne by done. case_decide as Hn; [subst; rewrite <-Hb; set_solver|apply Hb].
  - intros n s. cbn. intros [[_ <-]|[_ Hs]]%lookup_insert_Some; [set_solver|eauto].
  - rewrite load_insert by done. lia.
  - intros n. unfold load_of. rewrite load_insert by done. cbn [fst].
    case_bool_decide as Hn; [subst; unfold load_of in *; lia|apply Hln].
Qed.

(** The done-callback. *)
Lemma winv_cleanup r l t name b :
  winv (mk_world r l) -> l !! t = Some (name, b) -> winv (mk_world (cleanup r t name) (delete t l)).
Proof.
  intros [Hf Ha Hb Hne Hc Hl Hln] Ht. cbn [wr live] in *.
  assert (Hw : forall sel, load sel (delete t l) <= load sel l).
  { intros sel. rewrite (load_delete sel l t (name, b) Ht). unfold weight. repeat case_match; lia. }
  assert (Hin : is_Some (by_name r !! name)).
  { assert (t ∈ in_flight_of r name) as Hi by (apply Hb; eauto). unfold in_flight_of in Hi.
    destruct (by_name r !! name); [done|]. set_solver. }
  assert (Hby : forall n, in_flight_of (cleanup r t name) n =
                if decide (n = name) then in_flight_of r name ∖ {[t]} else in_flight_of r n).
  { intros n. unfold cleanup, in_flight_of. cbn [by_name]. destruct Hin as [s0 Hs0]. rewrite Hs0.
    cbn [default from_option id]. destruct (decide (n = name)) as [->|Hn].
    - case_decide as He; [rewrite lookup_delete_eq|rewrite lookup_insert_eq]; cbn; [|done].
      cbn in He. by rewrite He.
    - case_decide as He; [by rewrite lookup_delete_ne by congruence|by rewrite lookup_insert_ne by congruence]. }
  split; cbn [wr live]; try done.
  - intros t' [v Hv]. apply lookup_delete_Some in Hv as [_ Hv]. apply Hf. by rewrite Hv.
  - intros t'. cbn [cleanup active]. destruct (decide (t' = t)) as [->|Hn].
    + rewrite lookup_delete_eq. split; [set_solver|by intros []].
    + rewrite lookup_delete_ne by done. rewrite <-Ha. set_solver.
  - intros t' n. rewrite Hby. destruct (decide (t' = t)) as [->|Hn].
    + rewrite lookup_delete_eq. split; [|by intros []]. case_decide as Hnn; [set_solver|].
      rewrite Hb. intros [b' Hb']. congruence.
    + rewrite lookup_delete_ne by done. rewrite <-Hb. case_decide; [subst; set_solver|done].
  - intros n s. unfold cleanup. cbn [by_name]. destruct Hin as [s0 ->]. case_decide as He.
    + intros [_ Hs]%lookup_delete_Some. eauto.
    + intros [[_ <-]|[_ Hs]]%lookup_insert_Some; [done|eauto].
  - cbn [live]. etransitivity; [apply Hw|done].
  - intros n. cbn [live]. etransitivity; [apply Hw|apply Hln].
Qed.

(** A delivery hands over to a retry task: the weight is shared. *)
Lemma winv_retry r l t name :
  winv (mk_world r l) -> l !! t = Some (name, true) ->
  winv (mk_world (on_retry_task r name).2 (<[(on_retry_task r name).1 := (name, false)]> (<[t := (name, false)]> l))).
Proof.
  intros Hw Ht. apply winv_start.
  - destruct Hw as [Hf Ha Hb Hne Hc Hl Hln]. cbn [wr live] in *. split; cbn [wr live]; try done.
    + intros t' Hs. apply Hf. destruct (decide (t' = t)) as [->|]; [by rewrite Ht|].
      by rewrite lookup_insert_ne in Hs.
    + intros t'. rewrite Ha. destruct (decide (t' = t)) as [->|]; [rewrite lookup_insert_eq, Ht; split; by eexists|].
      by rewrite lookup_insert_ne.
    + intros t' n. rewrite Hb. destruct (decide (t' = t)) as [->|]; [|by rewrite lookup_insert_ne].
      rewrite lookup_insert_eq, Ht. split; intros [b [= -> ?]]; by eexists.
    + rewrite (load_update _ l t (name, true)) by done. cbn [fst weight snd]. lia.
    + intros n. unfold load_of. rewrite (load_update _ l t (name, true)) by done. cbn [fst weight snd].
      specialize (Hln n). unfold load_of in Hln. case_match; lia.
  - rewrite (load_update _ l t (name, true)) by done. cbn [fst weight snd].
    pose proof (wi_load _ Hw) as Hl. cbn [live] in Hl. lia.
  - unfold load_of. rewrite (load_update _ l t (name, true)) by done. cbn [fst weight snd].
    rewrite bool_decide_true by done. pose proof (wi_load_name _ Hw name) as Hl. cbn [live] in Hl.
    unfold load_of in Hl. lia.
Qed.

Lemma of_names_all l : of_names (fun _ => true) l = l.
Proof. unfold of_names. apply map_filter_id. done. Qed.

Lemma fire_one_inv r l eligible sub f r' b :
  winv (mk_world r l) -> s_max_concurrent sub <= name_cap (s_name sub) ->
  fire_one global_cap eligible r sub = (f, r') ->
  items r' = items r /\
  winv (mk_world r' (match f with Started t => <[t := (s_name sub, b)]> l | _ => l end)).
Proof.
  intros Hw Hcap. unfold fire_one.
  destruct (s_enabled sub); cbn [negb]; [|by intros [= <- <-]].
  destruct (eligible sub); cbn [negb]; [|by intros [= <- <-]].
  destruct (Z.leb_spec (s_max_concurrent sub) (Z.of_nat (size (in_flight_of r (s_name sub))))) as [|Hn];
    [by intros [= <- <-]|].
  destruct (Z.leb_spec global_cap (Z.of_nat (size (active r)))) as [|Hg]; [by intros [= <- <-]|].
  pose proof (winv_start r l (s_name sub) b Hw) as Hstart.
  destruct (start_delivery r (s_name sub)) as [t r1] eqn:Hs. intros [= <- <-]. split; [by injection Hs as <- <-|].
  pose proof (active_size _ Hw) as Ea. pose proof (in_flight_size _ (s_name sub) Hw) as En.
  cbn [wr live] in *. rewrite Ea in Hg. rewrite En in Hn.
  assert (Hwt : weight (s_name sub, b) <= 2) by (unfold weight; case_match; lia).
  apply Hstart.
  - pose proof (size_load (fun _ => true) l) as Hsl. rewrite of_names_all in Hsl. lia.
  - pose proof (size_load (fun n => bool_decide (n = s_name sub)) l) as Hsl.
    unfold load_of. unfold of_name in Hn. lia.
Qed.

Lemma fire_list_inv b eligible subs r l fs r' :
  winv (mk_world r l) -> Forall (fun sub => s_max_concurrent sub <= name_cap (s_name sub)) subs ->
  fire_list global_cap eligible r subs = (fs, r') ->
  items r' = items r /\ winv (mk_world r' (add_live b l (started fs))).
Proof.
  intros Hw Hc. revert r l fs Hw. induction Hc as [|sub subs Hsub _ IH]; intros r l fs Hw; cbn [fire_list].
  - by intros [= <- <-].
  - destruct (fire_one global_cap eligible r sub) as [f r1] eqn:Hf.
    destruct (fire_list global_cap eligible r1 subs) as [fs1 r2] eqn:Hl. intros [= <- <-].
    destruct (fire_one_inv r l eligible sub f r1 b Hw Hsub Hf) as [Hi Hw1].
    destruct (IH _ _ _ Hw1 Hl) as [Hi2 Hw2]. split; [congruence|].
    destruct f; exact Hw2.
Qed.

Lemma items_caps w : winv w -> Forall (fun sub => s_max_concurrent sub <= name_cap (s_name sub)) (od_values (items (wr w))).
Proof.
  intros Hw. apply Forall_forall. intros sub Hin. unfold od_values in Hin.
  apply list_elem_of_fmap in Hin as ([p s] & -> & Hin). eapply (wi_caps w Hw), Hin.
Qed.

(** Only the registry changes. *)
Lemma winv_items r l its :
  winv (mk_world r l) ->
  (forall path sub, (path, sub) ∈ its -> s_max_concurrent sub <= name_cap (s_name sub)) ->
  winv (mk_world (mk_wrunner its (active r) (by_name r) (next_task r)) l).
Proof. intros [Hf Ha Hb Hne Hc Hl Hln] Hits. by split. Qed.

Lemma winv_step w w' : wstep w w' -> winv w -> winv w'.
Proof.
  intros Hstep Hw.
  destruct Hstep as [r l path parsed Hp|r l path|r l kind success response fs r' Hf|r l decision fs r' Hf
                    |r l t name t' r' Ht Hr|r l t name b Ht].
  - assert (Hpop : forall p sub, (p, sub) ∈ od_pop (items r) path -> s_max_concurrent sub <= name_cap (s_name sub)).
    { intros p sub [_ Hin]%list_elem_of_filter. by eapply (wi_caps _ Hw). }
    destruct parsed as [sub|]; [|done]. apply (winv_items r l _ Hw).
    intros p s [[= -> ->]|Hin]%elem_of_od_set; [by apply Hp|by eapply Hpop].
  - apply (winv_items r l _ Hw). intros p sub [_ Hin]%list_elem_of_filter. by eapply (wi_caps _ Hw).
  - eapply fire_list_inv; [exact Hw| |exact Hf]. apply (items_caps _ Hw).
  - eapply fire_list_inv; [exact Hw| |exact Hf]. apply (items_caps _ Hw).
  - pose proof (winv_retry r l t name Hw Ht) as H. by rewrite Hr in H.
  - by eapply winv_cleanup.
Qed.

Lemma winv_initial : winv initial_world.
Proof.
  split; cbn [initial_world wr live new_wrunner].
  - intros t. rewrite lookup_empty. by intros [].
  - intros t. rewrite lookup_empty. cbn. split; [set_solver|by intros []].
  - intros t name. rewrite lookup_empty. split; [|by intros []].
    change (in_flight_of _ name) with (∅ : gset nat). set_solver.
  - intros name s Hs. change (by_name new_wrunner) with (∅ : gmap string (gset nat)) in Hs.
    by rewrite lookup_empty in Hs.
  - intros p s Hin. change (items new_wrunner) with (@nil (string * subscription)) in Hin.
    by apply not_elem_of_nil in Hin.
  - rewrite load_empty. lia.
  - intros name. unfold load_of. rewrite load_empty. lia.
Qed.

Lemma winv_reachable w : rtc wstep initial_world w -> winv w.
Proof.
  intros Hr. assert (Hgen : forall w0, rtc wstep w0 w -> winv w0 -> winv w).
  { clear Hr. intros w0 Hr. induction Hr as [|w0 w1 w2 Hs _ IH]; [done|]. intros H0. by apply IH, (winv_step w0). }
  apply (Hgen _ Hr), winv_initial.
Qed.

(** ** Properties *)

(** The runner's concurrency. After any history of file changes,
    completions, hook decisions, hand-overs to retry tasks and ends of tasks,
    the tracking sets hold exactly the tasks in flight, under the name of
    their subscription and under no other, with no empty entry left over;
    and the tasks in flight are at most twice the global cap, those of a name
    at most twice the largest cap among its subscriptions: a delivery is
    admitted below the cap, but the retry task it hands over to is not
    counted against it. *)
Theorem runner_tracks_and_bounds w :
  rtc wstep initial_world w ->
  (forall t, t ∈ active (wr w) <-> is_Some (live w !! t)) /\
  (forall t name, t ∈ in_flight_of (wr w) name <-> exists b, live w !! t = Some (name, b)) /\
  (forall name s, by_name (wr w) !! name = Some s -> s <> ∅) /\
  Z.of_nat (size (active (wr w))) <= 2 * Z.max 0 global_cap /\
  (forall name, Z.of_nat (size (in_flight_of (wr w) name)) <= 2 * Z.max 0 (name_cap name)).
Proof.
  intros Hw%winv_reachable. split_and!; try apply Hw.
  - rewrite (active_size w Hw). pose proof (wi_load w Hw) as Hl.
    pose proof (size_load (fun _ => true) (live w)) as Hs. rewrite of_names_all in Hs. lia.
  - intros name. rewrite (in_flight_size w name Hw). pose proof (wi_load_name w Hw name) as Hl.
    pose proof (size_load (fun n => bool_decide (n = name)) (live w)) as Hs. unfold load_of in Hl.
    unfold of_name. lia.
Qed.

(** ** Fan-out *)

(** The subscriptions an event is for. *)
Definition selected (eligible : subscription -> bool) (subs : list subscription) : list subscription :=
  filter (fun sub => s_enabled sub = true /\ eligible sub = true) subs.

(** Room for all of them under both caps. *)
Definition room (r : wrunner) (sel : list subscription) : Prop :=
  Z.of_nat (size (active r)) + Z.of_nat (length sel) <= global_cap /\
  forall sub, sub ∈ sel ->
    Z.of_nat (size (in_flight_of r (s_name sub))) +
    Z.of_nat (length (filter (fun s => s_name s = s_name sub) sel)) <= s_max_concurrent sub.

Lemma size_add (X : gset nat) t : (size (X ∪ {[t]}) <= S (size X))%nat.
Proof. rewrite size_union_alt. pose proof (subseteq_size ({[t]} ∖ X) {[t]} ltac:(set_solver)). rewrite size_singleton in *. lia. Qed.

Lemma room_start r sub sel :
  room r (sub :: sel) -> room (start_delivery r (s_name sub)).2 sel.
Proof.
  intros [Hg Hn]. split.
  - cbn [start_delivery create_task snd track active]. pose proof (size_add (active r) (next_task r)).
    cbn [length] in Hg. lia.
  - intros s Hs. specialize (Hn s ltac:(by right)). rewrite in_flight_start.
    destruct (decide (s_name s = s_name sub)) as [E|E].
    + rewrite filter_cons_True in Hn by done. rewrite E in *. cbn [length] in Hn.
      pose proof (size_add (in_flight_of r (s_name sub)) (next_task r)). lia.
    + by rewrite filter_cons_False in Hn by congruence.
Qed.

Lemma fire_list_spec eligible subs r :
  let '(fs, r') := fire_list global_cap eligible r subs in
  fs.*1 = subs /\
  Forall (fun p => p.2 = NotForIt <-> ~ (s_enabled p.1 = true /\ eligible p.1 = true)) fs /\
  (room r (selected eligible subs) ->
   started fs = zip (seq (next_task r) (length (selected eligible subs))) (s_name <$> selected eligible subs)).
Proof.
  unfold selected. revert r. induction subs as [|sub subs IH]; intros r; cbn [fire_list].
  - split_and!; done || constructor.
  - destruct (fire_one global_cap eligible r sub) as [f r1] eqn:Hf. specialize (IH r1).
    destruct (fire_list global_cap eligible r1 subs) as [fs r2]. destruct IH as (H1 & H2 & H3).
    rewrite filter_cons. unfold fire_one in Hf.
    destruct (s_enabled sub) eqn:He; cbn [negb] in Hf.
    2:{ injection Hf as <- <-. rewrite decide_False by by intros [].
        split_and!; [cbn; by rewrite H1| |done]. constructor; [cbn; rewrite He; naive_solver|done]. }
    destruct (eligible sub) eqn:Hel; cbn [negb] in Hf.
    2:{ injection Hf as <- <-. rewrite decide_False by by intros [].
        split_and!; [cbn; by rewrite H1| |done]. constructor; [cbn; rewrite Hel; naive_solver|done]. }
    rewrite decide_True by done. split_and!.
    + cbn. by rewrite H1.
    + constructor; [|done]. cbn [fst snd]. rewrite He, Hel.
      destruct (s_max_concurrent sub <=? _); [injection Hf as <- <-; naive_solver|].
      destruct (global_cap <=? _); injection Hf as <- <-; naive_solver.
    + intros Hroom. pose proof Hroom as [Hg Hn]. specialize (Hn sub ltac:(by left)).
      rewrite filter_cons_True in Hn by done. cbn [length] in *.
      destruct (Z.leb_spec (s_max_concurrent sub) (Z.of_nat (size (in_flight_of r (s_name sub))))); [lia|].
      destruct (Z.leb_spec global_cap (Z.of_nat (size (active r)))); [lia|]. injection Hf as <- <-.
      cbn [started omap list_omap snd fst]. fold (started fs). rewrite H3 by by apply room_start.
      rewrite fmap_cons. done.
Qed.

(** The fan-out of a completion. Every registered subscription is
    considered once, in registration order; it is passed over exactly when it
    is disabled or its filters do not match; and as long as both caps have
    room, every other one gets a delivery of its own, in that order. The
    same holds of a hook decision with its own test. *)
Theorem fire_selects r kind success response decision :
  (let '(fs, r') := fire global_cap r kind success response in
   let matching := fun sub => matches_filters sub success kind (str_take 2048 response) in
   let sel := selected matching (od_values (items r)) in
   fs.*1 = od_values (items r) /\
   Forall (fun p => p.2 = NotForIt <-> ~ (s_enabled p.1 = true /\ matching p.1 = true)) fs /\
   (room r sel -> started fs = zip (seq (next_task r) (length sel)) (s_name <$> sel))) /\
  (let '(fs, r') := fire_hook_decision global_cap r decision in
   let matching := fun sub => events_match (s_events sub) EVENT_KIND_HOOK_DECISION (hook_qualifier decision) in
   let sel := selected matching (od_values (items r)) in
   fs.*1 = od_values (items r) /\
   Forall (fun p => p.2 = NotForIt <-> ~ (s_enabled p.1 = true /\ matching p.1 = true)) fs /\
   (room r sel -> started fs = zip (seq (next_task r) (length sel)) (s_name <$> sel))).
Proof. split; apply fire_list_spec. Qed.
End Runs.

(** ** Witnesses *)

Definition plain_sub (name : string) (cap retries : Z) : subscription :=
  mk_sub ("/w/" +:+ name) name "https://h.example/" true None "always" [] [] "application/json" None []
    10 retries [] None None None None cap DEFAULT_EVENT_KINDS.

Definition one_sub : wrunner := register new_wrunner "/w/a" (Some (plain_sub "a" 1 3)).
Definition one_fired : list (subscription * fired) * wrunner := fire 1 one_sub "job" true "done".

(** A global cap of one, and two tasks in flight: the delivery and the retry
    task it has just registered. *)
Definition handed_over : world :=
  mk_world (on_retry_task one_fired.2 "a").2 {[0%nat := ("a", false); 1%nat := ("a", false)]}.

Lemma handed_over_reachable : rtc (wstep 1 (fun _ => 1)) initial_world handed_over.
Proof.
  eapply rtc_l; [apply (wstep_register 1 (fun _ => 1) new_wrunner ∅ "/w/a" (Some (plain_sub "a" 1 3)));
    intros sub [= <-]; cbn; lia|].
  eapply rtc_l; [eapply (wstep_fire 1 (fun _ => 1) _ _ "job" true "done"); apply surjective_pairing|].
  eapply rtc_l; [eapply (wstep_retry 1 (fun _ => 1) _ _ 0 "a"); [vm_compute; reflexivity|apply surjective_pairing]|].
  assert (E : mk_world (on_retry_task one_fired.2 "a").2
    (<[(on_retry_task one_fired.2 "a").1 := ("a", false)]>
       (<[0%nat := ("a", false)]> (add_live true ∅ (started one_fired.1)))) = handed_over).
  { unfold handed_over. f_equal. }
  rewrite <-E. apply rtc_refl.
Qed.

Lemma runner_tracks_and_bounds_witness :
  size (active (wr handed_over)) = 2%nat /\
  Z.of_nat (size (active (wr handed_over))) <= 2 * Z.max 0 1.
Proof.
  split; [vm_compute; reflexivity|].
  exact (proj1 (proj2 (proj2 (proj2
    (runner_tracks_and_bounds 1 (fun _ => 1) handed_over handed_over_reachable))))).
Defined.

Lemma fire_selects_witness :
  let r := register (register new_wrunner "/w/a" (Some (plain_sub "a" 1 3))) "/w/b" (Some (plain_sub "b" 2 0)) in
  started (fire 2 r "job" true "done").1 = [(0%nat, "a"); (1%nat, "b")].
Proof.
  intros r. refine (proj2 (proj2 (proj1 (fire_selects 2 r "job" true "done" "allow"))) _).
  split; [vm_compute; discriminate|].
  assert (H : Forall (fun sub => Z.of_nat (size (in_flight_of r (s_name sub))) +
    Z.of_nat (length (filter (fun s => s_name s = s_name sub)
      (selected (fun sub => matches_filters sub true "job" (str_take 2048 "done")) (od_values (items r)))))
    <= s_max_concurrent sub)
    (selected (fun sub => matches_filters sub true "job" (str_take 2048 "done")) (od_values (items r)))).
  { refine (bool_decide_unpack _ _). vm_compute. exact I. }
  rewrite Forall_forall in H. exact H.
Defined.
