(* ===== verification/Continuations.v ===== *)
(** * Continuations (harness/continuations.py)

    [runner] is a [ContinuationRunner]: the registered items, the fan-in
    state and the tasks in flight.  [notify] is the handler of an upstream
    completion; [exec] runs sequences of registrations, notifications and
    task completions.  A task started by [notify] is a [fire]. *)
From Stdlib Require Import Ascii.
From S2P Require Import Prelude PyStr PyVal Utils.

(** ** Items *)

Record item : Type := mk_item {
  path : string;
  name : string;
  continues_after : list string;
  content : string;
  on_success : bool;
  on_error : bool;
  trigger_when : option string;
  delay : option Z;
  session_id : option string;
  model : option string;
  backend_id : option string;
  description : option string;
  consensus : list consensus_entry;
  max_tokens : option Z;
  max_concurrent_fires : Z;
  enabled : bool
}.

(** The result of parsing: the item, the [_DISABLED] sentinel, or [None]. *)
Inductive parsed : Type :=
| PItem (it : item)
| PDisabled
| PNone.

Definition nonempty_strips (l : list string) : list string :=
  filter (fun s => s <> "") (str_strip <$> l).

Section Parse.
Variable yaml_safe_load : string -> res pyval.
Variable max_yaml_bytes : Z.
(** [CONTINUATION_MAX_CONCURRENT_FIRES] *)
Variable default_max_fires : Z.

Definition parse_continues_after (raw : pyval) : list string :=
  match raw with
  | VList l => nonempty_strips (py_str <$> l)
  | VNone => []
  | _ =>
      let text := str_strip (py_str raw) in
      if decide (text = "") then [] else nonempty_strips (str_split "," text)
  end.

(** [raw = None]: the file cannot be read. Any exception gives [None]. *)
Definition parse_continuation_file (path : string) (raw : option string) : parsed :=
  match raw with
  | None => PNone
  | Some raw =>
      match parse_frontmatter yaml_safe_load max_yaml_bytes raw,
            parse_frontmatter_raw yaml_safe_load max_yaml_bytes raw with
      | Ok (fields, content), Ok (raw_fields, _) =>
          let enabled := text_flag ["false"; "no"; "off"; "n"; "0"; ""] true fields "enabled" in
          let continues_after := parse_continues_after (dict_get_none raw_fields "continues-after") in
          if bool_decide (continues_after = []) && enabled then PNone
          else
            PItem {|
              path := path;
              name := default (stem path) (get_nonempty fields "name");
              continues_after := continues_after;
              content := content;
              on_success := text_flag ["false"; ""] true fields "on-success";
              on_error := text_flag ["false"; ""] false fields "on-error";
              trigger_when := get_nonempty fields "trigger-when";
              delay := raw ← get_nonempty fields "delay";
                       match parse_duration raw with Ok n => Some n | Raise _ => None end;
              session_id := get_nonempty fields "session";
              model := get_nonempty fields "model";
              backend_id := get_nonempty fields "agent";
              description := get_nonempty fields "description";
              consensus := parse_consensus (dict_get_none raw_fields "consensus");
              max_tokens := positive_field (field_or fields "max-tokens" "max_tokens") None;
              max_concurrent_fires :=
                default default_max_fires
                  (positive_field (field_or fields "max-concurrent-fires" "max_concurrent_fires") None);
              enabled := enabled
            |}
      | _, _ => PNone
      end
  end.
End Parse.

(** ** The runner *)

(** A started fire: the arguments of [_fire]. *)
Record fire : Type := mk_fire {
  fire_task : nat;
  fire_item : item;
  fire_session : string;
  fire_kind : string
}.

Abbreviation fanin_key := (string * string)%type.

Record runner : Type := mk_runner {
  items : list (string * item);
  active_fires : gset nat;
  fires_by_name : gmap string (gset nat);
  fanin_state : gmap fanin_key (Z * gset string);
  next_task : nat
}.

Definition new_runner : runner := mk_runner [] ∅ ∅ ∅ 0.

Definition set_items (r : runner) (its : list (string * item)) : runner :=
  mk_runner its (active_fires r) (fires_by_name r) (fanin_state r) (next_task r).
Definition set_fanin (r : runner) (f : gmap fanin_key (Z * gset string)) : runner :=
  mk_runner (items r) (active_fires r) (fires_by_name r) f (next_task r).

(** The fan-in entries of a path go with its registration. *)
Definition unregister (r : runner) (p : string) : runner :=
  match od_get (items r) p with
  | None => r
  | Some _ =>
      set_fanin (set_items r (od_pop (items r) p))
        (filter (fun kv => kv.1.1 <> p) (fanin_state r))
  end.

Definition register (r : runner) (p : string) (result : parsed) : runner :=
  match result with
  | PDisabled => unregister r p
  | PNone => r
  | PItem it => let r := unregister r p in set_items r (od_set (items r) p it)
  end.

(** *** Predicates of [notify] *)

Definition pattern_matches (kind p : string) : bool := bool_decide (p = "*") || fnmatch kind p.

Definition outcome_matches (it : item) (success : bool) : bool :=
  (success && on_success it) || (negb success && on_error it).

Definition content_matches (it : item) (response : string) : bool :=
  match trigger_when it with None => true | Some t => str_contains t response end.

(** Every configured pattern is satisfied by some kind seen. *)
Definition fanin_ready (it : item) (seen : gset string) : bool :=
  forallb (fun p => existsb (fun k => pattern_matches k p) (elements seen)) (continues_after it).

Section Notify.
(** [CONTINUATION_FANIN_TTL] and [CONTINUATION_MAX_CONCURRENT_FIRES_GLOBAL]. *)
Variables fanin_ttl global_cap : Z.

Definition evict_stale_fanin (r : runner) (now : Z) : Z * runner :=
  if fanin_ttl <=? 0 then (0, r)
  else
    let cutoff := now - fanin_ttl in
    let kept := filter (fun kv => cutoff <= kv.2.1) (fanin_state r) in
    (Z.of_nat (size (fanin_state r)) - Z.of_nat (size kept), set_fanin r kept).

(** The fan-in branch: record [kind] and test readiness. *)
Definition record_fanin (r : runner) (key : fanin_key) (kind : string) (now : Z) : gset string * runner :=
  match fanin_state r !! key with
  | None => let seen := {[kind]} in (seen, set_fanin r (<[key := (now, seen)]> (fanin_state r)))
  | Some (prior_ts, seen0) =>
      let seen := seen0 ∪ {[kind]} in
      let ts := if decide (kind ∈ seen0) then prior_ts else now in
      (seen, set_fanin r (<[key := (ts, seen)]> (fanin_state r)))
  end.

(** [(ready, fanin_key, state)] *)
Definition upstream_ready (r : runner) (it : item) (kind session : string) (now : Z) :
    bool * option fanin_key * runner :=
  if decide (length (continues_after it) = 1%nat) then (true, None, r)
  else
    let key := (path it, session) in
    let '(seen, r) := record_fanin r key kind now in
    if fanin_ready it seen then (true, Some key, r) else (false, None, r).

Definition in_flight_of (r : runner) (n : string) : gset nat := default ∅ (fires_by_name r !! n).

(** [self._fires_by_name.setdefault(name, set())] *)
Definition setdefault_fires (r : runner) (n : string) : runner :=
  mk_runner (items r) (active_fires r) (<[n := in_flight_of r n]> (fires_by_name r)) (fanin_state r)
    (next_task r).

(** Schedule the fire, then clear the fan-in entry. *)
Definition start_fire (r : runner) (it : item) (key : option fanin_key) : runner :=
  let t := next_task r in
  mk_runner (items r) (active_fires r ∪ {[t]})
    (<[name it := in_flight_of r (name it) ∪ {[t]}]> (fires_by_name r))
    (match key with None => fanin_state r | Some k => delete k (fanin_state r) end)
    (S t).

Definition globally_capped (r : runner) : bool :=
  (0 <? global_cap) && (global_cap <=? Z.of_nat (size (active_fires r))).

(** The body of the loop for one item. *)
Definition notify_item (kind session : string) (success : bool) (response : string) (now : Z)
    (st : runner * list fire) (it : item) : runner * list fire :=
  let '(r, fires) := st in
  if negb (enabled it) then (r, fires)
  else if negb (existsb (pattern_matches kind) (continues_after it) &&
                outcome_matches it success && content_matches it response)
  then (r, fires)
  else
    let '(ready, key, r) := upstream_ready r it kind session now in
    if negb ready then (r, fires)
    else if globally_capped r then (r, fires)
    else
      let r := setdefault_fires r (name it) in
      if max_concurrent_fires it <=? Z.of_nat (size (in_flight_of r (name it))) then (r, fires)
      else (start_fire r it key, fires ++ [mk_fire (next_task r) it session kind]).

Definition notify (r : runner) (kind session : string) (success : bool) (response : string)
    (now : Z) : runner * list fire :=
  let r := (evict_stale_fanin r now).2 in
  foldl (notify_item kind session success response now) (r, []) (od_values (items r)).
End Notify.

(** The done-callback of a fire. *)
Definition cleanup (r : runner) (t : nat) (n : string) : runner :=
  let by_name :=
    match fires_by_name r !! n with
    | None => fires_by_name r
    | Some s =>
        if decide (s ∖ {[t]} = ∅) then delete n (fires_by_name r)
        else <[n := s ∖ {[t]}]> (fires_by_name r)
    end in
  mk_runner (items r) (active_fires r ∖ {[t]}) by_name (fanin_state r) (next_task r).

(** The kind a fire's own completion is announced under. *)
Definition fired_kind (it : item) : string := "continuation:" +:+ name it.

(** [_fire]'s split of the upstream label into the event's kind and name. *)
Definition UPSTREAM_KINDS := ["job"; "task"; "trigger"; "a2a"; "continuation"].

Fixpoint partition_colon (s : string) : option (string * string) :=
  match s with
  | "" => None
  | String c s' =>
      if decide (c = ":"%char) then Some ("", s') else prod_map (String c) id <$> partition_colon s'
  end.

Definition upstream_label (label resolved_session : string) : string * string :=
  let dflt := str_take 32 resolved_session in
  match partition_colon label with
  | Some (base, rest) =>
      if decide (base ∈ UPSTREAM_KINDS)
      then (base, if decide (rest = "") then dflt else rest)
      else ("continuation", dflt)
  | None =>
      if decide (label ∈ UPSTREAM_KINDS) then (label, dflt) else ("continuation", dflt)
  end.

(** ** Runs *)

Section Runs.
Variables fanin_ttl global_cap : Z.

(** An upstream completion. *)
Record note : Type := mk_note {
  n_kind : string;
  n_session : string;
  n_success : bool;
  n_response : string;
  n_time : Z
}.

(** [h_notes]: the completions notified; [h_fires]: the fires started. *)
Record history : Type := mk_history {
  h_runner : runner;
  h_notes : list note;
  h_fires : list fire
}.

Definition initial_history : history := mk_history new_runner [] [].

(** A registration under [p] carries an item as the parser builds it
    ([parse_continuation_spec]); the callback of a started fire runs once. *)
Inductive cstep : history -> history -> Prop :=
| cstep_register r ns fs p it :
    path it = p -> 1 <= max_concurrent_fires it ->
    cstep (mk_history r ns fs) (mk_history (register r p (PItem it)) ns fs)
| cstep_register_fails r ns fs p :
    cstep (mk_history r ns fs) (mk_history (register r p PNone) ns fs)
| cstep_unregister r ns fs p :
    cstep (mk_history r ns fs) (mk_history (unregister r p) ns fs)
| cstep_notify r ns fs n :
    let out := notify fanin_ttl global_cap r (n_kind n) (n_session n) (n_success n) (n_response n) (n_time n) in
    cstep (mk_history r ns fs) (mk_history out.1 (ns ++ [n]) (fs ++ out.2))
| cstep_done r ns fs f :
    f ∈ fs -> fire_task f ∈ active_fires r ->
    cstep (mk_history r ns fs) (mk_history (cleanup r (fire_task f) (name (fire_item f))) ns fs).

(** The completion counts for the item. *)
Definition relevant (it : item) (n : note) : Prop :=
  existsb (pattern_matches (n_kind n)) (continues_after it) = true /\
  outcome_matches it (n_success n) = true /\ content_matches it (n_response n) = true.

(** *** Invariants *)

(** The registered items sit under their own path. *)
Definition items_ok (r : runner) : Prop :=
  NoDup (od_keys (items r)) /\ forall p it, (p, it) ∈ items r -> path it = p.

(** What the fan-in state remembers of a session was notified for it. *)
Definition fanin_ok (ns : list note) (r : runner) : Prop :=
  forall p s ts seen, fanin_state r !! (p, s) = Some (ts, seen) ->
  exists it, od_get (items r) p = Some it /\
    forall k, k ∈ seen -> exists n, n ∈ ns /\ n_kind n = k /\ n_session n = s /\ relevant it n.

(** The two views of the tasks in flight agree, and no empty set lingers. *)
Record tasks_ok (r : runner) (fs : list fire) : Prop := {
  to_fresh : forall t, t ∈ active_fires r -> (t < next_task r)%nat;
  to_ids : NoDup (fire_task <$> fs) /\ forall f, f ∈ fs -> (fire_task f < next_task r)%nat;
  to_by_name : forall n ts, fires_by_name r !! n = Some ts -> ts <> ∅;
  to_agree : forall t n, (exists ts, fires_by_name r !! n = Some ts /\ t ∈ ts) <->
             (t ∈ active_fires r /\ exists f, f ∈ fs /\ fire_task f = t /\ name (fire_item f) = n)
}.

Definition capped (r : runner) : Prop :=
  0 < global_cap -> Z.of_nat (size (active_fires r)) <= global_cap.

(** [unregister] only forgets. *)
Lemma unregister_cases r p :
  (od_get (items r) p = None /\ unregister r p = r) \/
  (is_Some (od_get (items r) p) /\
   unregister r p = mk_runner (od_pop (items r) p) (active_fires r) (fires_by_name r)
                      (filter (fun kv => kv.1.1 <> p) (fanin_state r)) (next_task r)).
Proof. unfold unregister. destruct (od_get (items r) p) eqn:E; [right|left]; eauto. Qed.

Lemma unregister_items_ok r p : items_ok r -> items_ok (unregister r p).
Proof.
  intros [Hnd Hp]. destruct (unregister_cases r p) as [[_ ->]|[_ ->]]; [done|]. split; cbn.
  - by apply od_pop_NoDup.
  - intros q it [_ Hin]%list_elem_of_filter. eauto.
Qed.

Lemma unregister_fanin_ok ns r p : fanin_ok ns r -> fanin_ok ns (unregister r p).
Proof.
  intros Hf. destruct (unregister_cases r p) as [[_ ->]|[_ ->]]; [done|].
  intros q s ts seen [Hk Hne]%map_lookup_filter_Some. cbn in *.
  destruct (Hf _ _ _ _ Hk) as (it & Hit & Hseen). exists it. split; [|done].
  by rewrite od_pop_get_ne by congruence.
Qed.

(** After an unregistration no state is left under the path. *)
Lemma unregister_fanin_None ns r p s : fanin_ok ns r -> fanin_state (unregister r p) !! (p, s) = None.
Proof.
  intros Hf. destruct (unregister_cases r p) as [[Hnone ->]|[_ ->]]; cbn.
  - destruct (fanin_state r !! (p, s)) as [[ts seen]|] eqn:E; [|done].
    destruct (Hf _ _ _ _ E) as (it & ? & _). congruence.
  - apply map_lookup_filter_None. right. intros x _ Hne. by apply Hne.
Qed.

Lemma unregister_tasks r p :
  active_fires (unregister r p) = active_fires r /\ fires_by_name (unregister r p) = fires_by_name r /\
  next_task (unregister r p) = next_task r.
Proof. by destruct (unregister_cases r p) as [[_ ->]|[_ ->]]. Qed.

Lemma tasks_ok_eq r r' fs :
  active_fires r' = active_fires r -> fires_by_name r' = fires_by_name r -> next_task r' = next_task r ->
  tasks_ok r fs -> tasks_ok r' fs.
Proof. intros E1 E2 E3 []. split; rewrite ?E1, ?E2, ?E3; done. Qed.

Lemma register_items_ok r it : items_ok r -> items_ok (register r (path it) (PItem it)).
Proof.
  intros H. apply (unregister_items_ok _ (path it)) in H as [Hnd Hp]. split; cbn.
  - by apply od_set_NoDup.
  - intros q it' Hin. apply (od_get_Some _ _ _ (od_set_NoDup _ _ _ Hnd)) in Hin.
    destruct (decide (path it = q)) as [<-|Hne].
    + rewrite od_set_get in Hin. congruence.
    + rewrite od_set_get_ne in Hin by done. apply Hp. by apply od_get_elem.
Qed.

Lemma register_fanin_ok ns r it : fanin_ok ns r -> fanin_ok ns (register r (path it) (PItem it)).
Proof.
  intros Hf p s ts seen Hk. cbn in Hk. destruct (decide (path it = p)) as [<-|Hne].
  - rewrite (unregister_fanin_None ns) in Hk by done. done.
  - destruct (unregister_fanin_ok _ _ (path it) Hf _ _ _ _ Hk) as (it' & Hit & ?).
    exists it'. cbn. by rewrite od_set_get_ne.
Qed.

Lemma evict_fanin_ok ns r now : fanin_ok ns r -> fanin_ok ns (evict_stale_fanin fanin_ttl r now).2.
Proof.
  intros Hf. unfold evict_stale_fanin. destruct (fanin_ttl <=? 0); [done|].
  intros p s ts seen [Hk _]%map_lookup_filter_Some. exact (Hf _ _ _ _ Hk).
Qed.

Record inv (ns : list note) (fs : list fire) (r : runner) : Prop := {
  inv_items : items_ok r;
  inv_fanin : fanin_ok ns r;
  inv_tasks : tasks_ok r fs;
  inv_capped : capped r
}.

(** A fire answers a completion of its session, and every pattern of its item
    was matched by a completion of that session which the item accepts. *)
Definition justified (ns : list note) (n : note) (f : fire) : Prop :=
  let it := fire_item f in
  fire_kind f = n_kind n /\ fire_session f = n_session n /\ enabled it = true /\ relevant it n /\
  forall p, p ∈ continues_after it ->
    exists n', n' ∈ ns /\ n_session n' = n_session n /\ relevant it n' /\ pattern_matches (n_kind n') p = true.

Lemma fanin_ready_spec it seen :
  fanin_ready it seen = true <->
  forall p, p ∈ continues_after it -> exists k, k ∈ seen /\ pattern_matches k p = true.
Proof.
  unfold fanin_ready. rewrite forallb_forall. setoid_rewrite existsb_exists.
  split; intros H p Hp.
  - apply list_elem_of_In in Hp. destruct (H p Hp) as (k & Hk%list_elem_of_In%elem_of_elements & ?). eauto.
  - apply list_elem_of_In in Hp. destruct (H p Hp) as (k & Hk & ?). exists k.
    split; [|done]. by apply list_elem_of_In, elem_of_elements.
Qed.

Lemma fanin_ok_mono ns ns' r : (forall n, n ∈ ns -> n ∈ ns') -> fanin_ok ns r -> fanin_ok ns' r.
Proof.
  intros Hsub Hf p s ts seen Hk. destruct (Hf _ _ _ _ Hk) as (it & Hit & Hseen).
  exists it. split; [done|]. intros k Hin. destruct (Hseen k Hin) as (n & ? & ?). eauto.
Qed.

Lemma record_fanin_ok ns r it n :
  n ∈ ns -> relevant it n -> od_get (items r) (path it) = Some it -> fanin_ok ns r ->
  let '(seen, r') := record_fanin r (path it, n_session n) (n_kind n) (n_time n) in
  fanin_ok ns r' /\
  (exists f, r' = set_fanin r f) /\
  (forall k, k ∈ seen -> exists n', n' ∈ ns /\ n_kind n' = k /\ n_session n' = n_session n /\ relevant it n').
Proof.
  intros Hn Hrel Hit Hf. unfold record_fanin.
  set (seen0 := match fanin_state r !! (path it, n_session n) with Some (_, s) => s | None => ∅ end).
  assert (Hseen0 : forall k, k ∈ seen0 ->
    exists n', n' ∈ ns /\ n_kind n' = k /\ n_session n' = n_session n /\ relevant it n').
  { intros k Hk. unfold seen0 in Hk.
    destruct (fanin_state r !! (path it, n_session n)) as [[ts s]|] eqn:E; [|set_solver].
    destruct (Hf _ _ _ _ E) as (it' & Hit' & Hs). replace it with it' by congruence. eauto. }
  assert (Hseen : forall k, k ∈ seen0 ∪ {[n_kind n]} ->
    exists n', n' ∈ ns /\ n_kind n' = k /\ n_session n' = n_session n /\ relevant it n').
  { intros k [Hk| ->%elem_of_singleton]%elem_of_union; [auto|eauto]. }
  assert (Hins : forall ts seen, (forall k, k ∈ seen -> k ∈ seen0 ∪ {[n_kind n]}) ->
    fanin_ok ns (set_fanin r (<[(path it, n_session n) := (ts, seen)]> (fanin_state r)))).
  { intros ts seen Hsub p s ts' seen' Hk. cbn in Hk.
    apply lookup_insert_Some in Hk as [[[= <- <-] [= <- <-]]|[_ Hk]]; [|exact (Hf _ _ _ _ Hk)].
    exists it. split; [done|]. intros k Hk. destruct (Hseen k (Hsub k Hk)) as (n' & ? & ? & ? & ?). eauto 6. }
  unfold seen0 in *.
  destruct (fanin_state r !! (path it, n_session n)) as [[ts s]|] eqn:E; cbn zeta.
  - split_and!; [by apply Hins|by eexists|done].
  - split_and!; [apply Hins; set_solver|by eexists|]. intros k Hk. apply Hseen. set_solver.
Qed.

Lemma upstream_ready_ok ns fs r it n :
  n ∈ ns -> relevant it n -> od_get (items r) (path it) = Some it -> inv ns fs r ->
  let '(ready, key, r') := upstream_ready r it (n_kind n) (n_session n) (n_time n) in
  inv ns fs r' /\ (exists f, r' = set_fanin r f) /\
  (ready = true -> forall p, p ∈ continues_after it ->
    exists n', n' ∈ ns /\ n_session n' = n_session n /\ relevant it n' /\ pattern_matches (n_kind n') p = true).
Proof.
  intros Hn Hrel Hit [Hi Hf Ht Hc]. unfold upstream_ready. case_decide as Hlen.
  - split_and!; [done|exists (fanin_state r); by destruct r|]. intros _ p Hp. exists n. split_and!; try done.
    destruct (continues_after it) as [|p0 [|]] eqn:Eca; try done.
    apply list_elem_of_singleton in Hp as ->. destruct Hrel as [Hm _]. rewrite Eca in Hm. cbn in Hm.
    by rewrite orb_false_r in Hm.
  - pose proof (record_fanin_ok ns r it n Hn Hrel Hit Hf) as Hrec.
    destruct (record_fanin _ _ _ _) as [seen r']. destruct Hrec as (Hf' & (f & ->) & Hseen).
    assert (Hinv : inv ns fs (set_fanin r f)).
    { split; [done|done| |done]. by apply (tasks_ok_eq r). }
    destruct (fanin_ready it seen) eqn:Hready; split_and!; eauto; [|done].
    intros _ p Hp. destruct (proj1 (fanin_ready_spec _ _) Hready p Hp) as (k & Hk & Hm).
    destruct (Hseen k Hk) as (n' & ? & <- & ? & ?). eauto.
Qed.

Lemma tasks_ok_setdefault r fs it :
  in_flight_of r (name it) <> ∅ -> tasks_ok r fs -> tasks_ok (setdefault_fires r (name it)) fs.
Proof.
  intros Hne Ht. apply (tasks_ok_eq r); [done| |done|done]. cbn. apply insert_id.
  unfold in_flight_of in *. destruct (fires_by_name r !! name it) eqn:E; [done|]. by cbn in Hne.
Qed.

Lemma start_fire_by_name r it key :
  fires_by_name (start_fire (setdefault_fires r (name it)) it key)
  = <[name it := in_flight_of r (name it) ∪ {[next_task r]}]> (fires_by_name r).
Proof.
  cbn. rewrite insert_insert_eq. unfold in_flight_of at 1. cbn. by rewrite lookup_insert_eq.
Qed.

Lemma start_fire_tasks_ok r fs it key s k :
  tasks_ok r fs ->
  tasks_ok (start_fire (setdefault_fires r (name it)) it key) (fs ++ [mk_fire (next_task r) it s k]).
Proof.
  intros [Hfr [Hnd Hlt] Hne Hag].
  split; rewrite ?start_fire_by_name; cbn [start_fire setdefault_fires active_fires next_task].
  - intros t [Ht| ->%elem_of_singleton]%elem_of_union; [apply Hfr in Ht; lia|lia].
  - split.
    + rewrite fmap_app. apply NoDup_app. split_and!; [done| |apply NoDup_singleton].
      intros t (f & -> & Hf%Hlt)%list_elem_of_fmap ?%list_elem_of_singleton. cbn in *. lia.
    + intros f [Hf%Hlt| ->%list_elem_of_singleton]%elem_of_app; cbn; lia.
  - intros n ts. intros [[_ <-]|[_ Hn]]%lookup_insert_Some; [set_solver|eauto].
  - intros t n. destruct (decide (name it = n)) as [<-|Hname].
    + rewrite lookup_insert_eq. split.
      * intros (ts & [= <-] & [Ht| ->%elem_of_singleton]%elem_of_union).
        -- unfold in_flight_of in Ht. destruct (fires_by_name r !! name it) as [ts0|] eqn:E; [|set_solver].
           cbn in Ht. destruct (proj1 (Hag t (name it))) as (? & f & ? & ? & ?); [eauto|].
           split; [set_solver|]. exists f. set_solver.
        -- split; [set_solver|]. eexists. split; [apply elem_of_app; right; by left|done].
      * intros [Ht (f & Hf & <- & Hn)]. eexists. split; [done|].
        apply elem_of_app in Hf as [Hf| ->%list_elem_of_singleton]; [|set_solver].
        apply elem_of_union in Ht as [Ht|Ht%elem_of_singleton]; [|apply Hlt in Hf; lia].
        destruct (proj2 (Hag (fire_task f) (name it))) as (ts & Hts & ?); [eauto|].
        unfold in_flight_of. rewrite Hts. cbn. set_solver.
    + rewrite lookup_insert_ne by done. rewrite Hag. split.
      * intros (Ht & f & Hf & ? & ?). split; [set_solver|]. exists f. set_solver.
      * intros (Ht & f & Hf & Hft & Hn).
        apply elem_of_app in Hf as [Hf| ->%list_elem_of_singleton]; [|done].
        apply elem_of_union in Ht as [Ht|Ht%elem_of_singleton]; [eauto|].
        apply Hlt in Hf. lia.
Qed.

Lemma globally_capped_false r t :
  globally_capped global_cap r = false -> t ∉ active_fires r ->
  0 < global_cap -> Z.of_nat (size (active_fires r ∪ {[t]})) <= global_cap.
Proof.
  intros Hg Ht Hpos. rewrite size_union by set_solver. rewrite size_singleton.
  unfold globally_capped in Hg. boolp. destruct Hg; lia.
Qed.

Lemma notify_item_ok ns fs r fires n it :
  n ∈ ns -> (path it, it) ∈ items r -> 1 <= max_concurrent_fires it -> inv ns (fs ++ fires) r ->
  let '(r', fires') := notify_item global_cap (n_kind n) (n_session n) (n_success n) (n_response n)
                         (n_time n) (r, fires) it in
  items r' = items r /\ inv ns (fs ++ fires') r' /\
  (fires' = fires \/
   exists f, fires' = fires ++ [f] /\ fire_item f = it /\ justified ns n f /\
     Z.of_nat (size (in_flight_of r' (name it))) <= max_concurrent_fires it).
Proof.
  intros Hn Hin Hmax Hinv. unfold notify_item.
  destruct (enabled it) eqn:Hen; cbn [negb]; [|eauto].
  destruct (existsb _ _ && _ && _) eqn:Hrel; cbn [negb]; [|eauto].
  apply andb_true_iff in Hrel as [[Hm Ho]%andb_true_iff Hc]. assert (relevant it n) as Hr by done.
  assert (od_get (items r) (path it) = Some it) as Hget.
  { apply od_get_Some; [apply (inv_items _ _ _ Hinv)|done]. }
  pose proof (upstream_ready_ok ns _ r it n Hn Hr Hget Hinv) as Hup.
  destruct (upstream_ready _ _ _ _ _) as [[ready key] r1]. destruct Hup as (Hinv1 & (f & ->) & Hj).
  destruct ready; cbn [negb]; [|eauto].
  destruct (globally_capped _ _) eqn:Hg; [eauto|].
  set (r1 := set_fanin r f) in *. destruct Hinv1 as [Hi1 Hf1 Ht1 Hc1].
  assert (Hsame : in_flight_of (setdefault_fires r1 (name it)) (name it) = in_flight_of r1 (name it)).
  { unfold in_flight_of at 1. cbn. by rewrite lookup_insert_eq. }
  rewrite Hsame. destruct (Z.leb_spec (max_concurrent_fires it) (Z.of_nat (size (in_flight_of r1 (name it))))).
  - split_and!; [done| |auto]. split; [done|done| |done].
    apply tasks_ok_setdefault; [|done]. intros He. rewrite He, size_empty in *. lia.
  - assert (next_task r ∉ active_fires r) as Hfresh.
    { intros Ht. apply (to_fresh _ _ (inv_tasks _ _ _ Hinv)) in Ht. lia. }
    split_and!; [done| |right].
    + split; [done| | |].
      * intros p s ts seen Hk. apply (Hf1 p s ts seen). cbn in Hk |- *. destruct key; [|done].
        by apply lookup_delete_Some in Hk as [_ ?].
      * rewrite app_assoc. exact (start_fire_tasks_ok r1 _ it key _ _ Ht1).
      * intros Hpos. exact (globally_capped_false r1 _ Hg Hfresh Hpos).
    + eexists. split_and!; [done|done| |].
      * split_and!; try done. by apply Hj.
      * unfold in_flight_of at 1. rewrite start_fire_by_name, lookup_insert_eq. cbn [default from_option id].
        rewrite size_union_alt. pose proof (subseteq_size ({[next_task r]} ∖ in_flight_of r1 (name it)) {[next_task r]}) as Hs.
        rewrite size_singleton in Hs. assert ({[next_task r]} ∖ in_flight_of r1 (name it) ⊆ {[next_task r]}) as Hsub by set_solver.
        specialize (Hs Hsub). change (next_task r1) with (next_task r). lia.
Qed.

(** *** Notification, completion and reachability *)

Definition bounded_items (r : runner) : Prop :=
  forall p it, (p, it) ∈ items r -> 1 <= max_concurrent_fires it.

Lemma notify_fold_ok ns fs n its r fires :
  n ∈ ns -> Forall (fun it => (path it, it) ∈ items r /\ 1 <= max_concurrent_fires it) its ->
  inv ns (fs ++ fires) r -> Forall (justified ns n) fires ->
  let '(r', fires') := foldl (notify_item global_cap (n_kind n) (n_session n) (n_success n)
                                (n_response n) (n_time n)) (r, fires) its in
  items r' = items r /\ inv ns (fs ++ fires') r' /\ Forall (justified ns n) fires'.
Proof.
  intros Hn Hits. revert r fires Hits. induction its as [|it its IH]; intros r fires Hits Hinv Hj; [done|].
  apply Forall_cons in Hits as [[Hin Hmax] Hits]. cbn [foldl].
  pose proof (notify_item_ok ns fs r fires n it Hn Hin Hmax Hinv) as Hone.
  destruct (notify_item _ _ _ _ _ _ _ _) as [r1 fires1]. destruct Hone as (Hit & Hinv1 & Hf).
  assert (Forall (justified ns n) fires1) as Hj1.
  { destruct Hf as [->|(f & -> & _ & ? & _)]; [done|]. apply Forall_app. auto. }
  rewrite <-Hit in Hits. specialize (IH r1 fires1 Hits Hinv1 Hj1).
  destruct (foldl _ _ _) as [r2 fires2]. rewrite Hit in IH. exact IH.
Qed.

Lemma notify_ok ns fs r n :
  inv ns fs r -> bounded_items r ->
  let '(r', fires) := notify fanin_ttl global_cap r (n_kind n) (n_session n) (n_success n)
                        (n_response n) (n_time n) in
  items r' = items r /\ inv (ns ++ [n]) (fs ++ fires) r' /\ Forall (justified (ns ++ [n]) n) fires.
Proof.
  intros Hinv Hb. unfold notify. set (r1 := (evict_stale_fanin fanin_ttl r (n_time n)).2).
  assert (Hr1 : items r1 = items r /\ inv (ns ++ [n]) fs r1).
  { assert (exists f, r1 = set_fanin r f) as [f Hf].
    { unfold r1, evict_stale_fanin. destruct (fanin_ttl <=? 0); [|by eexists].
      exists (fanin_state r). by destruct r. }
    destruct Hinv as [Hi Hfan Ht Hc]. split; [by rewrite Hf|]. split.
    - by rewrite Hf.
    - apply (fanin_ok_mono ns); [set_solver|]. by apply evict_fanin_ok.
    - rewrite Hf. by apply (tasks_ok_eq r).
    - by rewrite Hf. }
  destruct Hr1 as [Hit Hinv1]. rewrite <-Hit.
  apply (notify_fold_ok (ns ++ [n]) fs n _ r1 []); [set_solver| |by rewrite app_nil_r|constructor].
  apply Forall_forall. intros it ([p it'] & -> & Hin)%list_elem_of_fmap. cbn.
  pose proof (proj2 (inv_items _ _ _ Hinv1) _ _ Hin) as <-. split; [done|].
  rewrite Hit in Hin. eauto.
Qed.

Lemma cleanup_ok ns fs r f :
  inv ns fs r -> f ∈ fs -> inv ns fs (cleanup r (fire_task f) (name (fire_item f))).
Proof.
  intros [Hi Hf Ht Hc] Hin. destruct Ht as [Hfr [Hnd Hlt] Hne Hag].
  assert (Huniq : forall f', f' ∈ fs -> fire_task f' = fire_task f -> f' = f).
  { intros f' Hf' Heq. apply list_elem_of_lookup in Hf' as [i Hi'], Hin as [j Hj].
    assert (i = j) as ->; [|congruence]. eapply (NoDup_lookup _ i j (fire_task f)); [done| |];
      rewrite list_lookup_fmap; [rewrite Hi'|rewrite Hj]; cbn; congruence. }
  set (t := fire_task f) in *. set (n := name (fire_item f)) in *.
  assert (Hby : forall m ts, fires_by_name (cleanup r t n) !! m = Some ts <->
            ts <> ∅ /\ exists ts0, fires_by_name r !! m = Some ts0 /\
              ts = if decide (m = n) then ts0 ∖ {[t]} else ts0).
  { intros m ts. cbn. destruct (fires_by_name r !! n) as [s|] eqn:Hs.
    - destruct (decide (s ∖ {[t]} = ∅)) as [He|He]; destruct (decide (m = n)) as [->|Hmn].
      + rewrite lookup_delete_eq, Hs. split; [done|]. intros (? & ? & [= <-] & ->). done.
      + rewrite lookup_delete_ne by done. split; [eauto|]. by intros (? & ? & ? & ->).
      + rewrite lookup_insert_eq, Hs. split; [intros [= <-]; eauto|]. by intros (? & ? & [= <-] & ->).
      + rewrite lookup_insert_ne by done. split; [eauto|]. by intros (? & ? & ? & ->).
    - destruct (decide (m = n)) as [->|Hmn]; rewrite ?Hs; split; try done; [|eauto|]; naive_solver. }
  split; [done|done| |].
  - split; cbn [active_fires next_task cleanup].
    + intros t' Ht'. apply Hfr. set_solver.
    + done.
    + intros m ts Hm. by apply Hby in Hm as [? _].
    + intros t' m. split.
      * intros (ts & (Hnn & ts0 & Hts0 & ->)%Hby & Ht').
        destruct (proj1 (Hag t' m)) as (Ha & f' & Hf' & Htf & Hnf); [exists ts0; split; [done|]; case_decide; set_solver|].
        split; [|eauto]. apply elem_of_difference. split; [done|]. intros Heq%elem_of_singleton.
        subst t'. rewrite (Huniq f') in Hnf by congruence. rewrite decide_True in Ht' by (unfold n; congruence).
        set_solver.
      * intros [[Ha Hnt]%elem_of_difference Hex]. destruct (proj2 (Hag t' m)) as (ts & Hts & Hin'); [done|].
        exists (if decide (m = n) then ts ∖ {[t]} else ts). split; [apply Hby; split; [|eauto]|];
          case_decide; set_solver.
  - intros Hpos. cbn. etransitivity; [|by apply Hc]. apply inj_le, subseteq_size. set_solver.
Qed.

Record history_ok (h : history) : Prop := {
  ho_inv : inv (h_notes h) (h_fires h) (h_runner h);
  ho_bounded : bounded_items (h_runner h);
  ho_justified : forall f, f ∈ h_fires h -> exists n, n ∈ h_notes h /\ justified (h_notes h) n f
}.

Lemma unregister_bounded r p : bounded_items r -> bounded_items (unregister r p).
Proof.
  intros Hb. destruct (unregister_cases r p) as [[_ ->]|[_ ->]]; [done|].
  intros q it [_ Hin]%list_elem_of_filter. eauto.
Qed.

Lemma register_tasks_inv ns fs r it :
  inv ns fs r -> inv ns fs (register r (path it) (PItem it)).
Proof.
  intros [Hi Hf Ht Hc]. destruct (unregister_tasks r (path it)) as (E1 & E2 & E3). split.
  - by apply register_items_ok.
  - by apply register_fanin_ok.
  - by apply (tasks_ok_eq r).
  - intros Hpos. cbn. rewrite E1. by apply Hc.
Qed.

Lemma unregister_inv ns fs r p : inv ns fs r -> inv ns fs (unregister r p).
Proof.
  intros [Hi Hf Ht Hc]. destruct (unregister_tasks r p) as (E1 & E2 & E3). split.
  - by apply unregister_items_ok.
  - by apply unregister_fanin_ok.
  - by apply (tasks_ok_eq r).
  - intros Hpos. rewrite E1. by apply Hc.
Qed.

Lemma justified_mono ns ns' n f : (forall m, m ∈ ns -> m ∈ ns') -> justified ns n f -> justified ns' n f.
Proof.
  intros Hsub (? & ? & ? & ? & Hp). split_and!; try done. intros p Hin.
  destruct (Hp p Hin) as (n' & ? & ?). eauto.
Qed.

Lemma cstep_ok h h' : cstep h h' -> history_ok h -> history_ok h'.
Proof.
  intros Hstep [Hi Hb Hj]. destruct Hstep as [r ns fs p it <- Hmax|r ns fs p|r ns fs p|r ns fs n out|r ns fs f Hf Hact];
    cbn [h_runner h_notes h_fires] in *.
  - split; cbn [h_runner h_notes h_fires]; [by apply register_tasks_inv| |done].
    intros q it' Hin. apply elem_of_od_set in Hin as [[= _ ->]|Hin]; [done|].
    by eapply unregister_bounded.
  - done.
  - split; cbn [h_runner h_notes h_fires]; [by apply unregister_inv|by apply unregister_bounded|done].
  - pose proof (notify_ok ns fs r n Hi Hb) as Hn. unfold out. clear out.
    destruct (notify _ _ _ _ _ _ _ _) as [r' fires]. destruct Hn as (Hit & Hinv & Hfires).
    split; cbn [h_runner h_notes h_fires fst snd]; [done| |].
    + intros p it. rewrite Hit. apply Hb.
    + intros f [Hin|Hin]%elem_of_app.
      * destruct (Hj f Hin) as (n' & ? & ?). exists n'. split; [set_solver|].
        eapply justified_mono; [|done]. set_solver.
      * exists n. split; [set_solver|]. rewrite Forall_forall in Hfires. auto.
  - split; cbn [h_runner h_notes h_fires]; [by apply cleanup_ok|done|done].
Qed.

Lemma reachable_history_ok h : rtc cstep initial_history h -> history_ok h.
Proof.
  intros Hr. assert (history_ok initial_history) as H0.
  { split; cbn; [|by intros ? ? ?%not_elem_of_nil|by intros ? ?%not_elem_of_nil]. split.
    - split; [constructor|by intros ? ? ?%not_elem_of_nil].
    - intros p s ts seen Hk. cbn in Hk. by rewrite lookup_empty in Hk.
    - split; cbn; [set_solver|split; [constructor|by intros ? ?%not_elem_of_nil]|by intros ? ? ?%lookup_empty_Some|].
      intros t n. split; [by intros (? & ?%lookup_empty_Some & _)|by intros [? _]].
    - intros Hpos. cbn. rewrite size_empty. lia. }
  revert H0. induction Hr; eauto using cstep_ok.
Qed.

(** C5: continuations fire only when they should. In any run of
    registrations, notifications and completions, every fire was started for
    an item that was enabled when it fired, by a completion of its session
    whose outcome and content the item accepts; and every pattern of the item,
    not only one, was matched by a completion of that same session that the
    item accepts: completions of other sessions, and of the item before it was
    re-registered, never count. *)
Theorem fires_are_justified h f :
  rtc cstep initial_history h -> f ∈ h_fires h ->
  exists n, n ∈ h_notes h /\ justified (h_notes h) n f.
Proof. intros Hr. apply reachable_history_ok in Hr as [_ _ Hj]. auto. Qed.

(** C6: bounded concurrency without leaks. In any run, the fires in flight
    never exceed the global cap (when it is positive); the per-name sets hold
    exactly the fires in flight of that name; and once nothing is in flight
    no entry is left behind. *)
Theorem in_flight_bounded_and_exact h :
  rtc cstep initial_history h ->
  let r := h_runner h in
  (0 < global_cap -> Z.of_nat (size (active_fires r)) <= global_cap) /\
  (forall t n, t ∈ in_flight_of r n <->
     t ∈ active_fires r /\ exists f, f ∈ h_fires h /\ fire_task f = t /\ name (fire_item f) = n) /\
  (active_fires r = ∅ -> fires_by_name r = ∅).
Proof.
  intros Hr. apply reachable_history_ok in Hr as [[_ _ Ht Hc] _ _]. destruct Ht as [_ _ Hne Hag].
  split_and!; [done| |].
  - intros t n. rewrite <-Hag. unfold in_flight_of. split.
    + destruct (fires_by_name (h_runner h) !! n) as [ts|]; [eauto|set_solver].
    + intros (ts & -> & ?). done.
  - intros Hempty. apply map_empty. intros n.
    destruct (fires_by_name (h_runner h) !! n) as [ts|] eqn:E; [|done]. exfalso.
    apply (Hne _ _ E), set_eq. intros t. split; [|set_solver]. intros Hin.
    destruct (proj1 (Hag t n)) as [Ha _]; [eauto|]. rewrite Hempty in Ha. set_solver.
Qed.
End Runs.

(** ** Expiry of partial fan-ins *)

Definition fresh_since (cutoff : Z) (r : runner) : Prop :=
  forall key ts seen, fanin_state r !! key = Some (ts, seen) -> cutoff <= ts.

Lemma record_fanin_fresh cutoff r key kind now :
  cutoff <= now -> fresh_since cutoff r -> fresh_since cutoff (record_fanin r key kind now).2.
Proof.
  intros Hnow Hf. unfold record_fanin.
  destruct (fanin_state r !! key) as [[ts0 seen0]|] eqn:E; intros k ts seen Hk; cbn in Hk;
    apply lookup_insert_Some in Hk as [[<- [= <- <-]]|[_ Hk]]; eauto. case_decide; eauto.
Qed.

Lemma notify_item_fresh global_cap cutoff kind session success response now r fires it :
  cutoff <= now -> fresh_since cutoff r ->
  fresh_since cutoff (notify_item global_cap kind session success response now (r, fires) it).1.
Proof.
  intros Hnow Hf. unfold notify_item. destruct (negb (enabled it)); [done|].
  destruct (negb _); [done|].
  assert (Hup : fresh_since cutoff (upstream_ready r it kind session now).2).
  { unfold upstream_ready. case_decide; [done|].
    pose proof (record_fanin_fresh cutoff r (path it, session) kind now Hnow Hf) as Hr.
    destruct (record_fanin _ _ _ _) as [seen r']. by destruct (fanin_ready it seen). }
  destruct (upstream_ready r it kind session now) as [[ready key] r1]. cbn [snd] in Hup.
  destruct (negb ready); [done|]. destruct (globally_capped _ _); [done|].
  destruct (_ <=? _); [done|]. intros k ts seen. cbn. destruct key; [|apply Hup].
  intros [_ Hk]%lookup_delete_Some. eauto.
Qed.

(** Partial fan-ins expire. After every notification no remembered
    partial fan-in is older than the TTL: a required upstream that never
    completes cannot keep the state of its session forever. *)
Theorem fanin_state_expires fanin_ttl global_cap r kind session success response now :
  0 < fanin_ttl ->
  forall key ts seen,
    fanin_state (notify fanin_ttl global_cap r kind session success response now).1 !! key = Some (ts, seen) ->
    now - fanin_ttl <= ts.
Proof.
  intros Httl. change (fresh_since (now - fanin_ttl)
    (notify fanin_ttl global_cap r kind session success response now).1).
  unfold notify. set (r1 := (evict_stale_fanin fanin_ttl r now).2).
  assert (fresh_since (now - fanin_ttl) r1) as H1.
  { unfold r1, evict_stale_fanin. replace (fanin_ttl <=? 0) with false by (symmetry; blia).
    intros key ts seen [_ Hle]%map_lookup_filter_Some. exact Hle. }
  generalize (od_values (items r1)) as its. generalize (@nil fire) as fires.
  clearbody r1. revert r1 H1. intros r1 H1 fires its. revert r1 H1 fires.
  induction its as [|it its IH]; intros r1 H1 fires; [done|]. cbn [foldl].
  pose proof (notify_item_fresh global_cap (now - fanin_ttl) kind session success response now r1 fires it) as Hone.
  destruct (notify_item _ _ _ _ _ _ (r1, fires) it) as [r2 fires2]. apply IH, Hone; [lia|done].
Qed.

(** ** Shed fires are not lost *)

Lemma fanin_ready_mono it s1 s2 : s1 ⊆ s2 -> fanin_ready it s1 = true -> fanin_ready it s2 = true.
Proof.
  rewrite !fanin_ready_spec. intros Hs Hr p Hp. destruct (Hr p Hp) as (k & ? & ?). eauto.
Qed.

(** A fire that is shed is not lost. When an item with several upstreams
    is ready but a cap stops it, its fan-in state stays complete; and any
    later completion of that session that the item accepts, in a state where
    neither cap is reached and the entry has not expired, starts the fire. *)
Theorem shed_fire_retried global_cap r r1 it kind session success response now fires
    r2 kind2 success2 response2 now2 fires2 :
  enabled it = true -> length (continues_after it) <> 1%nat ->
  existsb (pattern_matches kind) (continues_after it) && outcome_matches it success
    && content_matches it response = true ->
  upstream_ready r it kind session now = (true, Some (path it, session), r1) ->
  globally_capped global_cap r1 || (max_concurrent_fires it <=? Z.of_nat (size (in_flight_of r1 (name it)))) = true ->
  let '(r', fires') := notify_item global_cap kind session success response now (r, fires) it in
  fires' = fires /\
  (fanin_state r2 !! (path it, session) = fanin_state r' !! (path it, session) ->
   existsb (pattern_matches kind2) (continues_after it) && outcome_matches it success2
     && content_matches it response2 = true ->
   globally_capped global_cap r2 || (max_concurrent_fires it <=? Z.of_nat (size (in_flight_of r2 (name it)))) = false ->
   let '(r3, fires3) := notify_item global_cap kind2 session success2 response2 now2 (r2, fires2) it in
   fires3 = fires2 ++ [mk_fire (next_task r2) it session kind2] /\
   fanin_state r3 !! (path it, session) = None).
Proof.
  intros Hen Hlen Hrel Hready Hcap.
  assert (Hseen : exists ts seen, fanin_state r1 !! (path it, session) = Some (ts, seen) /\ fanin_ready it seen = true).
  { unfold upstream_ready in Hready. rewrite decide_False in Hready by done. unfold record_fanin in Hready.
    destruct (fanin_state r !! (path it, session)) as [[ts0 seen0]|];
      destruct (fanin_ready it _) eqn:Hr; try done; injection Hready as <-; cbn;
      rewrite lookup_insert_eq; eauto. }
  assert (Hshed : exists r', notify_item global_cap kind session success response now (r, fires) it = (r', fires) /\
            fanin_state r' = fanin_state r1).
  { unfold notify_item. rewrite Hen, Hrel, Hready. cbn [negb].
    destruct (globally_capped global_cap r1); [by eexists|]. cbn [orb] in Hcap.
    unfold in_flight_of at 1. cbn. rewrite lookup_insert_eq. cbn [default from_option id].
    rewrite Hcap. by eexists. }
  destruct Hshed as (r' & -> & Hsame). split; [done|]. intros Hkeep Hrel2 Hcap2.
  rewrite Hsame in Hkeep. destruct Hseen as (ts & seen & Hts & Hr). rewrite Hts in Hkeep.
  apply orb_false_iff in Hcap2 as [Hg Hm].
  unfold notify_item. rewrite Hen, Hrel2. cbn [negb]. unfold upstream_ready.
  rewrite decide_False by done. unfold record_fanin. rewrite Hkeep.
  rewrite (fanin_ready_mono it seen) by (done || set_solver). cbn [negb].
  change (globally_capped global_cap (set_fanin r2 ?f)) with (globally_capped global_cap r2). rewrite Hg.
  unfold in_flight_of at 1. cbn [fires_by_name setdefault_fires]. rewrite lookup_insert_eq.
  cbn [default from_option id]. change (in_flight_of (set_fanin r2 ?f)) with (in_flight_of r2). rewrite Hm.
  split; [done|]. cbn. by rewrite lookup_delete_eq.
Qed.

(** ** The parser *)

(** What a continuation file can produce. A file never gives the
    [_DISABLED] result its documentation promises; it gives an item or
    [None]. An item sits under the path of the file, has at least one
    upstream pattern if it is enabled, no empty pattern, a token budget of at
    least one if it has one, and a concurrency cap of at least one when the
    configured default is. *)
Theorem parse_continuation_spec yaml_safe_load max_yaml_bytes default_max_fires p raw :
  match parse_continuation_file yaml_safe_load max_yaml_bytes default_max_fires p raw with
  | PDisabled => False
  | PNone => True
  | PItem it =>
      path it = p /\
      (enabled it = true -> continues_after it <> []) /\
      ~ "" ∈ continues_after it /\
      (forall n, max_tokens it = Some n -> 1 <= n) /\
      (1 <= default_max_fires -> 1 <= max_concurrent_fires it)
  end.
Proof.
  assert (Hstrip : forall l, ~ "" ∈ nonempty_strips l).
  { intros l [Hne _]%list_elem_of_filter. done. }
  assert (Hca : forall v, ~ "" ∈ parse_continues_after v).
  { intros v. unfold parse_continues_after.
    destruct v; try case_decide; apply not_elem_of_nil || apply Hstrip. }
  assert (Hpos : forall s n, positive_field s None = Some n -> 1 <= n).
  { intros [s|] n; cbn; [|done]. destruct (py_int s); [intros [= <-]; lia|done]. }
  unfold parse_continuation_file. destruct raw as [raw|]; [|done].
  destruct (parse_frontmatter _ _ raw) as [[fields content]|]; [|done].
  destruct (parse_frontmatter_raw _ _ raw) as [[raw_fields ?]|]; [|done].
  set (ca := parse_continues_after _). set (en := text_flag _ _ _ _).
  destruct (bool_decide (ca = []) && en) eqn:Hbad; [done|]. cbn [path enabled continues_after max_tokens max_concurrent_fires].
  split_and!; [done| |apply Hca|by apply Hpos|].
  - intros He. rewrite He, andb_true_r in Hbad. by apply bool_decide_eq_false in Hbad.
  - intros Hd. destruct (positive_field (field_or fields "max-concurrent-fires" _) None) as [n|] eqn:Hn; [|done].
    by apply Hpos in Hn.
Qed.

(** ** Witnesses *)

Definition both : item := {|
  path := "/c/both.md"; name := "both"; continues_after := ["job:a"; "job:b*"]; content := "go";
  on_success := true; on_error := false; trigger_when := None; delay := None; session_id := None;
  model := None; backend_id := None; description := None; consensus := []; max_tokens := None;
  max_concurrent_fires := 1; enabled := true |}.

Definition r_both : runner := register new_runner "/c/both.md" (PItem both).
Definition note_a : note := mk_note "job:a" "s" true "ok" 10.
Definition note_b : note := mk_note "job:b2" "s" true "ok" 20.
Definition h_both : history :=
  let out1 := notify 100 5 r_both "job:a" "s" true "ok" 10 in
  let out2 := notify 100 5 out1.1 "job:b2" "s" true "ok" 20 in
  mk_history out2.1 [note_a; note_b] (out1.2 ++ out2.2).

Lemma h_both_reachable : rtc (cstep 100 5) initial_history h_both.
Proof.
  eapply rtc_l; [apply (cstep_register _ _ new_runner [] [] "/c/both.md" both); [reflexivity|cbn; lia]|].
  eapply rtc_l; [apply (cstep_notify 100 5 r_both [] [] note_a)|].
  eapply rtc_l; [apply (cstep_notify 100 5 _ [note_a] _ note_b)|]. apply rtc_refl.
Defined.

Lemma fires_are_justified_witness :
  exists n, n ∈ h_notes h_both /\ justified (h_notes h_both) n (mk_fire 0 both "s" "job:b2").
Proof.
  apply (fires_are_justified 100 5 h_both); [exact h_both_reachable|].
  vm_compute. apply list_elem_of_here.
Defined.

Lemma in_flight_bounded_and_exact_witness :
  Z.of_nat (size (active_fires (h_runner h_both))) <= 5.
Proof. exact (proj1 (in_flight_bounded_and_exact 100 5 h_both h_both_reachable) eq_refl). Defined.

Lemma fanin_state_expires_witness : 10 - 100 <= 10.
Proof.
  apply (fanin_state_expires 100 5 r_both "job:a" "s" true "ok" 10 ltac:(lia)
           ("/c/both.md", "s") 10 {["job:a"]}).
  vm_compute. reflexivity.
Defined.

(** With one other task in flight and a global cap of one, the second
    completion makes the item ready but sheds the fire. *)
Definition r_half : runner :=
  let r := (notify 100 5 r_both "job:a" "s" true "ok" 10).1 in
  mk_runner (items r) {[7%nat]} (fires_by_name r) (fanin_state r) 8.

Lemma shed_fire_retried_witness :
  let r' := (notify_item 1 "job:b2" "s" true "ok" 20 (r_half, []) both).1 in
  let r2 := mk_runner (items r') ∅ ∅ (fanin_state r') 8 in
  (notify_item 1 "job:a" "s" true "ok" 30 (r2, []) both).2 = [] ++ [mk_fire 8 both "s" "job:a"].
Proof.
  cbv zeta. set (r' := (notify_item 1 "job:b2" "s" true "ok" 20 (r_half, []) both).1).
  pose proof (shed_fire_retried 1 r_half (upstream_ready r_half both "job:b2" "s" 20).2 both "job:b2" "s" true
    "ok" 20 [] (mk_runner (items r') ∅ ∅ (fanin_state r') 8) "job:a" true "ok" 30 []) as H.
  specialize (H eq_refl ltac:(discriminate) ltac:(vm_compute; reflexivity)
    ltac:(vm_compute; reflexivity) ltac:(vm_compute; reflexivity)).
  destruct (notify_item 1 "job:b2" "s" true "ok" 20 (r_half, []) both) as [r1 f1] eqn:E.
  destruct H as [_ H]. unfold r' in *. cbn [fst] in *.
  specialize (H eq_refl ltac:(vm_compute; reflexivity) ltac:(vm_compute; reflexivity)).
  destruct (notify_item 1 "job:a" "s" true "ok" 30 _ both) as [r3 f3]. exact (proj1 H).
Defined.
