(* ===== verification/HooksEngine.v ===== *)
(** * The tool-call policy engine (shared/hooks_engine.py)

    The baseline predicates over a tool call's arguments, the rule table they
    form, the YAML extension rules, and the evaluator that decides [allow],
    [warn] or [deny].  [re.compile] and [Pattern.search] of the extension
    rules and [yaml.safe_load] are parameters; the fixed regular expressions
    of the predicates are written out. *)
From Stdlib Require Import Ascii.
From S2P Require Import Prelude PyStr PyPath PyVal PyLib.

(** ** Helpers of the predicates *)

Definition bash_command (tool_input : pydict) : string :=
  match dict_get_none tool_input "command" with VStr s => s | _ => "" end.

Definition safe_shlex_split (command : string) : list string :=
  match shlex_split command with Ok argv => argv | Raise _ => str_split_ws command end.

Definition in_list (t : string) (l : list string) : bool := bool_decide (t ∈ l).

(** [any(f(argv[idx], argv[idx + 1:]) for idx in range(len(argv)))] *)
Fixpoint any_tail (f : string -> list string -> bool) (argv : list string) : bool :=
  match argv with
  | [] => false
  | tok :: rest => f tok rest || any_tail f rest
  end.

(** ** [rm -rf] of a system directory *)

Definition RM_RF_DANGEROUS_TARGETS : list string :=
  ["/"; "/*"; "/."; "/.."; "~"; "~root"; "~/"; "$HOME"; "${HOME}"; "/root"; "/home"; "/etc";
   "/var"; "/usr"; "/bin"; "/sbin"; "/boot"; "/lib"; "/lib64"].

Definition is_rm_rf_target (token : string) : bool :=
  if decide (token = "") then false
  else if in_list token RM_RF_DANGEROUS_TARGETS then true
  else
    let stripped := str_rstrip "/*" token in
    bool_decide (stripped <> "") && bool_decide (stripped <> token)
      && in_list stripped RM_RF_DANGEROUS_TARGETS.

(** A cluster of short flags containing [c]. *)
Definition short_flag (c : string) (t : string) : bool :=
  startswith "-" t && negb (startswith "--" t) && str_contains c t.

Definition has_recursive (rest : list string) : bool :=
  existsb (fun t => in_list t ["-r"; "-R"; "--recursive"] || short_flag "r" t) rest.

Definition has_force (rest : list string) : bool :=
  existsb (fun t => in_list t ["-f"; "--force"; "--no-preserve-root"] || short_flag "f" t) rest.

(** One [rm] of the argument vector and what follows it. *)
Definition rm_dangerous (tok : string) (rest : list string) : bool :=
  if negb (bool_decide (basename tok = "rm")) then false
  else if negb (has_recursive rest && has_force rest) && negb (in_list "--no-preserve-root" rest)
  then false
  else existsb is_rm_rf_target rest.

Definition NESTED_SHELLS : list string := ["sh"; "bash"; "zsh"; "ksh"].

(** The commands [sh -c inner] of the vector, in order, until one is
    dangerous. *)
Fixpoint nested_dangerous (rec : string -> option bool) (argv : list string) : option bool :=
  match argv with
  | [] => Some false
  | tok :: rest =>
      match rest with
      | dash_c :: inner :: _ =>
          if in_list (basename tok) NESTED_SHELLS && bool_decide (dash_c = "-c") then
            match rec inner with
            | Some false => nested_dangerous rec rest
            | r => r
            end
          else nested_dangerous rec rest
      | _ => nested_dangerous rec rest
      end
  end.

(** [None] is running out of fuel; [rm_rf_fuel] shows it does not happen. *)
Fixpoint rm_rf_root (fuel : nat) (command : string) : option bool :=
  match fuel with
  | O => None
  | S fuel' =>
      let argv := safe_shlex_split command in
      if any_tail rm_dangerous argv then Some true
      else nested_dangerous (rm_rf_root fuel') argv
  end.

Definition predicate_rm_rf_root (tool_input : pydict) : bool :=
  let command := bash_command tool_input in
  default false (rm_rf_root (S (String.length command)) command).

(** ** [git push --force] to the main branch *)

(** The global options of git; [-C] and [-c] take an argument. *)
Fixpoint skip_git_options (rest : list string) : list string :=
  match rest with
  | t :: rest' =>
      if startswith "-" t then
        if in_list t ["-C"; "-c"] then match rest' with _ :: r => skip_git_options r | [] => [] end
        else skip_git_options rest'
      else rest
  | [] => []
  end.

Definition push_forced (push_args : list string) : bool :=
  existsb (fun a => in_list a ["-f"; "--force"; "--force-with-lease"]
                    || startswith "--force=" a || startswith "--force-with-lease=" a) push_args.

Definition push_to_main (push_args : list string) : bool :=
  existsb (fun a => in_list a ["main"; "master"] || endswith ":main" a || endswith ":master" a
                    || endswith "/main" a || endswith "/master" a) push_args.

Definition git_dangerous (tok : string) (rest : list string) : bool :=
  bool_decide (basename tok = "git") &&
  match skip_git_options rest with
  | sub :: push_args =>
      bool_decide (sub = "push") && push_forced push_args && push_to_main push_args
  | [] => false
  end.

Definition predicate_git_force_push_main (tool_input : pydict) : bool :=
  any_tail git_dangerous (safe_shlex_split (bash_command tool_input)).

(** ** [curl | sh] *)

Definition SHELL_NAMES : list string := ["sh"; "bash"; "zsh"; "ksh"; "dash"; "ash"].

(** [re.split(r"\|+&?", command)]: [in_sep] in a run of bars. *)
Fixpoint split_pipes (in_sep : bool) (s : string) : list string :=
  match s with
  | "" => [""]
  | String c s' =>
      if decide (c = "|"%char) then
        if in_sep then split_pipes true s' else "" :: split_pipes true s'
      else if in_sep && bool_decide (c = "&"%char) then split_pipes false s'
      else match split_pipes false s' with
           | [] => [String c ""]
           | w :: ws => String c w :: ws
           end
  end.

Definition is_ident_start (c : ascii) : bool :=
  ((65 <=? code c) && (code c <=? 90)) || ((97 <=? code c) && (code c <=? 122))
  || bool_decide (c = "_"%char).
Definition is_ident (c : ascii) : bool := is_ident_start c || is_digit c.

(** [re.match(r"^[A-Za-z_][A-Za-z0-9_]*=", t)] *)
Definition is_assignment (t : string) : bool :=
  match t with
  | String c t' => is_ident_start c && startswith "=" (lstrip_by is_ident t')
  | "" => false
  end.

(** A segment of the pipeline and the one after it. *)
Definition fetches_into_shell (segment next : string) : bool :=
  let fetch_names := basename <$> filter (fun t => startswith "-" t = false) (safe_shlex_split segment) in
  let consumer_head := default "" (head (filter (fun t => is_assignment t = false) (safe_shlex_split next))) in
  existsb (fun n => in_list n fetch_names) ["curl"; "wget"]
  && in_list (basename consumer_head) SHELL_NAMES.

Definition predicate_curl_pipe_shell (tool_input : pydict) : bool :=
  let segments := split_pipes false (bash_command tool_input) in
  existsb (fun p => fetches_into_shell p.1 p.2) (zip segments (tail segments)).

(** ** [chmod 777] *)

Definition is_octal (c : ascii) : bool := (48 <=? code c) && (code c <=? 55).
Definition is_zero (c : ascii) : bool := bool_decide (c = "0"%char).

(** [re.fullmatch(r"0*[0-7]{3,4}", t)]: octal digits, at least three, at most
    four of them after leading zeros. *)
Definition is_octal_mode (t : string) : bool :=
  str_all is_octal t && (3 <=? String.length t)%nat
  && (String.length (lstrip_by is_zero t) <=? 4)%nat.

(** The last three digits, padded with zeros. *)
Definition octal_tail (t : string) : string :=
  let digits := lstrip_by is_zero t in
  let digits := if decide (digits = "") then "0" else digits in
  if (3 <=? String.length digits)%nat then str_drop (String.length digits - 3) digits
  else str_take (3 - String.length digits) "000" +:+ digits.

(** The longest run of characters of a class, and the rest. *)
Fixpoint span (p : ascii -> bool) (s : string) : string * string :=
  match s with
  | String c s' => if p c then let '(a, b) := span p s' in (String c a, b) else ("", s)
  | "" => ("", "")
  end.

(** [re.fullmatch(r"([ugoa]+)([+=])([rwxXst]+)", t)] *)
Definition symbolic_mode (t : string) : option (string * ascii * string) :=
  let '(who, rest) := span (in_chars "ugoa") t in
  match rest with
  | String op perms =>
      if bool_decide (who <> "") && in_chars "+=" op && bool_decide (perms <> "")
         && str_all (in_chars "rwxXst") perms
      then Some (who, op, perms) else None
  | "" => None
  end.

Fixpoint chmod_args (args : list string) : bool :=
  match args with
  | [] => false
  | mode :: args' =>
      if startswith "-" mode then chmod_args args'
      else if is_octal_mode mode then bool_decide (octal_tail mode = "777")
      else match symbolic_mode mode with
           | Some (who, _, perms) =>
               str_contains "w" perms && (str_contains "a" who || str_contains "o" who)
           | None => false
           end
  end.

Definition predicate_chmod_777 (tool_input : pydict) : bool :=
  any_tail (fun tok rest => bool_decide (basename tok = "chmod") && chmod_args rest)
    (safe_shlex_split (bash_command tool_input)).

(** ** [dd] to a device *)

Definition DD_DEVICE_FAMILIES : list string :=
  ["sd"; "nvme"; "disk"; "hd"; "vd"; "xvd"; "mmcblk"; "loop"; "mapper/"; "md"; "dm-"].

Definition dd_writes_device (arg : string) : bool :=
  startswith "of=" arg && startswith "/dev/" (str_drop 3 arg)
  && existsb (fun family => startswith family (str_drop 5 (str_drop 3 arg))) DD_DEVICE_FAMILIES.

Definition predicate_dd_device (tool_input : pydict) : bool :=
  any_tail (fun tok rest => bool_decide (basename tok = "dd") && existsb dd_writes_device rest)
    (safe_shlex_split (bash_command tool_input)).

(** ** Writes to a system path *)

Definition SYSTEM_ROOTS : list string :=
  ["/etc"; "/boot"; "/bin"; "/sbin"; "/usr"; "/lib"; "/lib64"; "/sys"; "/proc"; "/dev"].

Definition is_system_path (value : string) : bool :=
  let norm := normpath value in
  isabs norm
  && existsb (fun root => bool_decide (norm = root) || startswith (root +:+ "/") norm) SYSTEM_ROOTS.

Definition predicate_write_system_path (tool_input : pydict) : bool :=
  existsb (fun key => match dict_get_none tool_input key with
                      | VStr value => bool_decide (value <> "") && is_system_path value
                      | _ => false
                      end) ["file_path"; "path"; "notebook_path"].

(** ** Rules *)

Definition DECISION_ALLOW : string := "allow".
Definition DECISION_DENY : string := "deny".
Definition DECISION_WARN : string := "warn".

Section Engine.
(** Compiled regular expressions; [re_compile] is [None] on [re.error]. *)
Context {re : Type}.
Variable re_compile : string -> option re.
Variable re_search : re -> string -> bool.
Variable yaml_safe_load : string -> res pyval.

Record rule : Type := mk_rule {
  r_name : string;
  r_tool : option string;
  r_pattern : option re;
  r_action : string;
  r_reason : string;
  r_source : string;
  r_predicate : option (pydict -> res bool)
}.

Definition baseline_rule (tool name reason : string) (p : pydict -> bool) : rule :=
  mk_rule name (Some tool) None DECISION_DENY reason "baseline" (Some (fun d => Ok (p d))).

Definition BASELINE_RULES_SPEC : list (string * string * (pydict -> bool)) :=
  [("baseline-rm-rf-root",
    "rm -rf targeting root or a system directory — refusing by baseline policy.", predicate_rm_rf_root);
   ("baseline-git-force-push-main",
    "git push --force to main/master — refusing by baseline policy.", predicate_git_force_push_main);
   ("baseline-curl-pipe-shell",
    "curl/wget piped to a shell — refusing by baseline policy.", predicate_curl_pipe_shell);
   ("baseline-chmod-777",
    "chmod world-writable (0777 or a+w/o+w) — refusing by baseline policy.", predicate_chmod_777);
   ("baseline-dd-device",
    "dd to a block device — refusing by baseline policy.", predicate_dd_device)].

Definition BASELINE_WRITE_TOOLS : list string := ["Write"; "Edit"; "MultiEdit"; "NotebookEdit"].

Definition BASELINE_RULES : list rule :=
  ((fun s => baseline_rule "Bash" s.1.1 s.1.2 s.2) <$> BASELINE_RULES_SPEC)
  ++ ((fun tool => baseline_rule tool "baseline-write-system-path"
         "Write/Edit targeting a system path (/etc, /usr, /bin, …) — refusing by baseline policy."
         predicate_write_system_path) <$> BASELINE_WRITE_TOOLS).

(** *** Extension rules: the rule and the config errors counted *)

Definition parse_extension_rule (raw : pydict) : option rule * list string :=
  match dict_get_none raw "name" with
  | VStr name =>
      if decide (str_strip name = "") then (None, ["missing_name"]) else
      let tool := dict_get_none raw "tool" in
      if negb (is_none tool) && negb (is_str tool) then (None, ["non_string_tool"]) else
      let deny_pat := dict_get_none raw "deny_if_match" in
      let warn_pat := dict_get_none raw "warn_if_match" in
      let both := truthy deny_pat && truthy warn_pat in
      let bumps := if both then ["both_patterns"] else [] in
      let warn_pat := if both then VNone else warn_pat in
      if negb (truthy deny_pat) && negb (truthy warn_pat) then (None, bumps ++ ["no_pattern"]) else
      let action := if truthy deny_pat then DECISION_DENY else DECISION_WARN in
      match (if truthy deny_pat then deny_pat else warn_pat) with
      | VStr pat_source =>
          match re_compile pat_source with
          | None => (None, bumps ++ ["invalid_regex"])
          | Some pattern =>
              let reason := dict_get_none raw "reason" in
              let reason := if truthy reason then reason
                            else VStr ("blocked by extension rule " +:+ repr_str name) in
              let tool := match tool with
                          | VStr t => if bool_decide (t <> "") && bool_decide (t <> "*")
                                      then Some t else None
                          | _ => None
                          end in
              (Some (mk_rule name tool (Some pattern) action (py_str reason) "extension" None), bumps)
          end
      | _ => (None, bumps ++ ["non_string_pattern"])
      end
  | _ => (None, ["missing_name"])
  end.

Definition parse_entry (raw : pyval) : option rule * list string :=
  match raw with
  | VDict d => parse_extension_rule d
  | _ => (None, ["non_mapping_entry"])
  end.

(** [v or dflt] *)
Definition py_or (v dflt : pyval) : pyval := if truthy v then v else dflt.

(** [file] is [None] when the path does not exist and the text or the
    exception of reading it otherwise. *)
Definition load_extension_rules (file : option (res string)) : list rule * list string :=
  match file with
  | None => ([], [])
  | Some r =>
      match (text <-- r ;; yaml_safe_load text) with
      | Raise _ => ([], ["file_load_failed"])
      | Ok data =>
          match py_or data (VDict []) with
          | VDict d =>
              match py_or (dict_get_none d "extensions") (VList []) with
              | VList raw_list =>
                  (omap (fun raw => (parse_entry raw).1) raw_list,
                   raw_list ≫= (fun raw => (parse_entry raw).2))
              | _ => ([], ["non_list_extensions"])
              end
          | _ => ([], ["not_mapping"])
          end
      end
  end.

(** *** Evaluation *)

Definition tool_matches (r : rule) (tool_name : string) : bool :=
  match r_tool r with None => true | Some t => bool_decide (t = tool_name) end.

Definition input_haystack (tool_input : pydict) : string := json_dumps (VDict tool_input).

(** The predicate when there is one (an exception is no match), the pattern
    otherwise. *)
Definition rule_matches (r : rule) (tool_input : pydict) : bool :=
  match r_predicate r with
  | Some p => match p tool_input with Ok b => b | Raise _ => false end
  | None =>
      match r_pattern r with
      | Some pat => re_search pat (input_haystack tool_input)
      | None => false
      end
  end.

Fixpoint evaluate_from (first_warn : option rule) (tool_name : string) (tool_input : pydict)
    (rules : list rule) : string * option rule :=
  match rules with
  | [] => match first_warn with
          | Some r => (DECISION_WARN, Some r)
          | None => (DECISION_ALLOW, None)
          end
  | r :: rules' =>
      if negb (tool_matches r tool_name) then evaluate_from first_warn tool_name tool_input rules'
      else if negb (rule_matches r tool_input) then evaluate_from first_warn tool_name tool_input rules'
      else if decide (r_action r = DECISION_DENY) then (DECISION_DENY, Some r)
      else
        let first_warn := if decide (r_action r = DECISION_WARN /\ first_warn = None)
                          then Some r else first_warn in
        evaluate_from first_warn tool_name tool_input rules'
  end.

Definition evaluate_pre_tool_use := evaluate_from None.

(** *** The rule set in force *)

Record hook_state : Type := mk_hook_state {
  baseline_enabled : bool;
  baseline : list rule;
  extensions : list rule
}.

Definition active_rules (st : hook_state) : list rule :=
  if baseline_enabled st then baseline st ++ extensions st else extensions st.

End Engine.

(** ** Lemmas: argument vectors *)

Lemma any_tail_true f argv :
  any_tail f argv = true <-> exists pre tok rest, argv = pre ++ tok :: rest /\ f tok rest = true.
Proof.
  induction argv as [|t argv IH]; cbn.
  - split; [done|]. by intros ([] & ? & ? & [=] & _).
  - rewrite orb_true_iff, IH. split.
    + intros [H|(pre & tok & rest & -> & H)]; [by exists [], t, argv|by exists (t :: pre), tok, rest].
    + intros ([|t' pre] & tok & rest & [= -> ->] & H); [by left|right; by exists pre, tok, rest].
Qed.

Lemma in_list_true t l : in_list t l = true <-> t ∈ l.
Proof. apply bool_decide_eq_true. Qed.

Lemma in_list_false t l : in_list t l = false <-> t ∉ l.
Proof. apply bool_decide_eq_false. Qed.

#[export] Hint Rewrite any_tail_true in_list_true in_list_false : boolp.

Lemma safe_shlex_split_length command :
  (total_length (safe_shlex_split command) <= String.length command)%nat.
Proof.
  unfold safe_shlex_split. destruct (shlex_split command) eqn:E;
    [by apply shlex_split_length|apply str_split_ws_length].
Qed.

(** ** The recursion of the [rm] predicate *)

(** The command [argv] runs with [sh -c]. *)
Definition nested_in (argv : list string) (inner : string) : Prop :=
  exists pre sh post, argv = pre ++ sh :: "-c" :: inner :: post /\ basename sh ∈ NESTED_SHELLS.

Lemma nested_in_cons tok argv inner :
  nested_in (tok :: argv) inner <->
  (basename tok ∈ NESTED_SHELLS /\ exists post, argv = "-c" :: inner :: post) \/ nested_in argv inner.
Proof.
  split.
  - intros ([|t pre] & sh & post & [= -> ->] & Hsh); [by left; eauto|].
    right. by exists pre, sh, post.
  - intros [[H [post ->]]|(pre & sh & post & -> & H)].
    + by exists [], tok, post.
    + by exists (tok :: pre), sh, post.
Qed.

Lemma nested_in_shorter command inner :
  nested_in (safe_shlex_split command) inner -> (String.length inner < String.length command)%nat.
Proof.
  intros (pre & sh & post & E & Hsh). pose proof (safe_shlex_split_length command) as H.
  rewrite E, total_length_app, !total_length_cons in H. cbn [String.length] in H. lia.
Qed.

Lemma nested_dangerous_cons rec tok argv :
  nested_dangerous rec (tok :: argv) =
  match argv with
  | dash_c :: inner :: _ =>
      if in_list (basename tok) NESTED_SHELLS && bool_decide (dash_c = "-c") then
        match rec inner with Some false => nested_dangerous rec argv | r => r end
      else nested_dangerous rec argv
  | _ => nested_dangerous rec argv
  end.
Proof. by destruct argv as [|? []]. Qed.

(** When [rec] decides [P] on every nested command, the scan decides whether
    one of them satisfies it. *)
Lemma nested_dangerous_spec rec (P : string -> Prop) argv :
  (forall inner, nested_in argv inner -> exists b, rec inner = Some b /\ (b = true <-> P inner)) ->
  exists b, nested_dangerous rec argv = Some b /\
    (b = true <-> exists inner, nested_in argv inner /\ P inner).
Proof.
  induction argv as [|tok argv IH]; intros Hrec.
  - exists false. split; [done|]. split; [done|]. intros (inner & (pre & ? & ? & E & _) & _). by destruct pre.
  - destruct IH as (b & Hb & HbP); [intros inner Hin; apply Hrec, nested_in_cons; by right|].
    rewrite nested_dangerous_cons.
    assert (Hskip : ~ (basename tok ∈ NESTED_SHELLS /\ exists inner post, argv = "-c" :: inner :: post) ->
      exists b, nested_dangerous rec argv = Some b /\
        (b = true <-> exists inner, nested_in (tok :: argv) inner /\ P inner)).
    { intros Hno. exists b. split; [done|]. rewrite HbP. setoid_rewrite (nested_in_cons tok).
      split; intros (inner & Hin & HP); exists inner; split; try done; [by right|].
      destruct Hin as [[Hsh [post ->]]|Hin]; [|done]. destruct Hno; eauto. }
    destruct argv as [|dash_c [|inner post]];
      [apply Hskip; intros (? & ? & ? & [=])..|].
    destruct (in_list (basename tok) NESTED_SHELLS && bool_decide (dash_c = "-c")) eqn:E.
    + apply andb_true_iff in E as [Hsh%in_list_true ->%bool_decide_eq_true].
      assert (Hin : nested_in (tok :: "-c" :: inner :: post) inner)
        by (apply nested_in_cons; left; eauto).
      destruct (Hrec inner Hin) as (b' & -> & Hb').
      destruct b'.
      * exists true. split; [done|]. split; [|done]. intros _. exists inner. tauto.
      * exists b. split; [done|]. rewrite HbP. setoid_rewrite (nested_in_cons tok).
        split; intros (i & Hi & HP); exists i; (split; [|done]); [by right|].
        destruct Hi as [[_ [post' [= -> _]]]|Hi]; [|done].
        assert (false = true) by tauto. done.
    + apply Hskip. intros (Hsh & i & p & [= -> _ _]).
      apply in_list_true in Hsh. rewrite Hsh in E. done.
Qed.

(** What the predicate looks for: an [rm] with the recursive and force flags
    and a listed target in the command, or in a command it gives to a
    shell. *)
Inductive removes_system_dir : string -> Prop :=
| removes_direct command pre tok rest :
    safe_shlex_split command = pre ++ tok :: rest ->
    rm_dangerous tok rest = true ->
    removes_system_dir command
| removes_nested command inner :
    nested_in (safe_shlex_split command) inner ->
    removes_system_dir inner ->
    removes_system_dir command.

Lemma removes_system_dir_inv command :
  removes_system_dir command <->
  any_tail rm_dangerous (safe_shlex_split command) = true \/
  exists inner, nested_in (safe_shlex_split command) inner /\ removes_system_dir inner.
Proof.
  rewrite any_tail_true. split.
  - intros []; [left; eauto|right; eauto].
  - intros [(pre & tok & rest & ? & ?)|(inner & ? & ?)]; [by eapply removes_direct|by eapply removes_nested].
Qed.

Lemma rm_rf_fuel fuel command :
  (String.length command < fuel)%nat ->
  exists b, rm_rf_root fuel command = Some b /\ (b = true <-> removes_system_dir command).
Proof.
  revert command. induction fuel as [|fuel IH]; intros command Hlen; [lia|]. cbn [rm_rf_root].
  pose proof (removes_system_dir_inv command) as Hinv.
  destruct (any_tail rm_dangerous _) eqn:E; [exists true; tauto|].
  destruct (nested_dangerous_spec (rm_rf_root fuel) removes_system_dir (safe_shlex_split command))
    as (b & Hb & HbP).
  - intros inner Hin%nested_in_shorter. apply IH. lia.
  - exists b. split; [done|]. rewrite HbP, Hinv. split; [by right|]. by intros [?|?].
Qed.

(** [rm_dangerous] in words of the argument vector. *)
Lemma rm_dangerous_true tok rest :
  rm_dangerous tok rest = true <->
  basename tok = "rm" /\
  (has_recursive rest = true /\ has_force rest = true \/ "--no-preserve-root" ∈ rest) /\
  exists target, target ∈ rest /\ is_rm_rf_target target = true.
Proof.
  assert (Hex : existsb is_rm_rf_target rest = true <->
                exists target, target ∈ rest /\ is_rm_rf_target target = true)
    by (rewrite existsb_exists; by setoid_rewrite list_elem_of_In).
  rewrite <-Hex. unfold rm_dangerous.
  destruct (decide (basename tok = "rm")) as [Hb|Hb];
    [rewrite (bool_decide_true _ Hb)|rewrite (bool_decide_false _ Hb); cbn; intuition discriminate].
  destruct (in_list "--no-preserve-root" rest) eqn:Hn; boolp;
    destruct (has_recursive rest), (has_force rest); cbn; intuition congruence.
Qed.

(** ** Lemmas: protected paths *)

(** The protected directories by their one component. *)
Definition SYSTEM_DIRS : list string := str_drop 1 <$> SYSTEM_ROOTS.

Lemma system_dirs_plain : Forall plain_component SYSTEM_DIRS.
Proof.
  apply Forall_forall. intros w Hw. unfold plain_component.
  repeat (apply elem_of_cons in Hw as [->|Hw]; [cbn; repeat split; try done; set_solver|]).
  by apply elem_of_nil in Hw.
Qed.

Lemma is_system_path_spec p :
  startswith "/" p = true -> startswith "//" p = false \/ startswith "///" p = true ->
  is_system_path p = true <-> exists d, d ∈ SYSTEM_DIRS /\ last (resolved p) = Some d.
Proof.
  intros Hp Hss. unfold is_system_path. rewrite normpath_abs by done.
  assert (Hi : initial_slashes p = "/").
  { unfold initial_slashes. rewrite Hp. by destruct Hss as [->| ->]; rewrite ?andb_false_r. }
  rewrite Hi. cbn [isabs]. unfold isabs. rewrite startswith_app. cbn [andb].
  assert (Hpl : Forall plain_component (rev (resolved p))) by (apply Forall_rev, resolved_plain).
  assert (Hh : forall d, d ∈ SYSTEM_DIRS ->
    bool_decide ("/" +:+ str_join "/" (rev (resolved p)) = "/" +:+ d)
    || startswith (("/" +:+ d) +:+ "/") ("/" +:+ str_join "/" (rev (resolved p))) = true
    <-> last (resolved p) = Some d).
  { intros d Hd. rewrite str_app_assoc, orb_true_iff, bool_decide_eq_true.
    change ("/" +:+ ?s) with (String slash s). rewrite startswith_cons.
    rewrite <-head_rev, <-(covered_iff d); [|done|].
    - split; (intros [H|H]; [left; congruence|right; exact H]).
    - eapply Forall_forall; [apply system_dirs_plain|done]. }
  assert (HR : SYSTEM_ROOTS = (fun d => "/" +:+ d) <$> SYSTEM_DIRS) by reflexivity.
  rewrite HR, existsb_exists. split.
  - intros (x & Hx & H). apply list_elem_of_In, list_elem_of_fmap in Hx as (d & -> & Hd).
    exists d. split; [done|]. by apply Hh.
  - intros (d & Hd & H). exists ("/" +:+ d). split; [|by apply Hh].
    apply list_elem_of_In, list_elem_of_fmap. eauto.
Qed.

(** ** Lemmas: rules and evaluation *)

Section EngineLemmas.
Context {re : Type}.
Variable re_search : re -> string -> bool.
#[local] Abbreviation evaluate_from := (@evaluate_from re re_search).
#[local] Abbreviation rule := (@rule re).

(** A rule that applies to the call with the given action. *)
Definition fires (action tool_name : string) (tool_input : pydict) (r : rule) : Prop :=
  tool_matches r tool_name = true /\ rule_matches re_search r tool_input = true /\ r_action r = action.

#[export] Instance fires_dec action tool_name tool_input r :
  Decision (fires action tool_name tool_input r) := ltac:(unfold fires; apply _).

(** [x] is the first element of [l] satisfying [P]. *)
Definition first_with {A} (P : A -> Prop) (l : list A) (x : A) : Prop :=
  exists pre post, l = pre ++ x :: post /\ P x /\ Forall (fun y => ~ P y) pre.

Lemma first_with_skip {A} (P : A -> Prop) l x y :
  ~ P y -> first_with P l x -> first_with P (y :: l) x.
Proof.
  intros Hy (pre & post & -> & Hx & Hpre). exists (y :: pre), post. by repeat constructor.
Qed.

Lemma first_with_here {A} (P : A -> Prop) l x : P x -> first_with P (x :: l) x.
Proof. intros H. by exists [], l. Qed.

Lemma first_with_app {A} (P : A -> Prop) l l' x : first_with P l x -> first_with P (l ++ l') x.
Proof. intros (pre & post & -> & ? & ?). exists pre, (post ++ l'). by rewrite <-app_assoc. Qed.

Lemma first_with_exists {A} (P : A -> Prop) `{!forall x, Decision (P x)} l y :
  y ∈ l -> P y -> exists x, first_with P l x.
Proof.
  induction l as [|z l IH]; intros Hy HP; [by apply elem_of_nil in Hy|].
  destruct (decide (P z)) as [Hz|Hz]; [exists z; by apply first_with_here|].
  destruct IH as [x Hx]; [|done|].
  - apply elem_of_cons in Hy as [->|Hy]; [done|done].
  - exists x. by apply first_with_skip.
Qed.

Lemma first_with_inj {A} (P : A -> Prop) l x y : first_with P l x -> first_with P l y -> x = y.
Proof.
  intros (pre & post & -> & Hx & Hpre) (pre' & post' & E & Hy & Hpre').
  revert pre' E Hpre'. induction Hpre as [|z pre Hz _ IH]; intros [|z' pre'] [= -> E] Hpre'; try done.
  - by inversion Hpre'.
  - inversion Hpre'; eauto.
Qed.

(** The decision, declaratively; [w] is a warning already found. *)
Definition decision_spec (w : option rule) tool_name tool_input rules
    (d : string * option rule) : Prop :=
  (exists r, d = (DECISION_DENY, Some r) /\ first_with (fires DECISION_DENY tool_name tool_input) rules r) \/
  (Forall (fun r => ~ fires DECISION_DENY tool_name tool_input r) rules /\
   match w with
   | Some r => d = (DECISION_WARN, Some r)
   | None =>
       (exists r, d = (DECISION_WARN, Some r) /\
                  first_with (fires DECISION_WARN tool_name tool_input) rules r) \/
       (d = (DECISION_ALLOW, None) /\
        Forall (fun r => ~ fires DECISION_WARN tool_name tool_input r) rules)
   end).

Lemma decision_spec_skip w tool_name tool_input r rules d :
  ~ fires DECISION_DENY tool_name tool_input r ->
  (w = None -> ~ fires DECISION_WARN tool_name tool_input r) ->
  decision_spec w tool_name tool_input rules d ->
  decision_spec w tool_name tool_input (r :: rules) d.
Proof.
  intros Hd Hw [(r' & -> & Hf)|[Hall H]].
  - left. exists r'. split; [done|]. by apply first_with_skip.
  - right. split; [by constructor|]. destruct w; [done|]. specialize (Hw eq_refl).
    destruct H as [(r' & -> & Hf)|[-> H]]; [left|right; split; [done|by constructor]].
    exists r'. split; [done|]. by apply first_with_skip.
Qed.

Lemma evaluate_from_spec w tool_name tool_input rules :
  decision_spec w tool_name tool_input rules (evaluate_from w tool_name tool_input rules).
Proof.
  revert w. induction rules as [|r rules IH]; intros w; cbn [HooksEngine.evaluate_from].
  - right. split; [constructor|]. destruct w; [done|]. right. by split; [|constructor].
  - destruct (tool_matches r tool_name) eqn:Ht; cbn [negb];
      [|apply decision_spec_skip; [intros (? & _); congruence|intros _ (? & _); congruence|done]].
    destruct (rule_matches re_search r tool_input) eqn:Hm; cbn [negb];
      [|apply decision_spec_skip; [intros (_ & ? & _); congruence|intros _ (_ & ? & _); congruence|done]].
    case_decide as Hdeny.
    { left. exists r. split; [done|]. by apply first_with_here. }
    assert (Hnd : ~ fires DECISION_DENY tool_name tool_input r) by (unfold fires; tauto).
    case_decide as Hwarn.
    + destruct Hwarn as [Ha ->]. destruct (IH (Some r)) as [(r' & E & Hf)|[Hall E]].
      * left. exists r'. split; [done|]. by apply first_with_skip.
      * right. split; [by constructor|]. left. exists r. split; [done|]. by apply first_with_here.
    + apply decision_spec_skip; [done| |done]. intros -> (_ & _ & ?). tauto.
Qed.

Lemma baseline_rules_deny r : r ∈ @BASELINE_RULES re -> r_action r = DECISION_DENY.
Proof.
  unfold BASELINE_RULES. intros [H|H]%elem_of_app;
    apply list_elem_of_fmap in H as (? & -> & _); done.
Qed.

Lemma baseline_rule_in tool name reason p :
  (tool = "Bash" /\ (name, reason, p) ∈ BASELINE_RULES_SPEC) ->
  baseline_rule tool name reason p ∈ @BASELINE_RULES re.
Proof.
  intros [-> H]. unfold BASELINE_RULES. apply elem_of_app. left.
  apply list_elem_of_fmap. by exists (name, reason, p).
Qed.

(** *** Extension rules *)

Variable re_compile : string -> option re.
#[local] Abbreviation parse_entry := (@parse_entry re re_compile).
#[local] Abbreviation parse_extension_rule := (@parse_extension_rule re re_compile).

Definition SKIP_REASONS : list string :=
  ["missing_name"; "non_string_tool"; "no_pattern"; "non_string_pattern"; "invalid_regex";
   "non_mapping_entry"].

(** An entry gives a rule and no skip reason, or no rule and exactly one. *)
Definition entry_accounted (o : option rule * list string) : Prop :=
  match o.1 with
  | Some _ => filter (.∈ SKIP_REASONS) o.2 = []
  | None => exists r, filter (.∈ SKIP_REASONS) o.2 = [r]
  end.

Lemma parse_entry_accounted raw : entry_accounted (parse_entry raw).
Proof.
  assert (Hno : forall r rs, rs = [] \/ rs = ["both_patterns"] -> in_list r SKIP_REASONS = true ->
            entry_accounted (@None rule, rs ++ [r])).
  { intros r rs Hrs Hr%in_list_true. exists r. cbn [snd]. rewrite filter_app.
    rewrite (filter_cons_True _ r) by done. by destruct Hrs as [->| ->]. }
  assert (Hsk : forall r, in_list r SKIP_REASONS = true -> entry_accounted (@None rule, [r]))
    by (intros r Hr; apply (Hno r []); auto).
  destruct raw as [| | | | | |d]; try by apply Hsk.
  unfold HooksEngine.parse_entry, HooksEngine.parse_extension_rule. cbv zeta.
  destruct (dict_get_none d "name"); try by apply Hsk.
  case_decide; [by apply Hsk|]. destruct (negb (is_none _) && _); [by apply Hsk|].
  destruct (truthy (dict_get_none d "deny_if_match")), (truthy (dict_get_none d "warn_if_match"));
    cbn [andb negb truthy];
    repeat case_match; (reflexivity || (apply Hno; auto)).
Qed.

(** What an extension rule says of the entry it came from. *)
Definition rule_of_entry (d : pydict) (r : rule) : Prop :=
  exists name src pat,
    dict_get_none d "name" = VStr name /\ str_strip name <> "" /\ r_name r = name /\
    (dict_get_none d "deny_if_match" = VStr src /\ src <> "" /\ r_action r = DECISION_DENY \/
     truthy (dict_get_none d "deny_if_match") = false /\
     dict_get_none d "warn_if_match" = VStr src /\ src <> "" /\ r_action r = DECISION_WARN) /\
    re_compile src = Some pat /\ r_pattern r = Some pat /\
    r_source r = "extension" /\ r_predicate r = None.

Lemma parse_extension_rule_ok d r :
  (parse_extension_rule d).1 = Some r -> rule_of_entry d r.
Proof.
  unfold HooksEngine.parse_extension_rule, rule_of_entry. cbv zeta.
  destruct (dict_get_none d "name") as [| | | |name| |]; try done.
  case_decide as Hn; [done|]. destruct (negb (is_none _) && _); [done|].
  assert (Hne : forall src, truthy (VStr src) = true -> src <> "")
    by (intros src H; by apply bool_decide_eq_true in H).
  destruct (truthy (dict_get_none d "deny_if_match")) eqn:Td; cbn [negb andb].
  - destruct (dict_get_none d "deny_if_match") as [| | | |src| |] eqn:Ed; try done.
    destruct (re_compile src) as [pat|] eqn:Er; [|done]. intros [= <-].
    exists name, src, pat. split_and!; try done. left. split_and!; auto.
  - destruct (truthy (dict_get_none d "warn_if_match")) eqn:Tw; cbn [negb]; [|done].
    destruct (dict_get_none d "warn_if_match") as [| | | |src| |] eqn:Ew; try done.
    destruct (re_compile src) as [pat|] eqn:Er; [|done]. intros [= <-].
    exists name, src, pat. split_and!; try done. right. split_and!; auto.
Qed.
End EngineLemmas.

Section Properties.
Context {re : Type}.
Variable re_search : re -> string -> bool.
#[local] Abbreviation rule := (@rule re).
#[local] Abbreviation fires := (fires re_search).

Lemma baseline_decision st tool_name tool_input r :
  baseline_enabled st = true -> baseline st = @BASELINE_RULES re ->
  r ∈ @BASELINE_RULES re -> tool_matches r tool_name = true -> rule_matches re_search r tool_input = true ->
  exists r', evaluate_pre_tool_use re_search tool_name tool_input (active_rules st) = (DECISION_DENY, Some r') /\
             first_with (fires DECISION_DENY tool_name tool_input) BASELINE_RULES r'.
Proof.
  intros Hen Hbl Hr Ht Hm.
  destruct (first_with_exists (fires DECISION_DENY tool_name tool_input) BASELINE_RULES r) as [r' Hf];
    [done|split_and!; auto using baseline_rules_deny|].
  exists r'. split; [|done]. unfold active_rules. rewrite Hen, Hbl.
  pose proof (first_with_app _ _ (extensions st) _ Hf) as Hf'.
  destruct (evaluate_from_spec re_search None tool_name tool_input (BASELINE_RULES ++ extensions st))
    as [(r'' & E & Hf'')|[Hall _]].
  - unfold evaluate_pre_tool_use. rewrite E. by rewrite (first_with_inj _ _ _ _ Hf' Hf'').
  - destruct Hf' as (pre & post & E & Hd & _). rewrite Forall_forall in Hall.
    destruct (Hall r'); [|done]. rewrite E. set_solver.
Qed.

Lemma write_tool_rules tool r :
  tool ∈ BASELINE_WRITE_TOOLS -> r ∈ @BASELINE_RULES re -> tool_matches r tool = true ->
  r_predicate r = Some (fun d => Ok (predicate_write_system_path d)).
Proof.
  unfold BASELINE_RULES. intros Htool [H|H]%elem_of_app Ht;
    apply list_elem_of_fmap in H as (x & -> & _); [|done].
  apply bool_decide_eq_true in Ht. subst tool. exfalso. apply (in_list_true _ _) in Htool. done.
Qed.

Lemma write_tool_has_rule tool :
  tool ∈ BASELINE_WRITE_TOOLS -> exists r, r ∈ @BASELINE_RULES re /\ tool_matches r tool = true.
Proof.
  intros Htool. eexists. split.
  - unfold BASELINE_RULES. apply elem_of_app. right. apply list_elem_of_fmap. by exists tool.
  - by apply bool_decide_eq_true.
Qed.

(** The evaluator's decision is [deny] with the first matching deny rule
    of the list when there is one, wherever it stands; otherwise [warn] with
    the first matching warn rule; otherwise [allow] with no rule. *)
Theorem evaluate_pre_tool_use_spec tool_name tool_input (rules : list rule) :
  decision_spec re_search None tool_name tool_input rules
    (evaluate_pre_tool_use re_search tool_name tool_input rules).
Proof. apply evaluate_from_spec. Qed.

(** While the baseline is enabled no extension rule can weaken it: when a
    baseline rule matches a call, the decision is [deny] by the first matching
    baseline rule, whatever the extensions are. *)
Theorem baseline_never_weakened st tool_name tool_input r :
  baseline_enabled st = true -> baseline st = @BASELINE_RULES re ->
  r ∈ @BASELINE_RULES re -> tool_matches r tool_name = true -> rule_matches re_search r tool_input = true ->
  exists r', evaluate_pre_tool_use re_search tool_name tool_input (active_rules st) = (DECISION_DENY, Some r') /\
             first_with (fires DECISION_DENY tool_name tool_input) BASELINE_RULES r'.
Proof. apply baseline_decision. Qed.

(** C7: the recursion of the [rm -rf] predicate through [sh -c] always ends,
    its answer does not depend on the fuel once it exceeds the command's
    length, and it is true exactly when the command, or a command it nests at
    any depth in a shell, runs [rm] with the recursive and force flags (or
    [--no-preserve-root]) on a listed target. *)
Theorem predicate_rm_rf_root_correct tool_input :
  (predicate_rm_rf_root tool_input = true <-> removes_system_dir (bash_command tool_input)) /\
  (forall fuel, (String.length (bash_command tool_input) < fuel)%nat ->
     rm_rf_root fuel (bash_command tool_input) = Some (predicate_rm_rf_root tool_input)).
Proof.
  set (c := bash_command tool_input). unfold predicate_rm_rf_root. fold c. cbv zeta.
  destruct (rm_rf_fuel (S (String.length c)) c ltac:(lia)) as (b & Eb & Hb). rewrite Eb. cbn [default].
  split; [done|]. intros fuel Hf. destruct (rm_rf_fuel fuel c Hf) as (b' & Eb' & Hb').
  rewrite Eb'. f_equal. destruct b, b'; tauto || intuition congruence.
Qed.

(** With the baseline alone a [Write], [Edit], [MultiEdit] or
    [NotebookEdit] to an absolute path (one leading slash, or three and more)
    is denied exactly when the path, its ["."], [".."] and empty components
    resolved, lies in a protected directory, and allowed otherwise; a detour
    [c/..] in the path does not change where it resolves. *)
Theorem write_tool_decision tool p :
  tool ∈ BASELINE_WRITE_TOOLS -> startswith "/" p = true ->
  startswith "//" p = false \/ startswith "///" p = true ->
  let decision := evaluate_pre_tool_use re_search tool (mk_dict [("file_path", VStr p)]) BASELINE_RULES in
  ((exists d, d ∈ SYSTEM_DIRS /\ last (resolved p) = Some d) /\ decision.1 = DECISION_DENY \/
   (~ exists d, d ∈ SYSTEM_DIRS /\ last (resolved p) = Some d) /\ decision.1 = DECISION_ALLOW) /\
  (forall a c q, plain_component c -> p = a +:+ "/" +:+ c +:+ "/../" +:+ q ->
     resolved p = resolved (a +:+ "/" +:+ q)).
Proof.
  intros Htool Hp Hss decision. split; [|intros a c q Hc ->; by apply resolved_detour].
  rewrite <-is_system_path_spec by done. unfold decision, evaluate_pre_tool_use.
  assert (Hpred : predicate_write_system_path (mk_dict [("file_path", VStr p)]) = is_system_path p).
  { change (bool_decide (p <> "") && is_system_path p || (false || (false || false)) = is_system_path p).
    rewrite bool_decide_true by (by intros ->). by rewrite !orb_false_r. }
  assert (Hrules : forall r, r ∈ @BASELINE_RULES re -> tool_matches r tool = true ->
            rule_matches re_search r (mk_dict [("file_path", VStr p)]) = is_system_path p)
    by (intros r Hr Ht; unfold rule_matches;
        by rewrite (write_tool_rules tool r Htool Hr Ht), Hpred).
  pose proof (evaluate_from_spec re_search None tool (mk_dict [("file_path", VStr p)]) BASELINE_RULES) as Hspec.
  destruct (is_system_path p) eqn:E; [left|right]; (split; [done|]).
  - destruct Hspec as [(r & -> & _)|[Hall _]]; [done|]. exfalso.
    destruct (write_tool_has_rule tool Htool) as (r & Hr & Ht).
    rewrite Forall_forall in Hall. apply (Hall r Hr). split_and!; auto using baseline_rules_deny.
  - destruct Hspec as [(r & _ & Hf)|[_ [(r & _ & Hf)|[-> _]]]]; [exfalso..|done];
      destruct Hf as (pre & post & Eq & (Ht & Hm & _) & _);
      (rewrite Hrules in Hm; [congruence|rewrite Eq; set_solver|done]).
Qed.

Variable re_compile : string -> option re.
Variable yaml_safe_load : string -> res pyval.

(** Loading a rules file accounts for every entry: it yields a rule or
    counts exactly one skip reason, so the two add up to the number of
    entries; each rule keeps the name, the compiled deny (or else warn)
    pattern and the action of an entry of the file, comes from an extension
    and carries no predicate. *)
Theorem load_extension_rules_accounted text d raw_list rules bumps :
  yaml_safe_load text = Ok (VDict d) ->
  dict_get d "extensions" = Some (VList raw_list) ->
  load_extension_rules re_compile yaml_safe_load (Some (Ok text)) = (rules, bumps) ->
  (length rules + length (filter (.∈ SKIP_REASONS) bumps) = length raw_list)%nat /\
  Forall (fun r => exists e, VDict e ∈ raw_list /\ rule_of_entry re_compile e r) rules.
Proof.
  intros Hy Hd. unfold load_extension_rules. cbn [res_bind]. rewrite Hy.
  assert (Hdt : py_or (VDict d) (VDict []) = VDict d) by (by destruct d).
  rewrite Hdt. unfold dict_get_none. rewrite Hd. cbn [from_option id].
  assert (Hlt : py_or (VList raw_list) (VList []) = VList raw_list) by (by destruct raw_list).
  rewrite Hlt. intros [= <- <-]. split.
  - clear. induction raw_list as [|raw l IH]; [done|]. cbn [omap list_omap length].
    rewrite bind_cons, filter_app, length_app. pose proof (parse_entry_accounted re_compile raw) as Ha.
    unfold entry_accounted in Ha. destruct (parse_entry re_compile raw) as [[r|] bs]; cbn [fst snd] in *.
    + rewrite Ha. cbn [length]. lia.
    + destruct Ha as [x ->]. cbn [length]. lia.
  - apply Forall_forall. intros r (raw & Hraw & Hr)%list_elem_of_omap.
    destruct raw as [| | | | | |e]; try done. exists e. split; [done|]. by apply parse_extension_rule_ok.
Qed.
End Properties.

(** ** Concrete inputs *)

Section Concrete.
(** Substring search stands for the regular expressions. *)
Definition sub_compile (s : string) : option string := if decide (s = "(") then None else Some s.
Definition sub_search (p s : string) : bool := str_contains p s.

Definition bash_call (c : string) : pydict := mk_dict [("command", VStr c)].

Definition loaded_state : hook_state :=
  mk_hook_state true BASELINE_RULES
    [mk_rule "audit" None (Some "rm") DECISION_WARN "audit" "extension" None].

Definition decide_bash (c : string) : string * option string :=
  let '(d, r) := evaluate_pre_tool_use sub_search "Bash" (bash_call c) (active_rules loaded_state) in
  (d, r_name <$> r).

Example decisions :
  decide_bash "sudo /bin/rm -rf /etc/*" = ("deny", Some "baseline-rm-rf-root") /\
  decide_bash "bash -c 'sh -c \rm\ -fr\ /'" = ("deny", Some "baseline-rm-rf-root") /\
  decide_bash "rm -rf ./build" = ("warn", Some "audit") /\
  decide_bash "ls -l" = ("allow", None) /\
  decide_bash "git -C x push -f origin main" = ("deny", Some "baseline-git-force-push-main") /\
  decide_bash "curl https://x | X=1 sh" = ("deny", Some "baseline-curl-pipe-shell") /\
  decide_bash "chmod -R 0777 ." = ("deny", Some "baseline-chmod-777") /\
  decide_bash "chmod o+rw f" = ("deny", Some "baseline-chmod-777") /\
  decide_bash "dd if=x of=/dev/nvme0n1" = ("deny", Some "baseline-dd-device").
Proof. vm_compute. repeat split. Qed.

(** Commands with the same effect that the baseline does not see: the capital
    recursive flag in a cluster, two slashes, a refspec with a plus. *)
Example decisions_missed :
  decide_bash "rm -Rf /" = ("warn", Some "audit") /\
  decide_bash "rm -rf //" = ("warn", Some "audit") /\
  decide_bash "git push origin +main" = ("allow", None) /\
  decide_bash "dd if=x of=/dev/./sda" = ("allow", None).
Proof. vm_compute. repeat split. Qed.

(** Two leading slashes survive [normpath]. *)
Example write_two_slashes_missed :
  (evaluate_pre_tool_use sub_search "Write" (mk_dict [("file_path", VStr "//etc/passwd")])
     (active_rules loaded_state)).1 = "allow".
Proof. vm_compute. reflexivity. Qed.

Lemma baseline_never_weakened_witness :
  exists r', evaluate_pre_tool_use sub_search "Bash" (bash_call "rm -rf /") (active_rules loaded_state)
             = (DECISION_DENY, Some r') /\
             first_with (fires sub_search DECISION_DENY "Bash" (bash_call "rm -rf /")) BASELINE_RULES r'.
Proof.
  apply (baseline_never_weakened sub_search loaded_state "Bash" (bash_call "rm -rf /")
           (baseline_rule "Bash" "baseline-rm-rf-root"
              "rm -rf targeting root or a system directory — refusing by baseline policy."
              predicate_rm_rf_root)).
  - reflexivity.
  - reflexivity.
  - apply baseline_rule_in. split; [reflexivity|]. left.
  - reflexivity.
  - vm_compute. reflexivity.
Defined.

Lemma predicate_rm_rf_root_correct_witness :
  (predicate_rm_rf_root (bash_call "sh -c 'rm -rf /'") = true <->
   removes_system_dir "sh -c 'rm -rf /'") /\
  rm_rf_root 40 "sh -c 'rm -rf /'" = Some (predicate_rm_rf_root (bash_call "sh -c 'rm -rf /'")).
Proof.
  destruct (predicate_rm_rf_root_correct (bash_call "sh -c 'rm -rf /'")) as [H1 H2].
  split; [exact H1|]. apply (H2 40%nat). vm_compute. lia.
Defined.

Lemma write_tool_decision_witness :
  (exists d, d ∈ SYSTEM_DIRS /\ last (resolved "/tmp/../etc/passwd") = Some d) /\
  (evaluate_pre_tool_use sub_search "Edit" (mk_dict [("file_path", VStr "/tmp/../etc/passwd")])
     BASELINE_RULES).1 = DECISION_DENY.
Proof.
  destruct (write_tool_decision sub_search "Edit" "/tmp/../etc/passwd") as [[H|[H _]] _].
  - right. left.
  - reflexivity.
  - left. reflexivity.
  - exact H.
  - destruct H. exists "etc". split; [left|vm_compute; reflexivity].
Defined.

Definition two_entries : pydict :=
  mk_dict [("extensions", VList [VDict (mk_dict [("name", VStr "n"); ("deny_if_match", VStr "secret")]);
                                 VDict (mk_dict [("name", VStr "m"); ("warn_if_match", VStr "(")])])].

Lemma load_extension_rules_accounted_witness :
  let out := load_extension_rules sub_compile (fun _ => Ok (VDict two_entries)) (Some (Ok "")) in
  (length out.1 + length (filter (.∈ SKIP_REASONS) out.2) = 2)%nat /\ out.2 = ["invalid_regex"].
Proof.
  destruct (load_extension_rules_accounted sub_compile (fun _ => Ok (VDict two_entries)) ""
              two_entries _ _ _ eq_refl eq_refl (surjective_pairing _)) as [H _].
  split; [exact H|vm_compute; reflexivity].
Defined.
End Concrete.
