(* ===== verification/McpAllowlist.v ===== *)
(** * The MCP command allow-list (shared/mcp_command_allowlist.py)

    Which stdio subprocess an [mcp.json] entry may spawn and with which
    arguments.  Environment variables are arguments, [None] when unset. *)
From Stdlib Require Import Ascii.
From S2P Require Import Prelude PyStr PyPath PyVal PyLib.

Definition DEFAULT_MCP_ALLOWED_COMMANDS : string := "mcp-kubernetes,mcp-helm,mcp-prometheus".
Definition DEFAULT_MCP_ALLOWED_COMMAND_PREFIXES : string := "/home/agent/mcp-bin/,/usr/local/bin/".
Definition DEFAULT_MCP_ALLOWED_CWD_PREFIXES : string := "".

Definition INTERPRETER_COMMANDS : list string :=
  ["python"; "python3"; "node"; "nodejs"; "npx"; "npm"; "uv"; "uvx"; "ruby"; "perl"; "php"; "bash";
   "sh"; "zsh"; "ksh"; "deno"; "bun"].

Definition INTERPRETER_INLINE_CODE_FLAGS : list string :=
  ["-c"; "--command"; "-e"; "--execute"; "--eval"; "--inline"; "--input-type";
   "--input-type=module"; "--input-type=commonjs"; "-s"].

Definition SCRIPT_EXTENSIONS : list string :=
  [".py"; ".js"; ".mjs"; ".cjs"; ".sh"; ".bash"; ".rb"; ".pl"; ".php"; ".ts"].

(** [_load_env_frozenset] and [_load_env_tuple]: the non-blank items, in
    order. *)
Definition load_env (var : option string) (dflt : string) : list string :=
  filter (fun t => t <> "") (str_strip <$> str_split ","%char (default dflt var)).

Definition in_strs (t : string) (l : list string) : bool := bool_decide (t ∈ l).

(** One prefix of the loop over [prefixes]. *)
Definition under_prefix (cmd prefix : string) : bool :=
  let norm := if endswith "/" prefix then prefix else prefix +:+ "/" in
  bool_decide (cmd = prefix) || startswith norm cmd.

Definition mcp_command_allowed (command : pyval) (allowed prefixes : list string) : bool * string :=
  match command with
  | VStr s =>
      let cmd := str_strip s in
      if decide (cmd = "") then (false, "empty")
      else if startswith "/" cmd then
        if existsb (under_prefix cmd) prefixes then (true, "absolute_prefix")
        else (false, "absolute_not_on_prefix")
      else if in_strs cmd allowed || in_strs (basename cmd) allowed then (true, "basename_allowed")
      else (false, "basename_not_allowed")
  | _ => (false, "non_string")
  end.

(** With both overrides absent: the two variables' lists. *)
Definition mcp_command_allowed_env (command : pyval) (commands_var prefixes_var : option string)
  : bool * string :=
  mcp_command_allowed command
    (load_env commands_var DEFAULT_MCP_ALLOWED_COMMANDS)
    (load_env prefixes_var DEFAULT_MCP_ALLOWED_COMMAND_PREFIXES).

(** The loop body on one argument: a reason to reject it. *)
Definition arg_rejected (base : string) (cwd_prefixes : list string) (arg : pyval) : option string :=
  match arg with
  | VStr a =>
      if in_strs a INTERPRETER_INLINE_CODE_FLAGS then Some "interpreter_inline_code_flag"
      else if startswith "--input-type" a then Some "interpreter_inline_code_flag"
      else if decide (a = "-") then Some "interpreter_stdin_script"
      else if decide (base = "uv" /\ a = "run") then Some "uv_run_rejected"
      else if decide (base = "uvx" /\ startswith "-" a = false) then Some "uvx_package_rejected"
      else if negb (startswith "-" a) && existsb (fun e => endswith e (str_lower a)) SCRIPT_EXTENSIONS
      then
        if decide (cwd_prefixes = []) then Some "positional_script_no_cwd_allowlist"
        else if negb (startswith "/" a) then Some "positional_script_relative"
        else if negb (existsb (fun p => startswith p a) cwd_prefixes)
        then Some "positional_script_outside_cwd"
        else None
      else None
  | _ => None
  end.

Fixpoint check_args (base : string) (cwd_prefixes : list string) (args : list pyval) : bool * string :=
  match args with
  | [] => (true, "interpreter_args_ok")
  | a :: args' =>
      match arg_rejected base cwd_prefixes a with
      | Some reason => (false, reason)
      | None => check_args base cwd_prefixes args'
      end
  end.

Definition mcp_command_args_safe (command args : pyval) (cwd_var : option string) : bool * string :=
  match args with
  | VNone => (true, "no_args")
  | VList l =>
      match command with
      | VStr s =>
          let base := basename (str_strip s) in
          if negb (in_strs base INTERPRETER_COMMANDS) then (true, "not_interpreter")
          else check_args base (load_env cwd_var DEFAULT_MCP_ALLOWED_CWD_PREFIXES) l
      | _ => (false, "non_string_command")
      end
  | _ => (false, "args_not_list")
  end.

(** ** Lemmas *)

Lemma in_strs_true t l : in_strs t l = true <-> t ∈ l.
Proof. apply bool_decide_eq_true. Qed.

Lemma in_strs_false t l : in_strs t l = false <-> t ∉ l.
Proof. apply bool_decide_eq_false. Qed.

#[export] Hint Rewrite in_strs_true in_strs_false : boolp.

Lemma existsb_elem {A} (f : A -> bool) (l : list A) :
  existsb f l = true <-> exists x, x ∈ l /\ f x = true.
Proof. rewrite existsb_exists. by setoid_rewrite list_elem_of_In. Qed.

(** A configured prefix as a directory: with its trailing slash. *)
Definition as_directory (prefix : string) : string :=
  if endswith "/" prefix then prefix else prefix +:+ "/".

(** The prefix test accepts the prefix itself and what lies below it as a
    directory, never a sibling that merely extends its last component. *)
Lemma under_prefix_true cmd prefix :
  under_prefix cmd prefix = true <-> cmd = prefix \/ exists t, cmd = as_directory prefix +:+ t.
Proof.
  unfold under_prefix. cbv zeta. fold (as_directory prefix).
  by rewrite orb_true_iff, bool_decide_eq_true, startswith_spec.
Qed.

Lemma check_args_spec base cwd args :
  (check_args base cwd args = (true, "interpreter_args_ok") /\
   Forall (fun a => arg_rejected base cwd a = None) args) \/
  (exists pre a post reason, args = pre ++ a :: post /\
     Forall (fun a => arg_rejected base cwd a = None) pre /\
     arg_rejected base cwd a = Some reason /\ check_args base cwd args = (false, reason)).
Proof.
  induction args as [|a args IH]; cbn [check_args]; [left; by split|].
  destruct (arg_rejected base cwd a) as [reason|] eqn:E.
  - right. exists [], a, args, reason. split_and!; done.
  - destruct IH as [[-> Hall]|(pre & a' & post & reason & -> & Hpre & Ha & ->)].
    + left. split; [done|]. by constructor.
    + right. exists (a :: pre), a', post, reason. split_and!; try done. by constructor.
Qed.

(** An argument an interpreter may receive. *)
Definition arg_ok (base : string) (cwd : list string) (a : string) : Prop :=
  a ∉ INTERPRETER_INLINE_CODE_FLAGS /\ startswith "--input-type" a = false /\ a <> "-" /\
  ~ (base = "uv" /\ a = "run") /\ (base = "uvx" -> startswith "-" a = true) /\
  (startswith "-" a = false -> (exists e, e ∈ SCRIPT_EXTENSIONS /\ endswith e (str_lower a) = true) ->
   startswith "/" a = true /\ exists p, p ∈ cwd /\ startswith p a = true).

Lemma arg_rejected_None base cwd a : arg_rejected base cwd (VStr a) = None <-> arg_ok base cwd a.
Proof.
  unfold arg_ok. rewrite <-in_strs_false, <-!existsb_elem. cbn [arg_rejected].
  assert (Hcwd : existsb (fun p => startswith p a) cwd = true -> cwd <> []) by (by destruct cwd).
  destruct (in_strs a _) eqn:E1; [intuition discriminate|].
  destruct (startswith "--input-type" a) eqn:E2; [intuition discriminate|].
  case_decide; [intuition discriminate|].
  case_decide; [intuition discriminate|].
  destruct (startswith "-" a) eqn:E3, (startswith "/" a) eqn:E4,
    (existsb (fun e => endswith e (str_lower a)) SCRIPT_EXTENSIONS) eqn:E5,
    (existsb (fun p => startswith p a) cwd) eqn:E6; cbn [negb andb];
    repeat case_decide; intuition congruence.
Qed.

(** Exactly which commands are admitted. *)
Lemma mcp_command_allowed_iff command allowed prefixes :
  (mcp_command_allowed command allowed prefixes).1 = true <->
  exists s, command = VStr s /\ str_strip s <> "" /\
    (startswith "/" (str_strip s) = true /\
       (exists p, p ∈ prefixes /\
          (str_strip s = p \/ exists t, str_strip s = as_directory p +:+ t)) \/
     startswith "/" (str_strip s) = false /\
       (str_strip s ∈ allowed \/ basename (str_strip s) ∈ allowed)).
Proof.
  destruct command as [| | | |s| |]; cbn [mcp_command_allowed fst];
    try (split; [done|]; by intros (? & [=] & _)).
  cbv zeta. set (cmd := str_strip s).
  assert (Hp : existsb (under_prefix cmd) prefixes = true <->
               exists p, p ∈ prefixes /\ (cmd = p \/ exists t, cmd = as_directory p +:+ t))
    by (rewrite existsb_elem; by setoid_rewrite under_prefix_true).
  transitivity (cmd <> "" /\ (startswith "/" cmd = true /\ existsb (under_prefix cmd) prefixes = true \/
                 startswith "/" cmd = false /\ in_strs cmd allowed || in_strs (basename cmd) allowed = true)).
  - case_decide; destruct (startswith "/" cmd), (existsb (under_prefix cmd) prefixes),
      (in_strs cmd allowed || in_strs (basename cmd) allowed); cbn [fst]; intuition congruence.
  - rewrite Hp, orb_true_iff, !in_strs_true. split.
    + intros H. by exists s.
    + by intros (? & [= <-] & H).
Qed.

(** Exactly which argument lists an admitted command may receive. *)
Lemma mcp_command_args_safe_iff s args cwd_var :
  let base := basename (str_strip s) in
  let cwd := load_env cwd_var DEFAULT_MCP_ALLOWED_CWD_PREFIXES in
  ((mcp_command_args_safe (VStr s) (VList args) cwd_var).1 = true <->
     (base ∈ INTERPRETER_COMMANDS -> forall a, VStr a ∈ args -> arg_ok base cwd a)) /\
  ((mcp_command_args_safe (VStr s) (VList args) cwd_var).1 = false ->
     exists pre a post reason, args = pre ++ a :: post /\
       Forall (fun a => arg_rejected base cwd a = None) pre /\
       arg_rejected base cwd a = Some reason /\
       mcp_command_args_safe (VStr s) (VList args) cwd_var = (false, reason)).
Proof.
  intros base cwd. cbn [mcp_command_args_safe]. cbv zeta. fold base cwd.
  destruct (in_strs base INTERPRETER_COMMANDS) eqn:E; cbn [negb].
  2: { apply in_strs_false in E. cbn [fst]. split; [by split|done]. }
  apply in_strs_true in E.
  destruct (check_args_spec base cwd args) as [[-> Hall]|(pre & a & post & reason & -> & Hpre & Ha & ->)];
    cbn [fst]; (split; [|]).
  - split; [|done]. intros _ _ a Ha. rewrite Forall_forall in Hall.
    by apply arg_rejected_None, Hall.
  - done.
  - split; [done|]. intros H. destruct a as [| | | |a| |]; try done.
    specialize (H E a ltac:(set_solver)). apply arg_rejected_None in H. congruence.
  - intros _. by exists pre, a, post, reason.
Qed.



(** The prefixes are compared as text: a path that climbs out of the directory
    is admitted, and so is one that only starts like an operator's tree. *)
Example prefix_is_textual :
  mcp_command_allowed_env (VStr "/usr/local/bin/../../../bin/sh") None None = (true, "absolute_prefix") /\
  normpath "/usr/local/bin/../../../bin/sh" = "/bin/sh" /\
  mcp_command_allowed_env (VStr "../../tmp/evil/mcp-helm") None None = (true, "basename_allowed") /\
  mcp_command_args_safe (VStr "python") (VList [VStr "/srv/vetted/../../tmp/x.py"]) (Some "/srv/vetted/")
    = (true, "interpreter_args_ok") /\
  mcp_command_args_safe (VStr "python") (VList [VStr "/srv/vetted-not/x.py"]) (Some "/srv/vetted")
    = (true, "interpreter_args_ok").
Proof. vm_compute. repeat split. Qed.

(** Inline code attached to its flag is not recognised. *)
Example attached_code_accepted :
  mcp_command_args_safe (VStr "python") (VList [VStr "-cimport os"]) None = (true, "interpreter_args_ok") /\
  mcp_command_args_safe (VStr "node") (VList [VStr "--eval=1"]) None = (true, "interpreter_args_ok").
Proof. vm_compute. repeat split. Qed.

Example env_lists :
  load_env (Some " a, ,b ") "z" = ["a"; "b"] /\ load_env None "" = [].
Proof. vm_compute. repeat split. Qed.
