(* ===== verification/SessionBinding.v ===== *)
(** * Session-id derivation (shared/session_binding.py)

    The backend-internal session id of a caller-supplied one: legacy uuid5,
    HMAC-bound to the caller, and the candidates probed while the secret
    rotates.  The hash functions and the random uuid are arguments, and so
    are the environment variables (the empty text when unset). *)
From Stdlib Require Import Ascii.
From S2P Require Import Prelude PyStr PyPath.

Section Binding.
(** [sha256(s).hexdigest()], [hmac(key, msg).hex()], [str(uuid5(URL, s))], and
    whether [uuid.UUID(s)] accepts [s]. *)
Variable sha256_hex : string -> string.
Variable hmac_hex : string -> string -> string.
Variable uuid5 : string -> string.
Variable is_uuid : string -> bool.
(** [_SESSION_BIND_REARM_EVERY] and [_PREV_HIT_REARM_EVERY], at least one. *)
Variables bind_rearm prev_rearm : Z.

(** The module's counters: misses so far, warnings logged, and the reasons
    given to the fallback counter, newest first. *)
Record telemetry : Type := mk_telemetry {
  missing_caller_count : Z;
  warnings : nat;
  fallbacks : list string;
  prev_hit_count : Z;
  prev_warnings : nat
}.

Definition bump_fallback (reason : string) (t : telemetry) : telemetry :=
  mk_telemetry (missing_caller_count t) (warnings t) (reason :: fallbacks t)
    (prev_hit_count t) (prev_warnings t).

Definition legacy_derive (raw_sid : string) : string :=
  if is_uuid raw_sid then raw_sid else uuid5 raw_sid.

Definition hash_caller (caller_identity : string) : string := sha256_hex caller_identity.

Definition nul : ascii := ascii_of_N 0.

Definition hmac_derive (raw_sid caller_identity secret : string) : string :=
  uuid5 (hmac_hex secret (hash_caller caller_identity +:+ String nul raw_sid)).

(** The counter of requests without a caller, warning at every
    [bind_rearm]-th. *)
Definition note_missing_caller (t : telemetry) : telemetry :=
  mk_telemetry (missing_caller_count t + 1)
    (if missing_caller_count t mod bind_rearm =? 0 then S (warnings t) else warnings t)
    (fallbacks t) (prev_hit_count t) (prev_warnings t).

(** [caller] is empty when there is no identity; [fresh] is the random uuid a
    call without a raw id gets. *)
Definition derive_session_id (fresh raw_sid caller secret : string) (t : telemetry)
  : string * telemetry :=
  if decide (raw_sid = "") then (fresh, bump_fallback "empty_raw_sid" t)
  else if decide (secret = "") then (legacy_derive raw_sid, bump_fallback "secret_unset" t)
  else if decide (caller = "") then
    (legacy_derive raw_sid, bump_fallback "caller_identity_missing" (note_missing_caller t))
  else (hmac_derive raw_sid caller secret, t).

Definition note_prev_secret_hit (t : telemetry) : telemetry :=
  mk_telemetry (missing_caller_count t) (warnings t) (fallbacks t) (prev_hit_count t + 1)
    (if prev_hit_count t mod prev_rearm =? 0 then S (prev_warnings t) else prev_warnings t).

Definition derive_session_id_candidates (fresh raw_sid caller secret prev_secret : string)
    (t : telemetry) : list string * telemetry :=
  let '(current, t) := derive_session_id fresh raw_sid caller secret t in
  if decide (raw_sid = "" \/ caller = "") then ([current], t)
  else if decide (prev_secret = "" \/ prev_secret = secret) then ([current], t)
  else
    let prev_id := hmac_derive raw_sid caller prev_secret in
    if decide (prev_id = current) then ([current], t) else ([current; prev_id], t).

(** ** Lemmas *)

Lemma candidates_shape fresh raw caller secret prev t :
  let '(ids, t') := derive_session_id_candidates fresh raw caller secret prev t in
  (exists rest, ids = (derive_session_id fresh raw caller secret t).1 :: rest /\ (length rest <= 1)%nat) /\
  NoDup ids /\ t' = (derive_session_id fresh raw caller secret t).2.
Proof.
  unfold derive_session_id_candidates.
  destruct (derive_session_id fresh raw caller secret t) as [current t1]. cbn [fst snd].
  assert (H1 : forall x : string, NoDup [x]) by (intros; apply NoDup_singleton).
  repeat case_decide; (split_and!; [eexists; split; [reflexivity|cbn; lia]|auto|done]).
  apply NoDup_cons. split; [|done]. set_solver.
Qed.

(** *** Warnings *)

(** Requests without a caller, one after the other. *)
Definition misses (n : nat) (t : telemetry) : telemetry := Nat.iter n note_missing_caller t.

Lemma misses_count n t : missing_caller_count (misses n t) = missing_caller_count t + Z.of_nat n.
Proof.
  induction n as [|n IH]; [cbn; lia|].
  change (misses (S n) t) with (note_missing_caller (misses n t)).
  cbn [note_missing_caller missing_caller_count]. rewrite IH. lia.
Qed.

Lemma misses_warnings n t :
  0 < bind_rearm -> missing_caller_count t = 0 -> warnings t = 0%nat ->
  Z.of_nat (warnings (misses n t)) = (Z.of_nat n + bind_rearm - 1) / bind_rearm.
Proof.
  intros Hr Hc Hw. induction n as [|n IH].
  - cbn [misses Nat.iter nat_rect]. cbn. rewrite Hw. symmetry. apply Z.div_small. lia.
  - change (misses (S n) t) with (note_missing_caller (misses n t)).
    cbn [note_missing_caller warnings]. rewrite misses_count, Hc, Z.add_0_l.
    pose proof (Z.div_mod (Z.of_nat n) bind_rearm ltac:(lia)) as Hdm.
    pose proof (Z.mod_pos_bound (Z.of_nat n) bind_rearm Hr) as Hb.
    set (q := Z.of_nat n / bind_rearm) in *. set (r := Z.of_nat n mod bind_rearm) in *.
    destruct (r =? 0) eqn:E; boolp.
    + rewrite Nat2Z.inj_succ, IH.
      rewrite <-(Z.div_unique (Z.of_nat n + bind_rearm - 1) bind_rearm q (bind_rearm - 1)) by lia.
      rewrite <-(Z.div_unique (Z.of_nat (S n) + bind_rearm - 1) bind_rearm (q + 1) 0) by lia. lia.
    + rewrite IH.
      rewrite <-(Z.div_unique (Z.of_nat n + bind_rearm - 1) bind_rearm (q + 1) (r - 1)) by lia.
      by rewrite <-(Z.div_unique (Z.of_nat (S n) + bind_rearm - 1) bind_rearm (q + 1) r) by lia.
Qed.

(** ** Properties *)

(** With the secret set, two requests with caller identities get the same
    session exactly when both the caller and the raw id agree, provided the
    hash, the keyed hash and uuid5 do not collide on the texts hashed; the
    telemetry plays no part and is left alone. *)
Theorem callers_get_disjoint_sessions secret fresh fresh' raw raw' caller caller' t t' :
  (forall c, ~ nul ∈ String.list_ascii_of_string (sha256_hex c)) ->
  (forall c c', sha256_hex c = sha256_hex c' -> c = c') ->
  (forall m m', uuid5 (hmac_hex secret m) = uuid5 (hmac_hex secret m') -> m = m') ->
  secret <> "" -> raw <> "" -> raw' <> "" -> caller <> "" -> caller' <> "" ->
  ((derive_session_id fresh raw caller secret t).1 = (derive_session_id fresh' raw' caller' secret t').1
   <-> raw = raw' /\ caller = caller') /\
  (derive_session_id fresh raw caller secret t).2 = t.
Proof.
  intros Hnul Hsha Hmac Hs Hr Hr' Hc Hc'. unfold derive_session_id.
  rewrite !(decide_False (P := secret = "")), !(decide_False (P := raw = "")),
    !(decide_False (P := raw' = "")), !(decide_False (P := caller = "")),
    !(decide_False (P := caller' = "")) by done.
  cbn [fst snd]. split; [|done]. split; [|by intros [-> ->]].
  intros E%Hmac. apply app_sep_inj in E as [E ->]; [|by apply Hnul..].
  split; [done|]. by apply Hsha.
Qed.

(** The candidates of a lookup start with the id new writes use, hold no
    duplicate and at most two ids, and during a rotation contain the id the
    previous secret gave the same caller and raw id, so its session is still
    found. *)
Theorem rotation_keeps_sessions fresh raw caller secret prev t fresh0 t0 :
  let ids := (derive_session_id_candidates fresh raw caller secret prev t).1 in
  head ids = Some (derive_session_id fresh raw caller secret t).1 /\
  (length ids <= 2)%nat /\ NoDup ids /\
  (raw <> "" -> caller <> "" -> prev <> "" ->
   (derive_session_id fresh0 raw caller prev t0).1 ∈ ids).
Proof.
  pose proof (candidates_shape fresh raw caller secret prev t) as H.
  destruct (derive_session_id_candidates fresh raw caller secret prev t) as [ids t'] eqn:E.
  destruct H as ((rest & Hids & Hlen) & Hnd & _). cbn [fst]. split_and!; [by rewrite Hids| |done|].
  { rewrite Hids. cbn. lia. }
  intros Hr Hc Hp. unfold derive_session_id at 1.
  rewrite (decide_False (P := raw = "")), (decide_False (P := prev = "")),
    (decide_False (P := caller = "")) by done. cbn [fst].
  revert E. unfold derive_session_id_candidates.
  destruct (derive_session_id fresh raw caller secret t) as [current t1] eqn:Ed.
  rewrite decide_False by tauto. case_decide as Hps.
  - destruct Hps as [?| ->]; [done|]. intros [= <- <-]. revert Ed. unfold derive_session_id.
    rewrite (decide_False (P := raw = "")), (decide_False (P := secret = "")),
      (decide_False (P := caller = "")) by done. intros [= <- _]. set_solver.
  - case_decide as Hcur; intros [= <- _]; [rewrite Hcur; set_solver|set_solver].
Qed.

(** The binding holds only between requests that carry an identity. A
    request without one that presents a bound session's id as its raw id is
    given that very session, since a well-formed uuid passes through
    unchanged; each such request is counted, and of the first [n] the
    warnings logged are one in every [bind_rearm], rounded up. *)
Theorem unbound_request_reaches_bound_session fresh fresh' raw caller secret t t' n t0 :
  (forall s, is_uuid (uuid5 s) = true) -> (forall s, uuid5 s <> "") ->
  secret <> "" -> raw <> "" -> caller <> "" -> 0 < bind_rearm ->
  missing_caller_count t0 = 0 -> warnings t0 = 0%nat ->
  let bound := (derive_session_id fresh raw caller secret t).1 in
  (derive_session_id fresh' bound "" secret t').1 = bound /\
  (derive_session_id fresh' bound "" secret t').2 =
    bump_fallback "caller_identity_missing" (note_missing_caller t') /\
  Z.of_nat (warnings (misses n t0)) = (Z.of_nat n + bind_rearm - 1) / bind_rearm.
Proof.
  intros Hu Hne Hs Hr Hc Hrearm H0 Hw bound.
  assert (Hb : bound = hmac_derive raw caller secret).
  { unfold bound, derive_session_id. by rewrite !decide_False. }
  rewrite Hb. unfold derive_session_id.
  rewrite (decide_False (P := hmac_derive raw caller secret = "")) by apply Hne.
  rewrite (decide_False (P := secret = "")) by done. rewrite decide_True by done. cbn [fst snd].
  split_and!; [|done|by apply misses_warnings].
  unfold legacy_derive, hmac_derive. by rewrite Hu.
Qed.
End Binding.

(** ** Concrete inputs *)

Section Concrete.
(** Each character as two letters: injective and without the separator. *)
Definition letter (n : N) : ascii := ascii_of_N (97 + n).
Fixpoint letters (s : string) : string :=
  match s with
  | "" => ""
  | String c s' =>
      String (letter (N_of_ascii c / 16)) (String (letter (N_of_ascii c mod 16)) (letters s'))
  end.

Lemma letter_ne_nul n : (n < 16)%N -> letter n <> nul.
Proof.
  intros Hn H. apply (f_equal N_of_ascii) in H. unfold letter, nul in H.
  rewrite !N_ascii_embedding in H by lia. lia.
Qed.

Lemma letter_inj n m : (n < 16)%N -> (m < 16)%N -> letter n = letter m -> n = m.
Proof.
  intros Hn Hm H. apply (f_equal N_of_ascii) in H. unfold letter in H.
  rewrite !N_ascii_embedding in H by lia. lia.
Qed.

Lemma nibbles c : (N_of_ascii c / 16 < 16 /\ N_of_ascii c mod 16 < 16)%N.
Proof.
  pose proof (N_ascii_bounded c). split; [|apply N.mod_lt; lia].
  apply N.Div0.div_lt_upper_bound. lia.
Qed.

Lemma letters_no_nul s : ~ nul ∈ String.list_ascii_of_string (letters s).
Proof.
  induction s as [|c s IH]; cbn; [set_solver|]. pose proof (nibbles c) as [H1 H2].
  rewrite !elem_of_cons. intros [H|[H|H]]; [by apply letter_ne_nul in H1|by apply letter_ne_nul in H2|done].
Qed.

Lemma letters_inj s t : letters s = letters t -> s = t.
Proof.
  revert t. induction s as [|c s IH]; intros [|d t]; cbn [letters]; try done.
  intros [= H1 H2 H3]. pose proof (nibbles c). pose proof (nibbles d).
  apply letter_inj in H1; [|tauto..]. apply letter_inj in H2; [|tauto..].
  f_equal; [|by apply IH].
  rewrite <-(ascii_N_embedding c), <-(ascii_N_embedding d). f_equal.
  rewrite (N.div_mod (N_of_ascii c) 16), (N.div_mod (N_of_ascii d) 16) by done. by rewrite H1, H2.
Qed.

Definition toy_hmac (key msg : string) : string := key +:+ msg.
Definition toy_uuid5 (s : string) : string := "u" +:+ s.
Definition toy_is_uuid (s : string) : bool := startswith "u" s.
Definition no_telemetry : telemetry := mk_telemetry 0 0 [] 0 0.

Lemma callers_get_disjoint_sessions_witness :
  let derive raw caller := (derive_session_id letters toy_hmac toy_uuid5 toy_is_uuid 500
                              "fresh" raw caller "secret" no_telemetry).1 in
  (derive "r" "alice" = derive "r" "bob" <-> "r" = "r" /\ "alice" = "bob").
Proof.
  intros derive. unfold derive.
  apply (callers_get_disjoint_sessions letters toy_hmac toy_uuid5 toy_is_uuid 500 "secret");
    try discriminate.
  - apply letters_no_nul.
  - apply letters_inj.
  - intros m m' H. by injection H.
Defined.

Lemma rotation_keeps_sessions_witness :
  (derive_session_id letters toy_hmac toy_uuid5 toy_is_uuid 500 "f0" "r" "alice" "old" no_telemetry).1
  ∈ (derive_session_id_candidates letters toy_hmac toy_uuid5 toy_is_uuid 500
       "f1" "r" "alice" "new" "old" no_telemetry).1.
Proof. apply rotation_keeps_sessions; discriminate. Defined.

Lemma unbound_request_reaches_bound_session_witness :
  let bound := (derive_session_id letters toy_hmac toy_uuid5 toy_is_uuid 500
                  "f0" "r" "alice" "secret" no_telemetry).1 in
  (derive_session_id letters toy_hmac toy_uuid5 toy_is_uuid 500 "f1" bound "" "secret" no_telemetry).1 = bound.
Proof.
  apply (unbound_request_reaches_bound_session letters toy_hmac toy_uuid5 toy_is_uuid 500
           "f0" "f1" "r" "alice" "secret" no_telemetry no_telemetry 0 no_telemetry);
    [intros s; apply startswith_app|discriminate..|lia|reflexivity|reflexivity].
Defined.

(** With the secret dropped but its predecessor still set, two candidates. *)
Example candidates_without_current_secret :
  length (derive_session_id_candidates letters toy_hmac toy_uuid5 toy_is_uuid 500
            "f" "r" "alice" "" "old" no_telemetry).1 = 2%nat.
Proof. vm_compute. reflexivity. Qed.
End Concrete.
