(* ===== verification/Tasks.v ===== *)
(** * Scheduled tasks (harness/tasks.py)

    The task file parser, the window arithmetic ([_day_matches],
    [_next_window_open], [_inside_window]) and the runner's registry.  Dates
    are proleptic ordinals, times of day microseconds since midnight, both
    as seen in the item's zone.  [croniter], [yaml.safe_load], [ZoneInfo]'s
    database and [date.fromisoformat] are parameters. *)
From Stdlib Require Import Ascii.
From S2P Require Import Prelude PyStr PyVal Utils.

Definition usec : Z := 1000000.
Definition day_usec : Z := 86400 * usec.
(** [date.max.toordinal()] *)
Definition max_ordinal : Z := 3652059.

(** ** Items *)

Record item : Type := mk_item {
  path : string;
  name : string;
  days_expr : string;
  tz : string;
  window_start : option Z;
  window_end : option Z;
  loop : bool;
  loop_gap : option Z;
  done_when : option string;
  content : string;
  start : option Z;
  end_ : option Z;
  model : option string;
  backend_id : option string;
  consensus : list consensus_entry;
  max_tokens : option Z;
  enabled : bool
}.

(** ** Day abbreviations *)

Definition DAY_ABBREVS : list (string * ascii) :=
  [("sun", "0"%char); ("mon", "1"%char); ("tue", "2"%char); ("wed", "3"%char); ("thu", "4"%char);
   ("fri", "5"%char); ("sat", "6"%char)].

(** A word character of a regular expression. *)
Definition is_word (c : ascii) : bool :=
  let n := code c in
  is_digit c || ((65 <=? n) && (n <=? 90)) || ((97 <=? n) && (n <=? 122)) || (n =? 95)
  || bool_decide (n ∈ [170; 178; 179; 181; 185; 186; 188; 189; 190])
  || ((192 <=? n) && negb (n =? 215) && negb (n =? 247)).

Definition ends_word (s : string) : bool :=
  match s with "" => true | String c _ => negb (is_word c) end.

(** [re.sub] over the text; [in_word] is whether the previous character is a
    word character. *)
Fixpoint translate_from (in_word : bool) (s : string) : string :=
  match s with
  | "" => ""
  | String a s' =>
      let keep := String a (translate_from (is_word a) s') in
      match s' with
      | String b (String c rest) =>
          match od_get DAY_ABBREVS (str_lower (String a (String b (String c "")))) with
          | Some d => if negb in_word && ends_word rest then String d (translate_from true rest) else keep
          | None => keep
          end
      | _ => keep
      end
  end.

Definition translate_day_abbrevs (expr : string) : string := translate_from false expr.

(** ** Parsing *)

(** [dtime(int(h), int(m))] of the two parts of [HH:MM]. *)
Definition parse_window_start (raw : string) : option Z :=
  match str_split ":" raw with
  | [h; m] =>
      match py_int h, py_int m with
      | Some h, Some m =>
          if (0 <=? h) && (h <=? 23) && (0 <=? m) && (m <=? 59)
          then Some ((h * 3600 + m * 60) * usec) else None
      | _, _ => None
      end
  | _ => None
  end.

(** The time of day [duration] seconds after [start] on [ref_date]: aware
    datetime arithmetic is on the wall clock. [None]: the date overflows. *)
Definition derive_window_end (ref_date start duration : Z) : option Z :=
  let total := ref_date * day_usec + start + duration * usec in
  if total / day_usec <=? max_ordinal then Some (total mod day_usec) else None.

Section Parse.
Variable yaml_safe_load : string -> res pyval.
Variable max_yaml_bytes : Z.
(** Whether [ZoneInfo] knows the key; today's date in it. *)
Variable zone_known : string -> bool.
Variable today_in : string -> Z.
(** [croniter.is_valid]; [date.fromisoformat], [None] on [ValueError]. *)
Variable cron_valid : string -> bool.
Variable date_fromisoformat : string -> option Z.

(** What the window fields give, or a rejection. *)
Definition parse_window (fields : pydict) (tz : string) : option (option Z * option Z) :=
  window_start ← match field_or fields "window-start" "window_start" with
                 | None | Some "" => Some None
                 | Some raw => Some <$> parse_window_start raw
                 end;
  match field_or fields "window-duration" "window_duration" with
  | None | Some "" => Some (window_start, None)
  | Some raw =>
      ws ← window_start;
      match parse_duration raw with
      | Raise _ => None
      | Ok secs => (fun we => (window_start, Some we)) <$> derive_window_end (today_in tz) ws secs
      end
  end.

Definition parse_date (raw : option string) : option Z :=
  match raw with None | Some "" => None | Some s => date_fromisoformat s end.

(** [raw = None]: the file cannot be read. Every exception gives [None]. *)
Definition parse_task_file (path : string) (raw : option string) : option item :=
  raw ← raw;
  match parse_frontmatter yaml_safe_load max_yaml_bytes raw,
        parse_frontmatter_raw yaml_safe_load max_yaml_bytes raw with
  | Ok (fields, content), Ok (raw_fields, _) =>
      let name := default (stem path) (get_nonempty fields "name") in
      if negb (text_flag ["false"; "no"; "off"; "n"; "0"; ""] true fields "enabled") then
        Some (mk_item path name (default "—" (get_nonempty fields "days")) "UTC" None None false None None
                content None None (get_nonempty fields "model") (get_nonempty fields "agent") [] None false)
      else
        let tz := default "UTC" (get_nonempty fields "timezone") in
        if negb (zone_known tz) then None else
        let days_expr :=
          translate_day_abbrevs (str_strip (default "*" (get_nonempty fields "days"))) in
        if negb (cron_valid ("0 0 * * " +:+ days_expr)) then None else
        '(window_start, window_end) ← parse_window fields tz;
        let loop := text_flag ["false"; ""] false fields "loop" in
        Some {|
          path := path;
          name := name;
          days_expr := days_expr;
          tz := tz;
          window_start := window_start;
          window_end := window_end;
          loop := loop && bool_decide (window_end <> None);
          loop_gap := match field_or fields "loop-gap" "loop_gap" with
                      | None | Some "" => None
                      | Some raw => match parse_duration raw with Ok n => Some n | Raise _ => None end
                      end;
          done_when := match get_nonempty fields "done-when" with
                       | Some s => Some s
                       | None => get_nonempty fields "done_when"
                       end;
          content := content;
          start := parse_date (get_field fields "start");
          end_ := parse_date (get_field fields "end");
          model := get_nonempty fields "model";
          backend_id := get_nonempty fields "agent";
          consensus := parse_consensus (dict_get_none raw_fields "consensus");
          max_tokens := positive_field (field_or fields "max-tokens" "max_tokens") None;
          enabled := true
        |}
  | _, _ => None
  end.
End Parse.

(** ** Windows *)

Section Windows.
(** [croniter(expr, t).get_next()] in seconds since ordinal 0. *)
Variable croniter_next : string -> Z -> Z.

(** Midnight of [d] is the next firing after the second before it. *)
Definition day_matches (it : item) (d : Z) : bool :=
  croniter_next ("0 0 * * " +:+ days_expr it) (d * 86400 - 1) / 86400 =? d.

(** The bounds of [item.start] and [item.end]. *)
Definition before_start (it : item) (d : Z) : bool :=
  match start it with Some s => d <? s | None => false end.
Definition after_end (it : item) (d : Z) : bool :=
  match end_ it with Some e => e <? d | None => false end.

(** The loop over candidate dates, [fuel] its remaining iterations. *)
Fixpoint scan_days (it : item) (fuel : nat) (check_date : Z) : option Z :=
  match fuel with
  | O => None
  | S fuel' =>
      if before_start it check_date then scan_days it fuel' (check_date + 1)
      else if after_end it check_date then None
      else if day_matches it check_date then Some check_date
      else scan_days it fuel' (check_date + 1)
  end.

Definition midnight_spanning (it : item) : bool :=
  match window_start it, window_end it with
  | Some ws, Some we => we <? ws
  | _, _ => false
  end.

(** The first date checked. *)
Definition first_check (it : item) (ws date time : Z) : Z :=
  if midnight_spanning it && match window_end it with Some we => time <? we | None => false end
  then date + 1
  else if ws <=? time then date + 1 else date.

Definition max_iters (it : item) (check_date : Z) : Z :=
  match end_ it with Some e => e - check_date + 2 | None => 366 * 10 end.

(** [after] in the item's zone is [date] at [time]; the opening's date and
    time of day. *)
Definition next_window_open (it : item) (date time : Z) : option (Z * Z) :=
  ws ← window_start it;
  let check_date := first_check it ws date time in
  (fun d => (d, ws)) <$> scan_days it (Z.to_nat (max_iters it check_date)) check_date.

(** [window_start] is set when it is called. *)
Definition inside_window (it : item) (ws today t : Z) : bool :=
  if before_start it today then false
  else if after_end it today then false
  else if negb (day_matches it today) then false
  else
    match window_end it with
    | Some we =>
        if we <? ws then (ws <=? t) || (t <? we)
        else if t <? ws then false
        else negb (we <=? t)
    | None => negb (t <? ws)
    end.
End Windows.

(** ** The runner's registry *)

(** [_items]: the item of each path and its schedule task. [live] are the
    tasks created and not cancelled. *)
Record runner : Type := mk_runner {
  items : list (string * (item * option nat));
  live : gset nat;
  next_task : nat
}.

Definition new_runner : runner := mk_runner [] ∅ 0.

Definition unregister (r : runner) (p : string) : runner :=
  match od_get (items r) p with
  | Some (_, Some t) => mk_runner (od_pop (items r) p) (live r ∖ {[t]}) (next_task r)
  | _ => mk_runner (od_pop (items r) p) (live r) (next_task r)
  end.

(** [parsed] is what [parse_task_file] returned. *)
Definition register (r : runner) (p : string) (parsed : option item) : runner :=
  match parsed with
  | None => r
  | Some it =>
      let r := unregister r p in
      if negb (enabled it) then mk_runner (od_set (items r) p (it, None)) (live r) (next_task r)
      else mk_runner (od_set (items r) p (it, Some (next_task r)))
             (live r ∪ {[next_task r]}) (S (next_task r))
  end.

(** [_cleanup]: every path is unregistered. *)
Definition cleanup (r : runner) : runner := foldl unregister r (od_keys (items r)).

(** The gauge of enabled items. *)
Definition items_registered (r : runner) : nat :=
  length (filter (fun e => enabled e.1 = true) (od_values (items r))).

(** ** Lemmas: windows *)

Section WindowLemmas.
Variable croniter_next : string -> Z -> Z.
#[local] Abbreviation day_matches := (day_matches croniter_next).
#[local] Abbreviation scan_days := (scan_days croniter_next).

(** The item's window opens on [d]. *)
Definition eligible (it : item) (d : Z) : Prop :=
  before_start it d = false /\ after_end it d = false /\ day_matches it d = true.

Lemma after_end_mono it d d' : after_end it d = true -> d <= d' -> after_end it d' = true.
Proof. unfold after_end. destruct (end_ it); [|done]. boolp. lia. Qed.

Lemma scan_days_spec it fuel d0 :
  match scan_days it fuel d0 with
  | Some d => d0 <= d < d0 + Z.of_nat fuel /\ eligible it d /\
              forall d', d0 <= d' < d -> ~ eligible it d'
  | None => forall d', d0 <= d' < d0 + Z.of_nat fuel -> ~ eligible it d'
  end.
Proof.
  assert (Hstep : forall fuel d0, ~ eligible it d0 ->
    match scan_days it fuel (d0 + 1) with
    | Some d => d0 + 1 <= d < d0 + 1 + Z.of_nat fuel /\ eligible it d /\
                forall d', d0 + 1 <= d' < d -> ~ eligible it d'
    | None => forall d', d0 + 1 <= d' < d0 + 1 + Z.of_nat fuel -> ~ eligible it d'
    end ->
    match scan_days it fuel (d0 + 1) with
    | Some d => d0 <= d < d0 + Z.of_nat (S fuel) /\ eligible it d /\
                forall d', d0 <= d' < d -> ~ eligible it d'
    | None => forall d', d0 <= d' < d0 + Z.of_nat (S fuel) -> ~ eligible it d'
    end).
  { intros f d Hd H. destruct (scan_days it f (d + 1)) as [d1|].
    - destruct H as (Hr & He & Hl). split_and!; [lia|lia|done|].
      intros d' Hd'. destruct (decide (d' = d)) as [->|]; [done|]. apply Hl. lia.
    - intros d' Hd'. destruct (decide (d' = d)) as [->|]; [done|]. apply H. lia. }
  revert d0. induction fuel as [|fuel IH]; intros d0; cbn [Tasks.scan_days].
  { intros d' Hd'. lia. }
  destruct (before_start it d0) eqn:Eb.
  { apply Hstep; [|apply IH]. unfold eligible. rewrite Eb. by intros (? & _). }
  destruct (after_end it d0) eqn:Ea.
  { intros d' Hd' (_ & Hd & _). rewrite (after_end_mono it d0 d') in Hd by (done || lia). done. }
  destruct (day_matches it d0) eqn:Em.
  - split_and!; [lia|lia|done|]. intros d' Hd'. lia.
  - apply Hstep; [|apply IH]. unfold eligible. rewrite Em. by intros (_ & _ & ?).
Qed.

(** In the early-morning part of a window that spans midnight. *)
Definition in_tail (it : item) (time : Z) : Prop :=
  midnight_spanning it = true /\ exists we, window_end it = Some we /\ time < we.

#[export] Instance in_tail_dec it time : Decision (in_tail it time).
Proof.
  unfold in_tail. destruct (window_end it) as [we|]; [|right; intros (_ & ? & [=] & _)].
  destruct (decide (midnight_spanning it = true /\ time < we)) as [[? ?]|Hn]; [left; eauto|right].
  intros (? & ? & [= <-] & ?). tauto.
Defined.

Lemma first_check_eq it ws date time :
  first_check it ws date time =
  if decide (in_tail it time) then date + 1 else if ws <=? time then date + 1 else date.
Proof.
  unfold first_check. case_decide as Ht.
  - destruct Ht as (-> & we & -> & Hlt). by rewrite (proj2 (Z.ltb_lt _ _) Hlt).
  - destruct (midnight_spanning it) eqn:Em; [|done]. cbn [andb].
    destruct (window_end it) as [we|] eqn:Ew; [|done].
    destruct (time <? we) eqn:El; [|done]. destruct Ht. split; [done|]. exists we. split; [done|]. blia.
Qed.

(** The opening of day [d] is later than [time] on [date]. *)
Definition opens_after (ws date time d : Z) : Prop := date < d \/ date = d /\ time < ws.

Lemma first_check_sound it ws date time :
  opens_after ws date time (first_check it ws date time).
Proof.
  rewrite first_check_eq. unfold opens_after. case_decide; [lia|].
  destruct (ws <=? time) eqn:E; boolp; lia.
Qed.

Lemma first_check_least it ws date time d :
  ~ in_tail it time -> opens_after ws date time d -> first_check it ws date time <= d.
Proof.
  intros Ht Ho. rewrite first_check_eq, decide_False by done. unfold opens_after in Ho.
  destruct (ws <=? time) eqn:E; boolp; lia.
Qed.

(** What is found is an opening in the future. *)
Lemma next_window_open_sound it ws date time d t :
  window_start it = Some ws -> next_window_open croniter_next it date time = Some (d, t) ->
  t = ws /\ opens_after ws date time d /\ eligible it d.
Proof.
  intros Hws. unfold next_window_open. rewrite Hws. cbn [mbind option_bind]. set (c := first_check it ws date time).
  pose proof (scan_days_spec it (Z.to_nat (max_iters it c)) c) as Hs.
  destruct (scan_days it _ c) as [d'|]; [|done]. intros [= <- <-]. destruct Hs as (Hr & He & _).
  pose proof (first_check_sound it ws date time) as Hsound. fold c in Hsound.
  split_and!; [done|unfold opens_after in *; lia|done].
Qed.

(** *** Properties of the windows *)


(** In the tail of a window that spans midnight the code looks from
    tomorrow on, so the opening of the same evening is passed over even when
    today is an eligible day; and whether the tail counts as inside the window
    is decided by today's date, not by the day the window opened. *)
Theorem tail_skips_evening it ws we date time :
  window_start it = Some ws -> window_end it = Some we -> we < ws -> 0 <= time < we ->
  eligible it date ->
  opens_after ws date time date /\
  (forall d t, next_window_open croniter_next it date time = Some (d, t) -> date < d) /\
  (forall today, inside_window croniter_next it ws today time = true <-> eligible it today).
Proof.
  intros Hws Hwe Hlt Ht He. split_and!.
  - right. split; [done|lia].
  - intros d t. unfold next_window_open. rewrite Hws. cbn [mbind option_bind].
    assert (Hin : in_tail it time).
    { split; [|exists we; split; [done|lia]]. unfold midnight_spanning. rewrite Hws, Hwe.
      by apply Z.ltb_lt. }
    rewrite first_check_eq, decide_True by done.
    pose proof (scan_days_spec it (Z.to_nat (max_iters it (date + 1))) (date + 1)) as Hs.
    destruct (scan_days it _ (date + 1)) as [d'|]; [|done]. intros [= <- <-]. lia.
  - intros today. unfold inside_window, eligible. rewrite Hwe, (proj2 (Z.ltb_lt we ws) Hlt).
    rewrite (proj2 (Z.ltb_lt time we)) by lia. rewrite orb_true_r.
    destruct (before_start it today), (after_end it today), (day_matches it today); cbn; naive_solver.
Qed.
End WindowLemmas.

(** ** Lemmas: the registry *)

(** Every enabled item has its own live schedule, a disabled one has none, and
    no other schedule is live. *)
Record runner_ok (r : runner) : Prop := {
  ro_keys : NoDup (od_keys (items r));
  ro_enabled : forall p it o, (p, (it, o)) ∈ items r -> enabled it = true <-> is_Some o;
  ro_live : forall t, t ∈ live r <-> exists p it, (p, (it, Some t)) ∈ items r;
  ro_own : forall p p' it it' t, (p, (it, Some t)) ∈ items r -> (p', (it', Some t)) ∈ items r -> p = p';
  ro_fresh : forall p it t, (p, (it, Some t)) ∈ items r -> (t < next_task r)%nat
}.

Lemma unregister_items r p : items (unregister r p) = od_pop (items r) p.
Proof. unfold unregister. by destruct (od_get (items r) p) as [[? []]|]. Qed.

Lemma unregister_next r p : next_task (unregister r p) = next_task r.
Proof. unfold unregister. by destruct (od_get (items r) p) as [[? []]|]. Qed.

Lemma unregister_ok r p : runner_ok r -> runner_ok (unregister r p).
Proof.
  intros [Hk He Hl Ho Hf].
  constructor; rewrite ?unregister_items, ?unregister_next; repeat setoid_rewrite elem_of_od_pop.
  - by apply od_pop_NoDup.
  - intros q it o [_ Hin]. by eapply He.
  - intros t. transitivity ((exists q it, (q, (it, Some t)) ∈ items r) /\
                            ~ exists it, (p, (it, Some t)) ∈ items r).
    + rewrite <-Hl. setoid_rewrite <-(od_get_Some _ p _ Hk). unfold unregister.
      destruct (od_get (items r) p) as [[it [t'|]]|] eqn:E; cbn [live].
      * rewrite elem_of_difference, elem_of_singleton.
        split; (intros [Ht Hn]; split; [done|]); [intros (it' & [= _ ->]); by apply Hn|].
        intros ->. apply Hn. eauto.
      * split; [|tauto]. intros Ht. split; [done|]. by intros (it' & [=]).
      * split; [|tauto]. intros Ht. split; [done|]. by intros (it' & [=]).
    + split.
      * intros [(q & it & Hin) Hn]. exists q, it. split; [|done]. intros ->. eauto.
      * intros (q & it & Hq & Hin). split; [eauto|]. intros (it' & Hin'). by apply Hq, (Ho q p it it' t).
  - intros q q' it it' t [_ H1] [_ H2]. by eapply Ho.
  - intros q it t [_ H]. by eapply Hf.
Qed.

Lemma register_ok r p parsed : runner_ok r -> runner_ok (register r p parsed).
Proof.
  intros Hr. destruct parsed as [it|]; [|done]. cbn [register].
  pose proof (unregister_ok r p Hr) as Hu. remember (unregister r p) as u eqn:Eu.
  assert (Hp : p ∉ od_keys (items u)).
  { subst u. rewrite unregister_items, od_pop_keys, list_elem_of_filter. tauto. }
  clear Eu Hr r. destruct Hu as [Hk He Hl Ho Hf].
  assert (Hpi : forall e, (p, e) ∉ items u)
    by (intros e Hin; apply Hp, list_elem_of_fmap; by exists (p, e)).
  destruct (enabled it) eqn:En; cbn [negb];
    constructor; cbn [items live next_task]; rewrite ?(od_set_new _ p _ Hp) in *;
    repeat setoid_rewrite elem_of_app; repeat setoid_rewrite list_elem_of_singleton.
  - unfold od_keys in *. rewrite fmap_app. apply NoDup_app. split_and!; [done| |apply NoDup_singleton].
    set_solver.
  - intros q i o [Hin|[= -> -> ->]]; [by eapply He|]. rewrite En. by split; [|done].
  - intros t. rewrite elem_of_union, elem_of_singleton, Hl. split.
    + intros [(q & i & Hin)| ->]; [exists q, i; by left|exists p, it; by right].
    + intros (q & i & [Hin|[= -> -> ->]]); [left; eauto|by right].
  - intros q q' i i' t [H1|[= -> -> ->]] [H2|[= -> E]]; try done; try (by eapply Ho);
      first [apply Hf in H1; lia|apply Hf in H2; lia].
  - intros q i t [Hin|[= -> -> ->]]; [apply Hf in Hin; lia|lia].
  - unfold od_keys in *. rewrite fmap_app. apply NoDup_app. split_and!; [done| |apply NoDup_singleton].
    set_solver.
  - intros q i o [Hin|[= -> -> ->]]; [by eapply He|]. rewrite En. split; [done|by intros [? [=]]].
  - intros t. rewrite Hl. split.
    + intros (q & i & Hin). exists q, i. by left.
    + intros (q & i & [Hin|[=]]). eauto.
  - intros q q' i i' t [H1|[=]] [H2|[=]]. by eapply Ho.
  - intros q i t [Hin|[=]]. by eapply Hf.
Qed.

(** What the watcher does with a path, and its shutdown. *)
Inductive watch_event : Type :=
| Changed (p : string) (parsed : option item)
| Deleted (p : string)
| Shutdown.

Definition watch_step (r : runner) (e : watch_event) : runner :=
  match e with
  | Changed p parsed => register r p parsed
  | Deleted p => unregister r p
  | Shutdown => cleanup r
  end.

Lemma unregister_all_ok ps r : runner_ok r -> runner_ok (foldl unregister r ps).
Proof. revert r. induction ps as [|p ps IH]; intros r Hr; [done|]. by apply IH, unregister_ok. Qed.

Lemma watch_ok es r : runner_ok r -> runner_ok (foldl watch_step r es).
Proof.
  revert r. induction es as [|e es IH]; intros r Hr; [done|]. apply IH.
  destruct e; [by apply register_ok|by apply unregister_ok|by apply unregister_all_ok].
Qed.

Lemma new_runner_ok : runner_ok new_runner.
Proof.
  constructor; cbn; try (intros; set_solver). apply NoDup_nil_2.
Qed.

Lemma unregister_all_items ps r :
  items (foldl unregister r ps) = filter (fun kv => kv.1 ∉ ps) (items r).
Proof.
  revert r. induction ps as [|p ps IH]; intros r; cbn [foldl].
  - symmetry. apply filter_all, Forall_forall. intros x _. apply not_elem_of_nil.
  - rewrite IH, unregister_items. unfold od_pop. rewrite filter_conj.
    apply filter_ext_in. intros x _. rewrite not_elem_of_cons. tauto.
Qed.

Lemma cleanup_empty r : runner_ok r -> items (cleanup r) = [] /\ live (cleanup r) = ∅.
Proof.
  intros Hr. assert (Hi : items (cleanup r) = []).
  { unfold cleanup. rewrite unregister_all_items. apply filter_none, Forall_forall.
    intros x Hx Hn. apply Hn, list_elem_of_fmap. eauto. }
  assert (Hc : runner_ok (cleanup r)) by (by apply unregister_all_ok).
  split; [done|]. apply set_eq. intros t. rewrite (ro_live _ Hc), Hi, elem_of_empty.
  split; [|done]. intros (? & ? & Hin). by apply elem_of_nil in Hin.
Qed.

(** *** Properties of the registry and the parser *)

(** After any sequence of file changes, deletions and shutdowns every
    enabled task has exactly one live schedule of its own and a disabled one
    none; no cancelled or replaced file leaves a schedule running; a file
    that fails to parse changes nothing; and a shutdown leaves no item and no
    schedule. *)
Theorem schedules_exact es :
  let r := foldl watch_step new_runner es in
  (forall p it o, (p, (it, o)) ∈ items r ->
     if enabled it then exists t, o = Some t /\ t ∈ live r /\
                          forall p' it', (p', (it', Some t)) ∈ items r -> p' = p
     else o = None) /\
  (forall t, t ∈ live r -> exists p it, (p, (it, Some t)) ∈ items r /\ enabled it = true) /\
  (forall p, register r p None = r) /\
  items (cleanup r) = [] /\ live (cleanup r) = ∅.
Proof.
  intros r. pose proof (watch_ok es new_runner new_runner_ok) as Hr. fold r in Hr.
  split_and!; [| |done|by apply cleanup_empty..].
  - intros p it o Hin. pose proof (ro_enabled _ Hr _ _ _ Hin) as He.
    destruct (enabled it) eqn:En.
    + destruct (proj1 He eq_refl) as [t ->]. exists t. split_and!; [done| |].
      * apply (ro_live _ Hr). eauto.
      * intros p' it' Hin'. by eapply (ro_own _ Hr).
    + destruct o as [t|]; [|done]. assert (false = true) by (apply He; eauto). done.
  - intros t (p & it & Hin)%(ro_live _ Hr). exists p, it. split; [done|].
    apply (ro_enabled _ Hr _ _ _ Hin). eauto.
Qed.

Lemma parse_window_start_range raw s : parse_window_start raw = Some s -> 0 <= s < day_usec.
Proof.
  unfold parse_window_start, day_usec, usec.
  destruct (str_split ":" raw) as [|h [|m []]]; try done.
  destruct (py_int h) as [hh|]; [|done]. destruct (py_int m) as [mm|]; [|done].
  destruct (_ && _) eqn:E; [|done]. intros [= <-]. boolp. lia.
Qed.

(** The date of reference leaves no trace in the time of day. *)
Lemma derive_window_end_wall ref s d e :
  derive_window_end ref s d = Some e -> e = (s + d * usec) mod day_usec /\ 0 <= e < day_usec.
Proof.
  unfold derive_window_end. case_match; [|done]. intros [= <-]. split; [|apply Z.mod_pos_bound; done].
  by rewrite <-Z.add_assoc, Z.add_comm, Z_mod_plus_full.
Qed.

Lemma parse_window_ok today_in fields zone ws we :
  parse_window today_in fields zone = Some (ws, we) ->
  (forall s, ws = Some s -> 0 <= s < day_usec) /\
  (forall e, we = Some e -> exists s raw d, ws = Some s /\
     field_or fields "window-duration" "window_duration" = Some raw /\ parse_duration raw = Ok d /\
     e = (s + d * usec) mod day_usec /\ 0 <= e < day_usec).
Proof.
  unfold parse_window. intros (ws' & Hws & H)%bind_Some.
  assert (Hr : forall s, ws' = Some s -> 0 <= s < day_usec).
  { intros s ->. destruct (field_or fields "window-start" _) as [raw|]; [|done].
    destruct raw as [|c raw]; [done|]. apply fmap_Some in Hws as (s' & Hs & [= ->]).
    by eapply parse_window_start_range. }
  destruct (field_or fields "window-duration" _) as [[|c raw]|]; [by injection H as <- <-| |by injection H as <- <-].
  apply bind_Some in H as (s & -> & H). destruct (parse_duration _) as [d|] eqn:Ed; [|done].
  apply fmap_Some in H as (e & He & [= -> ->]). split; [by apply Hr|].
  intros e' [= ->]. apply derive_window_end_wall in He as [He Hb].
  exists s, (String c raw), d. done.
Qed.

Lemma positive_field_pos s n : positive_field s None = Some n -> 1 <= n.
Proof. destruct s as [t|]; cbn; [|done]. destruct (py_int t); [intros [= <-]; lia|done]. Qed.

(** What a parsed task can be. An enabled task has a known zone, a valid
    day expression, a window start within the day, a window end only with a
    start and then the wall-clock sum of start and duration modulo 24 hours
    whatever the zone and date, loops only with an end, and a positive token
    limit; a disabled one has no window to arm. *)
Theorem parse_task_file_spec yaml_safe_load max_yaml_bytes zone_known today_in cron_valid
    date_fromisoformat p raw it :
  parse_task_file yaml_safe_load max_yaml_bytes zone_known today_in cron_valid date_fromisoformat p raw
    = Some it ->
  path it = p /\
  (enabled it = false -> window_start it = None /\ window_end it = None /\ loop it = false) /\
  (enabled it = true ->
     zone_known (tz it) = true /\ cron_valid ("0 0 * * " +:+ days_expr it) = true /\
     (forall s, window_start it = Some s -> 0 <= s < day_usec) /\
     (forall e, window_end it = Some e ->
        exists s text d, window_start it = Some s /\ parse_duration text = Ok d /\
                         e = (s + d * usec) mod day_usec) /\
     (loop it = true -> window_end it <> None) /\
     (forall n, max_tokens it = Some n -> 1 <= n)).
Proof.
  unfold parse_task_file. intros (text & -> & H)%bind_Some.
  destruct (parse_frontmatter _ _ text) as [[fields content]|]; [|done].
  destruct (parse_frontmatter_raw _ _ text) as [[raw_fields ?]|]; [|done].
  destruct (negb (text_flag _ true fields "enabled")).
  { injection H as <-. done. }
  destruct (negb (zone_known _)) eqn:Ez; [done|].
  destruct (negb (cron_valid _)) eqn:Ec; [done|].
  apply negb_false_iff in Ez, Ec.
  apply bind_Some in H as ([ws we] & Hw & [= <-]). cbn [path enabled].
  apply parse_window_ok in Hw as [Hs He].
  split; [done|]. split; [done|]. intros _.
  cbn [tz days_expr window_start window_end loop max_tokens].
  refine (conj Ez (conj Ec (conj Hs (conj _ (conj _ _))))).
  - intros e Hwe. destruct (He e Hwe) as (s0 & raw0 & d & ? & _ & ? & ? & _). by exists s0, raw0, d.
  - intros [_ Hl]%andb_true_iff. by apply bool_decide_eq_true in Hl.
  - intros n. apply positive_field_pos.
Qed.

(** ** Concrete inputs *)

(** A cron library that knows one expression: midnight of every day. *)
Definition every_midnight (expr : string) (t : Z) : Z := (t / 86400 + 1) * 86400.

(** 22:00 to 02:00 every day. *)
Definition night_task : item :=
  mk_item "/t/night.md" "night" "*" "UTC" (Some (22 * 3600 * usec)) (Some (2 * 3600 * usec)) true None None
    "go" None None None None [] None true.

(** A window of exactly 24 hours. *)
Definition all_day_task : item :=
  mk_item "/t/all.md" "all" "*" "UTC" (Some 0) (Some 0) true None None "go" None None None None [] None true.

Example day_abbrevs :
  translate_day_abbrevs "Mon-Fri,sun" = "1-5,0" /\ translate_day_abbrevs "Monday" = "Monday".
Proof. vm_compute. repeat split. Qed.

Example window_text :
  parse_window_start "09:30" = Some (34200 * usec) /\ parse_window_start "24:00" = None /\
  derive_window_end 739000 (22 * 3600 * usec) 14400 = Some (2 * 3600 * usec).
Proof. vm_compute. repeat split. Qed.

(** At noon the next opening is tonight; an hour past midnight, in the tail of
    last night's window, it is tomorrow night, not tonight. *)
Example next_openings :
  next_window_open every_midnight night_task 1000 (12 * 3600 * usec) = Some (1000, 22 * 3600 * usec) /\
  next_window_open every_midnight night_task 1000 (1 * 3600 * usec) = Some (1001, 22 * 3600 * usec).
Proof. vm_compute. repeat split. Qed.

(** A duration of 24 hours gives an end equal to the start: never inside. *)
Example all_day_never_inside :
  derive_window_end 739000 0 86400 = Some 0 /\
  inside_window every_midnight all_day_task 0 1000 (12 * 3600 * usec) = false.
Proof. vm_compute. repeat split. Qed.


Lemma tail_skips_evening_witness :
  opens_after (22 * 3600 * usec) 1000 (1 * 3600 * usec) 1000 /\
  inside_window every_midnight night_task (22 * 3600 * usec) 1000 (1 * 3600 * usec) = true.
Proof.
  assert (He : eligible every_midnight night_task 1000) by (vm_compute; repeat split).
  destruct (tail_skips_evening every_midnight night_task (22 * 3600 * usec) (2 * 3600 * usec) 1000
              (1 * 3600 * usec)) as (H1 & _ & H3).
  - reflexivity.
  - reflexivity.
  - unfold usec. lia.
  - unfold usec. lia.
  - exact He.
  - split; [exact H1|]. apply H3. exact He.
Defined.

Lemma schedules_exact_witness :
  let r := foldl watch_step new_runner [Changed "/t/night.md" (Some night_task); Changed "/t/x.md" None;
                                        Changed "/t/night.md" (Some night_task)] in
  (exists t, Some 1%nat = Some t /\ t ∈ live r) /\ live (cleanup r) = ∅.
Proof.
  intros r. destruct (schedules_exact [Changed "/t/night.md" (Some night_task); Changed "/t/x.md" None;
                                       Changed "/t/night.md" (Some night_task)])
    as (H & _ & _ & _ & Hc).
  split; [|exact Hc].
  destruct (H "/t/night.md" night_task (Some 1%nat) ltac:(vm_compute; left)) as (t & Ht & Hl & _).
  exists t. split; assumption.
Defined.

Definition night_fields : pydict :=
  mk_dict [("window-start", VStr "22:00"); ("window-duration", VStr "4h"); ("loop", VBool true)].

Definition night_file : string := "---" +:+ String nl ("x" +:+ String nl ("---" +:+ String nl "go")).

Definition parse_night : option item :=
  parse_task_file (fun _ => Ok (VDict night_fields)) 100 (fun _ => true) (fun _ => 739000) (fun _ => true)
    (fun _ => None) "/t/night.md" (Some night_file).

Lemma parse_task_file_spec_witness :
  exists it, parse_night = Some it /\ loop it = true /\ window_end it <> None.
Proof.
  destruct parse_night as [it|] eqn:E; [|vm_compute in E; discriminate].
  exists it. split; [reflexivity|].
  pose proof E as E'. unfold parse_night in E'.
  destruct (parse_task_file_spec _ _ _ _ _ _ _ _ _ E') as (_ & _ & H).
  assert (Hl : loop it = true /\ enabled it = true) by (vm_compute in E; injection E as <-; split; reflexivity).
  split; [apply Hl|]. apply H; apply Hl.
Defined.
