(* ===== verification/Routing.v ===== *)
(** * Backend configuration and routing (harness/backends/config.py and the
    routing half of harness/executor.py)

    Loading [backend.yaml], the executor's live configuration with its hot
    reload, and how a message is resolved to a backend and a model.
    [yaml.safe_load] is applied by the caller: a file is the parsed value or
    the exception of reading it.  Backend ids are whatever YAML gives. *)
From Stdlib Require Import Ascii.
From S2P Require Import Prelude PyStr PyVal.

(** [a == b] for values used as dictionary keys: numbers compare by value (a
    float equals an integer when its [repr] is the integer's with a zero
    fraction, as for magnitudes below 10^16), other values within their type.
    Lists and dictionaries never get this far. *)
Definition key_eqb (a b : pyval) : bool :=
  match a, b with
  | VNone, VNone => true
  | VStr s, VStr t => bool_decide (s = t)
  | (VInt _ | VBool _), (VInt _ | VBool _) => int_value a =? int_value b
  | VFloat r, VFloat s => bool_decide (r = s)
  | VFloat r, (VInt _ | VBool _) => bool_decide (r = py_str_int (int_value b) +:+ ".0")
  | (VInt _ | VBool _), VFloat r => bool_decide (r = py_str_int (int_value a) +:+ ".0")
  | _, _ => false
  end.

(** ** Configuration *)

(** Optional fields are [VNone] when unset. *)
Record backend_config : Type := mk_backend {
  b_id : pyval;
  b_model : pyval;
  b_auth_env : pyval;
  b_url : pyval;
  b_extra : pydict
}.

Definition or_none (v : pyval) : pyval := if truthy v then v else VNone.

Definition KNOWN_KEYS : list string := ["id"; "model"; "auth-env"; "url"].
Definition is_known_key (k : pyval) : bool :=
  match k with VStr s => bool_decide (s ∈ KNOWN_KEYS) | _ => false end.

(** One entry of [backend.agents]. *)
Definition load_backend_entry (entry : pyval) : res backend_config :=
  match entry with
  | VDict e =>
      let backend_id := dict_get_none e "id" in
      if negb (truthy backend_id) then Raise ValueError
      else Ok (mk_backend backend_id (or_none (dict_get_none e "model"))
                 (or_none (dict_get_none e "auth-env")) (or_none (dict_get_none e "url"))
                 (filter (fun kv => is_known_key kv.1 = false) e))
  | _ => Raise ValueError
  end.

Fixpoint load_entries (entries : list pyval) : res (list backend_config) :=
  match entries with
  | [] => Ok []
  | e :: es => c <-- load_backend_entry e ;; cs <-- load_entries es ;; Ok (c :: cs)
  end.

(** [len(ids) != len(set(ids))] on hashable ids. *)
Fixpoint has_duplicate (ids : list pyval) : bool :=
  match ids with
  | [] => false
  | i :: ids' => existsb (key_eqb i) ids' || has_duplicate ids'
  end.

Definition load_backends_config (raw : pyval) : res (list backend_config) :=
  match raw with
  | VDict d =>
      match dict_get d "backend" with
      | Some (VDict b) =>
          match dict_get b "agents" with
          | Some (VList ((_ :: _) as entries)) =>
              configs <-- load_entries entries ;;
              let ids := b_id <$> configs in
              if negb (forallb hashable ids) then Raise TypeError
              else if has_duplicate ids then Raise ValueError
              else Ok configs
          | _ => Raise ValueError
          end
      | _ => Raise ValueError
      end
  | _ => Raise ValueError
  end.

Record routing_entry : Type := mk_entry { agent : pyval; e_model : pyval }.

Definition parse_routing_entry (value : pyval) : option routing_entry :=
  if negb (truthy value) then None
  else match value with
       | VStr _ => Some (mk_entry value VNone)
       | VDict d =>
           if truthy (dict_get_none d "agent")
           then Some (mk_entry (dict_get_none d "agent") (or_none (dict_get_none d "model")))
           else None
       | _ => None
       end.

Record routing_config : Type := mk_routing {
  r_default : option routing_entry;
  r_a2a : option routing_entry;
  r_heartbeat : option routing_entry;
  r_job : option routing_entry;
  r_task : option routing_entry;
  r_trigger : option routing_entry;
  r_continuation : option routing_entry
}.

Definition no_routing : routing_config := mk_routing None None None None None None None.

Definition load_routing_config (raw : pyval) : routing_config :=
  match raw with
  | VDict d =>
      match dict_get_none d "backend" with
      | VDict b =>
          match dict_get_none b "routing" with
          | VDict r =>
              let entry k := parse_routing_entry (dict_get_none r k) in
              mk_routing (entry "default") (entry "a2a") (entry "heartbeat") (entry "job")
                (entry "task") (entry "trigger") (entry "continuation")
          | _ => no_routing
          end
      | _ => no_routing
      end
  | _ => no_routing
  end.

(** ** The loaded configuration *)

(** [backends] in the order of the file. *)
Record loaded : Type := mk_loaded {
  backends : list backend_config;
  default_backend_id : pyval;
  routing : routing_config
}.

(** [backends.get(id)] *)
Definition get_backend (bs : list backend_config) (id : pyval) : option backend_config :=
  List.find (fun c => key_eqb (b_id c) id) bs.

Definition routing_fields (r : routing_config) : list (option routing_entry) :=
  [r_default r; r_a2a r; r_heartbeat r; r_job r; r_task r; r_trigger r; r_continuation r].

(** The loop over the routing entries. *)
Fixpoint validate_routing (bs : list backend_config) (fields : list (option routing_entry)) : res unit :=
  match fields with
  | [] => Ok tt
  | None :: fs => validate_routing bs fs
  | Some e :: fs =>
      if negb (hashable (agent e)) then Raise TypeError
      else match get_backend bs (agent e) with
           | Some _ => validate_routing bs fs
           | None => Raise ValueError
           end
  end.

(** [file]: the parsed [backend.yaml], or the exception of reading it
    ([FileNotFoundError] included). *)
Definition load_backends (file : res pyval) : res loaded :=
  raw <-- file ;;
  configs <-- load_backends_config raw ;;
  let r := load_routing_config raw in
  _ <-- validate_routing configs (routing_fields r) ;;
  let default_id := match r_default r with
                    | Some e => agent e
                    | None => match configs with c :: _ => b_id c | [] => VNone end
                    end in
  Ok (mk_loaded configs default_id r).

(** ** The executor's live configuration *)

Record executor : Type := mk_executor {
  config : loaded;
  reload_failures : Z
}.

Definition empty_config : loaded := mk_loaded [] VNone no_routing.

Definition init_executor (file : res pyval) : executor :=
  match load_backends file with
  | Ok c => mk_executor c 0
  | Raise _ => mk_executor empty_config 0
  end.

(** One change of [backend.yaml] seen by the watcher. *)
Definition reload (ex : executor) (file : res pyval) : executor :=
  match load_backends file with
  | Ok c => mk_executor c 0
  | Raise _ => mk_executor (config ex) (reload_failures ex + 1)
  end.

(** ** Resolution *)

Definition routing_entry_for_kind (c : loaded) (kind : string) : option routing_entry :=
  if decide (kind = "a2a") then r_a2a (routing c)
  else if decide (kind = "heartbeat") then r_heartbeat (routing c)
  else if startswith "job" kind then r_job (routing c)
  else if startswith "task" kind then r_task (routing c)
  else if startswith "trigger" kind then r_trigger (routing c)
  else if startswith "continuation" kind then r_continuation (routing c)
  else None.

(** [VNone]: no model. *)
Definition resolve_model (c : loaded) (message_model : pyval) (entry : option routing_entry)
    (backend_id : pyval) : pyval :=
  if truthy message_model then message_model
  else
    let from_backend :=
      match get_backend (backends c) backend_id with
      | Some b => if truthy (b_model b) then b_model b else VNone
      | None => VNone
      end in
    match entry with
    | Some e =>
        if truthy (e_model e) && (is_none (agent e) || key_eqb (agent e) backend_id)
        then e_model e else from_backend
    | None => from_backend
    end.

(** A message's own backend and model, [VNone] when unset. *)
Definition route_message (c : loaded) (kind : string) (message_backend message_model : pyval)
  : pyval * pyval :=
  let entry := routing_entry_for_kind c kind in
  let routed := if truthy message_backend then message_backend
                else match entry with Some e => agent e | None => VNone end in
  let resolved := if truthy routed then routed else default_backend_id c in
  (routed, resolve_model c message_model entry resolved).

(** The start of [_run_inner]: the backend a prompt goes to. *)
Definition resolve_backend (c : loaded) (backend_id : pyval) : res backend_config :=
  let resolved := if truthy backend_id then backend_id else default_backend_id c in
  if is_none resolved then Raise ValueError
  else if negb (hashable resolved) then Raise TypeError
  else match get_backend (backends c) resolved with
       | Some b => Ok b
       | None => Raise ValueError
       end.

(** What a message is sent to: the backend and the model. *)
Definition dispatch (c : loaded) (kind : string) (message_backend message_model : pyval)
  : res (backend_config * pyval) :=
  let '(routed, model) := route_message c kind message_backend message_model in
  b <-- resolve_backend c routed ;;
  Ok (b, model).

(** ** Lemmas *)

Lemma key_eqb_refl v : hashable v = true -> key_eqb v v = true.
Proof. destruct v; cbn; try done; intros _; first [by rewrite bool_decide_true|apply Z.eqb_refl]. Qed.

(** What [load_backends] guarantees of a configuration. *)
Record config_ok (c : loaded) : Prop := {
  co_ids : forall b, b ∈ backends c -> truthy (b_id b) = true /\ hashable (b_id b) = true;
  co_distinct : has_duplicate (b_id <$> backends c) = false;
  co_default : truthy (default_backend_id c) = true /\
               is_Some (get_backend (backends c) (default_backend_id c));
  co_routing : forall e, Some e ∈ routing_fields (routing c) ->
               truthy (agent e) = true /\ is_Some (get_backend (backends c) (agent e))
}.

Lemma load_entries_ids entries cs :
  load_entries entries = Ok cs ->
  length cs = length entries /\ forall b, b ∈ cs -> truthy (b_id b) = true.
Proof.
  revert cs. induction entries as [|e es IH]; intros cs; cbn [load_entries].
  - intros [= <-]. split; [done|]. intros b Hb. by apply elem_of_nil in Hb.
  - rewrite res_bind_Ok. intros (c & Hc & H). apply res_bind_Ok in H as (cs' & Hcs & [= <-]).
    destruct (IH _ Hcs) as [Hl Hids]. split; [cbn; by rewrite Hl|].
    intros b [->|Hb]%elem_of_cons; [|by apply Hids].
    unfold load_backend_entry in Hc. destruct e as [| | | | | |d]; try done.
    destruct (truthy (dict_get_none d "id")) eqn:E; [|done]. by injection Hc as <-.
Qed.

Lemma load_backends_config_ok raw cs :
  load_backends_config raw = Ok cs ->
  cs <> [] /\ (forall b, b ∈ cs -> truthy (b_id b) = true /\ hashable (b_id b) = true) /\
  has_duplicate (b_id <$> cs) = false.
Proof.
  unfold load_backends_config. destruct raw as [| | | | | |d]; try done.
  destruct (dict_get d "backend") as [[| | | | | |b]|]; try done.
  destruct (dict_get b "agents") as [[| | | | |[|e es]|]|]; try done.
  rewrite res_bind_Ok. intros (cs' & Hcs & H).
  destruct (forallb hashable (b_id <$> cs')) eqn:Eh; [|done].
  destruct (has_duplicate (b_id <$> cs')) eqn:Ed; [done|]. injection H as <-.
  apply load_entries_ids in Hcs as [Hl Hids]. split_and!; [by destruct cs'| |done].
  intros b' Hb'. split; [by apply Hids|]. rewrite forallb_forall in Eh.
  apply Eh, list_elem_of_In, list_elem_of_fmap. eauto.
Qed.

Lemma parse_routing_entry_truthy v e : parse_routing_entry v = Some e -> truthy (agent e) = true.
Proof.
  unfold parse_routing_entry. destruct (truthy v) eqn:Ev; [|done]. cbn [negb].
  destruct v as [| | | | | |d]; try done; [by intros [= <-]|].
  destruct (truthy (dict_get_none d "agent")) eqn:E; [|done]. by intros [= <-].
Qed.

Lemma load_routing_truthy raw e :
  Some e ∈ routing_fields (load_routing_config raw) -> truthy (agent e) = true.
Proof.
  assert (Hno : Some e ∉ routing_fields no_routing)
    by (intros H; repeat (apply elem_of_cons in H as [H|H]; [done|]); by apply elem_of_nil in H).
  unfold load_routing_config. destruct raw as [| | | | | |d]; try (by intros H).
  destruct (dict_get_none d "backend") as [| | | | | |b]; try (by intros H).
  destruct (dict_get_none b "routing") as [| | | | | |r]; try (by intros H).
  unfold routing_fields.
  cbn [r_default r_a2a r_heartbeat r_job r_task r_trigger r_continuation].
  intros H. repeat (apply elem_of_cons in H as [H|H];
    [symmetry in H; by eapply parse_routing_entry_truthy|]). by apply elem_of_nil in H.
Qed.

Lemma validate_routing_ok bs fields u e :
  validate_routing bs fields = Ok u -> Some e ∈ fields -> is_Some (get_backend bs (agent e)).
Proof.
  induction fields as [|[e'|] fs IH]; cbn [validate_routing].
  - intros _ H. by apply elem_of_nil in H.
  - destruct (hashable (agent e')); cbn [negb]; [|done].
    destruct (get_backend bs (agent e')) eqn:E; [|done].
    intros H [[= ->]|Hin]%elem_of_cons; [by rewrite E|by apply IH].
  - intros H [?|Hin]%elem_of_cons; [done|by apply IH].
Qed.

Lemma load_backends_ok file c : load_backends file = Ok c -> config_ok c.
Proof.
  unfold load_backends. rewrite res_bind_Ok. intros (raw & _ & H).
  apply res_bind_Ok in H as (cs & Hcs & H).
  apply res_bind_Ok in H as (u & Hval & [= <-]).
  apply load_backends_config_ok in Hcs as (Hne & Hids & Hdup).
  assert (Hr : forall e, Some e ∈ routing_fields (load_routing_config raw) ->
            truthy (agent e) = true /\ is_Some (get_backend cs (agent e))).
  { intros e He. split; [by eapply load_routing_truthy|by eapply validate_routing_ok]. }
  constructor; cbn [backends default_backend_id routing]; try done.
  destruct (r_default (load_routing_config raw)) as [e|] eqn:Ed.
  - apply Hr. unfold routing_fields. rewrite Ed. left.
  - destruct cs as [|b bs]; [done|]. destruct (Hids b) as [Ht Hh]; [left|].
    split; [done|]. unfold get_backend. cbn. by rewrite key_eqb_refl.
Qed.

Lemma entry_in_fields c kind e :
  routing_entry_for_kind c kind = Some e -> Some e ∈ routing_fields (routing c).
Proof.
  unfold routing_entry_for_kind, routing_fields.
  repeat case_match; intros Hentry; try done; rewrite <-Hentry; rewrite !elem_of_cons; tauto.
Qed.

(** A message without a backend of its own, under a loaded configuration. *)
Lemma dispatch_ok c kind message_model :
  config_ok c ->
  exists b, dispatch c kind VNone message_model =
            Ok (b, resolve_model c message_model (routing_entry_for_kind c kind)
                     (match routing_entry_for_kind c kind with
                      | Some e => agent e | None => default_backend_id c end)) /\
            get_backend (backends c)
              (match routing_entry_for_kind c kind with
               | Some e => agent e | None => default_backend_id c end) = Some b.
Proof.
  intros Hc. unfold dispatch, route_message, resolve_backend. cbn [truthy].
  pose proof (co_default c Hc) as [Hd [bd Hbd]].
  assert (Hnone : forall v, truthy v = true -> is_none v = false) by (by intros []).
  assert (Hhash : forall bs v, is_Some (get_backend bs v) -> hashable v = true).
  { intros bs v [b Hb]. apply find_some in Hb as [_ Hk]. by destruct (b_id b), v. }
  destruct (routing_entry_for_kind c kind) as [e|] eqn:Ee.
  - destruct (co_routing c Hc e) as [Ht [b Hb]]; [by eapply entry_in_fields|].
    rewrite Ht, (Hnone _ Ht), (Hhash _ _ (mk_is_Some _ _ Hb)), Hb. by exists b.
  - cbn [truthy]. rewrite (Hnone _ Hd), (Hhash _ _ (mk_is_Some _ _ Hbd)), Hbd. by exists bd.
Qed.

(** The configuration of the last good file, and the failures since. *)
Definition last_good (f0 : res pyval) (fs : list (res pyval)) : option loaded :=
  last (omap (fun f => match load_backends f with Ok c => Some c | Raise _ => None end) (f0 :: fs)).

Lemma last_good_ok f0 fs c : last_good f0 fs = Some c -> config_ok c.
Proof.
  unfold last_good. intros (pre & Eg)%last_Some.
  assert (Hin : c ∈ omap (fun f => match load_backends f with Ok c => Some c | Raise _ => None end) (f0 :: fs))
    by (rewrite Eg; set_solver).
  apply list_elem_of_omap in Hin as (f & _ & Hfc).
  destruct (load_backends f) eqn:El; [|done]. injection Hfc as ->. by eapply load_backends_ok.
Qed.

Definition is_failure (f : res pyval) : bool :=
  match load_backends f with Ok _ => false | Raise _ => true end.

(** Trailing failures of a history. *)
Definition trailing_failures (fs : list (res pyval)) : Z :=
  foldl (fun n f => if is_failure f then n + 1 else 0) 0 fs.

Lemma reload_history f0 fs :
  let ex := foldl reload (init_executor f0) fs in
  config ex = default empty_config (last_good f0 fs) /\
  reload_failures ex = trailing_failures fs.
Proof.
  unfold last_good, trailing_failures. induction fs as [|f fs IH] using rev_ind.
  - cbn. unfold init_executor. by destruct (load_backends f0).
  - rewrite !foldl_app. cbn [foldl]. destruct IH as [IHc IHf]. revert IHc IHf.
    generalize (foldl reload (init_executor f0) fs). intros ex IHc IHf. rewrite <-IHf. clear IHf.
    rewrite app_comm_cons, omap_app. unfold reload, is_failure.
    destruct (load_backends f) eqn:E; cbn [omap list_omap config reload_failures]; rewrite E.
    + by rewrite last_snoc.
    + by rewrite app_nil_r.
Qed.

(** ** Properties *)

(** Routing never strands a message. After any history of configuration
    files, good or bad, the live configuration is that of the last good file
    and the failure count is that of the reloads since; once one file was
    good, every message without a backend of its own is sent to a configured
    backend, that of its kind's routing entry or the default, and an own
    backend either is configured or the message fails with [ValueError] (with
    [TypeError] when it cannot be a key); before that every message without
    an own backend that cannot be a key fails with [ValueError]. *)
Theorem routed_backend_known f0 fs kind message_model :
  let ex := foldl reload (init_executor f0) fs in
  reload_failures ex = trailing_failures fs /\
  match last_good f0 fs with
  | Some c =>
      config ex = c /\
      (exists b m, dispatch (config ex) kind VNone message_model = Ok (b, m) /\ b ∈ backends c /\
         key_eqb (b_id b) (match routing_entry_for_kind c kind with
                           | Some e => agent e | None => default_backend_id c end) = true) /\
      (forall own, truthy own = true ->
         dispatch (config ex) kind own message_model
           = Raise (if hashable own then ValueError else TypeError) \/
         exists b m, dispatch (config ex) kind own message_model = Ok (b, m) /\ b ∈ backends c /\
                     key_eqb (b_id b) own = true)
  | None => forall own, hashable own = true ->
      dispatch (config ex) kind own message_model = Raise ValueError
  end.
Proof.
  intros ex. destruct (reload_history f0 fs) as [Hc Hf]. fold ex in Hc, Hf. split; [done|].
  assert (Hfind : forall bs id b, get_backend bs id = Some b -> b ∈ bs /\ key_eqb (b_id b) id = true)
    by (intros bs id b [Hin Hk]%find_some; split; [by apply list_elem_of_In|done]).
  destruct (last_good f0 fs) as [c|] eqn:Eg; cbn [default from_option id] in Hc.
  - assert (Hok : config_ok c) by by eapply last_good_ok.
    rewrite Hc. split; [done|]. split.
    + destruct (dispatch_ok c kind message_model Hok) as (b & Hb & Hget).
      eexists b, _. split; [exact Hb|]. by apply Hfind.
    + intros own Hown. unfold dispatch, route_message, resolve_backend. rewrite Hown.
      assert (Hn : is_none own = false) by (by destruct own). rewrite Hown, Hn.
      destruct (hashable own); cbn [negb]; [|by left].
      destruct (get_backend (backends c) own) as [b|] eqn:Eb; [right|by left].
      eexists b, _. split; [reflexivity|]. by apply Hfind.
  - rewrite Hc. intros own Hh. unfold dispatch, route_message, resolve_backend.
    assert (Hr : routing_entry_for_kind empty_config kind = None)
      by (unfold routing_entry_for_kind; repeat case_match; done).
    rewrite Hr. cbn [empty_config default_backend_id backends].
    destruct (truthy own) eqn:Eo; [rewrite Eo, Hh; by destruct own|reflexivity].
Qed.

(** ** Concrete inputs *)

Definition two_backends (routed : string) : pyval :=
  VDict (mk_dict [("backend", VDict (mk_dict
    [("agents", VList [VDict (mk_dict [("id", VStr "claude"); ("model", VStr "opus")]);
                       VDict (mk_dict [("id", VStr "openai"); ("url", VStr "http://o")])]);
     ("routing", VDict (mk_dict [("job", VStr routed);
                                 ("task", VDict (mk_dict [("agent", VStr "claude"); ("model", VStr "m2")]))]))]))]).

Definition sent_to (c : loaded) (kind : string) (own : pyval) : res (pyval * pyval) :=
  r <-- dispatch c kind own VNone ;; Ok (b_id r.1, r.2).

Example dispatches :
  let c := config (init_executor (Ok (two_backends "openai"))) in
  sent_to c "job:nightly" VNone = Ok (VStr "openai", VNone) /\
  sent_to c "task:t" VNone = Ok (VStr "claude", VStr "m2") /\
  sent_to c "task:t" (VStr "openai") = Ok (VStr "openai", VNone) /\
  sent_to c "heartbeat" VNone = Ok (VStr "claude", VStr "opus") /\
  sent_to c "job:x" (VStr "gone") = Raise ValueError.
Proof. vm_compute. repeat split. Qed.

Lemma routed_backend_known_witness :
  let ex := foldl reload (init_executor (Raise OtherError))
              [Ok (two_backends "openai"); Ok (two_backends "missing")] in
  reload_failures ex = 1 /\
  exists b m, dispatch (config ex) "job:x" VNone VNone = Ok (b, m) /\ b_id b = VStr "openai".
Proof.
  intros ex.
  destruct (routed_backend_known (Raise OtherError)
              [Ok (two_backends "openai"); Ok (two_backends "missing")] "job:x" VNone) as [Hf _].
  split; [unfold ex; rewrite Hf; vm_compute; reflexivity|].
  unfold ex. eexists _, _. split; vm_compute; reflexivity.
Defined.
