(* ===== verification/Lru.v ===== *)
(** * Least-recently-used collections

    The abstract content of a bounded dictionary that moves a key to its end
    on each use and drops keys from its front: the last keys in the order of
    their last use.  The sessions of the executor and the context cache of
    the A2A client are both of this form. *)
From S2P Require Import Prelude.

(** The session ids in the order of their last use. *)
Definition by_recency (ids : list string) : list string :=
  foldl (fun acc s => filter (fun x => x <> s) acc ++ [s]) [] ids.

Lemma by_recency_snoc ids s : by_recency (ids ++ [s]) = filter (fun x => x <> s) (by_recency ids) ++ [s].
Proof. unfold by_recency. by rewrite foldl_app. Qed.

Lemma by_recency_NoDup ids : NoDup (by_recency ids).
Proof.
  induction ids as [|s ids IH] using rev_ind; [apply NoDup_nil_2|]. rewrite by_recency_snoc.
  apply NoDup_app. split_and!; [by apply NoDup_filter| |apply NoDup_singleton].
  intros x [Hx _]%list_elem_of_filter. set_solver.
Qed.

Lemma filter_ne_notin (l : list string) s : s ∉ l -> filter (fun x => x <> s) l = l.
Proof. intros H. apply filter_all, Forall_forall. intros x Hx ->. by apply H. Qed.

(** Dropping one element from the retained suffix keeps a suffix of the
    remaining list. *)
Lemma lastn_filter_in n (l : list string) s :
  NoDup l -> s ∈ lastn n l ->
  filter (fun x => x <> s) (lastn n l) = lastn (n - 1) (filter (fun x => x <> s) l).
Proof.
  intros Hnd Hin. unfold lastn in *. set (k := (length l - n)%nat) in *.
  assert (Hpre : s ∉ take k l).
  { intros Hp. rewrite <-(take_drop k l) in Hnd. apply NoDup_app in Hnd as (_ & Hd & _). by apply (Hd s). }
  assert (Hlen : (length (filter (fun x => x <> s) (drop k l)) = length (drop k l) - 1)%nat).
  { assert (Hnd' : NoDup (drop k l)) by (rewrite <-(take_drop k l) in Hnd; apply NoDup_app in Hnd as (_ & _ & ?); done).
    clear Hnd Hpre. induction (drop k l) as [|x d IH]; [by apply elem_of_nil in Hin|].
    apply NoDup_cons in Hnd' as [Hx Hd]. rewrite filter_cons. case_decide as Hxs.
    - apply elem_of_cons in Hin as [->|Hin]; [done|]. cbn [length]. rewrite IH by done.
      destruct d; [by apply elem_of_nil in Hin|]. cbn. lia.
    - subst x.
      rewrite filter_ne_notin by done. cbn. lia. }
  assert (Hf : filter (fun x => x <> s) l = take k l ++ filter (fun x => x <> s) (drop k l)).
  { rewrite <-(take_drop k l) at 1. by rewrite filter_app, (filter_ne_notin (take k l)). }
  rewrite Hf, length_app, Hlen, length_take, length_drop.
  assert (Hne : drop k l <> []) by (intros E; rewrite E in Hin; by apply elem_of_nil in Hin).
  assert (Hk : (k < length l)%nat).
  { destruct (decide (k < length l)%nat); [done|]. rewrite drop_ge in Hne by lia. done. }
  replace (Nat.min k (length l) + (length l - k - 1) - (n - 1))%nat with (length (take k l))
    by (rewrite length_take; lia).
  by rewrite drop_app_length.
Qed.

Lemma lastn_snoc_split n (l : list string) x :
  (1 <= n)%nat -> lastn n (l ++ [x]) = lastn (n - 1) l ++ [x].
Proof.
  intros Hn. unfold lastn. rewrite length_app. cbn [length].
  replace (length l + 1 - n)%nat with (length l - (n - 1))%nat by lia.
  by rewrite drop_app_le by lia.
Qed.

Lemma tail_lastn n (l : list string) s :
  (1 <= n)%nat -> (n <= length l)%nat -> s ∉ lastn n l ->
  tail (lastn n l) = lastn (n - 1) (filter (fun x => x <> s) l).
Proof.
  intros Hn Hl Hs. unfold lastn in *. set (k := (length l - n)%nat) in *.
  assert (Hf : filter (fun x => x <> s) l = filter (fun x => x <> s) (take k l) ++ drop k l).
  { rewrite <-(take_drop k l) at 1. by rewrite filter_app, (filter_ne_notin (drop k l)). }
  rewrite Hf, length_app, length_drop.
  replace (length (filter (fun x => x <> s) (take k l)) + (length l - k) - (n - 1))%nat
    with (length (filter (fun x => x <> s) (take k l)) + 1)%nat by lia.
  rewrite drop_app_add. by destruct (drop k l).
Qed.


(** What a collection of [n] keys holds after the uses [ids]. *)
Definition lru (n : nat) (ids : list string) : list string := lastn n (by_recency ids).

Lemma lru_NoDup n ids : NoDup (lru n ids).
Proof.
  pose proof (by_recency_NoDup ids) as H. destruct (lastn_suffix n (by_recency ids)) as [k Hk].
  rewrite Hk in H. by apply NoDup_app in H as (_ & _ & ?).
Qed.

Lemma lru_length n ids : (length (lru n ids) <= n)%nat.
Proof. unfold lru. rewrite length_lastn. lia. Qed.

(** One more use: a key that is held moves to the end; a new one is appended,
    and the oldest key goes when the collection was full. *)
Lemma lru_use n ids s :
  (1 <= n)%nat ->
  lru n (ids ++ [s]) =
    if decide (s ∈ lru n ids) then filter (fun x => x <> s) (lru n ids) ++ [s]
    else (if decide (length (lru n ids) = n) then tail (lru n ids) else lru n ids) ++ [s].
Proof.
  intros Hn. unfold lru. rewrite by_recency_snoc, lastn_snoc_split by done.
  pose proof (by_recency_NoDup ids) as Hnd. set (R := by_recency ids) in *. rewrite length_lastn.
  case_decide as Hin; [by rewrite lastn_filter_in|].
  case_decide; [by rewrite <-tail_lastn by (done || lia)|].
  rewrite (lastn_all n R) in * by lia. by rewrite filter_ne_notin, lastn_all by (done || lia).
Qed.
