(* ===== verification/Executor.v ===== *)
(** * The executor's consensus and session bookkeeping (harness/executor.py)

    [run_consensus], with the backends' answers as an argument, and the LRU of
    recently used sessions.  Backend ids and models are text here, as
    [Routing] finds them in a well-formed configuration. *)
From Stdlib Require Import Ascii.
From S2P Require Import Prelude PyStr PyPath PyVal Utils Lru.

(** ** Sessions: least recently used first *)

Section Sessions.
(** [MAX_SESSIONS] *)
Variable max_sessions : Z.

(** [popitem(last=False)] of an empty dictionary raises [KeyError]. *)
Definition track_session (sessions : list (string * Z)) (session_id : string) (now : Z)
  : res (list (string * Z)) :=
  match od_get sessions session_id with
  | Some _ => Ok (od_pop sessions session_id ++ [(session_id, now)])
  | None =>
      if max_sessions <=? Z.of_nat (length sessions) then
        match sessions with
        | [] => Raise KeyError
        | _ :: rest => Ok (rest ++ [(session_id, now)])
        end
      else Ok (sessions ++ [(session_id, now)])
  end.
End Sessions.

(** ** Consensus *)

Definition BINARY_YES : list string :=
  ["yes"; "true"; "agree"; "correct"; "approved"; "confirmed"; "positive"; "1"].
Definition BINARY_NO : list string :=
  ["no"; "false"; "disagree"; "incorrect"; "rejected"; "denied"; "negative"; "0"].

Definition classify_binary (text : string) : option string :=
  let normalised := str_rstrip "." (str_lower (str_strip text)) in
  if bool_decide (normalised ∈ BINARY_YES) then Some "yes"
  else if bool_decide (normalised ∈ BINARY_NO) then Some "no"
  else None.

(** One leg: its label, its backend and its model. *)
Record leg : Type := mk_leg { call_key : string; leg_backend : string; leg_model : option string }.

(** [entry.model or backend_model]: an empty model counts as none. *)
Definition first_model (entry_model backend_model : option string) : option string :=
  match entry_model with
  | Some m => if decide (m = "") then backend_model else Some m
  | None => backend_model
  end.

Definition key_of (bid : string) (model : option string) : string :=
  match model with
  | Some m => if decide (m = "") then bid else bid +:+ ":" +:+ m
  | None => bid
  end.

(** The inner loop over the backends an entry matches; [acc] are the legs so
    far and their (backend, model) pairs are the set [seen]. *)
Definition add_leg (entry : consensus_entry) (acc : list leg) (b : string * option string) : list leg :=
  if negb (fnmatch b.1 (c_backend entry)) then acc
  else
    let model := first_model (c_model entry) b.2 in
    if existsb (fun l => bool_decide (leg_backend l = b.1 /\ leg_model l = model)) acc then acc
    else acc ++ [mk_leg (key_of b.1 model) b.1 model].

Definition resolve_legs (entries : list consensus_entry) (backends : list (string * option string))
    (default_id : string) : list leg :=
  match foldl (fun acc e => foldl (add_leg e) acc backends) [] entries with
  | [] => [mk_leg default_id default_id None]
  | legs => legs
  end.

(** [min] of the keys, in the order of code points. *)
Definition str_leb (a b : string) : bool :=
  match String.compare a b with Gt => false | _ => true end.
Fixpoint str_min (l : list string) : option string :=
  match l with
  | [] => None
  | s :: l' => match str_min l' with
               | Some t => Some (if str_leb s t then s else t)
               | None => Some s
               end
  end.

(** [responses[call_key] = outcome] for the legs that answered. *)
Definition collect (results : list (leg * res string)) : list (string * string) :=
  foldl (fun d r => match r.2 with Ok text => od_set d (call_key r.1) text | Raise _ => d end) [] results.

Definition count_votes (v : string) (classifications : list (string * option string)) : nat :=
  length (filter (fun c => c.2 = Some v) classifications).

Definition majority (legs : list leg) (default_id : string)
    (classifications : list (string * option string)) : option string :=
  let yes := count_votes "yes" classifications in
  let no := count_votes "no" classifications in
  if negb (yes =? no)%nat then Some (if (no <? yes)%nat then "yes" else "no")
  else
    let default_key := call_key <$> List.find (fun l => bool_decide (leg_backend l = default_id)) legs in
    match default_key ≫= od_get classifications with
    | Some winner => winner
    | None => str_min (od_keys classifications) ≫= fun k => default None (od_get classifications k)
    end.

Definition newline : string := String (ascii_of_N 10) "".

Definition format_parts (responses : list (string * string)) : string :=
  str_join (newline +:+ newline)
    ((fun r => "[" +:+ r.1 +:+ "]: " +:+ r.2) <$> responses).

Definition synthesis_prompt (prompt parts : string) : string :=
  "The following responses were collected from multiple AI agents for the same prompt. "
  +:+ "Synthesise them into a single coherent, balanced answer, preserving the most important "
  +:+ "insights and noting any significant disagreements." +:+ newline +:+ newline
  +:+ "Original prompt: " +:+ prompt +:+ newline +:+ newline
  +:+ "Agent responses:" +:+ newline +:+ parts.

Section Consensus.
(** [run_inner prompt backend model]: the answer or the exception of one
    dispatched prompt. *)
Variable run_inner : string -> string -> option string -> res string.

Definition run_consensus (prompt : string) (backends : list (string * option string)) (default_id : string)
    (entries : list consensus_entry) (synthesis_backend : option string) (synthesis_model : option string)
  : res string :=
  let legs := resolve_legs entries backends default_id in
  let results := (fun l => (l, run_inner prompt (leg_backend l) (leg_model l))) <$> legs in
  let responses := collect results in
  match responses with
  | [] => Raise RuntimeError
  | _ =>
      let classifications := (fun r => (r.1, classify_binary r.2)) <$> responses in
      if forallb (fun c => match c.2 with Some _ => true | None => false end) classifications then
        match majority legs default_id classifications with
        | Some winner => Ok winner
        | None => Raise KeyError
        end
      else
        let parts := format_parts responses in
        let target := match synthesis_backend with
                      | Some b => if decide (b = "") then default_id else b
                      | None => default_id
                      end in
        match run_inner (synthesis_prompt prompt parts) target synthesis_model with
        | Ok text => Ok text
        | Raise _ => Ok parts
        end
  end.
End Consensus.

(** ** Lemmas: sessions *)

Fixpoint track_all (max_sessions : Z) (sessions : list (string * Z)) (uses : list (string * Z))
  : res (list (string * Z)) :=
  match uses with
  | [] => Ok sessions
  | (s, t) :: uses' => d <-- track_session max_sessions sessions s t ;; track_all max_sessions d uses'
  end.

Lemma track_all_app m d us vs :
  track_all m d (us ++ vs) = (d' <-- track_all m d us ;; track_all m d' vs).
Proof.
  revert d. induction us as [|[s t] us IH]; intros d; [done|]. cbn.
  destruct (track_session m d s t); cbn; [apply IH|done].
Qed.

(** The dictionary of sessions holds the [MAX_SESSIONS] most recently used
    ids, least recent first; with a cap of at least one no use fails. *)
Theorem sessions_lru m uses :
  1 <= m ->
  exists d, track_all m [] uses = Ok d /\ od_keys d = lru (Z.to_nat m) uses.*1 /\
            (length d <= Z.to_nat m)%nat.
Proof.
  intros Hm. assert (Hlen : forall d : list (string * Z), od_keys d = lru (Z.to_nat m) uses.*1 -> (length d <= Z.to_nat m)%nat).
  { intros d Hd. pose proof (lru_length (Z.to_nat m) uses.*1) as H. rewrite <-Hd in H.
    unfold od_keys in H. by rewrite length_fmap in H. }
  enough (exists d, track_all m [] uses = Ok d /\ od_keys d = lru (Z.to_nat m) uses.*1) by naive_solver.
  clear Hlen. induction uses as [|[s t] uses IH] using rev_ind; [by exists []|].
  destruct IH as (d & Hd & Hk). rewrite track_all_app, Hd. cbn [res_bind track_all].
  rewrite fmap_app. cbn [fmap list_fmap fst]. rewrite lru_use by lia. rewrite <-Hk.
  assert (Hl : length d = length (od_keys d)) by (unfold od_keys; by rewrite length_fmap).
  pose proof (lru_length (Z.to_nat m) uses.*1) as Hb. rewrite <-Hk in Hb.
  unfold track_session. destruct (od_get d s) as [v|] eqn:Es.
  - apply od_get_elem in Es. exists (od_pop d s ++ [(s, t)]). split; [done|].
    rewrite decide_True by (apply list_elem_of_fmap; by exists (s, v)).
    unfold od_keys at 1. rewrite fmap_app. by rewrite <-od_pop_keys.
  - apply od_get_None in Es. rewrite decide_False by done.
    destruct (m <=? Z.of_nat (length d)) eqn:Ecap; boolp.
    + destruct d as [|e d]; [cbn in Ecap; lia|]. rewrite decide_True by lia.
      exists (d ++ [(s, t)]). split; [done|]. unfold od_keys at 1. by rewrite fmap_app.
    + rewrite decide_False by lia. exists (d ++ [(s, t)]). split; [done|]. unfold od_keys at 1. by rewrite fmap_app.
Qed.

(** ** Lemmas: consensus *)

Definition colon : ascii := ":"%char.

Lemma elem_of_app_sep c (a t : string) : c ∈ String.list_ascii_of_string (a +:+ String c t).
Proof. induction a as [|x a IH]; cbn; [left|by right]. Qed.

(** Without colons in the ids and empty models the labels are unambiguous. *)
Lemma key_of_inj bid bid' m m' :
  ~ colon ∈ String.list_ascii_of_string bid -> ~ colon ∈ String.list_ascii_of_string bid' ->
  m <> Some "" -> m' <> Some "" ->
  key_of bid m = key_of bid' m' -> bid = bid' /\ m = m'.
Proof.
  intros Hb Hb' Hm Hm'. unfold key_of.
  assert (Hc : forall a b t, ~ colon ∈ String.list_ascii_of_string a -> a = b +:+ ":" +:+ t -> False)
    by (intros a b t Ha ->; apply Ha, elem_of_app_sep).
  destruct m as [m|], m' as [m'|]; repeat (rewrite decide_False by congruence); intros E.
  - change (":" +:+ ?s) with (String colon s) in E. by apply app_sep_inj in E as [-> ->].
  - exfalso. by eapply (Hc bid').
  - exfalso. by eapply (Hc bid).
  - done.
Qed.

Definition leg_pair (l : leg) : string * option string := (leg_backend l, leg_model l).

Record legs_ok (backends : list (string * option string)) (legs : list leg) : Prop := {
  lo_pairs : NoDup (leg_pair <$> legs);
  lo_keys : Forall (fun l => call_key l = key_of (leg_backend l) (leg_model l) /\
                             leg_backend l ∈ backends.*1 /\ leg_model l <> Some "") legs
}.

Lemma add_leg_ok backends e acc b :
  Forall (fun b => b.2 <> Some "") backends -> b ∈ backends ->
  legs_ok backends acc -> legs_ok backends (add_leg e acc b).
Proof.
  intros Hm Hb [Hp Hk]. unfold add_leg. destruct (negb _); [done|]. cbv zeta.
  set (model := first_model (c_model e) b.2).
  assert (Hmodel : model <> Some "").
  { rewrite Forall_forall in Hm. specialize (Hm b Hb). unfold model, first_model.
    destruct (c_model e); [case_decide|]; congruence. }
  destruct (existsb _ acc) eqn:E; [done|]. split.
  - rewrite fmap_app. apply NoDup_app. split_and!; [done| |apply NoDup_singleton].
    intros x Hx Hx'. apply list_elem_of_singleton in Hx' as ->.
    apply list_elem_of_fmap in Hx as (l & Hl & Hin). injection Hl as H1 H2.
    assert (Ht : existsb (fun l => bool_decide (leg_backend l = b.1 /\ leg_model l = model)) acc = true).
    { apply existsb_exists. exists l. split; [by apply list_elem_of_In|]. by apply bool_decide_eq_true. }
    congruence.
  - apply Forall_app. split; [done|]. apply Forall_singleton. cbn. split_and!; [done| |done].
    apply list_elem_of_fmap. eauto.
Qed.

Lemma foldl_legs_ok backends entries acc :
  Forall (fun b => b.2 <> Some "") backends -> legs_ok backends acc ->
  legs_ok backends (foldl (fun acc e => foldl (add_leg e) acc backends) acc entries).
Proof.
  intros Hm. revert acc. induction entries as [|e es IH]; intros acc Hacc; [done|]. cbn. apply IH.
  assert (Hsub : forall bs, (forall b, b ∈ bs -> b ∈ backends) -> forall acc, legs_ok backends acc ->
            legs_ok backends (foldl (add_leg e) acc bs)).
  { induction bs as [|b bs IHb]; intros Hbs a Ha; [done|]. cbn. apply IHb; [set_solver|].
    apply add_leg_ok; [done|set_solver|done]. }
  by apply Hsub.
Qed.

(** Distinct labels, and at least one leg. *)
Lemma resolve_legs_labels entries backends default_id :
  Forall (fun b => b.2 <> Some "" /\ ~ colon ∈ String.list_ascii_of_string b.1) backends ->
  resolve_legs entries backends default_id <> [] /\
  NoDup (call_key <$> resolve_legs entries backends default_id).
Proof.
  intros Hb. assert (Hm : Forall (fun b => b.2 <> Some "") backends)
    by (eapply Forall_impl; [exact Hb|by intros ? [? ?]]).
  destruct (foldl_legs_ok backends entries [] Hm) as [Hp Hk].
  { split; [apply NoDup_nil_2|constructor]. }
  unfold resolve_legs. destruct (foldl _ [] entries) as [|l ls] eqn:E.
  { split; [done|]. apply NoDup_singleton. }
  split; [done|].
  assert (Hns : forall l', l' ∈ l :: ls -> ~ colon ∈ String.list_ascii_of_string (leg_backend l')).
  { intros l' Hl'. rewrite Forall_forall in Hk. rewrite Forall_forall in Hb. destruct (Hk l' Hl') as (_ & Hin & _).
    apply list_elem_of_fmap in Hin as (b & -> & Hin). by apply Hb. }
  revert Hp Hk Hns. generalize (l :: ls). clear. intros legs Hp Hk Hns.
  induction legs as [|l legs IH]; [apply NoDup_nil_2|]. rewrite fmap_cons in *.
  apply NoDup_cons in Hp as [Hn Hp]. apply Forall_cons in Hk as [(Hkl & _ & Hml) Hk].
  apply NoDup_cons. split; [|apply IH; [done|done|intros; apply Hns; by right]].
  intros (l' & Hl' & Hin)%list_elem_of_fmap. apply Hn, list_elem_of_fmap. exists l'. split; [|done].
  rewrite Forall_forall in Hk. destruct (Hk l' Hin) as (Hkl' & _ & Hml').
  rewrite Hkl, Hkl' in Hl'. apply key_of_inj in Hl' as [Hb Hm]; [|apply Hns; left|apply Hns; by right|done|done].
  unfold leg_pair. by rewrite Hb, Hm.
Qed.

(** The successful answers, in the order of the legs. *)
Definition answers_of (results : list (leg * res string)) : list (leg * string) :=
  omap (fun r => match r.2 with Ok t => Some (r.1, t) | Raise _ => None end) results.

Lemma answers_legs results l t : (l, t) ∈ answers_of results -> (l, Ok t) ∈ results.
Proof.
  unfold answers_of. intros ([l' r] & Hin & H)%list_elem_of_omap. cbn in H.
  destruct r; [|done]. by injection H as -> ->.
Qed.

Lemma collect_answers results :
  NoDup (call_key <$> results.*1) ->
  collect results = (fun a => (call_key a.1, a.2)) <$> answers_of results.
Proof.
  intros Hnd. unfold collect.
  assert (Hgen : forall d, (forall r, r ∈ results -> call_key r.1 ∉ od_keys d) ->
    foldl (fun d r => match r.2 with Ok text => od_set d (call_key r.1) text | Raise _ => d end) d results
    = d ++ ((fun a => (call_key a.1, a.2)) <$> answers_of results)).
  2: { rewrite Hgen; [done|]. intros r _. apply not_elem_of_nil. }
  induction results as [|[l r] rs IH]; intros d Hd; cbn [foldl]; [by rewrite app_nil_r|].
  rewrite !fmap_cons in Hnd. apply NoDup_cons in Hnd as [Hl Hnd]. cbn [fst] in Hl.
  destruct r as [t|e]; cbn [snd].
  - rewrite od_set_new by (apply (Hd (l, Ok t)); left). rewrite IH; [|done|].
    + rewrite <-app_assoc. done.
    + intros r Hr. unfold od_keys. rewrite fmap_app, elem_of_app. intros [Hin|Hin].
      * by apply (Hd r); [right|].
      * apply list_elem_of_singleton in Hin. cbn in Hin. apply Hl. rewrite <-Hin.
        apply list_elem_of_fmap. exists r.1. split; [done|]. apply list_elem_of_fmap. eauto.
  - apply IH; [done|]. intros r Hr. apply Hd. by right.
Qed.

(** The votes of the answers. *)
Definition votes (v : string) (answers : list (leg * string)) : nat :=
  length (filter (fun a => classify_binary a.2 = Some v) answers).

Lemma count_votes_answers v answers :
  count_votes v ((fun r => (r.1, classify_binary r.2)) <$> ((fun a => (call_key a.1, a.2)) <$> answers))
  = votes v answers.
Proof.
  unfold count_votes, votes. induction answers as [|[l t] answers IH]; [done|].
  rewrite !fmap_cons, !filter_cons. cbn [fst snd].
  destruct (decide (classify_binary t = Some v)); cbn [length]; by rewrite ?IH.
Qed.

Lemma od_get_answers answers l t :
  NoDup (call_key <$> answers.*1) -> (l, t) ∈ answers ->
  od_get ((fun r => (r.1, classify_binary r.2)) <$> ((fun a => (call_key a.1, a.2)) <$> answers))
    (call_key l) = Some (classify_binary t).
Proof.
  intros Hnd Hin. apply od_get_Some.
  - unfold od_keys. rewrite <-!list_fmap_compose in *. done.
  - apply list_elem_of_fmap. exists (call_key l, t). split; [done|]. apply list_elem_of_fmap. by exists (l, t).
Qed.

Lemma classify_cases t : classify_binary t = Some "yes" \/ classify_binary t = Some "no" \/ classify_binary t = None.
Proof. unfold classify_binary. repeat case_match; auto. Qed.

Lemma answers_of_keys results :
  NoDup (call_key <$> results.*1) -> NoDup (call_key <$> (answers_of results).*1).
Proof.
  intros Hnd. induction results as [|[l r] rs IH]; [done|].
  rewrite !fmap_cons in Hnd. apply NoDup_cons in Hnd as [Hl Hnd].
  destruct r as [t|e]; [|by apply IH].
  change (answers_of ((l, Ok t) :: rs)) with ((l, t) :: answers_of rs). rewrite !fmap_cons.
  apply NoDup_cons. split; [|by apply IH].
  intros (l' & Hl' & ([l2 t2] & -> & Hin)%list_elem_of_fmap)%list_elem_of_fmap.
  apply Hl, list_elem_of_fmap. exists l2. split; [done|].
  apply answers_legs in Hin. apply list_elem_of_fmap. by exists (l2, Ok t2).
Qed.

(** Every vote but one has been one of the two words. *)
Lemma all_binary_answers (answers : list (leg * string)) :
  forallb (fun c => match c.2 with Some _ => true | None => false end)
    ((fun r : string * string => (r.1, classify_binary r.2)) <$> ((fun a => (call_key a.1, a.2)) <$> answers)) = true
  <-> forall l t, (l, t) ∈ answers -> is_Some (classify_binary t).
Proof.
  rewrite forallb_forall. split.
  - intros H l t Hin. specialize (H (call_key l, classify_binary t)). cbn in H.
    destruct (classify_binary t) eqn:Ec; [by eexists|]. discriminate H. apply list_elem_of_In, list_elem_of_fmap.
    exists (call_key l, t). split; [cbn; by rewrite Ec|]. apply list_elem_of_fmap. by exists (l, t).
  - intros H c Hc. apply list_elem_of_In, list_elem_of_fmap in Hc as (r & -> & Hr).
    apply list_elem_of_fmap in Hr as ([l t] & -> & Hin). destruct (H l t Hin) as [v Hv]. cbn.
    by rewrite Hv.
Qed.

Lemma str_min_elem l : l <> [] -> exists s, str_min l = Some s /\ s ∈ l.
Proof.
  induction l as [|s l IH]; [done|]. intros _. cbn [str_min].
  destruct l as [|s' l]; [exists s; split; [done|left]|].
  destruct IH as (t & -> & Ht); [done|]. case_match; eexists; (split; [reflexivity|]); [left|by right].
Qed.

(** The vote always has a result, one of the two words. *)
Lemma majority_result legs default_id (answers : list (leg * string)) :
  answers <> [] -> NoDup (call_key <$> answers.*1) ->
  (forall l t, (l, t) ∈ answers -> is_Some (classify_binary t)) ->
  exists w, majority legs default_id
      ((fun r : string * string => (r.1, classify_binary r.2)) <$> ((fun a => (call_key a.1, a.2)) <$> answers)) = Some w /\
    (w = "yes" \/ w = "no") /\
    ((votes "no" answers < votes "yes" answers)%nat -> w = "yes") /\
    ((votes "yes" answers < votes "no" answers)%nat -> w = "no") /\
    (votes "yes" answers = votes "no" answers ->
     forall l t, List.find (fun l => bool_decide (leg_backend l = default_id)) legs = Some l ->
       (l, t) ∈ answers -> classify_binary t = Some w).
Proof.
  intros Hne Hnd Hall. set (cs := (fun r : string * string => (r.1, classify_binary r.2)) <$> _).
  unfold majority. unfold cs at 1 2 3 4. rewrite !count_votes_answers. fold cs.
  assert (Hvote : forall k w, od_get cs k = Some w -> exists v, w = Some v /\ (v = "yes" \/ v = "no")).
  { intros k w Hw. apply od_get_elem in Hw. unfold cs in Hw.
    apply list_elem_of_fmap in Hw as (r & [= -> ->] & Hr).
    apply list_elem_of_fmap in Hr as ([l t] & -> & Hin). cbn [snd].
    destruct (Hall l t Hin) as [v Hv]. exists v. split; [done|].
    destruct (classify_cases t) as [H|[H|H]]; rewrite H in Hv; naive_solver. }
  destruct (votes "yes" answers =? votes "no" answers)%nat eqn:Eq; boolp; cbn [negb].
  2: { destruct (votes "no" answers <? votes "yes" answers)%nat eqn:El; boolp; eexists;
       (split; [reflexivity|]); (split_and!; [auto|intros; first [done|exfalso; lia]..]). }
  destruct (_ ≫= od_get cs) as [w|] eqn:Ed.
  - apply bind_Some in Ed as (k & Hk & Hg). destruct (Hvote _ _ Hg) as (v & -> & Hv).
    exists v. split; [done|]. split; [done|]. split; [intros; exfalso; lia|]. split; [intros; exfalso; lia|].
    intros _ l t Hl Hin. rewrite Hl in Hk. injection Hk as <-.
    pose proof (od_get_answers answers l t Hnd Hin) as Ho. fold cs in Ho. congruence.
  - assert (Hkeys : od_keys cs <> []) by (unfold cs; by destruct answers).
    destruct (str_min_elem _ Hkeys) as (k & -> & Hk). cbn [mbind option_bind].
    destruct (od_get cs k) as [w|] eqn:Eg; [|by apply od_get_None in Eg].
    destruct (Hvote _ _ Eg) as (v & -> & Hv). exists v. split; [done|]. split; [done|].
    split; [intros; exfalso; lia|]. split; [intros; exfalso; lia|]. intros _ l t Hl Hin. rewrite Hl in Ed. cbn in Ed.
    pose proof (od_get_answers answers l t Hnd Hin) as Ho. fold cs in Ho. congruence.
Qed.

(** The outcome of a consensus, when no backend id contains a colon. It
    fails exactly when every leg fails. Otherwise, if all answers are one of
    the yes/no words, the result is the strict majority's word, and on a tie
    the default backend's when it answered (some answer's otherwise); in
    every other case it is the synthesis of the answers by the routed (or
    else the default) backend, or the answers themselves when that fails. *)
Theorem run_consensus_spec run_inner prompt backends default_id entries sb sm :
  Forall (fun b => b.2 <> Some "" /\ ~ colon ∈ String.list_ascii_of_string b.1) backends ->
  let legs := resolve_legs entries backends default_id in
  let answers := answers_of ((fun l => (l, run_inner prompt (leg_backend l) (leg_model l))) <$> legs) in
  let result := run_consensus run_inner prompt backends default_id entries sb sm in
  match answers with
  | [] => result = Raise RuntimeError
  | _ =>
      if decide (Forall (fun a => classify_binary a.2 <> None) answers) then
        exists w, result = Ok w /\ (w = "yes" \/ w = "no") /\
          ((votes "no" answers < votes "yes" answers)%nat -> w = "yes") /\
          ((votes "yes" answers < votes "no" answers)%nat -> w = "no") /\
          (votes "yes" answers = votes "no" answers ->
           forall l t, List.find (fun l => bool_decide (leg_backend l = default_id)) legs = Some l ->
             (l, t) ∈ answers -> classify_binary t = Some w)
      else
        let parts := format_parts ((fun a => (call_key a.1, a.2)) <$> answers) in
        let target := match sb with
                      | Some b => if decide (b = "") then default_id else b | None => default_id end in
        result = Ok (match run_inner (synthesis_prompt prompt parts) target sm with
                     | Ok text => text | Raise _ => parts end)
  end.
Proof.
  intros Hb legs answers result.
  destruct (resolve_legs_labels entries backends default_id Hb) as [Hne Hlab]. fold legs in Hne, Hlab.
  set (results := (fun l => (l, run_inner prompt (leg_backend l) (leg_model l))) <$> legs) in *.
  assert (Hkeys : NoDup (call_key <$> results.*1)).
  { assert (Hfst : forall ls, ((fun l => (l, run_inner prompt (leg_backend l) (leg_model l))) <$> ls).*1 = ls)
      by (induction ls as [|l ls IH]; [done|]; rewrite !fmap_cons; by rewrite IH).
    unfold results. by rewrite Hfst. }
  pose proof (collect_answers results Hkeys) as Hcol. pose proof (answers_of_keys results Hkeys) as Hnd.
  unfold result, run_consensus. cbv zeta. fold legs. fold results. rewrite Hcol.
  fold answers. fold answers in Hnd.
  destruct answers as [|[l0 t0] as0] eqn:Ea; [done|]. rewrite <-Ea in *.
  assert (Hmatch : forall x y : res string,
            match (fun a => (call_key a.1, a.2)) <$> answers with [] => x | _ => y end = y)
    by (by rewrite Ea).
  rewrite Hmatch.
  pose proof (all_binary_answers answers) as Hall.
  case_decide as Hf.
  - assert (Hbin : forall l t, (l, t) ∈ answers -> is_Some (classify_binary t)).
    { intros l t Hin. rewrite Forall_forall in Hf. apply not_eq_None_Some. by apply (Hf (l, t)). }
    rewrite (proj2 Hall Hbin).
    destruct (majority_result legs default_id answers) as (w & -> & H);
      [by rewrite Ea|done|done|]. exists w. by split.
  - destruct (forallb _ _) eqn:Efb.
    { destruct Hf. apply Forall_forall. intros [l t] Hin. apply not_eq_None_Some.
      by apply (proj1 Hall eq_refl l t). }
    cbv zeta. by destruct (run_inner (synthesis_prompt prompt _) _ sm).
Qed.

(** ** Concrete inputs *)

Definition three_backends : list (string * option string) :=
  [("claude", Some "opus"); ("openai", None); ("gemini", None)].

(** The answers of three backends; "odd" is unreachable. *)
Definition canned (prompt bid : string) (model : option string) : res string :=
  if decide (bid = "claude") then Ok " No. "
  else if decide (bid = "openai") then Ok "TRUE"
  else if decide (bid = "gemini") then Ok "yes"
  else Raise ConnectionError.

Definition everyone : list consensus_entry := [mk_consensus "*" None].

Example consensus_majority :
  run_consensus canned "ok?" three_backends "claude" everyone None None = Ok "yes" /\
  run_consensus canned "ok?" three_backends "claude" [mk_consensus "c*" None; mk_consensus "openai" None] None None
    = Ok "no" /\
  run_consensus canned "ok?" three_backends "odd" [mk_consensus "nobody" None] None None = Raise RuntimeError.
Proof. vm_compute. repeat split. Qed.

(** With a colon in an id two legs share a label and one vote is lost: of a
    no and a yes only the later answer counts. *)
Example consensus_label_collision :
  let backends := [("a", Some "b"); ("a:b", None)] in
  let votes prompt bid (model : option string) := if decide (bid = "a") then Ok "no" else Ok "yes" in
  (call_key <$> resolve_legs everyone backends "a") = ["a:b"; "a:b"] /\
  run_consensus votes "ok?" backends "a" everyone None None = Ok "yes".
Proof. vm_compute. repeat split. Qed.

(** A cap of zero makes the first use fail. *)
Example no_sessions_allowed : track_session 0 [] "s" 1 = Raise KeyError.
Proof. reflexivity. Qed.

Lemma run_consensus_spec_witness :
  exists w, run_consensus canned "ok?" three_backends "claude" everyone None None = Ok w /\ w = "yes".
Proof.
  pose proof (run_consensus_spec canned "ok?" three_backends "claude" everyone None None) as H.
  destruct H as (w & Hw & _ & Hyes & _).
  - refine (bool_decide_unpack _ _). vm_compute. exact I.
  - exists w. split; [exact Hw|]. apply Hyes. vm_compute. lia.
Defined.

Lemma sessions_lru_witness :
  exists d, track_all 2 [] [("a", 1); ("b", 2); ("a", 3); ("c", 4)] = Ok d /\ od_keys d = ["a"; "c"].
Proof.
  destruct (sessions_lru 2 [("a", 1); ("b", 2); ("a", 3); ("c", 4)] ltac:(lia)) as (d & Hd & Hk & _).
  exists d. split; [exact Hd|]. rewrite Hk. vm_compute. reflexivity.
Defined.
