(* ===== verification/A2ABackend.v ===== *)
(** * The A2A client of a backend (harness/backends/a2a.py)

    One object per backend: its URL and credentials, the POST with retries,
    the circuit breaker, the memory of the sessions the remote side knows,
    and the extraction of text from its answer.  The outside (HTTP answers,
    the clock, the jitter, the decoding of bodies and [json.loads]) is an
    argument; a call is cut at its two suspension points, so that calls
    interleave.  Times are in microseconds. *)
From Stdlib Require Import Ascii DecimalString.
From S2P Require Import Prelude PyStr PyPath PyVal PyLib PyUrl Lru Tracing.

(** ** Settings *)

(** [A2A_BACKEND_MAX_RETRIES], ["3"] when unset. *)
Definition resolve_max_retries (raw : option string) : Z :=
  match py_int (default "3" raw) with
  | None => 3
  | Some val => if val <? 1 then 3 else val
  end.

Definition resolve_session_context_cache_max (raw : option string) : res Z :=
  match py_int (default "10000" raw) with
  | None => Raise ValueError
  | Some val => if val <? 1 then Raise ValueError else Ok val
  end.

Inductive retry_policy : Type := FastOnly | Always | Never.

#[export] Instance retry_policy_eq_dec : EqDecision retry_policy.
Proof. solve_decision. Defined.

Definition resolve_retry_policy (raw : option string) : retry_policy :=
  let r := str_lower (str_strip (default "fast-only" raw)) in
  if decide (r = "always") then Always else if decide (r = "never") then Never else FastOnly.

Definition http_timeout (task_timeout : Z) : Z := Z.max (task_timeout - 10) 10.

Definition RETRYABLE_STATUS_CODES : list Z := [429; 502; 503; 504].

(** The codes that never count against the breaker. *)
Definition CLIENT_SIDE_CODES : list Z := [400; 401; 403; 404; 405; 406; 409; 410; 413; 414; 415; 422].

(** ** Identity *)

(** [\[a-z0-9\]] and [\[a-z0-9-\]] *)
Definition id_end (c : ascii) : bool := is_digit c || ((97 <=? code c) && (code c <=? 122)).
Definition id_char (c : ascii) : bool := id_end c || bool_decide (c = "-"%char).

(** [re.fullmatch(r"\[a-z0-9\](\[a-z0-9-\]*\[a-z0-9\])?", s)]: only such characters,
    and no hyphen at either end. *)
Definition valid_id (s : string) : bool :=
  let l := String.list_ascii_of_string s in
  match head l, last l with
  | Some a, Some b => id_end a && id_end b && forallb id_char l
  | _, _ => false
  end.

Definition hyphen_to_underscore (c : ascii) : ascii := if decide (c = "-"%char) then "_"%char else c.

(** [config.id.upper().replace("-", "_")]; ids are ASCII when they get here. *)
Definition url_env_var (id : string) : string := "A2A_URL_" +:+ str_map hyphen_to_underscore (str_upper id).

(** The URL an instance ends up with. *)
Definition init_url (environ : string -> option string) (id : string) (config_url : option string)
  : res string :=
  if negb (valid_id id) then Raise ValueError
  else
    let from_env := default "" (environ (url_env_var id)) in
    let url := if decide (from_env = "") then default "" config_url else from_env in
    if decide (url = "") then Raise ValueError else Ok url.

(** ** Failures *)

(** Which class a raised exception has; [FOther] is one of httpx or of the
    standard library, re-raised as it is. *)
Inductive failure_class : Type :=
| FConnection | FSlowFiveXX | FSlowRead | FOther | FValue | FRuntime | FExn (e : exn).

Record failure : Type := mk_failure { f_class : failure_class; f_message : string }.

(** ** The POST with retries *)

(** How the body of an answer ends after the chunks that arrive. *)
Inductive body_end : Type := BodyComplete | BodyReadFails | BodyFails (msg : string) | BodyCancelled.

(** What one attempt meets: an answer with its status and body; a failed
    read ([ReadError], [ReadTimeout]); a request that was not sent
    ([WriteTimeout], [PoolTimeout]) or not connected ([ConnectError],
    [ConnectTimeout]); another exception; a cancellation. *)
Inductive answer : Type :=
| Response (code : Z) (chunks : list string) (fin : body_end)
| ReadFails
| SendTimesOut
| ConnectFails
| OtherFails (msg : string)
| IsCancelled.

Record attempt_env : Type := mk_attempt {
  at_answer : answer;
  (** since the start of the attempt, when the clock is read: at a status
      that may be retried, or at a failed read *)
  at_elapsed : Z;
  at_jitter : Z;
  at_sleep_cancelled : bool
}.

(** The [result] labels of [_observe_backend_request]. *)
Inductive label : Type := LOk | LStatus | LConnection | LTimeout.

#[export] Instance label_eq_dec : EqDecision label.
Proof. solve_decision. Defined.

Inductive event : Type :=
| EPost (headers : list (string * string))
| EObserve (l : label)
| ESleep (us : Z).

Inductive verdict : Type :=
| VReturn (text : string)
| VRetry
| VThrow (f : failure)
| VCancel.

Inductive post_result : Type :=
| Answered (text : string)
| Failed (f : failure)
| Cancelled.

Section Post.
Variables backend_id url : string.
Variable policy : retry_policy.
(** [_A2A_RETRY_FAST_ONLY_MS], [_A2A_MAX_RESPONSE_BYTES], [_MAX_RETRIES],
    [_RETRY_BACKOFF_BASE] *)
Variables fast_only_ms max_response_bytes max_retries backoff_base : Z.
(** [raise_for_status] does not raise; the bytes of a body as text, with the
    cap ([decode(encoding, errors="replace")]) and without ([resp.text]). *)
Variable status_ok : Z -> bool.
Variables decode_replace response_text : string -> string.

Definition prefix_message : string := "A2A backend '" +:+ backend_id +:+ "'".

Definition returned_http (code : Z) : string := prefix_message +:+ " returned HTTP " +:+ py_str_int code.

Definition elapsed_ms (us : Z) : Z := us / 1000.

(** The guard of the two refusals. (The text of a refusal is not looked at.) *)
Definition refuse_5xx (ms : Z) : bool :=
  match policy with
  | Never => true
  | FastOnly => fast_only_ms <? ms
  | Always => false
  end.

Definition refuse_read (ms : Z) : bool :=
  (fast_only_ms <? ms) && negb (bool_decide (policy = Always)).

(** The loop over [aiter_bytes] that stops once the total passes the cap. *)
Fixpoint read_capped (total : Z) (acc : string) (chunks : list string) (fin : body_end)
  : option (string * body_end) :=
  match chunks with
  | [] => Some (acc, fin)
  | c :: cs =>
      let total := total + str_len c in
      if max_response_bytes <? total then None else read_capped total (acc +:+ c) cs fin
  end.

Definition read_failed (us : Z) : label * verdict :=
  (LTimeout,
   if refuse_read (elapsed_ms us)
   then VThrow (mk_failure FSlowRead (prefix_message +:+ " read failed, not retried"))
   else VRetry).

Definition body_ended (us : Z) (text : string) (fin : body_end) : label * verdict :=
  match fin with
  | BodyComplete => (LOk, VReturn text)
  | BodyReadFails => read_failed us
  | BodyFails msg => (LConnection, VThrow (mk_failure FOther msg))
  | BodyCancelled => (LOk, VCancel)
  end.

Definition read_body (us : Z) (chunks : list string) (fin : body_end) : label * verdict :=
  if 0 <? max_response_bytes then
    match read_capped 0 "" chunks fin with
    | None =>
        (LOk, VThrow (mk_failure FConnection
          (prefix_message +:+ " response exceeds A2A_MAX_RESPONSE_BYTES=" +:+ py_str_int max_response_bytes)))
    | Some (bytes, fin) => body_ended us (decode_replace bytes) fin
    end
  else body_ended us (response_text (str_join "" chunks)) fin.

(** One pass through the [try]: the label its [finally] clause observes and
    what it leads to. *)
Definition judge (a : answer) (us : Z) : label * verdict :=
  match a with
  | Response code chunks fin =>
      if decide (code ∈ RETRYABLE_STATUS_CODES) then
        (LStatus,
         if refuse_5xx (elapsed_ms us)
         then VThrow (mk_failure FSlowFiveXX
                (returned_http code +:+ " after " +:+ py_str_int (elapsed_ms us) +:+ "ms - not retried (#1457 guard)."))
         else VRetry)
      else if status_ok code then read_body us chunks fin
      else (LStatus, VThrow (mk_failure FConnection (returned_http code)))
  | ReadFails => read_failed us
  | SendTimesOut => (LTimeout, VRetry)
  | ConnectFails => (LConnection, VRetry)
  | OtherFails msg => (LConnection, VThrow (mk_failure FOther msg))
  | IsCancelled => (LOk, VCancel)
  end.

(** [min(base * 2**attempt + jitter, 30.0)] *)
Definition retry_delay (attempt jitter : Z) : Z := Z.min (backoff_base * 2 ^ attempt + jitter) 30000000.

Definition unreachable : failure :=
  mk_failure FConnection
    (prefix_message +:+ " unreachable at " +:+ url +:+ " after " +:+ py_str_int max_retries +:+ " attempts").

(** [for attempt in range(_MAX_RETRIES)], with the attempts that remain. *)
Fixpoint post_loop (headers : list (string * string)) (env : Z -> attempt_env) (remaining : nat) (attempt : Z)
  : list event * post_result :=
  match remaining with
  | O => ([], Failed unreachable)
  | S remaining' =>
      let e := env attempt in
      let '(l, v) := judge (at_answer e) (at_elapsed e) in
      let here := [EPost headers; EObserve l] in
      match v with
      | VReturn text => (here, Answered text)
      | VThrow f => (here, Failed f)
      | VCancel => (here, Cancelled)
      | VRetry =>
          if attempt <? max_retries - 1 then
            let here := here ++ [ESleep (retry_delay attempt (at_jitter e))] in
            if at_sleep_cancelled e then (here, Cancelled)
            else let '(rest, r) := post_loop headers env remaining' (attempt + 1) in (here ++ rest, r)
          else let '(rest, r) := post_loop headers env remaining' (attempt + 1) in (here ++ rest, r)
      end
  end.

(** [auth_env] is the name of the variable with the token, and [environ] the
    environment at the time of the call. *)
Definition post_headers (auth_env : string) (environ : string -> option string) (traceparent : option string)
  : sum failure (list (string * string)) :=
  let base := ("Content-Type", "application/json") ::
              match traceparent with Some t => [("traceparent", t)] | None => [] end in
  if decide (auth_env = "") then inr base
  else
    let token := default "" (environ auth_env) in
    if decide (token = "") then
      inl (mk_failure FConnection
        (prefix_message +:+ " auth_env=" +:+ auth_env +:+ " is unset or empty - refusing to send unauthenticated "
         +:+ "request. Fix the env var or clear auth_env in backend config if auth is not required."))
    else inr (base ++ [("Authorization", "Bearer " +:+ token)]).

Definition post_with_retry (auth_env : string) (environ : string -> option string)
    (traceparent : option string) (env : Z -> attempt_env) : list event * post_result :=
  match post_headers auth_env environ traceparent with
  | inl f => ([], Failed f)
  | inr headers => post_loop headers env (Z.to_nat max_retries) 0
  end.
End Post.

(** ** The circuit breaker *)

Inductive circuit : Type := Closed | Open | HalfOpen.

#[export] Instance circuit_eq_dec : EqDecision circuit.
Proof. solve_decision. Defined.

Record breaker : Type := mk_breaker {
  c_state : circuit;
  c_failures : Z;
  c_opened_at : Z
}.

Definition new_breaker : breaker := mk_breaker Closed 0 0.

(** The state alone: the gauge, the transition counter and the invalidation
    of the readiness cache are not part of the model. *)
Definition transition_circuit (b : breaker) (new_state : circuit) : breaker :=
  if decide (c_state b = new_state) then b else mk_breaker new_state (c_failures b) (c_opened_at b).

Section Breaker.
(** [_CIRCUIT_THRESHOLD] and [_CIRCUIT_COOLOFF_SECONDS] *)
Variables threshold cooloff : Z.

(** [None]: refused with [ConnectionError]. *)
Definition circuit_acquire (now : Z) (b : breaker) : option breaker :=
  match c_state b with
  | Open => if now - c_opened_at b <? cooloff then None else Some (transition_circuit b HalfOpen)
  | _ => Some b
  end.

Definition circuit_record (ok : bool) (now : Z) (b : breaker) : breaker :=
  if ok then
    let b := mk_breaker (c_state b) 0 (c_opened_at b) in
    if decide (c_state b = Closed) then b else transition_circuit b Closed
  else
    let failures := c_failures b + 1 in
    let b' := mk_breaker (c_state b) failures now in
    match c_state b with
    | HalfOpen => transition_circuit b' Open
    | Closed => if threshold <=? failures then transition_circuit b' Open
                else mk_breaker Closed failures (c_opened_at b)
    | Open => mk_breaker Open failures (c_opened_at b)
    end.
End Breaker.

(** ** The answer's text *)

(** [for x in v]: a text gives its characters, a dictionary its keys. *)
Definition iterate (v : pyval) : res (list pyval) :=
  match v with
  | VList l => Ok l
  | VStr s => Ok ((fun c => VStr (String c "")) <$> String.list_ascii_of_string s)
  | VDict d => Ok d.*1
  | _ => Raise TypeError
  end.

(** [v or \[\]] *)
Definition or_empty (v : pyval) : pyval := if truthy v then v else VList [].

Definition part_text (part : pyval) : list pyval :=
  match part with
  | VDict p => match dict_get_none p "text" with
               | VStr t => if decide (t = "") then [] else [VStr t]
               | _ => []
               end
  | _ => []
  end.

(** [v == s] *)
Definition is_text (v : pyval) (s : string) : bool :=
  match v with VStr t => bool_decide (t = s) | _ => false end.

(** A part of a message counts when its kind is text; whatever true value it
    has is taken. *)
Definition message_part_text (part : pyval) : list pyval :=
  match part with
  | VDict p =>
      if is_text (dict_get_none p "kind") "text" then
        let t := dict_get_none p "text" in if truthy t then [t] else []
      else []
  | _ => []
  end.

(** The texts of the parts under the key ["parts"] of a dictionary. *)
Definition parts_texts (text_of : pyval -> list pyval) (obj : pydict) : res (list pyval) :=
  ps <-- iterate (or_empty (dict_get_none obj "parts")) ;; Ok (ps ≫= text_of).

(** A loop over values that skips the ones that are not dictionaries. *)
Fixpoint collect_dicts (f : pydict -> res (list pyval)) (vs : list pyval) : res (list pyval) :=
  match vs with
  | [] => Ok []
  | VDict d :: vs' => ts <-- f d ;; rest <-- collect_dicts f vs' ;; Ok (ts ++ rest)
  | _ :: vs' => collect_dicts f vs'
  end.

Definition collect_from_artifacts (obj : pydict) : res (list pyval) :=
  match dict_get_none obj "artifacts" with
  | VList artifacts => collect_dicts (parts_texts part_text) artifacts
  | _ => Ok []
  end.

(** [texts] when there are any, else the next source. *)
Definition or_else (texts : list pyval) (k : res (list pyval)) : res (list pyval) :=
  match texts with [] => k | _ => Ok texts end.

Definition nested_artifacts (d : pydict) : res (list pyval) :=
  match dict_get_none d "result" with VDict nested => collect_from_artifacts nested | _ => Ok [] end.

Definition own_parts (d : pydict) : res (list pyval) :=
  if is_text (dict_get_none d "kind") "message" then parts_texts message_part_text d else Ok [].

Definition legacy_messages (d : pydict) : res (list pyval) :=
  let messages := dict_get_none d "messages" in
  let msg := dict_get_none d "message" in
  let messages := if truthy messages then messages else if truthy msg then VList [msg] else VList [] in
  ms <-- iterate messages ;; collect_dicts (parts_texts message_part_text) ms.

Definition direct_text (d : pydict) : list pyval :=
  let text := dict_get_none d "text" in
  match (if truthy text then text else dict_get_none d "content") with
  | VStr s => if decide (s = "") then [] else [VStr s]
  | _ => []
  end.

Definition extract_text (result : pyval) : res (list pyval) :=
  match result with
  | VDict d =>
      texts <-- collect_from_artifacts d ;;
      or_else texts (texts <-- nested_artifacts d ;;
      or_else texts (texts <-- own_parts d ;;
      or_else texts (texts <-- legacy_messages d ;;
      or_else texts (Ok (direct_text d)))))
  | _ => Raise AttributeError
  end.

(** ** One call *)

Record a2a_state : Type := mk_a2a {
  a_circuit : breaker;
  (** [_session_has_context], least recently used first *)
  a_contexts : list string
}.

Definition new_a2a : a2a_state := mk_a2a new_breaker [].

(** The JSON-RPC request. *)
Definition message_metadata (session_id : string) (model : option string) (max_tokens : option Z)
    (traceparent : option string) (caller_id : option string) : pydict :=
  let nonempty k o := match o with Some s => if decide (s = "") then [] else [(k, VStr s)] | None => [] end in
  mk_dict ([("session_id", VStr session_id)]
    ++ nonempty "model" model
    ++ match max_tokens with Some n => [("max_tokens", VInt n)] | None => [] end
    ++ match traceparent with Some t => [("traceparent", VStr t)] | None => [] end
    ++ nonempty "caller_id" caller_id).

Definition request_payload (message_id prompt session_id : string) (known : bool) (metadata : pydict) : pyval :=
  VDict (mk_dict
    [("jsonrpc", VStr "2.0"); ("method", VStr "message/send"); ("id", VStr message_id);
     ("params", VDict (mk_dict
        [("message", VDict (mk_dict
            ([("messageId", VStr message_id); ("role", VStr "user");
              ("parts", VList [VDict (mk_dict [("kind", VStr "text"); ("text", VStr prompt)])])]
             ++ (if known then [("contextId", VStr session_id)] else [])
             ++ [("metadata", VDict metadata)])));
         ("configuration", VDict (mk_dict
            [("acceptedOutputModes", VList [VStr "text/plain"; VStr "application/json"])]))]))]).

(** The [traceparent] sent: OpenTelemetry's when it injects one, else a child
    of the caller's context, minted before the call is gated. *)
Definition outbound_traceparent (tc : option trace_context) (draws : list (list Z)) (injected : string)
  : option string :=
  if decide (injected = "") then '(c, _) ← tc ≫= (fun t => child t draws); Some (to_header c)
  else Some injected.

(** How a call ends for its caller. *)
Inductive call_result : Type :=
| Texts (texts : list pyval)
| Raised (f : failure)
| CallCancelled.

(** Whether a failure counts against the breaker. *)
Definition is_client_side (f : failure) : bool :=
  existsb (fun c => str_contains ("HTTP " +:+ py_str_int c) (f_message f)) CLIENT_SIDE_CODES.

Definition is_policy_refusal (f : failure) : bool :=
  match f_class f with FSlowFiveXX | FSlowRead => true | _ => false end.

Definition counted (f : failure) : bool := negb (is_client_side f) && negb (is_policy_refusal f).

Section Call.
Variable backend_id : string.
Variables threshold cooloff context_max : Z.
Variable json_loads : string -> res pyval.

(** Up to the POST: the context id is decided, then the breaker is asked.
    [None]: refused. *)
Definition begin_call (now : Z) (session_id : string) (st : a2a_state) : option (bool * a2a_state) :=
  let known := bool_decide (session_id ∈ a_contexts st) in
  b ← circuit_acquire cooloff now (a_circuit st);
  Some (known, mk_a2a b (a_contexts st)).

Definition record (ok : bool) (now : Z) (st : a2a_state) : a2a_state :=
  mk_a2a (circuit_record threshold ok now (a_circuit st)) (a_contexts st).

(** [while len(...) > max: popitem(last=False)] *)
Definition drop_oldest (contexts : list string) : list string :=
  drop (length contexts - Z.to_nat context_max) contexts.

Definition remember (session_id : string) (st : a2a_state) : a2a_state :=
  mk_a2a (a_circuit st)
    (if decide (session_id ∈ a_contexts st)
     then filter (fun s => s <> session_id) (a_contexts st) ++ [session_id]
     else drop_oldest (a_contexts st ++ [session_id])).

(** From the end of the POST on. *)
Definition finish_call (now : Z) (session_id : string) (r : post_result) (st : a2a_state)
  : a2a_state * call_result :=
  match r with
  | Cancelled => (st, CallCancelled)
  | Failed f => (if counted f then record false now st else st, Raised f)
  | Answered text =>
      match json_loads text with
      | Raise _ =>
          (record false now st,
           Raised (mk_failure FValue (prefix_message backend_id +:+ " returned non-JSON response: " +:+ repr_str text)))
      | Ok (VDict data) =>
          let error := dict_get_none data "error" in
          if truthy error then
            (record false now st,
             Raised (mk_failure FRuntime (prefix_message backend_id +:+ " returned error: " +:+ py_str error)))
          else
            let result := dict_get_none data "result" in
            let result := if truthy result then result else VDict [] in
            (record true now (remember session_id st),
             match extract_text result with
             | Ok texts => Texts texts
             | Raise e => Raised (mk_failure (FExn e) "")
             end)
      | Ok _ => (st, Raised (mk_failure (FExn AttributeError) ""))
      end
  end.
End Call.

(** ** Interleaved calls

    The calls of one backend object overlap: a step is the start of a call
    (up to its POST) or the end of one in flight. *)

Inductive step_label : Type :=
| Began (now : Z) (session_id : string) (known : bool)
| Refused (now : Z)
| Ended (now : Z) (session_id : string) (r : post_result).

Record a2a_world : Type := mk_a2a_world {
  w_state : a2a_state;
  w_in_flight : list string;
  w_clock : Z
}.

Definition initial_world : a2a_world := mk_a2a_world new_a2a [] 0.

(** What a step means for the breaker. *)
Inductive breaker_label : Type :=
| BAdmit (now : Z)
| BRefuse (now : Z)
| BOk (now : Z)
| BFailure (now : Z)
| BQuiet.

Section Traces.
Variable backend_id : string.
Variables threshold cooloff context_max : Z.
Variable json_loads : string -> res pyval.

Inductive a2a_step : a2a_world -> step_label -> a2a_world -> Prop :=
| step_began w now s known st' :
    w_clock w <= now -> begin_call cooloff now s (w_state w) = Some (known, st') ->
    a2a_step w (Began now s known) (mk_a2a_world st' (s :: w_in_flight w) now)
| step_refused w now s :
    w_clock w <= now -> begin_call cooloff now s (w_state w) = None ->
    a2a_step w (Refused now) (mk_a2a_world (w_state w) (w_in_flight w) now)
| step_ended w now s r l1 l2 st' res :
    w_clock w <= now -> w_in_flight w = l1 ++ s :: l2 ->
    finish_call backend_id threshold context_max json_loads now s r (w_state w) = (st', res) ->
    a2a_step w (Ended now s r) (mk_a2a_world st' (l1 ++ l2) now).

(** The outcome the code reports to the breaker: success, failure or none. *)
Definition reported (r : post_result) : option bool :=
  match r with
  | Cancelled => None
  | Failed f => if counted f then Some false else None
  | Answered text =>
      match json_loads text with
      | Raise _ => Some false
      | Ok (VDict data) => Some (negb (truthy (dict_get_none data "error")))
      | Ok _ => None
      end
  end.

Definition breaker_view (l : step_label) : breaker_label :=
  match l with
  | Began now _ _ => BAdmit now
  | Refused now => BRefuse now
  | Ended now _ r =>
      match reported r with Some true => BOk now | Some false => BFailure now | None => BQuiet end
  end.

(** The sessions of the successful calls, in the order of their ends. *)
Definition succeeded (ls : list step_label) : list string :=
  omap (fun l => match l with
                 | Ended _ s r => if decide (reported r = Some true) then Some s else None
                 | _ => None
                 end) ls.

(** *** What a breaker is for

    The failures since the last success, and the time since which calls are
    refused, if they are. *)
Definition tally : Type := (Z * option Z)%type.

Inductive spec_step : tally -> breaker_label -> tally -> Prop :=
| spec_admit k since now :
    (forall t, since = Some t -> t + cooloff <= now) -> spec_step (k, since) (BAdmit now) (k, None)
| spec_refuse k t now : now < t + cooloff -> spec_step (k, Some t) (BRefuse now) (k, Some t)
| spec_ok k since now : spec_step (k, since) (BOk now) (0, None)
| spec_failure_again k t now : spec_step (k, Some t) (BFailure now) (k + 1, Some t)
| spec_failure_below k now : k + 1 < threshold -> spec_step (k, None) (BFailure now) (k + 1, None)
| spec_failure_opens k now : threshold <= k + 1 -> spec_step (k, None) (BFailure now) (k + 1, Some now)
| spec_quiet (s : tally) : spec_step s BQuiet s.

Definition tally_of (b : breaker) : tally :=
  (c_failures b, match c_state b with Open => Some (c_opened_at b) | _ => None end).

(** Closed is: fewer failures than the threshold. *)
Definition breaker_ok (b : breaker) : Prop := c_state b = Closed <-> c_failures b < threshold.

Lemma acquire_simulated now b b' :
  breaker_ok b -> circuit_acquire cooloff now b = Some b' ->
  spec_step (tally_of b) (BAdmit now) (tally_of b') /\ breaker_ok b'.
Proof.
  unfold circuit_acquire, tally_of, breaker_ok, transition_circuit.
  destruct b as [[] k o]; cbn; intros Hb.
  - intros [= <-]. cbn. split; [by apply spec_admit|done].
  - destruct (now - o <? cooloff) eqn:E; [done|]. boolp. intros [= <-]. cbn.
    split; [apply spec_admit; intros t [= <-]; lia|]. destruct Hb as [_ Hb]. split; [done|].
    intros ?. by specialize (Hb ltac:(lia)).
  - intros [= <-]. cbn. split; [by apply spec_admit|done].
Qed.

Lemma acquire_refused now b :
  circuit_acquire cooloff now b = None ->
  spec_step (tally_of b) (BRefuse now) (tally_of b).
Proof.
  unfold circuit_acquire, tally_of. destruct b as [[] k o]; cbn; [done| |done].
  destruct (now - o <? cooloff) eqn:E; [|done]. boolp. intros _. apply spec_refuse. lia.
Qed.

Lemma record_simulated (ok : bool) now b :
  1 <= threshold -> breaker_ok b ->
  spec_step (tally_of b) (if ok then BOk now else BFailure now) (tally_of (circuit_record threshold ok now b)) /\
  breaker_ok (circuit_record threshold ok now b).
Proof.
  intros Hthr. unfold circuit_record, tally_of, breaker_ok, transition_circuit.
  destruct b as [[] k o], ok; cbn; intros Hb; repeat (case_decide; try done; cbn in *);
    try (split; [constructor|split; [lia|done]]).
  - assert (k < threshold) by by apply Hb. destruct (threshold <=? k + 1) eqn:E; boolp;
      repeat (case_decide; try done); cbn; (split; [by constructor|split; [done || lia|done || lia]]).
  - split; [constructor|]. destruct Hb as [_ Hb]. split; [done|]. intros ?. apply Hb. lia.
  - destruct Hb as [_ Hb]. assert (~ k < threshold) by (intros ?; by specialize (Hb ltac:(lia))).
    split; [constructor; lia|]. split; [done|lia].
Qed.

(** The state after the end of a call, by what is reported. *)
Lemma finish_call_state now s r st :
  (finish_call backend_id threshold context_max json_loads now s r st).1 =
    match reported r with
    | Some true => record threshold true now (remember context_max s st)
    | Some false => record threshold false now st
    | None => st
    end.
Proof.
  unfold finish_call, reported. destruct r as [text|f|]; [|by case_match|done].
  destruct (json_loads text) as [v|e]; [|done]. destruct v; try done.
  by destruct (truthy (dict_get_none d "error")).
Qed.

Lemma a2a_step_simulated w l w' :
  1 <= threshold ->
  breaker_ok (a_circuit (w_state w)) -> a2a_step w l w' ->
  spec_step (tally_of (a_circuit (w_state w))) (breaker_view l) (tally_of (a_circuit (w_state w'))) /\
  breaker_ok (a_circuit (w_state w')).
Proof.
  intros Hthr Hb. destruct 1 as [w now s known st' _ Hs|w now s _ Hs|w now s r l1 l2 st' res _ _ Hs]; cbn.
  - unfold begin_call in Hs. destruct (circuit_acquire _ _ _) as [b|] eqn:E; [|done].
    injection Hs as <- <-. by apply acquire_simulated.
  - split; [|done]. unfold begin_call in Hs. destruct (circuit_acquire _ _ _) eqn:E; [done|].
    by apply acquire_refused.
  - pose proof (finish_call_state now s r (w_state w)) as Hst. rewrite Hs in Hst. cbn in Hst. subst st'.
    destruct (reported r) as [[]|]; cbn.
    + by apply (record_simulated true).
    + by apply (record_simulated false).
    + split; [constructor|done].
Qed.

Lemma runs_simulated w ls w' :
  1 <= threshold -> breaker_ok (a_circuit (w_state w)) -> runs a2a_step w ls w' ->
  runs spec_step (tally_of (a_circuit (w_state w))) (breaker_view <$> ls) (tally_of (a_circuit (w_state w'))) /\
  breaker_ok (a_circuit (w_state w')).
Proof.
  intros Hthr Hb Hrun. revert Hb. induction Hrun as [w|w l w1 ls w2 Hs _ IH]; intros Hb.
  - split; [constructor|done].
  - destruct (a2a_step_simulated w l w1 Hthr Hb Hs) as [H1 Hb1].
    destruct (IH Hb1) as [H2 Hb2]. split; [|done]. by econstructor.
Qed.


(** *** The context cache *)

Lemma remember_lru s ids st :
  1 <= context_max ->
  a_contexts st = lru (Z.to_nat context_max) ids ->
  a_contexts (remember context_max s st) = lru (Z.to_nat context_max) (ids ++ [s]).
Proof.
  intros Hm Hst. unfold remember, drop_oldest. cbn [a_contexts]. rewrite lru_use, <-Hst by lia.
  pose proof (lru_length (Z.to_nat context_max) ids) as Hlen. rewrite <-Hst in Hlen.
  case_decide; [done|]. rewrite length_app. cbn [length]. case_decide as Hfull.
  - rewrite drop_app_le by lia. f_equal. rewrite Hfull.
    replace (Z.to_nat context_max + 1 - Z.to_nat context_max)%nat with 1%nat by lia. by destruct (a_contexts st).
  - replace (length (a_contexts st) + 1 - Z.to_nat context_max)%nat with O by lia. done.
Qed.

(** Context ids. The remembered sessions are those of the most recently
    successful calls, up to the cap and in the order of their last success,
    whatever the interleaving; and a call presents its session as context id
    exactly when the session is among those of the calls that ended before. *)
Theorem context_ids_exact ls w :
  1 <= context_max ->
  runs a2a_step initial_world ls w ->
  let held := fun past => lru (Z.to_nat context_max) (succeeded past) in
  a_contexts (w_state w) = held ls /\
  (forall l1 l2 now s known, ls = l1 ++ Began now s known :: l2 -> known = true <-> s ∈ held l1).
Proof.
  intros Hm Hrun held.
  assert (Hgen : forall w0 ls w1, runs a2a_step w0 ls w1 -> forall past,
    a_contexts (w_state w0) = held past ->
    a_contexts (w_state w1) = held (past ++ ls) /\
    (forall l1 l2 now s known, ls = l1 ++ Began now s known :: l2 -> known = true <-> s ∈ held (past ++ l1))).
  { clear Hrun ls w. intros w0 ls w1 Hrun. induction Hrun as [w0|w0 l w1 ls w2 Hstep _ IH]; intros past H0.
    { rewrite app_nil_r. split; [done|]. by intros [] ?. }
    assert (H1 : a_contexts (w_state w1) = held (past ++ [l])).
    { unfold held, succeeded in *. rewrite omap_app. destruct Hstep as [w0 now s known st' _ Hs|w0 now s _ Hs|
        w0 now s r l1 l2 st' res _ _ Hs]; cbn [omap list_omap w_state].
      - rewrite app_nil_r, <-H0. unfold begin_call in Hs. by destruct (circuit_acquire _ _ _); simplify_eq/=.
      - by rewrite app_nil_r.
      - pose proof (finish_call_state now s r (w_state w0)) as Hst. rewrite Hs in Hst. cbn [fst] in Hst. subst st'.
        destruct (reported r) as [[]|]; cbn; rewrite ?app_nil_r; [|done..]. by apply remember_lru. }
    destruct (IH _ H1) as [H2 Hall]. rewrite <-(assoc_L app) in H2. split; [done|].
    intros [|l1' l1] l2 now s known [= -> Hls].
    - rewrite app_nil_r, <-H0. inversion Hstep as [? ? ? ? st' _ Hs| |]; subst. unfold begin_call in Hs.
      destruct (circuit_acquire _ _ _); [|done]. cbn in Hs. injection Hs as <- _. apply bool_decide_eq_true.
    - rewrite cons_middle, (assoc_L app). by eapply Hall. }
  by apply (Hgen _ _ _ Hrun []).
Qed.
End Traces.

(** ** The POST with retries *)

Definition posts (evs : list event) : list (list (string * string)) :=
  omap (fun e => match e with EPost h => Some h | _ => None end) evs.
Definition observed (evs : list event) : list label :=
  omap (fun e => match e with EObserve l => Some l | _ => None end) evs.
Definition sleeps (evs : list event) : list Z :=
  omap (fun e => match e with ESleep d => Some d | _ => None end) evs.

Lemma posts_app a b : posts (a ++ b) = posts a ++ posts b.
Proof. apply omap_app. Qed.
Lemma observed_app a b : observed (a ++ b) = observed a ++ observed b.
Proof. apply omap_app. Qed.
Lemma sleeps_app a b : sleeps (a ++ b) = sleeps a ++ sleeps b.
Proof. apply omap_app. Qed.

Section PostSpec.
Variables backend_id url : string.
Variable policy : retry_policy.
Variables fast_only_ms max_response_bytes max_retries backoff_base : Z.
Variable status_ok : Z -> bool.
Variables decode_replace response_text : string -> string.

Abbreviation run_post :=
  (post_with_retry backend_id url policy fast_only_ms max_response_bytes max_retries backoff_base
     status_ok decode_replace response_text).
Abbreviation judged := (judge backend_id policy fast_only_ms max_response_bytes status_ok decode_replace response_text).

(** An answer after which the remote side may have run the turn: a status
    that asks for a retry, or a read that failed once the request was out. *)
Definition maybe_ran (a : answer) : Prop :=
  match a with
  | Response code _ BodyReadFails => code ∈ RETRYABLE_STATUS_CODES \/ status_ok code = true
  | Response code _ _ => code ∈ RETRYABLE_STATUS_CODES
  | ReadFails => True
  | _ => False
  end.

(** What may be followed by another attempt. *)
Definition may_repeat (e : attempt_env) : Prop :=
  at_answer e = SendTimesOut \/ at_answer e = ConnectFails \/
  (maybe_ran (at_answer e) /\ (policy = Always \/ elapsed_ms (at_elapsed e) <= fast_only_ms) /\
   (policy = Never -> forall code chunks fin, at_answer e = Response code chunks fin ->
      code ∉ RETRYABLE_STATUS_CODES)).

(** A text that is returned is the decoding of the whole body of an answer
    whose status is fine, within the cap if there is one. *)
Definition whole_answer (a : answer) (text : string) : Prop :=
  exists code chunks, a = Response code chunks BodyComplete /\ (code ∉ RETRYABLE_STATUS_CODES) /\
    status_ok code = true /\
    let bytes := str_join "" chunks in
    (0 < max_response_bytes -> str_len bytes <= max_response_bytes /\ text = decode_replace bytes) /\
    (max_response_bytes <= 0 -> text = response_text bytes).

Lemma read_capped_spec total acc chunks fin :
  read_capped max_response_bytes total acc chunks fin =
    if max_response_bytes <? total + str_len (str_join "" chunks)
    then (if bool_decide (chunks = []) then Some (acc, fin) else None)
    else Some (acc +:+ str_join "" chunks, fin).
Proof.
  revert total acc. induction chunks as [|c cs IH]; intros total acc; cbn [read_capped].
  - cbn. rewrite str_app_nil_r. by case_match.
  - rewrite str_join_nil_cons, str_len_app, IH, str_app_assoc.
    pose proof (Nat2Z.is_nonneg (String.length (str_join "" cs))) as Hn. fold (str_len (str_join "" cs)) in Hn.
    rewrite (bool_decide_eq_false_2 (c :: cs = [])) by done.
    destruct (max_response_bytes <? total + str_len c) eqn:E; boolp.
    + rewrite (proj2 (Z.ltb_lt _ _)) by lia. done.
    + rewrite Z.add_assoc. destruct (max_response_bytes <? _ + str_len (str_join "" cs)) eqn:E2; [|done].
      destruct cs as [|c' cs']; [|done]. boolp. change (str_len (str_join "" [])) with 0 in E2. lia.
Qed.

Lemma read_failed_retry us : read_failed backend_id policy fast_only_ms us = (LTimeout, VRetry) ->
  policy = Always \/ elapsed_ms us <= fast_only_ms.
Proof.
  unfold read_failed, refuse_read. destruct (decide (policy = Always)); [by left|].
  rewrite bool_decide_eq_false_2 by done. cbn. rewrite andb_true_r. case_match eqn:E; [done|]. boolp. by right.
Qed.

Lemma refuse_5xx_false ms : refuse_5xx policy fast_only_ms ms = false ->
  (policy = Always \/ ms <= fast_only_ms) /\ policy <> Never.
Proof. unfold refuse_5xx. destruct policy; intros H; boolp; naive_solver. Qed.

Lemma judge_retry e l : judged (at_answer e) (at_elapsed e) = (l, VRetry) -> may_repeat e.
Proof.
  unfold may_repeat. destruct (at_answer e) as [code chunks fin| | | | |]; cbn [judge]; intros Hj;
    try discriminate Hj; [| |by left|by right; left].
  - right; right. case_decide as Hc.
    + destruct (refuse_5xx _ _ _) eqn:E; [done|]. apply refuse_5xx_false in E as [H1 H2].
      split_and!; [|done|done]. cbn. destruct fin; [done|by left|done..].
    + destruct (status_ok code) eqn:Hok; [|done].
      assert (Hbody : forall text fin', body_ended backend_id policy fast_only_ms (at_elapsed e) text fin' = (l, VRetry) ->
        fin' = BodyReadFails /\ (policy = Always \/ elapsed_ms (at_elapsed e) <= fast_only_ms)).
      { intros text [| |msg|]; cbn [body_ended]; intros Hq; try discriminate Hq. split; [done|].
        apply read_failed_retry. revert Hq. unfold read_failed. by destruct (refuse_read _ _ _). }
      enough (fin = BodyReadFails /\ (policy = Always \/ elapsed_ms (at_elapsed e) <= fast_only_ms)) as [-> ?].
      { split_and!; [by right|done|]. intros _ ? ? ? [= <- _ _]. done. }
      revert Hj. unfold read_body. destruct (0 <? _); [|apply Hbody].
      rewrite read_capped_spec. destruct (_ <? _); [destruct (bool_decide _); [|done]|]; apply Hbody.
  - right; right. split_and!; [done| |done]. apply read_failed_retry.
    revert Hj. unfold read_failed. by destruct (refuse_read _ _ _).
Qed.

Lemma judge_return a us l text : judged a us = (l, VReturn text) -> whole_answer a text.
Proof.
  destruct a as [code chunks fin| | | | |]; cbn [judge]; try done;
    [|unfold read_failed; by destruct (refuse_read _ _ _)].
  case_decide as Hc; [by destruct (refuse_5xx _ _ _)|].
  destruct (status_ok code) eqn:Hok; [|done].
  assert (Hbody : forall t fin', body_ended backend_id policy fast_only_ms us t fin' = (l, VReturn text) ->
    fin' = BodyComplete /\ text = t).
  { intros t []; cbn; [by intros [= _ ->]|unfold read_failed; by destruct (refuse_read _ _ _)|done..]. }
  unfold read_body. destruct (0 <? max_response_bytes) eqn:E; boolp.
  - rewrite read_capped_spec. destruct (max_response_bytes <? _) eqn:Ecap; boolp.
    + destruct (bool_decide (chunks = [])) eqn:Ee; [|done]. apply bool_decide_eq_true in Ee as ->.
      change (str_len (str_join "" [])) with 0 in Ecap. lia.
    + intros [-> ->]%Hbody. exists code, chunks. split_and!; [done..|].
      cbv zeta. split; intros ?; [|lia]. split; [lia|done].
  - intros [-> ->]%Hbody. exists code, chunks. split_and!; [done..|].
    cbv zeta. split; intros ?; [lia|done].
Qed.

(** How the attempt that ends the loop accounts for its result. *)
Definition ends_with (e : attempt_env) (exhausted : Prop) (r : post_result) : Prop :=
  match r with
  | Answered text => whole_answer (at_answer e) text
  | Failed f =>
      (f = unreachable backend_id url max_retries /\ exhausted /\ may_repeat e) \/
      exists l, judged (at_answer e) (at_elapsed e) = (l, VThrow f)
  | Cancelled =>
      (may_repeat e /\ at_sleep_cancelled e = true) \/
      exists l, judged (at_answer e) (at_elapsed e) = (l, VCancel)
  end.

Definition delays (env : Z -> attempt_env) (attempt : Z) (m : nat) : list Z :=
  (fun i => retry_delay backoff_base (attempt + Z.of_nat i) (at_jitter (env (attempt + Z.of_nat i)))) <$> seq 0 m.

Lemma delays_S env attempt m :
  delays env attempt (S m) = retry_delay backoff_base attempt (at_jitter (env attempt)) :: delays env (attempt + 1) m.
Proof.
  unfold delays. cbn [seq]. rewrite fmap_cons, Z.add_0_r. f_equal. rewrite <-fmap_S_seq, <-list_fmap_compose.
  apply list_fmap_ext. intros _ i _. cbn. by replace (attempt + 1 + Z.of_nat i) with (attempt + Z.of_nat (S i)) by lia.
Qed.

Definition loop_ok (hs : list (string * string)) (env : Z -> attempt_env) (remaining : nat) (attempt : Z)
    (evs : list event) (r : post_result) : Prop :=
  exists n m, (n < remaining)%nat /\ posts evs = repeat hs (S n) /\ length (observed evs) = S n /\
    sleeps evs = delays env attempt m /\ (n <= m <= S n)%nat /\
    (forall i, (i < n)%nat -> may_repeat (env (attempt + Z.of_nat i))) /\
    ends_with (env (attempt + Z.of_nat n)) (S n = remaining) r.

Lemma loop_ok_last hs env rem attempt l r :
  ends_with (env attempt) (1%nat = S rem) r -> loop_ok hs env (S rem) attempt [EPost hs; EObserve l] r.
Proof. intros Hr. exists 0%nat, 0%nat. rewrite Z.add_0_r. split_and!; try done; lia. Qed.

Lemma loop_ok_again hs env rem attempt l d rest r :
  may_repeat (env attempt) -> d = retry_delay backoff_base attempt (at_jitter (env attempt)) ->
  loop_ok hs env rem (attempt + 1) rest r ->
  loop_ok hs env (S rem) attempt (EPost hs :: EObserve l :: ESleep d :: rest) r.
Proof.
  intros Hmay -> (n & m & Hn & Hp & Ho & Hs & Hm & Hall & Hend). exists (S n), (S m). rewrite delays_S.
  split_and!; try lia.
  - exact (f_equal (cons hs) Hp).
  - exact (f_equal S Ho).
  - exact (f_equal (cons _) Hs).
  - intros [|i] Hi; [by rewrite Z.add_0_r|].
    replace (attempt + Z.of_nat (S i)) with (attempt + 1 + Z.of_nat i) by lia. apply Hall. lia.
  - replace (attempt + Z.of_nat (S n)) with (attempt + 1 + Z.of_nat n) by lia.
    destruct r; cbn in *; [done| |done]. destruct Hend as [(? & ? & ?)|?]; [left|by right]. split_and!; [done|lia|done].
Qed.

Lemma post_loop_spec hs env remaining attempt evs r :
  (1 <= remaining)%nat -> attempt + Z.of_nat remaining = max_retries ->
  post_loop backend_id url policy fast_only_ms max_response_bytes max_retries backoff_base status_ok
    decode_replace response_text hs env remaining attempt = (evs, r) ->
  loop_ok hs env remaining attempt evs r.
Proof.
  revert attempt evs r. induction remaining as [|rem IH]; [lia|]. intros attempt evs r _ Hmax. cbn [post_loop].
  destruct (judged (at_answer (env attempt)) (at_elapsed (env attempt))) as [l v] eqn:Hj.
  destruct v as [text| |f|].
  - intros [= <- <-]. apply loop_ok_last. by eapply judge_return.
  - apply judge_retry in Hj. destruct (attempt <? max_retries - 1) eqn:Elast; boolp.
    + destruct (at_sleep_cancelled (env attempt)) eqn:Es.
      * intros [= <- <-]. exists 0%nat, 1%nat. rewrite Z.add_0_r, delays_S.
        split_and!; try done; try lia. by left.
      * destruct (post_loop _ _ _ _ _ _ _ _ _ _ _ _ rem (attempt + 1)) as [rest r1] eqn:Er. intros [= <- <-].
        apply loop_ok_again; [done..|]. apply IH; [lia|lia|done].
    + assert (rem = 0%nat) as -> by lia. cbn [post_loop]. intros [= <- <-].
      apply loop_ok_last. left. done.
  - intros [= <- <-]. apply loop_ok_last. right. by exists l.
  - intros [= <- <-]. apply loop_ok_last. right. by exists l.
Qed.

(** The POST with retries, for any behaviour of the remote side. Without
    a required token nothing is sent. Otherwise there is at least one attempt
    and at most the configured number, all with the same headers, each
    observed once; an attempt is only followed by another when the request
    was not sent, or when the remote side may have run the turn but answered
    or failed within the threshold (or the policy retries always), and a
    status is never retried under the policy that forbids it; the waits
    between attempts are the back-off, at most 30 seconds each. A text that
    is returned is the decoding of a complete body within the cap; a call
    that is not cancelled ends with one or with an error. *)
Theorem post_with_retry_safe auth_env environ traceparent env evs r :
  1 <= max_retries ->
  run_post auth_env environ traceparent env = (evs, r) ->
  match post_headers backend_id auth_env environ traceparent with
  | inl f => evs = [] /\ r = Failed f /\ environ auth_env ∈ [None; Some ""]
  | inr hs =>
      (auth_env <> "" -> exists token, token <> "" /\ environ auth_env = Some token /\
         ("Authorization", "Bearer " +:+ token) ∈ hs) /\
      exists n m, Z.of_nat (S n) <= max_retries /\ posts evs = repeat hs (S n) /\ length (observed evs) = S n /\
        sleeps evs = delays env 0 m /\ (n <= m <= S n)%nat /\ Forall (fun d => d <= 30000000) (sleeps evs) /\
        (forall i, (i < n)%nat -> may_repeat (env (Z.of_nat i))) /\
        ends_with (env (Z.of_nat n)) (Z.of_nat (S n) = max_retries) r
  end.
Proof.
  intros Hmax. unfold post_with_retry. destruct (post_headers _ _ _ _) as [f|hs] eqn:Hh.
  - intros [= <- <-]. split_and!; [done..|]. revert Hh. unfold post_headers. case_decide; [done|].
    case_decide as Ht; [|done]. intros _. destruct (environ auth_env) as [t|]; cbn in Ht; [subst t|]; set_solver.
  - intros (n & m & Hn & Hp & Ho & Hs & Hm & Hall & Hend)%post_loop_spec; [|lia..]. split.
    + intros Hne. revert Hh. unfold post_headers. rewrite decide_False by done. case_decide as Ht; [done|].
      intros [= <-]. destruct (environ auth_env) as [t|]; [|done]. exists t. split_and!; [done..|set_solver].
    + exists n, m. split_and!; try done; try lia.
      * rewrite Hs. apply Forall_fmap, Forall_true. intros i. cbn. unfold retry_delay. lia.
      * destruct r; cbn in *; [done| |done]. destruct Hend as [(? & ? & ?)|?]; [left|by right]. split_and!; [done|lia|done].
Qed.
End PostSpec.

(** ** What counts against the breaker *)

Abbreviation chars := String.list_ascii_of_string.

(** The exception texts never mention [HTTP] by accident: an id has no upper
    case, and a URL or a variable name is assumed not to contain the word. *)
Definition no_http (s : string) : Prop := str_contains "HTTP" s = false.

Lemma http_prefix_free u c rest :
  String.prefix "HTTP" u = false -> String.prefix ("HTTP 4" +:+ c) (u +:+ String " " rest) = false.
Proof.
  intros Hu. apply not_true_is_false. intros [t Ht]%startswith_spec. apply not_true_iff_false in Hu. apply Hu.
  apply startswith_spec. destruct u as [|a1 [|a2 [|a3 [|a4 u]]]]; cbn in Ht; try (by simplify_eq).
  exists u. injection Ht as -> -> -> -> _. done.
Qed.

Lemma http_free p u rest c :
  ("H"%char ∉ chars p) -> no_http u -> ("H"%char ∉ chars rest) ->
  str_contains ("HTTP 4" +:+ c) (p +:+ u +:+ String " " rest) = false.
Proof.
  intros Hp Hu Hr. change ("HTTP 4" +:+ c) with (String "H" ("TTP 4" +:+ c)). rewrite str_contains_skip by done.
  unfold no_http in Hu. induction u as [|x u IH].
  - apply str_contains_none. change (chars ("" +:+ String " " rest)) with (" "%char :: chars rest).
    rewrite elem_of_cons. by intros [?|?].
  - cbn [str_contains] in Hu. apply orb_false_iff in Hu as [H1 H2]. rewrite str_app_cons. cbn [str_contains].
    apply orb_false_iff. split; [|by apply IH]. by apply (http_prefix_free (String x u) c rest).
Qed.

Lemma client_codes_4 : Forall (fun n => exists c, "HTTP " +:+ py_str_int n = "HTTP 4" +:+ c) CLIENT_SIDE_CODES.
Proof. repeat constructor; eexists; reflexivity. Qed.

Lemma not_client_side f p u rest :
  ("H"%char ∉ chars p) -> no_http u -> ("H"%char ∉ chars rest) ->
  f_message f = p +:+ u +:+ String " " rest -> is_client_side f = false.
Proof.
  intros Hp Hu Hr Hm. apply not_true_is_false. intros Hc. apply existsb_exists in Hc as (n & Hn & Hc).
  pose proof client_codes_4 as Hall. rewrite Forall_forall in Hall.
  destruct (Hall n) as [c Hcode]; [by apply list_elem_of_In|]. rewrite Hm, Hcode, http_free in Hc; done.
Qed.

Lemma status_codes_recognised :
  forallb (fun code => Bool.eqb
    (existsb (fun n => str_contains ("HTTP " +:+ py_str_int n) ("HTTP " +:+ py_str_int code)) CLIENT_SIDE_CODES)
    (bool_decide (code ∈ CLIENT_SIDE_CODES))) (seqZ 100 900) = true.
Proof. vm_compute. reflexivity. Qed.

Lemma valid_id_no_H id : valid_id id = true -> "H"%char ∉ chars id.
Proof.
  unfold valid_id. destruct (head (chars id)), (last (chars id)); try done. intros H Hin. apply andb_true_iff in H as [_ H].
  rewrite forallb_forall in H. apply list_elem_of_In in Hin. by specialize (H _ Hin).
Qed.

Lemma prefix_no_H id : valid_id id = true -> "H"%char ∉ chars (prefix_message id).
Proof.
  intros Hid%valid_id_no_H. unfold prefix_message. rewrite !elem_of_app_chars. cbn [String.list_ascii_of_string].
  intros [?|[?|?]]; set_solver.
Qed.

Lemma existsb_eq {A} (f g : A -> bool) l : (forall x, f x = g x) -> existsb f l = existsb g l.
Proof. intros H. induction l as [|x l IH]; [done|]. cbn. by rewrite H, IH. Qed.

Lemma status_client_side id code f :
  valid_id id = true -> 100 <= code < 1000 -> f_message f = returned_http id code ->
  is_client_side f = bool_decide (code ∈ CLIENT_SIDE_CODES).
Proof.
  intros Hid Hc Hm. pose proof status_codes_recognised as Hall. rewrite forallb_forall in Hall.
  specialize (Hall code). rewrite <-list_elem_of_In, elem_of_seqZ in Hall.
  specialize (Hall ltac:(lia)). apply Bool.eqb_prop in Hall. rewrite <-Hall. unfold is_client_side.
  apply existsb_eq. intros n. rewrite Hm. unfold returned_http.
  change (" returned HTTP " +:+ py_str_int code) with (" returned " +:+ ("HTTP " +:+ py_str_int code)).
  change ("HTTP " +:+ py_str_int n) with (String "H" ("TTP " +:+ py_str_int n)).
  rewrite str_contains_skip by by apply prefix_no_H. apply str_contains_skip. cbn. set_solver.
Qed.

Lemma py_str_int_no_H z : "H"%char ∉ chars (py_str_int z).
Proof.
  unfold py_str_int. destruct (Z.to_int z); cbn [NilZero.string_of_int].
  - apply digits_no_char; [apply nz_string_of_uint_digits|done].
  - change (chars (String ?a ?s)) with (a :: chars s). rewrite elem_of_cons. intros [?|H]; [done|]. revert H.
    apply digits_no_char; [apply nz_string_of_uint_digits|done].
Qed.

(** The last attempt was answered with a status that blames the request. *)
Definition request_rejected (status_ok : Z -> bool) (a : answer) : bool :=
  match a with
  | Response code _ _ => bool_decide (code ∈ CLIENT_SIDE_CODES) && negb (status_ok code)
  | _ => false
  end.

Section Counting.
Variables backend_id url : string.
Variable policy : retry_policy.
Variables fast_only_ms max_response_bytes max_retries backoff_base : Z.
Variable status_ok : Z -> bool.
Variables decode_replace response_text : string -> string.
Hypothesis id_valid : valid_id backend_id = true.
Hypothesis url_plain : no_http url.

Abbreviation run_post :=
  (post_with_retry backend_id url policy fast_only_ms max_response_bytes max_retries backoff_base
     status_ok decode_replace response_text).

Lemma unreachable_counted : is_client_side (unreachable backend_id url max_retries) = false.
Proof.
  eapply (not_client_side _ (prefix_message backend_id +:+ " unreachable at ") url
            ("after " +:+ py_str_int max_retries +:+ " attempts")); [|done| |].
  - rewrite elem_of_app_chars. intros [H|H]; [by apply (prefix_no_H _ id_valid)|]. cbn in H. set_solver.
  - rewrite !elem_of_app_chars. intros [H|[H|H]]; [cbn in H; set_solver|by apply py_str_int_no_H in H|cbn in H; set_solver].
  - cbn. by rewrite !str_app_assoc.
Qed.

Lemma may_repeat_not_rejected e :
  may_repeat policy fast_only_ms status_ok e -> request_rejected status_ok (at_answer e) = false.
Proof.
  unfold may_repeat, request_rejected. destruct (at_answer e) as [code chunks fin| | | | |]; try done.
  intros [?|[?|[Hm _]]]; try done.
  assert (Hr : code ∈ RETRYABLE_STATUS_CODES -> code ∉ CLIENT_SIDE_CODES)
    by (unfold RETRYABLE_STATUS_CODES, CLIENT_SIDE_CODES; set_solver by lia).
  destruct fin; cbn in Hm; (rewrite bool_decide_eq_false_2 by auto; done) || idtac.
  destruct Hm as [Hm|Hm]; [by rewrite bool_decide_eq_false_2 by auto|]. by rewrite Hm, andb_false_r.
Qed.

Lemma judge_throw a us l f :
  (forall code chunks fin, a = Response code chunks fin -> 100 <= code < 1000) ->
  judge backend_id policy fast_only_ms max_response_bytes status_ok decode_replace response_text a us = (l, VThrow f) ->
  counted f = match f_class f with
              | FSlowFiveXX | FSlowRead => false
              | FOther => negb (is_client_side f)
              | _ => negb (request_rejected status_ok a)
              end /\
  (is_policy_refusal f = true -> maybe_ran status_ok a).
Proof.
  intros Hcode. unfold counted.
  assert (Hread : forall us l, read_failed backend_id policy fast_only_ms us = (l, VThrow f) ->
            f_class f = FSlowRead).
  { intros us' l'. unfold read_failed. destruct (refuse_read _ _ _); [|done]. by intros [= _ <-]. }
  destruct a as [code chunks fin| | | | |]; cbn [judge]; try done.
  - specialize (Hcode code chunks fin eq_refl). case_decide as Hr.
    { destruct (refuse_5xx _ _ _); [|done]. intros [= _ <-]. cbn. rewrite andb_false_r. split; [done|].
      intros _. destruct fin; [done|by left|done..]. }
    destruct (status_ok code) eqn:Hok.
    + assert (Hbody : forall t fin', body_ended backend_id policy fast_only_ms us t fin' = (l, VThrow f) ->
        (fin' = BodyReadFails /\ f_class f = FSlowRead) \/ f_class f = FOther).
      { intros t []; cbn; try done; [intros H; left; split; [done|by eapply Hread]|]. intros [= _ <-]. by right. }
      assert (Hgoal : (fin = BodyReadFails /\ f_class f = FSlowRead) \/ f_class f = FOther ->
        negb (is_client_side f) && negb (is_policy_refusal f) =
          match f_class f with FSlowFiveXX | FSlowRead => false | FOther => negb (is_client_side f)
          | _ => negb (request_rejected status_ok (Response code chunks fin)) end /\
        (is_policy_refusal f = true -> maybe_ran status_ok (Response code chunks fin))).
      { unfold is_policy_refusal. intros [[-> ->]| ->]; rewrite ?andb_false_r, ?andb_true_r; split; try done.
        intros _. by right. }
      unfold read_body. destruct (0 <? _) eqn:Ecap; [|intros H%Hbody; auto]. rewrite read_capped_spec.
      destruct (max_response_bytes <? _); [destruct (bool_decide (chunks = []))|];
        [by intros H%Hbody; auto| |by intros H%Hbody; auto].
      intros [= _ <-]. cbn [f_class is_policy_refusal request_rejected]. rewrite Hok, andb_false_r. split; [|done].
      rewrite (not_client_side _ (prefix_message backend_id) ""
                 ("response exceeds A2A_MAX_RESPONSE_BYTES=" +:+ py_str_int max_response_bytes)); [done| | | |done].
      * by apply prefix_no_H.
      * reflexivity.
      * rewrite elem_of_app_chars. intros [H|H]; [cbn in H; set_solver|by apply py_str_int_no_H in H].
    + intros [= _ <-]. cbn [f_class is_policy_refusal request_rejected]. rewrite Hok, !andb_true_r. split; [|done].
      by rewrite (status_client_side backend_id code).
  - intros H%Hread. unfold is_policy_refusal. by rewrite H, andb_false_r.
  - intros [= _ <-]. cbn. by rewrite andb_true_r.
Qed.

(** What counts as an outage. Of the failures of a POST, those of a
    missing token, of exhausted attempts and of an oversized body always
    count against the breaker; a refused repetition never does, and is only
    raised when the remote side may have run the turn; an answer whose status
    is not accepted counts exactly when its code is not one of the listed
    client errors. (An exception of httpx counts by its text.) *)
Theorem outages_counted auth_env environ traceparent env evs f :
  no_http auth_env ->
  1 <= max_retries ->
  (forall i code chunks fin, at_answer (env i) = Response code chunks fin -> 100 <= code < 1000) ->
  run_post auth_env environ traceparent env = (evs, Failed f) ->
  (posts evs = [] -> counted f = true) /\
  (forall n, length (posts evs) = S n ->
     let last := at_answer (env (Z.of_nat n)) in
     counted f = match f_class f with
                 | FSlowFiveXX | FSlowRead => false
                 | FOther => negb (is_client_side f)
                 | _ => negb (request_rejected status_ok last)
                 end /\
     (is_policy_refusal f = true -> maybe_ran status_ok last)).
Proof.
  intros Hauth Hmax Hcodes. unfold post_with_retry. destruct (post_headers _ _ _ _) as [g|hs] eqn:Hh.
  - intros [= <- <-]. split; [intros _|done]. revert Hh. unfold post_headers. case_decide; [done|].
    case_decide; [|done]. intros [= <-]. unfold counted.
    rewrite (not_client_side _ (prefix_message backend_id +:+ " auth_env=") auth_env
      ("is unset or empty - refusing to send unauthenticated request. Fix the env var or clear auth_env "
       +:+ "in backend config if auth is not required.")); [done| |done| |].
    + rewrite elem_of_app_chars. intros [Hx|Hx]; [by apply (prefix_no_H _ id_valid)|]. cbn in Hx. set_solver.
    + cbn. set_solver.
    + cbn [f_message]. unfold prefix_message. rewrite !str_app_assoc. reflexivity.
  - intros (n & m & Hn & Hp & _ & _ & _ & _ & Hend)%post_loop_spec; [|lia..]. rewrite Hp.
    split; [done|]. intros n'. rewrite repeat_length. intros [= <-]. cbv zeta. cbn [ends_with] in Hend.
    rewrite Z.add_0_l in Hend. destruct Hend as [(-> & _ & Hmay)|[l Hj]].
    + unfold counted. rewrite unreachable_counted. cbn. by rewrite (may_repeat_not_rejected _ Hmay).
    + eapply judge_throw; [|done]. intros code chunks fin. apply Hcodes.
Qed.
End Counting.

(** ** The texts of an answer *)

(** A text part, and an artifact or message made of text parts. *)
Definition is_text_part (p : pyval) (t : string) : Prop :=
  exists d, p = VDict d /\ dict_get d "kind" = Some (VStr "text") /\ dict_get d "text" = Some (VStr t) /\ t <> "".

Definition has_text_parts (d : pydict) (ts : list string) : Prop :=
  exists ps, dict_get d "parts" = Some (VList ps) /\ Forall2 is_text_part ps ts.

Lemma or_empty_list l : iterate (or_empty (VList l)) = Ok l.
Proof. by destruct l. Qed.

Lemma parts_texts_ok text_of d ts :
  (forall p t, is_text_part p t -> text_of p = [VStr t]) ->
  has_text_parts d ts -> parts_texts text_of d = Ok (VStr <$> ts).
Proof.
  intros Hof (ps & Hps & Hall). unfold parts_texts, dict_get_none. rewrite Hps.
  change (default VNone (Some (VList ps))) with (VList ps). rewrite or_empty_list.
  cbn. f_equal. clear Hps. induction Hall as [|p t ps ts Hp _ IH]; [done|]. cbn. by rewrite (Hof p t Hp), IH.
Qed.

Lemma part_text_ok p t : is_text_part p t -> part_text p = [VStr t].
Proof.
  intros (d & -> & _ & Ht & Hne). cbn. unfold dict_get_none. rewrite Ht. cbn. by rewrite decide_False.
Qed.

Lemma message_part_text_ok p t : is_text_part p t -> message_part_text p = [VStr t].
Proof.
  intros (d & -> & Hk & Ht & Hne). cbn. unfold dict_get_none. rewrite Hk, Ht. cbn.
  by rewrite !bool_decide_eq_true_2.
Qed.

Lemma artifacts_ok arts tss :
  Forall2 (fun a ts => exists d, a = VDict d /\ has_text_parts d ts) arts tss ->
  collect_dicts (parts_texts part_text) arts = Ok (VStr <$> concat tss).
Proof.
  induction 1 as [|a ts arts tss (d & -> & Hd) _ IH]; [done|]. cbn [collect_dicts].
  rewrite (parts_texts_ok _ _ _ part_text_ok Hd). cbn. rewrite IH. cbn. by rewrite fmap_app.
Qed.

(** What the collectors return is worth returning, and they fail only on
    parts or messages that cannot be iterated. *)
Definition sound (r : res (list pyval)) : Prop :=
  match r with Ok ts => Forall (fun t => truthy t = true) ts | Raise e => e = TypeError end.

Lemma sound_bind r k : sound r -> (forall ts, Forall (fun t => truthy t = true) ts -> sound (k ts)) -> sound (ts <-- r ;; k ts).
Proof. destruct r; cbn; auto. Qed.

Lemma iterate_raises v e : iterate v = Raise e -> e = TypeError.
Proof. destruct v; cbn; congruence. Qed.

Lemma parts_texts_sound text_of d :
  (forall p, Forall (fun t => truthy t = true) (text_of p)) -> sound (parts_texts text_of d).
Proof.
  intros Hof. unfold parts_texts. destruct (iterate _) as [ps|e] eqn:E; cbn; [|by apply iterate_raises in E].
  clear E. induction ps as [|p ps IH]; [constructor|]. cbn. apply Forall_app. split; [apply Hof|done].
Qed.

Lemma part_text_sound p : Forall (fun t => truthy t = true) (part_text p).
Proof.
  unfold part_text. destruct p; try constructor. destruct (dict_get_none d "text"); try constructor.
  case_decide; constructor; [by apply bool_decide_eq_true|constructor].
Qed.

Lemma message_part_text_sound p : Forall (fun t => truthy t = true) (message_part_text p).
Proof.
  unfold message_part_text. destruct p; try constructor. destruct (is_text _ _); [|constructor].
  cbv zeta. destruct (truthy _) eqn:E; by repeat constructor.
Qed.

Lemma collect_dicts_sound f vs : (forall d, sound (f d)) -> sound (collect_dicts f vs).
Proof.
  intros Hf. induction vs as [|v vs IH]; [constructor|]. cbn. destruct v; try done.
  apply sound_bind; [apply Hf|]. intros ts Hts. apply sound_bind; [done|]. intros us Hus. by apply Forall_app.
Qed.

Lemma collect_from_artifacts_sound d : sound (collect_from_artifacts d).
Proof.
  unfold collect_from_artifacts. destruct (dict_get_none d "artifacts"); try constructor.
  apply collect_dicts_sound. intros d'. apply parts_texts_sound, part_text_sound.
Qed.

Lemma or_else_sound ts k : Forall (fun t => truthy t = true) ts -> sound k -> sound (or_else ts k).
Proof. by destruct ts. Qed.

Lemma legacy_messages_sound d : sound (legacy_messages d).
Proof.
  unfold legacy_messages. cbv zeta. destruct (iterate _) as [ms|e] eqn:E; cbn; [|by apply iterate_raises in E].
  apply collect_dicts_sound. intros d'. apply parts_texts_sound, message_part_text_sound.
Qed.

Lemma direct_text_sound d : Forall (fun t => truthy t = true) (direct_text d).
Proof.
  unfold direct_text. destruct (if truthy _ then _ else _); try constructor.
  case_decide; constructor; [by apply bool_decide_eq_true|constructor].
Qed.

(** The texts taken from an answer. A task whose artifacts consist of
    text parts gives exactly these texts, in order, whatever else the answer
    holds; so does a message of text parts, when there is no task beside it.
    In general no empty text is ever returned, and the only failures are an
    answer that is not an object and parts or messages that are not a
    collection. *)
Theorem extract_text_spec d :
  (forall arts tss, dict_get d "artifacts" = Some (VList arts) ->
     Forall2 (fun a ts => exists a', a = VDict a' /\ has_text_parts a' ts) arts tss -> concat tss <> [] ->
     extract_text (VDict d) = Ok (VStr <$> concat tss)) /\
  (forall ts, dict_get d "artifacts" = None -> dict_get d "result" = None ->
     dict_get d "kind" = Some (VStr "message") -> has_text_parts d ts -> ts <> [] ->
     extract_text (VDict d) = Ok (VStr <$> ts)) /\
  (forall v ts, extract_text v = Ok ts -> Forall (fun t => truthy t = true) ts) /\
  (forall v e, extract_text v = Raise e -> (e = AttributeError /\ is_dict v = false) \/ e = TypeError).
Proof.
  assert (Hsound : forall d', sound (extract_text (VDict d'))).
  { intros d'. cbn [extract_text].
    apply sound_bind; [apply collect_from_artifacts_sound|]. intros t1 H1. apply or_else_sound; [done|].
    apply sound_bind; [unfold nested_artifacts; destruct (dict_get_none d' "result"); try constructor;
      apply collect_from_artifacts_sound|]. intros t2 H2. apply or_else_sound; [done|].
    apply sound_bind; [unfold own_parts; destruct (is_text _ _); [|constructor];
      apply parts_texts_sound, message_part_text_sound|]. intros t3 H3. apply or_else_sound; [done|].
    apply sound_bind; [apply legacy_messages_sound|]. intros t4 H4. apply or_else_sound; [done|].
    apply direct_text_sound. }
  split_and!.
  - intros arts tss Ha Hall Hne. cbn [extract_text]. unfold collect_from_artifacts, dict_get_none at 1.
    rewrite Ha. change (default VNone (Some (VList arts))) with (VList arts). cbv beta iota. rewrite (artifacts_ok _ _ Hall). cbn. by destruct (concat tss).
  - intros ts Ha Hr Hk Hp Hne. cbn [extract_text].
    unfold collect_from_artifacts, nested_artifacts, own_parts, dict_get_none. rewrite Ha, Hr, Hk. cbn.
    rewrite (parts_texts_ok _ _ _ message_part_text_ok Hp). cbn. by destruct ts.
  - intros v ts He. destruct v as [| | | | | |d']; try done. specialize (Hsound d'). by rewrite He in Hsound.
  - intros v e. destruct v as [| | | | | |d']; try (intros [= <-]; by left). intros He. right.
    specialize (Hsound d'). by rewrite He in Hsound.
Qed.

(** ** Identity *)

Lemma str_map_inj f a b :
  (forall x y, x ∈ chars a -> y ∈ chars b -> f x = f y -> x = y) -> str_map f a = str_map f b -> a = b.
Proof.
  revert b. induction a as [|x a IH]; intros [|y b] Hf; cbn; try done. intros [= Hxy Hab].
  rewrite (Hf x y) by (done || by left). f_equal. apply IH; [|done]. intros u v Hu Hv. apply Hf; by right.
Qed.

Lemma str_map_map f g a : str_map f (str_map g a) = str_map (fun c => f (g c)) a.
Proof. induction a as [|x a IH]; [done|]. cbn. by rewrite IH. Qed.

Lemma id_chars_distinct :
  forallb (fun x => forallb (fun y => implb (id_char x && id_char y
      && bool_decide (hyphen_to_underscore (upper_char x) = hyphen_to_underscore (upper_char y)))
    (bool_decide (x = y))) (ascii_of_nat <$> seq 0 128)) (ascii_of_nat <$> seq 0 128) = true.
Proof. vm_compute. reflexivity. Qed.

Lemma valid_id_chars id c : valid_id id = true -> c ∈ chars id -> id_char c = true.
Proof.
  unfold valid_id. destruct (head (chars id)), (last (chars id)); try done. intros H Hin.
  apply andb_true_iff in H as [_ H]. rewrite forallb_forall in H. by apply H, list_elem_of_In.
Qed.

Lemma id_char_ascii c : id_char c = true -> c ∈ ascii_of_nat <$> seq 0 128.
Proof.
  intros Hc. apply list_elem_of_fmap. exists (nat_of_ascii c). split; [by rewrite ascii_nat_embedding|].
  apply elem_of_seq. unfold nat_of_ascii. unfold id_char, id_end, is_digit, code in Hc.
  destruct (decide (c = "-"%char)) as [->|Hne]; [cbn; lia|]. rewrite bool_decide_eq_false_2, orb_false_r in Hc by done.
  apply orb_true_iff in Hc as [Hc|Hc]; apply andb_true_iff in Hc as [?%Z.leb_le ?%Z.leb_le];
    destruct (N_of_ascii c); lia.
Qed.

(** An accepted id is non-empty text of lower-case letters, digits and
    inner hyphens; two accepted ids never share the environment variable that
    overrides their URL; and an instance always has a URL, the variable's
    before the configured one. *)
Theorem backend_identity environ id id' url config_url :
  (valid_id id = true -> valid_id id' = true -> url_env_var id = url_env_var id' -> id = id') /\
  (init_url environ id config_url = Ok url <->
     valid_id id = true /\ url <> "" /\
     (environ (url_env_var id) = Some url \/
      (default "" (environ (url_env_var id)) = "" /\ config_url = Some url))) /\
  (forall e, init_url environ id config_url = Raise e -> e = ValueError).
Proof.
  split_and!.
  - intros H1 H2 Heq. unfold url_env_var in Heq. injection Heq as Heq. unfold str_upper in Heq.
    rewrite !str_map_map in Heq. revert Heq. apply str_map_inj. intros x y Hx Hy Hxy.
    apply (valid_id_chars _ _ H1) in Hx. apply (valid_id_chars _ _ H2) in Hy.
    pose proof id_chars_distinct as Hall. rewrite forallb_forall in Hall.
    specialize (Hall x (proj1 (list_elem_of_In _ _) (id_char_ascii x Hx))). rewrite forallb_forall in Hall.
    specialize (Hall y (proj1 (list_elem_of_In _ _) (id_char_ascii y Hy))).
    rewrite Hx, Hy, (bool_decide_eq_true_2 _ Hxy) in Hall. by apply bool_decide_eq_true in Hall.
  - unfold init_url. destruct (valid_id id); cbn; [|naive_solver].
    destruct (environ (url_env_var id)) as [u|]; cbn; repeat case_decide; destruct config_url as [c|]; cbn in *;
      naive_solver.
  - intros e. unfold init_url. repeat case_match; congruence.
Qed.

(** ** Examples and witnesses *)

Definition example_json (text : string) : res pyval :=
  if decide (text = "ok") then Ok (VDict (mk_dict [("result", VDict (mk_dict [("text", VStr "hi")]))]))
  else if decide (text = "[]") then Ok (VList []) else Raise ValueError.

Definition refused_connection : post_result := Failed (unreachable "claude" "http://b:8000" 3).

(** A threshold of one failure and a cool-off of ten microseconds. *)
Abbreviation example_begin := (begin_call 10).
Abbreviation example_finish := (finish_call "claude" 1 2 example_json).
Abbreviation example_step := (a2a_step "claude" 1 10 2 example_json).

Definition example_trace : list step_label :=
  [Began 0 "s" false; Ended 1 "s" refused_connection; Refused 5; Began 11 "s" false;
   Ended 12 "s" (Answered "ok"); Began 13 "s" true].

Lemma example_run : exists w, runs example_step initial_world example_trace w /\
  c_state (a_circuit (w_state w)) = Closed.
Proof.
  eexists. split; [|shelve].
  eapply runs_cons; [eapply (step_began _ _ _ _ _ _ 0 "s"); [cbn; lia|reflexivity]|].
  eapply runs_cons; [eapply (step_ended _ _ _ _ _ _ 1 "s" refused_connection [] []); [cbn; lia|reflexivity..]|].
  eapply runs_cons; [eapply (step_refused _ _ _ _ _ _ 5 "s"); [cbn; lia|reflexivity]|].
  eapply runs_cons; [eapply (step_began _ _ _ _ _ _ 11 "s"); [cbn; lia|reflexivity]|].
  eapply runs_cons; [eapply (step_ended _ _ _ _ _ _ 12 "s" (Answered "ok") [] []); [cbn; lia|reflexivity..]|].
  eapply runs_cons; [eapply (step_began _ _ _ _ _ _ 13 "s"); [cbn; lia|reflexivity]|].
  apply runs_nil. Unshelve. reflexivity.
Qed.


Lemma context_ids_exact_witness :
  exists w, a_contexts (w_state w) = ["s"].
Proof.
  destruct example_run as (w & Hrun & _). exists w.
  destruct (context_ids_exact "claude" 1 10 2 example_json example_trace w ltac:(lia) Hrun) as (H & _).
  rewrite H. vm_compute. reflexivity.
Defined.

(** A slow gateway error after a fast one. *)
Definition example_env (i : Z) : attempt_env :=
  if i =? 0 then mk_attempt (Response 503 [] BodyComplete) 40000 250000 false
  else mk_attempt (Response 502 [] BodyComplete) 9000000 0 false.

Definition example_post (policy : retry_policy) (environ : string -> option string) : list event * post_result :=
  post_with_retry "claude" "http://b:8000" policy 5000 100 3 1000000 (fun c => (200 <=? c) && (c <? 300)) id id
    "TOKEN" environ None example_env.

Lemma post_with_retry_safe_witness :
  exists evs f, example_post FastOnly (fun _ => Some "t") = (evs, Failed f) /\ f_class f = FSlowFiveXX /\
    length (posts evs) = 2%nat /\ length (observed evs) = 2%nat /\ sleeps evs = [1250000].
Proof.
  destruct (example_post FastOnly (fun _ => Some "t")) as [evs r] eqn:E.
  pose proof (post_with_retry_safe "claude" "http://b:8000" FastOnly 5000 100 3 1000000
    (fun c => (200 <=? c) && (c <? 300)) id id "TOKEN" (fun _ => Some "t") None example_env evs r ltac:(lia) E) as H.
  vm_compute in E. injection E as <- <-. eexists _, _. split; [reflexivity|].
  destruct H as (_ & n & m & _ & Hp & Ho & _).
  split; [vm_compute; reflexivity|]. split; [vm_compute; reflexivity|]. split; [|vm_compute; reflexivity].
  rewrite Ho. apply (f_equal length) in Hp. rewrite repeat_length in Hp. rewrite <-Hp. reflexivity.
Defined.

Lemma outages_counted_witness :
  exists evs f, example_post FastOnly (fun _ => None) = (evs, Failed f) /\ counted f = true.
Proof.
  eexists _, _. split; [reflexivity|].
  refine (proj1 (outages_counted "claude" "http://b:8000" FastOnly 5000 100 3 1000000
    (fun c => (200 <=? c) && (c <? 300)) id id _ _ "TOKEN" (fun _ => None) None example_env [] _ _ _ _ _) _);
    try reflexivity; [lia|].
  intros i code chunks fin. unfold example_env. destruct (i =? 0); cbn; intros [= <- <- <-]; lia.
Defined.

Definition example_task : pydict :=
  mk_dict [("artifacts", VList
    [VDict (mk_dict [("parts", VList [VDict (mk_dict [("kind", VStr "text"); ("text", VStr "a")])])]);
     VDict (mk_dict [("parts", VList [VDict (mk_dict [("kind", VStr "text"); ("text", VStr "b")])])])])].

Lemma extract_text_spec_witness : extract_text (VDict example_task) = Ok [VStr "a"; VStr "b"].
Proof.
  refine (proj1 (extract_text_spec example_task) _ [["a"]; ["b"]] eq_refl _ ltac:(discriminate)).
  repeat constructor; eexists; (split; [reflexivity|]); eexists; (split; [reflexivity|]);
    repeat constructor; eexists; split_and!; try reflexivity; discriminate.
Defined.

Lemma backend_identity_witness : "iris-claude" = "iris-claude" /\
  init_url (fun v => if decide (v = "A2A_URL_IRIS_CLAUDE") then Some "http://x" else None) "iris-claude" (Some "http://y")
    = Ok "http://x".
Proof.
  pose proof (backend_identity (fun v => if decide (v = "A2A_URL_IRIS_CLAUDE") then Some "http://x" else None)
    "iris-claude" "iris-claude" "http://x" (Some "http://y")) as (H1 & H2 & _).
  split; [by apply H1|]. apply H2. split_and!; [reflexivity|discriminate|left; reflexivity].
Defined.

(** While the breaker is half open every call is admitted, not one probe. *)
Example half_open_admits_all :
  let st := mk_a2a (mk_breaker HalfOpen 5 0) [] in
  exists st1 st2, example_begin 1 "a" st = Some (false, st1) /\ example_begin 1 "b" st1 = Some (false, st2).
Proof. eexists _, _. split; reflexivity. Qed.

(** A success of an earlier call closes the breaker during its cool-off. *)
Example late_success_closes :
  let st := mk_a2a (mk_breaker Open 1 100) [] in
  example_begin 101 "a" st = None /\ exists st', (example_finish 101 "b" (Answered "ok") st).1 = st' /\
    exists st'', example_begin 101 "a" st' = Some (false, st'').
Proof. split; [reflexivity|]. eexists. split; [reflexivity|]. eexists. reflexivity. Qed.

(** Under the policy that forbids retries a prompt gateway error is a refusal
    that never counts, so such a backend keeps its breaker closed. *)
Example never_policy_never_counts :
  exists evs f, example_post Never (fun _ => Some "t") = (evs, Failed f) /\
    f_class f = FSlowFiveXX /\ counted f = false.
Proof. eexists _, _. split; [reflexivity|]. split; vm_compute; reflexivity. Qed.

(** An answer that is JSON but no object is an error the breaker never hears
    of. *)
Example json_array_unrecorded st :
  example_finish 1 "s" (Answered "[]") st = (st, Raised (mk_failure (FExn AttributeError) "")).
Proof. reflexivity. Qed.

(** A cancelled attempt, and one cut off by the size cap, are observed as
    [ok]. *)
Example misleading_observations :
  (judge "c" FastOnly 5000 3 (fun _ => true) id id IsCancelled 10).1 = LOk /\
  (judge "c" FastOnly 5000 3 (fun _ => true) id id (Response 200 ["abcd"] BodyComplete) 10).1 = LOk.
Proof. split; reflexivity. Qed.

(** Client errors outside the list count as outages. *)
Example payment_required_counts :
  counted (mk_failure FConnection (returned_http "c" 402)) = true /\
  counted (mk_failure FConnection (returned_http "c" 401)) = false.
Proof. split; vm_compute; reflexivity. Qed.

(** With a short task timeout the HTTP timeout is not the shorter one. *)
Example http_timeout_not_shorter : http_timeout 10 = 10 /\ http_timeout 5 = 10.
Proof. split; reflexivity. Qed.
