(* ===== verification/Background.v ===== *)
(** * Background tasks (harness/executor.py, [track_background] and
    [drain_background])

    The bounded set of fire-and-forget tasks: the two caps by the priority of
    the source, the rate-limited warnings about shed tasks, and the drain at
    shutdown, cut at its await.  [os.environ] is an argument, read at every
    call; the monotonic clock gives microseconds. *)
From Stdlib Require Import Ascii.
From S2P Require Import Prelude PyStr PyVal Utils.

Definition DEFAULT_CRITICAL_SOURCES : string := "webhook,webhook_retry,hook_decision,continuation".

Section Settings.
Variable environ : string -> option string.
(** [BACKGROUND_TASKS_MAX] *)
Variable tasks_max : Z.

Definition critical_sources : list string :=
  filter (fun s => s <> "")
    (str_strip <$> str_split "," (default DEFAULT_CRITICAL_SOURCES (environ "BACKGROUND_TASK_CRITICAL_SOURCES"))).

(** [None]: [int] raises [ValueError]. *)
Definition critical_cap : option Z :=
  match environ "BACKGROUND_TASKS_CRITICAL_MAX" with
  | None => Some (tasks_max * 2)
  | Some raw => py_int raw
  end.

Definition is_critical (source : string) : bool := bool_decide (source ∈ critical_sources).

Definition effective_cap (source : string) : option Z :=
  cap ← critical_cap; Some (if is_critical source then cap else tasks_max).
End Settings.

(** ** The warnings about shed tasks *)

Inductive warning : Type :=
| Shedding (source : string) (in_flight cap : Z) (critical : bool) (occupants : list (string * Z))
| Summary (source : string) (suppressed : Z)
| FirstShed (source : string) (session caller : option string).

(** [_background_shed_log_state]: the start of the window of each source and
    what was suppressed in it. *)
Abbreviation shed_log := (gmap string (Z * Z)).

(** [window] is [BACKGROUND_SHED_LOG_WINDOW_SEC]. *)
Definition log_shed (window now : Z) (source : string) (session caller : option string) (log : shed_log)
  : list warning * shed_log :=
  match log !! source with
  | Some (start, suppressed) =>
      if window <=? now - start
      then ((if 0 <? suppressed then [Summary source suppressed] else []) ++ [FirstShed source session caller],
            <[source := (now, 0)]> log)
      else ([], <[source := (start, suppressed + 1)]> log)
  | None => ([FirstShed source session caller], <[source := (now, 0)]> log)
  end.

(** ** Tracking *)

Record background : Type := mk_background {
  (** [_background_tasks], each with its name *)
  bg_tasks : gmap nat string;
  bg_log : shed_log;
  bg_next : nat;
  (** ghost: the tasks that run *)
  bg_live : gset nat;
  (** the tasks a drain waits for *)
  bg_draining : option (gset nat)
}.

Definition new_background : background := mk_background ∅ ∅ 0 ∅ None.

(** [get_name().removeprefix("bg-")] *)
Definition task_label (name : string) : string :=
  if startswith "bg-" name then str_drop 3 name else name.

Definition occupants (tasks : gmap nat string) : list (string * Z) :=
  foldl (fun acc kv => let n := task_label kv.2 in od_set acc n (default 0 (od_get acc n) + 1)) [] (map_to_list tasks).

Section Track.
Variable environ : string -> option string.
Variable tasks_max window now : Z.

(** The task, or [None] when it is shed; the warnings in order. *)
Definition track_background (b : background) (source : string) (name session caller : option string)
  : res (option nat) * background * list warning :=
  match effective_cap environ tasks_max source with
  | None => (Raise ValueError, b, [])
  | Some cap =>
      let n := Z.of_nat (size (bg_tasks b)) in
      if cap <=? n then
        let '(ws, log) := log_shed window now source session caller (bg_log b) in
        (Ok None, mk_background (bg_tasks b) log (bg_next b) (bg_live b) (bg_draining b),
         Shedding source n cap (is_critical environ source) (occupants (bg_tasks b)) :: ws)
      else
        let t := bg_next b in
        (Ok (Some t),
         mk_background (<[t := default ("bg-" +:+ source) name]> (bg_tasks b)) (bg_log b) (S t) ({[t]} ∪ bg_live b)
           (bg_draining b),
         [])
  end.
End Track.

(** The done-callback. *)
Definition on_done (b : background) (t : nat) : background :=
  mk_background (delete t (bg_tasks b)) (bg_log b) (bg_next b) (bg_live b ∖ {[t]}) (bg_draining b).

(** [drain_background]: every task that is tracked is cancelled and waited
    for; then the set is cleared. *)
Definition drain_begin (b : background) : background :=
  mk_background (bg_tasks b) (bg_log b) (bg_next b) (bg_live b) (Some (dom (bg_tasks b))).

Definition drain_end (b : background) : background :=
  mk_background ∅ (bg_log b) (bg_next b) (bg_live b) None.

Inductive bg_label : Type :=
| Tracked (now : Z) (source : string) (r : res (option nat)) (ws : list warning)
| Finished (t : nat)
| DrainBegins
| DrainEnds.

Section Steps.
Variable environ : string -> option string.
Variable tasks_max window : Z.

Inductive bg_step : background -> bg_label -> background -> Prop :=
| bs_track b now source name session caller r b' ws :
    track_background environ tasks_max window now b source name session caller = (r, b', ws) ->
    bg_step b (Tracked now source r ws) b'
| bs_done b t : t ∈ bg_live b -> bg_step b (Finished t) (on_done b t)
| bs_drain b : bg_draining b = None -> bg_step b DrainBegins (drain_begin b)
| bs_drained b p : bg_draining b = Some p -> p ∩ bg_live b = ∅ -> bg_step b DrainEnds (drain_end b).
End Steps.

(** ** Lemmas: the set *)

(** The larger of the caps. *)
Definition hard_cap (environ : string -> option string) (tasks_max : Z) : Z :=
  Z.max 0 (Z.max tasks_max (default 0 (critical_cap environ tasks_max))).

Lemma effective_cap_le environ tasks_max source cap :
  effective_cap environ tasks_max source = Some cap -> cap <= hard_cap environ tasks_max.
Proof.
  unfold effective_cap, hard_cap. destruct (critical_cap _ _) as [c|]; [|done]. cbn.
  destruct (is_critical _ _); intros [= <-]; lia.
Qed.

(** What tracking does on each branch. *)
Lemma track_cases environ tasks_max window now b source name session caller :
  let '(r, b', ws) := track_background environ tasks_max window now b source name session caller in
  let n := Z.of_nat (size (bg_tasks b)) in
  match effective_cap environ tasks_max source with
  | None => r = Raise ValueError /\ b' = b /\ ws = []
  | Some cap =>
      if cap <=? n
      then r = Ok None /\ bg_tasks b' = bg_tasks b /\ bg_live b' = bg_live b /\ bg_next b' = bg_next b /\
           bg_draining b' = bg_draining b /\
           (ws, bg_log b') = (Shedding source n cap (is_critical environ source) (occupants (bg_tasks b))
              :: (log_shed window now source session caller (bg_log b)).1,
              (log_shed window now source session caller (bg_log b)).2)
      else r = Ok (Some (bg_next b)) /\ ws = [] /\ bg_log b' = bg_log b /\
           bg_tasks b' = <[bg_next b := default ("bg-" +:+ source) name]> (bg_tasks b) /\
           bg_live b' = {[bg_next b]} ∪ bg_live b /\ bg_next b' = S (bg_next b) /\ bg_draining b' = bg_draining b
  end.
Proof.
  unfold track_background. destruct (effective_cap _ _ _) as [cap|]; [|done]. cbv zeta.
  destruct (cap <=? _); [|done]. by destruct (log_shed _ _ _ _ _ _).
Qed.

Record bg_inv (environ : string -> option string) (tasks_max : Z) (b : background) : Prop := {
  bi_fresh : forall t, t ∈ bg_live b -> (t < bg_next b)%nat;
  bi_live : dom (bg_tasks b) ⊆ bg_live b;
  bi_size : Z.of_nat (size (bg_tasks b)) <= hard_cap environ tasks_max;
  bi_draining : forall p t, bg_draining b = Some p -> t ∈ p -> (t < bg_next b)%nat
}.

Lemma new_background_inv environ tasks_max : bg_inv environ tasks_max new_background.
Proof. split; cbn; [set_solver|set_solver| |done]. rewrite map_size_empty. unfold hard_cap. lia. Qed.

Lemma size_delete_le {V} (m : gmap nat V) t : (size (delete t m) <= size m)%nat.
Proof. rewrite map_size_delete. destruct (m !! t); cbn; lia. Qed.

Lemma bg_step_inv environ tasks_max window b l b' :
  bg_step environ tasks_max window b l b' -> bg_inv environ tasks_max b -> bg_inv environ tasks_max b'.
Proof.
  intros Hst [H1 H2 H3 H4]. destruct Hst as [b now source name session caller r b' ws Ht|b t Ht|b Hd|b p Hp Hl].
  - pose proof (track_cases environ tasks_max window now b source name session caller) as Hc. rewrite Ht in Hc. cbv zeta in Hc.
    destruct (effective_cap _ _ source) as [cap|] eqn:Ec; [|by destruct Hc as (_ & -> & _)].
    destruct (Z.leb_spec cap (Z.of_nat (size (bg_tasks b)))).
    + destruct Hc as (_ & E1 & E2 & E3 & E4 & _). split; rewrite ?E1, ?E2, ?E3, ?E4; done.
    + destruct Hc as (_ & _ & _ & E1 & E2 & E3 & E4). split; rewrite ?E1, ?E2, ?E3, ?E4.
      * intros t. rewrite elem_of_union, elem_of_singleton. intros [->|Hin]; [lia|]. apply H1 in Hin. lia.
      * rewrite dom_insert. set_solver.
      * apply effective_cap_le in Ec. rewrite map_size_insert. destruct (bg_tasks b !! bg_next b); cbn; lia.
      * intros p t Hp Hin. specialize (H4 p t Hp Hin). lia.
  - split; cbn; [|rewrite dom_delete; set_solver| |done].
    + intros t' Hin. apply H1. set_solver.
    + pose proof (size_delete_le (bg_tasks b) t). lia.
  - split; cbn; try done. intros p t [= <-] Hin. apply H1. set_solver.
  - split; cbn; [done|set_solver| |done]. rewrite map_size_empty. unfold hard_cap. lia.
Qed.

(** ** Lemmas: the drain *)

Definition is_drained (l : bg_label) : bool := match l with DrainEnds => true | _ => false end.

Definition of_standard (environ : string -> option string) (l : bg_label) : Prop :=
  match l with Tracked _ source _ _ => is_critical environ source = false | _ => True end.

Lemma bg_step_live environ tasks_max window b l b' :
  is_drained l = false -> bg_step environ tasks_max window b l b' ->
  dom (bg_tasks b) = bg_live b -> dom (bg_tasks b') = bg_live b'.
Proof.
  intros Hl Hst He. destruct Hst as [b now source name session caller r b' ws Ht|b t Ht|b Hd|b p Hp Hd].
  - pose proof (track_cases environ tasks_max window now b source name session caller) as Hc. rewrite Ht in Hc. cbv zeta in Hc.
    destruct (effective_cap _ _ source) as [cap|]; [|by destruct Hc as (_ & -> & _)].
    destruct (cap <=? _).
    + destruct Hc as (_ & E1 & E2 & _). by rewrite E1, E2.
    + destruct Hc as (_ & _ & _ & E1 & E2 & _). rewrite E1, E2, dom_insert_L. by rewrite He.
  - cbn. rewrite dom_delete_L. by rewrite He.
  - done.
  - done.
Qed.

Lemma bg_step_standard environ tasks_max window b l b' :
  of_standard environ l -> bg_step environ tasks_max window b l b' ->
  Z.of_nat (size (bg_tasks b)) <= Z.max 0 tasks_max -> Z.of_nat (size (bg_tasks b')) <= Z.max 0 tasks_max.
Proof.
  intros Hl Hst Hs. destruct Hst as [b now source name session caller r b' ws Ht|b t Ht|b Hd|b p Hp Hd].
  - pose proof (track_cases environ tasks_max window now b source name session caller) as Hc. rewrite Ht in Hc. cbv zeta in Hc.
    destruct (effective_cap _ _ source) as [cap|] eqn:Ec; [|by destruct Hc as (_ & -> & _)].
    unfold effective_cap in Ec. destruct (critical_cap _ _); [|done]. cbn in Ec. cbn in Hl. rewrite Hl in Ec. injection Ec as <-.
    destruct (Z.leb_spec tasks_max (Z.of_nat (size (bg_tasks b)))).
    + destruct Hc as (_ & E1 & _). by rewrite E1.
    + destruct Hc as (_ & _ & _ & E1 & _). rewrite E1, map_size_insert. destruct (bg_tasks b !! bg_next b); cbn; lia.
  - cbn. pose proof (size_delete_le (bg_tasks b) t). lia.
  - done.
  - cbn. rewrite map_size_empty. lia.
Qed.

(** While a drain waits, what it waits for stays the same. *)
Lemma draining_stays environ tasks_max window b ls b' p :
  runs (bg_step environ tasks_max window) b ls b' -> Forall (fun l => is_drained l = false) ls ->
  bg_draining b = Some p -> bg_draining b' = Some p.
Proof.
  intros Hrun Hls Hp. apply (runs_invariant_labels _ (fun l => is_drained l = false) (fun b => bg_draining b = Some p)) in Hrun; try done.
  intros b0 l b1 Hl Hst Hb. destruct Hst as [b0 now source name session caller r b1 ws Ht|b0 t Ht|b0 Hd|b0 q Hq Hd]; try done.
  - pose proof (track_cases environ tasks_max window now b0 source name session caller) as Hc. rewrite Ht in Hc. cbv zeta in Hc.
    destruct (effective_cap _ _ source) as [cap|]; [|by destruct Hc as (_ & -> & _)].
    destruct (cap <=? _); [destruct Hc as (_ & _ & _ & _ & E & _)|destruct Hc as (_ & _ & _ & _ & _ & _ & E)]; congruence.
  - congruence.
Qed.

(** ** Properties *)

(** The tracked background tasks, after any sequence of calls, ends and
    drains: their number stays within the larger cap, and within
    [BACKGROUND_TASKS_MAX] if no critical source is tracked; until a drain is
    over the set holds exactly the tasks that run. A call sheds its work
    exactly when the tracked tasks have reached the cap of its source, and
    otherwise adds one new task to the set. When a drain is over, no task that
    was tracked when it began still runs. *)
Theorem background_bounded environ tasks_max window ls b :
  runs (bg_step environ tasks_max window) new_background ls b ->
  Z.of_nat (size (bg_tasks b)) <= hard_cap environ tasks_max /\
  (Forall (of_standard environ) ls -> Z.of_nat (size (bg_tasks b)) <= Z.max 0 tasks_max) /\
  (Forall (fun l => is_drained l = false) ls -> dom (bg_tasks b) = bg_live b) /\
  (forall now source name session caller cap, effective_cap environ tasks_max source = Some cap ->
     let '(r, b', _) := track_background environ tasks_max window now b source name session caller in
     (r = Ok None /\ cap <= Z.of_nat (size (bg_tasks b)) /\ bg_tasks b' = bg_tasks b /\ bg_live b' = bg_live b) \/
     exists t, r = Ok (Some t) /\ Z.of_nat (size (bg_tasks b)) < cap /\ ~ (t ∈ bg_live b) /\
       dom (bg_tasks b') = {[t]} ∪ dom (bg_tasks b) /\ bg_live b' = {[t]} ∪ bg_live b) /\
  (forall ls' b1 b2, runs (bg_step environ tasks_max window) (drain_begin b) ls' b1 ->
     Forall (fun l => is_drained l = false) ls' -> bg_step environ tasks_max window b1 DrainEnds b2 ->
     bg_tasks b2 = ∅ /\ dom (bg_tasks b) ∩ bg_live b2 = ∅).
Proof.
  intros Hrun. assert (Hinv : bg_inv environ tasks_max b).
  { eapply (runs_invariant _ (bg_inv environ tasks_max)); [|exact Hrun|apply new_background_inv].
    intros s l s' Hst. by eapply bg_step_inv. }
  split_and!.
  - apply Hinv.
  - intros Hls. apply (runs_invariant_labels _ (of_standard environ)
      (fun b => Z.of_nat (size (bg_tasks b)) <= Z.max 0 tasks_max)) in Hrun; try done.
    + intros s l s' Hl Hst. by eapply bg_step_standard.
    + cbn. rewrite map_size_empty. lia.
  - intros Hls. apply (runs_invariant_labels _ (fun l => is_drained l = false)
      (fun b => dom (bg_tasks b) = bg_live b)) in Hrun; try done.
    intros s l s' Hl Hst. by eapply bg_step_live.
  - intros now source name session caller cap Hcap.
    pose proof (track_cases environ tasks_max window now b source name session caller) as Hc.
    destruct (track_background _ _ _ _ _ _ _ _ _) as [[r b'] ws]. cbv zeta in Hc. rewrite Hcap in Hc.
    destruct (Z.leb_spec cap (Z.of_nat (size (bg_tasks b)))).
    + left. destruct Hc as (-> & E1 & E2 & _). done.
    + right. exists (bg_next b). destruct Hc as (-> & _ & _ & E1 & E2 & _). split_and!; [done|done| | |done].
      * intros Hin. apply (bi_fresh _ _ _ Hinv) in Hin. lia.
      * by rewrite E1, dom_insert_L.
  - intros ls' b1 b2 Hrun' Hls' Hst.
    pose proof (draining_stays _ _ _ _ _ _ (dom (bg_tasks b)) Hrun' Hls' eq_refl) as Hp.
    inversion Hst as [| | |b0 q Hq Hd]; subst. cbn. split; [done|]. congruence.
Qed.

(** ** The accounts of the warnings *)

Definition shed_of (source : string) (l : bg_label) : list (Z * list warning) :=
  match l with
  | Tracked now s (Ok None) ws => if decide (s = source) then [(now, ws)] else []
  | _ => []
  end.

(** The calls of a source that were shed, with their warnings, latest last. *)
Definition sheds (source : string) (ls : list bg_label) : list (Z * list warning) := ls ≫= shed_of source.

Definition first_sheds (ws : list warning) : Z :=
  foldr (fun w n => (match w with FirstShed _ _ _ => 1 | _ => 0 end) + n) 0 ws.

Definition summed (ws : list warning) : Z :=
  foldr (fun w n => (match w with Summary _ k => k | _ => 0 end) + n) 0 ws.

Definition all_warnings (xs : list (Z * list warning)) : list warning := xs ≫= snd.

(** The calls that opened a window. *)
Definition opening (x : Z * list warning) : bool := 0 <? first_sheds x.2.
Definition openings (xs : list (Z * list warning)) : list Z := fst <$> filter (fun x => opening x = true) xs.

Definition pending_of (source : string) (b : background) : Z :=
  match bg_log b !! source with Some (_, k) => k | None => 0 end.

Lemma first_sheds_app ws1 ws2 : first_sheds (ws1 ++ ws2) = first_sheds ws1 + first_sheds ws2.
Proof. induction ws1; cbn; [done|]. unfold first_sheds in *. cbn in *. lia. Qed.

Lemma summed_app ws1 ws2 : summed (ws1 ++ ws2) = summed ws1 + summed ws2.
Proof. induction ws1; cbn; [done|]. unfold summed in *. cbn in *. lia. Qed.

Definition window_start (source : string) (b : background) : option Z := fst <$> bg_log b !! source.

(** Each opening is a window after the one before it. *)
Fixpoint spaced (window : Z) (prev : option Z) (ts : list Z) : Prop :=
  match ts with
  | [] => True
  | t :: ts => match prev with Some p => window <= t - p | None => True end /\ spaced window (Some t) ts
  end.

(** What one call of a source that is shed does to the accounts. *)
Record accounts (window now : Z) (source : string) (log log' : shed_log) (ws : list warning) : Prop := {
  ac_sum : let pend (l : shed_log) := match l !! source with Some (_, k) => k | None => 0 end in
           first_sheds ws + summed ws + pend log' = pend log + 1 /\ 0 <= pend log';
  ac_start : fst <$> log' !! source = if 0 <? first_sheds ws then Some now else fst <$> log !! source;
  ac_spaced : 0 < first_sheds ws -> match fst <$> log !! source with Some p => window <= now - p | None => True end;
  ac_other : forall s, s <> source -> log' !! s = log !! s
}.

Lemma log_shed_accounts window now source session caller log :
  match log !! source with Some (_, k) => 0 <= k | None => True end ->
  accounts window now source log (log_shed window now source session caller log).2
    (log_shed window now source session caller log).1.
Proof.
  intros Hk. unfold log_shed. destruct (log !! source) as [[start k]|] eqn:E.
  - destruct (Z.leb_spec window (now - start)); [destruct (Z.ltb_spec 0 k)|]; split; cbn [fst snd app]; cbv zeta;
      rewrite ?lookup_insert_eq, ?E; cbn [fst snd fmap option_fmap option_map];
      try (intros s Hs; by rewrite lookup_insert_ne); try done; cbn; lia.
  - split; cbn [fst snd]; cbv zeta; rewrite ?lookup_insert_eq, ?E; try (intros s Hs; by rewrite lookup_insert_ne); done.
Qed.

Definition log_ok (b : background) : Prop := forall s, match bg_log b !! s with Some (_, k) => 0 <= k | None => True end.

(** A step seen by the accounts of one source. *)
Lemma bg_step_accounts environ tasks_max window source b l b' :
  bg_step environ tasks_max window b l b' -> log_ok b ->
  log_ok b' /\
  match shed_of source l with
  | [] => bg_log b' !! source = bg_log b !! source
  | x :: rest => rest = [] /\ exists w ws, x.2 = w :: ws /\ (exists n cap cr occ, w = Shedding source n cap cr occ) /\
                 accounts window x.1 source (bg_log b) (bg_log b') ws
  end.
Proof.
  intros Hst Hok. destruct Hst as [b now s name session caller r b' ws Ht|b t Ht|b Hd|b p Hp Hd]; [|done..].
  pose proof (track_cases environ tasks_max window now b s name session caller) as Hc. rewrite Ht in Hc. cbv zeta in Hc.
  destruct (effective_cap _ _ s) as [cap|]; [|by destruct Hc as (-> & -> & ->)].
  destruct (cap <=? _); [|destruct Hc as (-> & -> & E & _); split; [intros s'; rewrite E; apply Hok|cbn; by rewrite E]].
  destruct Hc as (-> & _ & _ & _ & _ & [= -> E]).
  pose proof (log_shed_accounts window now s session caller (bg_log b) (Hok s)) as Ha. rewrite <-E in Ha.
  split.
  - intros s'. destruct (decide (s' = s)) as [->|Hne]; [|rewrite (ac_other _ _ _ _ _ _ Ha) by done; apply Hok].
    pose proof (ac_sum _ _ _ _ _ _ Ha) as [_ Hx]. by destruct (bg_log b' !! s) as [[]|].
  - cbn [shed_of]. destruct (decide (s = source)) as [->|Hne].
    + split; [done|]. eexists _, _. split; [done|]. split; [by eexists _, _, _, _|done].
    + symmetry. by rewrite (ac_other _ _ _ _ _ _ Ha).
Qed.

Lemma sheds_cons source l ls : sheds source (l :: ls) = shed_of source l ++ sheds source ls.
Proof. done. Qed.

Lemma all_warnings_cons x xs : all_warnings (x :: xs) = x.2 ++ all_warnings xs.
Proof. done. Qed.

Lemma shedding_first s n cap cr occ ws :
  first_sheds (Shedding s n cap cr occ :: ws) = first_sheds ws /\ summed (Shedding s n cap cr occ :: ws) = summed ws.
Proof. done. Qed.

Lemma runs_accounts environ tasks_max window source b ls b' :
  runs (bg_step environ tasks_max window) b ls b' -> log_ok b ->
  first_sheds (all_warnings (sheds source ls)) + summed (all_warnings (sheds source ls)) + pending_of source b' =
    pending_of source b + Z.of_nat (length (sheds source ls)) /\
  spaced window (window_start source b) (openings (sheds source ls)).
Proof.
  induction 1 as [b|b l b1 ls b2 Hst Hrun IH]; intros Hok; [by cbn; split; [lia|]|].
  destruct (bg_step_accounts _ _ _ source _ _ _ Hst Hok) as [Hok1 Hx]. specialize (IH Hok1) as [IH1 IH2].
  rewrite sheds_cons. destruct (shed_of source l) as [|[now ws0] rest].
  - cbn [app]. unfold pending_of, window_start in *. by rewrite Hx in IH1, IH2.
  - destruct Hx as (-> & w & ws & Hws & (n & cap & cr & occ & ->) & [Hsum Hstart Hsp _]). cbn in Hws, Hstart, Hsp. subst ws0.
    cbn [app]. rewrite all_warnings_cons, first_sheds_app, summed_app. cbn [fst snd].
    destruct (shedding_first source n cap cr occ ws) as [Ef Es]. rewrite Ef, Es. cbv zeta in Hsum.
    unfold pending_of, window_start in *. split; [cbn [length]; lia|].
    assert (Ho : opening (now, Shedding source n cap cr occ :: ws) = (0 <? first_sheds ws)) by done.
    unfold openings. rewrite filter_cons. destruct (Z.ltb_spec 0 (first_sheds ws)) as [Hp|Hp].
    + rewrite decide_True by done. cbn [fmap list_fmap fst spaced]. rewrite Hstart in IH2. split; [by apply Hsp|done].
    + rewrite decide_False by (by rewrite Ho). by rewrite Hstart in IH2.
Qed.

(** The warnings about shed tasks, over any sequence of calls: for every
    source, each of its calls that was shed is either announced by a warning
    of its own, or counted in a summary, or counted in the window that is
    open; two announcements of a source are at least a window apart. The
    first warning of a call that is shed is outside of this: it is given every
    time. *)
Theorem shed_warnings_accounted environ tasks_max window source ls b :
  runs (bg_step environ tasks_max window) new_background ls b ->
  let ws := all_warnings (sheds source ls) in
  first_sheds ws + summed ws + pending_of source b = Z.of_nat (length (sheds source ls)) /\
  spaced window None (openings (sheds source ls)) /\
  Forall (fun x => exists n cap cr occ ws', x.2 = Shedding source n cap cr occ :: ws') (sheds source ls).
Proof.
  intros Hrun. assert (Hok : log_ok new_background) by by intros s. cbv zeta.
  destruct (runs_accounts _ _ _ source _ _ _ Hrun Hok) as [H1 H2]. split_and!; [exact H1|exact H2|].
  clear H1 H2. induction Hrun as [b|b l b1 ls b2 Hst Hrun IH]; [constructor|].
  destruct (bg_step_accounts _ _ _ source _ _ _ Hst Hok) as [Hok1 Hx]. rewrite sheds_cons. apply Forall_app. split; [|by apply IH].
  destruct (shed_of source l) as [|x rest]; [constructor|]. destruct Hx as (-> & w & ws & Hws & (n & cap & cr & occ & ->) & _).
  constructor; [|constructor]. by exists n, cap, cr, occ, ws.
Qed.

(** ** Witnesses *)

Definition no_settings (v : string) : option string := None.

Definition track1 (now : Z) (b : background) (source : string) : res (option nat) * background * list warning :=
  track_background no_settings 1 10 now b source None (Some "s") None.

Lemma track1_step now b source :
  bg_step no_settings 1 10 b (Tracked now source (track1 now b source).1.1 (track1 now b source).2) (track1 now b source).1.2.
Proof.
  apply (bs_track no_settings 1 10 b now source None (Some "s") None). unfold track1.
  by destruct (track_background _ _ _ _ _ _ _ _ _) as [[??]?].
Qed.

(** The standard cap of one is reached; a webhook still gets in. *)
Definition b1 : background := (track1 0 new_background "bus").1.2.
Definition b2 : background := (track1 1 b1 "bus").1.2.
Definition b3 : background := (track1 2 b2 "bus").1.2.
Definition b4 : background := (track1 3 b3 "webhook").1.2.
Definition b5 : background := (track1 12 b4 "bus").1.2.
Definition example_tracks : list bg_label :=
  [Tracked 0 "bus" (Ok (Some 0%nat)) []; Tracked 1 "bus" (Ok None) (track1 1 b1 "bus").2;
   Tracked 2 "bus" (Ok None) (track1 2 b2 "bus").2; Tracked 3 "webhook" (Ok (Some 1%nat)) [];
   Tracked 12 "bus" (Ok None) (track1 12 b4 "bus").2].

Lemma example_tracked : runs (bg_step no_settings 1 10) new_background example_tracks b5.
Proof.
  eapply runs_cons; [exact (track1_step 0 new_background "bus")|].
  eapply runs_cons; [exact (track1_step 1 b1 "bus")|].
  eapply runs_cons; [exact (track1_step 2 b2 "bus")|].
  eapply runs_cons; [exact (track1_step 3 b3 "webhook")|].
  eapply runs_cons; [exact (track1_step 12 b4 "bus")|].
  apply runs_nil.
Qed.

Lemma background_bounded_witness :
  Z.of_nat (size (bg_tasks b5)) = 2 /\ Z.of_nat (size (bg_tasks b5)) <= hard_cap no_settings 1 /\
  dom (bg_tasks b5) = bg_live b5.
Proof.
  destruct (background_bounded no_settings 1 10 _ _ example_tracked) as (H1 & _ & H2 & _).
  split_and!; [vm_compute; reflexivity|exact H1|]. apply H2. repeat constructor.
Defined.

Lemma shed_warnings_accounted_witness :
  length (sheds "bus" example_tracks) = 3%nat /\
  openings (sheds "bus" example_tracks) = [1; 12] /\ spaced 10 None [1; 12] /\
  first_sheds (all_warnings (sheds "bus" example_tracks)) + summed (all_warnings (sheds "bus" example_tracks))
    + pending_of "bus" b5 = 3.
Proof.
  destruct (shed_warnings_accounted no_settings 1 10 "bus" _ _ example_tracked) as (H1 & H2 & _).
  split_and!; [vm_compute; reflexivity|vm_compute; reflexivity| |exact H1].
  exact H2.
Defined.

(** A task tracked while the drain waits is dropped from the set when the
    drain is over, and runs on. *)
Example drain_forgets :
  let b := (track1 1 (drain_begin b1) "webhook").1.2 in
  let b' := drain_end (on_done b 0) in
  bg_draining b = Some {[0%nat]} /\ bg_live b' = {[1%nat]} /\ bg_tasks b' = ∅.
Proof. vm_compute. auto. Qed.
