(* ===== verification/McpAuth.v ===== *)
(** * Bearer tokens and body caps of the MCP servers
      (shared/mcp_auth.py, shared/mcp_body_cap.py)

    The ASGI middleware in front of a tool server: the health aliases, the
    posture of the process with its re-armed log lines, the scan of the
    [Authorization] headers, the [/info] document and what reaches the
    application; and the capped read of a request body.  The environment, the
    strict UTF-8 decoder and the info provider are parameters. *)
From Stdlib Require Import Ascii.
From S2P Require Import Prelude PyStr PyVal PyLib PyBytes Http.

(** ** Requests and replies *)

(** The ASGI scope; header names and values are bytes. *)
Record scope : Type := mk_scope {
  sc_type : string;
  sc_path : string;
  sc_method : option string;
  sc_headers : list (string * string)
}.

Definition method (sc : scope) : string := default "GET" (sc_method sc).

Record response : Type := mk_response {
  re_status : Z;
  re_headers : list (string * string);
  re_body : string
}.

(** The application is called, the middleware answers by itself, or an
    exception escapes. *)
Inductive reply : Type := Passed | Replied (r : response) | Escaped (e : exn).

Definition json_response (status : Z) (body : string) : response :=
  mk_response status
    [("content-type", "application/json"); ("content-length", py_str_int (str_len body)); ("cache-control", "no-store")] body.

Definition dq : string := String dquote_char "".
Definition quoted (s : string) : string := dq +:+ s +:+ dq.

Definition send_health : response := json_response 200 ("{" +:+ quoted "status" +:+ ":" +:+ quoted "ok" +:+ "}").

(** A provider that returns something falsy serves the empty document. *)
Definition send_info (provider : res pydict) : response :=
  match provider with
  | Ok doc => json_response 200 (json_dumps_ascii (VDict doc))
  | Raise _ => json_response 500 ("{" +:+ quoted "error" +:+ ":" +:+ quoted "info-provider-failed" +:+ "}")
  end.

Definition send_400_invalid_bearer_encoding : response :=
  let body := "{" +:+ quoted "jsonrpc" +:+ ":" +:+ quoted "2.0" +:+ "," +:+ quoted "error" +:+ ":{" +:+ quoted "code" +:+ ":-32600," +:+
              quoted "message" +:+ ":" +:+ quoted "invalid bearer token encoding (must be UTF-8)" +:+ "}}" in
  mk_response 400
    [("content-type", "application/json"); ("content-length", py_str_int (str_len body)); ("cache-control", "no-store")] body.

Definition send_401 (reason : string) : response :=
  let body := "{" +:+ quoted "error" +:+ ": " +:+ quoted reason +:+ "}" in
  mk_response 401
    [("content-type", "application/json"); ("content-length", py_str_int (str_len body));
     ("www-authenticate", "Bearer realm=" +:+ quoted "mcp")] body.

Definition not_configured : string := "auth-not-configured".
Definition malformed : string := "missing-or-malformed-authorization-header".
Definition invalid_token : string := "invalid-token".

(** ** The posture and its log lines *)

Definition FAIL_CLOSED_REARM_EVERY : Z := 500.

(** The log lines: requests are refused; authentication is disabled. *)
Inductive line : Type := Refusing | Disabled.

(** A posture is whether a token is present and whether the opt-out is set. *)
Record notes : Type := mk_notes { n_warned : gset (bool * bool); n_since : Z }.

Definition initial_notes : notes := mk_notes ∅ 0.

Definition note_posture (token_set disabled : bool) (s : notes) : option line * notes :=
  let key := (token_set, disabled) in
  let should_warn := bool_decide (key ∉ n_warned s) in
  let '(should_warn, s) :=
    if negb token_set && negb disabled then
      let n := n_since s + 1 in
      if FAIL_CLOSED_REARM_EVERY <=? n then (true, mk_notes (n_warned s ∖ {[key]}) 0) else (should_warn, mk_notes (n_warned s) n)
    else (should_warn, s) in
  let s := if should_warn then mk_notes (n_warned s ∪ {[key]}) (n_since s) else s in
  (if should_warn then
     if negb token_set && negb disabled then Some Refusing
     else if negb token_set && disabled then Some Disabled else None
   else None, s).

(** ** The headers *)

(** [bytes.strip] *)
Definition byte_space (c : ascii) : bool := ((9 <=? code c) && (code c <=? 13)) || (code c =? 32).

Definition auth_values (sc : scope) : list string :=
  (snd <$> filter (fun kv => kv.1 = "authorization") (sc_headers sc)).

Definition non_empty (vs : list string) : list string := filter (fun v => str_all byte_space v = false) vs.

Definition is_bearer (raw : string) : bool := startswith "bearer " (str_lower raw).

Inductive scan_result : Type := Matched | NoMatch | Undecodable | Uncomparable (e : exn).

Section Middleware.
(** [bytes.decode("utf-8", errors="strict")] *)
Variable utf8_decode : string -> option string.

Fixpoint scan (token : string) (vs : list string) : scan_result :=
  match vs with
  | [] => NoMatch
  | raw :: vs =>
      if negb (is_bearer raw) then scan token vs
      else match utf8_decode (str_drop 7 raw) with
           | None => Undecodable
           | Some t => match compare_digest (str_strip t) token with
                       | Raise e => Uncomparable e
                       | Ok true => Matched
                       | Ok false => scan token vs
                       end
           end
  end.

Variable environ : string -> option string.
(** [require_bearer_token]'s second argument: what the provider returns. *)
Variable info_provider : option (res pydict).

Definition auth_disabled_escape_hatch : bool :=
  bool_decide (str_lower (str_strip (default "" (environ "MCP_TOOL_AUTH_DISABLED"))) ∈ ["1"; "true"; "yes"; "on"]).

Definition auth_token : string := str_strip (default "" (environ "MCP_TOOL_AUTH_TOKEN")).

Definition health_probe (sc : scope) : bool :=
  bool_decide (sc_path sc ∈ ["/health"; "/health/live"; "/health/ready"]) && bool_decide (method sc ∈ ["GET"; "HEAD"]).

Definition info_request (sc : scope) : bool := bool_decide (sc_path sc = "/info") && bool_decide (method sc = "GET").

(** From the posture on. *)
Definition authorise (sc : scope) : reply :=
  if auth_disabled_escape_hatch then Passed
  else if decide (auth_token = "") then Replied (send_401 not_configured)
  else
    let vs := non_empty (auth_values sc) in
    match vs with
    | [] => Replied (send_401 malformed)
    | _ =>
        match scan auth_token vs with
        | Uncomparable e => Escaped e
        | Undecodable => Replied send_400_invalid_bearer_encoding
        | NoMatch => Replied (send_401 (if existsb is_bearer vs then invalid_token else malformed))
        | Matched =>
            match info_provider with
            | Some provider => if info_request sc then Replied (send_info provider) else Passed
            | None => Passed
            end
        end
    end.

Definition middleware (s : notes) (sc : scope) : reply * option line * notes :=
  if decide (sc_type sc <> "http") then (Passed, None, s)
  else if health_probe sc then (Replied send_health, None, s)
  else
    let '(l, s) := note_posture (bool_decide (auth_token <> "")) auth_disabled_escape_hatch s in
    (authorise sc, l, s).
End Middleware.

(** ** The capped read *)

Inductive body_result : Type := Body (b : string) | TooLarge | ParseError.

(** [CancelledError] is no [Exception]. *)
Definition read_capped_body (cap : Z) (rq : request) : res body_result :=
  match read_chunks cap "" (rq_chunks rq) (rq_end rq) with
  | Ok (Some b) => Ok (Body b)
  | Ok None => Ok TooLarge
  | Raise CancelledError => Raise CancelledError
  | Raise _ => Ok ParseError
  end.

(** ** Lemmas: the headers *)

Section Access.
Variable utf8_decode : string -> option string.
Variable environ : string -> option string.
Variable info_provider : option (res pydict).

Abbreviation token := (auth_token environ).
Abbreviation disabled := (auth_disabled_escape_hatch environ).
Abbreviation scan := (scan utf8_decode token).
Abbreviation authorise := (authorise utf8_decode environ info_provider).
Abbreviation middleware := (middleware utf8_decode environ info_provider).

(** What the caller presents with one header. *)
Definition presents (raw t : string) : Prop :=
  is_bearer raw = true /\ str_strip <$> utf8_decode (str_drop 7 raw) = Some t.

(** A header that the scan passes over. *)
Definition passed_over (raw : string) : Prop :=
  is_bearer raw = false \/ exists t, presents raw t /\ is_ascii t = true /\ is_ascii token = true /\ t <> token.

(** The first header that is not passed over has [P]. *)
Definition first_is (P : string -> Prop) (vs : list string) : Prop :=
  exists pre raw post, vs = pre ++ raw :: post /\ Forall passed_over pre /\ P raw.

Lemma first_here (P : string -> Prop) raw vs : P raw -> first_is P (raw :: vs).
Proof. intros HP. by exists [], raw, vs. Qed.

Lemma first_later P raw vs : passed_over raw -> first_is P vs -> first_is P (raw :: vs).
Proof.
  intros Hr (pre & r & post & -> & Hpre & HP). exists (raw :: pre), r, post. split_and!; [done|by constructor|done].
Qed.

Lemma first_over P vs : Forall passed_over vs -> first_is P vs -> exists raw, P raw /\ passed_over raw.
Proof.
  intros Hall (pre & r & post & -> & _ & HP). exists r. split; [done|]. by apply Forall_app in Hall as [_ [? _]%Forall_cons_1].
Qed.

Lemma first_unique P Q vs :
  (forall raw, P raw -> ~ passed_over raw) -> (forall raw, Q raw -> ~ passed_over raw) ->
  first_is P vs -> first_is Q vs -> exists raw, P raw /\ Q raw.
Proof.
  intros HPo HQo (pre & r & post & -> & Hpre & HP) (pre' & r' & post' & Heq & Hpre' & HQ).
  revert pre' Heq Hpre'. induction pre as [|x pre IH]; intros [|x' pre'] Heq Hpre'; cbn in Heq; injection Heq as Hx Heq; subst.
  - by exists r'.
  - apply Forall_cons_1 in Hpre' as [Hx' _]. by apply HPo in HP.
  - apply Forall_cons_1 in Hpre as [Hx' _]. by apply HQo in HQ.
  - apply Forall_cons_1 in Hpre as [_ Hpre]. apply Forall_cons_1 in Hpre' as [_ Hpre']. by eapply IH.
Qed.

(** The three ways a header ends the scan. *)
Definition matches (raw : string) : Prop := presents raw token /\ is_ascii token = true.
Definition undecodable (raw : string) : Prop := is_bearer raw = true /\ utf8_decode (str_drop 7 raw) = None.
Definition uncomparable (raw : string) : Prop := exists t, presents raw t /\ (is_ascii t = false \/ is_ascii token = false).

Lemma matches_ends raw : matches raw -> ~ passed_over raw.
Proof. intros [[Hb Ht] _] [Hb'|(t & [_ Ht'] & _ & _ & Hne)]; congruence. Qed.

Lemma undecodable_ends raw : undecodable raw -> ~ passed_over raw.
Proof. intros [Hb Hd] [Hb'|(t & [_ Ht'] & _)]; [congruence|]. by rewrite Hd in Ht'. Qed.

Lemma uncomparable_ends raw : uncomparable raw -> ~ passed_over raw.
Proof.
  intros (t & [Hb Ht] & Ha) [Hb'|(t' & [_ Ht'] & Ha1 & Ha2 & _)]; [congruence|].
  assert (t' = t) as -> by congruence. destruct Ha; congruence.
Qed.

Lemma scan_spec vs :
  match scan vs with
  | Matched => first_is matches vs
  | NoMatch => Forall passed_over vs
  | Undecodable => first_is undecodable vs
  | Uncomparable e => e = TypeError /\ first_is uncomparable vs
  end.
Proof.
  induction vs as [|raw vs IH]; cbn [McpAuth.scan]; [done|].
  assert (Hover : passed_over raw ->
    match scan vs with
    | Matched => first_is matches (raw :: vs)
    | NoMatch => Forall passed_over (raw :: vs)
    | Undecodable => first_is undecodable (raw :: vs)
    | Uncomparable e => e = TypeError /\ first_is uncomparable (raw :: vs)
    end).
  { intros Hp. destruct (scan vs); [by apply first_later|by constructor|by apply first_later|].
    destruct IH as [-> IH]. split; [done|by apply first_later]. }
  destruct (is_bearer raw) eqn:Hb; cbn [negb]; [|apply Hover; by left].
  destruct (utf8_decode (str_drop 7 raw)) as [t|] eqn:Hd; [|by apply first_here].
  assert (Hpr : presents raw (str_strip t)) by (split; [done|by rewrite Hd]).
  destruct (compare_digest (str_strip t) token) as [[]|e] eqn:Hc.
  - apply compare_true in Hc as [Heq Ha]. rewrite Heq in Ha, Hpr. by apply first_here.
  - apply Hover. right. exists (str_strip t). split; [done|]. unfold compare_digest in Hc.
    destruct (is_ascii (str_strip t)), (is_ascii token); cbn in Hc; try done. injection Hc as Hc%bool_decide_eq_false. done.
  - apply compare_raises in Hc as [-> Ha]. split; [done|]. apply first_here. by exists (str_strip t).
Qed.

(** The caller holds the token. *)
Definition authorised (sc : scope) : Prop := token <> "" /\ first_is matches (non_empty (auth_values sc)).

Lemma scan_matched vs : scan vs = Matched <-> first_is matches vs.
Proof.
  pose proof (scan_spec vs) as Hs. split; [intros Hm; by rewrite Hm in Hs|]. intros Hf. destruct (scan vs); [done|..]; exfalso.
  - destruct (first_over _ _ Hs Hf) as (raw & Hm & Ho). by eapply matches_ends.
  - destruct (first_unique _ _ _ matches_ends undecodable_ends Hf Hs) as (raw & [[_ Ht] _] & [_ Hd]). by rewrite Hd in Ht.
  - destruct Hs as [_ Hs].
    destruct (first_unique _ _ _ matches_ends uncomparable_ends Hf Hs) as (raw & [[_ Ht] Ha] & (t & [_ Ht'] & Hx)).
    assert (t = token) as -> by congruence. destruct Hx; congruence.
Qed.

Definition serves_info (sc : scope) : Prop := is_Some info_provider /\ info_request sc = true.

Lemma authorise_cases sc :
  disabled = false ->
  match authorise sc with
  | Passed => authorised sc /\ ~ serves_info sc
  | Replied r =>
      (authorised sc /\ serves_info sc /\ exists p, info_provider = Some p /\ r = send_info p) \/
      (token <> "" /\ first_is undecodable (non_empty (auth_values sc)) /\ r = send_400_invalid_bearer_encoding) \/
      (r = send_401 not_configured /\ token = "") \/
      (token <> "" /\ Forall passed_over (non_empty (auth_values sc)) /\
       r = send_401 (if existsb is_bearer (non_empty (auth_values sc)) then invalid_token else malformed))
  | Escaped e => e = TypeError /\ token <> "" /\ first_is uncomparable (non_empty (auth_values sc))
  end.
Proof.
  intros Hd. unfold McpAuth.authorise. rewrite Hd. case_decide as Ht; [right; right; by left|].
  unfold authorised. pose proof (scan_spec (non_empty (auth_values sc))) as Hs.
  destruct (non_empty (auth_values sc)) as [|v vs]; [right; right; by right|].
  destruct (scan (v :: vs)); [|right; right; by right|right; by left|by destruct Hs].
  unfold serves_info. destruct info_provider as [p|].
  - destruct (info_request sc) eqn:Hi; [|split; [done|by intros [_ ?]]]. left. split; [done|]. split; [by split|by eexists].
  - split; [done|]. by intros [[? ?] _].
Qed.


Lemma authorise_passed sc : disabled = false -> authorise sc = Passed <-> authorised sc /\ ~ serves_info sc.
Proof.
  intros Hd. split; [intros Hp; pose proof (authorise_cases sc Hd) as Hc; by rewrite Hp in Hc|].
  intros [[Ht Hm] Hi]. unfold McpAuth.authorise. rewrite Hd, decide_False by done. pose proof Hm as (pre & raw & post & Heq & _).
  apply scan_matched in Hm. destruct (non_empty (auth_values sc)) as [|v vs]; [by destruct pre|]. rewrite Hm.
  destruct info_provider as [p|] eqn:Hp; [|done]. destruct (info_request sc) eqn:Hr; [|done]. destruct Hi. split; [by rewrite Hp|done].
Qed.

Lemma middleware_reply s sc :
  (middleware s sc).1.1 =
  if decide (sc_type sc <> "http") then Passed else if health_probe sc then Replied send_health else authorise sc.
Proof. unfold McpAuth.middleware. case_decide; [done|]. destruct (health_probe sc); [done|]. by destruct (note_posture _ _ s). Qed.

(** A blank [Authorization] header, as proxies append, changes nothing. *)
Definition insert_header (n : nat) (kv : string * string) (sc : scope) : scope :=
  mk_scope (sc_type sc) (sc_path sc) (sc_method sc) (take n (sc_headers sc) ++ kv :: drop n (sc_headers sc)).

Lemma non_empty_insert n blank sc :
  str_all byte_space blank = true ->
  non_empty (auth_values (insert_header n ("authorization", blank) sc)) = non_empty (auth_values sc).
Proof.
  intros Hb. unfold non_empty, auth_values, insert_header. cbn [sc_headers].
  rewrite <-(take_drop n (sc_headers sc)) at 3. rewrite !filter_app, filter_cons_True, !fmap_app by done. cbn [fmap list_fmap snd].
  by rewrite !filter_app, filter_cons_False by (rewrite Hb; done).
Qed.

Lemma authorise_insert n blank sc :
  str_all byte_space blank = true -> authorise (insert_header n ("authorization", blank) sc) = authorise sc.
Proof. intros Hb. unfold McpAuth.authorise. by rewrite non_empty_insert. Qed.

Definition length_declared (a : response) : Prop :=
  od_get (re_headers a) "content-length" = Some (py_str_int (str_len (re_body a))).

Lemma authorise_length_declared sc a : authorise sc = Replied a -> length_declared a.
Proof.
  unfold McpAuth.authorise. intros Ha. repeat case_match; try discriminate; injection Ha as <-; try done. by destruct r.
Qed.
End Access.

(** ** Lemmas: the log lines *)

Definition refusing (p : bool * bool) : bool := negb p.1 && negb p.2.

Fixpoint log (s : notes) (ps : list (bool * bool)) : list (option line) * notes :=
  match ps with
  | [] => ([], s)
  | p :: ps => let '(l, s) := note_posture p.1 p.2 s in let '(ls, s) := log s ps in (l :: ls, s)
  end.

#[export] Instance line_eq_dec : EqDecision line.
Proof. solve_decision. Defined.

Definition lines (l : line) (ls : list (option line)) : Z := Z.of_nat (length (filter (fun o => o = Some l) ls)).

Definition requests (q : bool * bool) (ps : list (bool * bool)) : Z := Z.of_nat (length (filter (fun p => p = q) ps)).

(** The lines written for [k] refused requests: at the first, and at every
    multiple of the threshold. *)
Definition refusals_logged (k : Z) : Z := if k =? 0 then 0 else 1 + k / FAIL_CLOSED_REARM_EVERY.

Lemma lines_cons l o ls : lines l (o :: ls) = (if decide (o = Some l) then 1 else 0) + lines l ls.
Proof. unfold lines. rewrite filter_cons. destruct (decide (o = Some l)); cbn [length]; lia. Qed.

Lemma requests_cons q p ps : requests q (p :: ps) = (if decide (p = q) then 1 else 0) + requests q ps.
Proof. unfold requests. rewrite filter_cons. destruct (decide (p = q)); cbn [length]; lia. Qed.

Record noted (s : notes) (refused opened : Z) : Prop := {
  nt_range : 0 <= refused /\ 0 <= opened;
  nt_since : n_since s = refused mod FAIL_CLOSED_REARM_EVERY;
  nt_refused : (false, false) ∈ n_warned s <-> 0 < refused;
  nt_opened : (false, true) ∈ n_warned s <-> 0 < opened
}.

Lemma mod_succ k : 0 <= k ->
  (k + 1) mod 500 = (if 500 <=? k mod 500 + 1 then 0 else k mod 500 + 1) /\
  (k + 1) / 500 = k / 500 + (if 500 <=? k mod 500 + 1 then 1 else 0).
Proof.
  intros Hk. pose proof (Z.div_mod k 500 ltac:(lia)) as Hd. pose proof (Z.mod_pos_bound k 500 ltac:(lia)) as Hb.
  destruct (Z.leb_spec 500 (k mod 500 + 1)).
  - split; [symmetry; apply (Z.mod_unique_pos _ _ (k / 500 + 1)); lia|symmetry; apply (Z.div_unique_pos _ _ _ 0); lia].
  - split; [symmetry; apply (Z.mod_unique_pos _ _ (k / 500)); lia|].
    symmetry; apply (Z.div_unique_pos _ _ _ (k mod 500 + 1)); lia.
Qed.

(** A request that is not refused leaves the counter alone. *)
Lemma noted_other s k d d' key :
  noted s k d -> key <> (false, false) -> 0 <= d' ->
  (d' = if decide (key = (false, true)) then d + 1 else d) ->
  noted (if bool_decide (key ∉ n_warned s) then mk_notes (n_warned s ∪ {[key]}) (n_since s) else s) k d'.
Proof.
  intros [[Hk Hd] Hs Hr Ho] Hkey Hd' Heq. case_bool_decide as Hin; split; cbn [n_warned n_since]; try done.
  - set_solver.
  - rewrite elem_of_union, elem_of_singleton, Ho. case_decide; [subst; split; [lia|by right]|]. subst d'. naive_solver.
  - rewrite Ho. case_decide; [|by subst d']. subst. split; [lia|]. intros _. by apply Ho.
Qed.

Lemma note_step p s k d :
  noted s k d ->
  let '(l, s') := note_posture p.1 p.2 s in
  let k' := k + (if decide (p = (false, false)) then 1 else 0) in
  let d' := d + (if decide (p = (false, true)) then 1 else 0) in
  noted s' k' d' /\
  (if decide (l = Some Refusing) then 1 else 0) = refusals_logged k' - refusals_logged k /\
  (if decide (l = Some Disabled) then 1 else 0) = Z.min 1 d' - Z.min 1 d.
Proof.
  intros Hn. pose proof Hn as [[Hk Hd] Hs Hr Ho]. destruct p as [[] []]; cbn [fst snd]; unfold note_posture; cbn [negb andb].
  1-3: rewrite decide_False, Z.add_0_r by done; (split; [eapply noted_other; [done|done|case_decide; lia|case_decide; lia]|]).
  1-2: destruct (bool_decide _); repeat case_decide; try congruence; lia.
  - case_bool_decide as Hin; [assert (d = 0) by (rewrite Ho in Hin; lia)|assert (0 < d) by (by apply Ho)];
      repeat case_decide; try congruence; lia.
  - rewrite decide_True, decide_False, Z.add_0_r by done. destruct (mod_succ k Hk) as [Hm Hq]. unfold refusals_logged.
    change FAIL_CLOSED_REARM_EVERY with 500 in *. rewrite Hs.
    destruct (Z.eqb_spec (k + 1) 0); [lia|]. rewrite Hq.
    destruct (Z.leb_spec 500 (k mod 500 + 1)) as [Hle|Hlt].
    + destruct (Z.eqb_spec k 0) as [->|]; [change (0 mod 500) with 0 in Hle; lia|]. rewrite decide_True, decide_False by done. split_and!; [|lia|lia].
      split; cbn [n_warned n_since]; [lia|exact (eq_sym Hm)| |]; [split; [lia|set_solver]|]. rewrite <-Ho. set_solver.
    + case_bool_decide as Hin.
      * assert (k = 0) as -> by (rewrite Hr in Hin; lia). rewrite decide_True, decide_False by done. split_and!; [|reflexivity|lia].
        split; cbn [n_warned n_since]; [lia|done|split; [lia|set_solver]|]. rewrite <-Ho. set_solver.
      * assert (0 < k) by by apply Hr. destruct (Z.eqb_spec k 0); [lia|]. rewrite !decide_False by done. split_and!; [|lia|lia].
        split; cbn [n_warned n_since]; [lia|exact (eq_sym Hm)| |done]. rewrite Hr. lia.
Qed.

Lemma log_lines ps s k d :
  noted s k d ->
  lines Refusing (log s ps).1 = refusals_logged (k + requests (false, false) ps) - refusals_logged k /\
  lines Disabled (log s ps).1 = Z.min 1 (d + requests (false, true) ps) - Z.min 1 d.
Proof.
  revert s k d. induction ps as [|p ps IH]; intros s k d Hn; cbn [log].
  - change (requests _ []) with 0. change (requests (false, true) []) with 0. rewrite !Z.add_0_r, !Z.sub_diag. done.
  - pose proof (note_step p s k d Hn) as Hst. destruct (note_posture p.1 p.2 s) as [l s'] eqn:E.
    destruct Hst as (Hn' & H1 & H2). specialize (IH _ _ _ Hn'). destruct (log s' ps) as [ls s'']. cbn [fst] in *.
    rewrite !lines_cons, !requests_cons, H1, H2, !Z.add_assoc. lia.
Qed.

(** ** Properties *)

(** C22: What the middleware lets through.  The application is reached
    exactly by scopes that are no HTTP requests and, health probes apart, by
    every request when authentication is opted out of, or by a request one of
    whose [Authorization] headers is a bearer that presents the token, the
    headers before it being no bearers or presenting other texts, unless it
    asks for [/info].  An answer of status 200 is the health document or, for
    a holder of the token, the info document.  With authentication on, 401 is
    the answer without a token, without any bearer and for wrong bearers, each
    with its reason; 400 when the first header that decides is no UTF-8; and
    only a text that is not ASCII, the caller's or the server's, makes an
    exception escape.  A blank header put anywhere changes nothing, and every
    answer declares the length of its body. *)
Theorem tool_access utf8_decode environ info_provider s sc :
  let token := auth_token environ in
  let disabled := auth_disabled_escape_hatch environ in
  let vs := non_empty (auth_values sc) in
  let r := (middleware utf8_decode environ info_provider s sc).1.1 in
  (r = Passed <-> sc_type sc <> "http" \/ health_probe sc = false /\
     (disabled = true \/ authorised utf8_decode environ sc /\ ~ serves_info info_provider sc)) /\
  (forall a, r = Replied a -> re_status a = 200 -> health_probe sc = true /\ a = send_health \/
     disabled = false /\ authorised utf8_decode environ sc /\ serves_info info_provider sc) /\
  (forall a, r = Replied a -> re_status a = 401 -> disabled = false /\
     (token = "" /\ a = send_401 not_configured \/
      Forall (passed_over utf8_decode environ) vs /\ a = send_401 (if existsb is_bearer vs then invalid_token else malformed))) /\
  (forall a, r = Replied a -> re_status a = 400 -> first_is utf8_decode environ (undecodable utf8_decode) vs) /\
  (forall e, r = Escaped e -> e = TypeError /\ disabled = false /\ token <> "" /\
     first_is utf8_decode environ (uncomparable utf8_decode environ) vs) /\
  (forall n blank, str_all byte_space blank = true ->
     (middleware utf8_decode environ info_provider s (insert_header n ("authorization", blank) sc)).1.1 = r) /\
  (forall a, r = Replied a -> od_get (re_headers a) "content-length" = Some (py_str_int (str_len (re_body a)))).
Proof.
  cbv zeta. rewrite !middleware_reply. split_and!.
  - case_decide as Ht; [by split; [left|]|]. destruct (health_probe sc); [by split; [|intros [?|[? _]]]|].
    destruct (auth_disabled_escape_hatch environ) eqn:Hd.
    + unfold authorise. rewrite Hd. split; [|done]. by right; split; [|left].
    + rewrite authorise_passed by done. naive_solver.
  - intros a. case_decide; [done|]. destruct (health_probe sc); [intros [= <-]; by left|]. intros Ha Hs. right.
    destruct (auth_disabled_escape_hatch environ) eqn:Hd; [unfold authorise in Ha; by rewrite Hd in Ha|].
    pose proof (authorise_cases utf8_decode environ info_provider sc Hd) as Hc. rewrite Ha in Hc.
    by destruct Hc as [(? & ? & _)|[(_ & _ & ->)|[[-> _]|(_ & _ & ->)]]].
  - intros a. case_decide; [done|]. destruct (health_probe sc); [by intros [= <-]|]. intros Ha Hs.
    destruct (auth_disabled_escape_hatch environ) eqn:Hd; [unfold authorise in Ha; by rewrite Hd in Ha|]. split; [done|].
    pose proof (authorise_cases utf8_decode environ info_provider sc Hd) as Hc. rewrite Ha in Hc.
    destruct Hc as [(_ & _ & [d|e] & _ & ->)|[(_ & _ & ->)|[[-> ?]|(_ & ? & ->)]]]; [done|done|done|by left|by right].
  - intros a. case_decide; [done|]. destruct (health_probe sc); [by intros [= <-]|]. intros Ha Hs.
    destruct (auth_disabled_escape_hatch environ) eqn:Hd; [unfold authorise in Ha; by rewrite Hd in Ha|].
    pose proof (authorise_cases utf8_decode environ info_provider sc Hd) as Hc. rewrite Ha in Hc.
    by destruct Hc as [(_ & _ & [d|e] & _ & ->)|[(_ & ? & _)|[[-> _]|(_ & _ & ->)]]].
  - intros e. case_decide; [done|]. destruct (health_probe sc); [done|]. intros Ha.
    destruct (auth_disabled_escape_hatch environ) eqn:Hd; [unfold authorise in Ha; by rewrite Hd in Ha|].
    pose proof (authorise_cases utf8_decode environ info_provider sc Hd) as Hc. rewrite Ha in Hc. by destruct Hc as (? & ? & ?).
  - intros n blank Hb. by rewrite middleware_reply, authorise_insert.
  - intros a. case_decide; [done|]. destruct (health_probe sc); [by intros [= <-]|]. apply authorise_length_declared.
Qed.

(** The log lines of the posture, whatever the requests and however the
    posture changes between them: a run of [n] refused requests is reported
    at the first and at every five hundredth, the opt-out once, and nothing
    else is reported. *)
Theorem postures_logged ps :
  lines Refusing (log initial_notes ps).1 = refusals_logged (requests (false, false) ps) /\
  lines Disabled (log initial_notes ps).1 = Z.min 1 (requests (false, true) ps).
Proof.
  assert (Hn : noted initial_notes 0 0) by (split; [lia|done|split; [set_solver|intros ?; lia]..]).
  destruct (log_lines ps _ _ _ Hn) as [-> ->]. unfold refusals_logged at 2. cbn [Z.eqb]. rewrite !Z.add_0_l. split; lia.
Qed.

(** The capped read of an MCP body: the whole body exactly when its
    stream ended and it is within the cap, whatever length was declared; a
    body past the cap is refused before it is buffered, even if its stream
    would fail later; a stream that fails within the cap is a parse error, and
    only a cancellation escapes. *)
Theorem capped_body_exact cap rq :
  0 <= cap ->
  let body := str_concat (rq_chunks rq) in
  match read_capped_body cap rq with
  | Ok (Body b) => b = body /\ str_len b <= cap /\ rq_end rq = StreamDone
  | Ok TooLarge => cap < str_len body
  | Ok ParseError => rq_end rq = StreamFails /\ str_len body <= cap
  | Raise e => e = CancelledError /\ rq_end rq = StreamCancelled /\ str_len body <= cap
  end.
Proof.
  intros Hcap. unfold read_capped_body. pose proof (read_chunks_spec cap "" (rq_chunks rq) (rq_end rq) Hcap) as Hs.
  destruct (read_chunks _ _ _ _) as [[b|]|e]; [|done|].
  - destruct Hs as (-> & ? & He). by destruct (rq_end rq).
  - destruct Hs as [He Hl]. destruct (rq_end rq); [done|by injection He as <-..].
Qed.

(** ** Concrete inputs *)

(** Latin-1 text stands for itself; a lone continuation byte is no text. *)
Definition example_decode (b : string) : option string := if str_all (fun c => negb (code c =? 128)) b then Some b else None.

Definition guarded (v : string) : option string := if decide (v = "MCP_TOOL_AUTH_TOKEN") then Some "s3cret" else None.
Definition opted_out (v : string) : option string := if decide (v = "MCP_TOOL_AUTH_DISABLED") then Some "Yes" else guarded v.
Definition call (path : string) (hs : list string) : scope :=
  mk_scope "http" path (Some "POST") ((fun h => ("authorization", h)) <$> hs).

Example auth_replies :
  (fun hs => (middleware example_decode guarded None initial_notes (call "/mcp" hs)).1.1) <$>
    [["Bearer s3cret"]; [""; "bearer  s3cret "]; ["Basic x"; "Bearer s3cret"]; ["Bearer x"]; ["Basic x"]; [""];
     ["Bearer x"; "Bearer s3cret"]; ["Bearer " +:+ String (byte_of 128) ""]; ["Bearer " +:+ String (byte_of 233) ""]] =
  [Passed; Passed; Passed; Replied (send_401 invalid_token); Replied (send_401 malformed); Replied (send_401 malformed);
   Passed; Replied send_400_invalid_bearer_encoding; Escaped TypeError].
Proof. vm_compute. reflexivity. Qed.

(** With a token and the opt-out both set every request passes, and no line
    says so. *)
Example opt_out_with_token_is_silent :
  middleware example_decode opted_out None initial_notes (call "/mcp" []) = (Passed, None, mk_notes {[(true, true)]} 0).
Proof. vm_compute. reflexivity. Qed.

Lemma capped_body_exact_witness :
  str_len (str_concat ["abc"; "de"]) <= 5 /\ read_capped_body 4 (mk_request "POST" "/mcp" [] ["abc"; "de"] StreamFails) = Ok TooLarge.
Proof.
  split; [|vm_compute; reflexivity].
  pose proof (capped_body_exact 5 (mk_request "POST" "/mcp" [("content-length", "2")] ["abc"; "de"] StreamDone) ltac:(lia)) as H.
  destruct H as (_ & H & _). exact H.
Defined.
