(* ===== verification/EventIngress.v ===== *)
(** * The endpoints for events of the backends (harness/main.py)

    [POST /internal/events/hook-decision] and [POST /internal/events/publish]:
    the dedicated token with no fallback, the capped read, and what reaches
    the hook-decision channel ([Bus]) and the event stream ([EventStream]).
    The environment and the strict decoders of UTF-8 and JSON are
    parameters. *)
From S2P Require Import Prelude PyStr PyVal Http AsyncQueue Broadcast EventSchema EventStream Bus.

(** Hard caps on the two bodies. *)
Definition MAX_HOOK_EVENT_BODY_BYTES : Z := 65536.
Definition MAX_EVENT_PUBLISH_BODY_BYTES : Z := 65536.

(** [_cap]: [str(raw or "")], truncated with a mark. *)
Definition cap_text (raw : pyval) (limit : Z) : string :=
  let s := if truthy raw then py_str raw else "" in
  if limit <? str_len s then str_take (Z.to_nat limit) s +:+ "...[truncated]" else s.

(** The event of a payload. *)
Definition hook_event_of (payload : pydict) : hook_event :=
  let get := dict_get_none payload in
  mk_hook_event (cap_text (get "agent") 256) (cap_text (get "session_id") 256) (cap_text (get "tool") 256)
    (cap_text (get "decision") 64) (cap_text (get "rule_name") 256) (cap_text (get "reason") 4096) (cap_text (get "source") 256)
    (if truthy (get "traceparent") then Some (cap_text (get "traceparent") 256) else None).

Section Ingress.
Variable environ : string -> option string.
(** [bytes.decode] and [json.loads]: [None] is an exception the handlers
    catch. *)
Variable utf8_decode : list Byte.byte -> option string.
Variable json_loads : string -> option pyval.

Definition HOOK_EVENTS_AUTH_TOKEN : string := default "" (environ "HOOK_EVENTS_AUTH_TOKEN").

Definition bearer : string := "Bearer " +:+ HOOK_EVENTS_AUTH_TOKEN.

Definition parse_body (body : string) : option pyval :=
  text ← utf8_decode (String.list_byte_of_string body); json_loads (if decide (text = "") then "{}" else text).

(** *** Hook decisions *)

(** Without a token the legacy one is compared, for a log line; that may
    raise. *)
Definition hook_auth (rq : request) : res bool :=
  let hdr := header rq "authorization" in
  if decide (HOOK_EVENTS_AUTH_TOKEN = "") then
    let legacy := default "" (environ "TRIGGERS_AUTH_TOKEN") in
    if decide (legacy <> "" /\ hdr <> "") then _ <-- compare_digest ("Bearer " +:+ legacy) hdr ;; Ok false else Ok false
  else compare_digest bearer hdr.

(** The body within the cap, or the answer. *)
Definition bounded_body (cap : Z) (rq : request) : string + outcome :=
  if cap <? declared_length rq then inr (Status 413)
  else match read_chunks cap "" (rq_chunks rq) (rq_end rq) with
       | Ok (Some body) => inl body
       | Ok None => inr (Status 413)
       | Raise e => inr (Escapes e)
       end.

Definition hook_decision_event (body : string) : hook_event + outcome :=
  match parse_body body with
  | Some (VDict payload) =>
      let e := hook_event_of payload in
      if decide (h_decision e = "") then inr (Status 400) else inl e
  | _ => inr (Status 400)
  end.

Definition hook_decision_event_handler (raises : listener -> hook_event -> bool) (s : hooks) (rq : request)
  : outcome * option hook_event * calls * hooks :=
  match hook_auth rq with
  | Raise e => (Escapes e, None, [], s)
  | Ok false => (Status 401, None, [], s)
  | Ok true =>
      match bounded_body MAX_HOOK_EVENT_BODY_BYTES rq with
      | inr o => (o, None, [], s)
      | inl body =>
          match hook_decision_event body with
          | inr o => (o, None, [], s)
          | inl e => let '(cs, s') := publish_hook_decision raises s e in (Status 202, Some e, cs, s')
          end
      end
  end.

(** *** Events *)

Definition publish_auth (rq : request) : res bool :=
  if decide (HOOK_EVENTS_AUTH_TOKEN = "") then Ok false else compare_digest bearer (header rq "authorization").

Definition event_publish_handler `{Validator} (rq : request) (rejected : counter) (s : stream) (now : string)
    (now_ov : nat -> string) : outcome * counter * stream :=
  match publish_auth rq with
  | Raise e => (Escapes e, rejected, s)
  | Ok false => (Status 401, bump_label rejected "auth", s)
  | Ok true =>
      match bounded_body MAX_EVENT_PUBLISH_BODY_BYTES rq with
      | inr (Status c) => (Status c, bump_label rejected "over_cap", s)
      | inr o => (o, rejected, s)
      | inl body =>
          let '(r, rejected, s) := parse_and_publish_envelope utf8_decode json_loads (String.list_byte_of_string body)
                                     rejected s now now_ov in
          (match r with Ok (code, _) => Status code | Raise e => Escapes e end, rejected, s)
      end
  end.

(** ** Lemmas *)

Lemma cap_text_length raw limit : 0 <= limit -> str_len (cap_text raw limit) <= limit + 14.
Proof.
  intros Hl. unfold cap_text. set (s := if truthy raw then _ else _). destruct (Z.ltb_spec limit (str_len s)); [|lia].
  rewrite str_len_app. unfold str_len in *. rewrite str_take_length. cbn [String.length]. lia.
Qed.

(** The caller holds the dedicated token. *)
Definition holds_token (rq : request) : Prop :=
  HOOK_EVENTS_AUTH_TOKEN <> "" /\ header rq "authorization" = bearer /\ is_ascii bearer = true.

Lemma hook_auth_true rq : hook_auth rq = Ok true <-> holds_token rq.
Proof.
  unfold hook_auth, holds_token. case_decide as Ht.
  - case_decide; [|naive_solver]. destruct (compare_digest _ _); cbn; naive_solver.
  - rewrite compare_true. naive_solver.
Qed.

Lemma publish_auth_true rq : publish_auth rq = Ok true <-> holds_token rq.
Proof. unfold publish_auth, holds_token. case_decide; [naive_solver|]. rewrite compare_true. naive_solver. Qed.

(** The body is within the cap, as declared and as it arrived. *)
Definition body_ok (cap : Z) (rq : request) : Prop :=
  declared_length rq <= cap /\ rq_end rq = StreamDone /\ str_len (str_concat (rq_chunks rq)) <= cap.

Lemma bounded_body_spec cap rq :
  0 <= cap ->
  match bounded_body cap rq with
  | inl body => body_ok cap rq /\ body = str_concat (rq_chunks rq)
  | inr (Status c) => c = 413 /\ (cap < declared_length rq \/ cap < str_len (str_concat (rq_chunks rq)))
  | inr (Escapes e) => rq_end rq <> StreamDone /\ end_error (rq_end rq) = Some e
  end.
Proof.
  intros Hcap. unfold bounded_body. destruct (Z.ltb_spec cap (declared_length rq)); [auto|].
  pose proof (read_chunks_spec cap "" (rq_chunks rq) (rq_end rq) Hcap) as Hs.
  destruct (read_chunks _ _ _ _) as [[b|]|e].
  - destruct Hs as (-> & Hl & He). unfold body_ok. by destruct (rq_end rq).
  - auto.
  - destruct Hs as [He _]. by destruct (rq_end rq).
Qed.

Lemma bounded_body_ok cap rq : body_ok cap rq -> bounded_body cap rq = inl (str_concat (rq_chunks rq)).
Proof.
  intros (Hd & He & Hl). assert (Hcap : 0 <= cap) by (unfold str_len in Hl; lia).
  pose proof (bounded_body_spec cap rq Hcap) as Hs. destruct (bounded_body cap rq) as [b|[c|e]].
  - by destruct Hs as [_ ->].
  - lia.
  - by destruct Hs.
Qed.
End Ingress.

(** ** Properties *)

(** The fields of an event within the caps of the endpoint. *)
Definition event_capped (e : hook_event) : Prop :=
  str_len (h_agent e) <= 270 /\ str_len (h_session_id e) <= 270 /\ str_len (h_tool e) <= 270 /\ str_len (h_decision e) <= 78 /\
  str_len (h_rule_name e) <= 270 /\ str_len (h_reason e) <= 4110 /\ str_len (h_source e) <= 270 /\
  (forall t, h_traceparent e = Some t -> str_len t <= 270).

Lemma hook_event_of_capped payload : event_capped (hook_event_of payload).
Proof.
  unfold event_capped, hook_event_of. cbn. split_and!; try (apply cap_text_length; lia).
  intros t. destruct (truthy _); [|done]. intros [= <-]. apply cap_text_length. lia.
Qed.

(** The hook-decision endpoint accepts a request exactly when the
    dedicated token is set and presented, the body is within the cap both as
    declared and as it arrived, and it is a JSON object with a decision; then
    one event, every field of it capped, is handed to the channel.  Any other
    request leaves the channel alone: 401 without the token, whatever the
    legacy token, 413 past the cap, 400 for another body; an exception that
    escapes is a text that cannot be compared or the end of the stream. *)
Theorem hook_decision_admitted environ utf8_decode json_loads raises s rq :
  let '(o, ev, cs, s') := hook_decision_event_handler environ utf8_decode json_loads raises s rq in
  let body := str_concat (rq_chunks rq) in
  let admitted := holds_token environ rq /\ body_ok MAX_HOOK_EVENT_BODY_BYTES rq in
  (o = Status 202 <-> admitted /\ exists payload,
     parse_body utf8_decode json_loads body = Some (VDict payload) /\ h_decision (hook_event_of payload) <> "") /\
  (forall e, ev = Some e -> o = Status 202 /\ event_capped e /\ (cs, s') = publish_hook_decision raises s e /\
     exists payload, parse_body utf8_decode json_loads body = Some (VDict payload) /\ e = hook_event_of payload) /\
  (ev = None -> cs = [] /\ s' = s /\ o <> Status 202) /\
  (o = Status 401 -> ~ holds_token environ rq) /\ (o = Status 400 -> admitted) /\
  (forall x, o = Escapes x -> x = TypeError /\ ~ holds_token environ rq \/ rq_end rq <> StreamDone /\ end_error (rq_end rq) = Some x).
Proof.
  unfold hook_decision_event_handler. cbv zeta.
  pose proof (hook_auth_true environ rq) as Ha. destruct (hook_auth environ rq) as [[]|x] eqn:Hauth.
  - assert (Hh : holds_token environ rq) by by apply Ha.
    pose proof (bounded_body_spec MAX_HOOK_EVENT_BODY_BYTES rq ltac:(done)) as Hb.
    destruct (bounded_body MAX_HOOK_EVENT_BODY_BYTES rq) as [body|[c|x]] eqn:Hbody.
    + destruct Hb as [Hok ->]. unfold hook_decision_event.
      destruct (parse_body _ _ _) as [[| | | | | |payload]|]; try (split_and!; naive_solver).
      case_decide as Hd; [split_and!; naive_solver|]. destruct (publish_hook_decision raises s (hook_event_of payload)) as [cs s'] eqn:Hp.
      split_and!; try naive_solver. intros e [= <-]. split_and!; [done|apply hook_event_of_capped|done|naive_solver].
    + destruct Hb as [-> Hc]. assert (Hno : ~ body_ok MAX_HOOK_EVENT_BODY_BYTES rq) by (intros (? & ? & ?); lia).
      split_and!; naive_solver.
    + assert (Hno : ~ body_ok MAX_HOOK_EVENT_BODY_BYTES rq) by (intros (? & ? & ?); by destruct Hb). split_and!; naive_solver.
  - split_and!; naive_solver.
  - assert (x = TypeError) as ->; [|split_and!; naive_solver]. unfold hook_auth in Hauth.
    repeat case_decide; try done; [|by apply compare_raises in Hauth as [-> _]].
    destruct (compare_digest _ _) eqn:Hc; [done|]. apply compare_raises in Hc. naive_solver.
Qed.

(** ** Concrete inputs *)

Definition ingress_environ (v : string) : option string :=
  if decide (v = "HOOK_EVENTS_AUTH_TOKEN") then Some "t0k" else if decide (v = "TRIGGERS_AUTH_TOKEN") then Some "legacy" else None.
Definition ingress_loads (s : string) : option pyval :=
  if decide (s = "deny") then Some (VDict (mk_dict [("decision", VStr "deny"); ("tool", VList [VInt 1])])) else Some (VDict []).
Definition ingress_request (auth : string) (chunks : list string) : request :=
  mk_request "POST" "/internal/events/hook-decision" [("authorization", auth)] chunks StreamDone.
Definition ingress_answer (auth : string) (chunks : list string) : outcome * option hook_event :=
  (hook_decision_event_handler ingress_environ (fun b => Some (String.string_of_list_byte b)) ingress_loads (fun _ _ => false)
     new_hooks (ingress_request auth chunks)).1.1.

Example hook_decision_answers :
  ingress_answer "Bearer t0k" ["de"; "ny"] = (Status 202, Some (mk_hook_event "" "" "[1]" "deny" "" "" "" None)) /\
  ingress_answer "Bearer t0k" [] = (Status 400, None) /\ ingress_answer "Bearer legacy" ["deny"] = (Status 401, None) /\
  ingress_answer "" ["deny"] = (Status 401, None) /\
  ingress_answer (String (Ascii.ascii_of_nat 233) "") ["deny"] = (Escapes TypeError, None).
Proof. vm_compute. repeat split. Qed.
