(* ===== verification/HookTransport.v ===== *)
(** * Events from the backends to the harness (shared/hook_events.py)

    The fire-and-forget transport: the cap on posts in flight, its two sets
    (tasks of the loop, futures of other threads) with the lock that guards
    them, the post with its retry, its circuit breaker and its re-armed
    warnings.  Posts are interleaved at their suspension points; a thread that
    registers a cross-thread post holds the lock between two steps.  The
    network, the clock and the validator are parameters of the steps.
    [EventIngress] is the other end. *)
From S2P Require Import Prelude PyStr PyVal Http AsyncQueue Broadcast EventSchema EventStream Bus EventIngress.

(** ** Configuration *)

Record config : Type := mk_config {
  HARNESS_EVENTS_URL : string;
  HARNESS_EVENTS_PUBLISH_URL : string;
  AUTH_TOKEN : string;
  HOOK_POST_MAX_INFLIGHT : Z;
  AUTH_REARM_EVERY : Z;
  STATUS_REARM_EVERY : Z;
  HOOK_POST_CB_WINDOW : Z;
  (** a fraction *)
  HOOK_POST_CB_FAIL_RATIO : Z * Z;
  HOOK_POST_CB_COOLDOWN : Z;
  (** whether [HOOK_POST_RETRY_MAX_DELAY] is positive *)
  RETRY : bool
}.

(** [HOOK_EVENTS_AUTH_TOKEN] of the backend: the first alias that is set. *)
Definition transport_token (environ : string -> option string) : string :=
  let get v := default "" (environ v) in
  if decide (get "HOOK_EVENTS_AUTH_TOKEN" <> "") then get "HOOK_EVENTS_AUTH_TOKEN"
  else if decide (get "HARNESS_EVENTS_AUTH_TOKEN" <> "") then get "HARNESS_EVENTS_AUTH_TOKEN"
  else get "TRIGGERS_AUTH_TOKEN".

Definition hook_suffix : string := "/internal/events/hook-decision".

Definition resolve_publish_url (c : config) : string :=
  if decide (HARNESS_EVENTS_PUBLISH_URL c <> "") then HARNESS_EVENTS_PUBLISH_URL c
  else if decide (HARNESS_EVENTS_URL c = "") then ""
  else
    let base := str_rstrip "/" (HARNESS_EVENTS_URL c) in
    let base := if endswith hook_suffix base then str_take (String.length base - String.length hook_suffix) base else base in
    base +:+ "/internal/events/publish".

(** ** The circuit breaker *)

Record breaker : Type := mk_breaker { cb_recent : list bool; cb_open_until : Z }.

Definition new_breaker : breaker := mk_breaker [] 0.

Definition fails (os : list bool) : Z := Z.of_nat (length (filter (fun o => o = true) os)).

(** [_cb_record]; a window that is not positive divides by zero. The ratio is
    compared exactly. *)
Definition cb_record (c : config) (now : Z) (failed : bool) (b : breaker) : res breaker :=
  let w := HOOK_POST_CB_WINDOW c in
  let recent := cb_recent b ++ [failed] in
  let n := Z.of_nat (length recent) in
  let recent := if w <? n then drop (Z.to_nat (n - w)) recent else recent in
  let n := Z.of_nat (length recent) in
  if w <=? n then
    if n =? 0 then Raise OtherError
    else if (HOOK_POST_CB_FAIL_RATIO c).1 * n <=? fails recent * (HOOK_POST_CB_FAIL_RATIO c).2
         then Ok (mk_breaker [] (now + HOOK_POST_CB_COOLDOWN c))
         else Ok (mk_breaker recent (cb_open_until b))
  else Ok (mk_breaker recent (cb_open_until b)).

Definition cb_is_open (now : Z) (b : breaker) : bool := now <? cb_open_until b.

(** ** Re-armed warnings *)

Record rearm : Type := mk_rearm { ra_warned : bool; ra_dropped : Z }.

Definition fresh_rearm : rearm := mk_rearm false 0.

(** One drop: the count of the warning, if there is one. *)
Definition note_drop (every : Z) (r : rearm) : option Z * rearm :=
  let n := ra_dropped r + 1 in
  if negb (ra_warned r) || (every <=? n) then (Some n, mk_rearm true 0) else (None, mk_rearm (ra_warned r) n).

(** ** Posts *)

Inductive stage : Type := New | Posting (attempt : nat) | Backoff | Over | Settled.

(** How a post was scheduled: by [schedule_post]; by [schedule_event_post] on
    the loop, or from another thread. *)
Inductive channel : Type := Decision | Event | CrossThread.

Record post : Type := mk_post { p_channel : channel; p_url : string; p_body : pydict; p_stage : stage }.

Definition set_stage (p : post) (s : stage) : post := mk_post (p_channel p) (p_url p) (p_body p) s.

#[export] Instance channel_eq_dec : EqDecision channel.
Proof. solve_decision. Defined.
#[export] Instance stage_eq_dec : EqDecision stage.
Proof. solve_decision. Defined.

(** The posts, [_INFLIGHT], [_INFLIGHT_CF], and [_inflight_lock]: the
    cross-thread post whose registration holds it. *)
Record pool : Type := mk_pool {
  x_posts : gmap nat post;
  x_tasks : gset nat;
  x_futures : gset nat;
  x_lock : option nat;
  x_next : nat;
  x_shed_warned : bool;
  x_sheds : Z;
  (** ghost: the requests made, latest first *)
  x_requests : list (nat * string * pydict)
}.

Record notices : Type := mk_notices { nt_auth : rearm; nt_status : rearm; nt_url : bool; nt_no_loop : bool }.

Record transport : Type := mk_transport { x_pool : pool; x_breaker : breaker; x_notices : notices }.

Definition new_transport : transport :=
  mk_transport (mk_pool ∅ ∅ ∅ None 0 false 0 []) new_breaker (mk_notices fresh_rearm fresh_rearm false false).

Definition with_pool (x : transport) (q : pool) : transport := mk_transport q (x_breaker x) (x_notices x).

Definition put_post (q : pool) (i : nat) (p : post) : pool :=
  mk_pool (<[i := p]> (x_posts q)) (x_tasks q) (x_futures q) (x_lock q) (x_next q) (x_shed_warned q) (x_sheds q) (x_requests q).

Definition set_sets (q : pool) (tasks futures : gset nat) (lock : option nat) (warned : bool) : pool :=
  mk_pool (x_posts q) tasks futures lock (x_next q) warned (x_sheds q) (x_requests q).

(** A new post, in the set of its kind; the thread that adds a future keeps
    the lock. *)
Definition add_post (q : pool) (ch : channel) (url : string) (body : pydict) : pool :=
  let i := x_next q in
  let cross := bool_decide (ch = CrossThread) in
  mk_pool (<[i := mk_post ch url body New]> (x_posts q))
    (if cross then x_tasks q else {[i]} ∪ x_tasks q) (if cross then {[i]} ∪ x_futures q else x_futures q)
    (if cross then Some i else x_lock q) (S i) (x_shed_warned q) (x_sheds q) (x_requests q).

(** A request is on its way. *)
Definition request_made (q : pool) (i : nat) (p : post) (attempt : nat) : pool :=
  mk_pool (<[i := set_stage p (Posting attempt)]> (x_posts q)) (x_tasks q) (x_futures q) (x_lock q) (x_next q)
    (x_shed_warned q) (x_sheds q) ((i, p_url p, p_body p) :: x_requests q).

Definition size_of (s : gset nat) : Z := Z.of_nat (size s).

Section Transport.
Variable c : config.

(** ** Scheduling *)

(** At the cap: one warning until the set drains, and the counter. *)
Definition shed (counted : bool) (q : pool) : pool :=
  mk_pool (x_posts q) (x_tasks q) (x_futures q) (x_lock q) (x_next q) true (if counted then x_sheds q + 1 else x_sheds q)
    (x_requests q).

(** The calls below answer whether a post was scheduled. [on_loop]: the caller
    runs on an event loop. *)
Definition schedule_post (event : pydict) (on_loop counted : bool) (q : pool) : bool * pool :=
  if decide (HARNESS_EVENTS_URL c = "") then (false, q)
  else if HOOK_POST_MAX_INFLIGHT c <=? size_of (x_tasks q) then (false, shed counted q)
  else if negb on_loop then (false, q)
  else (true, add_post q Decision (str_rstrip "/" (HARNESS_EVENTS_URL c) +:+ hook_suffix) event).

Definition event_envelope (type_ : string) (version : Z) (ts : string) (agent_id : option string) (payload : pydict) : pydict :=
  mk_dict [("type", VStr type_); ("version", VInt version); ("id", VStr "0"); ("ts", VStr ts);
           ("agent_id", from_option VStr VNone agent_id); ("payload", VDict payload)].

(** Before the lock: the address, noted once when there is none, and the
    validation. *)
Definition prepare_event (envelope : pydict) (n : notices) : option string * notices :=
  let url := resolve_publish_url c in
  if decide (url = "") then (None, mk_notices (nt_auth n) (nt_status n) true (nt_no_loop n))
  else match validate_envelope (VDict envelope) with
       | Ok None => (Some url, n)
       | _ => (None, n)
       end.

(** Under the lock; [bound]: a loop is bound and open, for callers that run on
    none. *)
Definition enqueue_event (url : string) (envelope : pydict) (on_loop bound counted : bool) (x : transport) : bool * transport :=
  let q := x_pool x in
  if HOOK_POST_MAX_INFLIGHT c <=? size_of (x_tasks q) + size_of (x_futures q) then (false, with_pool x (shed counted q))
  else if on_loop then (true, with_pool x (add_post q Event url envelope))
  else if bound then (true, with_pool x (add_post q CrossThread url envelope))
  else (false, mk_transport q (x_breaker x) (mk_notices (nt_auth (x_notices x)) (nt_status (x_notices x)) (nt_url (x_notices x)) true)).

Definition schedule_event_post (type_ : string) (version : Z) (ts : string) (agent_id : option string) (payload : pydict)
    (on_loop bound counted : bool) (x : transport) : bool * transport :=
  let envelope := event_envelope type_ version ts agent_id payload in
  match prepare_event envelope (x_notices x) with
  | (None, n) => (false, mk_transport (x_pool x) (x_breaker x) n)
  | (Some url, n) => enqueue_event url envelope on_loop bound counted (mk_transport (x_pool x) (x_breaker x) n)
  end.

(** ** The post *)

(** Its first turn, up to its request or its end. [client_ok]: there is a
    client, or one can be made. *)
Definition failed_post (now : Z) (x : transport) (i : nat) (p : post) : transport :=
  mk_transport (put_post (x_pool x) i (set_stage p Over))
    (match cb_record c now true (x_breaker x) with Ok b => b | Raise _ => x_breaker x end) (x_notices x).

Definition start_post (now : Z) (client_ok : bool) (x : transport) (i : nat) (p : post) : transport :=
  if decide (AUTH_TOKEN c = "") then
    let n := x_notices x in
    mk_transport (put_post (x_pool x) i (set_stage p Over)) (x_breaker x)
      (mk_notices (note_drop (AUTH_REARM_EVERY c) (nt_auth n)).2 (nt_status n) (nt_url n) (nt_no_loop n))
  else if cb_is_open now (x_breaker x) then with_pool x (put_post (x_pool x) i (set_stage p Over))
  else if client_ok then with_pool x (request_made (x_pool x) i p 0)
  else failed_post now x i p.

(** The response of status [status]: recorded, then noted. A record that
    raises ends the post, after a second record that raises too. *)
Definition finish_post (now status : Z) (x : transport) (i : nat) (p : post) : transport :=
  let q := put_post (x_pool x) i (set_stage p Over) in
  match cb_record c now (500 <=? status) (x_breaker x) with
  | Raise _ => mk_transport q (x_breaker x) (x_notices x)
  | Ok b =>
      let n := x_notices x in
      let r := if 400 <=? status then (note_drop (STATUS_REARM_EVERY c) (nt_status n)).2 else fresh_rearm in
      mk_transport q b (mk_notices (nt_auth n) r (nt_url n) (nt_no_loop n))
  end.

(** [_done] and [_done_cb]. *)
Definition post_done (q : pool) (i : nat) (p : post) : pool :=
  let q := put_post q i (set_stage p Settled) in
  if decide (p_channel p = CrossThread) then set_sets q (x_tasks q) (x_futures q ∖ {[i]}) (x_lock q) (x_shed_warned q)
  else
    let tasks := x_tasks q ∖ {[i]} in
    set_sets q tasks (x_futures q) (x_lock q)
      (if size_of tasks <? HOOK_POST_MAX_INFLIGHT c / 2 then false else x_shed_warned q).

Definition running (s : stage) : bool := match s with New | Posting _ | Backoff => true | Over | Settled => false end.

Definition post_at (x : transport) (i : nat) (p : post) (s : stage) : Prop := x_posts (x_pool x) !! i = Some p /\ p_stage p = s.

Inductive step : transport -> transport -> Prop :=
(** the two calls; what needs the lock finds it free *)
| st_decision x event on_loop counted : x_lock (x_pool x) = None ->
    step x (with_pool x (schedule_post event on_loop counted (x_pool x)).2)
| st_event x type_ version ts agent_id payload on_loop bound counted :
    (prepare_event (event_envelope type_ version ts agent_id payload) (x_notices x)).1 = None \/ x_lock (x_pool x) = None ->
    step x (schedule_event_post type_ version ts agent_id payload on_loop bound counted x).2
(** the callback of a cross-thread post is registered before it is settled,
    and the lock released *)
| st_registered x i p : x_lock (x_pool x) = Some i -> x_posts (x_pool x) !! i = Some p -> p_stage p <> Settled ->
    step x (with_pool x (set_sets (x_pool x) (x_tasks (x_pool x)) (x_futures (x_pool x)) None (x_shed_warned (x_pool x))))
(** it is settled first: the callback will run in the registering thread,
    which holds the lock that it takes *)
| st_settled_first x i p : x_lock (x_pool x) = Some i -> post_at x i p Over ->
    step x (with_pool x (put_post (x_pool x) i (set_stage p Settled)))
(** the post *)
| st_start x i p now client_ok : post_at x i p New -> step x (start_post now client_ok x i p)
| st_response x i p n now status : post_at x i p (Posting n) -> step x (finish_post now status x i p)
| st_retry x i p : post_at x i p (Posting 0) -> RETRY c = true ->
    step x (with_pool x (put_post (x_pool x) i (set_stage p Backoff)))
| st_again x i p : post_at x i p Backoff -> step x (with_pool x (request_made (x_pool x) i p 1))
| st_failed x i p n now : post_at x i p (Posting n) -> step x (failed_post now x i p)
| st_cancelled x i p : x_posts (x_pool x) !! i = Some p -> running (p_stage p) = true ->
    step x (with_pool x (put_post (x_pool x) i (set_stage p Over)))
| st_done x i p : post_at x i p Over -> x_lock (x_pool x) = None -> step x (with_pool x (post_done (x_pool x) i p)).

(** ** The invariant *)

Definition attempts (q : pool) (i : nat) : nat := length (filter (fun r => r.1.1 = i) (x_requests q)).

(** The requests a post has made, by its stage. *)
Definition bound_of (s : stage) : nat :=
  match s with New => 0 | Posting n => S n | Backoff => 1 | Over | Settled => if RETRY c then 2 else 1 end.

Definition stage_valid (s : stage) : Prop :=
  match s with
  | Posting n => AUTH_TOKEN c <> "" /\ (n = 0%nat \/ n = 1%nat /\ RETRY c = true)
  | Backoff => AUTH_TOKEN c <> "" /\ RETRY c = true
  | _ => True
  end.

Definition addressed (p : post) : Prop :=
  match p_channel p with
  | Decision => HARNESS_EVENTS_URL c <> "" /\ p_url p = str_rstrip "/" (HARNESS_EVENTS_URL c) +:+ hook_suffix
  | _ => resolve_publish_url c <> "" /\ p_url p = resolve_publish_url c /\ validate_envelope (VDict (p_body p)) = Ok None
  end.

Definition post_ok (q : pool) (i : nat) (p : post) : Prop :=
  (attempts q i <= bound_of (p_stage p))%nat /\ stage_valid (p_stage p) /\ addressed p.

Definition tracked (q : pool) (i : nat) (p : post) : Prop := p_stage p <> Settled \/ x_lock q = Some i.

Record pool_ok (q : pool) : Prop := {
  po_fresh : forall i p, x_posts q !! i = Some p -> (i < x_next q)%nat;
  po_posts : forall i p, x_posts q !! i = Some p -> post_ok q i p;
  po_tasks : forall i, i ∈ x_tasks q <-> exists p, x_posts q !! i = Some p /\ p_channel p <> CrossThread /\ p_stage p <> Settled;
  po_futures : forall i, i ∈ x_futures q <-> exists p, x_posts q !! i = Some p /\ p_channel p = CrossThread /\ tracked q i p;
  po_lock : forall i, x_lock q = Some i -> exists p, x_posts q !! i = Some p /\ p_channel p = CrossThread;
  po_cap : size_of (x_tasks q) <= Z.max 0 (HOOK_POST_MAX_INFLIGHT c) /\ size_of (x_futures q) <= Z.max 0 (HOOK_POST_MAX_INFLIGHT c);
  po_shared : (forall i p, x_posts q !! i = Some p -> p_channel p <> Decision) ->
              size_of (x_tasks q) + size_of (x_futures q) <= Z.max 0 (HOOK_POST_MAX_INFLIGHT c);
  po_requests : forall i u b, (i, u, b) ∈ x_requests q ->
                AUTH_TOKEN c <> "" /\ exists p, x_posts q !! i = Some p /\ u = p_url p /\ b = p_body p
}.

Lemma new_pool_ok : pool_ok (x_pool new_transport).
Proof. split; cbn; try done; try set_solver; unfold size_of; rewrite size_empty; try lia. Qed.

(** A post goes on without being settled. *)
Lemma put_ok q i p s :
  pool_ok q -> x_posts q !! i = Some p -> p_stage p <> Settled -> s <> Settled -> stage_valid s ->
  (bound_of (p_stage p) <= bound_of s)%nat -> pool_ok (put_post q i (set_stage p s)).
Proof.
  intros [H1 H2 H3 H4 H5 H6 H7 H8] Hi Hp Hs Hv Hb.
  assert (Hsame : forall k p', x_posts q !! k = Some p' -> exists p'', x_posts (put_post q i (set_stage p s)) !! k = Some p'' /\
            p_channel p'' = p_channel p' /\ (p_stage p'' <> Settled <-> p_stage p' <> Settled) /\ p_url p'' = p_url p' /\ p_body p'' = p_body p').
  { intros k p' Hk. cbn. destruct (decide (k = i)) as [->|Hne].
    - rewrite lookup_insert_eq. exists (set_stage p s). assert (p' = p) as -> by congruence. done.
    - rewrite lookup_insert_ne by done. by exists p'. }
  assert (Hback : forall k p'', x_posts (put_post q i (set_stage p s)) !! k = Some p'' -> exists p', x_posts q !! k = Some p' /\
            p_channel p'' = p_channel p' /\ (p_stage p'' <> Settled <-> p_stage p' <> Settled)).
  { cbn. intros k p''. intros [[<- <-]|[_ Hk]]%lookup_insert_Some; [exists p|exists p'']; done. }
  split; unfold tracked; cbn [put_post x_posts x_tasks x_futures x_lock x_next x_requests]; try done.
  - intros k p'. intros [[<- <-]|[_ Hk]]%lookup_insert_Some; by eapply H1.
  - intros k p'. intros [[<- <-]|[_ Hk]]%lookup_insert_Some; [|by apply (H2 _ _ Hk)].
    destruct (H2 _ _ Hi) as (Ha & _ & Had). split_and!; [|done|done]. change (attempts _ i) with (attempts q i). cbn. lia.
  - intros k. rewrite H3. split; intros (p' & Hk & Hc & Hst).
    + destruct (Hsame _ _ Hk) as (p'' & Hk' & E1 & E2 & _). exists p''. rewrite E1, E2. done.
    + destruct (Hback _ _ Hk) as (p'' & Hk' & E1 & E2). exists p''. rewrite <-E1, <-E2. done.
  - intros k. rewrite H4. unfold tracked. split; intros (p' & Hk & Hc & Hst).
    + destruct (Hsame _ _ Hk) as (p'' & Hk' & E1 & E2 & _). exists p''. rewrite E1, E2. done.
    + destruct (Hback _ _ Hk) as (p'' & Hk' & E1 & E2). exists p''. rewrite <-E1, <-E2. done.
  - intros k (p' & Hk & Hc)%H5. destruct (Hsame _ _ Hk) as (p'' & Hk' & E1 & _). exists p''. by rewrite E1.
  - intros Hall. apply H7. intros k p' Hk. destruct (Hsame _ _ Hk) as (p'' & Hk' & E1 & _). rewrite <-E1. by eapply Hall.
  - intros k u b (Ht & p' & Hk & -> & ->)%H8. split; [done|]. destruct (Hsame _ _ Hk) as (p'' & Hk' & _ & _ & E3 & E4).
    exists p''. by rewrite E3, E4.
Qed.

(** A request is logged for a post whose stage allows one more. *)
Lemma log_ok q i p :
  pool_ok q -> x_posts q !! i = Some p -> (attempts q i < bound_of (p_stage p))%nat -> AUTH_TOKEN c <> "" ->
  pool_ok (mk_pool (x_posts q) (x_tasks q) (x_futures q) (x_lock q) (x_next q) (x_shed_warned q) (x_sheds q)
             ((i, p_url p, p_body p) :: x_requests q)).
Proof.
  intros [H1 H2 H3 H4 H5 H6 H7 H8] Hi Hlt Ht. split; try done; cbn [x_posts x_requests].
  - intros k p' Hk. destruct (H2 _ _ Hk) as (Ha & Hv & Had). split; [|done]. unfold attempts in *. cbn [x_requests].
    rewrite filter_cons. cbn [fst]. destruct (decide (i = k)) as [->|]; [|done]. assert (p' = p) as -> by congruence.
    cbn [length]. lia.
  - intros k u b. intros [[= -> -> ->]|Hin]%elem_of_cons; [by split; [|exists p]|by apply H8].
Qed.

Lemma request_ok q i p n :
  pool_ok q -> x_posts q !! i = Some p -> p_stage p <> Settled -> stage_valid (Posting n) ->
  (bound_of (p_stage p) < S n)%nat -> pool_ok (request_made q i p n).
Proof.
  intros Hq Hi Hp Hv Hb. assert (Hput : pool_ok (put_post q i (set_stage p (Posting n)))) by (apply put_ok; try done; cbn; lia).
  apply (log_ok _ i (set_stage p (Posting n))) in Hput; [done|cbn; by rewrite lookup_insert_eq| |apply Hv].
  destruct (po_posts _ Hq _ _ Hi) as (Ha & _). change (attempts _ i) with (attempts q i). cbn. lia.
Qed.

Lemma size_of_add i s : i ∉ s -> size_of ({[i]} ∪ s) = 1 + size_of s.
Proof. intros Hi. unfold size_of. rewrite size_union by set_solver. rewrite size_singleton. lia. Qed.

Lemma size_del i s : size_of (s ∖ {[i]}) <= size_of s.
Proof. unfold size_of. pose proof (subseteq_size (s ∖ {[i]}) s). set_unfold in H. naive_solver lia. Qed.

Lemma not_next q : pool_ok q -> (x_next q ∉ x_tasks q) /\ (x_next q ∉ x_futures q) /\ x_posts q !! x_next q = None.
Proof.
  intros Hq. assert (Hn : x_posts q !! x_next q = None).
  { apply eq_None_not_Some. intros [p Hp]. apply (po_fresh _ Hq) in Hp. lia. }
  split_and!; [| |done]; [intros (p & Hp & _)%(po_tasks _ Hq)|intros (p & Hp & _)%(po_futures _ Hq)]; congruence.
Qed.

Lemma add_ok q ch url body :
  pool_ok q -> x_lock q = None -> addressed (mk_post ch url body New) ->
  size_of (x_tasks q) + (if decide (ch = Decision) then 0 else size_of (x_futures q)) < HOOK_POST_MAX_INFLIGHT c ->
  pool_ok (add_post q ch url body).
Proof.
  intros Hq Hl Had Hcap. destruct (not_next _ Hq) as (Hnt & Hnf & Hnp). destruct Hq as [H1 H2 H3 H4 H5 H6 H7 H8].
  assert (Hsz : 0 <= size_of (x_tasks q) /\ 0 <= size_of (x_futures q)) by (unfold size_of; lia).
  assert (Hold : forall k p', x_posts q !! k = Some p' -> <[x_next q:=mk_post ch url body New]> (x_posts q) !! k = Some p').
  { intros k p' Hk. rewrite lookup_insert_ne; [done|]. intros <-. congruence. }
  assert (Hno : forall u b, (x_next q, u, b) ∉ x_requests q) by (intros u b (_ & p & Hp & _)%H8; congruence).
  split; unfold tracked; cbn [add_post x_posts x_tasks x_futures x_lock x_next x_requests]; try done.
  - intros k p'. intros [[<- <-]|[_ Hk]]%lookup_insert_Some; [lia|]. apply H1 in Hk. lia.
  - intros k p'. intros [[<- <-]|[_ Hk]]%lookup_insert_Some; [|by apply (H2 _ _ Hk)]. split_and!; [|done|done].
    unfold attempts. cbn [add_post x_requests]. rewrite filter_none; [cbn; lia|]. apply Forall_forall. intros [[k u] b] Hin Heq.
    cbn in Heq. subst k. by apply Hno in Hin.
  - intros k. case_bool_decide as Hc.
    + rewrite H3. split; intros (p' & Hk & Hc' & Hs); [exists p'; by rewrite (Hold _ _ Hk)|].
      apply lookup_insert_Some in Hk as [[_ <-]|[_ Hk]]; [by destruct Hc'|by exists p'].
    + rewrite elem_of_union, elem_of_singleton, H3. split.
      * intros [->|(p' & Hk & ?)]; [exists (mk_post ch url body New); by rewrite lookup_insert_eq|exists p'; by rewrite (Hold _ _ Hk)].
      * intros (p' & Hk & ?). apply lookup_insert_Some in Hk as [[<- _]|[_ Hk]]; [by left|right; by exists p'].
  - intros k. rewrite Hl. case_bool_decide as Hc.
    + rewrite elem_of_union, elem_of_singleton, H4. unfold tracked. rewrite Hl. split.
      * intros [->|(p' & Hk & Hc' & [Hs|?])]; [exists (mk_post ch url body New); rewrite lookup_insert_eq; naive_solver| |done].
        exists p'. rewrite (Hold _ _ Hk). naive_solver.
      * intros (p' & Hk & Hc' & Hs). apply lookup_insert_Some in Hk as [[<- _]|[Hne Hk]]; [by left|right]. exists p'. naive_solver.
    + rewrite H4. unfold tracked. rewrite Hl. split; intros (p' & Hk & Hc' & Hs); [exists p'; by rewrite (Hold _ _ Hk)|].
      apply lookup_insert_Some in Hk as [[_ <-]|[_ Hk]]; [by destruct Hc|by exists p'].
  - intros k. case_bool_decide as Hc; [|by rewrite Hl]. intros [= <-]. eexists. by rewrite lookup_insert_eq.
  - case_bool_decide; rewrite ?size_of_add by done; case_decide; try congruence; lia.
  - intros Hall. assert (Hch : ch <> Decision) by (apply (Hall (x_next q) (mk_post ch url body New)); by rewrite lookup_insert_eq).
    rewrite decide_False in Hcap by done. destruct (bool_decide _); rewrite ?size_of_add by done; lia.
  - intros k u b (Ht & p' & Hk & ?)%H8. split; [done|]. exists p'. by rewrite (Hold _ _ Hk).
Qed.

Lemma shed_ok counted q : pool_ok q -> pool_ok (shed counted q).
Proof. intros []. by split. Qed.

Lemma registered_ok q i p w :
  pool_ok q -> x_lock q = Some i -> x_posts q !! i = Some p -> p_stage p <> Settled ->
  pool_ok (set_sets q (x_tasks q) (x_futures q) None w).
Proof.
  intros [H1 H2 H3 H4 H5 H6 H7 H8] Hl Hi Hp. split; unfold tracked; cbn [set_sets x_posts x_tasks x_futures x_lock x_next x_requests]; try done.
  intros k. rewrite H4. unfold tracked. rewrite Hl. split; intros (p' & Hk & Hc & Hs); exists p'; (split_and!; [done|done|left]).
  - destruct Hs as [?|[= <-]]; [done|]. congruence.
  - by destruct Hs.
Qed.

(** A post is settled: what is no longer tracked has left its set. *)
Lemma settle_ok q q' i p :
  pool_ok q -> x_posts q !! i = Some p -> p_stage p = Over ->
  x_posts q' = <[i := set_stage p Settled]> (x_posts q) -> x_lock q' = x_lock q -> x_next q' = x_next q -> x_requests q' = x_requests q ->
  (forall k, k ∈ x_tasks q' <-> k ∈ x_tasks q /\ k <> i) ->
  (forall k, k ∈ x_futures q' <-> k ∈ x_futures q /\ (k <> i \/ x_lock q = Some i)) ->
  size_of (x_tasks q') <= size_of (x_tasks q) /\ size_of (x_futures q') <= size_of (x_futures q) -> pool_ok q'.
Proof.
  intros [H1 H2 H3 H4 H5 H6 H7 H8] Hi Hp Eq El En Er Ht Hf Hsz.
  assert (Hk' : forall k p', x_posts q' !! k = Some p' <-> (k = i /\ p' = set_stage p Settled) \/ (k <> i /\ x_posts q !! k = Some p')).
  { intros k p'. rewrite Eq, lookup_insert_Some. naive_solver. }
  split.
  - intros k p'. rewrite En, Hk'. intros [[-> _]|[_ Hk]]; by eapply H1.
  - intros k p'. rewrite Hk'. unfold post_ok, attempts. rewrite Er. intros [[-> ->]|[_ Hk]]; [|by apply (H2 _ _ Hk)].
    destruct (H2 _ _ Hi) as (Ha & _ & Had). rewrite Hp in Ha. done.
  - intros k. rewrite Ht, H3. setoid_rewrite Hk'. naive_solver.
  - intros k. rewrite Hf, H4. unfold tracked. rewrite El. setoid_rewrite Hk'. split.
    + intros [(p' & Hk & Hc & Hs) Hx]. destruct (decide (k = i)) as [->|Hne]; [|exists p'; naive_solver].
      assert (p' = p) as -> by congruence. exists (set_stage p Settled). naive_solver.
    + intros (p' & [[-> ->]|[Hne Hk]] & Hc & Hs); [|naive_solver]. destruct Hs as [Hs|Hs]; [done|]. split; [|by right]. exists p. naive_solver.
  - intros k. rewrite El. intros (p' & Hk & Hc)%H5. destruct (decide (k = i)) as [->|Hne].
    + exists (set_stage p Settled). rewrite Hk'. assert (p' = p) as -> by congruence. naive_solver.
    + exists p'. rewrite Hk'. naive_solver.
  - lia.
  - intros Hall. assert (Hcap : size_of (x_tasks q) + size_of (x_futures q) <= Z.max 0 (HOOK_POST_MAX_INFLIGHT c)); [|lia].
    apply H7. intros k p' Hk. destruct (decide (k = i)) as [->|Hne].
    + assert (p' = p) as -> by congruence. apply (Hall i (set_stage p Settled)). rewrite Hk'. by left.
    + apply (Hall k p'). rewrite Hk'. by right.
  - intros k u b. rewrite Er. intros (Hd & p' & Hk & -> & ->)%H8. split; [done|]. destruct (decide (k = i)) as [->|Hne].
    + exists (set_stage p Settled). rewrite Hk'. assert (p' = p) as -> by congruence. naive_solver.
    + exists p'. rewrite Hk'. naive_solver.
Qed.

Lemma done_ok q i p : pool_ok q -> x_posts q !! i = Some p -> p_stage p = Over -> x_lock q = None -> pool_ok (post_done q i p).
Proof.
  intros Hq Hi Hp Hl. unfold post_done. pose proof (size_del i (x_tasks q)). pose proof (size_del i (x_futures q)).
  case_decide as Hc; eapply settle_ok; try done; cbn [set_sets put_post x_tasks x_futures x_lock]; rewrite ?Hl.
  - intros k. split; [|tauto]. intros Hk. split; [done|]. intros ->. apply (po_tasks _ Hq) in Hk as (p' & Hk & Hc' & _). congruence.
  - set_solver.
  - set_solver.
  - intros k. split; [|tauto]. intros Hk. split; [done|left]. intros ->. apply (po_futures _ Hq) in Hk as (p' & Hk & Hc' & _). congruence.
Qed.

Lemma settled_first_ok q i p :
  pool_ok q -> x_posts q !! i = Some p -> p_stage p = Over -> x_lock q = Some i -> pool_ok (put_post q i (set_stage p Settled)).
Proof.
  intros Hq Hi Hp Hl. eapply settle_ok; try done; cbn [put_post x_tasks x_futures].
  - intros k. split; [|tauto]. intros Hk. split; [done|]. intros ->. apply (po_tasks _ Hq) in Hk as (p' & Hk & Hc & _).
    destruct (po_lock _ Hq _ Hl) as (p'' & Hk'' & Hc''). congruence.
  - rewrite Hl. naive_solver.
Qed.

(** *** Steps *)

Lemma over_ok q i p : pool_ok q -> x_posts q !! i = Some p -> running (p_stage p) = true -> pool_ok (put_post q i (set_stage p Over)).
Proof.
  intros Hq Hi Hr. destruct (po_posts _ Hq _ _ Hi) as (_ & Hv & _). apply put_ok; try done; [by intros Hs; rewrite Hs in Hr|].
  destruct (p_stage p) as [|n| | |]; try done; cbn in *; [lia| |]; destruct (RETRY c); naive_solver lia.
Qed.

Lemma enqueue_ok url envelope on_loop bound counted x :
  pool_ok (x_pool x) -> x_lock (x_pool x) = None -> resolve_publish_url c = url -> url <> "" ->
  validate_envelope (VDict envelope) = Ok None -> pool_ok (x_pool (enqueue_event url envelope on_loop bound counted x).2).
Proof.
  intros Hq Hl Hu Hne Hv. unfold enqueue_event. destruct (Z.leb_spec (HOOK_POST_MAX_INFLIGHT c) (size_of (x_tasks (x_pool x)) + size_of (x_futures (x_pool x)))).
  - by apply shed_ok.
  - assert (Had : forall ch, ch <> Decision -> pool_ok (add_post (x_pool x) ch url envelope)).
    { intros ch Hch. apply add_ok; [done|done| |by rewrite decide_False]. unfold addressed. cbn. rewrite Hu. by destruct ch. }
    destruct on_loop; [by apply Had|]. destruct bound; [by apply Had|done].
Qed.

Lemma step_ok x x' : step x x' -> pool_ok (x_pool x) -> pool_ok (x_pool x').
Proof.
  intros Hst Hq. destruct Hst as [x ev on_loop counted Hl|x ty v ts ag pl on_loop bound counted Hl|x i p Hl Hi Hs|x i p Hl [Hi Hs]
    |x i p now ok [Hi Hs]|x i p n now status [Hi Hs]|x i p [Hi Hs] Hr|x i p [Hi Hs]|x i p n now [Hi Hs]|x i p Hi Hs|x i p [Hi Hs] Hl];
    cbn [with_pool x_pool].
  - unfold schedule_post. case_decide as Hu; [done|].
    destruct (Z.leb_spec (HOOK_POST_MAX_INFLIGHT c) (size_of (x_tasks (x_pool x)))); [by apply shed_ok|].
    destruct on_loop; [|done]. apply add_ok; [done|done|done|]. rewrite decide_True by done. lia.
  - unfold schedule_event_post in *. destruct (prepare_event _ _) as [[url|] n] eqn:Hp; [|done].
    destruct Hl as [|Hl]; [done|]. unfold prepare_event in Hp. case_decide; [done|]. destruct (validate_envelope _) as [[?|]|?] eqn:Hv; try done.
    injection Hp as <- <-. by apply enqueue_ok.
  - by eapply registered_ok.
  - by apply settled_first_ok.
  - assert (Hover : pool_ok (put_post (x_pool x) i (set_stage p Over))) by (apply over_ok; [done|done|by rewrite Hs]).
    unfold start_post. case_decide as Ht; [done|]. destruct (cb_is_open _ _); [done|]. destruct ok; [|done].
    apply request_ok; rewrite ?Hs; try done; [by split; [|left]|cbn; lia].
  - assert (Hover : pool_ok (put_post (x_pool x) i (set_stage p Over))) by (apply over_ok; [done|done|by rewrite Hs]).
    unfold finish_post. by destruct (cb_record _ _ _ _).
  - destruct (po_posts _ Hq _ _ Hi) as (_ & Hv & _). rewrite Hs in Hv. destruct Hv. by apply put_ok; rewrite ?Hs.
  - destruct (po_posts _ Hq _ _ Hi) as (_ & Hv & _). rewrite Hs in Hv. apply request_ok; rewrite ?Hs; try done; [|cbn; lia]. destruct Hv. by split; [|right].
  - by apply over_ok; [..|rewrite Hs].
  - by apply over_ok.
  - by apply done_ok.
Qed.

Lemma reachable_ok x : rtc step new_transport x -> pool_ok (x_pool x).
Proof.
  intros Hr. assert (H0 : pool_ok (x_pool new_transport)) by apply new_pool_ok. revert H0.
  induction Hr as [|x1 x2 x3 Hst _ IH]; intros H0; [done|]. apply IH. by eapply step_ok.
Qed.

(** *** The registration of a cross-thread post *)

(** The callback of a settled post blocks the thread that registers it. *)
Definition blocked (x : transport) (i : nat) : Prop :=
  x_lock (x_pool x) = Some i /\ exists p, post_at x i p Settled.

Lemma put_dom q i p p' : x_posts q !! i = Some p -> dom (x_posts (put_post q i p')) = dom (x_posts q).
Proof. intros Hi. cbn. rewrite dom_insert_L. apply elem_of_dom_2 in Hi. set_solver. Qed.

Definition frozen (q q' : pool) : Prop :=
  x_tasks q' = x_tasks q /\ x_futures q' = x_futures q /\ dom (x_posts q') = dom (x_posts q).

Lemma blocked_put x x' i k p s :
  blocked x i -> x_posts (x_pool x) !! k = Some p -> p_stage p <> Settled -> x_posts (x_pool x') = <[k := set_stage p s]> (x_posts (x_pool x)) ->
  x_lock (x_pool x') = x_lock (x_pool x) -> x_tasks (x_pool x') = x_tasks (x_pool x) -> x_futures (x_pool x') = x_futures (x_pool x) ->
  blocked x' i /\ frozen (x_pool x) (x_pool x').
Proof.
  intros [Hl (p0 & Hi & Hs)] Hk Hp Eq El Et Ef. assert (Hne : k <> i) by (intros ->; congruence). split.
  - split; [congruence|]. exists p0. split; [|done]. by rewrite Eq, lookup_insert_ne.
  - split_and!; [done|done|]. rewrite Eq, dom_insert_L. apply elem_of_dom_2 in Hk. set_solver.
Qed.

Lemma blocked_step x x' i : step x x' -> blocked x i -> blocked x' i /\ frozen (x_pool x) (x_pool x').
Proof.
  intros Hst Hb. pose proof Hb as [Hlock (p0 & Hi0 & Hs0)].
  destruct Hst as [x ev on_loop counted Hl|x ty v ts ag pl on_loop bound counted Hl|x i' p Hl Hi Hs|x i' p Hl [Hi Hs]
    |x i' p now ok [Hi Hs]|x i' p n now status [Hi Hs]|x i' p [Hi Hs] Hr|x i' p [Hi Hs]|x i' p n now [Hi Hs]|x i' p Hi Hs|x i' p [Hi Hs] Hl];
    try congruence.
  - destruct Hl as [Hl|]; [|congruence]. unfold schedule_event_post. destruct (prepare_event _ _) as [[url|] n]; [done|]. by split; [split; [|exists p0]|].
  - unfold start_post. case_decide; [by apply (blocked_put _ _ _ i' p Over Hb); rewrite ?Hs|].
    destruct (cb_is_open _ _); [by apply (blocked_put _ _ _ i' p Over Hb); rewrite ?Hs|].
    destruct ok; [by apply (blocked_put _ _ _ i' p (Posting 0) Hb); rewrite ?Hs|by apply (blocked_put _ _ _ i' p Over Hb); rewrite ?Hs].
  - unfold finish_post. by destruct (cb_record _ _ _ _); apply (blocked_put _ _ _ i' p Over Hb); rewrite ?Hs.
  - by apply (blocked_put _ _ _ i' p Backoff Hb); rewrite ?Hs.
  - by apply (blocked_put _ _ _ i' p (Posting 1) Hb); rewrite ?Hs.
  - by apply (blocked_put _ _ _ i' p Over Hb); rewrite ?Hs.
  - apply (blocked_put _ _ _ i' p Over Hb); try done. intros Hx. by rewrite Hx in Hs.
Qed.

Lemma blocked_forever x x' i : rtc step x x' -> blocked x i -> blocked x' i /\ frozen (x_pool x) (x_pool x').
Proof.
  induction 1 as [x|x1 x2 x3 Hst _ IH]; intros Hb; [by split|].
  destruct (blocked_step _ _ _ Hst Hb) as [Hb2 (E1 & E2 & E3)]. destruct (IH Hb2) as [Hb3 (F1 & F2 & F3)].
  split; [done|]. split_and!; congruence.
Qed.

(** *** The breaker *)

(** The reference keeps every outcome since the breaker last opened, and
    looks at the last ones. *)
Abbreviation window := (HOOK_POST_CB_WINDOW c).

Definition opens (outcomes : list bool) : bool :=
  (window <=? Z.of_nat (length outcomes)) &&
  ((HOOK_POST_CB_FAIL_RATIO c).1 * window <=? fails (lastn (Z.to_nat window) outcomes) * (HOOK_POST_CB_FAIL_RATIO c).2).

Definition ref_record (s : list bool * Z) (o : Z * bool) : list bool * Z :=
  let outcomes := s.1 ++ [o.2] in
  if opens outcomes then ([], o.1 + HOOK_POST_CB_COOLDOWN c) else (outcomes, s.2).

Definition records (os : list (Z * bool)) : res breaker :=
  foldl (fun r o => b <-- r ;; cb_record c o.1 o.2 b) (Ok new_breaker) os.

Definition represents (b : breaker) (s : list bool * Z) : Prop :=
  cb_recent b = lastn (Z.to_nat window) s.1 /\ cb_open_until b = s.2.

Lemma record_refines b s o :
  0 < window -> represents b s -> exists b', cb_record c o.1 o.2 b = Ok b' /\ represents b' (ref_record s o).
Proof.
  intros Hw [Hr Ho]. unfold cb_record, ref_record, opens.
  set (h := s.1 ++ [o.2]).
  assert (Htrim : forall l : list bool, (if window <? Z.of_nat (length l) then drop (Z.to_nat (Z.of_nat (length l) - window)) l else l)
                                        = lastn (Z.to_nat window) l).
  { intros l. unfold lastn. destruct (Z.ltb_spec window (Z.of_nat (length l))).
    - f_equal. lia.
    - replace (length l - Z.to_nat window)%nat with 0%nat by lia. done. }
  rewrite Htrim, Hr, lastn_snoc by lia. fold h. rewrite length_lastn.
  destruct (Z.leb_spec window (Z.of_nat (length h))) as [Hle|Hlt]; cbn [andb].
  - destruct (Z.leb_spec window (Z.of_nat (Z.to_nat window `min` length h))); [|lia].
    destruct (Z.eqb_spec (Z.of_nat (Z.to_nat window `min` length h)) 0); [lia|].
    replace (Z.of_nat (Z.to_nat window `min` length h)) with window by lia.
    destruct (_ <=? _); eexists; (split; [done|]); by split.
  - destruct (Z.leb_spec window (Z.of_nat (Z.to_nat window `min` length h))); [lia|]. eexists. split; [done|]. by split.
Qed.

Lemma records_refine os : 0 < window -> exists b, records os = Ok b /\ represents b (foldl ref_record ([], 0) os).
Proof.
  intros Hw. unfold records. induction os as [|o os IH] using rev_ind; [by exists new_breaker|].
  rewrite !foldl_app. destruct IH as (b & -> & Hb). cbn [foldl res_bind]. by apply record_refines.
Qed.
End Transport.

(** ** The two ends *)

(** No name of an enumeration of the schema is longer than the cap. *)
Definition short_names (f : field_spec) : bool :=
  match f with
  | Req _ (FEnum names) | Opt _ (FEnum names) => forallb (fun n => str_len n <=? MAX_EVENT_PUBLISH_FIELD_BYTES) names
  | _ => true
  end.

Lemma schema_short t fs : od_get payload_schema t = Some fs -> forallb short_names fs = true.
Proof.
  intros Hfs%od_get_elem. assert (Hall : forallb (fun tf => forallb short_names tf.2) payload_schema = true) by (vm_compute; reflexivity).
  rewrite forallb_forall in Hall. apply (Hall (t, fs)). by apply list_elem_of_In.
Qed.

Lemma cap_value_short s : str_len s <= MAX_EVENT_PUBLISH_FIELD_BYTES -> cap_value (VStr s) = VStr s.
Proof. intros Hs. unfold cap_value. destruct (Z.ltb_spec MAX_EVENT_PUBLISH_FIELD_BYTES (str_len s)); [lia|done]. Qed.

(** A capped text is a text, and no empty one if it was none. *)
Lemma cap_value_str s : exists s', cap_value (VStr s) = VStr s' /\ (s <> "" -> s' <> "").
Proof.
  unfold cap_value. destruct (_ <? _); [|by exists s]. eexists. split; [done|]. intros _ He.
  apply (f_equal str_len) in He. rewrite str_len_app in He. unfold str_len in He. cbn [String.length] in He. lia.
Qed.

Lemma cap_value_fty t v :
  match t with FEnum names => forallb (fun n => str_len n <=? MAX_EVENT_PUBLISH_FIELD_BYTES) names = true | _ => True end ->
  has_fty t v -> has_fty t (cap_value v).
Proof.
  intros Ht. destruct t as [| | | | | |names]; cbn [has_fty].
  - intros (s & -> & Hs). destruct (cap_value_str s) as (s' & -> & Hs'). exists s'. auto.
  - intros (s & ->). destruct (cap_value_str s) as (s' & -> & _). by exists s'.
  - intros (z & -> & Hz). by exists z.
  - intros (z & -> & Hz). by exists z.
  - intros (s & -> & Hs). rewrite cap_value_short; [by exists s|]. unfold str_len. rewrite Hs. by vm_compute.
  - intros (b & ->). by exists b.
  - intros (s & -> & Hs). rewrite cap_value_short; [by exists s|]. rewrite forallb_forall in Ht.
    apply Z.leb_le, Ht. by apply list_elem_of_In.
Qed.

Lemma cap_payload_get p p' k : cap_payload p = Some p' -> dict_get p' k = cap_value <$> dict_get p k.
Proof.
  revert p'. induction p as [|[kk v] p IH]; cbn [cap_payload]; intros p'; [by intros [= <-]|].
  destruct kk as [| | | |kk| |]; try done. intros (p1 & Hp1 & ->)%fmap_Some. cbn [dict_get]. case_decide; [done|]. by apply IH.
Qed.

(** What conforms to the schema still does once it is capped. *)
Lemma cap_conforms t fs p p' :
  od_get payload_schema t = Some fs -> conforms fs p -> cap_payload p = Some p' -> conforms fs p'.
Proof.
  intros Hfs%schema_short Hp Hcap. unfold conforms in *. rewrite Forall_forall in Hp |- *. rewrite forallb_forall in Hfs.
  intros f Hin. specialize (Hp _ Hin). specialize (Hfs f). rewrite <-list_elem_of_In in Hfs. specialize (Hfs Hin).
  destruct f as [k ty|k ty]; cbn [field_ok] in *; unfold has_field, opt_field in *; rewrite (cap_payload_get _ _ k Hcap).
  - destruct Hp as (v & -> & Hv). exists (cap_value v). split; [done|]. apply cap_value_fty; [by destruct ty|done].
  - intros v (v0 & Hv0 & ->)%fmap_Some. apply cap_value_fty; [by destruct ty|by apply Hp].
Qed.

Definition string_keys (p : pydict) : Prop := Forall (fun kv => is_str kv.1 = true) p.

Lemma cap_payload_total p : string_keys p -> is_Some (cap_payload p).
Proof.
  induction 1 as [|[k v] p Hk Hp IH]; cbn [cap_payload]; [by eexists|]. destruct k; try done. destruct IH as [p' ->]. by eexists.
Qed.

(** An envelope that the transport sends is accepted by the stream, with
    another id and time and with its texts capped. *)
Lemma event_envelope_accepted type_ version ts agent_id payload payload' n now :
  validate_envelope (VDict (event_envelope type_ version ts agent_id payload)) = Ok None ->
  cap_payload payload = Some payload' -> now <> "" ->
  type_ <> "" /\ 1 <= version /\
  validate_envelope (to_dict (mk_envelope type_ (VInt version) (py_str_int n) now
                                (cap_value (from_option VStr VNone agent_id)) payload')) = Ok None.
Proof.
  rewrite !validate_envelope_None. intros (env & t & fs & p & z & [= <-] & [= <-] & Hfs & [= <-] & Hz & Hid & Hts & Hag & [= <-] & Hc) Hcap Hnow.
  split_and!; [|done|].
  - intros ->. vm_compute in Hfs. discriminate.
  - eexists _, type_, fs, payload', version. split_and!; try done.
    + exists (VStr (py_str_int n)). split; [done|]. eexists. split; [done|]. apply py_str_int_nonempty.
    + exists (VStr now). split; [done|]. by exists now.
    + destruct agent_id as [a|]; [right|by left]. destruct (cap_value_str a) as (a' & Ha & _). exists (VStr a').
      split; [cbn in *; by rewrite Ha|by exists a'].
    + by eapply cap_conforms.
Qed.

Lemma parse_and_publish_envelope_accepts utf8_decode json_loads body rejected s now now_ov type_ version ts agent_id payload payload' :
  parse_body utf8_decode json_loads body = Some (VDict (event_envelope type_ version ts agent_id payload)) ->
  type_ <> "" -> 1 <= version -> cap_payload payload = Some payload' ->
  let agent := cap_value (from_option VStr VNone agent_id) in
  let e := mk_envelope type_ (VInt version) (py_str_int (next_id s + 1)) now agent payload' in
  validate_envelope (to_dict e) = Ok None ->
  exists s', parse_and_publish_envelope utf8_decode json_loads (String.list_byte_of_string body) rejected s now now_ov =
               (Ok (204, None), rejected, s') /\
             publish s type_ payload' agent (VInt version) now now_ov = (Ok (Some e), s').
Proof.
  intros Hbody Hty Hver Hcap agent e Hok. unfold parse_and_publish_envelope. unfold parse_body in Hbody. rewrite Hbody.
  set (env := event_envelope _ _ _ _ _).
  assert (E1 : dict_get_none env "type" = VStr type_) by done.
  assert (E2 : dict_get_none env "payload" = VDict payload) by done.
  assert (E3 : dict_get_none env "agent_id" = from_option VStr VNone agent_id) by by destruct agent_id.
  assert (E4 : dict_get_default env "version" (VInt 1) = VInt version) by done.
  rewrite E1, E2, E3, E4, decide_False by done.
  assert (Ha : negb (is_none (from_option VStr VNone agent_id)) && negb (is_str (from_option VStr VNone agent_id)) = false)
    by by destruct agent_id.
  rewrite Ha, Hcap. cbn [is_int is_bool int_value negb orb]. destruct (Z.ltb_spec version 1); [lia|].
  destruct (publish_cases s type_ payload' agent (VInt version) now now_ov) as [(x & Hx & _)|[(err & Herr & _)|(_ & Hpub)]].
  - change (validate_envelope (to_dict e) = Raise x) in Hx. congruence.
  - change (validate_envelope (to_dict e) = Ok (Some err)) in Herr. congruence.
  - fold agent. rewrite Hpub. eexists. by split.
Qed.

(** ** Properties *)

(** C23: In every reachable state of the transport, whatever the calls, the
    network and the interleaving: a post that is not settled is in the set of
    its kind and in no other, and nothing else is; each set is within the cap,
    and both together are when no hook decision was ever posted; the lock is
    held by the registration of a cross-thread post only.  A post makes at
    most one request, or two with a retry, and none without a token; each
    request goes to the address of its kind with the body that was scheduled,
    which for an event has passed the validator. *)
Theorem transport_accounted c x :
  rtc (step c) new_transport x ->
  let q := x_pool x in
  (forall i p, x_posts q !! i = Some p -> p_stage p <> Settled ->
     if decide (p_channel p = CrossThread) then i ∈ x_futures q /\ i ∉ x_tasks q else i ∈ x_tasks q /\ i ∉ x_futures q) /\
  ((forall i p, x_posts q !! i = Some p -> p_stage p = Settled) -> x_lock q = None -> x_tasks q = ∅ /\ x_futures q = ∅) /\
  (size_of (x_tasks q) <= Z.max 0 (HOOK_POST_MAX_INFLIGHT c) /\ size_of (x_futures q) <= Z.max 0 (HOOK_POST_MAX_INFLIGHT c)) /\
  ((forall i p, x_posts q !! i = Some p -> p_channel p <> Decision) ->
     size_of (x_tasks q) + size_of (x_futures q) <= Z.max 0 (HOOK_POST_MAX_INFLIGHT c)) /\
  (forall i p, x_posts q !! i = Some p -> (attempts q i <= if RETRY c then 2 else 1)%nat) /\
  (forall i u b, (i, u, b) ∈ x_requests q -> AUTH_TOKEN c <> "" /\ exists p, x_posts q !! i = Some p /\ u = p_url p /\ b = p_body p /\
     match p_channel p with
     | Decision => u = str_rstrip "/" (HARNESS_EVENTS_URL c) +:+ hook_suffix
     | _ => u = resolve_publish_url c /\ validate_envelope (VDict b) = Ok None
     end).
Proof.
  intros Hq%reachable_ok. cbv zeta. split_and!.
  - intros i p Hi Hs. case_decide as Hc.
    + split; [apply (po_futures _ _ Hq); exists p; split_and!; [done|done|by left]|].
      intros (p' & Hi' & Hc' & _)%(po_tasks _ _ Hq). congruence.
    + split; [apply (po_tasks _ _ Hq); by exists p|]. intros (p' & Hi' & Hc' & _)%(po_futures _ _ Hq). congruence.
  - intros Hall Hl. split; apply set_eq; intros i; (split; [|by intros ?%elem_of_empty]).
    + intros (p & Hi & _ & Hs)%(po_tasks _ _ Hq). by apply Hall in Hi.
    + intros (p & Hi & _ & [Hs|Hs])%(po_futures _ _ Hq); [by apply Hall in Hi|congruence].
  - apply Hq.
  - apply Hq.
  - apply Hq.
  - intros i p Hi. destruct (po_posts _ _ Hq _ _ Hi) as (Ha & Hv & _). etransitivity; [exact Ha|].
    destruct (p_stage p) as [|n| | |]; cbn in *; destruct (RETRY c); naive_solver lia.
  - intros i u b (Ht & p & Hi & -> & ->)%(po_requests _ _ Hq). split; [done|]. exists p. split_and!; [done|done|done|].
    destruct (po_posts _ _ Hq _ _ Hi) as (_ & _ & Had). unfold addressed in Had. destruct (p_channel p); by destruct Had.
Qed.

(** The lock of the transport.  In a reachable state it is held only by
    the registration of a cross-thread post that is still tracked.  While that
    post is not settled the registration can go on and release it.  If the
    post was settled first, by the loop, before its callback was registered,
    the lock is never released again: in every later state nothing new is
    posted, no post leaves its set, and the same registration holds it. *)
Theorem registration_lock c x i :
  rtc (step c) new_transport x -> x_lock (x_pool x) = Some i ->
  exists p, x_posts (x_pool x) !! i = Some p /\ p_channel p = CrossThread /\ i ∈ x_futures (x_pool x) /\
    (p_stage p <> Settled -> exists x', step c x x' /\ x_lock (x_pool x') = None) /\
    (p_stage p = Settled -> forall x', rtc (step c) x x' ->
       x_lock (x_pool x') = Some i /\ x_tasks (x_pool x') = x_tasks (x_pool x) /\ x_futures (x_pool x') = x_futures (x_pool x) /\
       dom (x_posts (x_pool x')) = dom (x_posts (x_pool x))).
Proof.
  intros Hq%reachable_ok Hl. destruct (po_lock _ _ Hq _ Hl) as (p & Hi & Hc). exists p. split_and!; [done|done| | |].
  - apply (po_futures _ _ Hq). exists p. split_and!; [done|done|by right].
  - intros Hs. eexists. split; [by eapply st_registered|done].
  - intros Hs x' Hr. destruct (blocked_forever c _ _ i Hr) as [[Hl' _] (? & ? & ?)]; [|done].
    split; [done|]. by exists p.
Qed.

(** The circuit breaker refines a reference that keeps every outcome since
    it last opened and looks at the last window of them: for a positive
    window, and any outcomes at any times, no record raises, the breaker keeps
    exactly the outcomes the reference looks at, never more than the window,
    and is open until the same time. *)
Theorem breaker_windowed c os :
  0 < HOOK_POST_CB_WINDOW c ->
  exists b, records c os = Ok b /\
    cb_recent b = lastn (Z.to_nat (HOOK_POST_CB_WINDOW c)) (foldl (ref_record c) ([], 0) os).1 /\
    cb_open_until b = (foldl (ref_record c) ([], 0) os).2 /\ Z.of_nat (length (cb_recent b)) <= HOOK_POST_CB_WINDOW c.
Proof.
  intros Hw. destruct (records_refine c os Hw) as (b & Hb & Hr & Ho). exists b. split_and!; [done|done|done|].
  rewrite Hr, length_lastn. lia.
Qed.

(** From a backend to the stream of the harness.  An event that
    [schedule_event_post] takes, and whose request carries the token the
    harness expects and arrives whole within its cap, is answered 204 and
    published: the stream gets one envelope of its type and version, with the
    agent and the texts of the payload capped, under an id of its own. *)
Theorem backend_event_published c environ utf8_decode json_loads type_ version ts agent_id payload on_loop bound counted x x'
    rq rejected s now now_ov
    (Hsched : schedule_event_post c type_ version ts agent_id payload on_loop bound counted x = (true, x'))
    (Htoken : HOOK_EVENTS_AUTH_TOKEN environ = AUTH_TOKEN c) (Hset : AUTH_TOKEN c <> "")
    (Hascii : is_ascii (bearer environ) = true) (Hheader : header rq "authorization" = "Bearer " +:+ AUTH_TOKEN c)
    (Hbody : parse_body utf8_decode json_loads (str_concat (rq_chunks rq)) =
             Some (VDict (event_envelope type_ version ts agent_id payload)))
    (Hfits : body_ok MAX_EVENT_PUBLISH_BODY_BYTES rq) (Hkeys : string_keys payload) (Hnow : now <> "") :
  exists payload' s',
    event_publish_handler environ utf8_decode json_loads rq rejected s now now_ov = (Status 204, rejected, s') /\
    cap_payload payload = Some payload' /\
    publish s type_ payload' (cap_value (from_option VStr VNone agent_id)) (VInt version) now now_ov =
      (Ok (Some (mk_envelope type_ (VInt version) (py_str_int (next_id s + 1)) now
                   (cap_value (from_option VStr VNone agent_id)) payload')), s').
Proof.
  destruct (cap_payload_total _ Hkeys) as [payload' Hcap].
  assert (Hval : validate_envelope (VDict (event_envelope type_ version ts agent_id payload)) = Ok None).
  { unfold schedule_event_post, prepare_event in Hsched. cbv zeta in Hsched. case_decide; [done|].
    by destruct (validate_envelope (VDict (event_envelope type_ version ts agent_id payload))) as [[?|]|?]. }
  destruct (event_envelope_accepted _ _ _ _ _ _ (next_id s + 1) now Hval Hcap Hnow) as (Hty & Hver & Hok).
  assert (Hauth : publish_auth environ rq = Ok true).
  { apply publish_auth_true. split_and!; [by rewrite Htoken|by unfold bearer; rewrite Htoken|done]. }
  unfold event_publish_handler. rewrite Hauth, (bounded_body_ok _ _ Hfits).
  destruct (parse_and_publish_envelope_accepts _ _ _ rejected s now now_ov type_ version ts agent_id payload payload' Hbody Hty Hver Hcap Hok)
    as (s' & -> & Hp). by exists payload', s'.
Qed.

(** ** Concrete inputs *)

(** A cap of two, a window of four with half of it failing, no retry. *)
Definition example_config (token : string) : config :=
  mk_config "http://h:8000/" "" token 2 500 500 4 (1, 2) 15 false.

Definition beat_payload : pydict := mk_dict [("duration_ms", VInt 7); ("outcome", VStr "success")].
Definition send_beat (c : config) (on_loop : bool) (x : transport) : transport :=
  (schedule_event_post c "heartbeat.fired" 1 "2026-01-01T00:00:00.000Z" None beat_payload on_loop true true x).2.

Definition post_of (x : transport) (i : nat) : post := default (mk_post Event "" [] New) (x_posts (x_pool x) !! i).

Lemma step_beat c on_loop x : x_lock (x_pool x) = None -> step c x (send_beat c on_loop x).
Proof. intros Hl. apply (st_event c x "heartbeat.fired" 1 "2026-01-01T00:00:00.000Z" None beat_payload on_loop true true). by right. Qed.

(** An event of the loop is scheduled, posted and answered. *)
Definition beat1 : transport := send_beat (example_config "t0k") true new_transport.
Definition beat2 : transport := start_post (example_config "t0k") 10 true beat1 0 (post_of beat1 0).
Definition beat3 : transport := finish_post (example_config "t0k") 20 204 beat2 0 (post_of beat2 0).
Definition beat4 : transport := with_pool beat3 (post_done (example_config "t0k") (x_pool beat3) 0 (post_of beat3 0)).

Lemma example_posted : rtc (step (example_config "t0k")) new_transport beat4.
Proof.
  eapply rtc_l; [apply step_beat; reflexivity|].
  eapply rtc_l; [eapply (st_start (example_config "t0k") beat1 0 (post_of beat1 0) 10 true); split; vm_compute; reflexivity|].
  eapply rtc_l; [eapply (st_response (example_config "t0k") beat2 0 (post_of beat2 0) 0 20 204); split; vm_compute; reflexivity|].
  eapply rtc_l; [eapply (st_done (example_config "t0k") beat3 0 (post_of beat3 0)); [split|]; vm_compute; reflexivity|].
  reflexivity.
Qed.

Lemma transport_accounted_witness :
  x_requests (x_pool beat4) = [(0%nat, "http://h:8000/internal/events/publish",
    event_envelope "heartbeat.fired" 1 "2026-01-01T00:00:00.000Z" None beat_payload)] /\
  x_tasks (x_pool beat4) = ∅ /\ size_of (x_tasks (x_pool beat4)) <= 2 /\
  (exists p, x_posts (x_pool beat4) !! 0%nat = Some p /\ (attempts (x_pool beat4) 0 <= 1)%nat).
Proof.
  destruct (transport_accounted _ _ example_posted) as (_ & _ & [Hc _] & _ & Ha & _).
  split_and!; [vm_compute; reflexivity|vm_compute; reflexivity|exact Hc|].
  destruct (x_posts (x_pool beat4) !! 0%nat) as [p|] eqn:Hp; [|vm_compute in Hp; discriminate].
  exists p. split; [reflexivity|]. exact (Ha 0%nat p Hp).
Defined.

(** Without a token a cross-thread post ends in its first turn: if the loop
    runs it before the calling thread has registered the callback, that thread
    waits for the lock it holds. *)
Definition cross1 : transport := send_beat (example_config "") false new_transport.
Definition cross2 : transport := start_post (example_config "") 10 true cross1 0 (post_of cross1 0).
Definition cross3 : transport := with_pool cross2 (put_post (x_pool cross2) 0 (set_stage (post_of cross2 0) Settled)).

Lemma example_blocked : rtc (step (example_config "")) new_transport cross3.
Proof.
  eapply rtc_l; [apply step_beat; reflexivity|].
  eapply rtc_l; [eapply (st_start (example_config "") cross1 0 (post_of cross1 0) 10 true); split; vm_compute; reflexivity|].
  eapply rtc_l; [eapply (st_settled_first (example_config "") cross2 0 (post_of cross2 0)); [|split]; vm_compute; reflexivity|].
  reflexivity.
Qed.

Lemma registration_lock_witness :
  x_lock (x_pool cross3) = Some 0%nat /\
  (forall x', rtc (step (example_config "")) cross3 x' -> x_lock (x_pool x') = Some 0%nat /\ dom (x_posts (x_pool x')) = {[0%nat]}).
Proof.
  split; [vm_compute; reflexivity|].
  destruct (registration_lock _ _ 0 example_blocked ltac:(vm_compute; reflexivity)) as (p & Hp & _ & _ & _ & Hs).
  assert (Hst : p_stage p = Settled).
  { assert (Hp' : p_stage <$> x_posts (x_pool cross3) !! 0%nat = Some Settled) by (vm_compute; reflexivity).
    rewrite Hp in Hp'. injection Hp' as Hp'. exact Hp'. }
  intros x' Hr. destruct (Hs Hst x' Hr) as (Hl & _ & _ & Hd). split; [exact Hl|]. rewrite Hd. vm_compute. reflexivity.
Defined.

Lemma breaker_windowed_witness :
  let os := [(1, true); (2, false); (3, false); (4, false); (5, true); (6, true); (7, false)] in
  records (example_config "t0k") os = Ok (mk_breaker [false] 21) /\
  lastn 4 (foldl (ref_record (example_config "t0k")) ([], 0) os).1 = [false].
Proof.
  intros os. destruct (breaker_windowed (example_config "t0k") os ltac:(vm_compute; reflexivity)) as (b & Hb & Hr & _ & _).
  assert (Hb' : records (example_config "t0k") os = Ok (mk_breaker [false] 21)) by (vm_compute; reflexivity).
  split; [exact Hb'|]. rewrite Hb' in Hb. injection Hb as Hb. rewrite <-Hb in Hr. symmetry. exact Hr.
Defined.

(** A decoder that knows the one body of the example. *)
Definition beat_body : pydict := event_envelope "heartbeat.fired" 1 "2026-01-01T00:00:00.000Z" None beat_payload.
Definition example_loads (s : string) : option pyval := if decide (s = "beat") then Some (VDict beat_body) else None.
Definition example_utf8 (b : list Byte.byte) : option string := Some (String.string_of_list_byte b).
Definition example_environ (v : string) : option string := if decide (v = "HOOK_EVENTS_AUTH_TOKEN") then Some "t0k" else None.
Definition beat_request : request :=
  mk_request "POST" "/internal/events/publish" [("authorization", "Bearer t0k"); ("content-length", "4")] ["be"; "at"] StreamDone.

Lemma backend_event_published_witness :
  exists s', event_publish_handler example_environ example_utf8 example_loads beat_request None (new_stream 5 2) "now" (fun _ => "now")
               = (Status 204, None, s') /\ e_type <$> ring s' = ["heartbeat.fired"].
Proof.
  destruct (backend_event_published (example_config "t0k") example_environ example_utf8 example_loads "heartbeat.fired" 1
    "2026-01-01T00:00:00.000Z" None beat_payload true true true new_transport beat1 beat_request None (new_stream 5 2) "now"
    (fun _ => "now")) as (payload' & s' & H & _ & Hp).
  - reflexivity.
  - reflexivity.
  - discriminate.
  - reflexivity.
  - reflexivity.
  - vm_compute. reflexivity.
  - split; [vm_compute; discriminate|split; [reflexivity|vm_compute; discriminate]].
  - repeat constructor.
  - discriminate.
  - exists s'. split; [exact H|]. apply (f_equal snd) in H. cbn [snd] in H. rewrite <-H. vm_compute. reflexivity.
Defined.

(** The cap is not shared: two cross-thread events and two hook decisions are
    in flight at a cap of two. *)
Example cap_not_shared :
  let c := example_config "t0k" in
  let register x := with_pool x (set_sets (x_pool x) (x_tasks (x_pool x)) (x_futures (x_pool x)) None (x_shed_warned (x_pool x))) in
  let x := register (send_beat c false (register (send_beat c false new_transport))) in
  let x := with_pool x (schedule_post c [] true true (schedule_post c [] true true (x_pool x)).2).2 in
  size_of (x_tasks (x_pool x)) + size_of (x_futures (x_pool x)) = 4 /\ (schedule_post c [] true true (x_pool x)).1 = false.
Proof. vm_compute. by split. Qed.

(** An address that already names the hook-decision endpoint is mended for
    events, and not for hook decisions. *)
Example embedded_suffix :
  let c := mk_config ("http://h:8000" +:+ hook_suffix) "" "t0k" 2 500 500 4 (1, 2) 15 false in
  resolve_publish_url c = "http://h:8000/internal/events/publish" /\
  p_url <$> x_posts (schedule_post c [] true true (x_pool new_transport)).2 !! 0%nat =
    Some ("http://h:8000" +:+ hook_suffix +:+ hook_suffix).
Proof. vm_compute. by split. Qed.

(** The aliases of the backend's token: the harness knows none of them. *)
Example legacy_token_refused :
  let env v := if decide (v = "TRIGGERS_AUTH_TOKEN") then Some "legacy" else None in
  let rq := mk_request "POST" "/internal/events/publish" [("authorization", "Bearer " +:+ transport_token env)] [] StreamDone in
  transport_token env = "legacy" /\
  (event_publish_handler env example_utf8 example_loads rq None (new_stream 5 2) "now" (fun _ => "now")).1.1 = Status 401.
Proof. vm_compute. by split. Qed.

(** A window that is not positive: every record raises, so that every post
    ends with an exception. *)
Example window_of_zero :
  let c := mk_config "http://h" "" "t0k" 2 500 500 0 (1, 2) 15 false in
  cb_record c 1 false new_breaker = Raise OtherError.
Proof. reflexivity. Qed.
