(* ===== verification/Jobs.v ===== *)
(** * Scheduled jobs (harness/jobs.py)

    The job file parser, the run of a job ([_execute_job]: the semaphore, the
    running flag, the checkpoint, the message, the announcement, the drain of
    a cancelled run), the cron loop ([run_job]) and the registry
    ([JobRunner]).  Job objects are shared by reference: the registry, the
    cron loop and every call of [_execute_job] on a job mutate the same
    object, so objects are numbers into a store.  [step] interleaves them at
    the suspension points of the code.  [croniter], YAML and [uuid5] are
    parameters; times are microseconds. *)
From Stdlib Require Import Sorted.
From S2P Require Import Prelude PyStr PyVal Broadcast EventSchema EventStream Utils PromptEnv Semaphore.

(** ** Job files *)

Record job : Type := mk_job {
  j_path : string;
  j_name : string;
  j_schedule : option string;
  j_session_id : string;
  j_content : string;
  j_model : option string;
  j_backend_id : option string;
  j_consensus : list consensus_entry;
  j_max_tokens : option Z;
  j_enabled : bool
}.

Section Parse.
Variable yaml_safe_load : string -> res pyval.
Variable max_yaml_bytes : Z.
(** [croniter.is_valid]; [str(uuid.uuid5(NAMESPACE_URL, name))] and [AGENT_NAME]. *)
Variable cron_valid : string -> bool.
Variable uuid5 : string -> string.
Variable agent_name : string.

(** [raw = None]: the file cannot be read. Every exception gives [None]. *)
Definition parse_job_file (path : string) (raw : option string) : option job :=
  raw ← raw;
  match parse_frontmatter yaml_safe_load max_yaml_bytes raw,
        parse_frontmatter_raw yaml_safe_load max_yaml_bytes raw with
  | Ok (fields, content), Ok (raw_fields, _) =>
      let schedule := get_nonempty fields "schedule" in
      let enabled := text_flag ["false"; "no"; "off"; "n"; "0"; ""] true fields "enabled" in
      if enabled && match schedule with Some e => negb (cron_valid e) | None => false end then None
      else Some {|
        j_path := path;
        j_name := default (stem path) (get_nonempty fields "name");
        j_schedule := schedule;
        j_session_id := default (uuid5 (agent_name +:+ "." +:+ stem path)) (get_nonempty fields "session");
        j_content := content;
        j_model := get_nonempty fields "model";
        j_backend_id := get_nonempty fields "agent";
        j_consensus := parse_consensus (dict_get_none raw_fields "consensus");
        j_max_tokens := positive_field (field_or fields "max-tokens" "max_tokens") None;
        j_enabled := enabled
      |}
  | _, _ => None
  end.
End Parse.

(** ** One run *)

(** The mutable part of a job object. *)
Record live_job : Type := mk_live {
  o_item : job;
  o_running : bool;
  o_next_fire : option Z;
  o_last_fire : option Z;
  o_last_success : option Z
}.

(** The [Message] of a run. *)
Record request : Type := mk_request {
  q_prompt : string;
  q_session_id : string;
  q_kind : string;
  q_model : option string;
  q_backend_id : option string;
  q_consensus : list consensus_entry;
  q_max_tokens : option Z
}.

Definition fire_message (environ : string -> option string) (it : job) : request :=
  {| q_prompt := prompt_text environ ("Job: " +:+ j_name it +:+ String nl (String nl (j_content it)));
     q_session_id := j_session_id it;
     q_kind := "job:" +:+ j_name it;
     q_model := j_model it;
     q_backend_id := j_backend_id it;
     q_consensus := j_consensus it;
     q_max_tokens := j_max_tokens it |}.

(** How [bus.send] ends; [Failed] carries the [repr] of the exception. *)
Inductive result : Type := Succeeded | Failed (error : string).

(** The payload of the [job.fired] event, [us] the measured duration. *)
Definition job_event (it : job) (us : Z) (r : result) : pydict :=
  mk_dict ([("name", VStr (j_name it)); ("schedule", VStr (default "" (j_schedule it)));
            ("duration_ms", VInt (us / 1000));
            ("outcome", VStr (match r with Succeeded => "success" | Failed _ => "error" end))]
           ++ match r with Succeeded => [] | Failed e => [("error", VStr (str_take (Z.to_nat 512) e))] end).

(** Where a call of [_execute_job] is: waiting for the semaphore; awaiting its
    message; cancelled and draining the message; ended, with how. *)
Inductive stage : Type :=
| Queued
| Sending
| Draining
| Answered (r : result)
| Cancelled
| Abandoned.

Record call : Type := mk_call { c_obj : nat; c_stage : stage }.

(** The call holds its permit and has set the flag. *)
Definition active (s : stage) : bool := match s with Sending | Draining => true | _ => false end.

Definition over (s : stage) : bool := match s with Answered _ | Cancelled | Abandoned => true | _ => false end.

Definition checkpoint (it : job) : string := stem (j_path it) +:+ ".running.json".

Record exec : Type := mk_exec {
  e_sem : option semaphore;
  e_calls : gmap nat call;
  e_objs : gmap nat live_job;
  (** the gauge of running items *)
  e_gauge : Z;
  (** the checkpoint files *)
  e_files : gset string;
  (** ghost: the files left by an earlier process or a failed deletion *)
  e_stale : gset string;
  (** ghost: what was sent and announced, by which call *)
  e_sent : list (nat * request);
  e_events : list (nat * pydict);
  e_next : nat
}.

Definition new_exec (cap : Z) (files : gset string) : exec :=
  mk_exec (new_pool cap) ∅ ∅ 0 files files [] [] 0.

Definition set_sem (e : exec) (s : semaphore) : exec :=
  mk_exec (Some s) (e_calls e) (e_objs e) (e_gauge e) (e_files e) (e_stale e) (e_sent e) (e_events e) (e_next e).

Definition set_call (e : exec) (c : nat) (k : call) : exec :=
  mk_exec (e_sem e) (<[c := k]> (e_calls e)) (e_objs e) (e_gauge e) (e_files e) (e_stale e) (e_sent e) (e_events e) (e_next e).

Section Execute.
(** [os.environ]; the clock; whether the checkpoint can be written. *)
Variable environ : string -> option string.
Variable now : Z.
Variable write_ok : bool.

(** From the permit to the await of the message. *)
Definition enter (e : exec) (c o : nat) (j : live_job) : exec :=
  mk_exec (e_sem e) (<[c := mk_call o Sending]> (e_calls e))
    (<[o := mk_live (o_item j) true (o_next_fire j) (Some now) (o_last_success j)]> (e_objs e))
    (e_gauge e + 1)
    (if write_ok then {[checkpoint (o_item j)]} ∪ e_files e else e_files e) (e_stale e)
    ((c, fire_message environ (o_item j)) :: e_sent e) (e_events e) (e_next e).

(** The start of [_execute_job] on the object [o]. *)
Definition begin_call (e : exec) (o : nat) (j : live_job) : exec :=
  let c := e_next e in
  let e := mk_exec (e_sem e) (e_calls e) (e_objs e) (e_gauge e) (e_files e) (e_stale e) (e_sent e) (e_events e) (S c) in
  match e_sem e with
  | None => enter e c o j
  | Some s =>
      let '(mine, s) := acquire s c in
      if mine then enter (set_sem e s) c o j else set_call (set_sem e s) c (mk_call o Queued)
  end.

(** The wait for the semaphore is over. *)
Definition resume_call (e : exec) (s : semaphore) (c o : nat) (j : live_job) : exec :=
  enter (set_sem e (resume s c)) c o j.
End Execute.

(** The message has its answer, or the drain is over: the announcement and
    the [finally] clause. [delete_ok]: the checkpoint can be deleted. *)
Definition finish (now us : Z) (delete_ok : bool) (e : exec) (c o : nat) (j : live_job) (st : stage) : exec :=
  mk_exec (release <$> e_sem e) (<[c := mk_call o st]> (e_calls e))
    (<[o := mk_live (o_item j) false (o_next_fire j) (o_last_fire j)
              (match st with Answered Succeeded => Some now | _ => o_last_success j end)]> (e_objs e))
    (e_gauge e - 1)
    (if delete_ok then e_files e ∖ {[checkpoint (o_item j)]} else e_files e)
    (if delete_ok then e_stale e else {[checkpoint (o_item j)]} ∪ e_stale e)
    (e_sent e)
    (match st with Answered r => (c, job_event (o_item j) us r) :: e_events e | _ => e_events e end)
    (e_next e).

(** [task.cancel()] while [_execute_job] waits for its permit. *)
Definition abandon_call (e : exec) (s : semaphore) (c o : nat) : exec :=
  set_call (set_sem e (abandon s c)) c (mk_call o Abandoned).

(** [task.cancel()] while the message is in flight. *)
Definition drain_call (e : exec) (c o : nat) : exec := set_call e c (mk_call o Draining).

(** What happens inside running calls. *)
Inductive estep : exec -> exec -> Prop :=
| es_resume e s c o j environ now write_ok :
    e_sem e = Some s -> (c, true) ∈ sem_waiters s -> e_calls e !! c = Some (mk_call o Queued) ->
    e_objs e !! o = Some j -> estep e (resume_call environ now write_ok e s c o j)
| es_answer e c o j r now us delete_ok :
    e_calls e !! c = Some (mk_call o Sending) -> e_objs e !! o = Some j -> 0 <= us ->
    estep e (finish now us delete_ok e c o j (Answered r))
| es_drained e c o j now us delete_ok :
    e_calls e !! c = Some (mk_call o Draining) -> e_objs e !! o = Some j ->
    estep e (finish now us delete_ok e c o j Cancelled).

(** The cancellation of a call that is not over. A message whose answer is in
    has nothing to drain. *)
Inductive cancels : nat -> exec -> exec -> Prop :=
| cn_abandon e s c b o :
    e_sem e = Some s -> (c, b) ∈ sem_waiters s -> e_calls e !! c = Some (mk_call o Queued) ->
    cancels c e (abandon_call e s c o)
| cn_drain e c o :
    e_calls e !! c = Some (mk_call o Sending) -> cancels c e (drain_call e c o)
| cn_answered e c o j now us delete_ok st :
    e_calls e !! c = Some (mk_call o st) -> active st = true -> e_objs e !! o = Some j ->
    cancels c e (finish now us delete_ok e c o j Cancelled).

(** ** The cron loop *)

(** Where [run_job] is. *)
Inductive loop_stage : Type :=
| LWaiting
| LSleeping (tick : Z)
| LRunning (c : nat)
| LEnded.

Record loop : Type := mk_loop {
  l_stage : loop_stage;
  (** [last_scheduled] *)
  l_last : option Z;
  l_cancelled : bool;
  (** ghost: the readings of the clock and the ticks they gave, latest first *)
  l_ticks : list (Z * Z)
}.

Definition new_loop : loop := mk_loop LWaiting None false [].

Section Cron.
(** [croniter(expr, anchor).get_next]; [None] when it raises. *)
Variable croniter_next : string -> Z -> option Z.

Definition anchor (l : loop) (now : Z) : Z :=
  match l_last l with None => now | Some last => Z.max now last end.

(** The head of the [while] loop up to the sleep. *)
Definition schedule_next (expr : string) (now : Z) (l : loop) : loop :=
  match croniter_next expr (anchor l now) with
  | None => mk_loop LEnded (l_last l) (l_cancelled l) (l_ticks l)
  | Some tick => mk_loop (LSleeping tick) (Some tick) (l_cancelled l) ((now, tick) :: l_ticks l)
  end.

(** [delay] *)
Definition sleep_time (now tick : Z) : Z := Z.max 0 (tick - now).

Definition set_stage (l : loop) (s : loop_stage) : loop := mk_loop s (l_last l) (l_cancelled l) (l_ticks l).

Definition mark_cancelled (l : loop) : loop := mk_loop (l_stage l) (l_last l) true (l_ticks l).
End Cron.

(** [item.next_fire = ...] *)
Definition set_next_fire (t : option Z) (j : live_job) : live_job :=
  match t with
  | None => j
  | Some t => mk_live (o_item j) (o_running j) (Some t) (o_last_fire j) (o_last_success j)
  end.

(** ** The registry and its interleavings *)

(** [JobRunner._register] waits for the loop it has cancelled. *)
Inductive watcher : Type := Idle | Joining (path : string) (it : job) (o : nat).

Record world : Type := mk_world {
  w_exec : exec;
  (** the task of each job that has one *)
  w_loops : gmap nat loop;
  (** [_items] *)
  w_items : list (string * nat);
  w_watch : watcher;
  w_next : nat
}.

Definition initial_world (cap : Z) (files : gset string) : world := mk_world (new_exec cap files) ∅ [] Idle 0.

Definition set_exec (w : world) (e : exec) : world := mk_world e (w_loops w) (w_items w) (w_watch w) (w_next w).
Definition set_loop (w : world) (o : nat) (l : loop) : world :=
  mk_world (w_exec w) (<[o := l]> (w_loops w)) (w_items w) (w_watch w) (w_next w).

Definition set_obj (e : exec) (o : nat) (j : live_job) : exec :=
  mk_exec (e_sem e) (e_calls e) (<[o := j]> (e_objs e)) (e_gauge e) (e_files e) (e_stale e) (e_sent e) (e_events e) (e_next e).

(** The end of [_register]: the new object, with its task if enabled. *)
Definition add_item (w : world) (path : string) (it : job) : world :=
  let o := w_next w in
  mk_world (set_obj (w_exec w) o (mk_live it false None None None))
    (if j_enabled it then <[o := new_loop]> (w_loops w) else w_loops w)
    (od_set (w_items w) path o) Idle (S o).

(** [_items.pop(path, None)] *)
Definition pop_item (w : world) (path : string) (watch : watcher) : world :=
  mk_world (w_exec w) (w_loops w) (od_pop (w_items w) path) watch (w_next w).

(** The sweep of [_scan]: every checkpoint is deleted, if it can be. *)
Definition sweep (kept : gset string) (e : exec) : exec :=
  mk_exec (e_sem e) (e_calls e) (e_objs e) (e_gauge e)
    (filter (fun f => endswith ".running.json" f = false \/ f ∈ kept) (e_files e)) (e_stale e) (e_sent e) (e_events e)
    (e_next e).

Definition clear_task (w : world) (path : string) : Prop :=
  match od_get (w_items w) path with Some o => w_loops w !! o = None | None => True end.

(** The gauge of registered items. *)
Definition items_registered (w : world) : nat :=
  length (filter (fun o => match e_objs (w_exec w) !! o with Some j => j_enabled (o_item j) | None => false end = true)
            (od_values (w_items w))).

Inductive label : Type := Internal | AdHoc (o : nat) | Deleted (path : string).

Section Steps.
Variable croniter_next : string -> Z -> option Z.
Variable parse : string -> option string -> option job.

(** The [while] loop of [run_job] goes round. *)
Definition advance (w : world) (o : nat) (j : live_job) (l : loop) (expr : string) (now : Z) : world :=
  let l' := schedule_next croniter_next expr now l in
  let t := match l_stage l' with LSleeping t => Some t | _ => None end in
  set_loop (set_exec w (set_obj (w_exec w) o (set_next_fire t j))) o l'.

(** The loop awaits [_execute_job]. *)
Definition fire (environ : string -> option string) (now : Z) (write_ok : bool) (w : world) (o : nat) (j : live_job)
    (l : loop) : world :=
  set_loop (set_exec w (begin_call environ now write_ok (w_exec w) o j)) o (set_stage l (LRunning (e_next (w_exec w)))).

(** [task.cancel()] on the task of a job, up to the point where it ends or
    drains. *)
Inductive cancel_loop (o : nat) : world -> world -> Prop :=
| cl_parked w l :
    w_loops w !! o = Some l ->
    match l_stage l with
    | LRunning c => exists k, e_calls (w_exec w) !! c = Some k /\ over (c_stage k) = true
    | _ => True
    end ->
    cancel_loop o w (set_loop w o (mark_cancelled (set_stage l LEnded)))
| cl_running w l c e' :
    w_loops w !! o = Some l -> l_stage l = LRunning c -> cancels c (w_exec w) e' ->
    cancel_loop o w (set_loop (set_exec w e') o (mark_cancelled l)).

Inductive step : world -> label -> world -> Prop :=
| st_exec w e' : estep (w_exec w) e' -> step w Internal (set_exec w e')
| st_adhoc w o j environ now write_ok :
    e_objs (w_exec w) !! o = Some j ->
    step w (AdHoc o) (set_exec w (begin_call environ now write_ok (w_exec w) o j))
| st_adhoc_cancel w c k e' :
    e_calls (w_exec w) !! c = Some k ->
    (forall l, w_loops w !! c_obj k = Some l -> l_stage l <> LRunning c) ->
    cancels c (w_exec w) e' -> step w Internal (set_exec w e')
| st_run_once w o l j environ now write_ok :
    w_loops w !! o = Some l -> l_stage l = LWaiting -> e_objs (w_exec w) !! o = Some j ->
    j_schedule (o_item j) = None ->
    step w Internal (fire environ now write_ok w o j l)
| st_start w o l j expr now :
    w_loops w !! o = Some l -> l_stage l = LWaiting -> e_objs (w_exec w) !! o = Some j ->
    j_schedule (o_item j) = Some expr ->
    step w Internal (advance w o j l expr now)
| st_wake w o l j tick environ now write_ok :
    w_loops w !! o = Some l -> l_stage l = LSleeping tick -> e_objs (w_exec w) !! o = Some j ->
    o_running j = false ->
    step w Internal (fire environ now write_ok w o j l)
| st_skip w o l j tick expr now :
    w_loops w !! o = Some l -> l_stage l = LSleeping tick -> e_objs (w_exec w) !! o = Some j ->
    o_running j = true -> j_schedule (o_item j) = Some expr ->
    step w Internal (advance w o j l expr now)
| st_again w o l j c r expr now :
    w_loops w !! o = Some l -> l_stage l = LRunning c -> e_objs (w_exec w) !! o = Some j ->
    e_calls (w_exec w) !! c = Some (mk_call o (Answered r)) -> j_schedule (o_item j) = Some expr ->
    step w Internal (advance w o j l expr now)
| st_ended w o l j c st :
    w_loops w !! o = Some l -> l_stage l = LRunning c -> e_objs (w_exec w) !! o = Some j ->
    e_calls (w_exec w) !! c = Some (mk_call o st) ->
    (j_schedule (o_item j) = None /\ over st = true) \/ st = Cancelled \/ st = Abandoned ->
    step w Internal (set_loop w o (set_stage l LEnded))
| st_sweep w kept : w_watch w = Idle -> step w Internal (set_exec w (sweep kept (w_exec w)))
| st_unparsed w path raw :
    w_watch w = Idle -> parse path raw = None -> step w Internal w
| st_replace w path raw it o w' :
    w_watch w = Idle -> endswith ".md" path = true -> parse path raw = Some it ->
    od_get (w_items w) path = Some o -> cancel_loop o (pop_item w path (Joining path it o)) w' ->
    step w Internal w'
| st_register w path raw it :
    w_watch w = Idle -> endswith ".md" path = true -> parse path raw = Some it ->
    clear_task w path -> step w Internal (add_item (pop_item w path Idle) path it)
| st_joined w path it o l :
    w_watch w = Joining path it o -> w_loops w !! o = Some l -> l_stage l = LEnded ->
    step w Internal (add_item w path it)
| st_delete w path o w' :
    w_watch w = Idle -> od_get (w_items w) path = Some o -> cancel_loop o (pop_item w path Idle) w' ->
    step w (Deleted path) w'
| st_delete_parked w path :
    w_watch w = Idle -> clear_task w path -> step w (Deleted path) (pop_item w path Idle).
End Steps.

(** ** Invariants: the runs *)

Definition holds (k : call) : bool := active (c_stage k).
Definition queued (k : call) : bool := match c_stage k with Queued => true | _ => false end.

Definition actives (calls : gmap nat call) : nat := holders holds calls.

(** The call got past the semaphore. *)
Definition entered (s : stage) : bool := match s with Queued | Abandoned => false | _ => true end.

Definition sem_inv (cap : Z) (sem : option semaphore) (calls : gmap nat call) : Prop := pool_inv queued holds cap sem calls.

(** A stage changes: nobody forgets its object, that it was let in, or its
    answer. *)
Definition grows (calls calls' : gmap nat call) : Prop :=
  forall c k, calls !! c = Some k -> exists k', calls' !! c = Some k' /\ c_obj k' = c_obj k /\
    (entered (c_stage k) = true -> entered (c_stage k') = true) /\ (forall r, c_stage k = Answered r -> k' = k).

(** An object keeps its definition. *)
Definition same_items (objs objs' : gmap nat live_job) : Prop :=
  forall o j, objs !! o = Some j -> exists j', objs' !! o = Some j' /\ o_item j' = o_item j.

Definition entered_at (calls : gmap nat call) (c : nat) : Prop :=
  exists k, calls !! c = Some k /\ entered (c_stage k) = true.

Record core_inv (cap : Z) (e : exec) : Prop := {
  ci_fresh : forall c k, e_calls e !! c = Some k -> (c < e_next e)%nat;
  ci_obj : forall c k, e_calls e !! c = Some k -> is_Some (e_objs e !! c_obj k);
  ci_sem : sem_inv cap (e_sem e) (e_calls e);
  ci_gauge : e_gauge e = Z.of_nat (actives (e_calls e))
}.

Record sent_inv (calls : gmap nat call) (objs : gmap nat live_job) (sent : list (nat * request)) : Prop := {
  si_once : NoDup sent.*1;
  si_exact : forall c, c ∈ sent.*1 <-> entered_at calls c;
  si_message : forall c m, (c, m) ∈ sent -> exists k j environ,
    calls !! c = Some k /\ objs !! c_obj k = Some j /\ m = fire_message environ (o_item j)
}.

Record events_inv (calls : gmap nat call) (objs : gmap nat live_job) (events : list (nat * pydict)) : Prop := {
  vi_once : NoDup events.*1;
  vi_answered : forall c o r, calls !! c = Some (mk_call o (Answered r)) -> c ∈ events.*1;
  vi_event : forall c p, (c, p) ∈ events -> exists o j r us,
    calls !! c = Some (mk_call o (Answered r)) /\ objs !! o = Some j /\ 0 <= us /\ p = job_event (o_item j) us r
}.

Definition files_inv (calls : gmap nat call) (objs : gmap nat live_job) (files stale : gset string) : Prop :=
  forall f, f ∈ files -> f ∈ stale \/
    exists c k j, calls !! c = Some k /\ active (c_stage k) = true /\ objs !! c_obj k = Some j /\
                  f = checkpoint (o_item j).

(** Nobody shows the flag without a run in flight. *)
Definition flags_inv (calls : gmap nat call) (objs : gmap nat live_job) : Prop :=
  forall o j, objs !! o = Some j -> o_running j = true ->
    exists c st, calls !! c = Some (mk_call o st) /\ active st = true.

Record einv (cap : Z) (e : exec) : Prop := {
  ei_core : core_inv cap e;
  ei_sent : sent_inv (e_calls e) (e_objs e) (e_sent e);
  ei_events : events_inv (e_calls e) (e_objs e) (e_events e);
  ei_files : files_inv (e_calls e) (e_objs e) (e_files e) (e_stale e);
  ei_flags : flags_inv (e_calls e) (e_objs e)
}.

Lemma new_exec_inv cap files : einv cap (new_exec cap files).
Proof.
  split; [split| | | |]; cbn; try done.
  - apply new_pool_inv.
  - split; [constructor| |intros c m Hc; by apply elem_of_nil in Hc].
    intros c. split; [intros Hc; by apply elem_of_nil in Hc|by intros (? & ? & _)].
  - split; [constructor|done|intros c p Hc; by apply elem_of_nil in Hc].
  - intros f Hf. by left.
Qed.

(** *** What a change of stage leaves alone *)

Lemma same_items_refl objs : same_items objs objs.
Proof. intros o j Hj. by exists j. Qed.

Lemma same_items_insert objs o j j1 :
  objs !! o = Some j -> o_item j1 = o_item j -> same_items objs (<[o := j1]> objs).
Proof.
  intros Ho Hi o' j' Hj'. destruct (decide (o' = o)) as [->|Hne].
  - rewrite lookup_insert_eq. exists j1. split; [done|congruence].
  - rewrite lookup_insert_ne by done. by exists j'.
Qed.

Lemma same_items_new objs o j1 : objs !! o = None -> same_items objs (<[o := j1]> objs).
Proof. intros Ho o' j' Hj'. exists j'. rewrite lookup_insert_ne by congruence. done. Qed.

(** A call may start, or go on from any stage that is not an answer. *)
Definition may_become (calls : gmap nat call) (c : nat) (k : call) : Prop :=
  match calls !! c with
  | None => True
  | Some k0 => c_obj k = c_obj k0 /\ (entered (c_stage k0) = true -> entered (c_stage k) = true) /\
               forall r, c_stage k0 <> Answered r
  end.

Lemma grows_insert calls c k : may_become calls c k -> grows calls (<[c := k]> calls).
Proof.
  unfold may_become. intros Hc c' k' Hk. destruct (decide (c' = c)) as [->|Hne].
  - rewrite lookup_insert_eq. rewrite Hk in Hc. destruct Hc as (? & ? & Hr). exists k. split_and!; try done.
    intros r Hx. by destruct (Hr r).
  - rewrite lookup_insert_ne by done. by exists k'.
Qed.

Lemma grows_refl calls : grows calls calls.
Proof. intros c k Hk. by exists k. Qed.

Lemma entered_at_insert calls c k c' :
  may_become calls c k ->
  entered_at (<[c := k]> calls) c' <-> entered_at calls c' \/ (c' = c /\ entered (c_stage k) = true).
Proof.
  unfold may_become, entered_at. intros Hc. destruct (decide (c' = c)) as [->|Hne].
  - rewrite lookup_insert_eq. split; [intros (? & [= <-] & ?); by right|]. intros [(k0 & Hk0 & He)|[_ He]]; [|by eexists].
    rewrite Hk0 in Hc. exists k. split; [done|]. by apply Hc.
  - rewrite lookup_insert_ne by done. split; [by left|]. by intros [?|[? _]].
Qed.

Lemma sent_keep calls calls' objs objs' sent :
  grows calls calls' -> same_items objs objs' -> (forall c, entered_at calls' c -> entered_at calls c) ->
  sent_inv calls objs sent -> sent_inv calls' objs' sent.
Proof.
  intros Hg Hs He [H1 H2 H3]. split; [done| |].
  - intros c. rewrite H2. split; [|apply He]. intros (k & Hk & Ht).
    destruct (Hg c k Hk) as (k' & ? & _ & Hx & _). exists k'. auto.
  - intros c m (k & j & env & Hk & Hj & ->)%H3. destruct (Hg c k Hk) as (k' & ? & Ho & _).
    rewrite <-Ho in Hj. destruct (Hs _ _ Hj) as (j' & ? & <-). by exists k', j', env.
Qed.

Lemma sent_add calls objs objs' sent c o j environ :
  ~ entered_at calls c -> may_become calls c (mk_call o Sending) -> same_items objs objs' -> objs' !! o = Some j ->
  sent_inv calls objs sent ->
  sent_inv (<[c := mk_call o Sending]> calls) objs' ((c, fire_message environ (o_item j)) :: sent).
Proof.
  intros Hn Hc Hs Hj [H1 H2 H3]. split.
  - constructor; [|done]. by rewrite H2.
  - intros c'. cbn [fmap list_fmap fst]. rewrite elem_of_cons, H2, entered_at_insert by done. cbn. naive_solver.
  - intros c' m. rewrite elem_of_cons. intros [[= -> ->]|Hin].
    + eexists _, j, environ. by rewrite lookup_insert_eq.
    + destruct (H3 _ _ Hin) as (k & j' & env & Hk & Hj' & ->).
      destruct (grows_insert _ _ _ Hc c' k Hk) as (k' & ? & Ho & _). rewrite <-Ho in Hj'.
      destruct (Hs _ _ Hj') as (j'' & ? & <-). by exists k', j'', env.
Qed.

Lemma events_keep calls objs objs' events c k :
  may_become calls c k -> (forall r, c_stage k <> Answered r) -> same_items objs objs' ->
  events_inv calls objs events -> events_inv (<[c := k]> calls) objs' events.
Proof.
  intros Hc Hk Hs [H1 H2 H3]. split; [done| |].
  - intros c' o r. destruct (decide (c' = c)) as [->|Hne]; [|rewrite lookup_insert_ne by done; apply H2].
    rewrite lookup_insert_eq. intros [= ->]. by destruct (Hk r).
  - intros c' p (o & j & r & us & Hc' & Hj & ? & ->)%H3. destruct (Hs _ _ Hj) as (j' & ? & <-).
    destruct (grows_insert _ _ _ Hc c' _ Hc') as (k' & Hk' & _ & _ & Ha). rewrite (Ha r eq_refl) in Hk'.
    by exists o, j', r, us.
Qed.

Lemma events_add calls objs objs' events c o j us r :
  may_become calls c (mk_call o (Answered r)) -> same_items objs objs' -> objs' !! o = Some j ->
  0 <= us -> events_inv calls objs events ->
  events_inv (<[c := mk_call o (Answered r)]> calls) objs' ((c, job_event (o_item j) us r) :: events).
Proof.
  intros Hc Hs Hj Hus [H1 H2 H3]. split.
  - constructor; [|done]. intros Hx. apply list_elem_of_fmap in Hx as ([x q] & Hx & Hin). cbn in Hx. subst x.
    destruct (H3 _ _ Hin) as (o' & j' & r' & us' & Hc' & _).
    unfold may_become in Hc. rewrite Hc' in Hc. destruct Hc as (_ & _ & Hr). by destruct (Hr r').
  - intros c' o' r'. cbn [fmap list_fmap fst]. rewrite elem_of_cons.
    destruct (decide (c' = c)) as [->|Hne]; [by left|]. rewrite lookup_insert_ne by done. right. by eapply H2.
  - intros c' p. rewrite elem_of_cons. intros [[= -> ->]|Hin].
    + exists o, j, r, us. by rewrite lookup_insert_eq.
    + destruct (H3 _ _ Hin) as (o' & j' & r' & us' & Hc' & Hj' & ? & ->). destruct (Hs _ _ Hj') as (j'' & ? & <-).
      destruct (grows_insert _ _ _ Hc c' _ Hc') as (k' & Hk' & _ & _ & Ha). rewrite (Ha r' eq_refl) in Hk'.
      by exists o', j'', r', us'.
Qed.

(** The runs in flight go on. *)
Definition keeps_active (calls calls' : gmap nat call) : Prop :=
  forall c k, calls !! c = Some k -> active (c_stage k) = true ->
    exists k', calls' !! c = Some k' /\ c_obj k' = c_obj k /\ active (c_stage k') = true.

Lemma keeps_active_insert calls c k :
  match calls !! c with
  | None => True
  | Some k0 => c_obj k = c_obj k0 /\ (active (c_stage k0) = true -> active (c_stage k) = true)
  end -> keeps_active calls (<[c := k]> calls).
Proof.
  intros Hc c' k' Hk Ha. destruct (decide (c' = c)) as [->|Hne].
  - rewrite lookup_insert_eq. rewrite Hk in Hc. destruct Hc as [? Hx]. exists k. auto.
  - rewrite lookup_insert_ne by done. by exists k'.
Qed.

Lemma files_keep calls calls' objs objs' files files' stale :
  keeps_active calls calls' -> same_items objs objs' -> files' ⊆ files ->
  files_inv calls objs files stale -> files_inv calls' objs' files' stale.
Proof.
  intros Hc Hs Hsub Hf f Hin. destruct (Hf f (Hsub f Hin)) as [?|(c & k & j & Hk & Ha & Hj & ->)]; [by left|right].
  destruct (Hc _ _ Hk Ha) as (k' & ? & Ho & ?). rewrite <-Ho in Hj. destruct (Hs _ _ Hj) as (j' & ? & <-).
  by exists c, k', j'.
Qed.

Lemma files_finish calls objs objs' files stale c o j st0 st (ok : bool) :
  calls !! c = Some (mk_call o st0) -> objs !! o = Some j -> same_items objs objs' ->
  files_inv calls objs files stale ->
  files_inv (<[c := mk_call o st]> calls) objs' (if ok then files ∖ {[checkpoint (o_item j)]} else files)
    (if ok then stale else {[checkpoint (o_item j)]} ∪ stale).
Proof.
  intros Hc Hj Hs Hf f Hin. destruct (decide (f = checkpoint (o_item j))) as [->|Hne]; [destruct ok; set_solver|].
  destruct (Hf f) as [?|(c' & k & j' & Hk & Ha & Hj' & ->)]; [destruct ok; set_solver|left; destruct ok; set_solver|right].
  destruct (Hs _ _ Hj') as (j'' & ? & Heq). exists c', k, j''. rewrite Heq. split_and!; try done.
  rewrite lookup_insert_ne; [done|]. intros <-. rewrite Hc in Hk. injection Hk as <-. cbn in Hj'. congruence.
Qed.

Lemma flags_keep calls calls' objs objs' :
  keeps_active calls calls' ->
  (forall o j', objs' !! o = Some j' -> o_running j' = true -> exists j, objs !! o = Some j /\ o_running j = true) ->
  flags_inv calls objs -> flags_inv calls' objs'.
Proof.
  intros Hc Ho Hf o j' Hj' Hr. destruct (Ho _ _ Hj' Hr) as (j & Hj & Hr').
  destruct (Hf _ _ Hj Hr') as (c & st & Hk & Ha). destruct (Hc _ _ Hk Ha) as ([o' st'] & Hk' & Hob & Ha').
  cbn in Hob. subst. eauto.
Qed.

Lemma flags_finish calls objs c o j1 st0 st :
  calls !! c = Some (mk_call o st0) -> o_running j1 = false ->
  flags_inv calls objs -> flags_inv (<[c := mk_call o st]> calls) (<[o := j1]> objs).
Proof.
  intros Hc Hj Hf o' j' Hj' Hr. destruct (decide (o' = o)) as [->|Hne].
  - rewrite lookup_insert_eq in Hj'. congruence.
  - rewrite lookup_insert_ne in Hj' by done. destruct (Hf _ _ Hj' Hr) as (c' & st' & Hk & Ha).
    exists c', st'. split; [|done]. rewrite lookup_insert_ne; [done|]. intros <-. congruence.
Qed.

Lemma flags_enter calls objs c o j1 :
  may_become calls c (mk_call o Sending) ->
  flags_inv calls objs -> flags_inv (<[c := mk_call o Sending]> calls) (<[o := j1]> objs).
Proof.
  intros Hc Hf o' j' Hj' Hr. destruct (decide (o' = o)) as [->|Hne].
  - exists c, Sending. by rewrite lookup_insert_eq.
  - rewrite lookup_insert_ne in Hj' by done. destruct (Hf _ _ Hj' Hr) as (c' & st' & Hk & Ha).
    destruct (decide (c' = c)) as [->|Hnc]; [|exists c', st'; by rewrite lookup_insert_ne].
    unfold may_become in Hc. rewrite Hk in Hc. destruct Hc as [Ho _]. cbn in Ho. congruence.
Qed.

(** *** Permits *)

Lemma actives_insert calls c k :
  (actives (<[c := k]> calls) + (if from_option (fun k => active (c_stage k)) false (calls !! c) then 1 else 0) =
   actives calls + if active (c_stage k) then 1 else 0)%nat.
Proof. apply (holders_insert holds). Qed.

Section Permits.
Context (cap : Z) (calls : gmap nat call).

Lemma sem_begin s c o mine s' :
  sem_inv cap (Some s) calls -> calls !! c = None -> acquire s c = (mine, s') ->
  sem_inv cap (Some s') (<[c := mk_call o (if mine then Sending else Queued)]> calls).
Proof. intros Hs Hc Ha. apply (pool_acquire _ _ _ s _ _ _ mine); try done; [intros k; by rewrite Hc|by destruct mine..]. Qed.

Lemma sem_unlimited c k : sem_inv cap None calls -> c_stage k <> Queued -> sem_inv cap None (<[c := k]> calls).
Proof. intros Hs Hk. apply pool_unlimited; [done|]. unfold queued. by destruct (c_stage k). Qed.

Lemma sem_resume s c o :
  sem_inv cap (Some s) calls -> (c, true) ∈ sem_waiters s -> calls !! c = Some (mk_call o Queued) ->
  sem_inv cap (Some (resume s c)) (<[c := mk_call o Sending]> calls).
Proof. intros. by apply (pool_resume _ _ _ _ _ _ (mk_call o Queued)). Qed.

Lemma sem_abandon s c b o :
  sem_inv cap (Some s) calls -> (c, b) ∈ sem_waiters s -> calls !! c = Some (mk_call o Queued) ->
  sem_inv cap (Some (abandon s c)) (<[c := mk_call o Abandoned]> calls).
Proof. intros. by apply (pool_abandon _ _ _ _ _ _ b (mk_call o Queued)). Qed.

(** A run goes on from one active stage, to another or to its end. *)
Lemma sem_entered sem c o st0 st :
  sem_inv cap sem calls -> calls !! c = Some (mk_call o st0) -> active st0 = true -> st <> Queued ->
  sem_inv cap (if active st then sem else release <$> sem) (<[c := mk_call o st]> calls).
Proof.
  intros Hs Hc Ha Hst. apply (pool_holder queued holds cap sem calls c (mk_call o st0) (mk_call o st)); try done.
  - unfold queued. cbn. by destruct st0.
  - unfold queued. cbn. by destruct st.
Qed.
End Permits.

(** *** The operations keep the invariant *)

Lemma core_insert cap e sem c k objs' g files stale sent events n :
  core_inv cap e -> (c < n)%nat -> (e_next e <= n)%nat -> same_items (e_objs e) objs' ->
  is_Some (objs' !! c_obj k) -> sem_inv cap sem (<[c := k]> (e_calls e)) ->
  g = Z.of_nat (actives (<[c := k]> (e_calls e))) ->
  core_inv cap (mk_exec sem (<[c := k]> (e_calls e)) objs' g files stale sent events n).
Proof.
  intros [Hf Ho Hs Hg] Hc Hn Hobj Hk Hsem ->. split; cbn; [| |done|done].
  - intros c' k' Hk'. destruct (decide (c' = c)) as [->|Hne]; [done|]. rewrite lookup_insert_ne in Hk' by done.
    specialize (Hf _ _ Hk'). lia.
  - intros c' k' Hk'. destruct (decide (c' = c)) as [->|Hne].
    + rewrite lookup_insert_eq in Hk'. by injection Hk' as <-.
    + rewrite lookup_insert_ne in Hk' by done. destruct (Ho _ _ Hk') as [j Hj].
      destruct (Hobj _ _ Hj) as (j' & ? & _). by exists j'.
Qed.

(** A call about to be let in: new, or waiting for its permit. *)
Definition pending (e : exec) (c o : nat) : Prop :=
  e_calls e !! c = None \/ e_calls e !! c = Some (mk_call o Queued).

Lemma pending_may_become e c o st : pending e c o -> may_become (e_calls e) c (mk_call o st).
Proof. unfold may_become. intros [->| ->]; [done|]. split_and!; [done|done|by intros r]. Qed.

Lemma pending_not_entered e c o : pending e c o -> ~ entered_at (e_calls e) c.
Proof. intros [Hc|Hc] (k & Hk & He); rewrite Hk in Hc; [done|]. injection Hc as ->. done. Qed.

Lemma pending_actives e c o st :
  pending e c o ->
  actives (<[c := mk_call o st]> (e_calls e)) = (actives (e_calls e) + if active st then 1 else 0)%nat.
Proof.
  intros Hp. pose proof (actives_insert (e_calls e) c (mk_call o st)) as Hn.
  destruct Hp as [Hp|Hp]; rewrite Hp in Hn; cbn in Hn; lia.
Qed.

Lemma pending_keeps_active e c o k : pending e c o -> c_obj k = o -> keeps_active (e_calls e) (<[c := k]> (e_calls e)).
Proof. intros Hp Ho. apply keeps_active_insert. destruct Hp as [->| ->]; [done|]. by cbn. Qed.

Lemma enter_inv cap environ now ok e e1 c o j :
  einv cap e -> e_objs e !! o = Some j -> pending e c o -> (c < e_next e1)%nat -> (e_next e <= e_next e1)%nat ->
  sem_inv cap (e_sem e1) (<[c := mk_call o Sending]> (e_calls e)) ->
  e1 = mk_exec (e_sem e1) (e_calls e) (e_objs e) (e_gauge e) (e_files e) (e_stale e) (e_sent e) (e_events e) (e_next e1) ->
  einv cap (enter environ now ok e1 c o j).
Proof.
  intros [Hcore Hsent Hev Hfi Hfl] Hj Hp Hc Hn Hsem ->. cbn [e_next e_sem] in *.
  assert (Hm := pending_may_become e c o Sending Hp).
  assert (Hobj : same_items (e_objs e)
    (<[o := mk_live (o_item j) true (o_next_fire j) (Some now) (o_last_success j)]> (e_objs e))) by by eapply same_items_insert.
  split; unfold enter; cbn.
  - apply core_insert; try done; [cbn; by rewrite lookup_insert_eq|].
    rewrite (pending_actives e c o) by done. cbn. destruct Hcore as [_ _ _ ->]. lia.
  - change (o_item j) with (o_item (mk_live (o_item j) true (o_next_fire j) (Some now) (o_last_success j))) at 2.
    eapply sent_add; [by eapply pending_not_entered|done|done|by rewrite lookup_insert_eq|done].
  - by apply events_keep with (e_objs e).
  - intros f Hin. assert (Hx : f = checkpoint (o_item j) \/ f ∈ e_files e) by (destruct ok; set_solver). clear Hin.
    destruct Hx as [->|Hin].
    + right. eexists c, _, _. rewrite lookup_insert_eq. split_and!; [done|done|by cbn; rewrite lookup_insert_eq|done].
    + eapply files_keep; [by eapply pending_keeps_active|exact Hobj|reflexivity|exact Hfi|done].
  - by apply flags_enter.
Qed.

Lemma finish_inv cap now us ok e c o j st0 st :
  einv cap e -> e_calls e !! c = Some (mk_call o st0) -> active st0 = true -> e_objs e !! o = Some j ->
  (st = Cancelled \/ exists r, st = Answered r /\ 0 <= us) ->
  einv cap (finish now us ok e c o j st).
Proof.
  intros [Hcore Hsent Hev Hfi Hfl] Hc Ha Hj Hst.
  assert (Hst' : active st = false /\ entered st = true) by (destruct Hst as [->|(r & -> & _)]; done).
  destruct Hst' as [Hst1 Hst2].
  assert (Hm : may_become (e_calls e) c (mk_call o st)).
  { unfold may_become. rewrite Hc. split_and!; [done|done|]. intros r. by destruct st0. }
  set (j1 := mk_live (o_item j) false (o_next_fire j) (o_last_fire j)
               (match st with Answered Succeeded => Some now | _ => o_last_success j end)).
  assert (Hobj : same_items (e_objs e) (<[o := j1]> (e_objs e))) by by eapply same_items_insert.
  split; unfold finish; cbn; fold j1.
  - apply core_insert; [done|by eapply ci_fresh|done|done|cbn; by rewrite lookup_insert_eq| |].
    + assert (Hse := sem_entered cap (e_calls e) (e_sem e) c o st0 st (ci_sem _ _ Hcore) Hc Ha ltac:(by destruct st)).
      by rewrite Hst1 in Hse.
    + assert (Hn := actives_insert (e_calls e) c (mk_call o st)). rewrite Hc in Hn. cbn in Hn.
      rewrite Ha, Hst1 in Hn. destruct Hcore as [_ _ _ ->]. lia.
  - eapply sent_keep; [by apply grows_insert|exact Hobj| |done].
    intros c'. rewrite entered_at_insert by done. intros [?|[-> _]]; [done|]. exists (mk_call o st0). split; [done|].
    by destruct st0.
  - destruct Hst as [->|(r & -> & Hus)]; [by apply events_keep with (e_objs e)|].
    change (o_item j) with (o_item j1). eapply events_add; [done|exact Hobj|by rewrite lookup_insert_eq|done|done].
  - by eapply files_finish.
  - by eapply flags_finish.
Qed.

(** A call that is not let in, or goes on draining. *)
Lemma set_call_inv cap e e1 sem c o st :
  einv cap e -> (pending e c o /\ active st = false /\ entered st = false \/
                 e_calls e !! c = Some (mk_call o Sending) /\ st = Draining) ->
  (c < e_next e1)%nat -> (e_next e <= e_next e1)%nat -> is_Some (e_objs e !! o) ->
  sem_inv cap sem (<[c := mk_call o st]> (e_calls e)) ->
  e1 = mk_exec sem (e_calls e) (e_objs e) (e_gauge e) (e_files e) (e_stale e) (e_sent e) (e_events e) (e_next e1) ->
  einv cap (set_call e1 c (mk_call o st)).
Proof.
  intros [Hcore Hsent Hev Hfi Hfl] Hst Hc Hn Ho Hsem ->. cbn [e_next] in *.
  assert (Hm : may_become (e_calls e) c (mk_call o st)).
  { destruct Hst as [(Hp & _)|[Hk ->]]; [by apply pending_may_become|]. unfold may_become. by rewrite Hk. }
  assert (Hk : keeps_active (e_calls e) (<[c := mk_call o st]> (e_calls e))).
  { destruct Hst as [(Hp & _)|[Hk ->]]; [by eapply pending_keeps_active|]. apply keeps_active_insert. by rewrite Hk. }
  split; unfold set_call; cbn.
  - apply core_insert; try done; [apply same_items_refl|]. destruct Hcore as [_ _ _ ->]. f_equal.
    destruct Hst as [(Hp & Ha & _)|[Hc' ->]]; [rewrite (pending_actives e c o) by done; rewrite Ha; lia|].
    pose proof (actives_insert (e_calls e) c (mk_call o Draining)) as Hx. rewrite Hc' in Hx. cbn in Hx. lia.
  - eapply sent_keep; [by apply grows_insert|apply same_items_refl| |done].
    intros c'. rewrite entered_at_insert by done. intros [?|[-> He]]; [done|]. cbn in He.
    destruct Hst as [(_ & _ & Hf)|[Hc' _]]; [congruence|]. by eexists.
  - eapply events_keep; [done| |apply same_items_refl|done].
    intros r. cbn. destruct Hst as [(_ & _ & Hf)|[_ ->]]; [|done]. by intros ->.
  - eapply files_keep; [done|apply same_items_refl|reflexivity|done].
  - eapply flags_keep; [done| |done]. eauto.
Qed.

Lemma call_obj cap e c o st :
  core_inv cap e -> e_calls e !! c = Some (mk_call o st) -> is_Some (e_objs e !! o).
Proof. intros Hcore Hc. exact (ci_obj _ _ Hcore _ _ Hc). Qed.

Lemma begin_call_inv cap environ now ok e o j :
  einv cap e -> e_objs e !! o = Some j -> einv cap (begin_call environ now ok e o j).
Proof.
  intros He Hj. assert (Hcore := ei_core _ _ He).
  assert (Hc : e_calls e !! e_next e = None).
  { destruct (e_calls e !! e_next e) eqn:E; [|done]. apply (ci_fresh _ _ Hcore) in E. lia. }
  assert (Hs := ci_sem _ _ Hcore). unfold begin_call. cbn [e_sem]. destruct (e_sem e) as [s|] eqn:Es.
  - destruct (acquire s (e_next e)) as [mine s'] eqn:Ea.
    pose proof (sem_begin _ _ _ _ o _ _ Hs Hc Ea) as Hs'. destruct mine.
    + eapply enter_inv; [exact He|done|by left| | |done|done]; cbn; lia.
    + eapply set_call_inv; [exact He|left; split; [by left|done]| | |by eexists|done|done]; cbn; lia.
  - eapply enter_inv; [exact He|done|by left| | | |done]; cbn; try lia.
    by apply sem_unlimited.
Qed.

Lemma estep_inv cap e e' : estep e e' -> einv cap e -> einv cap e'.
Proof.
  intros Hst He. assert (Hcore := ei_core _ _ He). destruct Hst.
  - eapply enter_inv; [exact He|done|by right| | | |done]; cbn; [by eapply ci_fresh|lia|].
    apply sem_resume; [|done..]. rewrite <-H. by apply ci_sem.
  - eapply finish_inv; [done..|]. right. by exists r.
  - eapply finish_inv; [done..|]. by left.
Qed.

Lemma cancels_inv cap c e e' : cancels c e e' -> einv cap e -> einv cap e'.
Proof.
  intros Hst He. assert (Hcore := ei_core _ _ He). destruct Hst.
  - eapply set_call_inv; [exact He|left; split; [by right|done]| | | | |done]; cbn; [by eapply ci_fresh|lia| |].
    + by eapply call_obj.
    + eapply sem_abandon; [|done..]. rewrite <-H. by apply ci_sem.
  - eapply (set_call_inv cap e e (e_sem e)); [exact He|by right| | | | |by destruct e]; cbn; [by eapply ci_fresh|lia| |].
    + by eapply call_obj.
    + by apply (sem_entered cap (e_calls e) (e_sem e) c o Sending Draining (ci_sem _ _ Hcore)).
  - eapply finish_inv; [done..|]. by left.
Qed.

(** A job object is created, or its next firing is set. *)
Lemma set_obj_inv cap e o j1 :
  (forall j, e_objs e !! o = Some j -> o_item j1 = o_item j /\ o_running j1 = o_running j) ->
  (e_objs e !! o = None -> o_running j1 = false) ->
  einv cap e -> einv cap (set_obj e o j1).
Proof.
  intros Hex Hnew [Hcore Hsent Hev Hfi Hfl].
  assert (Hobj : same_items (e_objs e) (<[o := j1]> (e_objs e))).
  { destruct (e_objs e !! o) as [j|] eqn:Hj; [|by apply same_items_new].
    eapply same_items_insert; [done|]. by apply Hex. }
  split; unfold set_obj; cbn.
  - destruct Hcore as [H1 H2 H3 H4]. split; cbn; try done. intros c k Hk.
    destruct (H2 _ _ Hk) as [j Hj]. destruct (Hobj _ _ Hj) as (j' & ? & _). by exists j'.
  - eapply sent_keep; [apply grows_refl|done|done|done].
  - destruct Hev as [H1 H2 H3]. split; [done..|]. intros c p (o' & j & r & us & ? & Hj & ? & ->)%H3.
    destruct (Hobj _ _ Hj) as (j' & ? & <-). by exists o', j', r, us.
  - eapply files_keep; [|exact Hobj|reflexivity|done]. intros c k. by exists k.
  - eapply flags_keep; [| |done]; [intros c k; by exists k|]. intros o' j' Hj' Hr.
    destruct (decide (o' = o)) as [->|Hne]; [|rewrite lookup_insert_ne in Hj' by done; by exists j'].
    rewrite lookup_insert_eq in Hj'. injection Hj' as <-. destruct (e_objs e !! o) as [j|] eqn:Hj.
    + exists j. split; [done|]. destruct (Hex j eq_refl) as [_ <-]. done.
    + rewrite Hnew in Hr; done.
Qed.

Lemma sweep_inv cap kept e : einv cap e -> einv cap (sweep kept e).
Proof.
  intros [[H1 H2 H3 H4] Hsent Hev Hfi Hfl]. split; unfold sweep; [split| | | |]; cbn; try done.
  eapply files_keep; [intros c k; by exists k|apply same_items_refl| |done]. set_solver.
Qed.

(** ** Invariants: the registry *)

(** What an operation on the runs means for the rest. *)
Record exec_grows (e e' : exec) : Prop := {
  eg_items : same_items (e_objs e) (e_objs e');
  eg_objs : forall o, is_Some (e_objs e' !! o) -> is_Some (e_objs e !! o);
  eg_calls : grows (e_calls e) (e_calls e')
}.

Lemma exec_grows_insert e o j j1 c k sem g files stale sent events n :
  e_objs e !! o = Some j -> o_item j1 = o_item j -> may_become (e_calls e) c k ->
  exec_grows e (mk_exec sem (<[c := k]> (e_calls e)) (<[o := j1]> (e_objs e)) g files stale sent events n).
Proof.
  intros Hj Hi Hm. split; cbn; [by eapply same_items_insert| |by apply grows_insert].
  intros o'. destruct (decide (o' = o)) as [->|Hne]; [by eexists|]. by rewrite lookup_insert_ne.
Qed.

Lemma exec_grows_call e c k sem g files stale sent events n :
  may_become (e_calls e) c k ->
  exec_grows e (mk_exec sem (<[c := k]> (e_calls e)) (e_objs e) g files stale sent events n).
Proof. intros Hm. split; cbn; [apply same_items_refl|done|by apply grows_insert]. Qed.

Lemma begin_call_grows cap environ now ok e o j :
  einv cap e -> e_objs e !! o = Some j -> exec_grows e (begin_call environ now ok e o j).
Proof.
  intros He Hj. assert (Hc : e_calls e !! e_next e = None).
  { destruct (e_calls e !! e_next e) eqn:E; [|done]. apply (ci_fresh _ _ (ei_core _ _ He)) in E. lia. }
  assert (Hm : forall st, may_become (e_calls e) (e_next e) (mk_call o st)) by (intros; unfold may_become; by rewrite Hc).
  unfold begin_call. cbn [e_sem]. destruct (e_sem e) as [s|]; [|unfold enter; cbn; by eapply exec_grows_insert].
  destruct (acquire s (e_next e)) as [[] s']; unfold enter, set_call, set_sem; cbn;
    [by eapply exec_grows_insert|by apply exec_grows_call].
Qed.

Lemma begin_call_at environ now ok e o j :
  exists st, e_calls (begin_call environ now ok e o j) !! e_next e = Some (mk_call o st) /\ over st = false.
Proof.
  unfold begin_call. cbn [e_sem]. destruct (e_sem e) as [s|]; [destruct (acquire s (e_next e)) as [[] s']|]; cbn;
    rewrite lookup_insert_eq; by eexists.
Qed.

Lemma estep_grows e e' : estep e e' -> exec_grows e e'.
Proof.
  destruct 1; unfold resume_call, enter, finish, set_sem; cbn; eapply exec_grows_insert; try done; unfold may_become;
    match goal with H : e_calls _ !! _ = Some _ |- _ => rewrite H end; done.
Qed.

Lemma cancels_grows c e e' : cancels c e e' -> exec_grows e e'.
Proof.
  destruct 1; unfold abandon_call, drain_call, set_call, set_sem, finish; cbn;
    [apply exec_grows_call|apply exec_grows_call|eapply exec_grows_insert; [done|done|]]; unfold may_become;
    match goal with H : e_calls _ !! _ = Some _ |- _ => rewrite H end; try done.
  split_and!; [done|done|]. intros r. by destruct st.
Qed.

Lemma set_obj_grows e o j j1 : e_objs e !! o = Some j -> o_item j1 = o_item j -> exec_grows e (set_obj e o j1).
Proof.
  intros Hj Hi. split; cbn; [by eapply same_items_insert| |apply grows_refl].
  intros o'. destruct (decide (o' = o)) as [->|Hne]; [by eexists|]. by rewrite lookup_insert_ne.
Qed.

Definition path_of (e : exec) (o : nat) (p : string) : Prop :=
  exists j, e_objs e !! o = Some j /\ j_path (o_item j) = p.

Record sched_inv (w : world) : Prop := {
  wi_next : forall o, is_Some (e_objs (w_exec w) !! o) -> (o < w_next w)%nat;
  wi_loop : forall o l, w_loops w !! o = Some l -> is_Some (e_objs (w_exec w) !! o);
  wi_paths : NoDup (od_keys (w_items w));
  wi_item : forall p o, (p, o) ∈ w_items w -> exists j,
    e_objs (w_exec w) !! o = Some j /\ j_path (o_item j) = p /\
    if j_enabled (o_item j) then exists l, w_loops w !! o = Some l /\ l_cancelled l = false else w_loops w !! o = None;
  wi_live : forall o l, w_loops w !! o = Some l -> l_cancelled l = false -> exists p, (p, o) ∈ w_items w;
  wi_join : match w_watch w with
            | Idle => True
            | Joining p it o => (p ∉ od_keys (w_items w)) /\ j_path it = p /\ path_of (w_exec w) o p /\
                                exists l, w_loops w !! o = Some l /\ l_cancelled l = true
            end;
  wi_running : forall o l c, w_loops w !! o = Some l -> l_stage l = LRunning c ->
    exists st, e_calls (w_exec w) !! c = Some (mk_call o st)
}.

Lemma path_of_grows e e' o p : exec_grows e e' -> path_of e o p -> path_of e' o p.
Proof. intros [Hi _ _] (j & Hj & Hp). destruct (Hi _ _ Hj) as (j' & ? & He). exists j'. by rewrite He. Qed.

Lemma sched_exec w e' : exec_grows (w_exec w) e' -> sched_inv w -> sched_inv (set_exec w e').
Proof.
  intros Hg [H1 H2 H3 H4 H5 H6 H7]. split; cbn; try done.
  - intros o Ho. by apply H1, Hg.
  - intros o l Hl. destruct (H2 _ _ Hl) as [j Hj]. destruct (eg_items _ _ Hg _ _ Hj) as (j' & ? & _). by exists j'.
  - intros p o Hin. destruct (H4 _ _ Hin) as (j & Hj & Hp & Hl). destruct (eg_items _ _ Hg _ _ Hj) as (j' & ? & He).
    exists j'. by rewrite He.
  - destruct (w_watch w) as [|p it o]; [done|]. destruct H6 as (? & ? & Hp & ?). split_and!; try done. by eapply path_of_grows.
  - intros o l c Hl Hs. destruct (H7 _ _ _ Hl Hs) as [st Hc]. destruct (eg_calls _ _ Hg _ _ Hc) as ([o' st'] & Hk & Ho & _).
    cbn in Ho. subst. by exists st'.
Qed.

(** A loop moves on. *)
Lemma sched_loop w o l l' :
  w_loops w !! o = Some l -> l_cancelled l' = l_cancelled l ->
  (forall c, l_stage l' = LRunning c -> exists st, e_calls (w_exec w) !! c = Some (mk_call o st)) ->
  sched_inv w -> sched_inv (set_loop w o l').
Proof.
  intros Hl Hc Hr [H1 H2 H3 H4 H5 H6 H7].
  assert (Hx : forall o' l1, <[o := l']> (w_loops w) !! o' = Some l1 ->
            exists l0, w_loops w !! o' = Some l0 /\ l_cancelled l0 = l_cancelled l1).
  { intros o' l1. destruct (decide (o' = o)) as [->|Hne].
    - rewrite lookup_insert_eq. intros [= <-]. by exists l.
    - rewrite lookup_insert_ne by done. by exists l1. }
  assert (Hy : forall o' l0, w_loops w !! o' = Some l0 ->
            exists l1, <[o := l']> (w_loops w) !! o' = Some l1 /\ l_cancelled l1 = l_cancelled l0).
  { intros o' l0 Hl0. destruct (decide (o' = o)) as [->|Hne].
    - rewrite lookup_insert_eq. exists l'. split; [done|congruence].
    - rewrite lookup_insert_ne by done. by exists l0. }
  split; cbn; try done.
  - intros o' l1 (l0 & ? & _)%Hx. by eapply H2.
  - intros p o' Hin. destruct (H4 _ _ Hin) as (j & Hj & Hp & Hen). exists j. split_and!; [done..|].
    destruct (j_enabled (o_item j)).
    + destruct Hen as (l0 & Hl0 & Hk). destruct (Hy _ _ Hl0) as (l1 & ? & ?). exists l1. split; [done|congruence].
    + rewrite lookup_insert_ne; [done|]. intros <-. congruence.
  - intros o' l1 (l0 & Hl0 & Hk)%Hx Hl1. eapply H5; [done|congruence].
  - destruct (w_watch w) as [|p it o']; [done|]. destruct H6 as (? & ? & ? & l0 & Hl0 & Hk). split_and!; try done.
    destruct (Hy _ _ Hl0) as (l1 & ? & ?). exists l1. split; [done|congruence].
  - intros o' l1 c. destruct (decide (o' = o)) as [->|Hne].
    + rewrite lookup_insert_eq. intros [= <-]. apply Hr.
    + rewrite lookup_insert_ne by done. apply H7.
Qed.

Lemma item_path w p p' o : sched_inv w -> (p, o) ∈ w_items w -> (p', o) ∈ w_items w -> p = p'.
Proof.
  intros Hw (j & Hj & <- & _)%(wi_item _ Hw) (j' & Hj' & <- & _)%(wi_item _ Hw). congruence.
Qed.

(** The watcher may wait for the object it has just unregistered. *)
Definition waits_for (path : string) (o : nat) (wt : watcher) : Prop :=
  wt = Idle \/ exists it, wt = Joining path it o /\ j_path it = path.

Lemma sched_unregister w path o l l' wt :
  sched_inv w -> od_get (w_items w) path = Some o -> w_loops w !! o = Some l -> l_cancelled l' = true ->
  (forall c, l_stage l' = LRunning c -> exists st, e_calls (w_exec w) !! c = Some (mk_call o st)) ->
  waits_for path o wt ->
  sched_inv (mk_world (w_exec w) (<[o := l']> (w_loops w)) (od_pop (w_items w) path) wt (w_next w)).
Proof.
  intros Hw Hget Hl Hc Hr Hwt. assert (Hin := od_get_elem _ _ _ Hget).
  assert (Hne : forall p o', (p, o') ∈ od_pop (w_items w) path -> (p, o') ∈ w_items w /\ o' <> o).
  { intros p o' [Hn Hp]%elem_of_od_pop. split; [done|]. intros ->. by apply Hn, (item_path w _ _ o). }
  pose proof Hw as [H1 H2 H3 H4 H5 H6 H7]. split; cbn; try done.
  - intros o' l1. destruct (decide (o' = o)) as [->|Hn]; [intros _; by eapply H2|]. rewrite lookup_insert_ne by done. apply H2.
  - by apply od_pop_NoDup.
  - intros p o' [Hp Hn]%Hne. destruct (H4 _ _ Hp) as (j & ? & ? & ?). exists j. by rewrite lookup_insert_ne.
  - intros o' l1. destruct (decide (o' = o)) as [->|Hn].
    + rewrite lookup_insert_eq. intros [= <-]. congruence.
    + rewrite lookup_insert_ne by done. intros Hl1 Hc1. destruct (H5 _ _ Hl1 Hc1) as [p Hp]. exists p.
      apply elem_of_od_pop. split; [|done]. intros ->. apply od_get_Some in Hp; [|done]. congruence.
  - destruct Hwt as [->|(it & -> & <-)]; [done|]. split_and!; [|done| |].
    + intros Hx. by apply od_get_None in Hx; [|apply od_pop_get].
    + destruct (H4 _ _ Hin) as (j & ? & ? & _). by exists j.
    + exists l'. by rewrite lookup_insert_eq.
  - intros o' l1 c. destruct (decide (o' = o)) as [->|Hn].
    + rewrite lookup_insert_eq. intros [= <-]. apply Hr.
    + rewrite lookup_insert_ne by done. apply H7.
Qed.

Lemma sched_cancel w path o wt w' :
  sched_inv w -> od_get (w_items w) path = Some o -> waits_for path o wt ->
  cancel_loop o (pop_item w path wt) w' -> sched_inv w'.
Proof.
  intros Hw Hget Hwt Hc. inversion Hc as [w0 l Hl Hs|w0 l c e' Hl Hs Hcan]; subst; cbn in *.
  - by eapply (sched_unregister w).
  - apply (sched_unregister (set_exec w e') path o l); try done; [|].
    + apply sched_exec; [by eapply cancels_grows|done].
    + cbn. intros c'. rewrite Hs. intros [= <-]. destruct (wi_running _ Hw _ _ _ Hl Hs) as [st Hst].
      destruct (eg_calls _ _ (cancels_grows _ _ _ Hcan) _ _ Hst) as ([o' st'] & Hk & Ho & _). cbn in Ho. subst. by exists st'.
Qed.

Lemma sched_pop w path : sched_inv w -> clear_task w path -> sched_inv (pop_item w path Idle).
Proof.
  intros [H1 H2 H3 H4 H5 H6 H7] Hc. split; cbn; try done.
  - by apply od_pop_NoDup.
  - intros p o [_ Hp]%elem_of_od_pop. by apply H4.
  - intros o l Hl Hx. destruct (H5 _ _ Hl Hx) as [p Hp]. exists p. apply elem_of_od_pop. split; [|done]. intros ->.
    apply od_get_Some in Hp; [|done]. unfold clear_task in Hc. rewrite Hp in Hc. congruence.
Qed.

Lemma sched_add w path it :
  sched_inv w -> path ∉ od_keys (w_items w) -> j_path it = path -> sched_inv (add_item w path it).
Proof.
  intros [H1 H2 H3 H4 H5 H6 H7] Hp Hit.
  assert (Ho : e_objs (w_exec w) !! w_next w = None).
  { destruct (e_objs (w_exec w) !! w_next w) eqn:E; [|done].
    assert (w_next w < w_next w)%nat by (apply H1; by eexists). lia. }
  assert (Hlo : w_loops w !! w_next w = None).
  { destruct (w_loops w !! w_next w) eqn:E; [|done]. apply H2 in E as [? ?]. congruence. }
  set (loops := if j_enabled it then <[w_next w := new_loop]> (w_loops w) else w_loops w).
  assert (Hloops : forall o l, loops !! o = Some l ->
            w_loops w !! o = Some l \/ (o = w_next w /\ l = new_loop /\ j_enabled it = true)).
  { intros o l. unfold loops. destruct (j_enabled it) eqn:En; [|by left]. destruct (decide (o = w_next w)) as [->|Hne].
    - rewrite lookup_insert_eq. intros [= <-]. by right.
    - rewrite lookup_insert_ne by done. by left. }
  assert (Hold : forall o, o <> w_next w -> loops !! o = w_loops w !! o).
  { intros o Hne. unfold loops. destruct (j_enabled it); [|done]. by rewrite lookup_insert_ne. }
  split; cbn; fold loops.
  - intros o [j Hj]. destruct (decide (o = w_next w)) as [->|Hne]; [lia|]. rewrite lookup_insert_ne in Hj by done.
    assert (o < w_next w)%nat by (apply H1; by eexists). lia.
  - intros o l [Hl|(-> & _)]%Hloops; [|rewrite lookup_insert_eq; by eexists].
    destruct (H2 _ _ Hl) as [j Hj]. exists j. rewrite lookup_insert_ne by congruence. done.
  - by apply od_set_NoDup.
  - intros p o Hin. rewrite od_set_new in Hin by done. apply elem_of_app in Hin as [Hin|Hin].
    + destruct (H4 _ _ Hin) as (j & Hj & ?). exists j. rewrite lookup_insert_ne by congruence.
      rewrite Hold by congruence. done.
    + apply list_elem_of_singleton in Hin as [= -> ->]. rewrite lookup_insert_eq. eexists. split_and!; [done|done|].
      cbn. unfold loops. destruct (j_enabled it); [|done]. exists new_loop. by rewrite lookup_insert_eq.
  - intros o l [Hl|(-> & -> & _)]%Hloops Hx; rewrite od_set_new by done.
    + destruct (H5 _ _ Hl Hx) as [p ?]. exists p. apply elem_of_app. by left.
    + exists path. apply elem_of_app. right. by apply list_elem_of_singleton.
  - done.
  - intros o l c [Hl|(-> & -> & _)]%Hloops Hs; [|done]. by eapply H7.
Qed.

Definition world_inv (cap : Z) (w : world) : Prop := einv cap (w_exec w) /\ sched_inv w.

Section Preservation.
Context (cap : Z) (croniter_next : string -> Z -> option Z) (parse : string -> option string -> option job).
Hypothesis parse_path : forall path raw it, parse path raw = Some it -> j_path it = path.

Lemma schedule_next_cases expr now l :
  l_cancelled (schedule_next croniter_next expr now l) = l_cancelled l /\
  forall c, l_stage (schedule_next croniter_next expr now l) <> LRunning c.
Proof. unfold schedule_next. destruct (croniter_next _ _); done. Qed.

Lemma advance_inv w o j l expr now :
  world_inv cap w -> w_loops w !! o = Some l -> e_objs (w_exec w) !! o = Some j ->
  world_inv cap (advance croniter_next w o j l expr now).
Proof.
  intros [He Hw] Hl Hj. destruct (schedule_next_cases expr now l) as [Hc Hs]. unfold advance.
  assert (Hi : forall t, o_item (set_next_fire t j) = o_item j /\ o_running (set_next_fire t j) = o_running j) by by intros [].
  split; cbn.
  - apply set_obj_inv; [|congruence|done]. intros j' Hj'. rewrite Hj in Hj'. injection Hj' as <-. apply Hi.
  - apply sched_loop with l; [done|done| |].
    + intros c Hx. by apply Hs in Hx.
    + apply sched_exec; [|done]. eapply set_obj_grows; [done|]. apply Hi.
Qed.

Lemma fire_inv environ now ok w o j l :
  world_inv cap w -> w_loops w !! o = Some l -> e_objs (w_exec w) !! o = Some j ->
  world_inv cap (fire environ now ok w o j l).
Proof.
  intros [He Hw] Hl Hj. split; cbn; [by apply begin_call_inv|].
  apply sched_loop with l; [done|done| |].
  - intros c. cbn. intros [= <-]. destruct (begin_call_at environ now ok (w_exec w) o j) as (st & Hst & _). by exists st.
  - apply sched_exec; [|done]. by eapply begin_call_grows.
Qed.

Lemma cancel_inv w path o wt w' :
  world_inv cap w -> od_get (w_items w) path = Some o -> waits_for path o wt ->
  cancel_loop o (pop_item w path wt) w' -> world_inv cap w'.
Proof.
  intros [He Hw] Hget Hwt Hc. split; [|by eapply sched_cancel].
  inversion Hc; subst; cbn; [done|]. by eapply cancels_inv.
Qed.

Lemma add_item_inv w path it :
  world_inv cap w -> path ∉ od_keys (w_items w) -> j_path it = path -> world_inv cap (add_item w path it).
Proof.
  intros [He Hw] Hp Hit. split; [|by apply sched_add]. cbn. apply set_obj_inv; [|done|done].
  intros j Hj. assert (w_next w < w_next w)%nat by (apply (wi_next _ Hw); by eexists). lia.
Qed.

Lemma od_pop_keys_not {V} (d : list (string * V)) k : k ∉ od_keys (od_pop d k).
Proof. apply od_get_None, od_pop_get. Qed.

Lemma step_inv w a w' : step croniter_next parse w a w' -> world_inv cap w -> world_inv cap w'.
Proof.
  intros Hst Hw. pose proof Hw as [He Hsch]. destruct Hst.
  - split; [by eapply estep_inv|]. apply sched_exec; [by apply estep_grows|done].
  - split; [by apply begin_call_inv|]. apply sched_exec; [by eapply begin_call_grows|done].
  - split; [by eapply cancels_inv|]. apply sched_exec; [by eapply cancels_grows|done].
  - by apply fire_inv.
  - by apply advance_inv.
  - by apply fire_inv.
  - by apply advance_inv.
  - by apply advance_inv.
  - split; [done|]. by apply sched_loop with l.
  - split; [by apply sweep_inv|]. apply sched_exec; [|done].
    split; cbn; [apply same_items_refl|done|apply grows_refl].
  - done.
  - eapply cancel_inv; [exact Hw|done| |done]. right. exists it. split; [done|]. by eapply parse_path.
  - apply add_item_inv; [split; [done|by apply sched_pop]|apply od_pop_keys_not|by eapply parse_path].
  - pose proof (wi_join _ Hsch) as Hj. rewrite H in Hj. destruct Hj as (? & ? & _). by apply add_item_inv.
  - by apply (cancel_inv w path o Idle w' Hw); [|left|].
  - split; [done|by apply sched_pop].
Qed.

Lemma initial_inv files : world_inv cap (initial_world cap files).
Proof.
  split; [apply new_exec_inv|]. split; cbn; try done.
  - by intros o [? ?].
  - constructor.
  - intros p o Hin. by apply elem_of_nil in Hin.
Qed.

Lemma runs_inv files ls w : runs (step croniter_next parse) (initial_world cap files) ls w -> world_inv cap w.
Proof. intros Hr. apply (runs_invariant _ _ step_inv _ _ _ Hr), initial_inv. Qed.
End Preservation.

(** ** Invariants: a job that only its loop fires *)

(** The calls a job object has had. *)
Definition started (o : nat) (calls : gmap nat call) : nat := map_count (fun k => bool_decide (c_obj k = o)) calls.

(** The fires a loop still has to do for the ticks it has scheduled, and all
    the fires its ticks allow; a job without a schedule has one. *)
Definition owed (j : live_job) (l : loop) : nat :=
  match l_stage l, j_schedule (o_item j) with
  | LSleeping _, _ => 1
  | LWaiting, None => 1
  | _, _ => 0
  end.

Definition allowed (j : live_job) (l : loop) : nat :=
  match j_schedule (o_item j) with Some _ => length (l_ticks l) | None => 1 end.

Record own (o : nat) (calls : gmap nat call) (objs : gmap nat live_job) (lo : option loop) : Prop := {
  ow_calls : forall c st, calls !! c = Some (mk_call o st) -> over st = false ->
    exists l, lo = Some l /\ l_stage l = LRunning c;
  ow_flag : forall c st j, calls !! c = Some (mk_call o st) -> active st = true -> objs !! o = Some j ->
    o_running j = true;
  ow_budget : forall j, objs !! o = Some j ->
    match lo with
    | Some l => (started o calls + owed j l <= allowed j l)%nat
    | None => started o calls = 0%nat
    end
}.

(** A call that is not over changes its stage, and its object with it. *)
Definition restages (e e' : exec) : Prop :=
  exists c o st0 st, e_calls e !! c = Some (mk_call o st0) /\ over st0 = false /\
    e_calls e' = <[c := mk_call o st]> (e_calls e) /\
    ((e_objs e' = e_objs e /\ (active st = true -> active st0 = true)) \/
     exists j j1, e_objs e !! o = Some j /\ e_objs e' = <[o := j1]> (e_objs e) /\ o_item j1 = o_item j /\
                  (active st = true -> o_running j1 = true)).

Lemma started_insert o calls c k :
  (started o (<[c := k]> calls) + (if from_option (fun k => bool_decide (c_obj k = o)) false (calls !! c) then 1 else 0) =
   started o calls + if bool_decide (c_obj k = o) then 1 else 0)%nat.
Proof. apply (map_count_insert (fun k => bool_decide (c_obj k = o))). Qed.

Lemma estep_restages e e' : estep e e' -> restages e e'.
Proof.
  intros [e0 s c o j environ now ok Hs Hw Hc Hj|e0 c o j r now us ok Hc Hj Hus|e0 c o j now us ok Hc Hj].
  - exists c, o, Queued, Sending. split_and!; try done. right. eexists j, _. by split_and!.
  - exists c, o, Sending, (Answered r). split_and!; try done. right. eexists j, _. by split_and!.
  - exists c, o, Draining, Cancelled. split_and!; try done. right. eexists j, _. by split_and!.
Qed.

Lemma cancels_restages c e e' : cancels c e e' -> restages e e'.
Proof.
  intros [e0 s c0 b o Hs Hw Hc|e0 c0 o Hc|e0 c0 o j now us ok st Hc Ha Hj].
  - exists c0, o, Queued, Abandoned. split_and!; try done. by left.
  - exists c0, o, Sending, Draining. split_and!; try done. by left.
  - exists c0, o, st, Cancelled. split_and!; try done; [by destruct st|]. right. eexists j, _. by split_and!.
Qed.

Lemma own_restage o e e' lo :
  restages e e' -> own o (e_calls e) (e_objs e) lo -> own o (e_calls e') (e_objs e') lo.
Proof.
  intros (c & o1 & st0 & st & Hc & Hover & -> & Hobj) [H1 H2 H3].
  assert (Hn : started o (<[c := mk_call o1 st]> (e_calls e)) = started o (e_calls e)).
  { pose proof (started_insert o (e_calls e) c (mk_call o1 st)) as Hx. rewrite Hc in Hx. cbn in Hx. lia. }
  split.
  - intros c' st' Hc' Ho. destruct (decide (c' = c)) as [->|Hne].
    + rewrite lookup_insert_eq in Hc'. injection Hc' as -> ->. by eapply H1.
    + rewrite lookup_insert_ne in Hc' by done. by eapply H1.
  - intros c' st' j' Hc' Ha Hj'. destruct (decide (c' = c)) as [->|Hne].
    + rewrite lookup_insert_eq in Hc'. injection Hc' as -> ->. destruct Hobj as [[Heq Hact]|(j & j1 & _ & Heq & _ & Hr)].
      * rewrite Heq in Hj'. by eapply H2; [|apply Hact|].
      * rewrite Heq, lookup_insert_eq in Hj'. injection Hj' as <-. by apply Hr.
    + rewrite lookup_insert_ne in Hc' by done. assert (Hov : over st' = false) by (by destruct st').
      destruct (decide (o1 = o)) as [->|Ho].
      * destruct (H1 _ _ Hc' Hov) as (l & -> & Hl). destruct (H1 _ _ Hc Hover) as (l' & [= <-] & Hl'). congruence.
      * destruct Hobj as [[Heq _]|(j & j1 & _ & Heq & _)]; rewrite Heq in Hj'; [|rewrite lookup_insert_ne in Hj' by done]; by eapply H2.
  - intros j' Hj'. rewrite Hn. destruct Hobj as [[Heq _]|(j & j1 & Hj & Heq & Hi & _)]; rewrite Heq in Hj'; [by apply H3|].
    destruct (decide (o = o1)) as [->|Ho]; [|rewrite lookup_insert_ne in Hj' by done; by apply H3].
    rewrite lookup_insert_eq in Hj'. injection Hj' as <-. specialize (H3 _ Hj). destruct lo; [|done].
    unfold owed, allowed in *. by rewrite Hi.
Qed.

(** A call begins. *)
Lemma begin_shape environ now ok e o j :
  exists st, e_calls (begin_call environ now ok e o j) = <[e_next e := mk_call o st]> (e_calls e) /\ over st = false /\
    ((e_objs (begin_call environ now ok e o j) = e_objs e /\ active st = false) \/
     exists j1, e_objs (begin_call environ now ok e o j) = <[o := j1]> (e_objs e) /\ o_item j1 = o_item j /\ o_running j1 = true).
Proof.
  unfold begin_call. cbn [e_sem]. destruct (e_sem e) as [s|]; [destruct (acquire s (e_next e)) as [[] s']|]; cbn;
    eexists; (split; [done|]); (split; [done|]); first [by left | right; eexists; by split_and!].
Qed.

Lemma own_begin_other o o' environ now ok e j lo :
  o' <> o -> e_calls e !! e_next e = None -> own o (e_calls e) (e_objs e) lo ->
  own o (e_calls (begin_call environ now ok e o' j)) (e_objs (begin_call environ now ok e o' j)) lo.
Proof.
  intros Ho Hf [H1 H2 H3]. destruct (begin_shape environ now ok e o' j) as (st & -> & _ & Hobj).
  assert (Hx : e_objs (begin_call environ now ok e o' j) !! o = e_objs e !! o).
  { destruct Hobj as [[-> _]|(j1 & -> & _)]; [done|]. by rewrite lookup_insert_ne. }
  assert (Hn := started_insert o (e_calls e) (e_next e) (mk_call o' st)). rewrite Hf in Hn. cbn in Hn.
  rewrite bool_decide_false in Hn by done.
  assert (Hc : forall c st', <[e_next e := mk_call o' st]> (e_calls e) !! c = Some (mk_call o st') ->
            e_calls e !! c = Some (mk_call o st')).
  { intros c st'. destruct (decide (c = e_next e)) as [->|Hne]; [rewrite lookup_insert_eq; by intros [= -> ->]|].
    by rewrite lookup_insert_ne. }
  split.
  - intros c st' Hc'%Hc. by apply H1.
  - intros c st' j' Hc'%Hc Ha. rewrite Hx. by eapply H2.
  - intros j'. rewrite Hx. intros Hj'. replace (started o _) with (started o (e_calls e)) by lia. by apply H3.
Qed.

Lemma own_fire o environ now ok e j l :
  e_calls e !! e_next e = None -> e_objs e !! o = Some j -> owed j l = 1%nat ->
  own o (e_calls e) (e_objs e) (Some l) ->
  own o (e_calls (begin_call environ now ok e o j)) (e_objs (begin_call environ now ok e o j))
    (Some (set_stage l (LRunning (e_next e)))).
Proof.
  intros Hf Hj Howed [H1 H2 H3]. destruct (begin_shape environ now ok e o j) as (st & -> & Hover & Hobj).
  assert (Hnone : forall c st', e_calls e !! c = Some (mk_call o st') -> over st' = true).
  { intros c st' Hc. destruct (over st') eqn:E; [done|]. destruct (H1 _ _ Hc E) as (l' & [= <-] & Hl).
    unfold owed in Howed. by rewrite Hl in Howed. }
  assert (Hn := started_insert o (e_calls e) (e_next e) (mk_call o st)). rewrite Hf in Hn. cbn in Hn.
  rewrite bool_decide_true in Hn by done. split.
  - intros c st' Hc Ho. destruct (decide (c = e_next e)) as [->|Hne]; [by eexists|].
    rewrite lookup_insert_ne in Hc by done. apply Hnone in Hc. congruence.
  - intros c st' j' Hc Ha Hj'. destruct (decide (c = e_next e)) as [->|Hne].
    + rewrite lookup_insert_eq in Hc. injection Hc as ->. destruct Hobj as [[_ ?]|(j1 & Heq & _ & Hr)]; [congruence|].
      rewrite Heq, lookup_insert_eq in Hj'. congruence.
    + rewrite lookup_insert_ne in Hc by done. apply Hnone in Hc. by destruct st'.
  - intros j' Hj'. assert (Hi : o_item j' = o_item j).
    { destruct Hobj as [[Heq _]|(j1 & Heq & Hi & _)]; rewrite Heq in Hj'; [congruence|].
      rewrite lookup_insert_eq in Hj'. congruence. }
    specialize (H3 _ Hj). cbn in H3. unfold owed, allowed in *. cbn. rewrite Hi.
    destruct (j_schedule (o_item j)); lia.
Qed.

Lemma own_ext o calls objs objs' lo : objs' !! o = objs !! o -> own o calls objs lo -> own o calls objs' lo.
Proof. intros He [H1 H2 H3]. split; [done|intros c st j ?? Hj|intros j Hj]; rewrite He in Hj; [by eapply H2|by apply H3]. Qed.

(** Nothing of the job is running. *)
Definition at_rest (o : nat) (calls : gmap nat call) : Prop :=
  forall c st, calls !! c = Some (mk_call o st) -> over st = true.

Lemma own_at_rest o calls objs l :
  own o calls objs (Some l) ->
  match l_stage l with LRunning c => forall k, calls !! c = Some k -> over (c_stage k) = true | _ => True end ->
  at_rest o calls.
Proof.
  intros [H1 _ _] Hl c st Hc. destruct (over st) eqn:E; [done|]. destruct (H1 _ _ Hc E) as (l' & [= <-] & Hs).
  rewrite Hs in Hl. specialize (Hl _ Hc). cbn in Hl. congruence.
Qed.

(** A loop at rest moves on: the object may have its next firing set. *)
Lemma own_move o calls objs objs' l l' :
  at_rest o calls -> (forall j', objs' !! o = Some j' -> exists j, objs !! o = Some j /\ o_item j' = o_item j) ->
  (forall j, objs !! o = Some j -> (started o calls + owed j l <= allowed j l)%nat ->
     (started o calls + owed j l' <= allowed j l')%nat) ->
  own o calls objs (Some l) -> own o calls objs' (Some l').
Proof.
  intros Hr Hobj Hb [H1 H2 H3]. split.
  - intros c st Hc Ho. apply Hr in Hc. congruence.
  - intros c st j Hc Ha. apply Hr in Hc. by destruct st.
  - intros j' Hj'. destruct (Hobj _ Hj') as (j & Hj & Hi). specialize (Hb j Hj (H3 _ Hj)).
    unfold owed, allowed in *. by rewrite Hi.
Qed.

Lemma own_new o calls objs j lo :
  (forall c k, calls !! c = Some k -> c_obj k <> o) -> objs !! o = Some j ->
  (lo = Some new_loop \/ lo = None) -> own o calls objs lo.
Proof.
  intros Hc Hj Hlo. assert (Hs : started o calls = 0%nat).
  { apply map_count_0. intros c k Hk. apply bool_decide_false. by eapply Hc. }
  split.
  - intros c st Hx. by apply Hc in Hx.
  - intros c st j' Hx. by apply Hc in Hx.
  - intros j' Hj'. rewrite Hs. destruct Hlo as [->| ->]; [|done]. unfold owed, allowed, new_loop. cbn.
    destruct (j_schedule (o_item j')); lia.
Qed.

Section Own.
Context (cap : Z) (croniter_next : string -> Z -> option Z) (parse : string -> option string -> option job).
Context (o : nat).

Definition own_in (w : world) : Prop := own o (e_calls (w_exec w)) (e_objs (w_exec w)) (w_loops w !! o).

Lemma fresh_call w : world_inv cap w -> e_calls (w_exec w) !! e_next (w_exec w) = None.
Proof.
  intros [He _]. destruct (_ !! _) eqn:E; [|done]. apply (ci_fresh _ _ (ei_core _ _ He)) in E. lia.
Qed.

Lemma own_fire_step environ now ok w o1 j l :
  world_inv cap w -> w_loops w !! o1 = Some l -> e_objs (w_exec w) !! o1 = Some j -> owed j l = 1%nat ->
  own_in w -> own_in (fire environ now ok w o1 j l).
Proof.
  unfold own_in, fire. cbn. intros Hw Hl Hj Howed Ho. apply fresh_call in Hw. destruct (decide (o1 = o)) as [->|Hne].
  - rewrite lookup_insert_eq. apply own_fire; try done. by rewrite <-Hl.
  - rewrite lookup_insert_ne by done. by apply own_begin_other.
Qed.

Lemma owed_le_1 j l : (owed j l <= 1)%nat.
Proof. unfold owed. destruct (l_stage l); [destruct (j_schedule _)|..]; lia. Qed.

Lemma own_advance_step w o1 j l expr now :
  w_loops w !! o1 = Some l -> e_objs (w_exec w) !! o1 = Some j -> j_schedule (o_item j) = Some expr ->
  (o1 = o -> at_rest o (e_calls (w_exec w))) ->
  own_in w -> own_in (advance croniter_next w o1 j l expr now).
Proof.
  unfold own_in, advance. cbn. intros Hl Hj Hs Hr Ho. destruct (decide (o1 = o)) as [->|Hne].
  - rewrite lookup_insert_eq. rewrite Hl in Ho. eapply own_move; [by apply Hr| | |exact Ho].
    + intros j'. rewrite lookup_insert_eq. intros [= <-]. exists j. split; [done|].
      unfold set_next_fire. by destruct (l_stage _).
    + intros j' Hj'. rewrite Hj in Hj'. injection Hj' as <-. unfold allowed. rewrite Hs. unfold schedule_next.
      destruct (croniter_next _ _); cbn; unfold owed; cbn; lia.
  - rewrite lookup_insert_ne by done. eapply own_ext; [|exact Ho]. by rewrite lookup_insert_ne.
Qed.

(** The loop is cancelled where it is parked, or its call ends. *)
Lemma own_park w o1 l l' :
  w_loops w !! o1 = Some l -> l_stage l' = LEnded -> l_ticks l' = l_ticks l ->
  (o1 = o -> at_rest o (e_calls (w_exec w))) -> own_in w -> own_in (set_loop w o1 l').
Proof.
  unfold own_in. cbn. intros Hl Hs Ht Hr Ho. destruct (decide (o1 = o)) as [->|Hne]; [|by rewrite lookup_insert_ne].
  rewrite lookup_insert_eq. rewrite Hl in Ho. eapply own_move; [by apply Hr| | |exact Ho]; [eauto|].
  intros j _. unfold owed, allowed. rewrite Hs, Ht. lia.
Qed.

Lemma own_cancel_step w o1 w' : cancel_loop o1 w w' -> own_in w -> own_in w'.
Proof.
  intros Hc Ho. destruct Hc as [w l Hl Hs|w l c e' Hl Hs Hc].
  - eapply own_park; [done|done|done| |done]. intros ->. unfold own_in in Ho. rewrite Hl in Ho.
    eapply own_at_rest; [exact Ho|]. destruct (l_stage l); [done|done| |done].
    destruct Hs as (k & Hk & ?). intros k' Hk'. congruence.
  - unfold own_in. cbn. apply cancels_restages in Hc. apply (own_restage _ _ _ _ Hc) in Ho.
    destruct (decide (o1 = o)) as [->|Hne]; [|by rewrite lookup_insert_ne].
    rewrite lookup_insert_eq. rewrite Hl in Ho. destruct Ho as [H1 H2 H3]. split; [|done|done].
    intros c' st Hc' Hov. destruct (H1 _ _ Hc' Hov) as (l' & [= <-] & ?). by eexists.
Qed.

Lemma own_add_step w path it : world_inv cap w -> own_in w -> own_in (add_item w path it).
Proof.
  intros [He Hsch] Ho. unfold own_in. cbn. destruct (decide (o = w_next w)) as [->|Hne].
  - eapply own_new; [|by rewrite lookup_insert_eq|].
    + intros c k Hk Heq. apply (ci_obj _ _ (ei_core _ _ He)) in Hk. rewrite Heq in Hk.
      assert (w_next w < w_next w)%nat by by apply (wi_next _ Hsch). lia.
    + destruct (j_enabled it); [left; by rewrite lookup_insert_eq|right].
      destruct (w_loops w !! w_next w) eqn:E; [|done]. apply (wi_loop _ Hsch) in E.
      assert (w_next w < w_next w)%nat by by apply (wi_next _ Hsch). lia.
  - apply own_ext with (e_objs (w_exec w)); [by rewrite lookup_insert_ne|].
    destruct (j_enabled it); [by rewrite lookup_insert_ne|done].
Qed.

Hypothesis parse_path : forall path raw it, parse path raw = Some it -> j_path it = path.

Lemma own_step w a w' :
  a <> AdHoc o -> step croniter_next parse w a w' -> world_inv cap w /\ own_in w -> world_inv cap w' /\ own_in w'.
Proof.
  intros Ha Hst [Hw Ho]. split; [by eapply step_inv|]. destruct Hst.
  - unfold own_in. cbn. apply own_restage with (w_exec w); [by apply estep_restages|done].
  - unfold own_in. cbn. apply own_begin_other; [congruence|by apply fresh_call|done].
  - unfold own_in. cbn. apply own_restage with (w_exec w); [by eapply cancels_restages|done].
  - apply own_fire_step; try done. unfold owed. by rewrite H0, H2.
  - apply own_advance_step; try done. intros ->. unfold own_in in Ho. rewrite H in Ho.
    eapply own_at_rest; [exact Ho|]. by rewrite H0.
  - apply own_fire_step; try done. unfold owed. by rewrite H0.
  - apply own_advance_step; try done. intros ->. unfold own_in in Ho. rewrite H in Ho.
    eapply own_at_rest; [exact Ho|]. by rewrite H0.
  - apply own_advance_step; try done. intros ->. unfold own_in in Ho. rewrite H in Ho.
    eapply own_at_rest; [exact Ho|]. rewrite H0. intros k Hk. rewrite H2 in Hk. by injection Hk as <-.
  - eapply own_park; [done|done|done| |done]. intros ->. unfold own_in in Ho. rewrite H in Ho.
    eapply own_at_rest; [exact Ho|]. rewrite H0. intros k Hk. rewrite H2 in Hk. injection Hk as <-. cbn.
    destruct H3 as [[_ ?]|[->| ->]]; done.
  - done.
  - done.
  - eapply own_cancel_step; [done|exact Ho].
  - apply own_add_step; [|exact Ho]. destruct Hw. split; [done|by apply sched_pop].
  - by apply own_add_step.
  - eapply own_cancel_step; [done|exact Ho].
  - exact Ho.
Qed.
End Own.

(** ** Invariants: ticks *)

Section Ticks.
Context (cap : Z) (croniter_next : string -> Z -> option Z) (parse : string -> option string -> option job).

(** Each tick is the next one after the clock and the tick before it. *)
Fixpoint ticks_from (expr : string) (ticks : list (Z * Z)) : Prop :=
  match ticks with
  | [] => True
  | (now, t) :: rest =>
      croniter_next expr (match rest with [] => now | (_, last) :: _ => Z.max now last end) = Some t /\ ticks_from expr rest
  end.

Definition loop_ticks (j : live_job) (l : loop) : Prop :=
  l_last l = snd <$> head (l_ticks l) /\
  match j_schedule (o_item j) with Some expr => ticks_from expr (l_ticks l) | None => l_ticks l = [] end.

Definition ticks_inv (w : world) : Prop :=
  forall o l j, w_loops w !! o = Some l -> e_objs (w_exec w) !! o = Some j -> loop_ticks j l.

Lemma ticks_exec w e' : exec_grows (w_exec w) e' -> ticks_inv w -> ticks_inv (set_exec w e').
Proof.
  intros Hg Ht o l j' Hl Hj'. destruct (eg_objs _ _ Hg o) as [j Hj]; [by eexists|].
  destruct (eg_items _ _ Hg _ _ Hj) as (j1 & Hj1 & Hi). cbn in Hj'. specialize (Ht o l j Hl Hj).
  unfold loop_ticks in *. replace (o_item j') with (o_item j) by congruence. done.
Qed.

Lemma ticks_loop w o l l' :
  w_loops w !! o = Some l -> (forall j, e_objs (w_exec w) !! o = Some j -> loop_ticks j l -> loop_ticks j l') ->
  ticks_inv w -> ticks_inv (set_loop w o l').
Proof.
  intros Hl Hx Ht o' l1 j. cbn. destruct (decide (o' = o)) as [->|Hne]; [|rewrite lookup_insert_ne by done; apply Ht].
  rewrite lookup_insert_eq. intros [= <-] Hj. apply Hx; [done|]. by apply (Ht o).
Qed.

Lemma ticks_advance w o j l expr now :
  w_loops w !! o = Some l -> e_objs (w_exec w) !! o = Some j -> j_schedule (o_item j) = Some expr ->
  ticks_inv w -> ticks_inv (advance croniter_next w o j l expr now).
Proof.
  intros Hl Hj Hs Ht. unfold advance. apply ticks_loop with l; [done| |].
  - intros j' Hj' [Hlast Hticks]. cbn in Hj'. rewrite lookup_insert_eq in Hj'. injection Hj' as <-.
    assert (Hi : forall t, o_item (set_next_fire t j) = o_item j) by by intros []. unfold loop_ticks in *.
    rewrite !Hi, Hs in *. unfold schedule_next. destruct (croniter_next expr (anchor l now)) as [t|] eqn:E; [|done].
    cbn. split; [done|]. split; [|done]. rewrite <-E. f_equal. unfold anchor. rewrite Hlast.
    by destruct (l_ticks l) as [|[]].
  - apply ticks_exec; [|done]. eapply set_obj_grows; [done|]. by destruct (l_stage _).
Qed.

Lemma ticks_fire environ now ok w o j l :
  world_inv cap w -> w_loops w !! o = Some l -> e_objs (w_exec w) !! o = Some j ->
  ticks_inv w -> ticks_inv (fire environ now ok w o j l).
Proof.
  intros [He _] Hl Hj Ht. apply ticks_loop with l; [done|done|]. apply ticks_exec; [by eapply begin_call_grows|done].
Qed.

Lemma ticks_cancel w o w' : cancel_loop o w w' -> ticks_inv w -> ticks_inv w'.
Proof.
  intros [w0 l Hl Hs|w0 l c e' Hl Hs Hc] Ht; [by apply ticks_loop with l|].
  apply ticks_loop with l; [done|done|]. apply ticks_exec; [by eapply cancels_grows|done].
Qed.

Lemma ticks_add w path it : sched_inv w -> ticks_inv w -> ticks_inv (add_item w path it).
Proof.
  intros Hw Ht o l j. cbn. destruct (decide (o = w_next w)) as [->|Hne].
  - assert (w_loops w !! w_next w = None) as Hn.
    { destruct (w_loops w !! w_next w) eqn:E; [|done]. apply (wi_loop _ Hw), (wi_next _ Hw) in E. lia. }
    rewrite lookup_insert_eq. destruct (j_enabled it); [rewrite lookup_insert_eq|by rewrite Hn].
    intros [= <-] [= <-]. unfold loop_ticks. cbn. by destruct (j_schedule it).
  - rewrite lookup_insert_ne by done. destruct (j_enabled it); [rewrite lookup_insert_ne by done|]; apply Ht.
Qed.

Lemma ticks_step w a w' : step croniter_next parse w a w' -> world_inv cap w -> ticks_inv w -> ticks_inv w'.
Proof.
  intros Hst [He Hsch] Ht. destruct Hst.
  - apply ticks_exec; [by apply estep_grows|done].
  - apply ticks_exec; [by eapply begin_call_grows|done].
  - apply ticks_exec; [by eapply cancels_grows|done].
  - by apply ticks_fire.
  - by apply ticks_advance.
  - by apply ticks_fire.
  - by apply ticks_advance.
  - by apply ticks_advance.
  - by apply ticks_loop with l.
  - apply ticks_exec; [|done]. split; cbn; [apply same_items_refl|done|apply grows_refl].
  - done.
  - by eapply ticks_cancel.
  - apply ticks_add; [by apply sched_pop|exact Ht].
  - by apply ticks_add.
  - by eapply ticks_cancel.
  - exact Ht.
Qed.

(** What [croniter] promises: the first firing after its argument. *)
Definition cron_correct (fires : string -> Z -> Prop) : Prop :=
  forall expr t n, croniter_next expr t = Some n ->
    t < n /\ fires expr n /\ forall u, t < u < n -> ~ fires expr u.

Lemma ticks_from_pair fires expr ticks l1 now2 t2 now1 t1 l2 :
  cron_correct fires -> ticks_from expr ticks -> ticks = l1 ++ (now2, t2) :: (now1, t1) :: l2 ->
  t1 < t2 /\ now2 < t2 /\ fires expr t2 /\ forall u, Z.max now2 t1 < u < t2 -> ~ fires expr u.
Proof.
  intros Hc. revert ticks. induction l1 as [|[now t] l1 IH]; intros ticks Ht ->; cbn [app ticks_from] in Ht.
  - destruct Ht as [Ht _]. apply Hc in Ht as (? & ? & ?). split_and!; [lia|lia|done|done].
  - destruct Ht as [_ Ht]. by eapply IH.
Qed.

Lemma ticks_from_sorted fires expr ticks : cron_correct fires -> ticks_from expr ticks -> StronglySorted (fun a b => b < a) ticks.*2.
Proof.
  intros Hc. induction ticks as [|[now t] ticks IH]; cbn [ticks_from fmap list_fmap snd]; [constructor|]. intros [Ht Hrest].
  specialize (IH Hrest). constructor; [done|]. apply Hc in Ht as [Ht _]. destruct ticks as [|[now1 t1] ticks]; [constructor|].
  cbn in *. constructor; [lia|]. inversion IH as [|?? _ Hall]; subst. eapply Forall_impl; [exact Hall|]. cbn. lia.
Qed.
End Ticks.

(** ** Invariants: one run of a file at a time *)

Definition is_deleted (a : label) : bool := match a with Deleted _ => true | _ => false end.

(** A loop that has not ended is registered, or the watcher waits for it. *)
Definition attached (w : world) : Prop :=
  forall o l, w_loops w !! o = Some l -> l_stage l <> LEnded ->
    (exists p, (p, o) ∈ w_items w) \/ (exists p it, w_watch w = Joining p it o).

Section Attached.
Context (cap : Z) (croniter_next : string -> Z -> option Z) (parse : string -> option string -> option job).

Lemma attached_loop w o l l' :
  w_loops w !! o = Some l -> (l_stage l' <> LEnded -> l_stage l <> LEnded) -> attached w -> attached (set_loop w o l').
Proof.
  intros Hl Hs Ha o' l1. cbn. destruct (decide (o' = o)) as [->|Hne]; [|rewrite lookup_insert_ne by done; apply Ha].
  rewrite lookup_insert_eq. intros [= <-] H1. by apply (Ha o l); [|apply Hs].
Qed.

Lemma attached_replace w path it o w' :
  w_watch w = Idle -> od_get (w_items w) path = Some o -> NoDup (od_keys (w_items w)) ->
  cancel_loop o (pop_item w path (Joining path it o)) w' -> attached w -> attached w'.
Proof.
  intros Hi Hget Hnd Hc Ha.
  assert (Hw : forall o' l, o' <> o -> w_loops w !! o' = Some l -> l_stage l <> LEnded ->
            exists p, (p, o') ∈ od_pop (w_items w) path).
  { intros o' l Hne Hl Hs. destruct (Ha _ _ Hl Hs) as [[p Hp]|(p & it' & Hx)]; [|congruence]. exists p.
    apply elem_of_od_pop. split; [|done]. intros ->. apply od_get_Some in Hp; [|done]. congruence. }
  inversion Hc; subst; intros o' l'; cbn; (destruct (decide (o' = o)) as [->|Hne]; [intros _ _; right; by eauto|]);
    rewrite lookup_insert_ne by done; intros Hl' Hs'; left; by eapply Hw.
Qed.

Lemma attached_pop w path : w_watch w = Idle -> NoDup (od_keys (w_items w)) -> clear_task w path ->
  attached w -> attached (pop_item w path Idle).
Proof.
  intros Hi Hnd Hc Ha o l Hl Hs. cbn in *. left. destruct (Ha _ _ Hl Hs) as [[p Hp]|(p & it' & Hx)]; [|congruence].
  exists p. apply elem_of_od_pop. split; [|done]. intros ->. apply od_get_Some in Hp; [|done].
  unfold clear_task in Hc. rewrite Hp in Hc. congruence.
Qed.

Lemma attached_add w path it :
  sched_inv w -> path ∉ od_keys (w_items w) ->
  (forall p it' o l, w_watch w = Joining p it' o -> w_loops w !! o = Some l -> l_stage l = LEnded) ->
  attached w -> attached (add_item w path it).
Proof.
  intros Hw Hp Hj Ha o l. cbn. rewrite od_set_new by done. intros Hl Hs. left.
  assert (Hx : w_loops w !! o = Some l \/ o = w_next w).
  { destruct (j_enabled it); [|by left]. destruct (decide (o = w_next w)) as [->|Hne]; [by right|].
    rewrite lookup_insert_ne in Hl by done. by left. }
  destruct Hx as [Hx| ->].
  - destruct (Ha _ _ Hx Hs) as [[p ?]|(p & it' & Hjo)]; [exists p; apply elem_of_app; by left|].
    destruct Hs. by eapply Hj.
  - exists path. apply elem_of_app. right. by apply list_elem_of_singleton.
Qed.

Lemma attached_step w a w' :
  is_deleted a = false -> step croniter_next parse w a w' -> world_inv cap w -> attached w -> attached w'.
Proof.
  intros Hd Hst [He Hsch] Ha. destruct Hst; try exact Ha; try done.
  - apply attached_loop with l; [done|by rewrite H0|exact Ha].
  - apply attached_loop with l; [done|by rewrite H0|exact Ha].
  - apply attached_loop with l; [done|by rewrite H0|exact Ha].
  - apply attached_loop with l; [done|by rewrite H0|exact Ha].
  - apply attached_loop with l; [done|by rewrite H0|exact Ha].
  - apply attached_loop with l; [done|by rewrite H0|exact Ha].
  - eapply attached_replace; [done|done|by apply wi_paths|done|done].
  - apply attached_add; [by apply sched_pop|apply od_pop_keys_not|done|]. apply attached_pop; try done. by apply wi_paths.
  - pose proof (wi_join _ Hsch) as Hj. rewrite H in Hj. destruct Hj as (? & _). apply attached_add; [done|done| |done].
    intros p it' o' l' Hx Hl'. rewrite H in Hx. injection Hx as <- <- <-. congruence.
Qed.
End Attached.

(** ** Announcements *)

Lemma job_event_accepted it us r now agent n :
  j_name it <> "" -> 0 <= us -> now <> "" ->
  validate (to_dict (mk_envelope "job.fired" (VInt 1) (py_str_int n) now (VStr agent) (job_event it us r))) = Ok None.
Proof.
  intros Hname Hus Hnow.
  apply (payload_accepted _ (Req "name" FNonEmptyStr :: Req "schedule" FStr :: outcome_duration)); [done| |done|right; by eexists].
  assert (Hms : 0 <= us / 1000) by (apply Z.div_pos; lia).
  repeat constructor; cbn [field_ok].
  - exists (VStr (j_name it)). split; [done|]. by exists (j_name it).
  - exists (VStr (default "" (j_schedule it))). split; [done|]. by eexists.
  - exists (VInt (us / 1000)). split; [done|]. by exists (us / 1000).
  - eexists (VStr _). split; [done|]. eexists. split; [done|].
    destruct r; apply (bool_decide_eq_true_1 _); vm_compute; reflexivity.
  - intros v. destruct r as [|e]; cbn; [done|]. intros [= <-]. by eexists.
Qed.

(** ** Properties *)

Lemma parse_job_path yaml max cv uuid agent path raw it :
  parse_job_file yaml max cv uuid agent path raw = Some it -> j_path it = path.
Proof.
  unfold parse_job_file. destruct raw as [raw|]; [|done]. cbn [mbind option_bind].
  destruct (parse_frontmatter _ _ _) as [[fields content]|]; [|done].
  destruct (parse_frontmatter_raw _ _ _) as [[raw_fields ?]|]; [|done]. cbv zeta.
  case_match; [done|]. by intros [= <-].
Qed.

Lemma idle_quiet (calls : gmap nat call) :
  (forall c k, calls !! c = Some k -> over (c_stage k) = true) -> forall c k, calls !! c = Some k -> quiet queued holds k.
Proof. intros Hc c k Hk. specialize (Hc _ _ Hk). unfold quiet, queued, holds. by destruct (c_stage k). Qed.

Lemma actives_idle calls : (forall c k, calls !! c = Some k -> over (c_stage k) = true) -> actives calls = 0%nat.
Proof. intros Hc. apply map_count_0. intros c k Hk. by apply (idle_quiet _ Hc c k Hk). Qed.

(** In every reachable state of the job runner, whatever the interleaving
    of cron loops, ad-hoc fires, file changes and cancellations: the gauge is
    the number of runs in flight, and with [JOBS_MAX_CONCURRENT] set that
    number never exceeds it; a run waits only if that many are in flight or
    some waiter has its permit already; once everything is over all permits
    are back. Every run that got its permit has sent exactly one message, the
    one built from its job, and no other run has; every run whose message was
    answered, and no other, has announced exactly one event, of its outcome,
    which the event stream accepts if the job's name is not empty. A
    checkpoint file that is neither stale nor one that could not be deleted
    belongs to a run in flight. *)
Theorem runs_accounted cap croniter_next yaml max cron_valid uuid agent files ls w :
  runs (step croniter_next (parse_job_file yaml max cron_valid uuid agent)) (initial_world cap files) ls w ->
  let e := w_exec w in
  (e_gauge e = Z.of_nat (actives (e_calls e)) /\ (0 < cap -> e_gauge e <= cap)) /\
  (forall c o, e_calls e !! c = Some (mk_call o Queued) ->
     e_gauge e = cap \/ exists s k o', e_sem e = Some s /\ (k, true) ∈ sem_waiters s /\
                                       e_calls e !! k = Some (mk_call o' Queued)) /\
  ((forall c k, e_calls e !! c = Some k -> over (c_stage k) = true) ->
     e_gauge e = 0 /\ e_sem e = new_pool cap) /\
  (NoDup (e_sent e).*1 /\ NoDup (e_events e).*1) /\
  (forall c o st, e_calls e !! c = Some (mk_call o st) ->
     (c ∈ (e_sent e).*1 <-> entered st = true) /\ (c ∈ (e_events e).*1 <-> exists r, st = Answered r)) /\
  (forall c m, (c, m) ∈ e_sent e -> exists k j environ,
     e_calls e !! c = Some k /\ e_objs e !! c_obj k = Some j /\ m = fire_message environ (o_item j)) /\
  (forall c p, (c, p) ∈ e_events e -> exists o j r us,
     e_calls e !! c = Some (mk_call o (Answered r)) /\ e_objs e !! o = Some j /\ p = job_event (o_item j) us r /\
     (j_name (o_item j) <> "" -> forall now agent n, now <> "" ->
        validate (to_dict (mk_envelope "job.fired" (VInt 1) (py_str_int n) now (VStr agent) p)) = Ok None)) /\
  (forall f, f ∈ e_files e -> f ∈ e_stale e \/
     exists c k j, e_calls e !! c = Some k /\ active (c_stage k) = true /\ e_objs e !! c_obj k = Some j /\
                   f = checkpoint (o_item j)).
Proof.
  intros Hrun. destruct (runs_inv cap _ _ (parse_job_path _ _ _ _ _) _ _ _ Hrun) as [[[_ _ Hsem Hg] Hsent Hev Hfi _] _].
  cbv zeta. split_and!.
  - done.
  - intros Hcap. rewrite Hg. by eapply pool_bound.
  - intros c o Hc. rewrite Hg.
    destruct (pool_waits _ _ _ _ _ c Hsem) as [?|(s & k & Hs & Hk & ([o' st] & Hk' & Hq))]; [by exists (mk_call o Queued)|by left|right].
    exists s, k, o'. split_and!; [done|done|]. rewrite Hk'. unfold queued in Hq. cbn in Hq. by destruct st.
  - intros Hall. split; [rewrite Hg, actives_idle by done; done|]. eapply pool_idle; [exact Hsem|by apply idle_quiet].
  - apply Hsent.
  - apply Hev.
  - intros c o st Hc. split.
    + rewrite (si_exact _ _ _ Hsent). unfold entered_at. rewrite Hc. split; [by intros (k & [= <-] & ?)|by eexists].
    + split; [|intros [r ->]; by eapply (vi_answered _ _ _ Hev)]. intros Hin.
      apply list_elem_of_fmap in Hin as ([c' p] & Hcc & Hin). cbn in Hcc. subst c'.
      destruct (vi_event _ _ _ Hev _ _ Hin) as (o' & j & r & us & Hc' & _). exists r. congruence.
  - apply Hsent.
  - intros c p Hin. destruct (vi_event _ _ _ Hev _ _ Hin) as (o & j & r & us & Hc & Hj & Hus & ->).
    exists o, j, r, us. split_and!; try done. intros Hname now ag n Hnow. by apply job_event_accepted.
  - exact Hfi.
Qed.

Lemma runs_own cap croniter_next parse o ls w files :
  (forall path raw it, parse path raw = Some it -> j_path it = path) ->
  runs (step croniter_next parse) (initial_world cap files) ls w -> Forall (fun a => a <> AdHoc o) ls -> own_in o w.
Proof.
  intros Hp Hrun Hls.
  apply (runs_invariant_labels _ (fun a => a <> AdHoc o) (fun w => world_inv cap w /\ own_in o w)) in Hrun as [_ H]; try done.
  - intros s a s' Ha Hst. by eapply own_step.
  - split; [apply initial_inv|]. split; cbn; try done.
Qed.

Lemma runs_attached cap croniter_next parse files ls w :
  (forall path raw it, parse path raw = Some it -> j_path it = path) ->
  runs (step croniter_next parse) (initial_world cap files) ls w -> Forall (eq Internal) ls -> attached w.
Proof.
  intros Hp Hrun Hls.
  apply (runs_invariant_labels _ (eq Internal) (fun w => world_inv cap w /\ attached w)) in Hrun as [_ H]; try done.
  - intros s a s' <- Hst [Hw Ha]. split; [by eapply step_inv|].
    exact (attached_step cap _ _ _ Internal _ eq_refl Hst Hw Ha).
  - split; [apply initial_inv|done].
Qed.

(** Two loops of one path that have not ended are the same. *)
Lemma attached_unique w o o' l l' p :
  sched_inv w -> attached w -> w_loops w !! o = Some l -> w_loops w !! o' = Some l' ->
  l_stage l <> LEnded -> l_stage l' <> LEnded -> path_of (w_exec w) o p -> path_of (w_exec w) o' p -> o = o'.
Proof.
  intros Hw Ha Hl Hl' Hs Hs' Hp Hp'.
  assert (Hitem : forall q o1, (q, o1) ∈ w_items w -> path_of (w_exec w) o1 p -> q = p).
  { intros q o1 Hq (j & Hj & <-). destruct (wi_item _ Hw _ _ Hq) as (j' & Hj' & <- & _). congruence. }
  assert (Hjoin : forall q it o1, w_watch w = Joining q it o1 -> path_of (w_exec w) o1 p -> p ∉ od_keys (w_items w)).
  { intros q it o1 Hq (j & Hj & <-). pose proof (wi_join _ Hw) as Hx. rewrite Hq in Hx.
    destruct Hx as (Hn & _ & (j' & Hj' & <-) & _). congruence. }
  assert (Hkey : forall q o1, (q, o1) ∈ w_items w -> q ∈ od_keys (w_items w)).
  { intros q o1 Hq. apply list_elem_of_fmap. by exists (q, o1). }
  destruct (Ha _ _ Hl Hs) as [[q Hq]|(q & it & Hq)], (Ha _ _ Hl' Hs') as [[q' Hq']|(q' & it' & Hq')].
  - assert (q = p) as -> by by eapply Hitem. assert (q' = p) as -> by by eapply Hitem.
    apply od_get_Some in Hq, Hq'; [congruence|apply Hw..].
  - assert (q = p) as -> by by eapply Hitem. destruct (Hjoin _ _ _ Hq' Hp'). by eapply Hkey.
  - assert (q' = p) as -> by by eapply Hitem. destruct (Hjoin _ _ _ Hq Hp). by eapply Hkey.
  - congruence.
Qed.

(** C17: The registry in every reachable state: a path has one entry; an
    enabled entry has a loop that is not cancelled and every such loop belongs
    to an entry; what is cancelled only ends its run. A job that no ad-hoc
    request fires never runs twice at once, and its [running] flag is set
    exactly while a run is in flight. If no file is deleted and nothing is
    fired ad hoc, two runs in flight are never of the same file, however often
    it is edited. *)
Theorem scheduled_runs_exclusive cap croniter_next yaml max cron_valid uuid agent files ls w :
  runs (step croniter_next (parse_job_file yaml max cron_valid uuid agent)) (initial_world cap files) ls w ->
  NoDup (od_keys (w_items w)) /\
  (forall p o, (p, o) ∈ w_items w -> exists j, e_objs (w_exec w) !! o = Some j /\ j_path (o_item j) = p /\
     if j_enabled (o_item j) then exists l, w_loops w !! o = Some l /\ l_cancelled l = false else w_loops w !! o = None) /\
  (forall o l, w_loops w !! o = Some l -> l_cancelled l = false -> exists p, (p, o) ∈ w_items w) /\
  (forall o, Forall (fun a => a <> AdHoc o) ls ->
     (forall c c' st st', e_calls (w_exec w) !! c = Some (mk_call o st) -> e_calls (w_exec w) !! c' = Some (mk_call o st') ->
        over st = false -> over st' = false -> c = c') /\
     (forall j, e_objs (w_exec w) !! o = Some j ->
        o_running j = true <-> exists c st, e_calls (w_exec w) !! c = Some (mk_call o st) /\ active st = true)) /\
  (Forall (eq Internal) ls -> forall c c' k k' p,
     e_calls (w_exec w) !! c = Some k -> e_calls (w_exec w) !! c' = Some k' ->
     over (c_stage k) = false -> over (c_stage k') = false ->
     path_of (w_exec w) (c_obj k) p -> path_of (w_exec w) (c_obj k') p -> c = c').
Proof.
  intros Hrun. pose proof (runs_inv cap _ _ (parse_job_path _ _ _ _ _) _ _ _ Hrun) as [He Hw].
  pose proof (fun o => runs_own _ _ _ o _ _ _ (parse_job_path _ _ _ _ _) Hrun) as Hown.
  split_and!; [apply Hw|apply Hw|apply Hw| |].
  - intros o Hls. destruct (Hown o Hls) as [H1 H2 _]. split.
    + intros c c' st st' Hc Hc' Ho Ho'. destruct (H1 _ _ Hc Ho) as (l & Hl & Hs). destruct (H1 _ _ Hc' Ho') as (l' & Hl' & Hs').
      congruence.
    + intros j Hj. split; [by apply (ei_flags _ _ He)|]. intros (c & st & Hc & Ha). by eapply H2.
  - intros Hls. pose proof (runs_attached _ _ _ _ _ _ (parse_job_path _ _ _ _ _) Hrun Hls) as Ha.
    intros c c' [o st] [o' st'] p Hc Hc' Ho Ho' (j & Hj & Hp) (j' & Hj' & Hp'). cbn in *.
    assert (Hrunning : forall c o st, e_calls (w_exec w) !! c = Some (mk_call o st) -> over st = false ->
              exists l, w_loops w !! o = Some l /\ l_stage l = LRunning c).
    { intros c1 o1 st1 H1 H2. destruct (Hown o1) as [Hx _ _]; [|by eapply Hx].
      eapply Forall_impl; [exact Hls|]. by intros a <-. }
    destruct (Hrunning _ _ _ Hc Ho) as (l & Hl & Hs). destruct (Hrunning _ _ _ Hc' Ho') as (l' & Hl' & Hs').
    assert (o = o') as <-; [|congruence].
    apply (attached_unique w o o' l l' p Hw Ha Hl Hl'); [by rewrite Hs|by rewrite Hs'|by exists j|by exists j'].
Qed.

(** The cron loop: of two ticks that follow each other in a loop, the
    later is a firing time of its schedule, after the earlier tick and after
    the clock as it was read, and no firing time lies between those and it,
    whatever the clock did in between; no tick is scheduled twice. A job that
    no ad-hoc request fires has run at most once per tick. *)
Theorem ticks_forward cap croniter_next fires yaml max cron_valid uuid agent files ls w o l j expr
    (Hcron : cron_correct croniter_next fires)
    (Hrun : runs (step croniter_next (parse_job_file yaml max cron_valid uuid agent)) (initial_world cap files) ls w)
    (Hl : w_loops w !! o = Some l) (Hj : e_objs (w_exec w) !! o = Some j) (Hs : j_schedule (o_item j) = Some expr) :
  StronglySorted (fun a b => b < a) (l_ticks l).*2 /\
  (forall l1 now2 t2 now1 t1 l2, l_ticks l = l1 ++ (now2, t2) :: (now1, t1) :: l2 ->
     t1 < t2 /\ now2 < t2 /\ fires expr t2 /\ forall u, Z.max now2 t1 < u < t2 -> ~ fires expr u) /\
  (Forall (fun a => a <> AdHoc o) ls -> (started o (e_calls (w_exec w)) <= length (l_ticks l))%nat).
Proof.
  pose proof (parse_job_path yaml max cron_valid uuid agent) as Hp.
  assert (Hw : world_inv cap w /\ ticks_inv croniter_next w).
  { apply (runs_invariant _ (fun w => world_inv cap w /\ ticks_inv croniter_next w)) in Hrun; [done| |].
    - intros s a s' Hst [Hw Ht]. split; [by eapply step_inv|by eapply ticks_step].
    - split; [apply initial_inv|]. by intros o' l' j'. }
  destruct Hw as [_ Ht]. destruct (Ht _ _ _ Hl Hj) as [_ Hticks]. rewrite Hs in Hticks. split_and!.
  - by eapply ticks_from_sorted.
  - intros l1 now2 t2 now1 t1 l2 Heq. by eapply ticks_from_pair.
  - intros Hls. destruct (runs_own _ _ _ o _ _ _ Hp Hrun Hls) as [_ _ Hb]. rewrite Hl in Hb.
    specialize (Hb _ Hj). unfold allowed in Hb. rewrite Hs in Hb. lia.
Qed.

(** ** Witnesses *)

Definition minute : Z := 60000000.
Definition every_minute (expr : string) (t : Z) : option Z := Some ((t / minute + 1) * minute).
Definition on_the_minute (expr : string) (t : Z) : Prop := t mod minute = 0.

Lemma every_minute_correct : cron_correct every_minute on_the_minute.
Proof.
  intros expr t n [= <-]. pose proof (Z.mod_pos_bound t minute ltac:(done)) as Hb.
  pose proof (Z.div_mod t minute ltac:(done)) as Hd. unfold on_the_minute. split_and!.
  - lia.
  - apply Z.mod_mul. done.
  - intros u Hu Hm. pose proof (Z.div_mod u minute ltac:(done)) as Hdu. rewrite Hm in Hdu.
    assert (t / minute < u / minute < t / minute + 1) by nia. lia.
Qed.

Definition example_yaml (text : string) : res pyval := Ok (VDict [(VStr "schedule", VStr "* * * * *")]).
Definition example_file : string := "---" +:+ String nl ("x" +:+ String nl ("---" +:+ String nl "Tidy up.")).
Definition example_parse : string -> option string -> option job :=
  parse_job_file example_yaml 100 (fun _ => true) (fun s => "uuid5:" +:+ s) "ada".
Definition example_step : world -> label -> world -> Prop := step every_minute example_parse.
Definition no_env (v : string) : option string := None.

Definition tidy : job :=
  mk_job "/j/tidy.md" "tidy" (Some "* * * * *") "uuid5:ada.tidy" "Tidy up." None None [] None true.

(** Registered, armed at second 1, fired, answered, armed again after the
    clock went back to second 0. *)
Definition job1 : live_job := mk_live tidy false None None None.
Definition loop1 : loop := new_loop.
Definition world1 : world := add_item (pop_item (initial_world 1 ∅) "/j/tidy.md" Idle) "/j/tidy.md" tidy.
Definition world2 : world := advance every_minute world1 0 job1 loop1 "* * * * *" 1000000.
Definition job2 : live_job := set_next_fire (Some minute) job1.
Definition loop2 : loop := schedule_next every_minute "* * * * *" 1000000 loop1.
Definition world3 : world := fire no_env 60000001 true world2 0 job2 loop2.
Definition job3 : live_job := mk_live tidy true (Some minute) (Some 60000001) None.
Definition loop3 : loop := set_stage loop2 (LRunning 0).
Definition world4 : world := set_exec world3 (finish 61000000 999999 true (w_exec world3) 0 0 job3 (Answered Succeeded)).
Definition job4 : live_job := mk_live tidy false (Some minute) (Some 60000001) (Some 61000000).
Definition world5 : world := advance every_minute world4 0 job4 loop3 "* * * * *" 0.
(** An ad-hoc request then fires it twice; the second run waits. *)
Definition job5 : live_job := set_next_fire (Some (2 * minute)) job4.
Definition world6 : world := set_exec world5 (begin_call no_env 62000000 true (w_exec world5) 0 job5).
Definition job6 : live_job := mk_live tidy true (Some (2 * minute)) (Some 62000000) (Some 61000000).
Definition world7 : world := set_exec world6 (begin_call no_env 63000000 true (w_exec world6) 0 job6).

Lemma example_job_run : runs example_step (initial_world 1 ∅) [Internal; Internal; Internal; Internal; Internal] world5.
Proof.
  eapply runs_cons; [eapply (st_register _ _ _ "/j/tidy.md" (Some example_file) tidy); vm_compute; reflexivity|].
  eapply runs_cons; [eapply (st_start _ _ world1 0 loop1 job1 "* * * * *" 1000000); vm_compute; reflexivity|].
  eapply runs_cons; [eapply (st_wake _ _ world2 0 loop2 job2 minute no_env 60000001 true); vm_compute; reflexivity|].
  eapply runs_cons; [eapply st_exec, (es_answer (w_exec world3) 0 0 job3 Succeeded 61000000 999999 true);
    [vm_compute; reflexivity|vm_compute; reflexivity|done]|].
  eapply runs_cons; [eapply (st_again _ _ world4 0 loop3 job4 0 Succeeded "* * * * *" 0); vm_compute; reflexivity|].
  apply runs_nil.
Qed.

Lemma example_adhoc_run :
  runs example_step (initial_world 1 ∅) [Internal; Internal; Internal; Internal; Internal; AdHoc 0; AdHoc 0] world7.
Proof.
  change [Internal; Internal; Internal; Internal; Internal; AdHoc 0; AdHoc 0]
    with ([Internal; Internal; Internal; Internal; Internal] ++ [AdHoc 0; AdHoc 0]).
  eapply runs_app; [exact example_job_run|].
  eapply runs_cons; [eapply (st_adhoc _ _ world5 0 job5 no_env 62000000 true); vm_compute; reflexivity|].
  eapply runs_cons; [eapply (st_adhoc _ _ world6 0 job6 no_env 63000000 true); vm_compute; reflexivity|].
  apply runs_nil.
Qed.

Lemma runs_accounted_witness :
  e_gauge (w_exec world7) = 1 /\
  e_calls (w_exec world7) !! 2%nat = Some (mk_call 0 Queued) /\
  ((1%nat ∈ (e_sent (w_exec world7)).*1) /\ 2%nat ∉ (e_sent (w_exec world7)).*1) /\
  e_events (w_exec world7) = [(0%nat, job_event tidy 999999 Succeeded)].
Proof.
  destruct (runs_accounted 1 _ _ _ _ _ _ _ _ _ example_adhoc_run) as (_ & _ & _ & _ & Hc & _).
  split_and!; [vm_compute; reflexivity|vm_compute; reflexivity| | |vm_compute; reflexivity].
  - apply (Hc 1%nat 0%nat Sending); vm_compute; reflexivity.
  - intros Hin. apply (Hc 2%nat 0%nat Queued) in Hin; [discriminate Hin|vm_compute; reflexivity].
Defined.

Lemma scheduled_runs_exclusive_witness :
  w_items world3 = [("/j/tidy.md", 0%nat)] /\ o_running job3 = true /\
  exists c st, e_calls (w_exec world3) !! c = Some (mk_call 0 st) /\ active st = true.
Proof.
  assert (Hrun : runs example_step (initial_world 1 ∅) [Internal; Internal; Internal] world3).
  { eapply runs_cons; [eapply (st_register _ _ _ "/j/tidy.md" (Some example_file) tidy); vm_compute; reflexivity|].
    eapply runs_cons; [eapply (st_start _ _ world1 0 loop1 job1 "* * * * *" 1000000); vm_compute; reflexivity|].
    eapply runs_cons; [eapply (st_wake _ _ world2 0 loop2 job2 minute no_env 60000001 true); vm_compute; reflexivity|].
    apply runs_nil. }
  destruct (scheduled_runs_exclusive _ _ _ _ _ _ _ _ _ _ Hrun) as (_ & _ & _ & Hown & _).
  split_and!; [vm_compute; reflexivity|reflexivity|].
  destruct (Hown 0%nat) as [_ Hf]; [repeat constructor; discriminate|].
  apply (Hf job3); vm_compute; reflexivity.
Defined.

Lemma ticks_forward_witness :
  (l_ticks <$> w_loops world5 !! 0%nat) = Some [(0, 2 * minute); (1000000, minute)] /\
  minute < 2 * minute /\ on_the_minute "* * * * *" (2 * minute).
Proof.
  destruct (w_loops world5 !! 0%nat) as [l|] eqn:El; [|vm_compute in El; discriminate].
  destruct (ticks_forward 1 _ _ _ _ _ _ _ _ _ _ 0 l job5 "* * * * *" every_minute_correct example_job_run El
    ltac:(vm_compute; reflexivity) eq_refl) as (_ & H & _).
  assert (Ht : l_ticks l = [(0, 2 * minute); (1000000, minute)])
    by (vm_compute in El; injection El as <-; vm_compute; reflexivity).
  destruct (H [] 0 (2 * minute) 1000000 minute [] Ht) as (? & _ & ? & _).
  split_and!; [cbn; by rewrite Ht|done|done].
Defined.

(** The flag of a job that two ad-hoc requests fired goes down with the first
    run that ends, while the other is in flight: here without a cap. *)
Example flag_down_during_run :
  let e := begin_call no_env 2 true (begin_call no_env 1 true (w_exec (add_item (initial_world 0 ∅) "/j/tidy.md" tidy)) 0 job1) 0 job1 in
  let e' := finish 3 0 true e 0 0 job1 (Answered Succeeded) in
  o_running <$> e_objs e' !! 0%nat = Some false /\ e_gauge e' = 1 /\ e_files e' = ∅.
Proof. vm_compute. auto. Qed.
