(* ===== verification/AdHoc.v ===== *)
(** * Ad-hoc runs and the heartbeat file (harness/main.py, harness/heartbeat.py)

    The endpoints that fire a job, a task or the heartbeat on request: the
    ladder of checks they share, the capped read of the body that is thrown
    away, and what each dispatches to: a tracked background task
    ([Background]) for jobs and tasks, the dedup slot of the bus ([Bus]) for
    the heartbeat.  Requests and outcomes are those of [Http]. *)
From Stdlib Require Import Ascii.
From S2P Require Import Prelude PyStr PyVal Http Utils PromptEnv AsyncQueue Background Bus Jobs Triggers.

(** ** The checks *)

Definition ADHOC_CSRF_HEADER : string := "x-ad-hoc-run".
Definition ADHOC_CSRF_VALUE : string := "1".
Definition MAX_ADHOC_BODY_BYTES : Z := 65536.

Definition check_adhoc_csrf (rq : Http.request) : bool :=
  bool_decide (header rq ADHOC_CSRF_HEADER = ADHOC_CSRF_VALUE).

(** The legacy token is compared for a log line only, but the comparison may
    raise. *)
Definition check_adhoc_auth (environ : string -> option string) (rq : Http.request) : res bool :=
  let auth_token := default "" (environ "ADHOC_RUN_AUTH_TOKEN") in
  let hdr := header rq "authorization" in
  if decide (auth_token = "") then
    let legacy := default "" (environ "TRIGGERS_AUTH_TOKEN") in
    if decide (legacy <> "" /\ hdr <> "") then _ <-- compare_digest ("Bearer " +:+ legacy) hdr ;; Ok false
    else Ok false
  else compare_digest ("Bearer " +:+ auth_token) hdr.

(** [Ok false]: the declared or the streamed length passes the cap. *)
Fixpoint drain_stream (total : Z) (chunks : list string) (ends : stream_end) : res bool :=
  match chunks with
  | [] => match ends with
          | StreamDone => Ok true
          | StreamCancelled => Raise CancelledError
          | StreamFails => Raise OtherError
          end
  | c :: cs =>
      let total := total + str_len c in
      if MAX_ADHOC_BODY_BYTES <? total then Ok false else drain_stream total cs ends
  end.

Definition drain_adhoc_body (rq : Http.request) : res bool :=
  if MAX_ADHOC_BODY_BYTES <? declared_length rq then Ok false else drain_stream 0 (rq_chunks rq) (rq_end rq).

(** What the three handlers do first: the answer, or [None] to go on. *)
Definition adhoc_ladder (environ : string -> option string) (ready : bool) (rq : Http.request) : option outcome :=
  match check_adhoc_auth environ rq with
  | Raise e => Some (Escapes e)
  | Ok false => Some (Status 401)
  | Ok true =>
      if negb (check_adhoc_csrf rq) then Some (Status 403)
      else if negb ready then Some (Status 503)
      else match drain_adhoc_body rq with
           | Raise e => Some (Escapes e)
           | Ok false => Some (Status 413)
           | Ok true => None
           end
  end.

(** ** Jobs and tasks *)

Section Dispatch.
Context {I : Type}.
(** The first item of the name; its [running] flag. *)
Variable find_item : string -> option I.
Variable running : I -> bool.
(** ["adhoc-job-fire"] or ["adhoc-task-fire"] *)
Variable source : string.

Variable environ : string -> option string.
Variable tasks_max window now : Z.

(** The answer, the item whose run is scheduled, the tracked tasks. What
    [track_background] returns is not looked at. *)
Definition run_handler (ready : bool) (b : background) (name : string) (rq : Http.request)
  : outcome * option I * background :=
  match adhoc_ladder environ ready rq with
  | Some o => (o, None, b)
  | None =>
      match find_item name with
      | None => (Status 404, None, b)
      | Some it =>
          if running it then (Status 409, None, b)
          else
            let '(r, b, _) := track_background environ tasks_max window now b source None None None in
            match r with
            | Raise _ => (Status 500, None, b)
            | Ok scheduled => (Status 202, (fun _ => it) <$> scheduled, b)
            end
      end
  end.
End Dispatch.

(** [_find_job_item]: the first registered job of the name. *)
Definition find_job_item (w : Jobs.world) (name : string) : option (nat * live_job) :=
  List.find (fun oj => bool_decide (j_name (o_item oj.2) = name))
    (omap (fun o => (fun j => (o, j)) <$> e_objs (w_exec w) !! o) (od_values (w_items w))).

Definition jobs_run_handler (environ : string -> option string) (tasks_max window now : Z) (ready : bool) (w : Jobs.world)
    (b : background) (name : string) (rq : Http.request) : outcome * option (nat * live_job) * background :=
  run_handler (find_job_item w) (fun oj => o_running oj.2) "adhoc-job-fire" environ tasks_max window now ready b name rq.

(** ** The heartbeat *)

Definition DEFAULT_SCHEDULE : string := "*/30 * * * *".

Record heartbeat : Type := mk_heartbeat {
  h_schedule : string;
  h_content : string;
  h_model : option string;
  h_backend_id : option string;
  h_consensus : list consensus_entry;
  h_max_tokens : option Z
}.

Section Heartbeat.
Variable yaml_safe_load : string -> res pyval.
Variable max_yaml_bytes : Z.
Variable cron_valid : string -> bool.

(** [raw = None]: there is no file. *)
Definition load_heartbeat (raw : option string) : res (option heartbeat) :=
  match raw with
  | None => Ok None
  | Some raw =>
      fc <-- parse_frontmatter yaml_safe_load max_yaml_bytes raw ;;
      rc <-- parse_frontmatter_raw yaml_safe_load max_yaml_bytes raw ;;
      let '(fields, content) := fc in
      let schedule := default DEFAULT_SCHEDULE (get_field fields "schedule") in
      if negb (text_flag ["false"; "no"; "off"; "n"; "0"; ""] true fields "enabled") then Ok None
      else if decide (content = "") then Ok None
      else Ok (Some {|
        h_schedule := if cron_valid schedule then schedule else DEFAULT_SCHEDULE;
        h_content := content;
        h_model := get_nonempty fields "model";
        h_backend_id := get_nonempty fields "agent";
        h_consensus := parse_consensus (dict_get_none rc.1 "consensus");
        h_max_tokens := positive_field (field_or fields "max-tokens" "max_tokens") None
      |})
  end.

Definition heartbeat_prompt (environ : string -> option string) (content : string) : string :=
  prompt_text environ ("Heartbeat check. Follow these instructions:" +:+ String nl (String nl content)).

(** [id] is the new message; the answer, its prompt if it was put on the bus,
    and the bus. *)
Definition heartbeat_run_handler (environ : string -> option string) (ready : bool) (raw : option string) (b : bus) (id : nat)
    (rq : Http.request) : outcome * option string * bus :=
  match adhoc_ladder environ ready rq with
  | Some o => (o, None, b)
  | None =>
      match load_heartbeat raw with
      | Raise _ | Ok None => (Status 404, None, b)
      | Ok (Some h) =>
          let '(sent, b) := try_send b (mk_message id "heartbeat") in
          if sent then (Status 202, Some (heartbeat_prompt environ (h_content h)), b) else (Status 409, None, b)
      end
  end.
End Heartbeat.

(** ** Properties *)

(** The request carries the dedicated bearer token. *)
Definition holds_token (environ : string -> option string) (rq : Http.request) : Prop :=
  exists token, environ "ADHOC_RUN_AUTH_TOKEN" = Some token /\ token <> "" /\ is_ascii token = true /\
    header rq "authorization" = "Bearer " +:+ token.

(** The body arrives in full and within the cap, and was declared so. *)
Definition body_fits (rq : Http.request) : Prop :=
  declared_length rq <= MAX_ADHOC_BODY_BYTES /\ rq_end rq = StreamDone /\
  str_len (str_join "" (rq_chunks rq)) <= MAX_ADHOC_BODY_BYTES.

Definition admitted (environ : string -> option string) (ready : bool) (rq : Http.request) : Prop :=
  holds_token environ rq /\ header rq ADHOC_CSRF_HEADER = ADHOC_CSRF_VALUE /\ ready = true /\ body_fits rq.

Lemma check_adhoc_auth_true environ rq : check_adhoc_auth environ rq = Ok true <-> holds_token environ rq.
Proof.
  unfold check_adhoc_auth, holds_token. case_decide as Hn.
  - split.
    + case_decide; [|done]. intros (? & _ & ?)%res_bind_Ok. done.
    + intros (token & Ht & ? & _). rewrite Ht in Hn. done.
  - rewrite compare_true. unfold is_ascii. rewrite str_all_app.
    change (str_all (fun c => (Z.of_N (Ascii.N_of_ascii c)) <? 128) "Bearer ") with true. cbn [andb].
    destruct (environ "ADHOC_RUN_AUTH_TOKEN") as [token|]; [|done]. change (default "" (Some token)) with token in *.
    split; [intros [? ?]; by exists token|]. intros (t & [= <-] & _ & ? & ?). done.
Qed.

Lemma drain_stream_true total chunks ends :
  0 <= total -> (chunks = [] -> total <= MAX_ADHOC_BODY_BYTES) ->
  drain_stream total chunks ends = Ok true <->
  ends = StreamDone /\ total + str_len (str_join "" chunks) <= MAX_ADHOC_BODY_BYTES.
Proof.
  revert total. induction chunks as [|c cs IH]; intros total Ht Hnil; cbn [drain_stream].
  - change (str_len (str_join "" [])) with 0. specialize (Hnil eq_refl).
    destruct ends; split; try done; [intros _; split; [done|lia]|by intros [? _]..].
  - rewrite str_join_nil_cons, str_len_app.
    assert (Hc : 0 <= str_len c) by (unfold str_len; lia).
    assert (Hcs : 0 <= str_len (str_join "" cs)) by (unfold str_len; lia).
    destruct (Z.ltb_spec MAX_ADHOC_BODY_BYTES (total + str_len c)) as [E|E].
    + split; [done|]. lia.
    + rewrite IH by lia. split; intros [? ?]; (split; [done|lia]).
Qed.

Lemma drain_body_true rq : drain_adhoc_body rq = Ok true <-> body_fits rq.
Proof.
  unfold drain_adhoc_body, body_fits. destruct (Z.ltb_spec MAX_ADHOC_BODY_BYTES (declared_length rq)) as [E|E].
  - split; [done|]. lia.
  - rewrite drain_stream_true by (intros; unfold MAX_ADHOC_BODY_BYTES; lia). rewrite Z.add_0_l. tauto.
Qed.

Lemma ladder_None environ ready rq : adhoc_ladder environ ready rq = None <-> admitted environ ready rq.
Proof.
  unfold adhoc_ladder, admitted. rewrite <-check_adhoc_auth_true, <-drain_body_true. unfold check_adhoc_csrf.
  destruct (check_adhoc_auth environ rq) as [[]|]; [|split; [done|by intros ([=] & _)]..].
  case_bool_decide as Hc; cbn [negb]; [|split; [done|by intros (_ & ? & _)]].
  destruct ready; cbn [negb]; [|split; [done|by intros (_ & _ & [=] & _)]].
  destruct (drain_adhoc_body rq) as [[]|]; [done|split; [done|by intros (_ & _ & _ & [=])]..].
Qed.

(** Whatever the ladder answers, it is not an acceptance. *)
Lemma ladder_refuses environ ready rq o :
  adhoc_ladder environ ready rq = Some o -> o <> Status 202 /\ o <> Status 404 /\ o <> Status 409 /\ o <> Status 500.
Proof.
  unfold adhoc_ladder. destruct (check_adhoc_auth environ rq) as [[]|]; [|by intros [= <-]..].
  destruct (negb _); [by intros [= <-]|]. destruct (negb _); [by intros [= <-]|].
  destruct (drain_adhoc_body rq) as [[]|]; [done|by intros [= <-]..].
Qed.

Section Run.
Context {I : Type} (find_item : string -> option I) (running : I -> bool) (source : string).
Context (environ : string -> option string) (tasks_max window now : Z).

(** An ad-hoc run of a job or a task is answered 202 exactly when the
    request carries the dedicated token and the anti-CSRF header, the backends
    are ready, the body arrived within its cap, and the first item of that
    name exists and does not show its running flag. A run is scheduled for no
    other request; for such a request it is scheduled exactly when the
    background tasks are below the cap of its source, so that a request which
    is answered 202 over the cap runs nothing. 404, 409 and 500 are answered
    to admitted requests only, for the reason they name, and a request that
    schedules no run leaves the tracked tasks alone. *)
Theorem adhoc_run_exact ready b name rq :
  let '(o, fired, b') := run_handler find_item running source environ tasks_max window now ready b name rq in
  let ok := admitted environ ready rq in
  let free it := find_item name = Some it /\ running it = false in
  (o = Status 202 <-> ok /\ (exists it, free it) /\ is_Some (effective_cap environ tasks_max source)) /\
  (forall it, fired = Some it <->
     ok /\ free it /\ exists cap, effective_cap environ tasks_max source = Some cap /\ Z.of_nat (size (bg_tasks b)) < cap) /\
  (o = Status 404 <-> ok /\ find_item name = None) /\
  (o = Status 409 <-> ok /\ exists it, find_item name = Some it /\ running it = true) /\
  (o = Status 500 <-> ok /\ (exists it, free it) /\ effective_cap environ tasks_max source = None) /\
  (fired = None -> bg_tasks b' = bg_tasks b).
Proof.
  unfold run_handler. destruct (adhoc_ladder environ ready rq) as [o|] eqn:El.
  { destruct (ladder_refuses _ _ _ _ El) as (H1 & H2 & H3 & H4).
    assert (Hno : ~ admitted environ ready rq) by (rewrite <-ladder_None, El; done). cbv zeta. split_and!; try tauto.
    intros it. split; [done|tauto]. }
  apply ladder_None in El. destruct (find_item name) as [it|] eqn:Ef; cbv zeta.
  - destruct (running it) eqn:Er.
    + split_and!; try done; try naive_solver congruence.
    + pose proof (track_cases environ tasks_max window now b source None None None) as Hc.
      destruct (track_background _ _ _ _ _ _ _ _ _) as [[r b'] ws]. cbv zeta in Hc.
      destruct (effective_cap environ tasks_max source) as [cap|] eqn:Ec.
      * assert (Hs : is_Some (Some cap)) by by eexists. destruct (Z.leb_spec cap (Z.of_nat (size (bg_tasks b)))) as [Hle|Hlt].
        -- destruct Hc as (-> & E1 & _). cbn. split_and!; try done; try naive_solver congruence.
           intros it'. split; [done|]. intros (_ & _ & cap' & [= <-] & ?). lia.
        -- destruct Hc as (-> & _). cbn. split_and!; try done; try naive_solver congruence.
      * destruct Hc as (-> & -> & _). split_and!; try done; naive_solver congruence.
  - split_and!; try done; naive_solver congruence.
Qed.
End Run.

(** A job that an ad-hoc request fires is a registered one, and firing it is a
    step of the job runner. *)
Lemma adhoc_job_step croniter_next parse environ tasks_max window now ready w b name rq o j o' b' write_ok :
  jobs_run_handler environ tasks_max window now ready w b name rq = (o, Some (o', j), b') ->
  (exists p, (p, o') ∈ w_items w) /\ e_objs (w_exec w) !! o' = Some j /\ j_name (o_item j) = name /\
  Jobs.step croniter_next parse w (AdHoc o') (set_exec w (begin_call environ now write_ok (w_exec w) o' j)).
Proof.
  intros Hh. pose proof (adhoc_run_exact (find_job_item w) (fun oj => o_running oj.2) "adhoc-job-fire" environ tasks_max
    window now ready b name rq) as Hx. unfold jobs_run_handler in Hh. rewrite Hh in Hx. destruct Hx as (_ & Hf & _).
  destruct (Hf (o', j)) as [Hf' _]. destruct (Hf' eq_refl) as (_ & [Hfind _] & _).
  apply find_some in Hfind as [Hin Hname]. apply list_elem_of_In, list_elem_of_omap in Hin as (o1 & Hin & Ho1).
  destruct (e_objs (w_exec w) !! o1) as [j1|] eqn:Ej; [|done]. cbn in Ho1. injection Ho1 as -> ->.
  apply bool_decide_eq_true in Hname. split_and!; [|done|done|by constructor].
  unfold od_values in Hin. apply list_elem_of_fmap in Hin as ([p o2] & Heq & Hin). cbn in Heq. subst. by exists p.
Qed.

(** ** The heartbeat file and its endpoint *)

Section Loading.
Context (yaml : string -> res pyval) (max : Z) (cron_valid : string -> bool).

Lemma load_heartbeat_spec raw h :
  load_heartbeat yaml max cron_valid (Some raw) = Ok (Some h) ->
  h_content h <> "" /\ (cron_valid (h_schedule h) = true \/ h_schedule h = DEFAULT_SCHEDULE) /\
  (forall n, h_max_tokens h = Some n -> 1 <= n).
Proof.
  unfold load_heartbeat. destruct (parse_frontmatter yaml max raw) as [[fields content]|]; [|done]. cbn [res_bind].
  destruct (parse_frontmatter_raw yaml max raw) as [[raw_fields ?]|]; [|done]. cbn [res_bind].
  destruct (negb _); [done|]. case_decide as Hc; [done|]. intros [= <-]. cbn. split_and!; [done| |].
  - match goal with |- context [if cron_valid ?s then _ else _] => destruct (cron_valid s) eqn:E end; [by left|by right].
  - intros n. unfold positive_field. destruct (field_or _ _ _) as [txt|]; [|done]. destruct (py_int txt); [|done].
    intros [= <-]. lia.
Qed.

(** The ad-hoc heartbeat: accepted exactly for an admitted request, with a
    heartbeat configured, while none is pending and the bus has room; then,
    and only then, the bus gains one message, and the kind stays pending
    until that message is done. *)
Theorem heartbeat_run_exact environ ready raw b id rq :
  let '(o, sent, b') := heartbeat_run_handler yaml max cron_valid environ ready raw b id rq in
  let free := ~ ("heartbeat" ∈ pending_kinds b) /\ q_full (bus_queue b) = false in
  (o = Status 202 <->
     admitted environ ready rq /\ (exists h, load_heartbeat yaml max cron_valid raw = Ok (Some h)) /\ free) /\
  (if decide (o = Status 202)
   then (exists h, load_heartbeat yaml max cron_valid raw = Ok (Some h) /\
                   sent = Some (heartbeat_prompt environ (h_content h))) /\
        q_items (bus_queue b') = q_items (bus_queue b) ++ [mk_message id "heartbeat"] /\
        pending_kinds b' = pending_kinds b ∪ {["heartbeat"]}
   else sent = None /\ bus_queue b' = bus_queue b /\ pending_kinds b' = pending_kinds b).
Proof.
  unfold heartbeat_run_handler. destruct (adhoc_ladder environ ready rq) as [o|] eqn:El.
  { destruct (ladder_refuses _ _ _ _ El) as (H1 & _).
    assert (Hno : ~ admitted environ ready rq) by (rewrite <-ladder_None, El; done). cbv zeta.
    split; [tauto|]. by case_decide. }
  apply ladder_None in El. destruct (load_heartbeat yaml max cron_valid raw) as [[h|]|e].
  - pose proof (try_send_cases b (mk_message id "heartbeat")) as Ht.
    destruct (try_send b (mk_message id "heartbeat")) as [sent b']. cbn [fst snd kind] in Ht. cbv zeta.
    destruct Ht as [(-> & Hk & Hq & Hi & Hp)|(-> & Hn & Hq & Hp)].
    + split; [|rewrite decide_True by done; split_and!; [by eexists|done..]].
      split; [|done]. intros _. split_and!; try done. by exists h.
    + split; [|by rewrite decide_False]. split; [done|]. intros (_ & _ & ? & ?). destruct Hn; congruence.
  - cbv zeta. split; [|by rewrite decide_False]. split; [done|]. by intros (_ & [? ?] & _).
  - cbv zeta. split; [|by rewrite decide_False]. split; [done|]. by intros (_ & [? ?] & _).
Qed.
End Loading.

(** ** Witnesses *)

Definition adhoc_env (v : string) : option string := if decide (v = "ADHOC_RUN_AUTH_TOKEN") then Some "t0k" else None.

Definition adhoc_request (csrf : string) : Http.request :=
  Http.mk_request "POST" "/jobs/tidy/run" [("authorization", "Bearer t0k"); ("x-ad-hoc-run", csrf)] [] StreamDone.

Definition ask (tasks_max : Z) (csrf : string) : outcome * option (nat * live_job) * background :=
  jobs_run_handler adhoc_env tasks_max 10 0 true world5 new_background "tidy" (adhoc_request csrf).

Lemma adhoc_admitted : admitted adhoc_env true (adhoc_request "1").
Proof.
  split_and!; [|done|done|split_and!; vm_compute; congruence].
  exists "t0k". split_and!; done.
Qed.

(** With room a run starts; without room the answer is the same, and nothing
    runs. *)
Lemma adhoc_run_exact_witness :
  (ask 5 "1").1.1 = Status 202 /\ (ask 5 "1").1.2 = Some (0%nat, job5) /\
  (ask 0 "1").1.1 = Status 202 /\ (ask 0 "1").1.2 = None /\ (ask 5 "0").1.1 = Status 403.
Proof.
  pose proof (adhoc_run_exact (find_job_item world5) (fun oj => o_running oj.2) "adhoc-job-fire" adhoc_env 5 10 0 true
    new_background "tidy" (adhoc_request "1")) as H1.
  pose proof (adhoc_run_exact (find_job_item world5) (fun oj => o_running oj.2) "adhoc-job-fire" adhoc_env 0 10 0 true
    new_background "tidy" (adhoc_request "1")) as H0.
  assert (Hfind : find_job_item world5 "tidy" = Some (0%nat, job5)) by (vm_compute; reflexivity).
  unfold ask, jobs_run_handler. split_and!.
  - destruct (run_handler _ _ _ _ _ _ _ _ _ _ _) as [[o f] b']. destruct H1 as (H & _). apply H.
    split_and!; [exact adhoc_admitted| |vm_compute; by eexists]. exists (0%nat, job5). by split.
  - destruct (run_handler _ _ _ _ _ _ _ _ _ _ _) as [[o f] b']. destruct H1 as (_ & H & _). apply H.
    split_and!; [exact adhoc_admitted|done|done|]. exists 5. split; [vm_compute; reflexivity|vm_compute; reflexivity].
  - clear H1. destruct (run_handler _ _ _ _ _ _ _ _ _ _ _) as [[o f] b']. destruct H0 as (H & _). apply H.
    split_and!; [exact adhoc_admitted| |vm_compute; by eexists]. exists (0%nat, job5). by split.
  - vm_compute. reflexivity.
  - vm_compute. reflexivity.
Defined.
