(* ===== verification/Heartbeat.v ===== *)
(** * The heartbeat loop and its runner (harness/heartbeat.py)

    [heartbeat_runner] watches HEARTBEAT.md and keeps one [_run_loop] going:
    an edit stops the loop, waits for it, and starts the next with the new
    file.  The loops put a message on the bus ([Bus]) at each tick and wait
    for its result or for the stop event.  The runner's supervisor may start it
    again after a crash.  [step] interleaves runner, loops, the rest of the bus
    and the clock at the suspension points; the file is read as an argument of
    the steps that read it. *)
From Stdlib Require Import Sorted.
From S2P Require Import Prelude PyStr PyVal Broadcast EventSchema EventStream AsyncQueue Bus AdHoc.

(** ** Loops *)

(** How a loop is over: it returned, it raised, or it was cancelled. *)
Inductive ending : Type := Returned | Crashed | Cancelled.

(** Where a loop is: created; waiting for the backends; for its tick; for the
    result of its message. *)
Inductive stage : Type :=
| Fresh
| AwaitingBackends
| Sleeping (tick : Z)
| AwaitingResult (m : message)
| Over (e : ending).

(** [l_gen]: which start of the runner made the loop, hence whose stop event
    it watches; [l_stop]: its [stop_waiter] is done. Ghost: the ticks, latest
    first. *)
Record loop : Type := mk_loop {
  l_stage : stage;
  l_gen : nat;
  l_stop : bool;
  l_last : option Z;
  l_conf : heartbeat;
  l_ticks : list Z
}.

Definition is_live (l : loop) : bool := match l_stage l with Over _ => false | _ => true end.

Definition set_stage (l : loop) (s : stage) : loop := mk_loop s (l_gen l) (l_stop l) (l_last l) (l_conf l) (l_ticks l).
Definition set_stop (l : loop) (b : bool) : loop := mk_loop (l_stage l) (l_gen l) b (l_last l) (l_conf l) (l_ticks l).
Definition set_conf (l : loop) (h : heartbeat) : loop :=
  mk_loop (l_stage l) (l_gen l) (l_stop l) (l_last l)
    (AdHoc.mk_heartbeat (h_schedule (l_conf l)) (h_content h) (h_model h) (h_backend_id h) (h_consensus h) (h_max_tokens h))
    (l_ticks l).

Definition anchor (l : loop) (now : Z) : Z := match l_last l with None => now | Some last => Z.max now last end.

Definition set_tick (l : loop) (tick : Z) : loop :=
  mk_loop (Sleeping tick) (l_gen l) (l_stop l) (Some tick) (l_conf l) (tick :: l_ticks l).

(** The payload of [heartbeat.fired], [us] the measured duration. *)
Definition fired_payload (schedule : string) (us : Z) (error : option string) : pydict :=
  mk_dict ([("duration_ms", VInt (us / 1000));
            ("outcome", VStr (match error with None => "success" | Some _ => "error" end))]
           ++ match error with None => [] | Some e => [("error", VStr (str_take (Z.to_nat 512) e))] end
           ++ (if decide (schedule = "") then [] else [("schedule", VStr schedule)])).

(** ** The runner *)

(** Watching the directory; joining a loop it has stopped; not running. *)
Inductive runner_stage : Type := Watching | Joining (i : nat) | Down.

(** [w_stops]: the starts of the runner whose stop event is set; [w_task]:
    [loop_task]. Ghost: the messages fired with the prompt and the loop, the
    events published, and the messages whose result no loop waits for. *)
Record world : Type := mk_world {
  w_sys : system;
  w_ready : bool;
  w_runner : runner_stage;
  w_gen : nat;
  w_stops : gset nat;
  w_task : option nat;
  w_loops : gmap nat loop;
  w_next_fire : option Z;
  w_last_fire : option Z;
  w_last_success : option Z;
  w_skips : Z;
  w_load_errors : Z;
  w_fired : list (nat * message * string);
  w_events : list (message * pydict);
  w_abandoned : list message
}.

Definition initial_world (depth : Z) (ready : bool) : world :=
  mk_world (initial depth) ready Down 0 ∅ None ∅ None None None 0 0 [] [] [].

Definition set_sys (w : world) (s : system) : world :=
  mk_world s (w_ready w) (w_runner w) (w_gen w) (w_stops w) (w_task w) (w_loops w) (w_next_fire w) (w_last_fire w)
    (w_last_success w) (w_skips w) (w_load_errors w) (w_fired w) (w_events w) (w_abandoned w).

Definition set_loops (w : world) (ls : gmap nat loop) : world :=
  mk_world (w_sys w) (w_ready w) (w_runner w) (w_gen w) (w_stops w) (w_task w) ls (w_next_fire w) (w_last_fire w)
    (w_last_success w) (w_skips w) (w_load_errors w) (w_fired w) (w_events w) (w_abandoned w).

Definition set_loop (w : world) (i : nat) (l : loop) : world := set_loops w (<[i := l]> (w_loops w)).

Definition set_runner (w : world) (r : runner_stage) (gen : nat) (stops : gset nat) (task : option nat) : world :=
  mk_world (w_sys w) (w_ready w) r gen stops task (w_loops w) (w_next_fire w) (w_last_fire w)
    (w_last_success w) (w_skips w) (w_load_errors w) (w_fired w) (w_events w) (w_abandoned w).

Definition set_ready (w : world) : world :=
  mk_world (w_sys w) true (w_runner w) (w_gen w) (w_stops w) (w_task w) (w_loops w) (w_next_fire w) (w_last_fire w)
    (w_last_success w) (w_skips w) (w_load_errors w) (w_fired w) (w_events w) (w_abandoned w).

Definition set_next_fire (w : world) (tick : Z) : world :=
  mk_world (w_sys w) (w_ready w) (w_runner w) (w_gen w) (w_stops w) (w_task w) (w_loops w) (Some tick) (w_last_fire w)
    (w_last_success w) (w_skips w) (w_load_errors w) (w_fired w) (w_events w) (w_abandoned w).

Definition add_skip (w : world) : world :=
  mk_world (w_sys w) (w_ready w) (w_runner w) (w_gen w) (w_stops w) (w_task w) (w_loops w) (w_next_fire w) (w_last_fire w)
    (w_last_success w) (w_skips w + 1) (w_load_errors w) (w_fired w) (w_events w) (w_abandoned w).

Definition add_load_error (w : world) : world :=
  mk_world (w_sys w) (w_ready w) (w_runner w) (w_gen w) (w_stops w) (w_task w) (w_loops w) (w_next_fire w) (w_last_fire w)
    (w_last_success w) (w_skips w) (w_load_errors w + 1) (w_fired w) (w_events w) (w_abandoned w).

Definition add_fire (w : world) (i : nat) (m : message) (prompt : string) (now : Z) : world :=
  mk_world (w_sys w) (w_ready w) (w_runner w) (w_gen w) (w_stops w) (w_task w) (w_loops w) (w_next_fire w) (Some now)
    (w_last_success w) (w_skips w) (w_load_errors w) ((i, m, prompt) :: w_fired w) (w_events w) (w_abandoned w).

Definition add_outcome (w : world) (m : message) (payload : pydict) (success : option Z) : world :=
  mk_world (w_sys w) (w_ready w) (w_runner w) (w_gen w) (w_stops w) (w_task w) (w_loops w) (w_next_fire w) (w_last_fire w)
    (match success with Some t => Some t | None => w_last_success w end) (w_skips w) (w_load_errors w) (w_fired w)
    ((m, payload) :: w_events w) (w_abandoned w).

(** The message the loop is waiting for, if any. *)
Definition awaited (l : loop) : list message := match l_stage l with AwaitingResult m => [m] | _ => [] end.

Definition abandon (w : world) (l : loop) : world :=
  mk_world (w_sys w) (w_ready w) (w_runner w) (w_gen w) (w_stops w) (w_task w) (w_loops w) (w_next_fire w) (w_last_fire w)
    (w_last_success w) (w_skips w) (w_load_errors w) (w_fired w) (w_events w) (awaited l ++ w_abandoned w).

(** A loop is over. *)
Definition end_loop (w : world) (i : nat) (l : loop) (e : ending) : world := set_loop w i (set_stage l (Over e)).

(** [stop_event.set()] wakes the waiters of that event; a loop that has not
    started has none. *)
Definition hear (gen : nat) (l : loop) : loop :=
  match l_stage l with
  | Fresh => l
  | _ => if decide (l_gen l = gen) then set_stop l true else l
  end.

Definition stop_set (w : world) : world :=
  set_loops (set_runner w (w_runner w) (w_gen w) ({[w_gen w]} ∪ w_stops w) (w_task w)) (hear (w_gen w) <$> w_loops w).

Definition stop_clear (w : world) : world :=
  set_runner w (w_runner w) (w_gen w) (w_stops w ∖ {[w_gen w]}) (w_task w).

(** [create_task(_run_loop(...))] *)
Definition spawn (w : world) (h : heartbeat) : world :=
  let i := fresh (dom (w_loops w)) in
  set_loop (set_runner w Watching (w_gen w) (w_stops w) (Some i)) i (mk_loop Fresh (w_gen w) false None h []).

(** [load_heartbeat] at a start, after an edit and after the watcher exits. *)
Definition reload (w : world) (loaded : res (option heartbeat)) : world :=
  let idle := set_runner w Watching (w_gen w) (w_stops w) None in
  match loaded with
  | Raise _ => add_load_error idle
  | Ok None => idle
  | Ok (Some h) => spawn w h
  end.

Definition task_live (w : world) : option nat :=
  i ← w_task w; l ← w_loops w !! i; if is_live l then Some i else None.

(** An edit, or the end of the watcher: up to the join, if there is one. *)
Definition on_change (w : world) (loaded : res (option heartbeat)) : world :=
  match task_live w with
  | Some i => set_runner (stop_set w) (Joining i) (w_gen w) (w_stops (stop_set w)) (w_task w)
  | None => reload w loaded
  end.

Section Loop.
Variable croniter_next : string -> Z -> option Z.
(** Whether the loops are given [backends_ready]. *)
Variable gated : bool.

(** The head of the [while] loop, up to the sleep. *)
Definition loop_head (now : Z) (w : world) (i : nat) (l : loop) : world :=
  if decide (l_gen l ∈ w_stops w) then end_loop w i l Returned
  else
    let l := set_stop l false in
    match croniter_next (h_schedule (l_conf l)) (anchor l now) with
    | None => end_loop w i l Crashed
    | Some tick => set_next_fire (set_loop w i (set_tick l tick)) tick
    end.

(** The first steps of [_run_loop]. *)
Definition loop_start (now : Z) (w : world) (i : nat) (l : loop) : world :=
  let l := set_stop l (bool_decide (l_gen l ∈ w_stops w)) in
  if gated && negb (w_ready w) then set_loop w i (set_stage l AwaitingBackends) else loop_head now w i l.

(** The backends are ready, or the stop event is set. *)
Definition loop_ready (now : Z) (w : world) (i : nat) (l : loop) : world :=
  if l_stop l then end_loop w i l Returned else loop_head now w i l.

(** The sleep is over. [m] is the new message. *)
Definition loop_wake (environ : string -> option string) (loaded : res (option heartbeat)) (now : Z) (m : message)
    (w : world) (i : nat) (l : loop) : world :=
  if decide (l_gen l ∈ w_stops w) then end_loop w i l Returned
  else
    match loaded with
    | Raise _ => loop_head now (add_load_error w) i l
    | Ok None => loop_head now w i l
    | Ok (Some h) =>
        let l := set_conf l h in
        let '(sent, b) := try_send (s_bus (w_sys w)) m in
        let w := set_sys w (mk_system b (s_senders (w_sys w)) (s_current (w_sys w))) in
        if sent then add_fire (set_loop w i (set_stage l (AwaitingResult m))) i m (heartbeat_prompt environ (h_content h)) now
        else loop_head now (add_skip w) i l
    end.

(** The result of its message is in. *)
Definition loop_result (now us : Z) (error : string) (w : world) (i : nat) (l : loop) (m : message) : world :=
  let schedule := h_schedule (l_conf l) in
  match result_of (s_bus (w_sys w)) m with
  | FResult => loop_head now (add_outcome w m (fired_payload schedule us None) (Some now)) i l
  | FException => loop_head now (add_outcome w m (fired_payload schedule us (Some error)) None) i l
  | _ => end_loop (abandon w l) i l Cancelled
  end.

(** ** Interleaving *)

(** The other users of the bus never [send] a heartbeat: the ad-hoc endpoint
    too calls [try_send]. *)
Inductive step : world -> world -> Prop :=
| st_bus w s' : bstep (w_sys w) s' -> only_try_send "heartbeat" s' -> step w (set_sys w s')
| st_ready w : step w (set_ready w)
| st_run w loaded :
    w_runner w = Down -> step w (reload (set_runner w Watching (S (w_gen w)) (w_stops w) None) loaded)
| st_change w loaded : w_runner w = Watching -> step w (on_change w loaded)
| st_joined w i l loaded :
    w_runner w = Joining i -> w_loops w !! i = Some l -> l_stage l = Over Returned -> step w (reload (stop_clear w) loaded)
| st_join_raises w i l e :
    w_runner w = Joining i -> w_loops w !! i = Some l -> l_stage l = Over e -> e <> Returned ->
    step w (set_runner w Down (w_gen w) (w_stops w) None)
| st_join_timeout w i l loaded :
    w_runner w = Joining i -> w_loops w !! i = Some l -> is_live l = true ->
    step w (reload (stop_clear (end_loop (abandon w l) i l Cancelled)) loaded)
| st_die w : w_runner w <> Down -> step w (set_runner w Down (w_gen w) (w_stops w) None)
| st_start w i l now :
    w_loops w !! i = Some l -> l_stage l = Fresh -> step w (loop_start now w i l)
| st_backends w i l now :
    w_loops w !! i = Some l -> l_stage l = AwaitingBackends -> w_ready w || l_stop l = true -> step w (loop_ready now w i l)
| st_wake w i l tick environ loaded now m :
    w_loops w !! i = Some l -> l_stage l = Sleeping tick ->
    kind m = "heartbeat" -> results (s_bus (w_sys w)) !! msg_id m = None ->
    step w (loop_wake environ loaded now m w i l)
| st_sleep_stopped w i l tick :
    w_loops w !! i = Some l -> l_stage l = Sleeping tick -> l_stop l = true -> step w (end_loop w i l Returned)
| st_result w i l m now us error :
    w_loops w !! i = Some l -> l_stage l = AwaitingResult m -> future_done (result_of (s_bus (w_sys w)) m) = true ->
    0 <= us -> step w (loop_result now us error w i l m)
| st_result_stopped w i l m :
    w_loops w !! i = Some l -> l_stage l = AwaitingResult m -> l_stop l = true ->
    step w (end_loop (abandon w l) i l Returned).
End Loop.

(** ** Invariants *)

(** The control state: who may be live, and who has heard its stop event. *)
Record ctl_ok (r : runner_stage) (gen : nat) (stops : gset nat) (task : option nat) (loops : gmap nat loop) : Prop := {
  co_stops : forall g, g ∈ stops -> (g <= gen)%nat;
  co_runner : match r with
              | Watching => gen ∉ stops
              | Joining i => gen ∈ stops /\ task = Some i
              | Down => True
              end;
  co_mine : forall i, r <> Down -> task = Some i -> exists l, loops !! i = Some l /\ l_gen l = gen;
  co_gen : forall i l, loops !! i = Some l -> (l_gen l <= gen)%nat;
  co_unique : forall i j l l', loops !! i = Some l -> loops !! j = Some l' -> is_live l = true -> is_live l' = true ->
    l_gen l = l_gen l' -> i = j;
  co_task : forall i l, r <> Down -> loops !! i = Some l -> is_live l = true -> l_gen l = gen -> task = Some i;
  co_heard : forall i l, loops !! i = Some l -> is_live l = true -> l_gen l ∈ stops -> l_stage l = Fresh \/ l_stop l = true
}.

Definition ticks_ok (l : loop) : Prop := StronglySorted Z.gt (l_ticks l) /\ l_last l = head (l_ticks l).

(** The messages the loops are waiting for. *)
Definition waiting (loops : gmap nat loop) : list message := map_to_list loops ≫= (fun il => awaited il.2).

Definition accepted (p : pydict) : Prop := validate_heartbeat_fired p = Ok None.

Definition bus_reachable (depth : Z) (s : system) : Prop :=
  rtc (fun s1 s2 => bstep s1 s2 /\ only_try_send "heartbeat" s2) (initial depth) s.

(** What holds of a world while the loop [i], whose variables are [l], is
    running: [ms] is what it owes an outcome for. *)
Record running (depth : Z) (w : world) (i : nat) (l : loop) (ms : list message) : Prop := {
  ru_ctl : ctl_ok (w_runner w) (w_gen w) (w_stops w) (w_task w) (w_loops w);
  ru_self : exists l0, w_loops w !! i = Some l0 /\ is_live l0 = true /\ l_gen l0 = l_gen l;
  ru_bus : bus_reachable depth (w_sys w);
  ru_ticks : ticks_ok l /\ forall j l', w_loops w !! j = Some l' -> ticks_ok l';
  ru_events : Forall (fun e => accepted e.2) (w_events w);
  ru_messages : (w_fired w).*1.*2 ≡ₚ (w_events w).*1 ++ w_abandoned w ++ ms ++ waiting (delete i (w_loops w))
}.

Record world_ok (depth : Z) (w : world) : Prop := {
  wo_ctl : ctl_ok (w_runner w) (w_gen w) (w_stops w) (w_task w) (w_loops w);
  wo_bus : bus_reachable depth (w_sys w);
  wo_ticks : forall j l, w_loops w !! j = Some l -> ticks_ok l;
  wo_events : Forall (fun e => accepted e.2) (w_events w);
  wo_messages : (w_fired w).*1.*2 ≡ₚ (w_events w).*1 ++ w_abandoned w ++ waiting (w_loops w)
}.

Lemma waiting_insert loops i l : waiting (<[i := l]> loops) ≡ₚ awaited l ++ waiting (delete i loops).
Proof.
  unfold waiting. rewrite <-insert_delete_eq, map_to_list_insert by apply lookup_delete_eq. by rewrite bind_cons.
Qed.

Lemma waiting_delete loops i l : loops !! i = Some l -> waiting loops ≡ₚ awaited l ++ waiting (delete i loops).
Proof. intros Hl. unfold waiting. rewrite <-(map_to_list_delete loops i l Hl). by rewrite bind_cons. Qed.

(** One loop changes its own entry. *)
Lemma ctl_set_loop r gen stops task loops i l l' :
  ctl_ok r gen stops task loops -> loops !! i = Some l -> is_live l = true -> l_gen l' = l_gen l ->
  (l_gen l ∈ stops -> is_live l' = false \/ l_stop l' = true) ->
  ctl_ok r gen stops task (<[i := l']> loops).
Proof.
  intros [Hs Hr Hmine Hg Hu Ht Hh] Hl Hlive Hgen Hstop. constructor; [done|done|..].
  - intros j Hd Hj. destruct (Hmine j Hd Hj) as (l0 & Hl0 & Hg0).
    destruct (decide (i = j)) as [<-|Hne]; [exists l'; rewrite lookup_insert_eq; split; [done|congruence]|].
    exists l0. by rewrite lookup_insert_ne.
  - intros j lj [[<- <-]|[_ ?]]%lookup_insert_Some; [rewrite Hgen|]; eauto.
  - intros j k lj lk [[<- <-]|[? Hj]]%lookup_insert_Some [[<- <-]|[? Hk]]%lookup_insert_Some Hlj Hlk E; [done|..|eauto].
    + apply (Hu i k l lk); congruence.
    + apply (Hu j i lj l); congruence.
  - intros j lj Hd [[<- <-]|[_ ?]]%lookup_insert_Some Hlj E; [apply (Ht i l); congruence|eauto].
  - intros j lj [[<- <-]|[_ ?]]%lookup_insert_Some Hlj Hin; [|eauto]. rewrite Hgen in Hin.
    destruct (Hstop Hin) as [?|?]; [congruence|auto].
Qed.

Lemma running_intro depth w i l :
  world_ok depth w -> w_loops w !! i = Some l -> is_live l = true -> running depth w i l (awaited l).
Proof.
  intros [Hc Hb Ht He Hm] Hl Hlive. constructor; [done|by exists l|done|eauto|done|]. by rewrite Hm, (waiting_delete _ _ _ Hl).
Qed.

(** The loop suspends, or is over. *)
Lemma running_close depth w i l ms l' :
  running depth w i l ms -> awaited l' ≡ₚ ms -> l_gen l' = l_gen l -> ticks_ok l' ->
  (l_gen l ∈ w_stops w -> is_live l' = false \/ l_stop l' = true) -> world_ok depth (set_loop w i l').
Proof.
  intros [Hc (l0 & Hl0 & Hlive & Hg) Hb [_ Ht] He Hm] Ha Hgen Htl Hstop. constructor; cbn; [|done| |done|].
  - eapply ctl_set_loop; [done..|congruence|]. by rewrite Hg.
  - intros j lj [[<- <-]|[_ ?]]%lookup_insert_Some; eauto.
  - by rewrite Hm, waiting_insert, Ha.
Qed.

Lemma running_end depth w i l e : running depth w i l [] -> world_ok depth (end_loop w i l e).
Proof. intros Hr. eapply running_close; [done|done|done|apply (ru_ticks _ _ _ _ _ Hr)|by left]. Qed.

(** Changes of a loop's own variables. *)
Lemma running_vars depth w i l l' ms :
  l_gen l' = l_gen l -> ticks_ok l' -> running depth w i l ms -> running depth w i l' ms.
Proof. intros Hg Ht [Hc (l0 & ? & ? & ?) Hb [_ Hts] He Hm]. constructor; try done. exists l0. split_and!; congruence. Qed.

Lemma running_bus depth w i l ms s' :
  bstep (w_sys w) s' -> only_try_send "heartbeat" s' -> running depth w i l ms -> running depth (set_sys w s') i l ms.
Proof. intros Hs Ho []. constructor; try done. eapply rtc_r; [done|]. by split. Qed.

Lemma running_abandon depth w i l ms :
  awaited l = ms -> running depth w i l ms -> running depth (abandon w l) i l [].
Proof. intros <- [Hc Hl Hb Ht He Hm]. constructor; try done. cbn. rewrite Hm. solve_Permutation. Qed.

Lemma running_outcome depth w i l m payload success :
  accepted payload -> running depth w i l [m] -> running depth (add_outcome w m payload success) i l [].
Proof. intros Ha [Hc Hl Hb Ht He Hm]. constructor; try done; cbn; [by constructor|]. rewrite Hm. solve_Permutation. Qed.

Lemma running_fire depth w i l m prompt now :
  running depth w i l [] -> running depth (add_fire w i m prompt now) i l [m].
Proof. intros [Hc Hl Hb Ht He Hm]. constructor; try done. cbn. rewrite Hm. solve_Permutation. Qed.

Lemma running_skip depth w i l ms : running depth w i l ms -> running depth (add_skip w) i l ms.
Proof. by intros []. Qed.

Lemma running_load_error depth w i l ms : running depth w i l ms -> running depth (add_load_error w) i l ms.
Proof. by intros []. Qed.

Lemma fired_payload_accepted schedule us error : 0 <= us -> accepted (fired_payload schedule us error).
Proof.
  intros Hus. assert (Hd : (0 <=? us / 1000) = true) by (apply Z.leb_le, Z.div_pos; lia).
  unfold accepted, fired_payload. revert Hd. generalize (us / 1000). intros d Hd.
  destruct error as [e|]; [generalize (str_take (Z.to_nat 512) e); intros text|]; case_decide; cbv -[Z.leb]; by rewrite Hd.
Qed.

Lemma reachable_try_send depth s : bus_reachable depth s -> only_try_send "heartbeat" s.
Proof. apply (rtc_ind_r (only_try_send "heartbeat")); [constructor|]. by intros s1 s2 _ [_ ?] _. Qed.

Lemma running_try_send depth w i l ms m b :
  (try_send (s_bus (w_sys w)) m).2 = b -> running depth w i l ms ->
  running depth (set_sys w (mk_system b (s_senders (w_sys w)) (s_current (w_sys w)))) i l ms.
Proof.
  intros <- Hr. pose proof (reachable_try_send _ _ (ru_bus _ _ _ _ _ Hr)) as Ho.
  apply running_bus; [|done|done]. destruct (w_sys w) as [b ss cur]. apply step_try_send.
Qed.

(** *** The runner *)

Definition none_live (w : world) : Prop :=
  forall i l, w_loops w !! i = Some l -> is_live l = true -> l_gen l <> w_gen w.

(** The same world with its runner down, where little is asked of it. *)
Definition downed (w : world) : world := set_runner w Down (w_gen w) (w_stops w) (w_task w).

Lemma downed_ok depth w : world_ok depth w -> world_ok depth (downed w).
Proof. intros [[] Hb Ht He Hm]. by constructor. Qed.

Lemma reload_ok depth w loaded :
  world_ok depth (downed w) -> w_gen w ∉ w_stops w -> none_live w -> world_ok depth (reload w loaded).
Proof.
  intros [[Hs _ _ Hg Hu _ Hh] Hb Ht He Hm] Hstop Hnone. cbn in *.
  assert (world_ok depth (set_runner w Watching (w_gen w) (w_stops w) None)) as Hidle.
  { constructor; try done. constructor; try done. intros i l _ Hl Hlive Hgen. by destruct (Hnone i l). }
  unfold reload. destruct loaded as [[h|]|e]; [|done|by destruct Hidle].
  unfold spawn. set (i := fresh (dom (w_loops w))). set (l := mk_loop _ _ _ _ _ _).
  assert (w_loops w !! i = None) as Hi by apply not_elem_of_dom, is_fresh.
  constructor; cbn; try done.
  - constructor; try done.
    + intros j _ [= <-]. exists l. by rewrite lookup_insert_eq.
    + intros j lj [[<- <-]|[_ ?]]%lookup_insert_Some; [done|eauto].
    + intros j k lj lk [[<- <-]|[? Hj]]%lookup_insert_Some [[<- <-]|[? Hk]]%lookup_insert_Some Hlj Hlk E; [done|..|eauto].
      * by destruct (Hnone k lk).
      * by destruct (Hnone j lj).
    + intros j lj _ [[<- <-]|[_ Hj]]%lookup_insert_Some Hlive Hgen; [done|]. by destruct (Hnone j lj).
    + intros j lj [[<- <-]|[_ ?]]%lookup_insert_Some; [by left|eauto].
  - intros j lj [[<- <-]|[_ ?]]%lookup_insert_Some; [|eauto]. split; [constructor|done].
  - rewrite Hm, waiting_insert, delete_id by done. done.
Qed.

Lemma run_ok depth w loaded :
  world_ok depth w -> w_runner w = Down ->
  world_ok depth (reload (set_runner w Watching (S (w_gen w)) (w_stops w) None) loaded).
Proof.
  intros [[Hs _ _ Hg Hu _ Hh] Hb Ht He Hm] _. apply reload_ok; cbn.
  - constructor; try done. constructor; try done; cbn.
    + intros g Hin. specialize (Hs g Hin). lia.
    + intros i l Hl. specialize (Hg i l Hl). lia.
  - intros Hin%Hs. lia.
  - intros i l Hl _. specialize (Hg i l Hl). cbn. lia.
Qed.

Lemma joined_ok depth w i l loaded :
  world_ok depth w -> w_runner w = Joining i -> w_loops w !! i = Some l -> is_live l = false ->
  world_ok depth (reload (stop_clear w) loaded).
Proof.
  intros [[Hs Hr _ Hg Hu Ht Hh] Hb Htk He Hm] Hj Hl Hdead. rewrite Hj in *. destruct Hr as (Hin & Htask).
  apply reload_ok; cbn.
  - constructor; try done. constructor; try done; cbn.
    + intros g [? _]%elem_of_difference. auto.
    + intros k lk Hk Hlive [? _]%elem_of_difference. eauto.
  - set_solver.
  - intros k lk Hk Hlive Hgen. cbn in *. specialize (Ht k lk ltac:(done) Hk Hlive Hgen). simplify_eq. congruence.
Qed.

Lemma hear_live gen l : is_live (hear gen l) = is_live l.
Proof. unfold hear, is_live. destruct (l_stage l) eqn:E; [by rewrite E|..]; case_decide; cbn; by rewrite E. Qed.

Lemma hear_gen gen l : l_gen (hear gen l) = l_gen l.
Proof. unfold hear. by destruct (l_stage l); [|case_decide..]. Qed.

Lemma hear_stage gen l : l_stage (hear gen l) = l_stage l.
Proof. unfold hear. destruct (l_stage l) eqn:E; [done|..]; case_decide; done. Qed.

Lemma hear_ticks gen l : ticks_ok l -> ticks_ok (hear gen l).
Proof. unfold hear. by destruct (l_stage l); [|case_decide..]. Qed.

Lemma hear_heard gen l : l_gen l = gen -> l_stage l = Fresh \/ l_stop (hear gen l) = true.
Proof. intros Hg. unfold hear. destruct (l_stage l) eqn:E; [by left|..]; right; by rewrite decide_True. Qed.

Lemma hear_keeps gen l : l_stop l = true -> l_stop (hear gen l) = true.
Proof. unfold hear. by destruct (l_stage l); [|case_decide..]. Qed.

Lemma waiting_hear gen loops : waiting (hear gen <$> loops) = waiting loops.
Proof.
  unfold waiting. rewrite map_to_list_fmap. induction (map_to_list loops) as [|[i l] ils IH]; [done|].
  rewrite fmap_cons, !bind_cons, IH. f_equal. unfold awaited. cbn. by rewrite hear_stage.
Qed.

Lemma task_live_Some w i : task_live w = Some i <-> w_task w = Some i /\ exists l, w_loops w !! i = Some l /\ is_live l = true.
Proof.
  unfold task_live. destruct (w_task w) as [j|]; cbn; [|split; [done|by intros [? _]]].
  destruct (w_loops w !! j) as [l|] eqn:E; cbn; [destruct (is_live l) eqn:El|]; split; try done.
  - intros [= <-]. eauto.
  - by intros [[= ->] _].
  - intros ([= ->] & l' & Hl' & ?). congruence.
  - intros ([= ->] & l' & Hl' & _). congruence.
Qed.

Lemma on_change_ok depth w loaded :
  world_ok depth w -> w_runner w = Watching -> world_ok depth (on_change w loaded).
Proof.
  intros Hw Hr. unfold on_change. destruct (task_live w) as [i|] eqn:Hi.
  - destruct Hw as [[Hs _ Hmine Hg Hu Ht Hh] Hb Htk He Hm]. apply task_live_Some in Hi as (Htask & l & Hl & Hlive).
    constructor; cbn; [|done| |done|by rewrite waiting_hear].
    + constructor; cbn.
      * intros g [->%elem_of_singleton|?]%elem_of_union; auto.
      * split; [set_solver|done].
      * intros j _ Hj. destruct (Hmine j) as (lj & Hlj & Hgj); [congruence|done|].
        exists (hear (w_gen w) lj). by rewrite lookup_fmap, Hlj, hear_gen.
      * intros j lj (l' & <- & ?)%lookup_fmap_Some. rewrite hear_gen. eauto.
      * intros j k lj lk (l1 & <- & Hl1)%lookup_fmap_Some (l2 & <- & Hl2)%lookup_fmap_Some.
        rewrite !hear_live, !hear_gen. eauto.
      * intros j lj _ (l' & <- & Hl')%lookup_fmap_Some. rewrite hear_live, hear_gen. intros. apply (Ht j l'); [congruence|done..].
      * intros j lj (l' & <- & Hl')%lookup_fmap_Some. rewrite hear_live, hear_gen, hear_stage.
        intros Hj [Hin%elem_of_singleton|Hin]%elem_of_union; [by apply hear_heard|].
        destruct (Hh j l' Hl' Hj Hin); [by left|right; by apply hear_keeps].
    + intros j lj (l' & <- & Hl')%lookup_fmap_Some. apply hear_ticks. eauto.
  - pose proof (wo_ctl _ _ Hw) as Hc. apply reload_ok; [by apply downed_ok| |].
    + pose proof (co_runner _ _ _ _ _ Hc) as H. by rewrite Hr in H.
    + intros j l Hl Hlive Hgen. assert (task_live w = Some j); [|congruence]. apply task_live_Some.
      split; [|by exists l]. eapply (co_task _ _ _ _ _ Hc); eauto. by rewrite Hr.
Qed.

(** *** The loops *)

Lemma running_stage depth w i l s :
  world_ok depth w -> w_loops w !! i = Some l -> l_stage l = s -> (forall e, s <> Over e) ->
  running depth w i l (match s with AwaitingResult m => [m] | _ => [] end).
Proof.
  intros Hw Hl <- Hs. replace (match l_stage l with AwaitingResult m => [m] | _ => [] end) with (awaited l) by done.
  apply running_intro; [done..|]. unfold is_live. destruct (l_stage l) eqn:E; try done. by destruct (Hs e).
Qed.

Section LoopSteps.
Variable croniter_next : string -> Z -> option Z.
Variable gated : bool.
Hypothesis cron_forward : forall e t t', croniter_next e t = Some t' -> t < t'.

Lemma tick_later l now tick :
  ticks_ok l -> croniter_next (h_schedule (l_conf l)) (anchor l now) = Some tick -> ticks_ok (set_tick l tick).
Proof.
  intros [Hs Hlast] Hn%cron_forward. unfold anchor in Hn. rewrite Hlast in Hn. split; [|done]. cbn.
  destruct (l_ticks l) as [|last ticks]; cbn in Hn; [repeat constructor|]. constructor; [done|].
  apply StronglySorted_inv in Hs as [_ Hall]. constructor; [lia|]. eapply Forall_impl; [exact Hall|]. cbn. lia.
Qed.

Lemma loop_head_ok depth now w i l : running depth w i l [] -> world_ok depth (loop_head croniter_next now w i l).
Proof.
  intros Hr. unfold loop_head. case_decide as Hs; [by apply running_end|]. cbv zeta.
  pose proof (proj1 (ru_ticks _ _ _ _ _ Hr)) as Ht.
  destruct (croniter_next _ _) as [tick|] eqn:Hn.
  - assert (world_ok depth (set_loop w i (set_tick (set_stop l false) tick))) as []; [|done].
    eapply running_close; [done|done|done|by eapply tick_later|done].
  - apply running_end. by eapply running_vars; [..|exact Hr].
Qed.

Lemma loop_start_ok depth now w i l :
  world_ok depth w -> w_loops w !! i = Some l -> l_stage l = Fresh ->
  world_ok depth (loop_start croniter_next gated now w i l).
Proof.
  intros Hw Hl Hs. pose proof (running_stage depth w i l _ Hw Hl Hs ltac:(done)) as Hr.
  pose proof (proj1 (ru_ticks _ _ _ _ _ Hr)) as Ht. unfold loop_start. cbv zeta. destruct (gated && negb (w_ready w)).
  - eapply running_close; [done|done|done|done|]. intros Hin. right. cbn. by apply bool_decide_eq_true.
  - apply loop_head_ok. by eapply running_vars; [..|exact Hr].
Qed.

Lemma loop_wake_ok depth environ loaded now m w i l tick :
  world_ok depth w -> w_loops w !! i = Some l -> l_stage l = Sleeping tick ->
  world_ok depth (loop_wake croniter_next environ loaded now m w i l).
Proof.
  intros Hw Hl Hs. pose proof (running_stage depth w i l _ Hw Hl Hs ltac:(done)) as Hr.
  pose proof (proj1 (ru_ticks _ _ _ _ _ Hr)) as Ht.
  unfold loop_wake. case_decide as Hstop; [by apply running_end|].
  destruct loaded as [[h|]|e]; [|by apply loop_head_ok|by apply loop_head_ok, running_load_error]. cbv zeta.
  assert (running depth w i (set_conf l h) []) as Hr' by (by eapply running_vars; [..|exact Hr]).
  destruct (try_send (s_bus (w_sys w)) m) as [sent b] eqn:Hb.
  apply (running_try_send depth w i _ _ m b) in Hr'; [|by rewrite Hb]. destruct sent.
  - revert Hr' Hstop. set (w1 := set_sys w _). intros Hr' Hstop.
    apply (running_close depth (add_fire w1 i m (heartbeat_prompt environ (h_content h)) now) i (set_conf l h) [m]);
      [by apply running_fire|done..].
  - by apply loop_head_ok, running_skip.
Qed.

Lemma loop_result_ok depth now us error w i l m :
  world_ok depth w -> w_loops w !! i = Some l -> l_stage l = AwaitingResult m -> 0 <= us ->
  world_ok depth (loop_result croniter_next now us error w i l m).
Proof.
  intros Hw Hl Hs Hus. pose proof (running_stage depth w i l _ Hw Hl Hs ltac:(done)) as Hr.
  unfold loop_result. cbv zeta. destruct (result_of _ _).
  3,4: apply loop_head_ok, running_outcome; [by apply fired_payload_accepted|done].
  all: apply running_end; eapply running_abandon; [|done]; unfold awaited; by rewrite Hs.
Qed.

Lemma drop_ok depth w i l e : world_ok depth w -> w_loops w !! i = Some l -> is_live l = true -> world_ok depth (end_loop (abandon w l) i l e).
Proof. intros Hw Hl Hlive. apply running_end. eapply running_abandon; [done|]. by apply running_intro. Qed.

Lemma down_ok depth w : world_ok depth w -> world_ok depth (set_runner w Down (w_gen w) (w_stops w) None).
Proof. intros [[] Hb Ht He Hm]. by constructor. Qed.

Lemma loop_step_ok depth w w' : step croniter_next gated w w' -> world_ok depth w -> world_ok depth w'.
Proof.
  intros Hst Hw. destruct Hst as [w s' Hs Ho|w|w loaded Hd|w loaded Hr|w i l loaded Hr Hl Hs|w i l e Hr Hl Hs He
    |w i l loaded Hr Hl Hlive|w Hr|w i l now Hl Hs|w i l now Hl Hs Hready|w i l tick environ loaded now m Hl Hs Hk Hf
    |w i l tick Hl Hs Hstop|w i l m now us error Hl Hs Hf Hus|w i l m Hl Hs Hstop].
  - destruct Hw. constructor; try done. eapply rtc_r; [done|]. by split.
  - by destruct Hw.
  - by apply run_ok.
  - by apply on_change_ok.
  - eapply joined_ok; [done..|]. unfold is_live. by rewrite Hs.
  - by apply down_ok.
  - eapply joined_ok; [by apply drop_ok|done|by apply lookup_insert_eq|done].
  - by apply down_ok.
  - by apply loop_start_ok.
  - pose proof (running_stage depth w i l _ Hw Hl Hs ltac:(done)) as Hrun.
    unfold loop_ready. destruct (l_stop l); [by apply running_end|by apply loop_head_ok].
  - by eapply loop_wake_ok.
  - pose proof (running_stage depth w i l _ Hw Hl Hs ltac:(done)) as Hrun.
    by apply running_end.
  - by apply loop_result_ok.
  - apply drop_ok; [done..|]. unfold is_live. by rewrite Hs.
Qed.
End LoopSteps.

Lemma initial_ok depth ready : world_ok depth (initial_world depth ready).
Proof.
  constructor; cbn; try done.
  constructor; cbn; try done; set_solver.
Qed.

Lemma world_reachable_ok cn gated depth ready w :
  (forall e t t', cn e t = Some t' -> t < t') -> rtc (step cn gated) (initial_world depth ready) w -> world_ok depth w.
Proof.
  intros Hc. apply (rtc_ind_r (world_ok depth)); [apply initial_ok|]. intros w1 w2 _ Hs Hw. by eapply loop_step_ok.
Qed.

(** *** What a stopped loop does *)

Lemma loop_head_fired cn now w i l : w_fired (loop_head cn now w i l) = w_fired w.
Proof. unfold loop_head. case_decide; [done|]. cbv zeta. by destruct (cn _ _). Qed.

Lemma reload_fired w loaded : w_fired (reload w loaded) = w_fired w.
Proof. by destruct loaded as [[]|]. Qed.

Lemma loop_wake_fired cn environ loaded now m w i l :
  w_fired (loop_wake cn environ loaded now m w i l) = w_fired w \/
  l_gen l ∉ w_stops w /\ exists h, loaded = Ok (Some h) /\
    w_fired (loop_wake cn environ loaded now m w i l) = (i, m, heartbeat_prompt environ (h_content h)) :: w_fired w.
Proof.
  unfold loop_wake. case_decide as Hs; [by left|]. destruct loaded as [[h|]|e]; [|left; by rewrite loop_head_fired..].
  cbv zeta. destruct (try_send _ _) as [[] b]; [right; eauto|left; by rewrite loop_head_fired].
Qed.

Lemma step_fired cn gated w w' :
  step cn gated w w' ->
  w_fired w' = w_fired w \/
  exists i l tick environ h m,
    w_loops w !! i = Some l /\ l_stage l = Sleeping tick /\ l_gen l ∉ w_stops w /\ kind m = "heartbeat" /\
    w_fired w' = (i, m, heartbeat_prompt environ (h_content h)) :: w_fired w.
Proof.
  intros Hst. destruct Hst as [| | |w loaded Hr| | | | |w i l now Hl Hs|w i l now Hl Hs Hready
    |w i l tick environ loaded now m Hl Hs Hk Hf| |w i l m now us error Hl Hs Hf Hus|];
    try (by left); try (left; by rewrite reload_fired).
  - left. unfold on_change. destruct (task_live w); [done|by rewrite reload_fired].
  - left. unfold loop_start. cbv zeta. destruct (gated && _); [done|by rewrite loop_head_fired].
  - left. unfold loop_ready. destruct (l_stop l); [done|by rewrite loop_head_fired].
  - destruct (loop_wake_fired cn environ loaded now m w i l) as [?|(Hn & h & _ & ?)]; [by left|right].
    by exists i, l, tick, environ, h, m.
  - left. unfold loop_result. cbv zeta. destruct (result_of _ _); try done; by rewrite loop_head_fired.
Qed.

(** The loop the runner is joining can end by itself, and fires nothing. *)
Lemma joined_loop_ends cn gated depth w i l :
  world_ok depth w -> w_runner w = Joining i -> w_loops w !! i = Some l -> is_live l = true ->
  exists w' l, rtc (step cn gated) w w' /\ w_runner w' = Joining i /\ w_gen w' = w_gen w /\ w_stops w' = w_stops w /\
    w_fired w' = w_fired w /\ w_loops w' !! i = Some l /\ l_stage l = Over Returned.
Proof.
  intros Hw Hr Hl Hlive. pose proof (wo_ctl _ _ Hw) as Hc. pose proof (co_runner _ _ _ _ _ Hc) as Hj. rewrite Hr in Hj.
  destruct Hj as [Hin Htask]. destruct (co_mine _ _ _ _ _ Hc i) as (l0 & Hl0 & Hg); [by rewrite Hr|done|].
  assert (l0 = l) as -> by congruence. rewrite <-Hg in Hin.
  assert (forall w1 w2 l', step cn gated w1 w2 -> rtc (step cn gated) w w1 -> w_runner w2 = Joining i -> w_gen w2 = w_gen w ->
    w_stops w2 = w_stops w -> w_fired w2 = w_fired w -> w_loops w2 = <[i := set_stage l' (Over Returned)]> (w_loops w1) ->
    exists w' l, rtc (step cn gated) w w' /\ w_runner w' = Joining i /\ w_gen w' = w_gen w /\ w_stops w' = w_stops w /\
      w_fired w' = w_fired w /\ w_loops w' !! i = Some l /\ l_stage l = Over Returned) as Hend.
  { intros w1 w2 l' Hst Hrt ???? E. exists w2, (set_stage l' (Over Returned)). split_and!; try done; [by eapply rtc_r|].
    by rewrite E, lookup_insert_eq. }
  assert (Hhead : forall now l', l_gen l' = l_gen l -> loop_head cn now w i l' = end_loop w i l' Returned).
  { intros now l' E. unfold loop_head. by rewrite E, decide_True. }
  pose proof (co_heard _ _ _ _ _ Hc i l Hl Hlive Hin) as Hh.
  destruct (l_stage l) as [| |tick|m|e] eqn:Hs; [| |..|by unfold is_live in Hlive; rewrite Hs in Hlive].
  - destruct (gated && negb (w_ready w)) eqn:Hga.
    + set (l1 := set_stage (set_stop l true) AwaitingBackends). set (w1 := set_loop w i l1).
      assert (step cn gated w w1) as H1.
      { replace w1 with (loop_start cn gated 0 w i l); [by eapply st_start|]. unfold loop_start. cbv zeta.
        rewrite Hga, bool_decide_true by done. done. }
      apply (Hend w1 (end_loop w1 i l1 Returned) l1); try done; [|by apply rtc_once].
      change (end_loop w1 i l1 Returned) with (loop_ready cn 0 w1 i l1).
      apply st_backends; [apply lookup_insert_eq|done|by rewrite orb_true_r].
    + set (l1 := set_stop l (bool_decide (l_gen l ∈ w_stops w))).
      apply (Hend w (end_loop w i l1 Returned) l1); try done.
      replace (end_loop w i l1 Returned) with (loop_start cn gated 0 w i l); [by eapply st_start|].
      unfold loop_start. cbv zeta. rewrite Hga. by apply Hhead.
  - destruct Hh as [?|Hh]; [done|]. apply (Hend w (end_loop w i l Returned) l); try done.
    replace (end_loop w i l Returned) with (loop_ready cn 0 w i l); [|unfold loop_ready; by rewrite Hh].
    eapply st_backends; [done..|]. rewrite Hh. by rewrite orb_true_r.
  - destruct Hh as [?|Hh]; [done|]. eapply (Hend w (end_loop w i l Returned) l); try done. by eapply st_sleep_stopped.
  - destruct Hh as [?|Hh]; [done|]. eapply (Hend w (end_loop (abandon w l) i l Returned) l); try done.
    by eapply st_result_stopped.
Qed.

(** ** Theorems *)

(** C31: whatever edits, stops, timeouts, crashes and restarts happen, in any
    interleaving with the rest of the bus: each start of the runner has at
    most one live loop, which is the one the runner holds while it runs; so
    there is one loop at most until the runner crashes; and even with several
    loops at most one heartbeat is in flight on the bus, whose slot is taken
    exactly then. *)
Theorem one_heartbeat_loop cn gated depth ready w :
  (forall e t t', cn e t = Some t' -> t < t') -> rtc (step cn gated) (initial_world depth ready) w ->
  (forall i j l l', w_loops w !! i = Some l -> w_loops w !! j = Some l' -> is_live l = true -> is_live l' = true ->
     l_gen l = l_gen l' -> i = j) /\
  (forall i l, w_runner w <> Down -> w_loops w !! i = Some l -> is_live l = true -> l_gen l = w_gen w -> w_task w = Some i) /\
  (forall i l, w_loops w !! i = Some l -> (l_gen l <= w_gen w)%nat) /\
  (length (of_kind "heartbeat" (in_flight (w_sys w))) <= 1)%nat /\
  ("heartbeat" ∈ pending_kinds (s_bus (w_sys w)) <-> length (of_kind "heartbeat" (in_flight (w_sys w))) = 1%nat).
Proof.
  intros Hc Hr. pose proof (world_reachable_ok _ _ _ _ _ Hc Hr) as [Hctl Hb _ _ _].
  split_and!; [apply Hctl|apply Hctl|apply Hctl|..]; by eapply (try_send_at_most_one "heartbeat" depth).
Qed.

(** Every message fired has one of three fates, exactly: its
    [heartbeat.fired] event, which the validator accepts, was published once;
    it was abandoned by a loop that was stopped or cancelled; or a loop waits
    for it. Each loop's ticks increase strictly: none fires twice for the same
    one. *)
Theorem heartbeats_accounted cn gated depth ready w :
  (forall e t t', cn e t = Some t' -> t < t') -> rtc (step cn gated) (initial_world depth ready) w ->
  (w_fired w).*1.*2 ≡ₚ (w_events w).*1 ++ w_abandoned w ++ waiting (w_loops w) /\
  Forall (fun e => validate_heartbeat_fired e.2 = Ok None) (w_events w) /\
  forall i l, w_loops w !! i = Some l -> StronglySorted Z.gt (l_ticks l).
Proof.
  intros Hc Hr. pose proof (world_reachable_ok _ _ _ _ _ Hc Hr) as [_ _ Ht He Hm]. split_and!; [done|done|].
  intros i l Hl. by apply (Ht i l).
Qed.


(** ** Examples and witnesses *)

Definition hourly (e : string) (t : Z) : option Z := Some ((t / 3600 + 1) * 3600).

Lemma hourly_forward e t t' : hourly e t = Some t' -> t < t'.
Proof. intros [= <-]. pose proof (Z.mod_pos_bound t 3600 eq_refl). pose proof (Z.div_mod t 3600 ltac:(done)). lia. Qed.

Definition ping : heartbeat := AdHoc.mk_heartbeat "0 * * * *" "Check the queue." None None [] None.
Definition no_env (v : string) : option string := None.

(** Started, asleep until the first hour, fired. *)
Definition started : world := reload (set_runner (initial_world 4 true) Watching 1 ∅ None) (Ok (Some ping)).
Definition loop_of (w : world) (i : nat) : loop := default (mk_loop (Over Returned) 0 false None ping []) (w_loops w !! i).
Definition asleep : world := loop_start hourly true 10 started 0 (loop_of started 0).
Definition fired : world := loop_wake hourly no_env (Ok (Some ping)) 3600 (mk_message 7 "heartbeat") asleep 0 (loop_of asleep 0).
Definition edited : world := on_change fired (Ok None).

Lemma edited_reachable : rtc (step hourly true) (initial_world 4 true) edited.
Proof.
  eapply rtc_l; [apply (st_run hourly true (initial_world 4 true) (Ok (Some ping))); reflexivity|].
  eapply rtc_l; [apply (st_start hourly true started 0 (loop_of started 0) 10); vm_compute; reflexivity|].
  eapply rtc_l; [eapply (st_wake hourly true asleep 0 (loop_of asleep 0) 3600 no_env (Ok (Some ping)) 3600 (mk_message 7 "heartbeat")); vm_compute; reflexivity|].
  eapply rtc_l; [apply (st_change hourly true fired (Ok None)); vm_compute; reflexivity|]. apply rtc_refl.
Qed.

Lemma one_heartbeat_loop_witness :
  of_kind "heartbeat" (in_flight (w_sys edited)) = [mk_message 7 "heartbeat"] /\
  (length (of_kind "heartbeat" (in_flight (w_sys edited))) <= 1)%nat.
Proof.
  split; [vm_compute; reflexivity|].
  apply (one_heartbeat_loop hourly true 4 true edited hourly_forward edited_reachable).
Defined.

Lemma heartbeats_accounted_witness :
  (w_fired edited).*1.*2 = [mk_message 7 "heartbeat"] /\
  (w_fired edited).*1.*2 ≡ₚ (w_events edited).*1 ++ w_abandoned edited ++ waiting (w_loops edited).
Proof.
  split; [vm_compute; reflexivity|].
  apply (heartbeats_accounted hourly true 4 true edited hourly_forward edited_reachable).
Defined.


(** A file that cannot be read at the moment of an edit stops the heartbeat:
    the old loop is gone and no new one is started. *)
Example failed_reload_stops :
  let w := reload (stop_clear (end_loop edited 0 (loop_of edited 0) Returned)) (Raise ValueError) in
  w_runner w = Watching /\ w_task w = None /\ is_live (loop_of w 0) = false /\ w_load_errors w = 1.
Proof. vm_compute. done. Qed.

(** A crash of the runner leaves its loop alive, and its successor starts a
    second one. *)
Example two_loops_after_crash :
  let w := set_runner asleep Down (w_gen asleep) (w_stops asleep) None in
  let w := reload (set_runner w Watching (S (w_gen w)) (w_stops w) None) (Ok (Some ping)) in
  (is_live (loop_of w 0), l_stop (loop_of w 0), is_live (loop_of w 1)) = (true, false, true).
Proof. vm_compute. reflexivity. Qed.

(** A result that is cancelled ends the loop without a trace. *)
Example cancelled_result_ends_loop :
  let b := worker_finish (s_bus (w_sys fired)) (mk_message 7 "heartbeat") FUnset in
  let w := loop_result hourly 3700 5 "" (set_sys fired (mk_system b [] None)) 0 (loop_of fired 0) (mk_message 7 "heartbeat") in
  (l_stage (loop_of w 0), w_events w, w_task w) = (Over Cancelled, [], Some 0%nat).
Proof. vm_compute. reflexivity. Qed.
