(* ===== verification/TaskRuns.v ===== *)
(** * The runs of scheduled tasks (harness/tasks.py, [run_task])

    The coroutine that drives one task: once, or window by window, with the
    loop inside a window, the semaphore the tasks share, the running flag, the
    checkpoint, the message and its announcement, and the drain of a cancelled
    run.  The coroutines of all tasks, scheduled or fired ad hoc, are
    interleaved at their suspension points.  Every reading of the clock, a
    date and a time of day in the zone of the task, is part of a step and
    arbitrary unless said otherwise.  [croniter] and [uuid5] are parameters. *)
From Stdlib Require Import Ascii Sorted.
From S2P Require Import Prelude PyStr PyVal Broadcast EventSchema EventStream Utils PromptEnv Semaphore Tasks.

(** ** Dates *)

(** Digits of [n], at least [width] of them. *)
Definition zero_pad (width : nat) (n : Z) : string :=
  let s := py_str_int n in str_take (width - String.length s) "0000" +:+ s.

(** [date.fromordinal(n).isoformat()], by way of the years that begin in
    March. *)
Definition isoformat (n : Z) : string :=
  let z := n + 305 in
  let era := z / 146097 in
  let doe := z mod 146097 in
  let yoe := (doe - doe / 1460 + doe / 36524 - doe / 146096) / 365 in
  let doy := doe - (365 * yoe + yoe / 4 - yoe / 100) in
  let mp := (5 * doy + 2) / 153 in
  let d := doy - (153 * mp + 2) / 5 + 1 in
  let m := if mp <? 10 then mp + 3 else mp - 9 in
  let y := yoe + era * 400 + (if m <=? 2 then 1 else 0) in
  zero_pad 4 y +:+ "-" +:+ zero_pad 2 m +:+ "-" +:+ zero_pad 2 d.

(** [strftime("%H:%M")] of a time of day. *)
Definition hh_mm (t : Z) : string :=
  let minutes := t / (60 * usec) in zero_pad 2 (minutes / 60) +:+ ":" +:+ zero_pad 2 (minutes mod 60).

(** ** Coroutines *)

(** The date and the time of day. *)
Abbreviation moment := (Z * Z)%type.

(** Why a message is sent: the task has no window; the coroutine started
    inside the window; the window has opened; the loop goes round, the window
    having been looked at. *)
Inductive why : Type :=
| RunOnce
| AtStart (at_ : moment)
| AtOpening (opening : moment)
| Again (seen : moment).

(** A fire in flight: its session, the date of the session and why it was
    entered. *)
Record attempt : Type := mk_attempt { a_why : why; a_session : string; a_day : Z }.

Inductive ending : Type := Expired | Done | Cancelled.

Inductive stage : Type :=
| Waiting
| Sleeping (opening : moment)
| Queued (w : why)
| Sending (a : attempt)
| Gap (a : attempt)
| Draining (a : attempt)
| Ended (e : ending).

Record coroutine : Type := mk_coroutine {
  c_obj : nat;
  c_stage : stage;
  (** ghost: the openings slept for, latest first; the last reading of the
      clock; whether no reading went back and no sleep ended early *)
  c_openings : list moment;
  c_seen : option moment;
  c_steady : bool
}.

Definition queued (k : coroutine) : bool := match c_stage k with Queued _ => true | _ => false end.
(** It has its permit and has set the flag. *)
Definition holds (k : coroutine) : bool := match c_stage k with Sending _ | Gap _ | Draining _ => true | _ => false end.

(** The mutable part of a task object. *)
Record live_task : Type := mk_live {
  o_item : item;
  o_running : bool;
  o_last_fire : option Z;
  o_last_success : option Z
}.

(** The [Message] of a fire. *)
Record request : Type := mk_request {
  q_prompt : string;
  q_session_id : string;
  q_kind : string;
  q_model : option string;
  q_backend_id : option string;
  q_consensus : list consensus_entry;
  q_max_tokens : option Z
}.

Definition fire_message (environ : string -> option string) (it : item) (session : string) : request :=
  {| q_prompt := prompt_text environ ("Task: " +:+ name it +:+ String nl (String nl (content it)));
     q_session_id := session;
     q_kind := "task:" +:+ name it;
     q_model := model it;
     q_backend_id := backend_id it;
     q_consensus := consensus it;
     q_max_tokens := max_tokens it |}.

(** How [bus.send] ends: with a response, or an exception by its [repr]. *)
Inductive result : Type := Answered (response : string) | Failed (error : string).

Definition window_field (it : item) : list (string * pyval) :=
  match window_start it, window_end it with
  | Some ws, Some we => [("window", VStr (hh_mm ws +:+ "-" +:+ hh_mm we))]
  | _, _ => []
  end.

(** The payload of [task.fired]; [us] is the measured duration. *)
Definition task_event (it : item) (us : Z) (r : result) : pydict :=
  mk_dict ([("name", VStr (name it)); ("duration_ms", VInt (us / 1000));
            ("outcome", VStr (match r with Answered _ => "success" | Failed _ => "error" end))]
           ++ match r with Answered _ => [] | Failed e => [("error", VStr (str_take (Z.to_nat 512) e))] end
           ++ window_field it).

Definition checkpoint (it : item) : string := stem (path it) +:+ ".running.json".

(** A message that was sent: by which coroutine, why, and under which date. *)
Record sent : Type := mk_sent { s_call : nat; s_why : why; s_day : Z; s_request : request }.

Record world : Type := mk_world {
  t_sem : option semaphore;
  t_calls : gmap nat coroutine;
  t_objs : gmap nat live_task;
  (** the gauge of running items *)
  t_gauge : Z;
  t_files : gset string;
  (** ghost: what was sent and announced, latest first *)
  t_sent : list sent;
  t_events : list (nat * pydict);
  t_next : nat
}.

Definition initial_world (cap : Z) (files : gset string) : world := mk_world (new_pool cap) ∅ ∅ 0 files [] [] 0.

Definition set_call (w : world) (sem : option semaphore) (c : nat) (k : coroutine) : world :=
  mk_world sem (<[c := k]> (t_calls w)) (t_objs w) (t_gauge w) (t_files w) (t_sent w) (t_events w) (t_next w).

Definition set_files (w : world) (files : gset string) : world :=
  mk_world (t_sem w) (t_calls w) (t_objs w) (t_gauge w) files (t_sent w) (t_events w) (t_next w).

(** *** The ghost clock *)

Definition not_before (m m' : moment) : bool := (m.1 <? m'.1) || ((m.1 =? m'.1) && (m.2 <=? m'.2)).

(** The clock is read. *)
Definition see (k : coroutine) (m : moment) : coroutine :=
  mk_coroutine (c_obj k) (c_stage k) (c_openings k) (Some m)
    (c_steady k && match c_seen k with Some m0 => not_before m0 m | None => true end).

(** The sleep for an opening ends. *)
Definition wake (k : coroutine) (opening m : moment) : coroutine :=
  let k := see k m in
  mk_coroutine (c_obj k) (c_stage k) (c_openings k) (c_seen k) (c_steady k && not_before opening m).

Definition set_stage (k : coroutine) (s : stage) : coroutine :=
  mk_coroutine (c_obj k) s (c_openings k) (c_seen k) (c_steady k).

(** The sweep of [_scan]: every checkpoint is deleted, if it can be. *)
Definition sweep (kept : gset string) (w : world) : world :=
  set_files w (filter (fun f => endswith ".running.json" f = false \/ f ∈ kept) (t_files w)).

Section Run.
Variable croniter_next : string -> Z -> Z.
(** [str(uuid.uuid5(NAMESPACE_URL, name))] and [AGENT_NAME]. *)
Variable uuid5 : string -> string.
Variable agent_name : string.

Definition inside (it : item) (m : moment) : bool :=
  match window_start it with Some ws => inside_window croniter_next it ws m.1 m.2 | None => false end.

Definition day_session_id (it : item) (day : Z) : string :=
  uuid5 (agent_name +:+ "." +:+ stem (path it) +:+ "." +:+ isoformat day).

Definition once_session_id (it : item) : string := uuid5 (agent_name +:+ "." +:+ stem (path it)).

(** What the steps below decide about the environment of a fire: [os.environ],
    the time, and whether the checkpoint can be written. *)
Record fire_env : Type := mk_env { f_environ : string -> option string; f_now : Z; f_write_ok : bool }.

(** The message of an attempt is sent; the loop goes to its await. *)
Definition send (f : fire_env) (w : world) (c : nat) (k : coroutine) (j : live_task) (a : attempt) : world :=
  mk_world (t_sem w) (<[c := set_stage k (Sending a)]> (t_calls w))
    (<[c_obj k := mk_live (o_item j) true (Some (f_now f)) (o_last_success j)]> (t_objs w))
    (t_gauge w) (t_files w)
    (mk_sent c (a_why a) (a_day a) (fire_message (f_environ f) (o_item j) (a_session a)) :: t_sent w) (t_events w) (t_next w).

(** From the permit to the await of the message: the flag, the gauge, the
    session of the day (of [m]) or of the file, the checkpoint. *)
Definition enter (f : fire_env) (m : moment) (w : world) (c : nat) (k : coroutine) (j : live_task) (y : why) : world :=
  let a := match y with
           | RunOnce => mk_attempt y (once_session_id (o_item j)) 0
           | _ => mk_attempt y (day_session_id (o_item j) m.1) m.1
           end in
  let w := mk_world (t_sem w) (t_calls w) (t_objs w) (t_gauge w + 1)
             (if f_write_ok f then {[checkpoint (o_item j)]} ∪ t_files w else t_files w) (t_sent w) (t_events w) (t_next w) in
  send f w c k j a.

(** [await semaphore.acquire()], and on when the permit is there. *)
Definition acquire_and_enter (f : fire_env) (m : moment) (w : world) (c : nat) (k : coroutine) (j : live_task) (y : why) : world :=
  match t_sem w with
  | None => enter f m w c k j y
  | Some s =>
      let '(mine, s) := acquire s c in
      if mine then enter f m (set_call w (Some s) c k) c k j y else set_call w (Some s) c (set_stage k (Queued y))
  end.

(** The head of the [while] loop when nothing is fired at once. *)
Definition next_window (k : coroutine) (it : item) (m : moment) : coroutine :=
  match next_window_open croniter_next it m.1 m.2 with
  | None => set_stage k (Ended Expired)
  | Some opening => mk_coroutine (c_obj k) (Sleeping opening) (opening :: c_openings k) (c_seen k) (c_steady k)
  end.

(** A fire is due: skipped while the item runs already. *)
Definition try_fire (f : fire_env) (m : moment) (w : world) (c : nat) (k : coroutine) (j : live_task) (y : why) : world :=
  if o_running j then set_call w (t_sem w) c (next_window k (o_item j) m)
  else acquire_and_enter f m w c k j y.

(** The part of [run_task] before its loop, once the backends are ready: a
    stale checkpoint goes, if it can be deleted. *)
Definition startup (f : fire_env) (delete_ok : bool) (m m' : moment) (w : world) (c : nat) (k : coroutine) (j : live_task) : world :=
  let it := o_item j in
  let k := see (see k m) m' in
  let w := if delete_ok then set_files w (t_files w ∖ {[checkpoint it]}) else w in
  if inside it m then try_fire f m' w c k j (AtStart m) else set_call w (t_sem w) c (next_window k it m').

(** The message has its answer: the announcement. *)
Definition announce (now us : Z) (r : result) (w : world) (c : nat) (k : coroutine) (j : live_task) : world :=
  mk_world (t_sem w) (t_calls w)
    (<[c_obj k := mk_live (o_item j) (o_running j) (o_last_fire j)
                    (match r with Answered _ => Some now | Failed _ => o_last_success j end)]> (t_objs w))
    (t_gauge w) (t_files w) (t_sent w) ((c, task_event (o_item j) us r) :: t_events w) (t_next w).

(** The [finally] clause, and where the coroutine goes. *)
Definition leave (delete_ok : bool) (w : world) (c : nat) (k : coroutine) (j : live_task) : world :=
  mk_world (release <$> t_sem w) (<[c := k]> (t_calls w))
    (<[c_obj k := mk_live (o_item j) false (o_last_fire j) (o_last_success j)]> (t_objs w))
    (t_gauge w - 1) (if delete_ok then t_files w ∖ {[checkpoint (o_item j)]} else t_files w)
    (t_sent w) (t_events w) (t_next w).

(** What follows an answer inside a window. *)
Inductive next : Type := Stop | Wait | GoOn.

Definition after_answer (it : item) (r : result) (m : moment) : next :=
  match r with
  | Failed _ => Stop
  | Answered response =>
      if negb (loop it) || match window_end it with None => true | Some _ => false end then Stop
      else if match done_when it with
              | Some t => negb (bool_decide (t = "")) && negb (bool_decide (response = "")) && str_contains t response
              | None => false
              end then Stop
      else if negb (inside it m) then Stop
      else match loop_gap it with Some g => if g =? 0 then GoOn else Wait | None => GoOn end
  end.

(** The window is looked at once more, after the gap: the loop goes round with
    the session of the date of [m'], or the run is over and the next window
    is computed. *)
Definition go_on (f : fire_env) (delete_ok : bool) (m m' : moment) (w : world) (c : nat) (k : coroutine) (j : live_task)
    (a : attempt) : world :=
  let it := o_item j in
  if inside it m then
    let a := if a_day a =? m'.1 then mk_attempt (Again m) (a_session a) (a_day a)
             else mk_attempt (Again m) (day_session_id it m'.1) m'.1 in
    send f w c (see k m') j a
  else leave delete_ok w c (next_window (see k m') it m') j.

Definition object_of (w : world) (k : coroutine) (j : live_task) : Prop := t_objs w !! c_obj k = Some j.

Inductive step : world -> world -> Prop :=
(** a task is registered; a coroutine is created for it, or ad hoc *)
| st_object w o it : t_objs w !! o = None ->
    step w (mk_world (t_sem w) (t_calls w) (<[o := mk_live it false None None]> (t_objs w)) (t_gauge w) (t_files w)
                       (t_sent w) (t_events w) (t_next w))
| st_spawn w o j : t_objs w !! o = Some j ->
    step w (mk_world (t_sem w) (<[t_next w := mk_coroutine o Waiting [] None true]> (t_calls w)) (t_objs w) (t_gauge w)
                         (t_files w) (t_sent w) (t_events w) (S (t_next w)))
| st_sweep w kept : step w (sweep kept w)
| st_once w c k j f m : t_calls w !! c = Some k -> c_stage k = Waiting -> object_of w k j -> window_start (o_item j) = None ->
    step w (acquire_and_enter f m w c k j RunOnce)
| st_start w c k j f ok m m' : t_calls w !! c = Some k -> c_stage k = Waiting -> object_of w k j ->
    is_Some (window_start (o_item j)) ->
    step w (startup f ok m m' w c k j)
| st_wake w c k j f m opening : t_calls w !! c = Some k -> c_stage k = Sleeping opening -> object_of w k j ->
    step w (try_fire f m w c (wake k opening m) j (AtOpening opening))
| st_permit w c k j f m s y : t_calls w !! c = Some k -> c_stage k = Queued y -> object_of w k j ->
    t_sem w = Some s -> (c, true) ∈ sem_waiters s ->
    step w (enter f m (set_call w (Some (resume s c)) c k) c (see k m) j y)
| st_once_answer w c k j a r now us ok : t_calls w !! c = Some k -> c_stage k = Sending a -> a_why a = RunOnce ->
    object_of w k j -> 0 <= us ->
    step w (let w' := announce now us r w c k j in
                     leave ok w' c (set_stage k (Ended Done)) (default j (t_objs w' !! c_obj k)))
| st_answer w c k j a r now us f ok m m' m'' : t_calls w !! c = Some k -> c_stage k = Sending a -> a_why a <> RunOnce ->
    object_of w k j -> 0 <= us ->
    step w (let w' := announce now us r w c k j in
                     let j' := default j (t_objs w' !! c_obj k) in
                     let k := see k m in
                     match after_answer (o_item j) r m with
                     | Stop => leave ok w' c (next_window (see k m') (o_item j) m') j'
                     | Wait => set_call w' (t_sem w') c (set_stage k (Gap a))
                     | GoOn => go_on f ok m' m'' w' c (see k m') j' a
                     end)
| st_gap w c k j a f ok m m' : t_calls w !! c = Some k -> c_stage k = Gap a -> object_of w k j ->
    step w (go_on f ok m m' w c (see k m) j a)
(** cancellations: before the permit, in the queue, with a message in flight,
    whose answer is in or not, and within the gap *)
| st_cancel w c k : t_calls w !! c = Some k -> (c_stage k = Waiting \/ exists opening, c_stage k = Sleeping opening) ->
    step w (set_call w (t_sem w) c (set_stage k (Ended Cancelled)))
| st_cancel_queued w c k s b y : t_calls w !! c = Some k -> c_stage k = Queued y -> t_sem w = Some s -> (c, b) ∈ sem_waiters s ->
    step w (set_call w (Some (abandon s c)) c (set_stage k (Ended Cancelled)))
| st_drain w c k a : t_calls w !! c = Some k -> c_stage k = Sending a ->
    step w (set_call w (t_sem w) c (set_stage k (Draining a)))
| st_cancel_held w c k j ok : t_calls w !! c = Some k -> holds k = true -> object_of w k j ->
    step w (leave ok w c (set_stage k (Ended Cancelled)) j).
End Run.

(** ** Lemmas: the clock *)

Definition before_or_at (m m' : moment) : Prop := m.1 < m'.1 \/ m.1 = m'.1 /\ m.2 <= m'.2.

Lemma not_before_true m m' : not_before m m' = true <-> before_or_at m m'.
Proof. unfold not_before, before_or_at. boolp. lia. Qed.

Lemma before_or_at_trans m1 m2 m3 : before_or_at m1 m2 -> before_or_at m2 m3 -> before_or_at m1 m3.
Proof. unfold before_or_at. lia. Qed.

Lemma see_steady k m : c_steady (see k m) = true ->
  c_steady k = true /\ forall m0, c_seen k = Some m0 -> before_or_at m0 m.
Proof.
  cbn. intros [Hk Hm]%andb_true_iff. split; [done|]. intros m0 Hs. rewrite Hs in Hm. by apply not_before_true.
Qed.

(** ** The invariant *)

Section Invariant.
Variable croniter_next : string -> Z -> Z.
Variable uuid5 : string -> string.
Variable agent_name : string.

Abbreviation eligible := (eligible croniter_next).
Abbreviation inside := (inside croniter_next).
Abbreviation day_session_id := (day_session_id uuid5 agent_name).
Abbreviation once_session_id := (once_session_id uuid5 agent_name).

(** The reasons for a message. *)
Definition justified (it : item) (y : why) : Prop :=
  match y with
  | RunOnce => window_start it = None
  | AtStart m => inside it m = true
  | AtOpening (d, t) => window_start it = Some t /\ eligible it d
  | Again m => loop it = true /\ is_Some (window_end it) /\ inside it m = true
  end.

Definition attempt_ok (it : item) (a : attempt) : Prop :=
  justified it (a_why a) /\
  a_session a = (match a_why a with RunOnce => once_session_id it | _ => day_session_id it (a_day a) end).

Definition loops (it : item) : Prop := is_Some (window_start it) /\ loop it = true /\ is_Some (window_end it).

Definition stage_ok (it : item) (st : stage) : Prop :=
  match st with
  | Sleeping opening => justified it (AtOpening opening)
  | Queued y => justified it y
  | Sending a | Draining a => attempt_ok it a
  | Gap a => attempt_ok it a /\ a_why a <> RunOnce /\ loops it
  | Waiting | Ended _ => True
  end.

(** The opening the coroutine has not fired for yet. *)
Definition due (st : stage) : option moment :=
  match st with Sleeping opening | Queued (AtOpening opening) => Some opening | _ => None end.

(** The openings that are behind it. *)
Definition settled (k : coroutine) : list moment :=
  match due (c_stage k) with Some _ => tail (c_openings k) | None => c_openings k end.

Definition later_first (m m' : moment) : Prop := m'.1 < m.1.

Definition steady_ok (k : coroutine) : Prop :=
  c_steady k = true -> StronglySorted later_first (c_openings k) /\
    match c_stage k with
    | Sleeping _ | Ended _ => True
    | _ => forall m, m ∈ c_openings k -> exists m', c_seen k = Some m' /\ before_or_at m m'
    end.

Record call_ok (it : item) (k : coroutine) : Prop := {
  co_stage : stage_ok it (c_stage k);
  co_openings : Forall (fun m => justified it (AtOpening m)) (c_openings k);
  co_due : forall m, due (c_stage k) = Some m -> head (c_openings k) = Some m;
  co_steady : steady_ok k
}.

Definition send_ok (it : item) (s : sent) : Prop :=
  exists environ session, s_request s = fire_message environ it session /\
    attempt_ok it (mk_attempt (s_why s) session (s_day s)).

(** The openings a coroutine has fired for. *)
Definition opened (c : nat) (ss : list sent) : list moment :=
  omap (fun s => if decide (s_call s = c) then match s_why s with AtOpening m => Some m | _ => None end else None) ss.

Definition same_items (objs objs' : gmap nat live_task) : Prop :=
  forall o j, objs !! o = Some j -> exists j', objs' !! o = Some j' /\ o_item j' = o_item j.

Definition flags_ok (calls : gmap nat coroutine) (objs : gmap nat live_task) : Prop :=
  forall o j, objs !! o = Some j -> o_running j = true ->
    exists c k, calls !! c = Some k /\ c_obj k = o /\ holds k = true.

Record tinv (cap : Z) (w : world) : Prop := {
  ti_fresh : forall c k, t_calls w !! c = Some k -> (c < t_next w)%nat;
  ti_call : forall c k, t_calls w !! c = Some k -> exists j, t_objs w !! c_obj k = Some j /\ call_ok (o_item j) k;
  ti_pool : pool_inv queued holds cap (t_sem w) (t_calls w);
  ti_gauge : t_gauge w = Z.of_nat (holders holds (t_calls w));
  ti_flags : flags_ok (t_calls w) (t_objs w);
  ti_sent : forall s, s ∈ t_sent w -> exists k j, t_calls w !! s_call s = Some k /\ t_objs w !! c_obj k = Some j /\
            send_ok (o_item j) s;
  ti_opened : forall c k, t_calls w !! c = Some k -> opened c (t_sent w) `sublist_of` settled k;
  ti_events : forall c p, (c, p) ∈ t_events w -> exists o j us r,
              t_objs w !! o = Some j /\ 0 <= us /\ p = task_event (o_item j) us r
}.

Lemma initial_world_inv cap files : tinv cap (initial_world cap files).
Proof.
  split; cbn; try done.
  - apply new_pool_inv.
  - intros s Hs. by apply elem_of_nil in Hs.
  - intros c p Hp. by apply elem_of_nil in Hp.
Qed.

Lemma task_items_refl objs : same_items objs objs.
Proof. intros o j Hj. by exists j. Qed.

Lemma task_items_insert objs o j j1 :
  objs !! o = Some j -> o_item j1 = o_item j -> same_items objs (<[o := j1]> objs).
Proof.
  intros Ho Hi o' j' Hj'. destruct (decide (o' = o)) as [->|Hne].
  - rewrite lookup_insert_eq. exists j1. split; [done|congruence].
  - rewrite lookup_insert_ne by done. by exists j'.
Qed.

Lemma opened_cons c s ss :
  opened c (s :: ss) =
  (if decide (s_call s = c) then match s_why s with AtOpening m => [m] | _ => [] end else []) ++ opened c ss.
Proof. unfold opened. cbn. case_decide; [|done]. by destruct (s_why s). Qed.

(** One coroutine moves, with what it does to the rest. *)
Lemma tinv_update cap w sem' c k' objs' g' files' sent' events' n' :
  tinv cap w -> same_items (t_objs w) objs' ->
  (c < n')%nat -> (t_next w <= n')%nat ->
  (forall k, t_calls w !! c = Some k -> c_obj k' = c_obj k) ->
  (exists j', objs' !! c_obj k' = Some j' /\ call_ok (o_item j') k') ->
  pool_inv queued holds cap sem' (<[c := k']> (t_calls w)) ->
  g' = Z.of_nat (holders holds (<[c := k']> (t_calls w))) ->
  flags_ok (<[c := k']> (t_calls w)) objs' ->
  (sent' = t_sent w \/ exists s j', sent' = s :: t_sent w /\ s_call s = c /\ objs' !! c_obj k' = Some j' /\ send_ok (o_item j') s) ->
  opened c sent' `sublist_of` settled k' ->
  (forall c p, (c, p) ∈ events' -> (c, p) ∈ t_events w \/ exists o j us r,
     objs' !! o = Some j /\ 0 <= us /\ p = task_event (o_item j) us r) ->
  tinv cap (mk_world sem' (<[c := k']> (t_calls w)) objs' g' files' sent' events' n').
Proof.
  intros [H1 H2 H3 H4 H5 H6 H7 H8] Hobj Hc Hn Hk Hcall Hpool Hg Hfl Hsent Hop Hev.
  split; cbn [t_sem t_calls t_objs t_gauge t_files t_sent t_events t_next]; try done.
  - intros c' k0. intros [[<- _]|[_ Hk0]]%lookup_insert_Some; [done|]. apply H1 in Hk0. lia.
  - intros c' k0. intros [[<- <-]|[_ Hk0]]%lookup_insert_Some; [done|]. destruct (H2 _ _ Hk0) as (j & Hj & Hok).
    destruct (Hobj _ _ Hj) as (j' & Hj' & Hi). exists j'. by rewrite Hi.
  - assert (Hold : forall s, s ∈ t_sent w -> exists k0 j0, <[c:=k']> (t_calls w) !! s_call s = Some k0 /\
      objs' !! c_obj k0 = Some j0 /\ send_ok (o_item j0) s).
    { intros s (k0 & j & Hk0 & Hj & Hs)%H6. destruct (Hobj _ _ Hj) as (j' & Hj' & Hi). rewrite <-Hi in Hs.
      destruct (decide (s_call s = c)) as [Hsc|Hne].
      - exists k', j'. rewrite Hsc, lookup_insert_eq. split_and!; [done| |done]. rewrite Hsc in Hk0. by rewrite (Hk _ Hk0).
      - exists k0, j'. by rewrite lookup_insert_ne. }
    destruct Hsent as [->|(s & j' & -> & Hsc & Hj' & Hs)]; [done|]. intros s' [->|Hin]%elem_of_cons; [|by apply Hold].
    exists k', j'. by rewrite Hsc, lookup_insert_eq.
  - intros c' k0. intros [[<- <-]|[Hne Hk0]]%lookup_insert_Some; [done|].
    destruct Hsent as [->|(s & j' & -> & Hsc & _)]; [by apply H7|]. rewrite opened_cons, decide_False by congruence. by apply H7.
  - intros c' p [Hin|?]%Hev; [|done]. destruct (H8 _ _ Hin) as (o & j & us & r & Hj & Hus & ->).
    destruct (Hobj _ _ Hj) as (j' & Hj' & Hi). exists o, j', us, r. by rewrite Hi.
Qed.

(** *** What a coroutine remembers *)

Record past_ok (it : item) (k : coroutine) : Prop := {
  po_openings : Forall (fun m => justified it (AtOpening m)) (c_openings k);
  po_sorted : c_steady k = true -> StronglySorted later_first (c_openings k);
  po_seen : c_steady k = true -> forall m, m ∈ c_openings k -> exists m', c_seen k = Some m' /\ before_or_at m m'
}.

Lemma past_awake it k :
  call_ok it k -> match c_stage k with Sleeping _ | Ended _ => False | _ => True end -> past_ok it k.
Proof.
  intros [H1 H2 H3 H4] Hs. split; [done|apply H4|]. intros Hk. destruct (H4 Hk) as [_ Hseen]. by destruct (c_stage k).
Qed.

Lemma past_see it k m : past_ok it k -> past_ok it (see k m).
Proof.
  intros [H1 H2 H3]. split; [done| |]; intros [Hk Hm]%see_steady; [by apply H2|].
  intros m0 (m' & Hs & Hle)%H3; [|done]. exists m. split; [done|]. eapply before_or_at_trans; [exact Hle|by apply Hm].
Qed.

(** The end of a sleep. *)
Lemma past_wake it k opening m : call_ok it k -> c_stage k = Sleeping opening ->
  past_ok it (wake k opening m) /\ head (c_openings k) = Some opening.
Proof.
  intros [H1 H2 H3 H4] Hs. assert (Hhead : head (c_openings k) = Some opening) by (apply H3; by rewrite Hs).
  split; [|done]. split; cbn [wake see c_openings c_steady c_seen]; [done| |]; intros [[Hk _]%andb_true_iff Hle]%andb_true_iff.
  - by apply H4.
  - apply not_before_true in Hle. destruct (H4 Hk) as [Hsort _]. destruct (c_openings k) as [|m0 rest]; [done|].
    injection Hhead as ->. apply StronglySorted_inv in Hsort as [_ Hall]. rewrite Forall_forall in Hall.
    intros m1 [->|Hin]%elem_of_cons; exists m; (split; [done|]); [done|].
    specialize (Hall _ Hin). unfold later_first, before_or_at in *. lia.
Qed.

Lemma call_ok_stage it k st :
  past_ok it k -> stage_ok it st -> (forall m, due st = Some m -> head (c_openings k) = Some m) ->
  call_ok it (set_stage k st).
Proof.
  intros [H1 H2 H3] Hst Hd. split; [done|done|done|]. intros Hk. split; [by apply H2|].
  cbn [set_stage c_stage c_openings c_seen]. by destruct st; try apply H3.
Qed.

(** The next window is later than every one before. *)
Lemma next_window_ok it k m :
  past_ok it k -> c_seen k = Some m -> is_Some (window_start it) ->
  call_ok it (next_window croniter_next k it m) /\ settled (next_window croniter_next k it m) = c_openings k /\
  c_obj (next_window croniter_next k it m) = c_obj k /\ quiet queued holds (next_window croniter_next k it m).
Proof.
  intros Hp Hm [ws Hws]. pose proof (next_window_open_sound croniter_next it ws m.1 m.2) as Hn. unfold next_window.
  destruct (next_window_open croniter_next it m.1 m.2) as [[d t]|].
  - destruct (Hn d t Hws eq_refl) as (-> & Hafter & Hel). split_and!; [|done|done|done]. destruct Hp as [H1 H2 H3]. split.
    + done.
    + by constructor.
    + by intros m' [= <-].
    + intros Hk. cbn in Hk. split; [|done]. cbn. constructor; [by apply H2|]. rewrite Forall_forall. intros m0 Hin.
      destruct (H3 Hk m0 Hin) as (m' & Hm' & Hle). assert (m' = m) as -> by congruence.
      rewrite Forall_forall in H1. specialize (H1 m0 Hin). destruct m0 as [d0 t0]. destruct H1 as [Ht0 _].
      unfold later_first, before_or_at, opens_after in *. cbn in *. assert (t0 = ws) by congruence. lia.
  - split_and!; [|done|done|done]. by apply call_ok_stage.
Qed.

(** A cancelled coroutine only remembers; a sleep may be cut short. *)
Lemma cancelled_ok it k : call_ok it k -> call_ok it (set_stage k (Ended Cancelled)).
Proof. intros [H1 H2 H3 H4]. split; [done|done|done|]. intros Hk. by split; [apply H4|]. Qed.

Lemma settled_sub k : settled k `sublist_of` c_openings k.
Proof. unfold settled. destruct (due _); [|done]. destruct (c_openings k); [done|by constructor]. Qed.

Lemma attempt_window it a : attempt_ok it a -> a_why a <> RunOnce -> is_Some (window_start it).
Proof.
  intros [Hj _] Hy. unfold TaskRuns.inside in *. destruct (a_why a) as [|m|[d t]|m]; [done| | |]; cbn in Hj; unfold TaskRuns.inside in Hj.
  - by destruct (window_start it).
  - destruct Hj as [-> _]. done.
  - destruct Hj as (_ & _ & Hj). by destruct (window_start it).
Qed.

Lemma after_answer_loops it r m n : after_answer croniter_next it r m = n -> n <> Stop -> loops it.
Proof.
  unfold after_answer. intros <- Hn. destruct r as [resp|]; [|done].
  destruct (negb (loop it) || _) eqn:E; [done|]. apply orb_false_iff in E as [El Ew]. apply negb_false_iff in El.
  destruct (match done_when it with Some _ => _ | None => _ end); [done|].
  unfold TaskRuns.inside in Hn. split_and!; [|done|by destruct (window_end it)]. by destruct (window_start it).
Qed.

(** [c] may fire for [y]: what it has fired for lies behind. *)
Record ready (c : nat) (ss : list sent) (k : coroutine) (y : why) : Prop := {
  rd_opened : opened c ss `sublist_of` (match y with AtOpening _ => tail (c_openings k) | _ => c_openings k end);
  rd_head : forall m, y = AtOpening m -> head (c_openings k) = Some m
}.

Lemma ready_sent c ss k y s :
  ready c ss k y -> s_call s = c -> s_why s = y -> opened c (s :: ss) `sublist_of` c_openings k.
Proof.
  intros [H1 H2] Hc Hy. rewrite opened_cons, decide_True, Hy by done. destruct y as [|m|m|m]; try done.
  specialize (H2 m eq_refl). destruct (c_openings k) as [|m0 rest]; [done|]. injection H2 as ->. cbn in *. by constructor.
Qed.

Lemma ready_queued c ss k y :
  ready c ss k y -> opened c ss `sublist_of` settled (set_stage k (Queued y)) /\
  forall m, due (Queued y) = Some m -> head (c_openings k) = Some m.
Proof. intros [H1 H2]. split; [by destruct y|]. intros m. destruct y; try done. intros [= ->]. by apply H2. Qed.

Lemma ready_skip c ss k y : ready c ss k y -> opened c ss `sublist_of` c_openings k.
Proof.
  intros [H1 _]. destruct y as [|m|m|m]; try done. etransitivity; [exact H1|]. destruct (c_openings k); [done|by constructor].
Qed.

Lemma opened_fresh c ss : (forall s, s ∈ ss -> s_call s <> c) -> opened c ss = [].
Proof.
  induction ss as [|s ss IH]; intros Hs; [done|]. rewrite opened_cons, decide_False by (apply Hs; by left).
  apply IH. intros s' Hs'. apply Hs. by right.
Qed.

(** *** The operations *)

Lemma flags_hold calls objs c k' j1 :
  (forall k, calls !! c = Some k -> c_obj k' = c_obj k) -> holds k' = true ->
  flags_ok calls objs -> flags_ok (<[c := k']> calls) (<[c_obj k' := j1]> objs).
Proof.
  intros Hk Hh Hf o j Hj Hr. destruct (decide (o = c_obj k')) as [->|Hne].
  - exists c, k'. by rewrite lookup_insert_eq.
  - rewrite lookup_insert_ne in Hj by done. destruct (Hf _ _ Hj Hr) as (c' & k & Hc & Ho & Hh').
    exists c', k. split; [|done]. rewrite lookup_insert_ne; [done|]. intros <-. apply Hk in Hc. congruence.
Qed.

Lemma flags_quit calls objs c k' j1 :
  (forall k, calls !! c = Some k -> c_obj k' = c_obj k) -> o_running j1 = false ->
  flags_ok calls objs -> flags_ok (<[c := k']> calls) (<[c_obj k' := j1]> objs).
Proof.
  intros Hk Hr1 Hf o j Hj Hr. destruct (decide (o = c_obj k')) as [->|Hne].
  - rewrite lookup_insert_eq in Hj. congruence.
  - rewrite lookup_insert_ne in Hj by done. destruct (Hf _ _ Hj Hr) as (c' & k & Hc & Ho & Hh').
    exists c', k. split; [|done]. rewrite lookup_insert_ne; [done|]. intros <-. apply Hk in Hc. congruence.
Qed.

(** A coroutine that holds nothing moves without taking anything. *)
Lemma flags_idle calls objs c k0 k' :
  calls !! c = Some k0 -> holds k0 = false \/ (holds k' = true /\ c_obj k' = c_obj k0) ->
  flags_ok calls objs -> flags_ok (<[c := k']> calls) objs.
Proof.
  intros Hc Hh Hf o j Hj Hr. destruct (Hf _ _ Hj Hr) as (c' & k & Hc' & Ho & Hk).
  destruct (decide (c' = c)) as [->|Hne].
  - destruct Hh as [Hh|[Hh Hob]]; [congruence|]. exists c, k'. rewrite lookup_insert_eq. split_and!; [done| |done]. congruence.
  - exists c', k. by rewrite lookup_insert_ne.
Qed.

Lemma holders_take calls c k0 k' :
  calls !! c = Some k0 -> holds k0 = false ->
  holders holds (<[c := k']> calls) = (holders holds calls + if holds k' then 1 else 0)%nat.
Proof. intros Hc Hh. pose proof (holders_insert holds calls c k') as Hn. rewrite Hc in Hn. cbn in Hn. rewrite Hh in Hn. lia. Qed.

Lemma holders_give calls c k0 k' :
  calls !! c = Some k0 -> holds k0 = true ->
  S (holders holds (<[c := k']> calls)) = (holders holds calls + if holds k' then 1 else 0)%nat.
Proof. intros Hc Hh. pose proof (holders_insert holds calls c k') as Hn. rewrite Hc in Hn. cbn in Hn. rewrite Hh in Hn. lia. Qed.

(** A coroutine that does not hold its permit, before and after. *)
Lemma task_set_call_inv cap w sem' c k0 k' j :
  tinv cap w -> t_calls w !! c = Some k0 -> holds k0 = false -> holds k' = false -> c_obj k' = c_obj k0 ->
  t_objs w !! c_obj k0 = Some j -> call_ok (o_item j) k' -> opened c (t_sent w) `sublist_of` settled k' ->
  pool_inv queued holds cap sem' (<[c := k']> (t_calls w)) -> tinv cap (set_call w sem' c k').
Proof.
  intros Hw Hc Hh Hh' Ho Hj Hok Hop Hpool. apply tinv_update; try done.
  - apply task_items_refl.
  - by eapply ti_fresh.
  - intros k1 Hk1. congruence.
  - exists j. by rewrite Ho.
  - rewrite (holders_take _ _ _ _ Hc Hh), Hh', (ti_gauge _ _ Hw). lia.
  - eapply flags_idle; [done|by left|apply Hw].
  - by left.
  - by left.
Qed.

(** A message is sent by a coroutine that holds its permit, or takes it. *)
Lemma send_inv cap w sem' g files f c k0 k j a :
  tinv cap w -> t_calls w !! c = Some k0 -> c_obj k = c_obj k0 -> t_objs w !! c_obj k0 = Some j ->
  past_ok (o_item j) k -> attempt_ok (o_item j) a -> ready c (t_sent w) k (a_why a) ->
  pool_inv queued holds cap sem' (<[c := set_stage k (Sending a)]> (t_calls w)) ->
  g = Z.of_nat (holders holds (<[c := set_stage k (Sending a)]> (t_calls w))) ->
  tinv cap (send f (mk_world sem' (t_calls w) (t_objs w) g files (t_sent w) (t_events w) (t_next w)) c k j a).
Proof.
  intros Hw Hc Ho Hj Hp Ha Hr Hpool Hg. rewrite <-Ho in Hj.
  assert (Hk : forall k1, t_calls w !! c = Some k1 -> c_obj (set_stage k (Sending a)) = c_obj k1) by (intros k1 Hk1; cbn; congruence).
  set (j1 := mk_live (o_item j) true (Some (f_now f)) (o_last_success j)).
  unfold send. cbn [t_sem t_calls t_objs t_gauge t_files t_sent t_events t_next]. fold j1.
  apply tinv_update; try done.
  - by eapply task_items_insert.
  - by eapply ti_fresh.
  - exists j1. cbn [set_stage c_obj]. rewrite lookup_insert_eq. split; [done|]. by apply call_ok_stage.
  - apply (flags_hold _ _ _ (set_stage k (Sending a))); [exact Hk|done|apply Hw].
  - right. eexists _, j1. split_and!; [done|done|cbn [set_stage c_obj]; by rewrite lookup_insert_eq|].
    exists (f_environ f), (a_session a). split; [done|]. by destruct a.
  - by apply (ready_sent c _ k (a_why a)).
  - by left.
Qed.

Lemma task_enter_inv cap w sem' f m c k0 k j y :
  tinv cap w -> t_calls w !! c = Some k0 -> holds k0 = false -> c_obj k = c_obj k0 -> t_objs w !! c_obj k0 = Some j ->
  past_ok (o_item j) k -> justified (o_item j) y -> ready c (t_sent w) k y ->
  (forall k', queued k' = false -> holds k' = true -> pool_inv queued holds cap sem' (<[c := k']> (t_calls w))) ->
  tinv cap (enter uuid5 agent_name f m (mk_world sem' (t_calls w) (t_objs w) (t_gauge w) (t_files w) (t_sent w) (t_events w) (t_next w))
              c k j y).
Proof.
  intros Hw Hc Hh Ho Hj Hp Hy Hr Hpool. unfold enter. cbn [t_sem t_calls t_objs t_gauge t_files t_sent t_events t_next].
  eapply send_inv; try done.
  - unfold attempt_ok. by destruct y.
  - by destruct y.
  - by apply Hpool.
  - rewrite (holders_take _ _ _ _ Hc Hh), (ti_gauge _ _ Hw). cbn. lia.
Qed.

Lemma enter_again sem f m w c k1 k j y :
  enter uuid5 agent_name f m (set_call w sem c k1) c k j y =
  enter uuid5 agent_name f m (mk_world sem (t_calls w) (t_objs w) (t_gauge w) (t_files w) (t_sent w) (t_events w) (t_next w)) c k j y.
Proof. unfold enter, send, set_call. cbn. by rewrite insert_insert_eq. Qed.

Lemma acquire_inv cap w f m c k0 k j y :
  tinv cap w -> t_calls w !! c = Some k0 -> quiet queued holds k0 -> c_obj k = c_obj k0 -> t_objs w !! c_obj k0 = Some j ->
  past_ok (o_item j) k -> justified (o_item j) y -> ready c (t_sent w) k y ->
  tinv cap (acquire_and_enter uuid5 agent_name f m w c k j y).
Proof.
  intros Hw Hc [Hq Hh] Ho Hj Hp Hy Hr. pose proof (ti_pool _ _ Hw) as Hpool.
  assert (Hquiet : quiet_at queued holds (t_calls w) c) by (intros k1 Hk1; assert (k1 = k0) as -> by congruence; done).
  unfold acquire_and_enter. destruct (t_sem w) as [s|] eqn:Hs.
  - destruct (acquire s c) as [mine s'] eqn:Ha. destruct mine.
    + rewrite enter_again. eapply task_enter_inv; try done. intros k' Hk1 Hk2. by eapply pool_acquire.
    + destruct (ready_queued _ _ _ _ Hr) as [Hop Hdue]. eapply task_set_call_inv; try done.
      * by apply call_ok_stage.
      * by eapply pool_acquire.
  - replace w with (mk_world None (t_calls w) (t_objs w) (t_gauge w) (t_files w) (t_sent w) (t_events w) (t_next w))
      by (destruct w; cbn in *; congruence).
    eapply (task_enter_inv cap w None); try done. intros k' Hk1 _. by apply pool_unlimited.
Qed.

Lemma try_fire_inv cap w f m c k0 k j y :
  tinv cap w -> t_calls w !! c = Some k0 -> quiet queued holds k0 -> c_obj k = c_obj k0 -> t_objs w !! c_obj k0 = Some j ->
  past_ok (o_item j) k -> c_seen k = Some m -> is_Some (window_start (o_item j)) ->
  justified (o_item j) y -> ready c (t_sent w) k y ->
  tinv cap (try_fire croniter_next uuid5 agent_name f m w c k j y).
Proof.
  intros Hw Hc Hq Ho Hj Hp Hm Hws Hy Hr. unfold try_fire. destruct (o_running j); [|by eapply acquire_inv].
  destruct (next_window_ok _ _ _ Hp Hm Hws) as (Hok & Hset & Hob & Hq1 & Hh1).
  eapply task_set_call_inv; try done; [by apply Hq|by rewrite Hob|by rewrite Hset; eapply ready_skip|].
  apply pool_quiet; [apply Hw| |done]. intros k1 Hk1. assert (k1 = k0) as -> by congruence. done.
Qed.

(** The [finally] clause of a coroutine that goes on to [k]. *)
Lemma task_leave_inv cap w ok c k0 k j :
  tinv cap w -> t_calls w !! c = Some k0 -> holds k0 = true -> c_obj k = c_obj k0 -> t_objs w !! c_obj k0 = Some j ->
  call_ok (o_item j) k -> quiet queued holds k -> settled k = c_openings k0 -> tinv cap (leave ok w c k j).
Proof.
  intros Hw Hc Hh Ho Hj Hok [Hq Hh'] Hset. unfold leave. rewrite <-Ho in Hj.
  assert (Hk : forall k1, t_calls w !! c = Some k1 -> c_obj k = c_obj k1) by (intros k1 Hk1; congruence).
  assert (Hdue : due (c_stage k0) = None) by (unfold holds in Hh; by destruct (c_stage k0)).
  apply tinv_update; try done.
  - by eapply task_items_insert.
  - by eapply ti_fresh.
  - eexists. rewrite lookup_insert_eq. by split.
  - pose proof (pool_holder queued holds cap (t_sem w) (t_calls w) c k0 k) as Hp. rewrite Hh' in Hp.
    apply Hp; [apply Hw|done|done| |done]. unfold queued, holds in *. by destruct (c_stage k0).
  - pose proof (holders_give _ _ _ k Hc Hh) as Hn. rewrite Hh' in Hn. rewrite (ti_gauge _ _ Hw). lia.
  - apply flags_quit; [exact Hk|done|apply Hw].
  - by left.
  - rewrite Hset. pose proof (ti_opened _ _ Hw _ _ Hc) as Hop. unfold settled in Hop. by rewrite Hdue in Hop.
  - by left.
Qed.

(** A holder that goes on to another stage of the same run. *)
Lemma hold_inv cap w c k0 k j :
  tinv cap w -> t_calls w !! c = Some k0 -> holds k0 = true -> holds k = true -> c_obj k = c_obj k0 ->
  t_objs w !! c_obj k0 = Some j -> call_ok (o_item j) k -> c_openings k = c_openings k0 ->
  tinv cap (set_call w (t_sem w) c k).
Proof.
  intros Hw Hc Hh Hh' Ho Hj Hok Hop. unfold set_call.
  assert (Hdue : due (c_stage k0) = None /\ due (c_stage k) = None /\ queued k0 = false /\ queued k = false)
    by (unfold holds, queued in *; destruct (c_stage k0), (c_stage k); done).
  destruct Hdue as (Hd0 & Hd & Hq0 & Hq).
  apply tinv_update; try done.
  - apply task_items_refl.
  - by eapply ti_fresh.
  - intros k1 Hk1. congruence.
  - exists j. by rewrite Ho.
  - pose proof (pool_holder queued holds cap (t_sem w) (t_calls w) c k0 k) as Hp. rewrite Hh' in Hp. apply Hp; [apply Hw|done..].
  - pose proof (holders_give _ _ _ k Hc Hh) as Hn. rewrite Hh' in Hn. rewrite (ti_gauge _ _ Hw). lia.
  - eapply flags_idle; [done|by right|apply Hw].
  - by left.
  - pose proof (ti_opened _ _ Hw _ _ Hc) as Hx. unfold settled in *. rewrite Hd0 in Hx. by rewrite Hd, Hop.
  - by left.
Qed.

(** An object keeps its definition and its flag; an event is announced. *)
Lemma objs_inv cap w o j j1 events n calls :
  tinv cap w -> t_objs w !! o = Some j -> o_item j1 = o_item j -> o_running j1 = o_running j ->
  (forall c p, (c, p) ∈ events -> (c, p) ∈ t_events w \/ exists us r, 0 <= us /\ p = task_event (o_item j) us r) ->
  calls = t_calls w -> n = t_next w ->
  tinv cap (mk_world (t_sem w) calls (<[o := j1]> (t_objs w)) (t_gauge w) (t_files w) (t_sent w) events n).
Proof.
  intros [H1 H2 H3 H4 H5 H6 H7 H8] Hj Hi Hr Hev -> ->. assert (Hobj := task_items_insert _ _ _ _ Hj Hi).
  split; cbn; try done.
  - intros c k Hk. destruct (H2 _ _ Hk) as (j0 & Hj0 & Hok). destruct (Hobj _ _ Hj0) as (j' & Hj' & Hi'). exists j'. by rewrite Hi'.
  - intros o' j'. intros [[<- <-]|[_ Hj']]%lookup_insert_Some; [|by apply H5]. rewrite Hr. by apply H5.
  - intros s (k & j0 & Hk & Hj0 & Hs)%H6. destruct (Hobj _ _ Hj0) as (j' & Hj' & Hi'). exists k, j'. by rewrite Hi'.
  - intros c p [Hin|(us & r & Hus & ->)]%Hev.
    + destruct (H8 _ _ Hin) as (o' & j0 & us & r & Hj0 & Hus & ->). destruct (Hobj _ _ Hj0) as (j' & Hj' & Hi').
      exists o', j', us, r. by rewrite Hi'.
    + exists o, j1, us, r. by rewrite lookup_insert_eq, Hi.
Qed.

Lemma task_announce_inv cap now us r w c k j :
  tinv cap w -> t_objs w !! c_obj k = Some j -> 0 <= us ->
  tinv cap (announce now us r w c k j) /\
  exists j', t_objs (announce now us r w c k j) !! c_obj k = Some j' /\ o_item j' = o_item j.
Proof.
  intros Hw Hj Hus. split.
  - eapply objs_inv; try done. intros c' p [[= -> ->]|Hin]%elem_of_cons; [right|by left]. by exists us, r.
  - eexists. cbn. by rewrite lookup_insert_eq.
Qed.

Lemma go_on_inv cap w f ok m m' c k0 k j a :
  tinv cap w -> t_calls w !! c = Some k0 -> holds k0 = true -> c_obj k = c_obj k0 -> t_objs w !! c_obj k0 = Some j ->
  past_ok (o_item j) k -> c_openings k = c_openings k0 -> attempt_ok (o_item j) a -> a_why a <> RunOnce -> loops (o_item j) ->
  tinv cap (go_on croniter_next uuid5 agent_name f ok m m' w c k j a).
Proof.
  intros Hw Hc Hh Ho Hj Hp Hop [Ha1 Ha2] Hy (Hws & Hl & Hwe). unfold go_on.
  assert (Hdue : due (c_stage k0) = None /\ queued k0 = false) by (unfold holds, queued in *; destruct (c_stage k0); done).
  destruct Hdue as [Hd Hq]. pose proof (ti_opened _ _ Hw _ _ Hc) as Hx. unfold settled in Hx. rewrite Hd in Hx.
  pose proof (past_see _ _ m' Hp) as Hp'.
  destruct (inside (o_item j) m) eqn:Hin.
  - set (a' := if a_day a =? m'.1 then _ else _).
    assert (Ha' : a_why a' = Again m /\ attempt_ok (o_item j) a').
    { unfold a'. destruct (_ =? _); (split; [done|]); (split; [done|]); [|done]. cbn. by destruct (a_why a). }
    destruct Ha' as [Hy' Ha'].
    replace w with (mk_world (t_sem w) (t_calls w) (t_objs w) (t_gauge w) (t_files w) (t_sent w) (t_events w) (t_next w)) by by destruct w.
    eapply (send_inv cap w); try done.
    + rewrite Hy'. split; [by cbn; rewrite Hop|done].
    + pose proof (pool_holder queued holds cap (t_sem w) (t_calls w) c k0 (set_stage (see k m') (Sending a'))) as Hpl.
      apply Hpl; [apply Hw|done..].
    + pose proof (holders_give _ _ _ (set_stage (see k m') (Sending a')) Hc Hh) as Hn. cbn in Hn. rewrite (ti_gauge _ _ Hw). cbn. lia.
  - destruct (next_window_ok _ _ m' Hp' eq_refl Hws) as (Hok & Hset & Hob & Hqn).
    eapply task_leave_inv; try done; [by rewrite Hob|by rewrite Hset].
Qed.

Lemma object_inv cap w o it :
  tinv cap w -> t_objs w !! o = None ->
  tinv cap (mk_world (t_sem w) (t_calls w) (<[o := mk_live it false None None]> (t_objs w)) (t_gauge w) (t_files w)
              (t_sent w) (t_events w) (t_next w)).
Proof.
  intros [H1 H2 H3 H4 H5 H6 H7 H8] Ho.
  assert (Hob : forall o' j', t_objs w !! o' = Some j' -> <[o:=mk_live it false None None]> (t_objs w) !! o' = Some j').
  { intros o' j' Hj'. rewrite lookup_insert_ne; [done|]. intros <-. congruence. }
  split; cbn; try done.
  - intros c k (j & Hj & Hok)%H2. exists j. by rewrite (Hob _ _ Hj).
  - intros o' j'. intros [[<- <-]|[_ Hj']]%lookup_insert_Some; [done|by apply H5].
  - intros s (k & j & Hk & Hj & Hs)%H6. exists k, j. by rewrite (Hob _ _ Hj).
  - intros c p (o' & j & us & r & Hj & Hus & ->)%H8. exists o', j, us, r. by rewrite (Hob _ _ Hj).
Qed.

Lemma spawn_inv cap w o j :
  tinv cap w -> t_objs w !! o = Some j ->
  tinv cap (mk_world (t_sem w) (<[t_next w := mk_coroutine o Waiting [] None true]> (t_calls w)) (t_objs w) (t_gauge w)
              (t_files w) (t_sent w) (t_events w) (S (t_next w))).
Proof.
  intros Hw Hj.
  assert (Hnone : forall k, t_calls w !! t_next w = Some k -> False) by (intros k Hk; apply (ti_fresh _ _ Hw) in Hk; lia).
  apply tinv_update; try done.
  - apply task_items_refl.
  - lia.
  - lia.
  - intros k Hk. by destruct (Hnone k).
  - exists j. split; [done|]. split; cbn; try done. intros _. split; [constructor|]. intros m Hm. by apply elem_of_nil in Hm.
  - apply pool_quiet; [apply Hw| |done]. intros k Hk. by destruct (Hnone k).
  - rewrite (holders_quiet queued) by (intros k Hk; by destruct (Hnone k)). cbn. rewrite (ti_gauge _ _ Hw). lia.
  - intros o' j' Hj' Hr. destruct (ti_flags _ _ Hw _ _ Hj' Hr) as (c & k & Hc & Hk). exists c, k.
    rewrite lookup_insert_ne; [done|]. intros <-. by destruct (Hnone k).
  - by left.
  - cbn. rewrite (opened_fresh _ (t_sent w)); [constructor|]. intros s Hs Heq.
    destruct (ti_sent _ _ Hw _ Hs) as (k & _ & Hk & _). rewrite Heq in Hk. by destruct (Hnone k).
  - by left.
Qed.

Lemma startup_inv cap w f ok m m' c k j :
  tinv cap w -> t_calls w !! c = Some k -> c_stage k = Waiting -> t_objs w !! c_obj k = Some j ->
  is_Some (window_start (o_item j)) -> call_ok (o_item j) k ->
  tinv cap (startup croniter_next uuid5 agent_name f ok m m' w c k j).
Proof.
  intros Hw Hc Hs Hj Hws Hok. assert (Hop := ti_opened _ _ Hw _ _ Hc).
  unfold settled in Hop. rewrite Hs in Hop. cbn in Hop. unfold startup. cbn zeta.
  assert (Hq : quiet queued holds k) by (unfold quiet, queued, holds; by rewrite Hs).
  assert (Hp : past_ok (o_item j) (see (see k m) m')) by (apply past_see, past_see, past_awake; [done|by rewrite Hs]).
  set (w0 := if ok then _ else w).
  assert (Hw0 : tinv cap w0 /\ t_calls w0 = t_calls w /\ t_objs w0 = t_objs w /\ t_sent w0 = t_sent w).
  { unfold w0. destruct ok; [|done]. split; [|done]. destruct Hw. by split. }
  destruct Hw0 as (Hw0 & E1 & E2 & E3). destruct (inside (o_item j) m) eqn:Hin.
  - eapply try_fire_inv; rewrite ?E1, ?E2; try done. rewrite E3. by split.
  - destruct (next_window_ok _ _ m' Hp eq_refl Hws) as (Hok' & Hset & Hob & Hq').
    eapply task_set_call_inv; rewrite ?E1, ?E2, ?E3; try done; [by apply Hq|by apply Hq'|by rewrite Hset|].
    rewrite <-E1. apply pool_quiet; [apply Hw0| |done]. rewrite E1. intros k1 Hk1. by assert (k1 = k) as -> by congruence.
Qed.

Lemma answer_inv cap w c k j a r now us f ok m m' m'' :
  tinv cap w -> t_calls w !! c = Some k -> c_stage k = Sending a -> a_why a <> RunOnce -> t_objs w !! c_obj k = Some j ->
  0 <= us -> call_ok (o_item j) k ->
  tinv cap (let w' := announce now us r w c k j in
            let j' := default j (t_objs w' !! c_obj k) in
            let k := see k m in
            match after_answer croniter_next (o_item j) r m with
            | Stop => leave ok w' c (next_window croniter_next (see k m') (o_item j) m') j'
            | Wait => set_call w' (t_sem w') c (set_stage k (Gap a))
            | GoOn => go_on croniter_next uuid5 agent_name f ok m' m'' w' c (see k m') j' a
            end).
Proof.
  intros Hw Hc Hs Hy Hj Hus Hok.
  destruct (task_announce_inv cap now us r w c k j Hw Hj Hus) as [Hw' (j' & Hj' & Hi)]. cbn zeta. rewrite Hj'. cbn [default from_option id].
  assert (Hh : holds k = true) by (unfold holds; by rewrite Hs).
  assert (Hp : past_ok (o_item j) (see k m)) by (apply past_see, past_awake; [done|by rewrite Hs]).
  assert (Hst := co_stage _ _ Hok). rewrite Hs in Hst. assert (Hws := attempt_window _ _ Hst Hy).
  destruct (after_answer croniter_next (o_item j) r m) eqn:Ha.
  - destruct (next_window_ok _ _ m' (past_see _ _ m' Hp) eq_refl Hws) as (Hok' & Hset & Hob & Hq').
    eapply (task_leave_inv cap); try done. by rewrite Hi.
  - eapply (hold_inv cap); try done. rewrite Hi. apply call_ok_stage; [done| |done]. split_and!; [exact Hst|exact Hy|].
    eapply after_answer_loops; [exact Ha|congruence].
  - eapply (go_on_inv cap); try done; rewrite ?Hi; [by apply past_see|done|].
    eapply after_answer_loops; [exact Ha|congruence].
Qed.

Lemma task_step_inv cap w w' :
  step croniter_next uuid5 agent_name w w' -> tinv cap w -> tinv cap w'.
Proof.
  intros Hst Hw.
  destruct Hst as [w o it Ho|w o j Hj|w kept|w c k j f m Hc Hs Hj Hws|w c k j f ok m m' Hc Hs Hj Hws|w c k j f m opening Hc Hs Hj
    |w c k j f m s y Hc Hs Hj Hsem Hin|w c k j a r now us ok Hc Hs Hy Hj Hus|w c k j a r now us f ok m m' m'' Hc Hs Hy Hj Hus
    |w c k j a f ok m m' Hc Hs Hj|w c k Hc Hs|w c k s b y Hc Hs Hsem Hin|w c k a Hc Hs|w c k j ok Hc Hh Hj]; unfold object_of in *;
    try (destruct (ti_call _ _ Hw _ _ Hc) as (j0 & Hj0 & Hok));
    try (assert (j0 = j) as -> by congruence);
    try (assert (Hop := ti_opened _ _ Hw _ _ Hc)).
  - by apply object_inv.
  - by eapply spawn_inv.
  - destruct Hw. by split.
  - (* st_once *)
    eapply acquire_inv; try done; [by unfold quiet, queued, holds; rewrite Hs|by apply past_awake; [|rewrite Hs]|].
    unfold settled in Hop. rewrite Hs in Hop. by split.
  - by apply startup_inv.
  - (* st_wake *)
    destruct (past_wake _ _ _ m Hok Hs) as [Hp Hhd]. assert (Hst := co_stage _ _ Hok). rewrite Hs in Hst.
    unfold settled in Hop. rewrite Hs in Hop. cbn in Hop.
    eapply try_fire_inv; try done; [by unfold quiet, queued, holds; rewrite Hs|destruct opening; by destruct Hst as [-> _]|].
    split; [done|]. by intros m' [= <-].
  - (* st_permit *)
    assert (Hst := co_stage _ _ Hok). rewrite Hs in Hst. rewrite enter_again.
    eapply task_enter_inv; try done; [by unfold holds; rewrite Hs|by apply past_see, past_awake; [|rewrite Hs]| |].
    + unfold settled in Hop. rewrite Hs in Hop. split; [by destruct y|]. intros m' ->. apply (co_due _ _ Hok). by rewrite Hs.
    + intros k' Hk1 Hk2. pose proof (ti_pool _ _ Hw) as Hpool. rewrite Hsem in Hpool.
      eapply pool_resume; try done. unfold holds. by rewrite Hs.
  - (* st_once_answer *)
    destruct (task_announce_inv cap now us r w c k j Hw Hj Hus) as [Hw' (j' & Hj' & Hi)]. cbn zeta. rewrite Hj'. cbn [default from_option id].
    eapply (task_leave_inv cap); try done; [by unfold holds; rewrite Hs|].
    rewrite Hi. apply call_ok_stage; [|done|done]. apply past_awake; [done|by rewrite Hs].
  - by apply answer_inv.
  - (* st_gap *)
    assert (Hst := co_stage _ _ Hok). rewrite Hs in Hst. destruct Hst as (Ha & Hy & Hl).
    eapply (go_on_inv cap); try done; [by unfold holds; rewrite Hs|]. apply past_see, past_awake; [done|by rewrite Hs].
  - (* st_cancel *)
    assert (Hq : quiet queued holds k) by (unfold quiet, queued, holds; by destruct Hs as [->|[? ->]]).
    eapply task_set_call_inv; try done; [by apply Hq| | |].
    + apply cancelled_ok, Hok.
    + etransitivity; [exact Hop|]. apply settled_sub.
    + apply pool_quiet; [apply Hw| |done]. intros k1 Hk1. by assert (k1 = k) as -> by congruence.
  - (* st_cancel_queued *)
    eapply task_set_call_inv; try done; [by unfold holds; rewrite Hs| | |].
    + apply cancelled_ok, Hok.
    + etransitivity; [exact Hop|]. apply settled_sub.
    + pose proof (ti_pool _ _ Hw) as Hpool. rewrite Hsem in Hpool. eapply pool_abandon; try done. unfold holds. by rewrite Hs.
  - (* st_drain *)
    assert (Hst := co_stage _ _ Hok). rewrite Hs in Hst. eapply hold_inv; try done; [by unfold holds; rewrite Hs|].
    apply call_ok_stage; [|done|done]. apply past_awake; [done|by rewrite Hs].
  - (* st_cancel_held *)
    eapply task_leave_inv; try done. by apply cancelled_ok.
Qed.

Lemma task_reachable_inv cap files w :
  rtc (step croniter_next uuid5 agent_name) (initial_world cap files) w -> tinv cap w.
Proof.
  remember (initial_world cap files) as w0 eqn:H0. intros Hr.
  assert (Hw0 : tinv cap w0) by (subst w0; apply initial_world_inv). clear H0.
  induction Hr as [|w1 w2 w3 Hst _ IH]; [done|]. apply IH. by eapply task_step_inv.
Qed.
End Invariant.

(** ** The payload of [task.fired] *)

Lemma task_event_accepted it us r now agent n :
  name it <> "" -> 0 <= us -> now <> "" ->
  validate (to_dict (mk_envelope "task.fired" (VInt 1) (py_str_int n) now (VStr agent) (task_event it us r))) = Ok None.
Proof.
  intros Hname Hus Hnow.
  apply (payload_accepted _ (Req "name" FNonEmptyStr :: Opt "window" FStr :: outcome_duration)); [done| |done|right; by eexists].
  assert (Hms : 0 <= us / 1000) by (apply Z.div_pos; lia).
  unfold task_event. repeat constructor; cbn [field_ok].
  - exists (VStr (name it)). split; [done|]. by exists (name it).
  - intros v. unfold window_field. destruct (window_start it), (window_end it), r; cbn; try done; intros [= <-]; by eexists.
  - exists (VInt (us / 1000)). split; [done|]. by exists (us / 1000).
  - eexists (VStr _). split; [done|]. eexists. split; [done|].
    destruct r; apply (bool_decide_eq_true_1 _); vm_compute; reflexivity.
  - intros v. unfold window_field. destruct (window_start it), (window_end it), r; cbn; try done; intros [= <-]; by eexists.
Qed.

(** ** One opening per day *)

Lemma sorted_later_nodup l : StronglySorted later_first l -> NoDup l.
Proof.
  induction 1 as [|m l Hs IH Hall]; [constructor|]. constructor; [|done]. intros Hin.
  rewrite Forall_forall in Hall. specialize (Hall _ Hin). unfold later_first in Hall. lia.
Qed.

(** Strictly decreasing dates between two bounds. *)
Lemma later_count lo hi l :
  StronglySorted later_first l -> Forall (fun m : moment => lo <= m.1 <= hi) l -> Z.of_nat (length l) <= Z.max 0 (hi - lo + 1).
Proof.
  intros Hs. revert hi. induction Hs as [|m l Hs IH Hall]; intros hi Hb; [cbn; lia|].
  apply Forall_cons_1 in Hb as [Hm Hb]. assert (Hl : Forall (fun m' : moment => lo <= m'.1 <= m.1 - 1) l).
  { rewrite Forall_forall in Hall, Hb |- *. intros m' Hin. specialize (Hall _ Hin). specialize (Hb _ Hin).
    unfold later_first in Hall. lia. }
  specialize (IH _ Hl). rewrite length_cons. lia.
Qed.

(** ** Properties *)

(** C10: In every reachable state, whatever the interleaving of the
    coroutines, the clock and the cancellations: the gauge is the number of
    coroutines that hold their permit, and with [TASKS_MAX_CONCURRENT] set
    that number is within it; who waits does so because every permit is out or
    one is on its way to a waiter, and when nobody holds or waits the gauge is
    zero and the permits are all back; a running flag that is up belongs to a
    coroutine that holds.  Every message sent is the task's prompt, kind,
    model, backend, consensus and limit under the session of the file, or of
    the date last looked at, and it has a reason: the task has no window, the
    coroutine started within the window, an eligible window opened, or the
    loop of a task with an end of window went round within it.  Every event
    announced is a valid [task.fired]. *)
Theorem fires_accounted cap croniter_next uuid5 agent_name files w :
  rtc (step croniter_next uuid5 agent_name) (initial_world cap files) w ->
  t_gauge w = Z.of_nat (holders holds (t_calls w)) /\ (0 < cap -> t_gauge w <= cap) /\
  (forall c k, t_calls w !! c = Some k -> queued k = true ->
     t_gauge w = cap \/ exists s c', t_sem w = Some s /\ (c', true) ∈ sem_waiters s /\ waits queued (t_calls w) c') /\
  ((forall c k, t_calls w !! c = Some k -> queued k = false /\ holds k = false) -> t_gauge w = 0 /\ t_sem w = new_pool cap) /\
  (forall o j, t_objs w !! o = Some j -> o_running j = true ->
     exists c k, t_calls w !! c = Some k /\ c_obj k = o /\ holds k = true) /\
  (forall s, s ∈ t_sent w -> exists k j environ,
     t_calls w !! s_call s = Some k /\ t_objs w !! c_obj k = Some j /\ justified croniter_next (o_item j) (s_why s) /\
     s_request s = fire_message environ (o_item j)
       (match s_why s with
        | RunOnce => once_session_id uuid5 agent_name (o_item j)
        | _ => day_session_id uuid5 agent_name (o_item j) (s_day s)
        end)) /\
  (forall c p, (c, p) ∈ t_events w -> exists o j us r,
     t_objs w !! o = Some j /\ p = task_event (o_item j) us r /\
     (name (o_item j) <> "" -> forall now agent n, now <> "" ->
        validate (to_dict (mk_envelope "task.fired" (VInt 1) (py_str_int n) now (VStr agent) p)) = Ok None)).
Proof.
  intros Hw%task_reachable_inv. pose proof (ti_pool _ _ _ _ _ Hw) as Hp. pose proof (ti_gauge _ _ _ _ _ Hw) as Hg. split_and!.
  - done.
  - intros Hcap. rewrite Hg. by eapply pool_bound.
  - intros c k Hk Hq. rewrite Hg. destruct (pool_waits _ _ _ _ _ c Hp) as [?|(s & c' & ?)]; [by exists k|by left|right].
    by exists s, c'.
  - intros Hall. split; [|by eapply pool_idle]. rewrite Hg. assert (holders holds (t_calls w) = 0%nat) as ->; [apply map_count_0|done].
    intros c k Hk. by apply (Hall c k).
  - apply Hw.
  - intros s Hs. destruct (ti_sent _ _ _ _ _ Hw _ Hs) as (k & j & Hk & Hj & environ & session & -> & Ha).
    exists k, j, environ. destruct Ha as [Ha1 Ha2]. cbn in Ha1, Ha2. by rewrite Ha2.
  - intros c p Hp'. destruct (ti_events _ _ _ _ _ Hw _ _ Hp') as (o & j & us & r & Hj & Hus & ->).
    exists o, j, us, r. split_and!; [done|done|]. intros Hn now agent n Hnow. by apply task_event_accepted.
Qed.

(** While the clock of its zone does not go back and no sleep ends before
    its opening, a coroutine sleeps for strictly later dates, each an eligible
    date of the task at its window start, and fires for none of them twice, in
    their order.  A task with a first and a last date has at most one such
    window per date between them, so that its coroutine expires. *)
Theorem windows_forward cap croniter_next uuid5 agent_name files w c k j
    (Hrun : rtc (step croniter_next uuid5 agent_name) (initial_world cap files) w)
    (Hc : t_calls w !! c = Some k) (Hj : t_objs w !! c_obj k = Some j) (Hsteady : c_steady k = true) :
  StronglySorted later_first (c_openings k) /\
  (forall d t, (d, t) ∈ c_openings k -> window_start (o_item j) = Some t /\ eligible croniter_next (o_item j) d) /\
  opened c (t_sent w) `sublist_of` c_openings k /\ NoDup (opened c (t_sent w)) /\
  (forall first last, start (o_item j) = Some first -> end_ (o_item j) = Some last ->
     Z.of_nat (length (c_openings k)) <= Z.max 0 (last - first + 1)).
Proof.
  apply task_reachable_inv in Hrun. destruct (ti_call _ _ _ _ _ Hrun _ _ Hc) as (j' & Hj' & Hok). assert (j' = j) as -> by congruence.
  destruct (co_steady _ _ _ _ _ Hok Hsteady) as [Hs _]. pose proof (co_openings _ _ _ _ _ Hok) as Ho.
  assert (Hsub : opened c (t_sent w) `sublist_of` c_openings k).
  { etransitivity; [by apply (ti_opened _ _ _ _ _ Hrun)|apply settled_sub]. }
  rewrite Forall_forall in Ho. split_and!.
  - done.
  - intros d t Hin. by apply (Ho (d, t)).
  - done.
  - eapply sublist_NoDup; [by apply sorted_later_nodup|exact Hsub].
  - intros first last Hf Hl. apply (later_count first last); [done|]. rewrite Forall_forall. intros [d t] Hin.
    destruct (Ho _ Hin) as (_ & Hb & He & _). unfold before_start, after_end in *. rewrite Hf in Hb. rewrite Hl in He. cbn. lia.
Qed.

(** ** Concrete inputs *)

Example iso_dates :
  isoformat 1 = "0001-01-01" /\ isoformat 738945 = "2024-02-29" /\ isoformat 738946 = "2024-03-01" /\
  isoformat 739000 = "2024-04-24" /\ isoformat 3652059 = "9999-12-31" /\ hh_mm (34200 * usec) = "09:30".
Proof. vm_compute. repeat split. Qed.

(** From 09:00 to 10:00 on two days, again and again until told that it is
    done. *)
Definition poll : item :=
  mk_item "/t/poll.md" "poll" "*" "UTC" (Some (32400 * usec)) (Some (36000 * usec)) true (Some (60 * usec)) (Some "DONE")
    "go" (Some 738945) (Some 738946) None None [] None true.

Definition no_env : fire_env := mk_env (fun _ => None) 0 true.
Definition example_step : world -> world -> Prop := step every_midnight id "ada".
Definition at_time (d h m : Z) : moment := (d, (h * 3600 + m * 60) * usec).

(** Registered; a coroutine starts at 08:00; it fires at 09:00, and again
    after the gap; then the task is done for the day. *)
Definition poll1 : world :=
  mk_world (new_pool 1) ∅ {[0%nat := mk_live poll false None None]} 0 ∅ [] [] 0.
Definition poll2 : world :=
  mk_world (new_pool 1) {[0%nat := mk_coroutine 0 Waiting [] None true]} (t_objs poll1) 0 ∅ [] [] 1.
Definition call_of (w : world) : coroutine := default (mk_coroutine 0 Waiting [] None true) (t_calls w !! 0%nat).
Definition obj_of (w : world) : live_task := default (mk_live poll false None None) (t_objs w !! 0%nat).
Definition poll3 : world :=
  startup every_midnight id "ada" no_env true (at_time 738945 8 0) (at_time 738945 8 0) poll2 0 (call_of poll2) (obj_of poll2).
Definition poll4 : world :=
  try_fire every_midnight id "ada" no_env (at_time 738945 9 0) poll3 0
    (wake (call_of poll3) (at_time 738945 9 0) (at_time 738945 9 0)) (obj_of poll3) (AtOpening (at_time 738945 9 0)).

(** The answer to the message in flight, at [m]. *)
Definition answered (text : string) (w : world) (m : moment) : world :=
  let w' := announce 0 5000 (Answered text) w 0 (call_of w) (obj_of w) in
  let k := see (call_of w) m in
  match c_stage (call_of w), after_answer every_midnight (o_item (obj_of w)) (Answered text) m with
  | _, Stop => leave true w' 0 (next_window every_midnight (see k m) (o_item (obj_of w)) m) (obj_of w')
  | Sending a, Wait => set_call w' (t_sem w') 0 (set_stage k (Gap a))
  | Sending a, GoOn => go_on every_midnight id "ada" no_env true m m w' 0 (see k m) (obj_of w') a
  | _, _ => w
  end.

Definition first_fire : attempt := mk_attempt (AtOpening (at_time 738945 9 0)) "ada.poll.2024-02-29" 738945.
Definition second_fire : attempt := mk_attempt (Again (at_time 738945 9 6)) "ada.poll.2024-02-29" 738945.
Definition poll5 : world := answered "not yet" poll4 (at_time 738945 9 5).
Definition poll6 : world :=
  go_on every_midnight id "ada" no_env true (at_time 738945 9 6) (at_time 738945 9 6) poll5 0
    (see (call_of poll5) (at_time 738945 9 6)) (obj_of poll5) first_fire.
Definition poll7 : world := answered "DONE" poll6 (at_time 738945 9 7).

Lemma example_started : rtc example_step (initial_world 1 ∅) poll3.
Proof.
  eapply rtc_l; [exact (st_object every_midnight id "ada" (initial_world 1 ∅) 0 poll eq_refl)|].
  eapply rtc_l; [exact (st_spawn every_midnight id "ada" poll1 0 (obj_of poll1) eq_refl)|].
  eapply rtc_l; [|reflexivity].
  eapply (st_start every_midnight id "ada" poll2 0 (call_of poll2) (obj_of poll2)); [reflexivity|reflexivity|reflexivity|by eexists].
Qed.

Lemma example_task_run : rtc example_step (initial_world 1 ∅) poll7.
Proof.
  etransitivity; [exact example_started|].
  eapply rtc_l; [eapply (st_wake every_midnight id "ada" poll3 0 (call_of poll3) (obj_of poll3) no_env
    (at_time 738945 9 0) (at_time 738945 9 0)); vm_compute; reflexivity|].
  eapply rtc_l; [eapply (st_answer every_midnight id "ada" poll4 0 (call_of poll4) (obj_of poll4) first_fire (Answered "not yet")
    0 5000 no_env true (at_time 738945 9 5) (at_time 738945 9 5) (at_time 738945 9 5)); [vm_compute; reflexivity..|done|vm_compute; reflexivity|done]|].
  eapply rtc_l; [eapply (st_gap every_midnight id "ada" poll5 0 (call_of poll5) (obj_of poll5) first_fire no_env true
    (at_time 738945 9 6) (at_time 738945 9 6)); vm_compute; reflexivity|].
  eapply rtc_l; [eapply (st_answer every_midnight id "ada" poll6 0 (call_of poll6) (obj_of poll6) second_fire (Answered "DONE")
    0 5000 no_env true (at_time 738945 9 7) (at_time 738945 9 7) (at_time 738945 9 7)); [vm_compute; reflexivity..|done|vm_compute; reflexivity|done]|].
  reflexivity.
Qed.

Example poll_sessions :
  (fun s => (s_why s, q_session_id (s_request s))) <$> t_sent poll7 =
    [(Again (at_time 738945 9 6), "ada.poll.2024-02-29"); (AtOpening (at_time 738945 9 0), "ada.poll.2024-02-29")] /\
  c_stage (call_of poll7) = Sleeping (at_time 738946 9 0).
Proof. vm_compute. repeat split. Qed.

Lemma fires_accounted_witness :
  t_gauge poll7 = 0 /\ t_sem poll7 = new_pool 1 /\
  justified every_midnight poll (AtOpening (at_time 738945 9 0)).
Proof.
  destruct (fires_accounted 1 _ _ _ _ _ example_task_run) as (_ & _ & _ & Hidle & _ & Hs & _).
  destruct Hidle as [H1 H2].
  - intros c k Hk. apply (elem_of_map_to_list (t_calls poll7)) in Hk. vm_compute in Hk.
    apply list_elem_of_singleton in Hk. by injection Hk as _ ->.
  - split_and!; [done|done|].
    destruct (Hs (mk_sent 0 (AtOpening (at_time 738945 9 0)) 738945
      (fire_message (fun _ => None) poll "ada.poll.2024-02-29"))) as (k & j & e & Hk & Hj & Hju & _).
    + apply (list_elem_of_lookup_2 _ 1). vm_compute. reflexivity.
    + assert (Hk' : t_calls poll7 !! 0%nat = Some (call_of poll7)) by (vm_compute; reflexivity).
      apply (eq_trans (eq_sym Hk')), (inj Some) in Hk. subst k.
      assert (Hj' : t_objs poll7 !! c_obj (call_of poll7) = Some (obj_of poll7)) by (vm_compute; reflexivity).
      apply (eq_trans (eq_sym Hj')), (inj Some) in Hj. subst j. exact Hju.
Defined.

Lemma windows_forward_witness :
  c_openings (call_of poll7) = [at_time 738946 9 0; at_time 738945 9 0] /\
  opened 0 (t_sent poll7) = [at_time 738945 9 0] /\ Z.of_nat (length (c_openings (call_of poll7))) <= 2.
Proof.
  destruct (windows_forward 1 _ _ _ _ _ 0 (call_of poll7) (obj_of poll7) example_task_run
    ltac:(vm_compute; reflexivity) ltac:(vm_compute; reflexivity) ltac:(vm_compute; reflexivity)) as (_ & _ & _ & _ & Hn).
  split_and!; [vm_compute; reflexivity|vm_compute; reflexivity|].
  apply (Hn 738945 738946); vm_compute; reflexivity.
Defined.

(** A sleep that ends one second early, and a fire that fails at once: the
    same opening is computed, slept for and fired for again. *)
Definition early : moment := (738945, 32399 * usec).
Definition failed (w : world) (m : moment) : world :=
  leave true (announce 0 5 (Failed "boom") w 0 (call_of w) (obj_of w)) 0
    (next_window every_midnight (see (see (call_of w) m) m) (o_item (obj_of w)) m) (obj_of w).
Definition woken (w : world) (m : moment) : world :=
  try_fire every_midnight id "ada" no_env m w 0 (wake (call_of w) (at_time 738945 9 0) m) (obj_of w) (AtOpening (at_time 738945 9 0)).

Example opening_served_twice :
  opened 0 (t_sent (woken (failed (woken poll3 early) early) (at_time 738945 9 0))) =
    [at_time 738945 9 0; at_time 738945 9 0].
Proof. vm_compute. reflexivity. Qed.
