(* ===== verification/Dispatch.v ===== *)
(** * The dispatcher (harness/executor.py, [_run_inner], [process_bus],
    [execute] and [on_prompt_completed]; [_fire] of harness/main.py)

    The path of one prompt, from an A2A request, the bus or a trigger through
    the routed backend to the announcement of its completion, and the hub
    where the completions of all of them meet the background set
    ([Background]), the continuations ([Continuations]) and the webhooks
    ([WebhookRunner]).  Backends' answers are arguments; the answer covers the
    timeout of the query. *)
From Stdlib Require Import Ascii.
From S2P Require Import Prelude PyStr PyBytes PyVal Utils Tracing Routing Executor Background Bus Continuations WebhookRunner.

(** An optional text as a value. *)
Definition opt_val (o : option string) : pyval := match o with Some s => VStr s | None => VNone end.

(** [s or None] *)
Definition nonempty (o : option string) : option string :=
  match o with Some s => if decide (s = "") then None else Some s | None => None end.

(** ** One prompt at one backend *)

(** The arguments of [backend.run_query]. *)
Record query : Type := mk_query {
  q_backend : backend_config;
  q_prompt : string;
  q_session : string;
  q_is_new : bool;
  q_model : pyval;
  q_max_tokens : option Z;
  q_trace : option trace_context;
  q_caller : option string
}.

(** The arguments of [run] besides the executor's state. *)
Record request : Type := mk_request {
  rq_prompt : string;
  rq_session : string;
  rq_backend : pyval;
  rq_model : pyval;
  rq_max_tokens : option Z;
  rq_trace : option trace_context;
  rq_caller : option string
}.

Definition paragraph : string := newline +:+ newline.

Section Inner.
(** [MAX_SESSIONS] *)
Variable max_sessions : Z.

(** [_run_inner]: the response, the sessions and the query that is sent. *)
Definition run_inner (cfg : loaded) (sessions : list (string * Z)) (now : Z) (rq : request)
    (answer : query -> res (list string)) : res string * list (string * Z) * option query :=
  match resolve_backend cfg (rq_backend rq) with
  | Raise e => (Raise e, sessions, None)
  | Ok b =>
      let is_new := match od_get sessions (rq_session rq) with Some _ => false | None => true end in
      match track_session max_sessions sessions (rq_session rq) now with
      | Raise e => (Raise e, sessions, None)
      | Ok sessions' =>
          let q := mk_query b (rq_prompt rq) (rq_session rq) is_new (rq_model rq) (rq_max_tokens rq) (rq_trace rq)
                     (rq_caller rq) in
          (collected <-- answer q ;; Ok (str_join paragraph collected), sessions', Some q)
      end
  end.
End Inner.

(** ** Completions *)

Inductive origin : Type := FromA2A | FromBus | FromTrigger.

(** The arguments of [on_prompt_completed]; the duration is left out. *)
Record completion : Type := mk_completion {
  c_origin : origin;
  c_kind : string;
  c_session : string;
  c_success : bool;
  c_response : string;
  c_error : option exn;
  c_model : pyval;
  c_trace : option trace_context
}.

Definition source_name (o : origin) : string :=
  match o with FromA2A => "a2a" | FromBus => "bus" | FromTrigger => "trigger" end.

(** [_response], [_success] and [_error] once the prompt has been run; only
    [except Exception] records the error. *)
Definition response_of (outcome : res string) : string := match outcome with Ok t => t | Raise _ => "" end.
Definition succeeded (outcome : res string) : bool := match outcome with Ok _ => true | Raise _ => false end.
Definition error_of (outcome : res string) : option exn :=
  match outcome with Ok _ | Raise CancelledError => None | Raise e => Some e end.

(** ** Bus messages *)

(** A [Message]: [bw_message] is its identity and kind on the bus. *)
Record bus_work : Type := mk_bus_work {
  bw_message : message;
  bw_prompt : string;
  bw_session : option string;
  bw_model : option string;
  bw_backend : option string;
  bw_consensus : list consensus_entry;
  bw_max_tokens : option Z;
  bw_trace : option trace_context
}.

(** What [process_bus] calls: [run], or [run_consensus] with the entries, the
    backend and the model of the synthesis. *)
Inductive call : Type :=
| Run (rq : request)
| RunConsensus (prompt session : string) (entries : list consensus_entry) (synthesis_backend synthesis_model : pyval)
    (max_tokens : option Z) (trace : option trace_context).

Section ProcessBus.
Variable cfg : loaded.
(** [str(uuid.uuid4())] and [new_context()], where they are needed *)
Variables (uuid : string) (fresh : trace_context).

Definition bus_session (w : bus_work) : string := default uuid (nonempty (bw_session w)).
Definition bus_trace (w : bus_work) : trace_context := default fresh (bw_trace w).
Definition bus_route (w : bus_work) : pyval * pyval :=
  route_message cfg (Bus.kind (bw_message w)) (opt_val (bw_backend w)) (opt_val (bw_model w)).

Definition bus_call (w : bus_work) : call :=
  let '(routed, model) := bus_route w in
  match bw_consensus w with
  | [] => Run (mk_request (bw_prompt w) (bus_session w) routed model (bw_max_tokens w) (Some (bus_trace w)) None)
  | entries => RunConsensus (bw_prompt w) (bus_session w) entries
                 (if truthy routed then routed else default_backend_id cfg) model (bw_max_tokens w) (Some (bus_trace w))
  end.

(** What becomes of [message.result]; a cancellation leaves it alone. *)
Definition future_of (outcome : res string) : future :=
  match outcome with Ok _ => FResult | Raise CancelledError => FPending | Raise _ => FException end.

(** The coroutine of the [finally] clause. *)
Definition bus_completion (w : bus_work) (outcome : res string) : completion :=
  mk_completion FromBus (Bus.kind (bw_message w)) (bus_session w) (succeeded outcome) (response_of outcome)
    (error_of outcome) (bus_route w).2 (Some (bus_trace w)).

(** [process_bus] and the worker's clean-up around it. *)
Definition process_bus (b : bus) (w : bus_work) (outcome : res string) : bus * completion :=
  (worker_finish b (bw_message w) (future_of outcome), bus_completion w outcome).
End ProcessBus.

(** ** Trigger fires *)

Section Trigger.
Variable cfg : loaded.

Record trigger_work : Type := mk_trigger_work {
  tw_endpoint : string;
  tw_prompt : string;
  tw_session : string;
  tw_model : option string;
  tw_backend : option string;
  tw_consensus : list consensus_entry;
  tw_max_tokens : option Z
}.

Definition trigger_kind (w : trigger_work) : string := "trigger:" +:+ tw_endpoint w.
Definition trigger_route (w : trigger_work) : pyval * pyval :=
  route_message cfg (trigger_kind w) (opt_val (tw_backend w)) (opt_val (tw_model w)).

Definition trigger_call (w : trigger_work) : call :=
  let '(routed, model) := trigger_route w in
  match tw_consensus w with
  | [] => Run (mk_request (tw_prompt w) (tw_session w) routed model (tw_max_tokens w) None None)
  | entries => RunConsensus (tw_prompt w) (tw_session w) entries VNone VNone (tw_max_tokens w) None
  end.

Definition trigger_completion (w : trigger_work) (outcome : res string) : completion :=
  mk_completion FromTrigger (trigger_kind w) (tw_session w) (succeeded outcome) (response_of outcome)
    (error_of outcome) (trigger_route w).2 None.
End Trigger.

(** ** A2A requests *)

Fixpoint str_filter (p : ascii -> bool) (s : string) : string :=
  match s with
  | "" => ""
  | String c s' => if p c then String c (str_filter p s') else str_filter p s'
  end.

(** [c >= " "] *)
Definition printable (c : ascii) : bool := 32 <=? code c.

(** [str(...).strip()[:256]] without control characters. *)
Definition clean_session (raw : string) : string := str_filter printable (str_take (Z.to_nat 256) (str_strip raw)).

Section A2A.
Variable cfg : loaded.
(** [A2A_MAX_PROMPT_BYTES] *)
Variable max_prompt_bytes : Z.
(** [int(x)] of a float, by its [repr] *)
Variable float_int : string -> res Z.
Variables (uuid : string) (fresh : trace_context).

(** [int(raw)] *)
Definition int_of (raw : pyval) : res Z :=
  match raw with
  | VInt _ | VBool _ => Ok (int_value raw)
  | VFloat r => float_int r
  | VStr s => match py_int s with Some n => Ok n | None => Raise ValueError end
  | _ => Raise TypeError
  end.

(** Only [ValueError] and [TypeError] are caught. *)
Definition a2a_max_tokens (metadata : pydict) : res (option Z) :=
  match dict_get_none metadata "max_tokens" with
  | VNone => Ok None
  | raw => match int_of raw with
           | Ok n => Ok (Some n)
           | Raise (ValueError | TypeError) => Ok None
           | Raise e => Raise e
           end
  end.

Definition a2a_session (context_id : option string) (metadata : pydict) : string :=
  let raw := match nonempty context_id with
             | Some s => s
             | None => let v := dict_get_none metadata "session_id" in if truthy v then py_str v else ""
             end in
  let s := clean_session raw in
  if decide (s = "") then uuid else s.

Definition a2a_backend (metadata : pydict) : pyval :=
  let own := dict_get_none metadata "backend_id" in
  if truthy own then own
  else match routing_entry_for_kind cfg "a2a" with Some e => agent e | None => VNone end.

(** The configured backend is looked up unless the routing entry decides. *)
Definition entry_decides (entry : option routing_entry) (backend_id : pyval) : bool :=
  match entry with
  | Some e => truthy (e_model e) && (is_none (agent e) || key_eqb (agent e) backend_id)
  | None => false
  end.

Definition a2a_model (metadata : pydict) : res pyval :=
  let model := dict_get_none metadata "model" in
  if truthy model then Ok model
  else
    let backend_id := a2a_backend metadata in
    let resolved := if truthy backend_id then backend_id else default_backend_id cfg in
    let entry := routing_entry_for_kind cfg "a2a" in
    if negb (entry_decides entry resolved) && negb (hashable resolved) then Raise TypeError
    else Ok (resolve_model cfg VNone entry resolved).

Definition a2a_trace (metadata : pydict) : trace_context :=
  default fresh (match dict_get_none metadata "traceparent" with
                 | VStr s => parse_traceparent (Some s)
                 | _ => parse_traceparent None
                 end).

Definition a2a_caller (metadata : pydict) : option string :=
  match dict_get_none metadata "caller_id" with VStr s => nonempty (Some s) | _ => None end.

Definition prompt_bytes (prompt : string) : Z := str_len (utf8_encode prompt).

Definition oversize (prompt : string) : bool := (0 <? max_prompt_bytes) && (max_prompt_bytes <? prompt_bytes prompt).

(** [None]: the prompt is too long. An exception here escapes [execute]
    before its [try]. *)
Definition a2a_request (prompt : string) (context_id : option string) (metadata : pydict) : res (option request) :=
  if oversize prompt then Ok None
  else
    model <-- a2a_model metadata ;;
    max_tokens <-- a2a_max_tokens metadata ;;
    Ok (Some (mk_request prompt (a2a_session context_id metadata) (a2a_backend metadata) model max_tokens
                (Some (a2a_trace metadata)) (a2a_caller metadata))).

(** *** The reply *)

(** The ids stamped on the reply. *)
Definition reply_meta (t : trace_context) : option (string * option string) :=
  if decide (trace_id t = "") then None
  else Some (trace_id t, if decide (parent_id t = "") then None else Some (parent_id t)).

Inductive a2a_event : Type :=
| Submitted
| Working
| Artifact (text : string)
| Completed (text : string) (meta : option (string * option string))
| FailedTask (e : exn)
| ReplyMessage (text : string) (meta : option (string * option string))
| Oversize (bytes : Z).

(** Whether an event is taken by the SDK's queue or the call raises. *)
Variable enqueue : a2a_event -> option exn.

Definition emit (ev : a2a_event) : list a2a_event * res unit :=
  match enqueue ev with Some e => ([], Raise e) | None => ([ev], Ok tt) end.

(** The sends of the reply in order, up to the first that raises. *)
Fixpoint emit_all (evs : list a2a_event) : list a2a_event * res unit :=
  match evs with
  | [] => ([], Ok tt)
  | ev :: rest =>
      match emit ev with
      | (out, Raise e) => (out, Raise e)
      | (out, Ok _) => let '(more, r) := emit_all rest in (out ++ more, r)
      end
  end.

Definition reply (updater : bool) (text : string) (meta : option (string * option string)) : list a2a_event :=
  if updater then (if decide (text = "") then [] else [Artifact text]) ++ [Completed text meta]
  else [ReplyMessage text meta].

Record execution : Type := mk_execution {
  x_events : list a2a_event;
  (** whether [run] was called *)
  x_ran : bool;
  x_completion : option completion;
  x_raised : option exn
}.

Definition is_exception (e : exn) : bool := bool_decide (e <> CancelledError).

(** The [except Exception] clause. *)
Definition on_exception (updater : bool) (e : exn) : list a2a_event :=
  if updater && is_exception e then (emit (FailedTask e)).1 else [].

Definition a2a_completion (rq : request) (outcome : res string) (e : option exn) : completion :=
  mk_completion FromA2A "a2a" (rq_session rq) (succeeded outcome) (response_of outcome)
    (match e with Some CancelledError => None | _ => e end) (rq_model rq) (rq_trace rq).

(** The [try] statement once the updater is chosen: [outcome] is that of
    [run]. *)
Definition drive (updater : bool) (rq : request) (outcome : res string) : execution :=
  let '(begun, started) := if updater then emit Working else ([], Ok tt) in
  let '(evs, ran, outcome, raised) :=
    match started with
    | Raise e => ([], false, Raise e, Some e)
    | Ok _ =>
        match outcome with
        | Raise e => ([], true, Raise e, Some e)
        | Ok text =>
            let '(sent, r) := emit_all (reply updater text (rq_trace rq ≫= reply_meta)) in
            (sent, true, Ok text, match r with Raise e => Some e | Ok _ => None end)
        end
    end in
  mk_execution (begun ++ evs ++ match raised with Some e => on_exception updater e | None => [] end) ran
    (Some (a2a_completion rq outcome raised)) raised.

(** [blocking] is whether the caller waits; [task_id] whether there is one.
    A submit that fails with an exception falls back to the blocking reply, a
    cancellation there ends the execution before the [try]. *)
Definition execute (prompt : string) (context_id : option string) (metadata : pydict) (blocking task_id : bool)
    (run : request -> res string) : execution :=
  match a2a_request prompt context_id metadata with
  | Raise e => mk_execution [] false None (Some e)
  | Ok None =>
      let '(evs, r) := emit (Oversize (prompt_bytes prompt)) in
      mk_execution evs false None (match r with Raise e => Some e | Ok _ => None end)
  | Ok (Some rq) =>
      if negb blocking && task_id then
        match emit Submitted with
        | (evs, Ok _) => let x := drive true rq (run rq) in mk_execution (evs ++ x_events x) (x_ran x) (x_completion x) (x_raised x)
        | (evs, Raise CancelledError) => mk_execution evs false None (Some CancelledError)
        | (evs, Raise _) => drive false rq (run rq)
        end
      else drive false rq (run rq)
  end.
End A2A.

(** ** The hub of completions *)

Record hub : Type := mk_hub {
  u_background : background;
  (** the coroutines of the tracked completions that have not started *)
  u_pending : gmap nat completion;
  u_continuations : history;
  u_webhooks : world;
  (** ghost: the completions announced, and those dropped *)
  u_announced : list completion;
  u_dropped : list completion
}.

Section Hub.
(** Whether [set_continuation_runner] and [set_webhook_runner] were called. *)
Variables continuation_runner webhook_runner : bool.
(** The settings of [Background]. *)
Variable environ : string -> option string.
Variables tasks_max window : Z.
(** [ON_PROMPT_COMPLETED_TIMEOUT] *)
Variable completed_timeout : Z.
(** The settings of [Continuations] and of [WebhookRunner]. *)
Variables fanin_ttl global_fires global_deliveries : Z.
Variable name_cap : string -> Z.

Definition initial_hub : hub := mk_hub new_background ∅ initial_history initial_world [] [].

Definition note_of (now : Z) (c : completion) : note :=
  mk_note (c_kind c) (c_session c) (c_success c) (c_response c) now.

Definition notify_continuations (now : Z) (c : completion) (h : history) : history :=
  if continuation_runner then
    let n := note_of now c in
    let out := notify fanin_ttl global_fires (h_runner h) (n_kind n) (n_session n) (n_success n) (n_response n)
                 (n_time n) in
    mk_history out.1 (h_notes h ++ [n]) (h_fires h ++ out.2)
  else h.

Definition fire_webhooks (c : completion) (w : world) : world :=
  if webhook_runner then
    let '(fs, r) := fire global_deliveries (wr w) (c_kind c) (c_success c) (c_response c) in
    mk_world r (add_live true (live w) (started fs))
  else w.

(** The body of [on_prompt_completed], and that of the synchronous fallback. *)
Definition on_prompt_completed (now : Z) (c : completion) (h : hub) : hub :=
  mk_hub (u_background h) (u_pending h) (notify_continuations now c (u_continuations h))
    (fire_webhooks c (u_webhooks h)) (u_announced h ++ [c]) (u_dropped h).

Definition drop (cs : list completion) (h : hub) : hub :=
  mk_hub (u_background h) (u_pending h) (u_continuations h) (u_webhooks h) (u_announced h) (u_dropped h ++ cs).

Definition set_background (b : background) (h : hub) : hub :=
  mk_hub b (u_pending h) (u_continuations h) (u_webhooks h) (u_announced h) (u_dropped h).

Definition set_pending (p : gmap nat completion) (h : hub) : hub :=
  mk_hub (u_background h) p (u_continuations h) (u_webhooks h) (u_announced h) (u_dropped h).

(** [execute] and [process_bus] announce a completion themselves when it is
    shed; the trigger route ignores the result. *)
Definition falls_back (o : origin) : bool := match o with FromA2A | FromBus => true | FromTrigger => false end.

(** A prompt has been run: its completion is tracked. When a setting does not
    parse the exception leaves the [finally] clause. *)
Definition complete (now : Z) (c : completion) (h : hub) : hub :=
  let '(r, b, _) := track_background environ tasks_max window now (u_background h) (source_name (c_origin c)) None None None in
  let h := set_background b h in
  match r with
  | Ok (Some t) => set_pending (<[t := c]> (u_pending h)) h
  | Ok None => if falls_back (c_origin c) then on_prompt_completed now c h else drop [c] h
  | Raise _ => drop [c] h
  end.

(** The task of a completion starts: [wait_for] never starts a coroutine it
    gives no time; otherwise the body runs without a suspension. *)
Definition start_completion (now : Z) (t : nat) (c : completion) (h : hub) : hub :=
  let h := set_pending (delete t (u_pending h)) h in
  if completed_timeout <=? 0 then drop [c] h else on_prompt_completed now c h.

(** The completions a drain cancels before they start. *)
Definition cancelled_by_drain (h : hub) : gmap nat completion :=
  filter (fun kv => kv.1 ∈ dom (bg_tasks (u_background h))) (u_pending h).

Definition drain (h : hub) : hub :=
  let cancelled := cancelled_by_drain h in
  drop (map_to_list cancelled).*2 (set_pending (u_pending h ∖ cancelled) (set_background (drain_begin (u_background h)) h)).

Inductive hub_label : Type :=
| PromptDone (c : completion)
| Announces (t : nat)
| DrainStarts
| Elsewhere.

Inductive hub_step : hub -> hub_label -> hub -> Prop :=
| hs_complete h now c : hub_step h (PromptDone c) (complete now c h)
| hs_start h now t c : u_pending h !! t = Some c -> hub_step h (Announces t) (start_completion now t c h)
| hs_drain h : bg_draining (u_background h) = None -> hub_step h DrainStarts (drain h)
(** another task is tracked, a task ends, a drain ends *)
| hs_track h now source name session caller r b ws :
    track_background environ tasks_max window now (u_background h) source name session caller = (r, b, ws) ->
    hub_step h Elsewhere (set_background b h)
| hs_done h t : t ∈ bg_live (u_background h) -> u_pending h !! t = None ->
    hub_step h Elsewhere (set_background (on_done (u_background h) t) h)
| hs_drained h p : bg_draining (u_background h) = Some p -> p ∩ bg_live (u_background h) = ∅ ->
    hub_step h Elsewhere (set_background (drain_end (u_background h)) h)
(** a continuation file changes or a fire ends; the webhook runner moves *)
| hs_continuations h x : cstep fanin_ttl global_fires (u_continuations h) x -> h_notes x = h_notes (u_continuations h) ->
    hub_step h Elsewhere (mk_hub (u_background h) (u_pending h) x (u_webhooks h) (u_announced h) (u_dropped h))
| hs_webhooks h x : wstep global_deliveries name_cap (u_webhooks h) x ->
    hub_step h Elsewhere (mk_hub (u_background h) (u_pending h) (u_continuations h) x (u_announced h) (u_dropped h)).
End Hub.

(** The completions of a run, in order. *)
Definition completed (ls : list hub_label) : list completion :=
  omap (fun l => match l with PromptDone c => Some c | _ => None end) ls.

(** ** Lemmas: the hub *)

(** A map falls into a part of it and the rest. *)
Lemma map_to_list_split {V} (part m : gmap nat V) :
  part ⊆ m -> map_to_list m ≡ₚ map_to_list part ++ map_to_list (m ∖ part).
Proof.
  intros Hp. rewrite <-(map_difference_union part m) at 1 by done.
  assert (Hd : part ##ₘ m ∖ part) by (by apply map_disjoint_difference_r1).
  clear Hp. revert Hd. generalize (m ∖ part) as rest. intros rest.
  induction part as [|t v part Ht IH] using map_ind; intros Hd; [by rewrite map_empty_union, map_to_list_empty|].
  apply map_disjoint_insert_l in Hd as [Hr Hd].
  rewrite <-insert_union_l, !map_to_list_insert; [|done|by apply lookup_union_None]. by rewrite IH.
Qed.

Section HubLemmas.
Variables continuation_runner webhook_runner : bool.
Variable environ : string -> option string.
Variables tasks_max window completed_timeout fanin_ttl global_fires global_deliveries : Z.
Variable name_cap : string -> Z.

Abbreviation step := (hub_step continuation_runner webhook_runner environ tasks_max window completed_timeout fanin_ttl
  global_fires global_deliveries name_cap).
Abbreviation announce := (on_prompt_completed continuation_runner webhook_runner fanin_ttl global_fires global_deliveries).

(** What a continuation is told of a completion. *)
Definition noted (c : completion) : string * string * bool * string :=
  (c_kind c, c_session c, c_success c, c_response c).
Definition note_content (n : note) : string * string * bool * string :=
  (n_kind n, n_session n, n_success n, n_response n).

(** Everything the hub holds, announced, dropped or waiting. *)
Definition held (h : hub) : list completion := u_announced h ++ (map_to_list (u_pending h)).*2 ++ u_dropped h.

Record hub_inv (h : hub) : Prop := {
  hi_background : exists ls, runs (bg_step environ tasks_max window) new_background ls (u_background h);
  hi_pending : dom (u_pending h) ⊆ bg_live (u_background h);
  hi_continuations : rtc (cstep fanin_ttl global_fires) initial_history (u_continuations h);
  hi_notes : note_content <$> h_notes (u_continuations h) =
             if continuation_runner then noted <$> u_announced h else [];
  hi_webhooks : rtc (wstep global_deliveries name_cap) initial_world (u_webhooks h)
}.

Lemma initial_hub_inv : hub_inv initial_hub.
Proof.
  split; cbn; [by exists []; constructor|set_solver|reflexivity|by destruct continuation_runner|reflexivity].
Qed.

Lemma background_moves h l b :
  hub_inv h -> bg_step environ tasks_max window (u_background h) l b -> dom (u_pending h) ⊆ bg_live b ->
  hub_inv (set_background b h).
Proof.
  intros [[ls H1] H2 H3 H4 H5] Hst Hd. split; cbn; try done. exists (ls ++ [l]). by eapply runs_snoc.
Qed.

Lemma drop_inv h cs : hub_inv h -> hub_inv (drop cs h).
Proof. by intros []; split. Qed.

Lemma set_pending_inv h p : hub_inv h -> dom p ⊆ bg_live (u_background h) -> hub_inv (set_pending p h).
Proof. by intros []; split. Qed.

Lemma announce_inv now c h : hub_inv h -> hub_inv (announce now c h).
Proof.
  intros [H1 H2 H3 H4 H5]. split; cbn; try done.
  - unfold notify_continuations. destruct continuation_runner; [|done]. cbv zeta. eapply rtc_r; [exact H3|].
    destruct (u_continuations h) as [r ns fs]. apply (cstep_notify _ _ r ns fs (note_of now c)).
  - unfold notify_continuations. destruct continuation_runner; [|done]. cbn. rewrite !fmap_app, H4. done.
  - unfold fire_webhooks. destruct webhook_runner; [|done]. destruct (fire _ _ _ _ _) as [fs r] eqn:E.
    eapply rtc_r; [exact H5|]. destruct (u_webhooks h) as [r0 l]. by eapply wstep_fire.
Qed.

(** Tracking only ever adds the new task to those that run. *)
Lemma track_keeps_live b now source name session caller r b' ws :
  track_background environ tasks_max window now b source name session caller = (r, b', ws) ->
  bg_live b ⊆ bg_live b' /\
  (r = Raise ValueError \/ r = Ok None \/ r = Ok (Some (bg_next b)) /\ bg_next b ∈ bg_live b').
Proof.
  intros Ht. pose proof (track_cases environ tasks_max window now b source name session caller) as Hc. rewrite Ht in Hc.
  cbv zeta in Hc. destruct (effective_cap _ _ source) as [cap|]; [|by destruct Hc as (-> & -> & _); split; [|left]].
  destruct (cap <=? _).
  - destruct Hc as (-> & _ & -> & _). split; [done|]. right. by left.
  - destruct Hc as (-> & _ & _ & _ & -> & _). split; [set_solver|]. right. right. split; [done|set_solver].
Qed.

Lemma reachable_live_fresh h t : hub_inv h -> t ∈ bg_live (u_background h) -> (t < bg_next (u_background h))%nat.
Proof.
  intros [[ls Hr] _ _ _ _] Ht. eapply (runs_invariant _ (bg_inv environ tasks_max)) in Hr; [|intros ???; apply bg_step_inv|apply new_background_inv].
  by apply Hr.
Qed.

Lemma fresh_not_pending h : hub_inv h -> u_pending h !! bg_next (u_background h) = None.
Proof.
  intros Hi. destruct (u_pending h !! _) eqn:E; [|done].
  assert (bg_next (u_background h) < bg_next (u_background h))%nat; [|lia].
  apply reachable_live_fresh; [done|]. apply (hi_pending h Hi). by apply elem_of_dom.
Qed.

Lemma hub_step_inv h l h' : step h l h' -> hub_inv h -> hub_inv h'.
Proof.
  intros Hst Hi. destruct Hst as [h now c|h now t c Hp|h Hd|h now source name session caller r b ws Ht|h t Hl Hn
    |h p Hp Hd|h x Hx Hn|h x Hx].
  - unfold complete. destruct (track_background _ _ _ _ _ _ _ _ _) as [[r b] ws] eqn:Ht.
    pose proof (track_keeps_live _ _ _ _ _ _ _ _ _ Ht) as [Hl Hr].
    assert (Hb : hub_inv (set_background b h)).
    { eapply background_moves; [done|by econstructor|]. pose proof (hi_pending h Hi). set_solver. }
    destruct Hr as [->|[->|[-> Hin]]]; [by apply drop_inv| |].
    + destruct (falls_back _); [by apply announce_inv|by apply drop_inv].
    + apply set_pending_inv; [done|]. rewrite dom_insert. pose proof (hi_pending _ Hb). cbn in *. set_solver.
  - unfold start_completion. assert (Hb : hub_inv (set_pending (delete t (u_pending h)) h)).
    { apply set_pending_inv; [done|]. rewrite dom_delete. pose proof (hi_pending h Hi). set_solver. }
    destruct (_ <=? 0); [by apply drop_inv|by apply announce_inv].
  - apply drop_inv, set_pending_inv.
    + eapply background_moves; [done|by econstructor|]. cbn. apply (hi_pending h Hi).
    + cbn. rewrite dom_difference. pose proof (hi_pending h Hi). set_solver.
  - pose proof (track_keeps_live _ _ _ _ _ _ _ _ _ Ht) as [Hl _].
    eapply background_moves; [done|by econstructor|]. pose proof (hi_pending h Hi). set_solver.
  - eapply background_moves; [done|by econstructor|]. cbn. apply not_elem_of_dom in Hn. pose proof (hi_pending h Hi). set_solver.
  - eapply background_moves; [done|by econstructor|]. cbn. apply (hi_pending h Hi).
  - destruct Hi as [H1 H2 H3 H4 H5]. split; cbn; try done; [by eapply rtc_r|]. by rewrite Hn.
  - destruct Hi as [H1 H2 H3 H4 H5]. split; cbn; try done. by eapply rtc_r.
Qed.

(** *** Nothing is lost track of *)

Lemma held_insert t c (p : gmap nat completion) xs ys :
  p !! t = None -> xs ++ (map_to_list (<[t := c]> p)).*2 ++ ys ≡ₚ c :: (xs ++ (map_to_list p).*2 ++ ys).
Proof. intros Hp. rewrite map_to_list_insert by done. cbn. by rewrite <-Permutation_middle. Qed.

Lemma held_delete t c (p : gmap nat completion) xs ys :
  p !! t = Some c -> xs ++ (map_to_list p).*2 ++ ys ≡ₚ c :: (xs ++ (map_to_list (delete t p)).*2 ++ ys).
Proof. intros Hp. rewrite <-held_insert by apply lookup_delete_eq. by rewrite insert_delete_id. Qed.

Lemma announced_held now c h : held (announce now c h) ≡ₚ c :: held h.
Proof. unfold held. cbn. rewrite <-app_assoc. cbn. by rewrite <-Permutation_middle. Qed.

Lemma dropped_held cs h : held (drop cs h) ≡ₚ held h ++ cs.
Proof. unfold held. cbn. by rewrite !app_assoc. Qed.

Lemma hub_step_held h l h' :
  step h l h' -> hub_inv h -> held h' ≡ₚ held h ++ match l with PromptDone c => [c] | _ => [] end.
Proof.
  intros Hst Hi. destruct Hst as [h now c|h now t c Hp|h Hd|h now source name session caller r b ws Ht|h t Hl Hn
    |h p Hp Hd|h x Hx Hn|h x Hx]; rewrite ?app_nil_r; try done.
  - unfold complete. destruct (track_background _ _ _ _ _ _ _ _ _) as [[r b] ws] eqn:Ht.
    pose proof (track_keeps_live _ _ _ _ _ _ _ _ _ Ht) as [_ Hr].
    assert (Hone : forall xs : list completion, c :: xs ≡ₚ xs ++ [c]) by (intros; apply Permutation_cons_append).
    destruct Hr as [->|[->|[-> _]]]; [by rewrite dropped_held| |].
    + destruct (falls_back _); [by rewrite announced_held, Hone|by rewrite dropped_held].
    + rewrite <-Hone. unfold held. cbn. apply held_insert. by apply fresh_not_pending.
  - unfold start_completion. transitivity (c :: held (set_pending (delete t (u_pending h)) h)).
    + destruct (_ <=? 0); [by rewrite dropped_held, <-Permutation_cons_append|by rewrite announced_held].
    + symmetry. unfold held. cbn. by apply held_delete.
  - unfold drain. rewrite dropped_held. unfold held. cbn. rewrite <-!app_assoc. f_equiv.
    rewrite (map_to_list_split _ _ (map_filter_subseteq _ _ : cancelled_by_drain h ⊆ u_pending h)).
    rewrite fmap_app, <-!app_assoc. rewrite (Permutation_app_comm (u_dropped h)).
    by rewrite (Permutation_app_swap_app (map_to_list (u_pending h ∖ _)).*2).
Qed.
End HubLemmas.

(** ** Lemmas: requests and replies *)

Lemma str_filter_all p s : str_all p (str_filter p s) = true.
Proof. induction s as [|c s IH]; cbn; [done|]. destruct (p c) eqn:E; cbn; [by rewrite E|done]. Qed.

Lemma str_filter_length p s : (String.length (str_filter p s) <= String.length s)%nat.
Proof. induction s as [|c s IH]; cbn; [lia|]. destruct (p c); cbn; lia. Qed.

Lemma clean_session_spec raw :
  str_all printable (clean_session raw) = true /\ str_len (clean_session raw) <= 256.
Proof.
  split; [apply str_filter_all|]. unfold clean_session, str_len.
  pose proof (str_filter_length printable (str_take (Z.to_nat 256) (str_strip raw))).
  assert (Hl : forall n s, (String.length (str_take n s) <= n)%nat).
  { intros n. induction n as [|n IH]; intros [|c s]; cbn; try lia. specialize (IH s). lia. }
  specialize (Hl (Z.to_nat 256) (str_strip raw)). lia.
Qed.

(** The last word on a task or a request. *)
Definition terminal (ev : a2a_event) : bool :=
  match ev with Completed _ _ | FailedTask _ | ReplyMessage _ _ | Oversize _ => true | _ => false end.
Definition terminals (evs : list a2a_event) : nat := length (filter (fun ev => terminal ev = true) evs).

Lemma terminals_app evs1 evs2 : terminals (evs1 ++ evs2) = (terminals evs1 + terminals evs2)%nat.
Proof. unfold terminals. by rewrite filter_app, length_app. Qed.

Section ReplyLemmas.
Variable enqueue : a2a_event -> option exn.

Definition accepted (evs : list a2a_event) : Prop := Forall (fun ev => enqueue ev = None) evs.

Lemma emit_spec ev :
  (enqueue ev = None /\ emit enqueue ev = ([ev], Ok tt)) \/
  exists e, enqueue ev = Some e /\ emit enqueue ev = ([], Raise e).
Proof. unfold emit. destruct (enqueue ev); eauto. Qed.

Lemma emit_accepted ev : accepted (emit enqueue ev).1.
Proof. unfold accepted. destruct (emit_spec ev) as [[H ->]|(e & _ & ->)]; repeat constructor; done. Qed.

(** What the reply sends: all of it, or less and an exception. *)
Lemma reply_sent updater text meta sent r :
  emit_all enqueue (reply updater text meta) = (sent, r) ->
  accepted sent /\
  (r = Ok tt /\ sent = reply updater text meta /\ terminals sent = 1%nat \/
   exists e ev, r = Raise e /\ enqueue ev = Some e /\ terminals sent = 0%nat).
Proof.
  unfold reply, accepted. destruct updater; [case_decide|]; cbn [app emit_all].
  - destruct (emit_spec (Completed text meta)) as [[Hc ->]|(e & Hc & ->)]; cbn; intros [= <- <-].
    + split; [by repeat constructor|by left].
    + split; [constructor|right; eauto].
  - destruct (emit_spec (Artifact text)) as [[Ha ->]|(e & Ha & ->)]; cbn; [|intros [= <- <-]; split; [constructor|right; eauto]].
    destruct (emit_spec (Completed text meta)) as [[Hc ->]|(e & Hc & ->)]; cbn; intros [= <- <-].
    + split; [by repeat constructor|by left].
    + split; [by repeat constructor|right; eauto].
  - destruct (emit_spec (ReplyMessage text meta)) as [[Hc ->]|(e & Hc & ->)]; cbn; intros [= <- <-].
    + split; [by repeat constructor|by left].
    + split; [constructor|right; eauto].
Qed.

Lemma on_exception_spec updater e :
  accepted (on_exception enqueue updater e) /\ (terminals (on_exception enqueue updater e) <= 1)%nat /\
  (enqueue (FailedTask e) = None -> updater = true -> e <> CancelledError -> terminals (on_exception enqueue updater e) = 1%nat).
Proof.
  unfold accepted, on_exception, is_exception. destruct updater; cbn [andb]; [case_bool_decide|].
  - destruct (emit_spec (FailedTask e)) as [[Hf ->]|(e' & Hf & ->)]; cbn.
    + split_and!; [by repeat constructor|done|done].
    + split_and!; [apply Forall_nil_2|lia|intros; congruence].
  - split_and!; [constructor|cbn; lia|done].
  - split_and!; [constructor|cbn; lia|done].
Qed.
End ReplyLemmas.

(** Everything [drive] emits, when what it sends before an exception is not
    terminal. *)
Lemma drive_events enqueue updater begun sent raised :
  accepted enqueue begun -> terminals begun = 0%nat -> accepted enqueue sent ->
  terminals sent = (match raised with Some _ => 0 | None => 1 end)%nat ->
  let evs := begun ++ sent ++ match raised with Some e => on_exception enqueue updater e | None => [] end in
  accepted enqueue evs /\ (terminals evs <= 1)%nat /\ (raised = None -> terminals evs = 1%nat) /\
  (updater = true -> (forall e, enqueue (FailedTask e) = None) -> raised <> Some CancelledError -> terminals evs = 1%nat).
Proof.
  intros Hb1 Hb2 Hs1 Hs2. cbv zeta. rewrite !terminals_app, Hb2, Hs2. unfold accepted in *. rewrite !Forall_app.
  destruct raised as [e|]; [|by split_and!; try apply Forall_nil_2; cbn].
  destruct (on_exception_spec enqueue updater e) as (Ha & Hl & Hf). split_and!; try done.
  intros Hu Hall Hc. rewrite Hf; [done|apply Hall|done|congruence].
Qed.

(** The [try] statement of [execute]. *)
Lemma drive_spec enqueue updater rq outcome :
  let x := drive enqueue updater rq outcome in
  accepted enqueue (x_events x) /\ (terminals (x_events x) <= 1)%nat /\
  x_completion x = Some (a2a_completion rq (if x_ran x then outcome else Raise OtherError) (x_raised x)) /\
  (x_raised x = None -> x_ran x = true /\ succeeded outcome = true /\ terminals (x_events x) = 1%nat) /\
  (updater = true -> (forall e, enqueue (FailedTask e) = None) -> x_raised x <> Some CancelledError ->
   terminals (x_events x) = 1%nat).
Proof.
  assert (Hw : exists begun r, (if updater then emit enqueue Working else ([], Ok tt)) = (begun, r) /\
     accepted enqueue begun /\ terminals begun = 0%nat).
  { destruct updater; [|exists [], (Ok tt); by repeat constructor]. unfold accepted.
    destruct (emit_spec enqueue Working) as [[H E]|(e & H & E)]; rewrite E; eexists _, _; (split; [done|]); by repeat constructor. }
  assert (Hnil : accepted enqueue []) by apply Forall_nil_2.
  unfold drive. destruct Hw as (begun & r & -> & Hb1 & Hb2).
  destruct r as [[]|e]; [destruct outcome as [text|e]; [destruct (emit_all _ _) as [sent r] eqn:Hs|]|];
    cbn [x_events x_completion x_ran x_raised].
  2,3: by destruct (drive_events enqueue updater begun [] (Some e)) as (H1 & H2 & _ & H4).
  apply reply_sent in Hs as [Hs1 Hs2].
  set (raised := match r with Raise e => Some e | Ok _ => None end).
  assert (Hr : terminals sent = (match raised with Some _ => 0 | None => 1 end)%nat)
    by (unfold raised; destruct Hs2 as [(-> & _ & Hs)|(e & ev & -> & _ & Hs)]; done).
  by destruct (drive_events enqueue updater begun sent raised Hb1 Hb2 Hs1 Hr) as (H1 & H2 & H3 & H4); split_and!; try done; intros; split_and!; auto.
Qed.

(** ** Lemmas: what is dropped *)

Section Dropped.
Variables continuation_runner webhook_runner : bool.
Variable environ : string -> option string.
Variables tasks_max window completed_timeout fanin_ttl global_fires global_deliveries : Z.
Variable name_cap : string -> Z.

Abbreviation step := (hub_step continuation_runner webhook_runner environ tasks_max window completed_timeout fanin_ttl
  global_fires global_deliveries name_cap).

Definition only_trigger (h : hub) : Prop := forall c, c ∈ u_dropped h -> c_origin c = FromTrigger.
Definition no_drain (l : hub_label) : Prop := match l with DrainStarts => False | _ => True end.

Lemma hub_step_dropped h l h' :
  is_Some (critical_cap environ tasks_max) -> 0 < completed_timeout -> no_drain l -> step h l h' ->
  only_trigger h -> only_trigger h'.
Proof.
  intros [cap Hcap] Ht Hl Hst Hi. destruct Hst as [h now c|h now t c Hp|h Hd|h now source name session caller r b ws Htr|h t Hlv Hn
    |h p Hp Hd|h x Hx Hn|h x Hx]; try done.
  - unfold complete. assert (He : is_Some (effective_cap environ tasks_max (source_name (c_origin c))))
      by (unfold effective_cap; rewrite Hcap; by eexists).
    destruct He as [ecap He]. unfold track_background. rewrite He. cbv zeta.
    destruct (ecap <=? _); [destruct (log_shed _ _ _ _ _ _)|done].
    destruct (falls_back (c_origin c)) eqn:Ef; [done|].
    intros c'. cbn. intros [Hin|Hin]%elem_of_app; [by apply Hi|]. apply list_elem_of_singleton in Hin as ->.
    by destruct (c_origin c).
  - unfold start_completion. destruct (Z.leb_spec completed_timeout 0); [lia|done].
Qed.

(** The completions that wait can all be announced. *)
Lemma pending_announced h :
  0 < completed_timeout ->
  exists ts h', runs step h (Announces <$> ts) h' /\ u_pending h' = ∅ /\ u_dropped h' = u_dropped h /\
    u_announced h' ≡ₚ u_announced h ++ (map_to_list (u_pending h)).*2.
Proof.
  intros Ht. remember (u_pending h) as p eqn:Hp. revert h Hp.
  induction p as [|t c p Hn IH] using map_ind; intros h Hp.
  - exists [], h. split; [constructor|]. rewrite <-Hp, map_to_list_empty, app_nil_r. done.
  - set (h1 := start_completion continuation_runner webhook_runner completed_timeout fanin_ttl global_fires global_deliveries 0 t c h).
    assert (Hstep : step h (Announces t) h1) by (constructor; rewrite <-Hp; apply lookup_insert_eq).
    assert (Hh1 : h1 = on_prompt_completed continuation_runner webhook_runner fanin_ttl global_fires global_deliveries 0 c
                        (set_pending (delete t (u_pending h)) h))
      by (unfold h1, start_completion; by destruct (Z.leb_spec completed_timeout 0); [lia|]).
    destruct (IH h1) as (ts & h' & Hr & He & Hd & Ha).
    { rewrite Hh1. cbn. rewrite <-Hp. by rewrite delete_insert_id. }
    exists (t :: ts), h'. split; [by econstructor|]. rewrite Ha, Hd, Hh1. cbn. split_and!; [done|done|].
    rewrite map_to_list_insert by done. by rewrite <-app_assoc.
Qed.
End Dropped.

(** ** Properties *)

(** C18: No completion is lost track of. After any interleaving of prompts
    that end at the A2A executor, at the bus and at the triggers, of the
    background tasks of the announcements and of others, of drains, and of
    the continuation and webhook runners, the completions so far are those
    announced, those that wait for their task and those dropped, each once.
    The background set is one [Background] reaches, the continuations have
    been notified of exactly the announced completions in their order, and
    continuations and webhooks are in states their own components reach. Those
    that wait can all be announced. Unless a drain starts, nothing but a shed
    trigger completion is dropped when the critical cap parses and the
    announcements are given time. *)
Theorem completions_accounted continuation_runner webhook_runner environ tasks_max window completed_timeout fanin_ttl
    global_fires global_deliveries name_cap ls h :
  let step := hub_step continuation_runner webhook_runner environ tasks_max window completed_timeout fanin_ttl
                global_fires global_deliveries name_cap in
  runs step initial_hub ls h ->
  completed ls ≡ₚ u_announced h ++ (map_to_list (u_pending h)).*2 ++ u_dropped h /\
  (exists bls, runs (bg_step environ tasks_max window) new_background bls (u_background h)) /\
  dom (u_pending h) ⊆ bg_live (u_background h) /\
  rtc (cstep fanin_ttl global_fires) initial_history (u_continuations h) /\
  note_content <$> h_notes (u_continuations h) = (if continuation_runner then noted <$> u_announced h else []) /\
  rtc (wstep global_deliveries name_cap) initial_world (u_webhooks h) /\
  (0 < completed_timeout ->
   exists ts h', runs step h (Announces <$> ts) h' /\ u_pending h' = ∅ /\ u_dropped h' = u_dropped h) /\
  (is_Some (critical_cap environ tasks_max) -> 0 < completed_timeout -> Forall no_drain ls ->
   forall c, c ∈ u_dropped h -> c_origin c = FromTrigger).
Proof.
  cbv zeta. intros Hrun. set (step := hub_step _ _ _ _ _ _ _ _ _ _) in *.
  assert (Hinv : hub_inv continuation_runner environ tasks_max window fanin_ttl global_fires global_deliveries name_cap h).
  { eapply runs_invariant; [|exact Hrun|apply initial_hub_inv]. intros ???. apply hub_step_inv. }
  assert (Hheld : forall ls h h', runs step h ls h' ->
    hub_inv continuation_runner environ tasks_max window fanin_ttl global_fires global_deliveries name_cap h ->
    held h' ≡ₚ held h ++ completed ls).
  { clear. induction 1 as [h|h l h1 ls h2 Hst _ IH]; intros Hi; [by rewrite app_nil_r|].
    rewrite IH by (by eapply hub_step_inv). rewrite (hub_step_held _ _ _ _ _ _ _ _ _ _ _ _ _ Hst Hi).
    rewrite <-app_assoc. f_equiv. destruct l; reflexivity. }
  destruct Hinv as [H1 H2 H3 H4 H5]. split_and!; try done.
  - symmetry. rewrite <-(app_nil_l (completed ls)). apply (Hheld ls initial_hub h Hrun). apply initial_hub_inv.
  - intros Ht. destruct (pending_announced continuation_runner webhook_runner environ tasks_max window completed_timeout
      fanin_ttl global_fires global_deliveries name_cap h Ht) as (ts & h' & ? & ? & ? & _). by exists ts, h'.
  - intros Hc Ht Hls. apply (runs_invariant_labels _ no_drain only_trigger) in Hrun; try done.
    + intros s l s' Hl Hst. by eapply hub_step_dropped.
    + intros c Hin. by apply elem_of_nil in Hin.
Qed.

(** C19: An A2A request is answered as the code says. A prompt of more bytes
    than the cap never reaches a backend; any other is run at most once, under
    a session id that is a fresh one or a clean text of at most 256
    characters, and its completion carries what the run returned. Whatever the
    queue refuses, at most one terminal event is sent; exactly one is sent
    when [execute] returns, and in polling mode also when it raises anything
    but a cancellation, as long as the failure itself can be sent. *)
Theorem execute_answers cfg cap float_int uuid fresh enqueue prompt context_id metadata blocking task_id run :
  let x := execute cfg cap float_int uuid fresh enqueue prompt context_id metadata blocking task_id run in
  accepted enqueue (x_events x) /\ (terminals (x_events x) <= 1)%nat /\
  match a2a_request cfg cap float_int uuid fresh prompt context_id metadata with
  | Raise e => x = mk_execution [] false None (Some e)
  | Ok None => 0 < cap < prompt_bytes prompt /\ x_ran x = false /\ x_completion x = None
  | Ok (Some rq) =>
      (0 < cap -> prompt_bytes prompt <= cap) /\ rq_prompt rq = prompt /\
      (rq_session rq = uuid \/
       rq_session rq <> "" /\ str_all printable (rq_session rq) = true /\ str_len (rq_session rq) <= 256) /\
      match x_completion x with
      | None => x_ran x = false /\ x_raised x = Some CancelledError
      | Some c => c_origin c = FromA2A /\ c_kind c = "a2a" /\ c_session c = rq_session rq /\
          c_success c = x_ran x && succeeded (run rq) /\
          c_response c = (if x_ran x then response_of (run rq) else "")
      end /\
      (x_raised x = None -> x_ran x = true /\ succeeded (run rq) = true /\ terminals (x_events x) = 1%nat) /\
      (blocking = false -> task_id = true -> enqueue Submitted = None -> (forall e, enqueue (FailedTask e) = None) ->
       x_raised x <> Some CancelledError -> terminals (x_events x) = 1%nat)
  end.
Proof.
  cbv zeta. unfold execute.
  destruct (a2a_request _ _ _ _ _ _ _ _) as [[rq|]|e] eqn:Hq; cbn [x_events].
  - assert (Hrq : (0 < cap -> prompt_bytes prompt <= cap) /\ rq_prompt rq = prompt /\
      rq_session rq = a2a_session uuid context_id metadata).
    { unfold a2a_request in Hq. destruct (oversize cap prompt) eqn:Ho; [done|].
      apply res_bind_Ok in Hq as (model & _ & Hq). apply res_bind_Ok in Hq as (mt & _ & Hq). injection Hq as <-.
      split_and!; try done. unfold oversize in Ho. boolp. lia. }
    destruct Hrq as (Hcap & Hp & Hs).
    assert (Hses : rq_session rq = uuid \/
       rq_session rq <> "" /\ str_all printable (rq_session rq) = true /\ str_len (rq_session rq) <= 256).
    { rewrite Hs. unfold a2a_session. cbv zeta. case_decide; [by left|right]. split; [done|apply clean_session_spec]. }
    assert (Hdrive : forall updater, let x := drive enqueue updater rq (run rq) in
      match x_completion x with
      | None => x_ran x = false /\ x_raised x = Some CancelledError
      | Some c => c_origin c = FromA2A /\ c_kind c = "a2a" /\ c_session c = rq_session rq /\
          c_success c = x_ran x && succeeded (run rq) /\
          c_response c = (if x_ran x then response_of (run rq) else "")
      end).
    { intros updater. cbv zeta. destruct (drive_spec enqueue updater rq (run rq)) as (_ & _ & -> & _).
      by destruct (x_ran _). }
    destruct (negb blocking && task_id) eqn:Hpoll.
    + destruct (emit_spec enqueue Submitted) as [[Hsub ->]|(e & Hsub & ->)].
      * destruct (drive_spec enqueue true rq (run rq)) as (Ha & Hl & _ & Hret & Hpol).
        cbn [x_events x_ran x_completion x_raised app]. specialize (Hdrive true).
        change (terminals (Submitted :: ?evs)) with (terminals evs).
        split_and!; try done; [by constructor|]. intros; by apply Hpol.
      * destruct (drive_spec enqueue false rq (run rq)) as (Ha & Hl & _ & Hret & _). specialize (Hdrive false).
        destruct (decide (e = CancelledError)) as [->|He].
        { cbn. split_and!; try done; [constructor|lia]. }
        assert (Hd : forall A (a b : A), match e with CancelledError => a | _ => b end = b) by (by destruct e).
        rewrite Hd. split_and!; try done. congruence.
    + destruct (drive_spec enqueue false rq (run rq)) as (Ha & Hl & _ & Hret & _). specialize (Hdrive false).
      split_and!; try done. intros -> ->. done.
  - assert (Ho : 0 < cap < prompt_bytes prompt).
    { unfold a2a_request in Hq. destruct (oversize cap prompt) eqn:Ho; [unfold oversize in Ho; boolp; lia|].
      apply res_bind_Ok in Hq as (model & _ & Hq). by apply res_bind_Ok in Hq as (mt & _ & Hq). }
    destruct (emit_spec enqueue (Oversize (prompt_bytes prompt))) as [[He ->]|(e & He & ->)]; cbn;
      split_and!; try done; try lia; [by repeat constructor|constructor].
  - cbn. split_and!; [constructor|lia|done].
Qed.

(** ** A bus message from the queue to its result *)

(** With room for a session no use of one fails. *)
Lemma track_session_ok m sessions s now :
  1 <= m -> exists sessions', track_session m sessions s now = Ok sessions' /\ last sessions' = Some (s, now).
Proof.
  intros Hm. unfold track_session. destruct (od_get sessions s); [eexists; split; [done|]; by rewrite last_snoc|].
  destruct (Z.leb_spec m (Z.of_nat (length sessions))).
  - destruct sessions as [|e rest]; [cbn in *; lia|]. eexists. split; [done|]. by rewrite last_snoc.
  - eexists. split; [done|]. by rewrite last_snoc.
Qed.

Lemma worker_finish_result b m f :
  result_of b m = FPending ->
  result_of (worker_finish b m f) m = (if future_done f then f else FCancelled).
Proof.
  intros Hb. unfold worker_finish. rewrite Hb. cbn [future_done]. unfold result_of, set_result, release_pending.
  cbn. rewrite lookup_insert_eq. cbn. destruct f; cbn; by rewrite lookup_insert_eq.
Qed.

Lemma nonempty_fallback d o : d <> "" -> default d (nonempty o) <> "".
Proof. unfold nonempty. destruct o; [case_decide|]; done. Qed.


(** ** The running tasks

    [_running_tasks] and its gauge: an execution with a task id registers its
    asyncio task before [execute] reaches its [try] and removes the entry of
    its task id in the [finally] clause; a cancellation during the submit
    falls between the two. *)

Record registry : Type := mk_registry {
  rg_tasks : gmap string nat;
  rg_gauge : Z;
  (** ghost: the executions between registration and removal *)
  rg_live : gmap nat string
}.

Definition new_registry : registry := mk_registry ∅ 0 ∅.

Definition register_task (r : registry) (t : nat) (task_id : string) : registry :=
  mk_registry (<[task_id := t]> (rg_tasks r)) (rg_gauge r + 1) (<[t := task_id]> (rg_live r)).

Definition remove_task (r : registry) (t : nat) (task_id : string) : registry :=
  match rg_tasks r !! task_id with
  | Some _ => mk_registry (delete task_id (rg_tasks r)) (rg_gauge r - 1) (delete t (rg_live r))
  | None => mk_registry (rg_tasks r) (rg_gauge r) (delete t (rg_live r))
  end.

(** [cancel]: the asyncio task it reaches. *)
Definition cancel (r : registry) (task_id : option string) : option nat :=
  task_id ← nonempty task_id; rg_tasks r !! task_id.

Inductive registry_label : Type := Begins (t : nat) (task_id : string) | Ends (t : nat) | CancelledInSubmit (t : nat).

Inductive registry_step : registry -> registry_label -> registry -> Prop :=
| rg_begin r t task_id : rg_live r !! t = None -> registry_step r (Begins t task_id) (register_task r t task_id)
| rg_end r t task_id : rg_live r !! t = Some task_id -> registry_step r (Ends t) (remove_task r t task_id)
| rg_cancelled r t : registry_step r (CancelledInSubmit t) (mk_registry (rg_tasks r) (rg_gauge r) (delete t (rg_live r))).

(** A task id is not used by two executions at a time, and none is cancelled
    during its submit. *)
Definition disciplined (r : registry) (l : registry_label) : Prop :=
  match l with
  | Begins _ task_id => forall t, rg_live r !! t <> Some task_id
  | Ends _ => True
  | CancelledInSubmit _ => False
  end.

Definition registry_ok (r : registry) : Prop :=
  rg_gauge r = Z.of_nat (size (rg_tasks r)) /\
  forall t task_id, rg_live r !! t = Some task_id <-> rg_tasks r !! task_id = Some t.

Lemma registry_step_ok r l r' : registry_step r l r' -> disciplined r l -> registry_ok r -> registry_ok r'.
Proof.
  intros Hst Hd [Hg Hx]. destruct Hst as [r t task_id Ht|r t task_id Ht|r t]; [| |done]; unfold registry_ok;
    cbn [disciplined] in Hd; cbn [rg_gauge rg_tasks rg_live register_task].
  - assert (Hn : rg_tasks r !! task_id = None).
    { destruct (rg_tasks r !! task_id) as [t'|] eqn:E; [|done]. apply Hx in E. by apply Hd in E. }
    split; [rewrite map_size_insert_None by done; lia|]. intros t' id'.
    destruct (decide (t' = t)) as [->|Hne]; destruct (decide (id' = task_id)) as [->|Hne'];
      rewrite ?lookup_insert_eq, ?lookup_insert_ne by done; try done.
    + split; [congruence|]. intros Hid. apply Hx in Hid. congruence.
    + split; [|congruence]. intros Hid. by apply Hd in Hid.
  - assert (Htr : rg_tasks r !! task_id = Some t) by by apply Hx. unfold remove_task. rewrite Htr. cbn. split.
    + rewrite map_size_delete, Htr. cbn. enough (size (rg_tasks r) <> 0%nat) by lia.
      intros E%map_size_empty_iff. rewrite E in Htr. by rewrite lookup_empty in Htr.
    + intros t' id'. rewrite !lookup_delete_Some, Hx. split; intros [Hne Hid]; (split; [|done]); intros <-; apply Hne.
      * congruence.
      * apply Hx in Hid. congruence.
Qed.

(** Then the entries are exactly the live executions, each under its task id,
    and the gauge is their number. *)
Lemma registry_exact r :
  rtc (fun r1 r2 => exists l, registry_step r1 l r2 /\ disciplined r1 l) new_registry r -> registry_ok r.
Proof.
  intros Hr. assert (H0 : registry_ok new_registry).
  { split; [cbn; by rewrite map_size_empty|]. intros. cbn. by rewrite !lookup_empty. }
  revert H0. induction Hr as [|r r1 r2 (l & Hst & Hd) _ IH]; [done|]. intros H0. by eapply IH, registry_step_ok.
Qed.

(** ** Concrete inputs *)

(** A task id used by two executions at a time: the end of the first removes
    the entry of the second, which can no longer be cancelled, and the gauge
    stays up. *)
Example reused_task_id :
  let r := remove_task (register_task (register_task new_registry 1 "t") 2 "t") 1 "t" in
  rg_live r !! 2%nat = Some "t" /\ cancel r (Some "t") = None /\ rg_gauge (remove_task r 2 "t") = 1.
Proof. vm_compute. by repeat split. Qed.

Definition text_completion (o : origin) (kind response : string) : completion :=
  mk_completion o kind "s" true response None VNone None.

(** One background task at most: the second completion of the bus is
    announced on the spot, that of the trigger is dropped. *)
Definition demo_environ : string -> option string :=
  fun k => if decide (k = "BACKGROUND_TASKS_CRITICAL_MAX") then Some "2" else None.

Definition demo_hub : hub :=
  let done o n h := complete true true demo_environ 1 10 3600 10 10 0 (text_completion o n "r") h in
  start_completion true true 660 3600 10 10 0 0 (text_completion FromBus "job:a" "r")
    (done FromTrigger "trigger:c" (done FromBus "job:b" (done FromBus "job:a" initial_hub))).

Definition demo_labels : list hub_label :=
  [PromptDone (text_completion FromBus "job:a" "r"); PromptDone (text_completion FromBus "job:b" "r");
   PromptDone (text_completion FromTrigger "trigger:c" "r"); Announces 0].

Lemma demo_run : runs (hub_step true true demo_environ 1 10 660 3600 10 10 (fun _ => 1)) initial_hub demo_labels demo_hub.
Proof. unfold demo_labels, demo_hub. repeat (econstructor; [constructor|]); [done|constructor]. Qed.

Example demo_announced :
  c_kind <$> u_announced demo_hub = ["job:b"; "job:a"] /\ c_kind <$> u_dropped demo_hub = ["trigger:c"] /\
  n_kind <$> h_notes (u_continuations demo_hub) = ["job:b"; "job:a"].
Proof. vm_compute. by repeat split. Qed.

Lemma completions_accounted_witness :
  completed demo_labels ≡ₚ u_announced demo_hub ++ (map_to_list (u_pending demo_hub)).*2 ++ u_dropped demo_hub /\
  (forall c, c ∈ u_dropped demo_hub -> c_origin c = FromTrigger).
Proof.
  destruct (completions_accounted true true demo_environ 1 10 660 3600 10 10 (fun _ => 1) demo_labels demo_hub demo_run)
    as (H1 & _ & _ & _ & _ & _ & _ & H8).
  split; [exact H1|]. apply H8; [eexists; vm_compute; reflexivity|lia|repeat constructor].
Defined.

(** With no time for announcements every tracked completion is dropped. *)
Example no_time_drops_all :
  let h := complete true true (fun _ => None) 10 10 3600 10 10 0 (text_completion FromBus "job:a" "r") initial_hub in
  u_announced (start_completion true true 0 3600 10 10 0 0 (text_completion FromBus "job:a" "r") h) = [] /\
  u_announced (start_completion true true 1 3600 10 10 0 0 (text_completion FromBus "job:a" "r") h) =
    [text_completion FromBus "job:a" "r"].
Proof. vm_compute. by split. Qed.

(** A drain drops what has not started. *)
Example drain_drops :
  let h := complete true true (fun _ => None) 10 10 3600 10 10 0 (text_completion FromBus "job:a" "r") initial_hub in
  u_dropped (drain h) = [text_completion FromBus "job:a" "r"].
Proof. vm_compute. reflexivity. Qed.

Definition demo_config : loaded := config (init_executor (Ok (two_backends "openai"))).
Definition demo_trace : trace_context := mk_trace "0af7651916cd43dd8448eb211c80319c" "b7ad6b7169203331" "01" "00".
Definition demo_execute (enqueue : a2a_event -> option exn) (metadata : list (string * pyval)) (blocking : bool)
    (outcome : res string) : execution :=
  execute demo_config 100 (fun _ => Raise ValueError) "uuid" demo_trace enqueue "hello" (Some "ctx") (mk_dict metadata)
    blocking true (fun _ => outcome).

Definition demo_meta : option (string * option string) := reply_meta demo_trace.

Example replies :
  x_events (demo_execute (fun _ => None) [] true (Ok "hi")) = [ReplyMessage "hi" demo_meta] /\
  x_events (demo_execute (fun _ => None) [] false (Ok "hi")) = [Submitted; Working; Artifact "hi"; Completed "hi" demo_meta] /\
  x_events (demo_execute (fun _ => None) [] false (Ok "")) = [Submitted; Working; Completed "" demo_meta] /\
  x_events (demo_execute (fun _ => None) [] false (Raise ValueError)) = [Submitted; Working; FailedTask ValueError] /\
  (** a cancelled task is left as it is *)
  x_events (demo_execute (fun _ => None) [] false (Raise CancelledError)) = [Submitted; Working].
Proof. vm_compute. by repeat split. Qed.

(** The reply cannot be sent: the completion is a success with an error. *)
Example unsent_reply_succeeds :
  let x := demo_execute (fun ev => match ev with ReplyMessage _ _ => Some RuntimeError | _ => None end) [] true (Ok "hi") in
  x_raised x = Some RuntimeError /\
  (fun c => (c_success c, c_response c, c_error c)) <$> x_completion x = Some (true, "hi", Some RuntimeError).
Proof. vm_compute. by split. Qed.

(** A backend id that cannot be a key ends the execution before its [try]:
    nothing is announced; with a model of its own it fails inside. *)
Example unhashable_backend_unannounced :
  let x := demo_execute (fun _ => None) [("backend_id", VList [VInt 1])] true (Raise TypeError) in
  let y := demo_execute (fun _ => None) [("backend_id", VList [VInt 1]); ("model", VStr "m")] true (Raise TypeError) in
  (x_ran x, x_completion x, x_raised x) = (false, None, Some TypeError) /\
  x_ran y = true /\ x_raised y = Some TypeError /\ is_Some (x_completion y).
Proof. vm_compute. repeat split; eauto. Qed.

(** The cap of a session id counts characters, not bytes, and DEL and the
    control characters above 127 stay. *)
Example session_cleaning :
  let long := String.string_of_list_ascii (repeat (ascii_of_N 233) 300) in
  let del := String (ascii_of_N 127) (String (ascii_of_N 144) (String (ascii_of_N 7) "a")) in
  str_len (clean_session long) = 256 /\ str_len (utf8_encode (clean_session long)) = 512 /\
  clean_session del = String (ascii_of_N 127) (String (ascii_of_N 144) "a").
Proof. vm_compute. by repeat split. Qed.

