(* ===== verification/Readiness.v ===== *)
(** * Readiness (harness/main.py, [health_ready] and its cache;
    harness/executor.py, [_guarded])

    The readiness probe with its cached, single-flight sweep of the backends,
    as a transition system of concurrent probes cut at their awaits; and the
    supervisor that restarts the bus worker and takes the agent out of
    service while it keeps crashing.  Clocks give microseconds. *)
From Stdlib Require Import Ascii.
From S2P Require Import Prelude PyStr PyVal Routing.

(** ** The probe *)

Inductive verdict : Type := ReadyVerdict | UnhealthyVerdict (ids : list pyval).

Inductive answer : Type :=
| Starting
| BadThreshold
| ConfigStale (failures : Z)
| NoBackends
| Verdict (v : verdict).

(** [int(os.environ.get("BACKEND_RELOAD_FAILURE_THRESHOLD", "3"))]; [None]
    when it raises. *)
Definition reload_threshold (environ : string -> option string) : option Z :=
  match environ "BACKEND_RELOAD_FAILURE_THRESHOLD" with None => Some 3 | Some raw => py_int raw end.

(** One backend: the status of [/health/ready] and, asked after a 404, that of
    [/health]; any exception counts against it. *)
Definition probe_ok (responses : res Z * res Z) : bool :=
  match responses.1 with
  | Ok status =>
      if status =? 200 then true
      else if status =? 404 then match responses.2 with Ok s => s =? 200 | Raise _ => false end
      else false
  | Raise _ => false
  end.

Definition verdict_of (bs : list backend_config) (results : list bool) : verdict :=
  if forallb id results then ReadyVerdict
  else UnhealthyVerdict (omap (fun p => if p.2 : bool then None else Some (b_id p.1)) (zip bs results)).

Definition with_url (ex : option executor) : list backend_config :=
  match ex with
  | Some ex => filter (fun b => truthy (b_url b) = true) (backends (config ex))
  | None => []
  end.

(** A probe that has not been answered: it waits for the lock or sweeps. *)
Inductive phase : Type :=
| Waiting (bs : list backend_config)
| Sweeping (bs : list backend_config) (start : Z).

(** A sweep that has ended. *)
Record sweep : Type := mk_sweep {
  sw_backends : list backend_config;
  sw_results : list bool;
  sw_start : Z;
  sw_end : Z
}.

Record probes : Type := mk_probes {
  (** [_ready], [_executor] *)
  p_ready : bool;
  p_executor : option executor;
  (** [_health_ready_cache], [_health_ready_expires], [_health_ready_lock] *)
  p_cache : option verdict;
  p_expires : Z;
  p_locked : bool;
  p_phases : gmap nat phase;
  p_clock : Z;
  (** ghost: the sweeps that ended, latest first, and the last invalidation *)
  p_sweeps : list sweep;
  p_invalidated : Z
}.

Definition initial_probes : probes := mk_probes false None None 0 false ∅ 0 [] 0.

Section Probe.
Variable environ : string -> option string.
(** [HEALTH_READY_CACHE_TTL] *)
Variable ttl : Z.

Definition cached (s : probes) (now : Z) : option verdict :=
  match p_cache s with Some v => if now <? p_expires s then Some v else None | None => None end.

Definition set_clock (s : probes) (now : Z) : probes :=
  mk_probes (p_ready s) (p_executor s) (p_cache s) (p_expires s) (p_locked s) (p_phases s) now (p_sweeps s) (p_invalidated s).

Definition set_phases (s : probes) (locked : bool) (ps : gmap nat phase) : probes :=
  mk_probes (p_ready s) (p_executor s) (p_cache s) (p_expires s) locked ps (p_clock s) (p_sweeps s) (p_invalidated s).

(** The lock is taken: the cache is looked at again. *)
Definition enter (s : probes) (now : Z) (i : nat) (bs : list backend_config) : option answer * probes :=
  match cached s now with
  | Some v => (Some (Verdict v), set_phases s false (delete i (p_phases s)))
  | None => (None, set_phases s true (<[i := Sweeping bs now]> (p_phases s)))
  end.

(** [health_ready] up to its first suspension. *)
Definition arrive (s : probes) (now : Z) (i : nat) : option answer * probes :=
  if negb (p_ready s) then (Some Starting, s)
  else match reload_threshold environ with
  | None => (Some BadThreshold, s)
  | Some threshold =>
      let failures := match p_executor s with Some ex => reload_failures ex | None => 0 end in
      if (match p_executor s with Some _ => true | None => false end) && (threshold <=? failures)
      then (Some (ConfigStale failures), s)
      else match with_url (p_executor s) with
      | [] => (Some NoBackends, s)
      | bs =>
          match cached s now with
          | Some v => (Some (Verdict v), s)
          | None => if p_locked s then (None, set_phases s true (<[i := Waiting bs]> (p_phases s))) else enter s now i bs
          end
      end
  end.

(** The sweep is over: the cache is filled and the lock released. *)
Definition finish (s : probes) (now : Z) (i : nat) (bs : list backend_config) (start : Z) (responses : list (res Z * res Z))
  : answer * probes :=
  let results := probe_ok <$> responses in
  let v := verdict_of bs results in
  (Verdict v,
   mk_probes (p_ready s) (p_executor s) (Some v) (now + ttl) false (delete i (p_phases s)) (p_clock s)
     (mk_sweep bs results start now :: p_sweeps s) (p_invalidated s)).

(** [invalidate_health_ready_cache] *)
Definition invalidate (s : probes) (now : Z) : probes :=
  mk_probes (p_ready s) (p_executor s) None 0 (p_locked s) (p_phases s) (p_clock s) (p_sweeps s) now.

Inductive probe_label : Type := Answers (i : nat) (now : Z) (a : answer) | Invalidates | Silent.

Definition label_of (i : nat) (now : Z) (a : option answer) : probe_label :=
  match a with Some a => Answers i now a | None => Silent end.

Inductive probe_step : probes -> probe_label -> probes -> Prop :=
| ps_arrive s now i a s' : p_clock s <= now -> p_phases s !! i = None -> arrive (set_clock s now) now i = (a, s') ->
    probe_step s (label_of i now a) s'
| ps_wake s now i bs a s' : p_clock s <= now -> p_phases s !! i = Some (Waiting bs) -> p_locked s = false ->
    enter (set_clock s now) now i bs = (a, s') -> probe_step s (label_of i now a) s'
| ps_finish s now i bs start responses a s' : p_clock s <= now -> p_phases s !! i = Some (Sweeping bs start) ->
    length responses = length bs -> finish (set_clock s now) now i bs start responses = (a, s') ->
    probe_step s (Answers i now a) s'
(** a probe is cancelled, waiting or within its sweep *)
| ps_abandon s i bs : p_phases s !! i = Some (Waiting bs) ->
    probe_step s Silent (set_phases s (p_locked s) (delete i (p_phases s)))
| ps_cancel s i bs start : p_phases s !! i = Some (Sweeping bs start) ->
    probe_step s Silent (set_phases s false (delete i (p_phases s)))
| ps_invalidate s now : p_clock s <= now -> probe_step s Invalidates (invalidate (set_clock s now) now)
(** the flag changes, or the configuration *)
| ps_ready s b : probe_step s Silent (mk_probes b (p_executor s) (p_cache s) (p_expires s) (p_locked s) (p_phases s)
                                       (p_clock s) (p_sweeps s) (p_invalidated s))
| ps_reload s ex : probe_step s Silent (mk_probes (p_ready s) ex (p_cache s) (p_expires s) (p_locked s) (p_phases s)
                                         (p_clock s) (p_sweeps s) (p_invalidated s)).
End Probe.

(** ** Lemmas: the probe *)

Definition is_sweeping (ph : phase) : bool := match ph with Sweeping _ _ => true | Waiting _ => false end.

Definition invalidates (l : probe_label) : bool := match l with Invalidates => true | _ => false end.

Section ProbeLemmas.
Variable environ : string -> option string.
Variable ttl : Z.

Abbreviation step := (probe_step environ ttl).

(** Latest first, one after the other. *)
Fixpoint spaced (gap : Z) (sws : list sweep) : Prop :=
  match sws with
  | [] => True
  | sw :: rest => sw_start sw <= sw_end sw /\ (forall sw', sw' ∈ rest -> sw_end sw' + gap <= sw_start sw) /\ spaced gap rest
  end.

Definition sweeps_before (gap now : Z) (sws : list sweep) : Prop := forall sw, sw ∈ sws -> sw_end sw + gap <= now.

(** [gap]: what lies between two sweeps, at least; nothing is promised when
    the cache may be invalidated. *)
Variable gap : Z.

Record probes_inv (s : probes) : Prop := {
  pi_lock : map_count is_sweeping (p_phases s) = (if p_locked s then 1 else 0)%nat;
  pi_cache : forall v, p_cache s = Some v -> exists sw rest, p_sweeps s = sw :: rest /\
             v = verdict_of (sw_backends sw) (sw_results sw) /\ p_expires s = sw_end sw + ttl /\ p_invalidated s <= sw_end sw;
  pi_invalidated : p_invalidated s <= p_clock s;
  pi_sweeps : spaced gap (p_sweeps s) /\ sweeps_before 0 (p_clock s) (p_sweeps s);
  pi_start : forall i bs start, p_phases s !! i = Some (Sweeping bs start) ->
             start <= p_clock s /\ sweeps_before gap start (p_sweeps s);
  pi_gap : gap = 0 \/ gap = ttl /\ (p_sweeps s <> [] -> is_Some (p_cache s))
}.

Lemma initial_probes_inv : gap = 0 \/ gap = ttl -> probes_inv initial_probes.
Proof.
  intros Hgap. split; cbn; try done.
  - split; [done|]. intros sw Hin. by apply elem_of_nil in Hin.
  - destruct Hgap; [by left|by right].
Qed.

Lemma set_clock_inv s now : p_clock s <= now -> probes_inv s -> probes_inv (set_clock s now).
Proof.
  intros Hn [H1 H2 Hv [H3 H3'] H4 H5]. split; cbn; try done; [lia| |].
  - split; [done|]. intros sw Hin. specialize (H3' sw Hin). lia.
  - intros i bs start Hi. destruct (H4 i bs start Hi). split; [lia|done].
Qed.

(** A waiting phase more or less. *)
Lemma waiting_inv s i bs :
  probes_inv s -> p_phases s !! i = None -> probes_inv (set_phases s (p_locked s) (<[i := Waiting bs]> (p_phases s))).
Proof.
  intros [H1 H2 Hv H3 H4 H5] Hi. split; cbn; try done.
  - rewrite map_count_fresh by done. cbn. lia.
  - intros j bs' start [[_ [=]]|[_ Hj]]%lookup_insert_Some. by eapply H4.
Qed.


Lemma probe_leave_inv s i ph locked :
  probes_inv s -> p_phases s !! i = Some ph -> (if is_sweeping ph then p_locked s = true /\ locked = false else locked = p_locked s) ->
  probes_inv (set_phases s locked (delete i (p_phases s))).
Proof.
  intros [H1 H2 Hv H3 H4 H5] Hi Hl. split; cbn; try done.
  - pose proof (map_count_delete is_sweeping (p_phases s) i ph Hi) as Hc. rewrite H1 in Hc.
    destruct ph; cbn in Hl, Hc; [subst locked; lia|]. destruct Hl as [Hl ->]. rewrite Hl in Hc. lia.
  - intros j bs' start [_ Hj]%lookup_delete_Some. by eapply H4.
Qed.

Lemma sweeping_locked s i bs start : probes_inv s -> p_phases s !! i = Some (Sweeping bs start) -> p_locked s = true.
Proof.
  intros Hs Hi. pose proof (pi_lock s Hs) as Hc. destruct (p_locked s); [done|].
  apply map_count_0 with (i := i) (x := Sweeping bs start) in Hc; done.
Qed.

(** Without a cached verdict the gap since the last sweep is over. *)
Lemma cached_None_gap s now : probes_inv s -> p_clock s = now -> cached s now = None -> sweeps_before gap now (p_sweeps s).
Proof.
  intros Hs Hn Hc. destruct (pi_sweeps s Hs) as [Hsp Hbef]. destruct (pi_gap s Hs) as [->|[Hg Hsome]]; [by rewrite <-Hn|].
  unfold cached in Hc. intros sw Hin. destruct (p_cache s) as [v|] eqn:Ec.
  - destruct (pi_cache s Hs v Ec) as (sw0 & rest & E & _ & Hexp & _). rewrite E in *.
    destruct (Z.ltb_spec now (p_expires s)); [done|]. destruct Hsp as (Hse & Hrest & _).
    apply elem_of_cons in Hin as [->|Hin]; [lia|]. specialize (Hrest sw Hin).
    assert (sw_end sw0 + 0 <= p_clock s) by (apply Hbef; left). lia.
  - destruct (p_sweeps s); [by apply elem_of_nil in Hin|]. destruct Hsome as [? [=]]. done.
Qed.

(** What a probe that looks at the cache under the lock does. *)
Lemma probe_enter_inv s now i bs a s' :
  probes_inv s -> p_clock s = now -> p_locked s = false ->
  (p_phases s !! i = None \/ p_phases s !! i = Some (Waiting bs)) ->
  enter s now i bs = (a, s') -> probes_inv s'.
Proof.
  intros Hs Hn Hl Hi. unfold enter. destruct (cached s now) as [v|] eqn:Hc; intros [= <- <-].
  - destruct Hi as [Hi|Hi].
    + rewrite delete_id by done. rewrite <-Hl. by destruct Hs, s.
    + apply (probe_leave_inv _ _ (Waiting bs)); [done|done|]. cbn. by rewrite Hl.
  - pose proof (cached_None_gap s now Hs Hn Hc) as Hbef. destruct Hs as [H1 H2 Hv H3 H4 H5]. split; cbn; try done.
    + pose proof (map_count_insert is_sweeping (p_phases s) i (Sweeping bs now)) as Hcount. rewrite H1, Hl in Hcount. cbn in Hcount.
      destruct Hi as [Hi|Hi]; rewrite Hi in Hcount; cbn in Hcount; lia.
    + intros j bs' start [[_ [= <- <-]]|[_ Hj]]%lookup_insert_Some; [|by eapply H4]. split; [lia|done].
Qed.

Lemma arrive_cases s now i a s' :
  arrive environ s now i = (a, s') ->
  s' = s /\ is_Some a \/
  exists bs, with_url (p_executor s) = bs /\ bs <> [] /\ cached s now = None /\
    (p_locked s = true /\ a = None /\ s' = set_phases s true (<[i := Waiting bs]> (p_phases s)) \/
     p_locked s = false /\ (a, s') = enter s now i bs).
Proof.
  unfold arrive. destruct (p_ready s); cbn [negb]; [|intros [= <- <-]; left; eauto].
  destruct (reload_threshold environ); [|intros [= <- <-]; left; eauto].
  destruct (_ && _); [intros [= <- <-]; left; eauto|].
  destruct (with_url (p_executor s)) as [|b bs] eqn:Hb; [intros [= <- <-]; left; eauto|].
  destruct (cached s now) eqn:Hc; [intros [= <- <-]; left; eauto|].
  intros Ha. right. exists (b :: bs). split_and!; try done.
  destruct (p_locked s); [left; by injection Ha as <- <-|right; done].
Qed.

Lemma probe_finish_inv s now i bs start responses a s' :
  probes_inv s -> p_clock s = now -> p_phases s !! i = Some (Sweeping bs start) -> finish ttl s now i bs start responses = (a, s') ->
  probes_inv s'.
Proof.
  intros Hs Hn Hi [= <- <-]. pose proof (sweeping_locked _ _ _ _ Hs Hi) as Hl.
  destruct (pi_start s Hs _ _ _ Hi) as [Hst Hbef].
  destruct (probe_leave_inv s i (Sweeping bs start) false Hs Hi (conj Hl eq_refl)) as [H1 _ Hv [Hsp Hall] H4 Hg].
  cbn in H1, Hv, Hsp, Hall, H4, Hg. split; cbn; try done.
  - intros v [= <-]. eexists _, _. split; [done|]. cbn. split_and!; try done. lia.
  - split_and!; [lia|done|done|]. intros sw [->|Hin]%elem_of_cons; [cbn; lia|by apply Hall].
  - intros j bs' start' Hj. apply map_count_0 with (i := j) (x := Sweeping bs' start') in H1; done.
  - destruct Hg as [Hg|[Hg _]]; [by left|right]. split; [done|]. by eexists.
Qed.

Lemma arrive_inv s now i a s' :
  probes_inv s -> p_clock s = now -> p_phases s !! i = None -> arrive environ s now i = (a, s') -> probes_inv s'.
Proof.
  intros Hs Hn Hi Ha. apply arrive_cases in Ha as [[-> _]|(bs & _ & _ & _ & [(Hl & _ & ->)|(Hl & He)])]; [done| |].
  - rewrite <-Hl. by apply waiting_inv.
  - by eapply probe_enter_inv; eauto.
Qed.

Lemma probe_step_inv s l s' :
  gap = 0 \/ invalidates l = false -> step s l s' -> probes_inv s -> probes_inv s'.
Proof.
  intros Hl Hst Hs.
  destruct Hst as [s now i a s' Hn Hi Ha|s now i bs a s' Hn Hi Hlk He|s now i bs start responses a s' Hn Hi Hlen Hf
    |s i bs Hi|s i bs start Hi|s now Hn|s b|s ex]; try (apply (set_clock_inv s now Hn) in Hs).
  - by eapply arrive_inv.
  - by eapply probe_enter_inv; eauto.
  - by eapply probe_finish_inv.
  - by eapply probe_leave_inv.
  - eapply probe_leave_inv; [done|done|]. cbn. split; [by eapply sweeping_locked|done].
  - destruct Hs as [H1 H2 Hv H3 H4 H5]. split; cbn in *; try done. by destruct Hl as [Hl|Hl]; [left|].
  - by destruct Hs; split.
  - by destruct Hs; split.
Qed.
End ProbeLemmas.

(** Every sweep asks at least one backend, and each of them once. *)
Definition phase_backends (ph : phase) : list backend_config := match ph with Waiting bs | Sweeping bs _ => bs end.

Definition probed (bs : list backend_config) : Prop := bs <> [] /\ Forall (fun b => truthy (b_url b) = true) bs.

Record probes_wf (s : probes) : Prop := {
  pw_phases : forall i ph, p_phases s !! i = Some ph -> probed (phase_backends ph);
  pw_sweeps : Forall (fun sw => probed (sw_backends sw) /\ length (sw_results sw) = length (sw_backends sw)) (p_sweeps s)
}.

Lemma probes_wf_insert s b i ph :
  probes_wf s -> probed (phase_backends ph) -> probes_wf (set_phases s b (<[i := ph]> (p_phases s))).
Proof. intros [H1 H2] Hp. split; cbn; [|done]. intros j ph' [[_ <-]|[_ Hj]]%lookup_insert_Some; [done|by eapply H1]. Qed.

Lemma probes_wf_delete s b i : probes_wf s -> probes_wf (set_phases s b (delete i (p_phases s))).
Proof. intros [H1 H2]. split; cbn; [|done]. intros j ph [_ Hj]%lookup_delete_Some. by eapply H1. Qed.

Lemma enter_wf s now i bs a s' : probes_wf s -> probed bs -> enter s now i bs = (a, s') -> probes_wf s'.
Proof.
  intros Hs Hb. unfold enter. destruct (cached s now); intros [= <- <-]; [by apply probes_wf_delete|by apply probes_wf_insert].
Qed.

Lemma with_url_probed ex : with_url ex <> [] -> probed (with_url ex).
Proof.
  intros Hne. split; [done|]. rewrite Forall_forall. unfold with_url. destruct ex; [|by intros b Hb%elem_of_nil].
  by intros b [Hb _]%list_elem_of_filter.
Qed.

Lemma probe_step_wf environ ttl s l s' : probe_step environ ttl s l s' -> probes_wf s -> probes_wf s'.
Proof.
  intros Hst Hs.
  destruct Hst as [s now i a s' Hn Hi Ha|s now i bs a s' Hn Hi Hlk He|s now i bs start responses a s' Hn Hi Hlen Hf
    |s i bs Hi|s i bs start Hi|s now Hn|s b|s ex].
  - assert (Hc : probes_wf (set_clock s now)) by by destruct Hs; split.
    apply arrive_cases in Ha as [[-> _]|(bs & Hbs & Hne & _ & [(_ & _ & ->)|(_ & He)])]; [done| |];
      (assert (Hp : probed bs) by (rewrite <-Hbs; apply with_url_probed; by rewrite Hbs)).
    + by apply probes_wf_insert.
    + by eapply enter_wf.
  - assert (Hc : probes_wf (set_clock s now)) by by destruct Hs; split.
    eapply enter_wf; [exact Hc| |done]. apply (pw_phases s Hs i _ Hi).
  - injection Hf as <- <-. destruct Hs as [H1 H2]. split; cbn.
    + intros j ph [_ Hj]%lookup_delete_Some. by eapply H1.
    + constructor; [|done]. cbn. split; [by apply (H1 i _ Hi)|]. by rewrite length_fmap.
  - by apply probes_wf_delete.
  - by apply probes_wf_delete.
  - by destruct Hs; split.
  - by destruct Hs; split.
  - by destruct Hs; split.
Qed.

Lemma verdict_ready bs results : verdict_of bs results = ReadyVerdict <-> Forall (fun ok => ok = true) results.
Proof.
  unfold verdict_of. rewrite Forall_forall. destruct (forallb id results) eqn:E.
  - split; [|done]. intros _ ok Hok. rewrite forallb_forall in E. by apply E, list_elem_of_In.
  - split; [done|]. intros Hall. assert (forallb id results = true); [|congruence].
    apply forallb_forall. intros ok Hok. by apply Hall, list_elem_of_In.
Qed.

(** A cached verdict is that of the last sweep. *)
Lemma cached_sweep gap ttl s now v :
  probes_inv ttl gap s -> p_clock s = now -> cached s now = Some v ->
  exists sw rest, p_sweeps s = sw :: rest /\ v = verdict_of (sw_backends sw) (sw_results sw) /\
    sw_end sw <= now < sw_end sw + ttl /\ p_invalidated s <= sw_end sw.
Proof.
  intros Hs Hn Hc. unfold cached in Hc. destruct (p_cache s) as [v'|] eqn:Ec; [|done].
  destruct (Z.ltb_spec now (p_expires s)); [|done]. injection Hc as ->.
  destruct (pi_cache ttl gap s Hs v Ec) as (sw & rest & E & Hv & Hexp & Hi). exists sw, rest.
  split_and!; try done; [|lia]. destruct (pi_sweeps ttl gap s Hs) as [_ Hbef].
  assert (sw_end sw + 0 <= p_clock s) by (apply Hbef; rewrite E; left). lia.
Qed.

(** ** The supervisor *)

(** What the supervised worker is doing: it runs since a time, with the
    recovery timer set or not; it has crashed, having run since a time, and
    the supervisor sleeps until another, the timer of the attempt still set
    or not (the [finally] clause that cancels it comes after the sleep); it is
    over. *)
Inductive worker : Type :=
| Running (since : Z) (watch : bool)
| Resting (since : Z) (watch : bool) (until : Z)
| Over.

Record supervisor : Type := mk_supervisor {
  v_worker : worker;
  (** [consecutive_restarts] *)
  v_streak : Z;
  (** [_ready] *)
  v_ready : bool;
  v_started : bool;
  v_clock : Z;
  (** ghost: how long each attempt lasted, latest first *)
  v_attempts : list Z
}.

Definition initial_supervisor (now : Z) : supervisor := mk_supervisor (Running now false) 0 false false now [].

Section Supervisor.
(** [restart_delay], [WORKER_MAX_RESTARTS] *)
Variables restart_delay max_restarts : Z.

(** The worker raises. *)
Definition crash (s : supervisor) (since : Z) (watch : bool) (now : Z) : supervisor :=
  let streak := (if restart_delay * 3 <=? now - since then 0 else v_streak s) + 1 in
  mk_supervisor (Resting since watch (now + restart_delay)) streak (if max_restarts <=? streak then false else v_ready s)
    (v_started s) now (now - since :: v_attempts s).

Definition restart (s : supervisor) (now : Z) : supervisor :=
  mk_supervisor (Running now (0 <? v_streak s)) (v_streak s) (v_ready s) (v_started s) now (v_attempts s).

(** [_on_recovered], from the timer. *)
Definition recovered (s : supervisor) (w : worker) (now : Z) : supervisor :=
  mk_supervisor w (v_streak s) true (v_started s) now (v_attempts s).

Inductive sup_label : Type := Crashes | Restarts | Recovers | ServerStarts | Stops.

Inductive sup_step : supervisor -> sup_label -> supervisor -> Prop :=
| ss_crash s since watch now : v_worker s = Running since watch -> v_clock s <= now ->
    sup_step s Crashes (crash s since watch now)
| ss_restart s since watch until now : v_worker s = Resting since watch until -> until <= now -> v_clock s <= now ->
    sup_step s Restarts (restart s now)
| ss_recover s since now : v_worker s = Running since true -> since + restart_delay * 3 <= now -> v_clock s <= now ->
    sup_step s Recovers (recovered s (Running since false) now)
(** the timer of the attempt that crashed is still set during the sleep *)
| ss_recover_down s since until now : v_worker s = Resting since true until -> since + restart_delay * 3 <= now ->
    v_clock s <= now -> sup_step s Recovers (recovered s (Resting since false until) now)
(** [_set_ready_when_started] *)
| ss_start s now : v_started s = false -> v_clock s <= now ->
    sup_step s ServerStarts (mk_supervisor (v_worker s) (v_streak s) true true now (v_attempts s))
(** a clean return, or a cancellation *)
| ss_stop s now : v_clock s <= now ->
    sup_step s Stops (mk_supervisor Over (v_streak s) (v_ready s) (v_started s) now (v_attempts s)).
End Supervisor.

(** ** Lemmas: the supervisor *)

Section SupervisorLemmas.
Variables restart_delay max_restarts : Z.

Abbreviation step := (sup_step restart_delay max_restarts).

(** Shorter than what counts as a stable run. *)
Definition short (d : Z) : Prop := d < restart_delay * 3.

(** The crashes in a row, the attempts latest first: the first of them may
    have been stable. *)
Fixpoint crash_streak (ds : list Z) : Z :=
  match ds with
  | [] => 0
  | d :: rest => (if restart_delay * 3 <=? d then 0 else crash_streak rest) + 1
  end.

Lemma crash_streak_long n ds :
  Z.of_nat n <= crash_streak ds -> (n <= length ds)%nat /\ Forall short (take (n - 1) ds).
Proof.
  revert n. induction ds as [|d ds IH]; intros n; cbn [crash_streak length].
  - intros Hn. assert (n = 0)%nat as -> by lia. split; [lia|constructor].
  - destruct n as [|n]; [intros _; split; [lia|constructor]|]. intros Hn.
    replace (S n - 1)%nat with n by lia.
    destruct (Z.leb_spec (restart_delay * 3) d); [assert (n = 0)%nat as -> by lia; split; [lia|constructor]|].
    destruct (IH n) as [Hl Hf]; [lia|]. split; [lia|]. destruct n as [|n]; [constructor|].
    replace (S n - 1)%nat with n in Hf by lia. cbn. by constructor.
Qed.

(** Some crash ended a streak of the length that counts. *)
Definition has_looped (ds : list Z) : Prop :=
  exists recent older, ds = recent ++ older /\ (Z.to_nat max_restarts <= length older)%nat /\
    Forall short (take (Z.to_nat max_restarts - 1) older).

Record sup_inv (s : supervisor) : Prop := {
  vi_streak : v_streak s = crash_streak (v_attempts s);
  vi_not_ready : v_started s = true -> v_ready s = false -> 0 < v_streak s /\ has_looped (v_attempts s);
  vi_watch : forall since, v_started s = true -> v_ready s = false -> v_worker s <> Running since false
}.

Lemma streak_pos d ds : 0 < crash_streak (d :: ds).
Proof.
  assert (H : forall ds, 0 <= crash_streak ds) by (clear; induction ds as [|d ds IH]; cbn; [lia|destruct (_ <=? _); lia]).
  cbn. specialize (H ds). destruct (_ <=? _); lia.
Qed.

Lemma has_looped_cons d ds : has_looped ds -> has_looped (d :: ds).
Proof. intros (recent & older & -> & Ho). by exists (d :: recent), older. Qed.

Lemma sup_step_inv s l s' : step s l s' -> sup_inv s -> sup_inv s'.
Proof.
  intros Hst [H1 H2 H3]. destruct Hst as [s since watch now Hw Hn|s since watch until now Hw Hu Hn|s since now Hw Hs Hn|s since until now Hw Hs Hn
    |s now Hs Hn|s now Hn];
    unfold crash, restart, recovered.
  - assert (Hst : (if restart_delay * 3 <=? now - since then 0 else v_streak s) + 1 = crash_streak (now - since :: v_attempts s))
      by (cbn; by rewrite H1).
    split; cbn [v_streak v_attempts v_started v_ready v_worker]; [done| |done].
    intros Hs Hr. rewrite Hst in *. split; [apply streak_pos|].
    destruct (Z.leb_spec max_restarts (crash_streak (now - since :: v_attempts s))) as [Hle|].
    + exists [], (now - since :: v_attempts s). split; [done|]. apply crash_streak_long.
      pose proof (streak_pos (now - since) (v_attempts s)). lia.
    + apply has_looped_cons, H2; done.
  - split; cbn; [done|done|]. intros since' Hs Hr [= _ Hwatch]. destruct (H2 Hs Hr). lia.
  - by split; cbn.
  - by split; cbn.
  - by split; cbn.
  - by split; cbn.
Qed.

Lemma initial_sup_inv now : sup_inv (initial_supervisor now).
Proof. by split; cbn. Qed.
End SupervisorLemmas.

(** ** Properties *)

(** What a readiness probe answers, whatever probes, cancellations,
    invalidations, reloads and changes of the flag came before. At most one
    probe sweeps the backends at a time, and sweeps that end do not overlap;
    while nothing is invalidated each begins no earlier than the TTL after the
    end of the one before. A verdict is that of the last sweep, which ended
    now or less than the TTL ago and not before the last invalidation, which
    asked at least one backend and got a result from each, and it is ready
    exactly when all of them were; every other answer has its cause in the
    current state. *)
Theorem probe_answers_fresh environ ttl ls s :
  runs (probe_step environ ttl) initial_probes ls s ->
  map_count is_sweeping (p_phases s) = (if p_locked s then 1 else 0)%nat /\
  spaced 0 (p_sweeps s) /\
  (Forall (fun l => invalidates l = false) ls -> spaced ttl (p_sweeps s)) /\
  forall i now a s', probe_step environ ttl s (Answers i now a) s' ->
    match a with
    | Verdict v =>
        exists sw rest, p_sweeps s' = sw :: rest /\
          (sw_end sw = now \/ sw_end sw <= now < sw_end sw + ttl) /\ p_invalidated s' <= sw_end sw /\
          probed (sw_backends sw) /\ length (sw_results sw) = length (sw_backends sw) /\
          v = verdict_of (sw_backends sw) (sw_results sw) /\
          (v = ReadyVerdict <-> Forall (fun ok => ok = true) (sw_results sw))
    | Starting => p_ready s = false
    | BadThreshold => p_ready s = true /\ reload_threshold environ = None
    | ConfigStale n => p_ready s = true /\ exists ex threshold, p_executor s = Some ex /\ n = reload_failures ex /\
        reload_threshold environ = Some threshold /\ threshold <= n
    | NoBackends => p_ready s = true /\ with_url (p_executor s) = []
    end.
Proof.
  intros Hrun. assert (Hinv : probes_inv ttl 0 s).
  { eapply runs_invariant; [|exact Hrun|apply initial_probes_inv; by left]. intros ??? Hst. eapply probe_step_inv; [by left|exact Hst]. }
  split; [apply Hinv|]. split; [apply Hinv|]. split.
  { intros Hls. apply (runs_invariant_labels _ (fun l => invalidates l = false) (probes_inv ttl ttl)) in Hrun; [apply Hrun| |done|].
    - intros ??? Hl Hst. eapply probe_step_inv; [by right|exact Hst].
    - apply initial_probes_inv. by right. }
  assert (Hwf : probes_wf s).
  { eapply runs_invariant; [|exact Hrun|by split; cbn]. intros ???. apply probe_step_wf. }
  intros i now a s' Hst.
  assert (Hcached : forall v, p_clock s <= now -> cached s now = Some v -> exists sw rest, p_sweeps s = sw :: rest /\
    (sw_end sw = now \/ sw_end sw <= now < sw_end sw + ttl) /\ p_invalidated s <= sw_end sw /\
    probed (sw_backends sw) /\ length (sw_results sw) = length (sw_backends sw) /\
    v = verdict_of (sw_backends sw) (sw_results sw) /\ (v = ReadyVerdict <-> Forall (fun ok => ok = true) (sw_results sw))).
  { intros v Hn Hc. apply (set_clock_inv _ _ _ _ Hn) in Hinv.
    destruct (cached_sweep _ _ _ _ v Hinv eq_refl Hc) as (sw & rest & Hsw & -> & Hend & Hi). cbn in Hsw, Hi.
    destruct Hwf as [_ Hsweeps]. rewrite Hsw in Hsweeps. apply Forall_cons in Hsweeps as [[Hp Hl] _].
    exists sw, rest. split_and!; try done; [by right|apply verdict_ready]. }
  remember (Answers i now a) as l eqn:El.
  destruct Hst as [s now' i' a' s' Hn Hi Ha|s now' i' bs a' s' Hn Hi Hlk He|s now' i' bs start responses a' s' Hn Hi Hlen Hf
    |s i' bs Hi|s i' bs start Hi|s now' Hn|s b|s ex]; try done.
  - destruct a' as [a'|]; [|done]. injection El as -> -> ->. unfold arrive in Ha. cbn in Ha.
    destruct (p_ready s); cbn [negb] in Ha; [|by injection Ha as <- <-].
    destruct (reload_threshold environ) as [threshold|]; [|by injection Ha as <- <-].
    destruct (_ && _) eqn:Hstale.
    { injection Ha as <- <-. destruct (p_executor s) as [ex|]; [|done]. cbn in Hstale. boolp. split; [done|]. by exists ex, threshold. }
    destruct (with_url (p_executor s)) as [|b bs] eqn:Hb; [by injection Ha as <- <-|].
    change (cached (set_clock s now) now) with (cached s now) in Ha.
    destruct (cached s now) as [v|] eqn:Hc; [injection Ha as <- <-; by apply Hcached|].
    destruct (p_locked s); [done|]. unfold enter in Ha. change (cached (set_clock s now) now) with (cached s now) in Ha.
    by rewrite Hc in Ha.
  - destruct a' as [a'|]; [|done]. injection El as -> -> ->. unfold enter in He.
    change (cached (set_clock s now) now) with (cached s now) in He.
    destruct (cached s now) as [v|] eqn:Hc; [|done]. injection He as <- <-. by apply Hcached.
  - injection El as -> -> ->. injection Hf as <- <-. eexists _, _. split; [done|]. cbn.
    split_and!; [by left| |by apply (pw_phases s Hwf i _ Hi)|by rewrite length_fmap|done|apply verdict_ready].
    pose proof (pi_invalidated _ _ _ Hinv). lia.
Qed.

(** C21: The readiness of the agent follows its bus worker. Once the server has
    started, the agent is out of service only after as many crashes in a row
    as are allowed, each attempt but possibly the first of them shorter than a
    stable run; and from every such state, unless the supervisor is over, a
    worker that runs for that long brings it back, whatever happened before.
    (It can also come back earlier, see [recovered_while_down].) *)
Theorem readiness_follows_worker restart_delay max_restarts now0 ls s :
  runs (sup_step restart_delay max_restarts) (initial_supervisor now0) ls s ->
  v_started s = true -> v_ready s = false ->
  has_looped restart_delay max_restarts (v_attempts s) /\
  match v_worker s with
  | Running since watch => watch = true /\
      forall now, since + restart_delay * 3 <= now -> v_clock s <= now ->
      exists s', sup_step restart_delay max_restarts s Recovers s' /\ v_ready s' = true
  | Resting _ _ until =>
      forall now1 now2, until <= now1 -> v_clock s <= now1 -> now1 + restart_delay * 3 <= now2 -> now1 <= now2 ->
      exists s', runs (sup_step restart_delay max_restarts) s [Restarts; Recovers] s' /\ v_ready s' = true
  | Over => True
  end.
Proof.
  intros Hrun Hs Hr. assert (Hinv : sup_inv restart_delay max_restarts s).
  { eapply runs_invariant; [|exact Hrun|apply initial_sup_inv]. intros ???. apply sup_step_inv. }
  destruct (vi_not_ready _ _ _ Hinv Hs Hr) as [Hp Hl]. split; [done|].
  destruct (v_worker s) as [since watch|since watch until|] eqn:Hw; [| |done].
  - destruct watch; [|by destruct (vi_watch _ _ _ Hinv since Hs Hr)]. split; [done|].
    intros now H1 H2. eexists. split; [by eapply ss_recover|done].
  - intros now1 now2 H1 H2 H3 H4. eexists. split.
    + econstructor; [by eapply ss_restart|]. econstructor; [|constructor]. apply (ss_recover _ _ _ now1 now2).
      * unfold restart. cbn. by destruct (Z.ltb_spec 0 (v_streak s)); [|lia].
      * done.
      * done.
    + done.
Qed.

(** ** Concrete inputs *)

Definition agent (id url : string) : backend_config := mk_backend (VStr id) VNone VNone (VStr url) [].
Definition two_agents : executor := mk_executor (mk_loaded [agent "a" "http://a"; agent "b" "http://b"] (VStr "a") no_routing) 0.
Definition no_environ : string -> option string := fun _ => None.

(** Three probes of a ready agent at once: one sweeps, the second waits and
    takes the verdict of the first, the third comes later and finds it. *)
Definition up (s : probes) : probes :=
  mk_probes true (Some two_agents) (p_cache s) (p_expires s) (p_locked s) (p_phases s) (p_clock s) (p_sweeps s) (p_invalidated s).
Definition probes0 : probes := up initial_probes.
Definition probes1 : probes := (arrive no_environ (set_clock probes0 10) 10 1).2.
Definition probes2 : probes := (arrive no_environ (set_clock probes1 11) 11 2).2.
Definition bad_b : list (res Z * res Z) := [(Ok 404, Ok 200); (Raise ConnectionError, Ok 200)].
Definition probes3 : probes := (finish 1000 (set_clock probes2 20) 20 1 [agent "a" "http://a"; agent "b" "http://b"] 10 bad_b).2.

Definition probe_labels : list probe_label :=
  [Silent; Silent; Silent; Silent; Answers 1 20 (Verdict (UnhealthyVerdict [VStr "b"]))].

Lemma probes3_reachable : runs (probe_step no_environ 1000) initial_probes probe_labels probes3.
Proof.
  unfold probe_labels.
  apply runs_cons with (mk_probes true None None 0 false ∅ 0 [] 0); [apply ps_ready|].
  apply runs_cons with probes0; [exact (ps_reload no_environ 1000 (mk_probes true None None 0 false ∅ 0 [] 0) (Some two_agents))|].
  apply runs_cons with probes1; [apply (ps_arrive no_environ 1000 probes0 10 1 None); [vm_compute; discriminate|reflexivity|reflexivity]|].
  apply runs_cons with probes2; [apply (ps_arrive no_environ 1000 probes1 11 2 None); [vm_compute; discriminate|reflexivity|reflexivity]|].
  apply runs_cons with probes3; [|constructor].
  eapply (ps_finish no_environ 1000 probes2 20 1 _ 10 bad_b); [vm_compute; discriminate|reflexivity|reflexivity|reflexivity].
Qed.

Lemma probe_answers_fresh_witness :
  spaced 1000 (p_sweeps probes3) /\
  exists sw rest, p_sweeps (enter (set_clock probes3 500) 500 2 [agent "a" "http://a"; agent "b" "http://b"]).2 = sw :: rest /\
    UnhealthyVerdict [VStr "b"] = verdict_of (sw_backends sw) (sw_results sw).
Proof.
  destruct (probe_answers_fresh no_environ 1000 probe_labels probes3 probes3_reachable) as (_ & _ & H3 & H4).
  split; [apply H3; repeat constructor|].
  destruct (H4 2%nat 500 (Verdict (UnhealthyVerdict [VStr "b"]))
    (enter (set_clock probes3 500) 500 2 [agent "a" "http://a"; agent "b" "http://b"]).2) as (sw & rest & Hsw & _ & _ & _ & _ & Hv & _).
  - apply (ps_wake _ _ _ 500 2 [agent "a" "http://a"; agent "b" "http://b"] (Some (Verdict (UnhealthyVerdict [VStr "b"]))));
      [vm_compute; discriminate|reflexivity|reflexivity|reflexivity].
  - exists sw, rest. split; [exact Hsw|exact Hv].
Defined.

(** An invalidation during a sweep does not reach the verdict of that sweep,
    which began before it. *)
Example sweep_outlives_invalidation :
  let s := invalidate (set_clock probes2 15) 15 in
  let s := (finish 1000 (set_clock s 20) 20 1 [agent "a" "http://a"; agent "b" "http://b"] 10 [(Ok 200, Ok 200); (Ok 200, Ok 200)]).2 in
  cached s 30 = Some ReadyVerdict /\ sw_start <$> p_sweeps s = [10] /\ p_invalidated s = 15.
Proof. vm_compute. by repeat split. Qed.

(** A verdict outlives the configuration it was given for. *)
Example verdict_outlives_reload :
  let s := (finish 1000 (set_clock probes2 20) 20 1 [agent "a" "http://a"; agent "b" "http://b"] 10 [(Ok 200, Ok 200); (Ok 200, Ok 200)]).2 in
  let dead := mk_executor (mk_loaded [agent "dead" "http://d"] (VStr "dead") no_routing) 0 in
  let s := mk_probes true (Some dead) (p_cache s) (p_expires s) (p_locked s) (p_phases s) (p_clock s) (p_sweeps s) (p_invalidated s) in
  (arrive no_environ s 30 3).1 = Some (Verdict ReadyVerdict).
Proof. vm_compute. reflexivity. Qed.

(** Two crashes at most, a delay of 5: the second takes the agent out of
    service. *)
Definition sup1 : supervisor := mk_supervisor (Running 0 false) 0 true true 1 [].
Definition sup2 : supervisor := crash 5 2 sup1 0 false 3.
Definition sup3 : supervisor := restart sup2 8.
Definition sup4 : supervisor := crash 5 2 sup3 8 true 10.

Lemma sup4_reachable : runs (sup_step 5 2) (initial_supervisor 0) [ServerStarts; Crashes; Restarts; Crashes] sup4.
Proof.
  apply runs_cons with sup1; [apply (ss_start 5 2 (initial_supervisor 0) 1); [done|cbn; lia]|].
  apply runs_cons with sup2; [apply (ss_crash 5 2 sup1 0 false 3); [done|cbn; lia]|].
  apply runs_cons with sup3; [apply (ss_restart 5 2 sup2 0 false 8 8); [reflexivity|lia|cbn; lia]|].
  apply runs_cons with sup4; [apply (ss_crash 5 2 sup3 8 true 10); [done|cbn; lia]|constructor].
Qed.

Lemma readiness_follows_worker_witness :
  v_ready sup4 = false /\
  exists s', runs (sup_step 5 2) sup4 [Restarts; Recovers] s' /\ v_ready s' = true.
Proof.
  split; [reflexivity|].
  apply (proj2 (readiness_follows_worker 5 2 0 _ sup4 sup4_reachable eq_refl eq_refl) 15 30); cbn; lia.
Defined.

(** A worker that crashed before the server has started and then runs on makes
    the agent ready, though nothing is served yet. *)
Example ready_before_the_server :
  let s := restart (crash 5 2 (initial_supervisor 0) 0 false 3) 8 in
  v_worker s = Running 8 true /\ v_started s = false /\
  exists s', sup_step 5 2 s Recovers s' /\ v_ready s' = true /\ v_started s' = false.
Proof.
  cbn. split_and!; try done. eexists. split.
  - apply (ss_recover 5 2 (restart (crash 5 2 (initial_supervisor 0) 0 false 3) 8) 8 23); cbn; try done; lia.
  - done.
Qed.

(** The timer outlives the attempt by the sleep: a worker that crashes again
    just before a stable run is announced as recovered while it is down. *)
Example recovered_while_down :
  let s := crash 5 2 (restart (crash 5 2 sup1 0 false 3) 8) 8 true 20 in
  v_ready s = false /\ v_worker s = Resting 8 true 25 /\
  exists s', sup_step 5 2 s Recovers s' /\ v_ready s' = true /\ v_worker s' = Resting 8 false 25 /\ v_clock s' = 23.
Proof.
  cbn. split_and!; try done. eexists. split.
  - apply (ss_recover_down 5 2 (crash 5 2 (restart (crash 5 2 sup1 0 false 3) 8) 8 true 20) 8 25 23); cbn; try done; lia.
  - done.
Qed.

(** The start of the server hides a worker that is crash-looping. *)
Example start_hides_the_loop :
  let s := crash 5 2 (restart (crash 5 2 (initial_supervisor 0) 0 false 3) 8) 8 true 10 in
  v_ready s = false /\ v_streak s = 2 /\
  exists s', sup_step 5 2 s ServerStarts s' /\ v_ready s' = true /\ v_streak s' = 2.
Proof. cbn. split_and!; try done. eexists. split; [apply (ss_start 5 2 (crash 5 2 (restart (crash 5 2 (initial_supervisor 0) 0 false 3) 8) 8 true 10) 11); cbn; done || lia|done]. Qed.
