(* ===== verification/ClaudeConfig.v ===== *)
(** * Configuration of the Claude backend (backends/claude/executor.py,
    backends/claude/mcp_shape.py)

    The tools a session may use, the settings read from the environment, the
    MCP servers of [mcp.json] with the checks every entry passes before the
    SDK sees it, the hot reloads of all of them, and the name of the file in
    which the SDK keeps a session.  JSON files are parsed values; the
    environment and SHA-256 are arguments. *)
From Stdlib Require Import Ascii.
From S2P Require Import Prelude PyStr PyVal PyUrl McpAllowlist HooksEngine.

(** A file: absent, unreadable or malformed, or its parsed value. *)
Abbreviation json_file := (option (res pyval)).

(** ** Allowed tools *)

Definition DEFAULT_TOOLS : string := "Read,Grep,Glob".

(** [[t.strip() for t in s.split(",") if t.strip()]] *)
Definition split_tools (s : string) : list string :=
  filter (fun t => t <> "") (str_strip <$> str_split ","%char s).

(** [x.get(k)] raises when [x] is not a dictionary. *)
Definition get_attr (x : pyval) (k : string) : res pyval :=
  match x with VDict d => Ok (dict_get_none d k) | _ => Raise AttributeError end.

Definition load_allowed_from_settings (file : json_file) : res (option (list string)) :=
  match file with
  | None | Some (Raise _) => Ok None
  | Some (Ok data) =>
      p <-- get_attr (py_or data (VDict [])) "permissions" ;;
      allow <-- get_attr (py_or p (VDict [])) "allow" ;;
      match allow with
      | VList l => Ok (Some (filter (fun t => t <> "") ((fun v => str_strip (py_str v)) <$> l)))
      | _ => Ok None
      end
  end.

Definition resolve_allowed_tools (env_var : option string) (settings : json_file) : res (list string * string) :=
  match env_var with
  | Some s => Ok (split_tools s, "env")
  | None =>
      allow <-- load_allowed_from_settings settings ;;
      Ok (match allow with Some l => (l, "settings") | None => (split_tools DEFAULT_TOOLS, "default") end)
  end.

(** One change of [settings.json] seen by [settings_watcher]: the list and,
    if it changed, the direction recorded. *)
Definition reload_allowed_tools (source : string) (tools : list string) (settings : json_file)
    : list string * option string :=
  if decide (source = "env") then (tools, None)
  else match load_allowed_from_settings settings with
       | Raise _ => (tools, None)
       | Ok allow =>
           let new_list := default (split_tools DEFAULT_TOOLS) allow in
           if decide (new_list = tools) then (tools, None)
           else
             let old_set := list_to_set (C := gset string) tools in
             let new_set := list_to_set (C := gset string) new_list in
             (new_list,
              Some (if decide (new_set ⊂ old_set) then "tighten"
                    else if decide (old_set ⊂ new_set) then "widen"
                    else if decide (new_set = old_set) then "reorder"
                    else "rotate"))
       end.

(** ** Settings of the environment *)

Definition VALID_EFFORT : list string := ["low"; "medium"; "high"; "max"].

Definition resolve_effort (raw : option string) : option string :=
  let value := str_lower (str_strip (default "" raw)) in
  if bool_decide (value <> "") && in_strs value VALID_EFFORT then Some value else None.

Definition DEFAULT_MAX_BUFFER_SIZE : Z := 16 * 1024 * 1024.

Definition resolve_max_buffer_size (raw : option string) : Z :=
  let value := str_strip (default "" raw) in
  if decide (value = "") then DEFAULT_MAX_BUFFER_SIZE
  else match py_int value with
       | Some n => if n <=? 0 then DEFAULT_MAX_BUFFER_SIZE else n
       | None => DEFAULT_MAX_BUFFER_SIZE
       end.

(** The credential and the name of its variable, read at every call. *)
Definition current_claude_credential (environ : string -> option string) : option (string * string) :=
  let tok := default "" (environ "CLAUDE_CODE_OAUTH_TOKEN") in
  if decide (tok <> "") then Some (tok, "CLAUDE_CODE_OAUTH_TOKEN")
  else
    let tok := default "" (environ "ANTHROPIC_API_KEY") in
    if decide (tok <> "") then Some (tok, "ANTHROPIC_API_KEY") else None.

(** ** MCP servers *)

Definition SHELL_ENV_DENYLIST : list string :=
  ["PATH"; "LD_PRELOAD"; "LD_LIBRARY_PATH"; "LD_AUDIT"; "LD_DEBUG"; "PYTHONPATH"; "PYTHONSTARTUP";
   "PYTHONINSPECT"; "RUBYLIB"; "RUBYOPT"; "PERL5LIB"; "PERL5OPT"; "NODE_PATH"; "DYLD_INSERT_LIBRARIES";
   "DYLD_LIBRARY_PATH"; "DYLD_FRAMEWORK_PATH"].

(** [d[k] = v] *)
Fixpoint dict_set (d : pydict) (k : string) (v : pyval) : pydict :=
  match d with
  | [] => [(VStr k, v)]
  | (VStr k', v') :: d' => if decide (k' = k) then (VStr k', v) :: d' else (VStr k', v') :: dict_set d' k v
  | kv :: d' => kv :: dict_set d' k v
  end.

Definition denied_env (k : pyval) : bool :=
  match k with VStr s => in_strs s SHELL_ENV_DENYLIST | _ => false end.

Definition scrub_env (cfg : pydict) : pydict :=
  match dict_get cfg "env" with
  | Some (VDict e) => dict_set cfg "env" (VDict (filter (fun kv => denied_env kv.1 = false) e))
  | _ => cfg
  end.

Section Sanitize.
(** The three variables of [McpAllowlist]. *)
Variables commands_var prefixes_var cwd_var : option string.

(** The checks on one entry; [inl]: the reason it is dropped. *)
Definition sanitize_entry (cfg : pyval) : string + pyval :=
  match cfg with
  | VDict d =>
      let new_cfg := scrub_env d in
      match dict_get_none new_cfg "command" with
      | VNone => inr (VDict new_cfg)
      | cmd =>
          let '(ok, reason) := mcp_command_allowed_env cmd commands_var prefixes_var in
          if negb ok then inl reason
          else
            let '(args_ok, args_reason) := mcp_command_args_safe cmd (dict_get_none new_cfg "args") cwd_var in
            if negb args_ok then inl args_reason else inr (VDict new_cfg)
      end
  | _ => inr cfg
  end.

Definition sanitize_mcp_servers (servers : pydict) : pydict :=
  omap (fun kv => match sanitize_entry kv.2 with inr v => Some (kv.1, v) | inl _ => None end) servers.

(** [validate_mcp_servers_shape]: what is wrong with an entry, in the words of
    the log line (shortened). *)
Definition shape_error (cfg : pyval) : option string :=
  match cfg with
  | VDict d =>
      match dict_get d "command", dict_get d "url" with
      | Some _, Some _ => Some "entry has both 'command' and 'url'"
      | None, None => Some "entry has neither 'command' nor 'url'"
      | Some cmd, None =>
          match cmd with
          | VStr s => if decide (str_strip s = "") then Some "'command' must be a non-empty string" else None
          | _ => Some "'command' must be a non-empty string"
          end
      | None, Some url =>
          match url with
          | VStr s =>
              if decide (str_strip s = "") then Some "'url' must be a non-empty string"
              else match urlsplit s with
                   | Raise _ => Some "'url' did not parse"
                   | Ok u =>
                       if decide (u_scheme u = "" \/ u_netloc u = "") then Some "'url' missing scheme or host" else None
                   end
          | _ => Some "'url' must be a non-empty string"
          end
      end
  | _ => Some "entry is not a JSON object"
  end.

Definition validate_mcp_servers_shape (servers : pydict) : pydict * list (string * string) :=
  (filter (fun kv => shape_error kv.2 = None) servers,
   omap (fun kv => (fun reason => (py_str kv.1, reason)) <$> shape_error kv.2) servers).

Definition load_mcp_config (file : json_file) : res pydict :=
  match file with
  | None => Ok []
  | Some parsed =>
      data <-- parsed ;;
      match data with
      | VDict d =>
          servers <-- match dict_get d "mcpServers" with
                      | Some (VDict inner) => Ok inner
                      | Some _ => Raise ValueError
                      | None => Ok d
                      end ;;
          Ok (validate_mcp_servers_shape (sanitize_mcp_servers servers)).1
      | _ => Raise ValueError
      end
  end.
End Sanitize.

(** ** The live configuration *)

Section Live.
(** Compiled regular expressions. *)
Context {re : Type}.

Record config : Type := mk_config {
  mcp_servers : pydict;
  mcp_generation : Z;
  initial_mcp_loaded : bool;
  agent_md_content : string;
  agent_md_revision : string;
  (** the label values of the gauge of revisions *)
  revision_series : gset string;
  initial_agent_md_loaded : bool;
  hook_rules : hook_state (re := re);
  initial_hooks_loaded : bool;
  allowed_tools : list string;
  tools_source : string
}.

(** [HOOKS_BASELINE_ENABLED] *)
Definition hooks_baseline_enabled (var : option string) : bool :=
  negb (in_strs (str_lower (default "true" var)) ["0"; "false"; "no"; "off"]).

Variables commands_var prefixes_var cwd_var : option string.
(** [hashlib.sha256(text).hexdigest()]. *)
Variable sha256_hex : string -> string.
Variable yaml_safe_load : string -> res pyval.
Variable re_compile : string -> option re.

Definition compute_agent_md_revision (content : string) : string := str_take 12 (sha256_hex content).

(** [_stamp_agent_md_revision] *)
Definition stamp_revision (series : gset string) (current : string) (previous : option string) : gset string :=
  {[current]} ∪ match previous with
                | Some p => if decide (p = current) then series else series ∖ {[p]}
                | None => series
                end.

(** The file is read as the empty text when it cannot be read. *)
Definition load_agent_md (file : option string) : string := default "" file.

Definition new_config (md : option string) (baseline_var tools_var : option string) (settings : json_file)
    : res config :=
  tools <-- resolve_allowed_tools tools_var settings ;;
  let content := load_agent_md md in
  let rev := compute_agent_md_revision content in
  let enabled := hooks_baseline_enabled baseline_var in
  Ok (mk_config [] 0 false content rev (stamp_revision ∅ rev None) false
        (mk_hook_state enabled (if enabled then BASELINE_RULES else []) []) false tools.1 tools.2).

Definition swap_mcp_servers (c : config) (servers : pydict) : config :=
  mk_config servers (mcp_generation c + 1) (initial_mcp_loaded c) (agent_md_content c) (agent_md_revision c)
    (revision_series c) (initial_agent_md_loaded c) (hook_rules c) (initial_hooks_loaded c) (allowed_tools c)
    (tools_source c).

Definition set_mcp_loaded (c : config) : config :=
  mk_config (mcp_servers c) (mcp_generation c) true (agent_md_content c) (agent_md_revision c)
    (revision_series c) (initial_agent_md_loaded c) (hook_rules c) (initial_hooks_loaded c) (allowed_tools c)
    (tools_source c).

(** The content, and the revision restamped if it changed. *)
Definition reload_agent_md (c : config) (md : option string) : config :=
  let content := load_agent_md md in
  let previous := agent_md_revision c in
  let current := compute_agent_md_revision content in
  mk_config (mcp_servers c) (mcp_generation c) (initial_mcp_loaded c) content
    (if decide (current = previous) then previous else current)
    (if decide (current = previous) then revision_series c else stamp_revision (revision_series c) current (Some previous))
    (initial_agent_md_loaded c) (hook_rules c) (initial_hooks_loaded c) (allowed_tools c) (tools_source c).

Definition set_extensions (c : config) (rules : list (rule (re := re))) : config :=
  mk_config (mcp_servers c) (mcp_generation c) (initial_mcp_loaded c) (agent_md_content c) (agent_md_revision c)
    (revision_series c) (initial_agent_md_loaded c)
    (mk_hook_state (baseline_enabled (hook_rules c)) (baseline (hook_rules c)) rules)
    (initial_hooks_loaded c) (allowed_tools c) (tools_source c).

Definition set_first_loads (c : config) (md hooks : bool) : config :=
  mk_config (mcp_servers c) (mcp_generation c) (initial_mcp_loaded c) (agent_md_content c) (agent_md_revision c)
    (revision_series c) md (hook_rules c) hooks (allowed_tools c) (tools_source c).

Definition set_tools (c : config) (tools : list string) : config :=
  mk_config (mcp_servers c) (mcp_generation c) (initial_mcp_loaded c) (agent_md_content c) (agent_md_revision c)
    (revision_series c) (initial_agent_md_loaded c) (hook_rules c) (initial_hooks_loaded c) tools (tools_source c).

(** The first load of [mcp.json]: at start-up, or by the watcher if that
    failed. *)
Definition mcp_first_load (at_startup : bool) (c : config) (file : json_file) : config :=
  match load_mcp_config commands_var prefixes_var cwd_var file with
  | Raise _ => swap_mcp_servers c []
  | Ok servers => let c := swap_mcp_servers c servers in if at_startup then set_mcp_loaded c else c
  end.

Definition mcp_reload (c : config) (file : json_file) : config :=
  match load_mcp_config commands_var prefixes_var cwd_var file with
  | Raise _ => c
  | Ok servers => swap_mcp_servers c servers
  end.

(** The loader of [HooksEngine] reports errors to a counter and does not
    raise. *)
Definition hooks_reload (c : config) (file : option (res string)) : config :=
  set_extensions c (load_extension_rules re_compile yaml_safe_load file).1.

Definition perform_initial_loads (c : config) (mcp : json_file) (md : option string) (hooks : option (res string))
    : config :=
  let c := mcp_first_load true c mcp in
  let c := reload_agent_md c md in
  set_first_loads (hooks_reload c hooks) true true.

(** What happens to the configuration: a load at start-up, the first load of
    a watcher, or a change of a file. *)
Inductive event : Type :=
| InitialLoads (mcp : json_file) (md : option string) (hooks : option (res string))
| McpWatcherStarts (file : json_file)
| McpChanged (file : json_file)
| AgentMdWatcherStarts (file : option string)
| AgentMdChanged (file : option string)
| HooksWatcherStarts (file : option (res string))
| HooksChanged (file : option (res string))
| SettingsChanged (file : json_file).

Definition apply_event (c : config) (e : event) : config :=
  match e with
  | InitialLoads mcp md hooks => perform_initial_loads c mcp md hooks
  | McpWatcherStarts file => if initial_mcp_loaded c then c else mcp_first_load false c file
  | McpChanged file => mcp_reload c file
  | AgentMdWatcherStarts file => if initial_agent_md_loaded c then c else reload_agent_md c file
  | AgentMdChanged file => reload_agent_md c file
  | HooksWatcherStarts file => if initial_hooks_loaded c then c else hooks_reload c file
  | HooksChanged file => hooks_reload c file
  | SettingsChanged file => set_tools c (reload_allowed_tools (tools_source c) (allowed_tools c) file).1
  end.

Definition live_config (c : config) (es : list event) : config := foldl apply_event c es.
End Live.

(** ** The name of a session's file *)

(** [(h << 5) - h + ord(ch)] as a signed 32-bit integer. *)
Definition hash_step (h : Z) (ch : ascii) : Z :=
  let h := Z.shiftl h 5 - h + code ch in
  let h := Z.land h 0xFFFFFFFF in
  if 0x80000000 <=? h then h - 0x100000000 else h.

Definition base36_digit (d : Z) : ascii := ascii_of_N (Z.to_N (if d <? 10 then 48 + d else 87 + d)).

(** The loop [while n > 0], least digit first. *)
Fixpoint base36_digits (fuel : nat) (n : Z) : list ascii :=
  match fuel with
  | O => []
  | S fuel => if 0 <? n then base36_digit (n mod 36) :: base36_digits fuel (n / 36) else []
  end.

Definition base36_fuel (n : Z) : nat := S (Z.to_nat (Z.log2 n)).

Definition simple_hash (s : string) : string :=
  let h := Z.abs (foldl hash_step 0 (String.list_ascii_of_string s)) in
  if h =? 0 then "0" else String.string_of_list_ascii (reverse (base36_digits (base36_fuel h) h)).

Definition is_alnum (c : ascii) : bool := is_alpha c || is_digit c.

Definition sanitize_cwd (name : string) : string :=
  let sanitized := str_map (fun c => if is_alnum c then c else "-"%char) name in
  if str_len sanitized <=? 200 then sanitized else str_take 200 sanitized +:+ "-" +:+ simple_hash name.

(** [config_dir / "projects" / project / file]. *)
Record session_path : Type := mk_path { config_home : string; project : string; file_name : string }.

(** The working directories are [None] when [os.getcwd] raises; [home] is
    [Path.home()]. The flag: the drift counter is bumped. Text below code
    point 256 is its own NFC form. *)
Definition session_file_path (startup_cwd live_cwd config_dir : option string) (home session_id : string)
    : option session_path * bool :=
  match startup_cwd with
  | None => (None, false)
  | Some cwd =>
      if decide (live_cwd = Some cwd) then
        let dir := default "" config_dir in
        (Some (mk_path (if decide (dir <> "") then dir else home +:+ "/.claude") (sanitize_cwd cwd)
                 (session_id +:+ ".jsonl")), false)
      else (None, true)
  end.

(** ** Lemmas: MCP servers *)

Section Vetting.
Variables commands_var prefixes_var cwd_var : option string.

Abbreviation sanitize := (sanitize_entry commands_var prefixes_var cwd_var).
Abbreviation load := (load_mcp_config commands_var prefixes_var cwd_var).

(** A stdio entry the allow-list accepts, or an entry with a URL; never an
    environment variable that hijacks the loader or the interpreter. *)
Definition stdio_entry (d : pydict) : Prop :=
  exists s, dict_get d "command" = Some (VStr s) /\ dict_get d "url" = None /\ str_strip s <> "" /\
    (mcp_command_allowed_env (VStr s) commands_var prefixes_var).1 = true /\
    (mcp_command_args_safe (VStr s) (dict_get_none d "args") cwd_var).1 = true.

Definition url_entry (d : pydict) : Prop :=
  exists s u, dict_get d "url" = Some (VStr s) /\ dict_get d "command" = None /\ str_strip s <> "" /\
    urlsplit s = Ok u /\ u_scheme u <> "" /\ u_netloc u <> "".

Definition clean_env (d : pydict) : Prop :=
  forall e k v, dict_get d "env" = Some (VDict e) -> (VStr k, v) ∈ e -> k ∉ SHELL_ENV_DENYLIST.

Definition vetted (cfg : pyval) : Prop :=
  exists d, cfg = VDict d /\ clean_env d /\ (stdio_entry d \/ url_entry d).

Lemma dict_set_get d k v : dict_get (dict_set d k v) k = Some v.
Proof.
  induction d as [|[k' v'] d IH]; cbn; [by rewrite decide_True|].
  destruct k' as [| | | |s| |]; cbn; try done. case_decide; cbn; [by rewrite decide_True|by rewrite decide_False].
Qed.

Lemma dict_set_get_ne d k k' v : k <> k' -> dict_get (dict_set d k v) k' = dict_get d k'.
Proof.
  intros Hk. induction d as [|[k1 v1] d IH]; cbn; [by rewrite decide_False|].
  destruct k1 as [| | | |s| |]; cbn; try done. case_decide; subst; cbn; [by rewrite !decide_False|].
  by rewrite IH.
Qed.

Lemma scrub_env_get d k : k <> "env" -> dict_get (scrub_env d) k = dict_get d k.
Proof. intros Hk. unfold scrub_env. repeat case_match; try done. by rewrite dict_set_get_ne. Qed.

Lemma scrub_env_clean d : clean_env (scrub_env d).
Proof.
  intros e k v. unfold scrub_env.
  destruct (dict_get d "env") as [w|] eqn:He; [|by rewrite He].
  destruct w; rewrite ?dict_set_get, ?He; try done.
  intros [= <-] [Hk _]%list_elem_of_filter. cbn in Hk. boolp. done.
Qed.

Lemma sanitize_entry_inr cfg v :
  sanitize cfg = inr v <->
  match cfg with
  | VDict d =>
      v = VDict (scrub_env d) /\
      (dict_get_none d "command" = VNone \/
       (mcp_command_allowed_env (dict_get_none d "command") commands_var prefixes_var).1 = true /\
       (mcp_command_args_safe (dict_get_none d "command") (dict_get_none d "args") cwd_var).1 = true)
  | _ => v = cfg
  end.
Proof.
  destruct cfg as [| | | | | |d]; cbn [sanitize_entry]; try naive_solver.
  replace (dict_get_none (scrub_env d)) with (fun k => default VNone (dict_get (scrub_env d) k)) by done. cbn beta.
  rewrite !scrub_env_get by done. fold (dict_get_none d "command") (dict_get_none d "args").
  destruct (dict_get_none d "command") as [| | | |s| |] eqn:Hc;
    [naive_solver|..];
    (destruct (mcp_command_allowed_env _ _ _) as [[] ?]; cbn [negb fst];
      [destruct (mcp_command_args_safe _ _ _) as [[] ?]; cbn [negb fst]|]; naive_solver).
Qed.

Lemma shape_error_None cfg :
  shape_error cfg = None <->
  exists d, cfg = VDict d /\
    ((exists s, dict_get d "command" = Some (VStr s) /\ dict_get d "url" = None /\ str_strip s <> "") \/ url_entry d).
Proof.
  unfold url_entry. destruct cfg as [| | | | | |d]; cbn [shape_error]; try naive_solver.
  destruct (dict_get d "command") as [cmd|] eqn:Hc, (dict_get d "url") as [url|] eqn:Hu; try naive_solver.
  - destruct cmd as [| | | |s| |]; cbn; try naive_solver. destruct (decide (str_strip s = "")); naive_solver.
  - destruct url as [| | | |s| |]; cbn; try naive_solver. destruct (decide (str_strip s = "")); [naive_solver|].
    destruct (urlsplit s) as [u|] eqn:Hs;
      [|split; [done|intros (d' & [= <-] & [(? & ? & ?)|(s' & u' & Hu' & ?)]); congruence || (destruct_and?; congruence)]].
    destruct (decide (u_scheme u = "" \/ u_netloc u = "")) as [Hn|Hn]; split; try done.
    + intros (d' & [= <-] & [(? & ? & ?)|(s' & u' & Hu' & ?)]); [congruence|]. destruct_and?. simplify_eq. destruct Hn; congruence.
    + intros _. exists d. split; [done|]. right. exists s, u. split_and!; tauto.
Qed.

(** The two passes together keep an entry exactly if it is vetted once its
    environment is scrubbed. *)
Lemma entry_kept cfg v :
  sanitize cfg = inr v /\ shape_error v = None <-> exists d, cfg = VDict d /\ v = VDict (scrub_env d) /\ vetted v.
Proof.
  rewrite sanitize_entry_inr, shape_error_None. unfold vetted. split.
  - intros [Hs (d' & -> & Hd')]. destruct cfg as [| | | | | |d]; try done. destruct Hs as [[= ->] Hs].
    exists d. split_and!; [done..|]. exists (scrub_env d). split_and!; [done|apply scrub_env_clean|].
    destruct Hd' as [(s & Hc & Hu & Hne)|Hu]; [left|by right]. exists s. split_and!; try done.
    + rewrite scrub_env_get in Hc by done. unfold dict_get_none in Hs. rewrite Hc in Hs. cbn in Hs. naive_solver.
    + unfold dict_get_none in *. rewrite scrub_env_get in Hc by done. rewrite scrub_env_get by done.
      rewrite Hc in Hs. cbn in Hs. naive_solver.
  - intros (d & -> & -> & (d' & [= <-] & _ & Hd)). split.
    + split; [done|]. unfold dict_get_none. destruct Hd as [(s & Hc & _ & _ & Ha & Hg)|(s & u & _ & Hc & _)];
        rewrite scrub_env_get in Hc by done; rewrite Hc; cbn; [right|by left].
      unfold dict_get_none in Hg. by rewrite scrub_env_get in Hg by done.
    + eexists. split; [done|]. destruct Hd as [(s & Hc & Hu & Hn & _)|?]; eauto.
Qed.

(** What a load keeps: of the entries of the file, the vetted ones. *)
Lemma load_mcp_config_exact file servers :
  load (Some (Ok file)) = Ok servers ->
  exists raw, (file = VDict raw \/ exists d, file = VDict d /\ dict_get d "mcpServers" = Some (VDict raw)) /\
    forall k v, (k, v) ∈ servers <-> exists d, (k, VDict d) ∈ raw /\ v = VDict (scrub_env d) /\ vetted v.
Proof.
  cbn [load_mcp_config res_bind]. destruct file as [| | | | | |d]; try done. intros Hl.
  assert (exists raw, (VDict d = VDict raw \/ exists d', VDict d = VDict d' /\ dict_get d' "mcpServers" = Some (VDict raw)) /\
            (validate_mcp_servers_shape (sanitize_mcp_servers commands_var prefixes_var cwd_var raw)).1 = servers)
    as (raw & Hraw & <-).
  { destruct (dict_get d "mcpServers") as [[]|] eqn:Hd; try done; injection Hl as <-; eexists; eauto. }
  exists raw. split; [done|]. intros k v.
  unfold validate_mcp_servers_shape, sanitize_mcp_servers. cbn [fst]. rewrite list_elem_of_filter, list_elem_of_omap.
  cbn [snd]. split.
  - intros [Hsh ([k' cfg] & Hin & Hc)]. cbn in Hc. destruct (sanitize cfg) eqn:Hs; [done|]. injection Hc as <- ->.
    destruct (proj1 (entry_kept cfg v)) as (d' & -> & -> & Hv); [done|]. eauto.
  - intros (d' & Hin & -> & Hv). destruct (proj2 (entry_kept (VDict d') (VDict (scrub_env d')))) as [Hs Hsh]; [eauto|].
    split; [done|]. exists (k, VDict d'). split; [done|]. cbn [fst snd]. by rewrite Hs.
Qed.

Lemma load_mcp_config_vetted file servers : load file = Ok servers -> Forall (fun kv => vetted kv.2) servers.
Proof.
  destruct file as [[f|e]|]; [|done|by intros [= <-]; constructor].
  intros (raw & _ & Hs)%load_mcp_config_exact. apply Forall_forall. intros [k v] Hin. apply Hs in Hin. naive_solver.
Qed.
End Vetting.

(** ** Lemmas: the live configuration *)

Section LiveLemmas.
Context {re : Type}.
Variables commands_var prefixes_var cwd_var : option string.
Variable sha256_hex : string -> string.
Variable yaml_safe_load : string -> res pyval.
Variable re_compile : string -> option re.

Abbreviation apply := (apply_event (re := re) commands_var prefixes_var cwd_var sha256_hex yaml_safe_load re_compile).
Abbreviation live := (live_config (re := re) commands_var prefixes_var cwd_var sha256_hex yaml_safe_load re_compile).
Abbreviation is_vetted := (vetted commands_var prefixes_var cwd_var).

(** What no event can break. *)
Record config_ok (c0 c : config (re := re)) : Prop := {
  co_servers : Forall (fun kv => is_vetted kv.2) (mcp_servers c);
  co_revision : agent_md_revision c = compute_agent_md_revision sha256_hex (agent_md_content c);
  co_series : revision_series c = {[agent_md_revision c]};
  co_enabled : baseline_enabled (hook_rules c) = baseline_enabled (hook_rules c0);
  co_baseline : baseline (hook_rules c) = baseline (hook_rules c0);
  co_source : tools_source c = tools_source c0;
  co_tools : tools_source c0 = "env" -> allowed_tools c = allowed_tools c0
}.

Lemma stamp_revision_one p c : stamp_revision {[p]} c (Some p) = {[c]}.
Proof. unfold stamp_revision. case_decide; set_solver. Qed.

Lemma swap_ok c0 c servers : config_ok c0 c -> Forall (fun kv => is_vetted kv.2) servers -> config_ok c0 (swap_mcp_servers c servers).
Proof. intros [] ?. by constructor. Qed.

Lemma first_load_ok c0 c b file :
  config_ok c0 c -> config_ok c0 (mcp_first_load commands_var prefixes_var cwd_var b c file).
Proof.
  intros Hc. unfold mcp_first_load. destruct (load_mcp_config _ _ _ file) as [servers|] eqn:Hl; [|by apply swap_ok].
  apply load_mcp_config_vetted in Hl. destruct b; [|by apply swap_ok].
  destruct (swap_ok c0 c servers Hc Hl). by constructor.
Qed.

Lemma agent_md_ok c0 c md : config_ok c0 c -> config_ok c0 (reload_agent_md sha256_hex c md).
Proof.
  intros []. constructor; try done; cbn -[stamp_revision]; case_decide as Hd; try congruence.
  by rewrite co_series0, stamp_revision_one.
Qed.

Lemma reload_tools_env tools file : reload_allowed_tools "env" tools file = (tools, None).
Proof. done. Qed.

Lemma apply_event_ok c0 c e : config_ok c0 c -> config_ok c0 (apply c e).
Proof.
  intros Hc. destruct e as [mcp md hooks|file|file|file|file|file|file|file]; cbn [apply_event].
  - apply (first_load_ok _ _ true mcp), (agent_md_ok _ _ md) in Hc. destruct Hc. by constructor.
  - destruct (initial_mcp_loaded c); [done|]. by apply first_load_ok.
  - unfold mcp_reload. destruct (load_mcp_config _ _ _ file) as [servers|] eqn:Hl; [|done].
    apply swap_ok; [done|]. by eapply load_mcp_config_vetted.
  - destruct (initial_agent_md_loaded c); [done|]. by apply agent_md_ok.
  - by apply agent_md_ok.
  - destruct (initial_hooks_loaded c); [done|]. destruct Hc. by constructor.
  - destruct Hc. by constructor.
  - destruct Hc. constructor; try done. cbn. intros He. rewrite co_source0, He, reload_tools_env. auto.
Qed.

Lemma new_config_ok md baseline_var tools_var settings c :
  new_config sha256_hex md baseline_var tools_var settings = Ok c -> config_ok c c.
Proof.
  unfold new_config. rewrite res_bind_Ok. intros (tools & _ & [= <-]). constructor; cbn; try done.
  set_solver.
Qed.

Lemma live_config_ok c0 c es : config_ok c0 c -> config_ok c0 (live c es).
Proof. revert c. induction es as [|e es IH]; intros c Hc; [done|]. apply IH, apply_event_ok, Hc. Qed.
End LiveLemmas.

(** ** Lemmas: the name of a session's file *)

(** The two's-complement reading of an integer on 32 bits. *)
Definition wrap32 (x : Z) : Z := (x + 2 ^ 31) mod 2 ^ 32 - 2 ^ 31.

(** The hash over the integers: [31 * h + c] from the left. *)
Definition poly31 (s : list ascii) : Z := foldl (fun h c => 31 * h + code c) 0 s.

Lemma wrap32_range x : - 2 ^ 31 <= wrap32 x < 2 ^ 31.
Proof. unfold wrap32. pose proof (Z.mod_pos_bound (x + 2 ^ 31) (2 ^ 32) ltac:(lia)). lia. Qed.

Lemma hash_step_spec h c : hash_step h c = wrap32 (31 * h + code c).
Proof.
  unfold hash_step, wrap32. rewrite Z.shiftl_mul_pow2 by lia.
  change 0xFFFFFFFF with (Z.ones 32). rewrite Z.land_ones by lia. cbv zeta.
  replace (h * 2 ^ 5 - h + code c) with (31 * h + code c) by lia.
  set (x := 31 * h + code c). pose proof (Z.mod_pos_bound x (2 ^ 32) ltac:(lia)) as Hm.
  pose proof (Z.div_mod x (2 ^ 32) ltac:(lia)) as Hd.
  destruct (0x80000000 <=? x mod 2 ^ 32) eqn:Hb; boolp.
  - replace (x + 2 ^ 31) with (x mod 2 ^ 32 - 2 ^ 31 + (x / 2 ^ 32 + 1) * 2 ^ 32) by lia.
    rewrite Z_mod_plus_full, (Z.mod_small (x mod 2 ^ 32 - 2 ^ 31)) by lia. lia.
  - replace (x + 2 ^ 31) with (x mod 2 ^ 32 + 2 ^ 31 + (x / 2 ^ 32) * 2 ^ 32) by lia.
    rewrite Z_mod_plus_full, (Z.mod_small (x mod 2 ^ 32 + 2 ^ 31)) by lia. lia.
Qed.

Lemma wrap32_step h c : wrap32 (31 * wrap32 h + c) = wrap32 (31 * h + c).
Proof.
  assert (exists k, wrap32 h = h + k * 2 ^ 32) as [k ->].
  { unfold wrap32. pose proof (Z.div_mod (h + 2 ^ 31) (2 ^ 32) ltac:(lia)). exists (- ((h + 2 ^ 31) / 2 ^ 32)). lia. }
  unfold wrap32. replace (31 * (h + k * 2 ^ 32) + c + 2 ^ 31) with (31 * h + c + 2 ^ 31 + (31 * k) * 2 ^ 32) by lia.
  by rewrite Z_mod_plus_full.
Qed.

Lemma hash_fold s h : foldl hash_step (wrap32 h) s = wrap32 (foldl (fun h c => 31 * h + code c) h s).
Proof.
  revert h. induction s as [|c s IH]; intros h; [done|]. cbn [foldl].
  by rewrite hash_step_spec, wrap32_step, IH.
Qed.

(** Reading digits back. *)
Definition base36_value (c : ascii) : Z := if code c <=? 57 then code c - 48 else code c - 87.
Definition digits_value (s : string) : Z :=
  foldl (fun n c => n * 36 + base36_value c) 0 (String.list_ascii_of_string s).

Lemma base36_digit_value d : 0 <= d < 36 -> base36_value (base36_digit d) = d.
Proof.
  intros Hd. unfold base36_digit, base36_value.
  destruct (d <? 10) eqn:Hb; boolp; rewrite N_ascii_embedding by lia; case_match; boolp; lia.
Qed.

Lemma digits_fold_snoc l c :
  foldl (fun n c => n * 36 + base36_value c) 0 (l ++ [c]) =
  foldl (fun n c => n * 36 + base36_value c) 0 l * 36 + base36_value c.
Proof. by rewrite foldl_app. Qed.

Lemma base36_digits_value fuel n :
  0 <= n < 2 ^ Z.of_nat fuel ->
  foldl (fun n c => n * 36 + base36_value c) 0 (reverse (base36_digits fuel n)) = n.
Proof.
  revert n. induction fuel as [|fuel IH]; intros n Hn; [cbn in *; lia|]. cbn [base36_digits].
  destruct (0 <? n) eqn:Hp; boolp; [|cbn; lia].
  rewrite reverse_cons, digits_fold_snoc, IH, base36_digit_value.
  - pose proof (Z.div_mod n 36 ltac:(lia)). lia.
  - apply Z.mod_pos_bound. lia.
  - split; [apply Z.div_pos; lia|]. apply Z.div_lt_upper_bound; [lia|].
    rewrite Nat2Z.inj_succ, Z.pow_succ_r in Hn by lia. lia.
Qed.

Lemma base36_digits_length fuel n k :
  n < 36 ^ Z.of_nat k -> (length (base36_digits fuel n) <= k)%nat.
Proof.
  revert n k. induction fuel as [|fuel IH]; intros n k Hn; cbn [base36_digits]; [cbn; lia|].
  destruct (0 <? n) eqn:Hp; boolp; [|cbn; lia]. destruct k as [|k]; [cbn in Hn; lia|]. cbn [length].
  apply le_n_S, IH. rewrite Nat2Z.inj_succ, Z.pow_succ_r in Hn by lia. apply Z.div_lt_upper_bound; lia.
Qed.

Lemma base36_fuel_enough n : 0 <= n -> n < 2 ^ Z.of_nat (base36_fuel n).
Proof.
  intros Hn. unfold base36_fuel. rewrite Nat2Z.inj_succ, Z2Nat.id by apply Z.log2_nonneg.
  destruct (decide (n = 0)) as [->|]; [done|]. by apply Z.log2_spec; lia.
Qed.

Definition name_char (c : ascii) : bool := is_alnum c || bool_decide (c = "-"%char).

Lemma str_all_spec p (s : string) : str_all p s = true <-> Forall (fun c => p c = true) (String.list_ascii_of_string s).
Proof.
  induction s as [|c s IH]; cbn; [by split; [constructor|]|]. rewrite Forall_cons, <-IH. apply andb_true_iff.
Qed.

Lemma list_ascii_app (s t : string) :
  String.list_ascii_of_string (s +:+ t) = String.list_ascii_of_string s ++ String.list_ascii_of_string t.
Proof. induction s as [|c s IH]; [done|]. rewrite str_app_cons. cbn. by rewrite IH. Qed.

Lemma list_ascii_map f (s : string) :
  String.list_ascii_of_string (str_map f s) = f <$> String.list_ascii_of_string s.
Proof. induction s as [|c s IH]; [done|]. cbn. by f_equal. Qed.

Lemma str_map_len f (s : string) : str_len (str_map f s) = str_len s.
Proof. unfold str_len. f_equal. induction s as [|c s IH]; cbn; congruence. Qed.

Lemma list_ascii_take n (s : string) :
  String.list_ascii_of_string (str_take n s) = take n (String.list_ascii_of_string s).
Proof. revert n. induction s as [|c s IH]; intros [|n]; cbn; try done. by f_equal. Qed.

Lemma list_ascii_length (s : string) : String.length s = length (String.list_ascii_of_string s).
Proof. induction s as [|c s IH]; cbn; congruence. Qed.

Lemma base36_digit_char d : 0 <= d < 36 -> name_char (base36_digit d) = true.
Proof.
  intros Hd. unfold name_char, is_alnum, is_alpha, is_digit, base36_digit. boolp. left.
  destruct (d <? 10) eqn:Hb; boolp; rewrite N_ascii_embedding by lia; lia.
Qed.

Lemma base36_digits_chars fuel n : 0 <= n -> Forall (fun c => name_char c = true) (base36_digits fuel n).
Proof.
  revert n. induction fuel as [|fuel IH]; intros n Hn; cbn [base36_digits]; [done|].
  destruct (0 <? n); [|done]. constructor.
  - apply base36_digit_char, Z.mod_pos_bound. lia.
  - apply IH, Z.div_pos; lia.
Qed.

(** The hash is the base-36 text of the absolute value of the 32-bit
    polynomial hash: no overflow, six digits at most. *)
Lemma simple_hash_spec s :
  digits_value (simple_hash s) = Z.abs (wrap32 (poly31 (String.list_ascii_of_string s))) /\
  str_len (simple_hash s) <= 6 /\ str_all name_char (simple_hash s) = true.
Proof.
  assert (Hf : foldl hash_step 0 (String.list_ascii_of_string s) = wrap32 (poly31 (String.list_ascii_of_string s))).
  { unfold poly31. rewrite <-hash_fold. done. }
  unfold simple_hash. rewrite Hf. pose proof (wrap32_range (poly31 (String.list_ascii_of_string s))) as Hr.
  set (h := Z.abs (wrap32 (poly31 (String.list_ascii_of_string s)))). assert (0 <= h <= 2 ^ 31) as Hh by lia.
  destruct (h =? 0) eqn:H0; boolp; [rewrite H0; split_and!; [done|vm_compute; congruence|done]|].
  unfold digits_value, str_len. rewrite str_all_spec, list_ascii_length, String.list_ascii_of_string_of_list_ascii.
  split_and!.
  - apply base36_digits_value. split; [lia|]. apply base36_fuel_enough. lia.
  - rewrite length_reverse. pose proof (base36_digits_length (base36_fuel h) h 6). change (36 ^ Z.of_nat 6) with 2176782336 in *. lia.
  - apply Forall_reverse, base36_digits_chars. lia.
Qed.

(** ** Properties *)

(** C24: The MCP servers the SDK is given are vetted, whatever the files say
    and in whatever order they change. After any sequence of loads and
    reloads every entry either names a command that the allow-list and the
    argument check accept, or a URL with a scheme and a host, never both, and
    passes no environment variable of the deny-list. A reload that fails
    changes nothing; one that succeeds installs exactly the vetted entries of
    the file, with their environments scrubbed. *)
Theorem mcp_servers_vetted {re : Type} commands_var prefixes_var cwd_var sha256_hex yaml_safe_load
    (re_compile : string -> option re) md baseline_var tools_var settings c0 es :
  new_config sha256_hex md baseline_var tools_var settings = Ok c0 ->
  let c := live_config commands_var prefixes_var cwd_var sha256_hex yaml_safe_load re_compile c0 es in
  let load := load_mcp_config commands_var prefixes_var cwd_var in
  let reload := fun f => apply_event commands_var prefixes_var cwd_var sha256_hex yaml_safe_load re_compile c (McpChanged f) in
  Forall (fun kv => vetted commands_var prefixes_var cwd_var kv.2) (mcp_servers c) /\
  (forall f e, load f = Raise e -> reload f = c) /\
  (forall f servers, load (Some (Ok f)) = Ok servers -> mcp_servers (reload (Some (Ok f))) = servers /\
     exists raw, (f = VDict raw \/ exists d, f = VDict d /\ dict_get d "mcpServers" = Some (VDict raw)) /\
       forall k v, (k, v) ∈ servers <->
         exists d, (k, VDict d) ∈ raw /\ v = VDict (scrub_env d) /\ vetted commands_var prefixes_var cwd_var v).
Proof.
  intros Hn. apply (new_config_ok commands_var prefixes_var cwd_var sha256_hex yaml_safe_load re_compile) in Hn.
  pose proof (live_config_ok commands_var prefixes_var cwd_var sha256_hex yaml_safe_load re_compile _ _ es Hn) as [Hs _ _ _ _ _ _].
  cbv zeta. split_and!; [done| |].
  - intros f e He. cbn [apply_event]. unfold mcp_reload. by rewrite He.
  - intros f servers Hl. split; [cbn [apply_event]; unfold mcp_reload; by rewrite Hl|].
    by apply load_mcp_config_exact.
Qed.

(** What no change of a configuration file can do: turn the baseline
    rules off or replace them, widen the tools when they are fixed by
    [ALLOWED_TOOLS], or leave a stale revision of the agent's instructions on
    the metrics: exactly one revision is exposed, that of the content in
    use. *)
Theorem reloads_keep_policy {re : Type} commands_var prefixes_var cwd_var sha256_hex yaml_safe_load
    (re_compile : string -> option re) md baseline_var tools_var settings c0 es :
  new_config sha256_hex md baseline_var tools_var settings = Ok c0 ->
  let c := live_config commands_var prefixes_var cwd_var sha256_hex yaml_safe_load re_compile c0 es in
  (hooks_baseline_enabled baseline_var = true ->
     active_rules (hook_rules c) = BASELINE_RULES ++ extensions (hook_rules c)) /\
  (forall s, tools_var = Some s -> allowed_tools c = split_tools s) /\
  agent_md_revision c = compute_agent_md_revision sha256_hex (agent_md_content c) /\
  revision_series c = {[agent_md_revision c]}.
Proof.
  intros Hn. pose proof (new_config_ok commands_var prefixes_var cwd_var sha256_hex yaml_safe_load re_compile _ _ _ _ _ Hn) as H0.
  pose proof (live_config_ok commands_var prefixes_var cwd_var sha256_hex yaml_safe_load re_compile _ _ es H0)
    as [_ Hr Hs He Hb _ Ht].
  unfold new_config in Hn. apply res_bind_Ok in Hn as (tools & Htools & Hc). cbv zeta. split_and!; [| |done|done].
  - intros Hen. rewrite Hen in Hc. injection Hc as <-. unfold active_rules. by rewrite He, Hb.
  - intros s ->. injection Htools as <-. injection Hc as <-. by apply Ht.
Qed.

(** C25: The directory of a working directory's sessions: short names are
    kept with every other character than a letter or a digit replaced by a
    hyphen; a longer one keeps 200 characters and ends in the 32-bit hash of
    the whole name, computed with wrap-around as the JavaScript client does,
    in base 36. The result never exceeds 207 characters and holds nothing
    but letters, digits and hyphens: it is a single component of a path. *)
Theorem session_dir_name name :
  let dashed := str_map (fun c => if is_alnum c then c else "-"%char) name in
  str_len dashed = str_len name /\
  (str_len name <= 200 -> sanitize_cwd name = dashed) /\
  (200 < str_len name -> exists digits, sanitize_cwd name = str_take 200 dashed +:+ "-" +:+ digits /\
     digits_value digits = Z.abs (wrap32 (poly31 (String.list_ascii_of_string name))) /\ str_len digits <= 6) /\
  str_len (sanitize_cwd name) <= 207 /\ str_all name_char (sanitize_cwd name) = true.
Proof.
  cbv zeta. set (dashed := str_map _ name).
  assert (Hlen : str_len dashed = str_len name).
  { apply str_map_len. }
  assert (Hch : Forall (fun c => name_char c = true) (String.list_ascii_of_string dashed)).
  { unfold dashed. rewrite list_ascii_map. apply Forall_fmap, Forall_true. intros c. cbn. unfold name_char.
    destruct (is_alnum c) eqn:Hc; [by rewrite Hc|by boolp; right]. }
  destruct (simple_hash_spec name) as (Hv & Hl & Hc).
  split; [done|]. unfold sanitize_cwd. fold dashed. destruct (str_len dashed <=? 200) eqn:Hb; boolp.
  - split_and!; [done|lia|lia|]. by apply str_all_spec.
  - split_and!; [lia|intros _; by eexists| |].
    + rewrite !str_len_app. change (str_len "-") with 1. unfold str_len at 1. rewrite str_take_length. lia.
    + apply str_all_spec. rewrite !list_ascii_app, list_ascii_take, !Forall_app.
      split_and!; [by apply Forall_take|by repeat constructor|by apply str_all_spec].
Qed.

(** ** Examples and witnesses *)

(** [mcp.json] with a server that is kept, one whose command is refused, one
    that would run inline code, and one reached by URL. *)
Definition example_servers : pydict :=
  mk_dict [("k8s", VDict (mk_dict [("command", VStr "mcp-kubernetes");
                                   ("env", VDict (mk_dict [("LD_PRELOAD", VStr "/tmp/x.so"); ("LANG", VStr "C")]))]));
           ("shell", VDict (mk_dict [("command", VStr "/bin/sh")]));
           ("web", VDict (mk_dict [("url", VStr "http://mcp-helm:8000/mcp")]));
           ("none", VDict (mk_dict [("command", VNone); ("url", VStr "http://mcp-helm:8000/mcp")]));
           ("text", VStr "mcp-helm")].

Definition example_file : json_file := Some (Ok (VDict (mk_dict [("mcpServers", VDict example_servers)]))).

Example example_load :
  load_mcp_config None None None example_file =
  Ok (mk_dict [("k8s", VDict (mk_dict [("command", VStr "mcp-kubernetes"); ("env", VDict (mk_dict [("LANG", VStr "C")]))]));
               ("web", VDict (mk_dict [("url", VStr "http://mcp-helm:8000/mcp")]))]).
Proof. vm_compute. reflexivity. Qed.

Definition no_yaml (s : string) : res pyval := if decide (s = "{") then Raise OtherError else Ok VNone.
Definition any_pattern (s : string) : option string := Some s.

Definition example_config : config (re := string) :=
  match new_config id (Some "Be brief.") None (Some "Read, Bash,") None with
  | Ok c => c
  | Raise _ => mk_config [] 0 false "" "" ∅ false (mk_hook_state false [] []) false [] ""
  end.

Definition example_events : list event :=
  [InitialLoads example_file (Some "Be very brief.") None; McpChanged (Some (Ok (VList [])));
   SettingsChanged (Some (Ok (VDict (mk_dict [("permissions", VDict (mk_dict [("allow", VList [VStr "Bash"])]))]))))].

Lemma mcp_servers_vetted_witness :
  length (mcp_servers (live_config None None None id no_yaml any_pattern example_config example_events)) = 2%nat /\
  Forall (fun kv => vetted None None None kv.2)
    (mcp_servers (live_config None None None id no_yaml any_pattern example_config example_events)).
Proof.
  split; [vm_compute; reflexivity|].
  apply (mcp_servers_vetted None None None id no_yaml any_pattern (Some "Be brief.") None (Some "Read, Bash,") None).
  reflexivity.
Defined.

Lemma reloads_keep_policy_witness :
  allowed_tools (live_config None None None id no_yaml any_pattern example_config example_events) = ["Read"; "Bash"].
Proof.
  destruct (reloads_keep_policy None None None id no_yaml any_pattern (Some "Be brief.") None (Some "Read, Bash,") None
              example_config example_events eq_refl) as (_ & Ht & _).
  rewrite (Ht _ eq_refl). reflexivity.
Defined.

(** The hot reload of [hooks.yaml] does not keep the previous rules when the
    new file is malformed: the loader reports the error and returns no rule,
    so the extensions are gone until the file is repaired. *)
Theorem malformed_hooks_drop_extensions {re : Type} sha256_hex yaml_safe_load (re_compile : string -> option re) c text :
  (exists e, yaml_safe_load text = Raise e) ->
  extensions (hook_rules (apply_event None None None sha256_hex yaml_safe_load re_compile c
    (HooksChanged (Some (Ok text))))) = [].
Proof. intros [e He]. cbn. unfold load_extension_rules. cbn. by rewrite He. Qed.

(** Nor does [settings_watcher] keep the list of tools over a malformed file:
    it falls back to the default, which here grants more than the operator
    had left. *)
Example malformed_settings_widen :
  reload_allowed_tools "settings" ["Read"] (Some (Raise ValueError)) = (["Read"; "Grep"; "Glob"], Some "widen").
Proof. vm_compute. reflexivity. Qed.

(** A settings file that holds a list stops the backend at start-up. *)
Example settings_list_raises : resolve_allowed_tools None (Some (Ok (VList [VNone]))) = Raise AttributeError.
Proof. reflexivity. Qed.

Example hash_example : simple_hash "/home/agent" = "lchg04".
Proof. vm_compute. reflexivity. Qed.
