(* ===== verification/ClaudeTurn.v ===== *)
(** * A turn of the Claude backend (backends/claude/executor.py, [run_query]
    with its helpers, [run] and [execute])

    What the backend does with the stream of messages of the SDK: the text it
    collects and streams, the tool calls it records, the budget of tokens, the
    one retry of a session-id collision, the session it keeps or forgets, the
    answer and the rows and events it leaves.  The SDK's messages, the
    consumers of the stream and the clocks are arguments; a turn cut short
    (time limit, cancellation, failure) is a stream that ends in an exception,
    possibly in the middle of a message.  The sessions all turns share, with
    the lock that guards them, are [ClaudeSessions]. *)
From Stdlib Require Import Ascii.
From S2P Require Import Prelude PyStr PyBytes PyVal Broadcast EventSchema EventStream SessionBinding Executor Dispatch.

(** ** The stream of the SDK *)

Inductive block : Type :=
| TextBlock (text : string)
| ToolUseBlock (id name : string)
(** [size]: bytes of the content; [elapsed]: microseconds since the use. *)
| ToolResultBlock (tool_use_id : string) (is_error : bool) (size elapsed : Z)
| OtherBlock.

(** [client.get_context_usage()] *)
Inductive usage : Type := UsageFails | TotalTokens (n : Z).

Inductive message : Type :=
| AssistantMessage (content : list block) (u : usage)
(** a [ResultMessage] with [is_error]; no result is the empty text *)
| ErrorResult (errors : list string) (result : string)
| OtherMessage.

(** How the stream ends: after the last message, or with an exception and its
    text, also in the middle of an assistant message. *)
Inductive sdk_end : Type := SdkEnds | SdkRaises (e : exn) (text : string).

Record script : Type := mk_script {
  s_messages : list message;
  s_partial : list block;
  s_end : sdk_end;
  s_stderr : list string
}.

Inductive outcome : Type :=
| Collected (texts : list string)
| OverBudget (total limit : Z) (texts : list string)
| Failure (e : exn) (text : string).

(** A row of the conversation log: role, text and tokens. *)
Record row : Type := mk_row { r_role : string; r_text : string; r_tokens : option Z }.

(** [t_offered]: the calls of [on_chunk] with whether they came back in
    time. The fields from [t_collected] on are those of one attempt. *)
Record turn : Type := mk_turn {
  t_offered : list (string * bool);
  t_tool_used : bool;
  t_rows : list row;
  t_events : list (string * pydict);
  t_collected : list string;
  t_emitted : Z;
  t_tool_names : list (string * string);
  t_running : list string;
  t_total : Z
}.

Definition new_attempt (t : turn) : turn :=
  mk_turn (t_offered t) (t_tool_used t) (t_rows t) (t_events t) [] 0 [] [] 0.

Definition new_turn : turn := mk_turn [] false [] [] [] 0 [] [] 0.

Definition set_collected (t : turn) (texts : list string) : turn :=
  mk_turn (t_offered t) (t_tool_used t) (t_rows t) (t_events t) texts (t_emitted t) (t_tool_names t) (t_running t)
    (t_total t).

Definition add_event (t : turn) (type_ : string) (payload : pydict) : turn :=
  mk_turn (t_offered t) (t_tool_used t) (t_rows t) (t_events t ++ [(type_, payload)]) (t_collected t) (t_emitted t)
    (t_tool_names t) (t_running t) (t_total t).

Definition add_row (t : turn) (r : row) : turn :=
  mk_turn (t_offered t) (t_tool_used t) (t_rows t ++ [r]) (t_events t) (t_collected t) (t_emitted t)
    (t_tool_names t) (t_running t) (t_total t).

Definition use_tool (t : turn) (id name : string) : turn :=
  mk_turn (t_offered t) true (t_rows t) (t_events t) (t_collected t) (t_emitted t)
    (od_set (t_tool_names t) id name) (id :: t_running t) (t_total t).

Definition set_running (t : turn) (ids : list string) : turn :=
  mk_turn (t_offered t) (t_tool_used t) (t_rows t) (t_events t) (t_collected t) (t_emitted t) (t_tool_names t) ids
    (t_total t).

Definition set_total (t : turn) (n : Z) : turn :=
  mk_turn (t_offered t) (t_tool_used t) (t_rows t) (t_events t) (t_collected t) (t_emitted t) (t_tool_names t)
    (t_running t) n.

(** A call of [on_chunk] under its time limit; only a chunk that was taken
    counts. *)
Definition offer (taken : nat -> bool) (chunk : string) (t : turn) : turn :=
  let ok := taken (length (t_offered t)) in
  mk_turn (t_offered t ++ [(chunk, ok)]) (t_tool_used t) (t_rows t) (t_events t) (t_collected t)
    (if ok then t_emitted t + 1 else t_emitted t) (t_tool_names t) (t_running t) (t_total t).

Section Query.
Variable sha256_hex : string -> string.
(** Whether the call of [on_chunk] with this number succeeds in time; whether
    there is an [on_chunk]. *)
Variable taken : nat -> bool.
Variable streaming : bool.
Variable session_id : string.
(** [ctx.model] and [CLAUDE_MODEL], [None] when falsy. *)
Variables model claude_model : option string.
Variable max_tokens : option Z.

Definition effective_model : option string := match model with Some m => Some m | None => claude_model end.

(** [_session_id_hash] *)
Definition event_session_hash (sid : string) : string :=
  if decide (sid = "") then "000000000000" else str_take 12 (sha256_hex sid).

(** The payload of a [conversation.turn] event. *)
Definition turn_payload (role text : string) (m : option string) : pydict :=
  mk_dict ([("session_id_hash", VStr (event_session_hash session_id)); ("role", VStr role);
            ("content_bytes", VInt (prompt_bytes text))]
           ++ match m with Some m => [("model", VStr m)] | None => [] end).

Definition tool_payload (tool : string) (is_error : bool) (size us : Z) : pydict :=
  mk_dict [("session_id_hash", VStr (event_session_hash session_id));
           ("tool", VStr (if decide (tool = "") then "unknown" else tool)); ("duration_ms", VInt (us / 1000));
           ("outcome", VStr (if is_error then "error" else "ok")); ("result_size_bytes", VInt size)].

Definition process_block (t : turn) (b : block) : turn :=
  match b with
  | TextBlock text =>
      let t := set_collected t (t_collected t ++ [text]) in
      if streaming && bool_decide (text <> "") then
        let t := if 0 <? t_emitted t then offer taken paragraph t else t in
        offer taken text t
      else t
  | ToolUseBlock id name => use_tool t id name
  | ToolResultBlock id is_error size elapsed =>
      let tool := default "unknown" (od_get (t_tool_names t) id) in
      let us := if decide (id ∈ t_running t) then elapsed else 0 in
      add_event (set_running t (filter (fun i => i <> id) (t_running t))) "tool.use" (tool_payload tool is_error size us)
  | OtherBlock => t
  end.

Definition texts_of (content : list block) : list string :=
  omap (fun b => match b with TextBlock text => Some text | _ => None end) content.

(** The rows and the events of the texts of one message. *)
Definition log_text (t : turn) (text : string) : turn :=
  add_event (add_row t (mk_row "agent" text (if t_total t =? 0 then None else Some (t_total t))))
    "conversation.turn" (turn_payload "assistant" text effective_model).

Definition process_assistant (t : turn) (content : list block) (u : usage) : turn * option outcome :=
  let t := foldl process_block t content in
  let t := match u with TotalTokens n => set_total t n | UsageFails => t end in
  match u, max_tokens with
  | TotalTokens n, Some limit =>
      if limit <=? n then (t, Some (OverBudget n limit (t_collected t))) else (foldl log_text t (texts_of content), None)
  | _, _ => (foldl log_text t (texts_of content), None)
  end.

Definition error_text (errors : list string) (result : string) : string :=
  match errors with
  | [] => if decide (result = "") then "Claude SDK returned an error result with no details" else result
  | _ => str_join newline errors
  end.

Fixpoint receive (t : turn) (ms : list message) : turn * option outcome :=
  match ms with
  | [] => (t, None)
  | OtherMessage :: ms => receive t ms
  | ErrorResult errors result :: _ => (t, Some (Failure RuntimeError (error_text errors result)))
  | AssistantMessage content u :: ms =>
      match process_assistant t content u with
      | (t, None) => receive t ms
      | r => r
      end
  end.

Definition run_query_inner (t : turn) (s : script) : turn * outcome :=
  match receive (new_attempt t) (s_messages s) with
  | (t, Some o) => (t, o)
  | (t, None) =>
      match s_end s with
      | SdkEnds => (t, Collected (t_collected t))
      | SdkRaises e text => (foldl process_block t (s_partial s), Failure e text)
      end
  end.

(** ** The retry *)

Definition collision_line (line : string) : bool :=
  str_contains "session" (str_lower line) && str_contains "already in use" (str_lower line).

(** The attempts made, each by its [resume] flag, and the outcome of the
    last. *)
Definition run_query (is_new : bool) (first second : script) (t : turn) : turn * outcome * list bool :=
  let '(t, o) := run_query_inner t first in
  match o with
  | Failure e _ =>
      if is_exception e && is_new && existsb collision_line (s_stderr first) && negb (t_tool_used t) then
        let '(t, o) := run_query_inner t second in (t, o, [negb is_new; true])
      else (t, o, [negb is_new])
  | _ => (t, o, [negb is_new])
  end.

(** ** One turn *)

(** What happens to the session: it is used, it is forgotten with its file,
    or left as it was. *)
Inductive session_use : Type := Track | Forget | Leave.

(** The name of an exception and its text, as the log has them. *)
Variable exn_name : exn -> string.

Definition system_row (text : string) : row := mk_row "system" text None.

Definition budget_row (total limit : Z) : row :=
  system_row ("Budget exceeded: " +:+ py_str_int total +:+ " tokens used of " +:+ py_str_int limit +:+ " limit.").

(** The time limit turns the cancellation of [run_query] into a timeout. *)
Definition with_deadline (deadline : bool) (o : outcome) : outcome :=
  match o with
  | Failure CancelledError _ => if deadline then Failure TimeoutError "" else o
  | _ => o
  end.

(** The texts of the answer, the use of the session and the row that closes
    the turn, before the session is used: [inr] is an exception. *)
Definition settle (o : outcome) : (list string + exn * string) * session_use * option row :=
  match o with
  | Collected texts => (inl texts, Track, None)
  | OverBudget total limit texts => (inl texts, Track, Some (budget_row total limit))
  | Failure TimeoutError text => (inr (TimeoutError, text), Forget, Some (system_row (exn_name TimeoutError +:+ ": " +:+ text)))
  | Failure CancelledError text => (inr (CancelledError, text), Leave, None)
  | Failure e text => (inr (e, text), Leave, Some (system_row (exn_name e +:+ ": " +:+ text)))
  end.

Definition opt_row (t : turn) (r : option row) : turn := match r with Some r => add_row t r | None => t end.

(** [MAX_SESSIONS] *)
Variable max_sessions : Z.

Record turn_result : Type := mk_turn_result {
  a_answer : res string;
  (** the text of the exception *)
  a_error : string;
  a_turn : turn;
  a_sessions : list (string * Z);
  (** the file of the session is removed *)
  a_unlink : bool;
  a_attempts : list bool
}.

(** The text of the exception of [popitem]. *)
Definition NO_SESSION : string := "'dictionary is empty'".

(** [_run_inner]. [file_exists]: the SDK has a file for the session. *)
Definition run_inner (prompt : string) (sessions : list (string * Z)) (now : Z) (file_exists deadline : bool)
    (first second : script) : turn_result :=
  let t := add_event (add_row new_turn (mk_row "user" prompt None)) "conversation.turn" (turn_payload "user" prompt model) in
  let '(t, o, attempts) := run_query (negb file_exists) first second t in
  let '(answer, use, closing) := settle (with_deadline deadline o) in
  let t := opt_row t closing in
  match answer, use with
  | inl texts, _ =>
      match track_session max_sessions sessions session_id now with
      | Ok sessions' => mk_turn_result (Ok (str_join paragraph texts)) "" t sessions' false attempts
      | Raise e =>
          mk_turn_result (Raise e) NO_SESSION
            (match closing with
             | None => add_row t (system_row (exn_name e +:+ ": " +:+ NO_SESSION))
             | Some _ => t
             end) sessions false attempts
      end
  | inr (e, text), Forget => mk_turn_result (Raise e) text t (od_pop sessions session_id) true attempts
  | inr (e, text), _ => mk_turn_result (Raise e) text t sessions false attempts
  end.
End Query.

(** ** A request *)

(** A chunk on the session's stream: role, number in the turn, text and
    whether it closes the role's part. *)
Record chunk : Type := mk_chunk { k_role : string; k_seq : Z; k_content : string; k_final : bool }.

Record execution : Type := mk_execution {
  x_replies : list string;
  x_chunks : list chunk;
  x_rows : list row;
  x_raised : option exn;
  (** the session the turn ran in, if it ran *)
  x_session : option string;
  x_result : option turn_result
}.

Definition EMPTY_PROMPT_REPLY : string :=
  "Error: prompt is empty or whitespace-only; request rejected without dispatching to the model.".

(** [str(context_id or metadata.get("session_id") or "")], cleaned. *)
Definition raw_session (context_id : option string) (metadata : pydict) : string :=
  clean_session (match nonempty context_id with
                 | Some s => s
                 | None => let v := dict_get_none metadata "session_id" in if truthy v then py_str v else ""
                 end).

(** A model that is not text is not modelled. *)
Definition model_of (metadata : pydict) : option string :=
  match dict_get_none metadata "model" with VStr s => nonempty (Some s) | _ => None end.

Definition caller_of (metadata : pydict) : string :=
  match dict_get_none metadata "caller_id" with VStr s => s | _ => "" end.

(** The assistant's chunks, numbered after the user's. *)
Definition assistant_chunks (texts : list string) : list chunk :=
  imap (fun i text => mk_chunk "assistant" (Z.of_nat i + 1) text false) texts.

Definition final_chunk (n : nat) : chunk := mk_chunk "assistant" (Z.of_nat n + 1) "" true.

Section Execute.
Variable sha256_hex : string -> string.
Variable hmac_hex : string -> string -> string.
Variable uuid5 : string -> string.
Variable is_uuid : string -> bool.
Variable bind_rearm : Z.
(** The random id, [SESSION_ID_SECRET] and [SESSION_ID_SECRET_PREV]. *)
Variables fresh secret prev_secret : string.
Variable tele : telemetry.
(** [MAX_PROMPT_BYTES], [MAX_SESSIONS], [CLAUDE_MAX_BUFFER_SIZE] in MiB. *)
Variables max_prompt_bytes max_sessions buffer_mib : Z.
Variable claude_model : option string.
Variable exn_name : exn -> string.
Variable float_int : string -> res Z.
(** Which sessions have a file. *)
Variable file_exists : string -> bool.

Definition TOO_LARGE_REPLY (bytes : Z) : string :=
  "Error: Prompt size " +:+ py_str_int bytes +:+ " bytes exceeds MAX_PROMPT_BYTES limit of " +:+
  py_str_int max_prompt_bytes +:+ " bytes.".

Definition TOO_LARGE_ROW (bytes : Z) : row :=
  system_row ("execute() rejected: prompt " +:+ py_str_int bytes +:+ " bytes exceeds MAX_PROMPT_BYTES=" +:+
              py_str_int max_prompt_bytes +:+ " (#1620).").

(** The session id: under the current secret, or under the previous one if
    that session has a file. *)
Definition choose_session (metadata : pydict) (raw : string) : string :=
  match (derive_session_id_candidates sha256_hex hmac_hex uuid5 is_uuid bind_rearm fresh raw (caller_of metadata)
           secret prev_secret tele).1 with
  | [] => ""
  | current :: rest => default current (head (filter (fun sid => file_exists sid = true) rest))
  end.

(** Values that are not positive are ignored. *)
Definition token_limit (metadata : pydict) : res (option Z) :=
  match dict_get_none metadata "max_tokens" with
  | VNone => Ok None
  | raw => match int_of float_int raw with
           | Ok n => Ok (if n <=? 0 then None else Some n)
           | Raise (ValueError | TypeError) => Ok None
           | Raise e => Raise e
           end
  end.

Definition BUFFER_REPLY : string :=
  "Error: a reply or tool result exceeded the " +:+ py_str_int buffer_mib +:+ " MiB SDK read buffer, so the turn was aborted before completing. Narrow the request (e.g. avoid reading a very large file in one step) or raise CLAUDE_MAX_BUFFER_SIZE.".

(** After [run]: the replies, the row, whether the closing chunk is published, and the
    exception. *)
Definition answer_request (r : turn_result) : list string * list row * bool * option exn :=
  match a_answer r with
  | Ok response => (if decide (response = "") then [] else [response], [], true, None)
  | Raise CancelledError => ([], [], false, Some CancelledError)
  | Raise e =>
      let marker := system_row (exn_name e +:+ ": " +:+ a_error r) in
      if str_contains "maximum buffer size" (a_error r) then ([BUFFER_REPLY], [marker], true, None)
      else ([], [marker], true, Some e)
  end.

(** [execute]. Publishing a chunk does not suspend, so every call of
    [on_chunk] succeeds. *)
Definition execute (prompt : string) (context_id : option string) (metadata : pydict) (sessions : list (string * Z))
    (now : Z) (deadline : bool) (first second : script) : execution :=
  if decide (str_strip prompt = "") then
    mk_execution [EMPTY_PROMPT_REPLY] []
      [system_row "execute() rejected: empty or whitespace-only prompt (#544)."] None None None
  else if max_prompt_bytes <? prompt_bytes prompt then
    mk_execution [TOO_LARGE_REPLY (prompt_bytes prompt)] [] [TOO_LARGE_ROW (prompt_bytes prompt)] None None None
  else
    let sid := choose_session metadata (raw_session context_id metadata) in
    match token_limit metadata with
    | Raise e => mk_execution [] [] [] (Some e) None None
    | Ok limit =>
        let r := run_inner sha256_hex (fun _ => true) true sid (model_of metadata) claude_model limit exn_name
                   max_sessions prompt sessions now (file_exists sid) deadline first second in
        let '(replies, rows, closed, raised) := answer_request r in
        let offered := (t_offered (a_turn r)).*1 in
        mk_execution replies
          (mk_chunk "user" 0 prompt true :: assistant_chunks offered ++ (if closed then [final_chunk (length offered)] else []))
          (t_rows (a_turn r) ++ rows) raised (Some sid) (Some r)
    end.
End Execute.

(** ** Lemmas: the stream *)

Section QueryLemmas.
Variable sha256_hex : string -> string.
Variable taken : nat -> bool.
Variable streaming : bool.
Variable session_id : string.
Variables model claude_model : option string.
Variable max_tokens : option Z.

Abbreviation block_step := (process_block sha256_hex taken streaming session_id).
Abbreviation log_step := (log_text sha256_hex session_id model claude_model).
Abbreviation assistant_step := (process_assistant sha256_hex taken streaming session_id model claude_model max_tokens).
Abbreviation receive_all := (receive sha256_hex taken streaming session_id model claude_model max_tokens).
Abbreviation inner := (run_query_inner sha256_hex taken streaming session_id model claude_model max_tokens).
Abbreviation query := (run_query sha256_hex taken streaming session_id model claude_model max_tokens).

(** A property that every step keeps, on blocks that satisfy [Q], holds at the
    end of an attempt if it holds at its start. *)
Record step_closed (Q : block -> Prop) (P : turn -> Prop) : Prop := {
  sc_block : forall t b, Q b -> P t -> P (block_step t b);
  sc_total : forall t n, P t -> P (set_total t n);
  sc_log : forall t text, P t -> P (log_step t text)
}.

Definition message_blocks (m : message) : list block := match m with AssistantMessage c _ => c | _ => [] end.

(** All blocks of the script satisfy [Q]. *)
Definition script_blocks (Q : block -> Prop) (s : script) : Prop :=
  Forall (fun m => Forall Q (message_blocks m)) (s_messages s) /\ Forall Q (s_partial s).

Lemma foldl_keeps {A} (Q : A -> Prop) (P : turn -> Prop) (f : turn -> A -> turn) (l : list A) t :
  (forall t a, Q a -> P t -> P (f t a)) -> Forall Q l -> P t -> P (foldl f t l).
Proof. intros Hf Hl. revert t. induction Hl as [|a l Ha _ IH]; intros t Ht; [done|]. apply IH. by apply Hf. Qed.

Lemma assistant_keeps Q P t content u :
  step_closed Q P -> Forall Q content -> P t -> P (assistant_step t content u).1.
Proof.
  intros Hc Hq Ht. assert (P (foldl block_step t content)) as Hb by (eapply foldl_keeps; [apply Hc|done..]).
  assert (forall t, P t -> P (foldl log_step t (texts_of content))) as Hl.
  { intros t' Ht'. apply (foldl_keeps (fun _ => True)); [intros; by apply Hc|by apply Forall_true|done]. }
  unfold process_assistant. destruct u as [|n]; [by apply Hl|].
  destruct max_tokens as [limit|]; [destruct (limit <=? n)|]; cbn; repeat (apply Hl || apply (sc_total _ _ Hc)); done.
Qed.

Lemma receive_keeps Q P ms t :
  step_closed Q P -> Forall (fun m => Forall Q (message_blocks m)) ms -> P t -> P (receive_all t ms).1.
Proof.
  intros Hc Hms. revert t. induction Hms as [|m ms Hm _ IH]; intros t Ht; [done|].
  destruct m as [content u|errors result|]; cbn; auto.
  pose proof (assistant_keeps Q P t content u Hc Hm Ht) as Ha.
  destruct (assistant_step t content u) as [t' [o|]]; [done|]. by apply IH.
Qed.

Lemma inner_keeps Q P t s : step_closed Q P -> script_blocks Q s -> P (new_attempt t) -> P (inner t s).1.
Proof.
  intros Hc [Hms Hp] Ht. unfold run_query_inner. pose proof (receive_keeps Q P (s_messages s) _ Hc Hms Ht) as Hr.
  destruct (receive_all (new_attempt t) (s_messages s)) as [t' [o|]]; [done|].
  destruct (s_end s); [done|]. cbn. eapply foldl_keeps; [apply Hc|done..].
Qed.

Lemma query_keeps Q P is_new first second t :
  step_closed Q P -> (forall t, P t -> P (new_attempt t)) -> script_blocks Q first -> script_blocks Q second -> P t ->
  P (query is_new first second t).1.1.
Proof.
  intros Hc Hnew H1 H2 Ht. unfold run_query. pose proof (inner_keeps Q P t first Hc H1 (Hnew _ Ht)) as Hi.
  destruct (inner t first) as [t' o]. destruct o as [| |e text]; [done..|].
  destruct (_ && _ && _ && _); [|done]. pose proof (inner_keeps Q P t' second Hc H2 (Hnew _ Hi)).
  by destruct (inner t' second).
Qed.

(** *** Tool uses *)

Definition is_tool_use (b : block) : bool := match b with ToolUseBlock _ _ => true | _ => false end.

Definition over_budget (u : usage) : bool :=
  match u, max_tokens with TotalTokens n, Some limit => limit <=? n | _, _ => false end.

(** The blocks an attempt gets to see, and whether it reaches the end of the
    messages. *)
Fixpoint handled (ms : list message) : list block :=
  match ms with
  | [] => []
  | AssistantMessage content u :: ms => content ++ (if over_budget u then [] else handled ms)
  | ErrorResult _ _ :: _ => []
  | OtherMessage :: ms => handled ms
  end.

Fixpoint reaches_end (ms : list message) : bool :=
  match ms with
  | [] => true
  | AssistantMessage _ u :: ms => negb (over_budget u) && reaches_end ms
  | ErrorResult _ _ :: _ => false
  | OtherMessage :: ms => reaches_end ms
  end.

Definition attempt_blocks (s : script) : list block :=
  handled (s_messages s) ++
  (if reaches_end (s_messages s) then match s_end s with SdkEnds => [] | SdkRaises _ _ => s_partial s end else []).

Lemma offer_tool_used chunk t : t_tool_used (offer taken chunk t) = t_tool_used t.
Proof. done. Qed.

Lemma block_tool_used t b : t_tool_used (block_step t b) = t_tool_used t || is_tool_use b.
Proof.
  destruct b as [text|id name|id e n us|]; cbn; rewrite ?orb_false_r, ?orb_true_r; try done.
  destruct (streaming && _); [|done]. by case_match.
Qed.

Lemma blocks_tool_used l t : t_tool_used (foldl block_step t l) = t_tool_used t || existsb is_tool_use l.
Proof.
  revert t. induction l as [|b l IH]; intros t; cbn; [by rewrite orb_false_r|].
  by rewrite IH, block_tool_used, orb_assoc.
Qed.

Lemma logs_tool_used l t : t_tool_used (foldl log_step t l) = t_tool_used t.
Proof. revert t. induction l as [|x l IH]; intros t; [done|]. by cbn; rewrite IH. Qed.

Lemma assistant_spec t content u :
  let r := assistant_step t content u in
  t_tool_used r.1 = t_tool_used t || existsb is_tool_use content /\ (r.2 = None <-> over_budget u = false).
Proof.
  unfold process_assistant, over_budget. destruct u as [|n]; cbn; [|destruct max_tokens as [limit|]; [destruct (limit <=? n)|]];
    cbn; rewrite ?logs_tool_used; cbn; by rewrite blocks_tool_used.
Qed.

Lemma receive_tool_used ms t :
  t_tool_used (receive_all t ms).1 = t_tool_used t || existsb is_tool_use (handled ms) /\
  ((receive_all t ms).2 = None <-> reaches_end ms = true).
Proof.
  revert t. induction ms as [|m ms IH]; intros t; cbn; [by rewrite orb_false_r|].
  destruct m as [content u|errors result|]; cbn; [|by rewrite orb_false_r|apply IH].
  destruct (assistant_spec t content u) as [Hu Hn]. destruct (assistant_step t content u) as [t' [o|]]; cbn in *.
  - destruct (over_budget u); [|discriminate (proj2 Hn eq_refl)]. by rewrite app_nil_r, Hu.
  - rewrite (proj1 Hn eq_refl). destruct (IH t') as [-> ->]. by rewrite existsb_app, orb_assoc, Hu.
Qed.

Lemma inner_tool_used t s : t_tool_used (inner t s).1 = t_tool_used t || existsb is_tool_use (attempt_blocks s).
Proof.
  unfold run_query_inner, attempt_blocks. destruct (receive_tool_used (s_messages s) (new_attempt t)) as [Hu Hn].
  rewrite existsb_app, orb_assoc. destruct (receive_all (new_attempt t) (s_messages s)) as [t' [o|]]; cbn in *.
  - destruct (reaches_end _); [discriminate (proj2 Hn eq_refl)|]. by rewrite orb_false_r.
  - rewrite (proj1 Hn eq_refl). destruct (s_end s); cbn; [by rewrite orb_false_r|]. by rewrite blocks_tool_used, Hu.
Qed.
End QueryLemmas.

(** *** Streamed text *)

Definition nonempty_texts (texts : list string) : list string := filter (fun x => x <> "") texts.

Lemma str_join_snoc sep l (x : string) :
  str_join sep (l ++ [x]) = match l with [] => x | _ => str_join sep l +:+ sep +:+ x end.
Proof.
  induction l as [|y l IH]; [done|]. cbn [app str_join]. rewrite IH.
  destruct l as [|z l]; cbn [app]; [done|]. rewrite !str_app_assoc. by f_equal.
Qed.

(** What was streamed since the attempt began is the non-empty texts with
    blank lines between them. *)
Record streamed (t : turn) : Prop := {
  st_text : str_join "" (t_offered t).*1 = str_join paragraph (nonempty_texts (t_collected t));
  st_count : 0 <= t_emitted t;
  st_first : t_emitted t = 0 <-> nonempty_texts (t_collected t) = []
}.

Lemma nonempty_snoc texts x :
  nonempty_texts (texts ++ [x]) = nonempty_texts texts ++ (if decide (x <> "") then [x] else []).
Proof. unfold nonempty_texts. rewrite filter_app. f_equal. Qed.

Lemma join_offer chunk t :
  str_join "" (t_offered (offer (fun _ => true) chunk t)).*1 = str_join "" (t_offered t).*1 +:+ chunk.
Proof.
  cbn. rewrite fmap_app. cbn [fmap list_fmap fst]. rewrite str_join_snoc. by destruct ((t_offered t).*1).
Qed.

Lemma streamed_block sha sid t b : streamed t -> streamed (process_block sha (fun _ => true) true sid t b).
Proof.
  intros [Ht Hc Hf]. destruct b as [text|id name|id e n us|]; cbn [process_block]; try by constructor.
  cbv zeta. rewrite andb_true_l. case_bool_decide as Hne.
  - set (t0 := set_collected t (t_collected t ++ [text])).
    assert (Hn : nonempty_texts (t_collected t0) = nonempty_texts (t_collected t) ++ [text]).
    { cbn. by rewrite nonempty_snoc, decide_True. }
    assert (Hz : nonempty_texts (t_collected t0) <> []) by (rewrite Hn; by destruct (nonempty_texts _)).
    destruct (0 <? t_emitted t0) eqn:H0; boolp; cbn in H0.
    + constructor.
      * rewrite !join_offer. cbn [t_collected offer]. rewrite Hn, str_join_snoc. cbn [t_offered t0 set_collected].
        rewrite Ht, str_app_assoc. destruct (nonempty_texts (t_collected t)) eqn:He; [|done].
        destruct Hf as [_ Hf]. rewrite Hf in H0 by done. lia.
      * cbn. lia.
      * cbn [t_emitted offer t_collected]. split; [cbn; lia|done].
    + assert (t_emitted t = 0) as Hz0 by lia. constructor.
      * rewrite join_offer. cbn [t_collected offer]. rewrite Hn. cbn [t_offered t0 set_collected]. rewrite Ht.
        by rewrite (proj1 Hf Hz0).
      * cbn. lia.
      * cbn [t_emitted offer t_collected]. split; [cbn; lia|done].
  - assert (text = "") as -> by (by destruct (decide (text = ""))).
    assert (Hn : nonempty_texts (t_collected t ++ [""]) = nonempty_texts (t_collected t)) by (rewrite nonempty_snoc, decide_False, app_nil_r by auto; done).
    by constructor; cbn -[nonempty_texts]; rewrite ?Hn.
Qed.

Lemma streamed_closed sha sid model claude_model :
  step_closed sha (fun _ => true) true sid model claude_model (fun _ => True) streamed.
Proof.
  constructor; [by intros; apply streamed_block| |]; intros t x [Ht Hc Hf]; by constructor.
Qed.

(** *** Events *)

(** The validator accepts the event. *)
Definition accepted_event (e : string * pydict) : Prop :=
  forall agent now n, now <> "" ->
    validate (to_dict (mk_envelope e.1 (VInt 1) (py_str_int n) now (VStr agent) e.2)) = Ok None.

Definition block_measured (b : block) : Prop :=
  match b with ToolResultBlock _ _ size elapsed => 0 <= size /\ 0 <= elapsed | _ => True end.

Section Events.
Variable sha256_hex : string -> string.
Hypothesis sha256_length : forall s, String.length (sha256_hex s) = 64%nat.

Lemma event_hash_length sid : String.length (event_session_hash sha256_hex sid) = 12%nat.
Proof. unfold event_session_hash. case_decide; [done|]. by rewrite str_take_length, sha256_length. Qed.

Lemma prompt_bytes_nonneg text : 0 <= prompt_bytes text.
Proof. unfold prompt_bytes, str_len. lia. Qed.

Lemma session_hash_field sid kvs :
  has_field (mk_dict (("session_id_hash", VStr (event_session_hash sha256_hex sid)) :: kvs)) "session_id_hash" FSessionHash.
Proof. eexists. split; [done|]. eexists. split; [done|]. apply event_hash_length. Qed.

Lemma turn_payload_accepted sid role text m :
  role ∈ CONVERSATION_ROLES -> accepted_event ("conversation.turn", turn_payload sha256_hex sid role text m).
Proof.
  intros Hrole agent now n Hnow. eapply payload_accepted; [done| |done|right; by eexists].
  repeat constructor; [apply session_hash_field|..].
  - eexists. split; [done|]. by exists role.
  - eexists. split; [done|]. exists (prompt_bytes text). split; [done|]. apply prompt_bytes_nonneg.
  - intros v. destruct m as [m|]; cbn; [|done]. intros [= <-]. by exists m.
Qed.

Lemma tool_payload_accepted sid tool is_error size us :
  0 <= size -> 0 <= us -> accepted_event ("tool.use", tool_payload sha256_hex sid tool is_error size us).
Proof.
  intros Hs Hu agent now n Hnow. eapply payload_accepted; [done| |done|right; by eexists].
  assert (0 <= us / 1000) by (apply Z.div_pos; lia).
  repeat constructor; [apply session_hash_field|..].
  - eexists. split; [done|]. by eexists.
  - eexists. split; [done|]. by exists (us / 1000).
  - eexists. split; [done|]. eexists. split; [done|]. destruct is_error; apply (bool_decide_eq_true_1 _); vm_compute; reflexivity.
  - intros v. cbn. intros [= <-]. by exists size.
  - intros v. done.
Qed.

Lemma events_closed taken streaming sid model claude_model :
  step_closed sha256_hex taken streaming sid model claude_model block_measured (fun t => Forall accepted_event (t_events t)).
Proof.
  constructor.
  - intros t [text|id name|id e size us|] Hb Ht; cbn [process_block]; try done.
    + cbv zeta. destruct (streaming && _); [|done]. by destruct (0 <? _).
    + cbn. apply Forall_app. split; [done|]. constructor; [|done]. apply tool_payload_accepted; [apply Hb|].
      case_decide; [apply Hb|lia].
  - done.
  - intros t text Ht. cbn. apply Forall_app. split; [done|]. constructor; [|done]. apply turn_payload_accepted. set_solver.
Qed.
End Events.

(** *** The turn *)

Lemma run_inner_spec sha taken streaming sid model claude_model limit exn_name max_sessions prompt sessions now fe dl first second :
  let t0 := add_event (add_row new_turn (mk_row "user" prompt None)) "conversation.turn" (turn_payload sha sid "user" prompt model) in
  let '(t, o, attempts) := run_query sha taken streaming sid model claude_model limit (negb fe) first second t0 in
  let r := run_inner sha taken streaming sid model claude_model limit exn_name max_sessions prompt sessions now fe dl first second in
  a_attempts r = attempts /\ t_offered (a_turn r) = t_offered t /\ t_events (a_turn r) = t_events t /\
  match with_deadline dl o with
  | Collected texts | OverBudget _ _ texts =>
      a_unlink r = false /\
      match track_session max_sessions sessions sid now with
      | Ok sessions' => a_answer r = Ok (str_join paragraph texts) /\ a_sessions r = sessions'
      | Raise e => a_answer r = Raise e /\ a_sessions r = sessions
      end
  | Failure TimeoutError text =>
      a_answer r = Raise TimeoutError /\ a_error r = text /\ a_sessions r = od_pop sessions sid /\ a_unlink r = true
  | Failure e text => a_answer r = Raise e /\ a_error r = text /\ a_sessions r = sessions /\ a_unlink r = false
  end.
Proof.
  cbv zeta. unfold run_inner. cbv zeta.
  destruct (run_query _ _ _ _ _ _ _ _ _ _ _) as [[t o] attempts]. destruct (with_deadline dl o) as [texts|total lim texts|e text].
  1,2: cbn [settle]; destruct (track_session max_sessions sessions sid now); cbn; by split_and!.
  destruct e; cbn; by split_and!.
Qed.

Lemma imap_app_offset {A B} (f : nat -> A -> B) (l : list A) x :
  imap f (l ++ [x]) = imap f l ++ [f (length l) x].
Proof. rewrite imap_app. cbn. by rewrite Nat.add_0_r. Qed.

Lemma chunk_numbers offered (closed : bool) prompt :
  let cs := mk_chunk "user" 0 prompt true :: assistant_chunks offered ++ (if closed then [final_chunk (length offered)] else []) in
  k_seq <$> cs = Z.of_nat <$> seq 0 (length cs).
Proof.
  cbv zeta. cbn [fmap list_fmap length seq k_seq]. f_equal.
  assert (Hf : forall (l : list string) k, Z.of_nat <$> seq k (length l) = imap (fun i _ => Z.of_nat (k + i)) l).
  { induction l as [|x l IH]; intros k; [done|]. cbn. rewrite Nat.add_0_r. f_equal. rewrite IH. apply imap_ext. intros. cbn. lia. }
  rewrite fmap_app, length_app, seq_app, fmap_app. unfold assistant_chunks at 2 3. rewrite length_imap. f_equal.
  - rewrite Hf. unfold assistant_chunks. rewrite fmap_imap. apply imap_ext. intros. cbn. lia.
  - destruct closed; [|done]. cbn. do 2 f_equal. lia.
Qed.

Lemma assistant_chunks_content texts : k_content <$> assistant_chunks texts = texts.
Proof.
  unfold assistant_chunks. rewrite fmap_imap. change (imap (fun _ (x : string) => x) texts = texts).
  induction texts as [|x l IH]; [done|]. cbn. f_equal. exact IH.
Qed.

Lemma query_once sha taken streaming sid model claude_model limit is_new first second t :
  length (run_query sha taken streaming sid model claude_model limit is_new first second t).2 = 1%nat ->
  (run_query sha taken streaming sid model claude_model limit is_new first second t).1 =
    run_query_inner sha taken streaming sid model claude_model limit t first.
Proof.
  unfold run_query. destruct (run_query_inner _ _ _ _ _ _ _ t first) as [t1 [| |e text]]; [done..|].
  destruct (_ && _ && _ && _); [|done]. by destruct (run_query_inner _ _ _ _ _ _ _ t1 second).
Qed.

(** The texts an attempt ends with are those it collected. *)
Lemma inner_texts sha taken streaming sid model claude_model limit t s :
  let '(t', o) := run_query_inner sha taken streaming sid model claude_model limit t s in
  match o with Collected texts | OverBudget _ _ texts => texts = t_collected t' | Failure _ _ => True end.
Proof.
  unfold run_query_inner.
  assert (Hrec : forall ms t0, let '(t', o) := receive sha taken streaming sid model claude_model limit t0 ms in
    match o with Some (Collected texts) => False | Some (OverBudget _ _ texts) => texts = t_collected t' | _ => True end).
  { induction ms as [|[content u|errors result|] ms IH]; intros t0; cbn; [done| |done|apply IH].
    unfold process_assistant. destruct u as [|n]; [apply IH|]. destruct limit as [lim|]; [|apply IH].
    destruct (lim <=? n); [done|apply IH]. }
  specialize (Hrec (s_messages s) (new_attempt t)).
  destruct (receive _ _ _ _ _ _ _ _ _) as [t' [[| |]|]]; try done. by destruct (s_end s).
Qed.

(** ** Properties *)

(** C26: A prompt is replayed at most once, and never after a tool may have
    run. The SDK is asked a second time exactly when the session was thought
    new, the first attempt failed with an exception that is neither a
    cancellation nor the budget, its standard error speaks of a session that
    is already in use, and none of the blocks it delivered used a tool; the
    second attempt resumes the session. Otherwise there is one attempt and
    its outcome is that of the turn. *)
Theorem retry_is_safe sha taken streaming sid model claude_model limit is_new first second t :
  t_tool_used t = false ->
  let inner := run_query_inner sha taken streaming sid model claude_model limit in
  let '(t', o, attempts) := run_query sha taken streaming sid model claude_model limit is_new first second t in
  (attempts = [false; true] /\ (t', o) = inner (inner t first).1 second \/
   attempts = [negb is_new] /\ (t', o) = inner t first) /\
  (attempts = [false; true] <->
     is_new = true /\ (exists e text, (inner t first).2 = Failure e text /\ e <> CancelledError) /\
     existsb collision_line (s_stderr first) = true /\ existsb is_tool_use (attempt_blocks limit first) = false).
Proof.
  intros Ht. cbv zeta. unfold run_query.
  pose proof (inner_tool_used sha taken streaming sid model claude_model limit t first) as Hu. rewrite Ht in Hu. cbn in Hu.
  destruct (run_query_inner _ _ _ _ _ _ _ t first) as [t1 o1] eqn:H1. cbn [fst snd] in *.
  assert (Hno : forall b, [b] = [false; true] -> False) by (intros ? [=]).
  destruct o1 as [texts|n l texts|e text].
  1,2: split; [by right|]; split; [by intros ?%Hno|by intros (_ & (? & ? & [=] & _) & _)].
  unfold is_exception. destruct (_ && _ && _ && _) eqn:Hr.
  - boolp. destruct Hr as [[[He Hn] Hc] Htool]. subst is_new.
    destruct (run_query_inner _ _ _ _ _ _ _ t1 second) as [t2 o2]. cbn. split; [by left|]. split; [|done].
    intros _. split_and!; [done|by exists e, text|done|congruence].
  - split; [by right|]. split; [by intros ?%Hno|]. intros (-> & (e' & text' & [= <- <-] & He) & Hc & Htool).
    rewrite Hc, Hu, Htool, bool_decide_true in Hr by done. done.
Qed.


(** C28: Every event of a turn is one the harness accepts: whatever the SDK
    sends and however the turn ends, each [conversation.turn] and [tool.use]
    payload passes the validator of the event stream. *)
Theorem turn_events_accepted sha taken streaming sid model claude_model limit exn_name max_sessions prompt sessions now
    fe dl first second :
  (forall s, String.length (sha s) = 64%nat) -> script_blocks block_measured first -> script_blocks block_measured second ->
  Forall accepted_event (t_events (a_turn
    (run_inner sha taken streaming sid model claude_model limit exn_name max_sessions prompt sessions now fe dl first second))).
Proof.
  intros Hsha H1 H2.
  pose proof (run_inner_spec sha taken streaming sid model claude_model limit exn_name max_sessions prompt sessions now fe dl first second) as Hr.
  cbv zeta in Hr. set (t0 := add_event _ _ _) in Hr.
  pose proof (query_keeps sha taken streaming sid model claude_model limit _ _ (negb fe) first second t0
    (events_closed sha Hsha taken streaming sid model claude_model)) as Hq.
  destruct (run_query _ _ _ _ _ _ _ _ _ _ t0) as [[t1 o] attempts]. destruct Hr as (_ & _ & -> & _). apply Hq; try done.
  cbn. constructor; [|done]. apply turn_payload_accepted; [done|set_solver].
Qed.


(** ** Examples and witnesses *)

Definition hash64 (s : string) : string := str_take 64 (s +:+ "0123456789012345678901234567890123456789012345678901234567890123").

Lemma hash64_length s : String.length (hash64 s) = 64%nat.
Proof.
  unfold hash64. rewrite str_take_length, str_length_app.
  change (String.length "0123456789012345678901234567890123456789012345678901234567890123") with 64%nat. lia.
Qed.

Definition name_of (e : exn) : string := match e with RuntimeError => "RuntimeError" | _ => "Exception" end.

(** A turn with a text, a tool and an answer in two texts. *)
Definition good_script : script :=
  mk_script [AssistantMessage [TextBlock "Let me look."; ToolUseBlock "t1" "Read"] (TotalTokens 120);
             OtherMessage;
             AssistantMessage [ToolResultBlock "t1" false 17 2500; TextBlock "It holds 3 lines."] (TotalTokens 180)]
    [] SdkEnds [].

(** The session is already in use, before anything was said. *)
Definition collision_script : script :=
  mk_script [] [] (SdkRaises RuntimeError "exit code 1") ["Error: Session ID 7 is already in use."].

Abbreviation example_execute fe prompt first second :=
  (execute hash64 (fun _ m => m) id (fun _ => true) 1 "new" "" "" (mk_telemetry 0 0 [] 0 0) 1000 10 16 None name_of
     (fun _ => Raise ValueError) fe prompt (Some "s1") (mk_dict [("max_tokens", VStr "500")]) [] 5 false first second).

Example example_turn :
  let x := example_execute (fun _ => true) "How long is it?" good_script good_script in
  x_replies x = ["Let me look." +:+ paragraph +:+ "It holds 3 lines."] /\ x_raised x = None /\
  (fun c => (k_seq c, k_content c, k_final c)) <$> x_chunks x =
    [(0, "How long is it?", true); (1, "Let me look.", false); (2, paragraph, false); (3, "It holds 3 lines.", false); (4, "", true)] /\
  (fun e => e.1) <$> t_events (a_turn (default (mk_turn_result (Raise OtherError) "" new_turn [] false []) (x_result x))) =
    ["conversation.turn"; "conversation.turn"; "tool.use"; "conversation.turn"].
Proof. vm_compute. done. Qed.

Example example_retry :
  let x := example_execute (fun _ => false) "How long is it?" collision_script good_script in
  x_raised x = None /\ a_attempts <$> x_result x = Some [false; true] /\ a_sessions <$> x_result x = Some [("s1", 5)].
Proof. vm_compute. done. Qed.

Abbreviation example_run first second :=
  (run_inner hash64 (fun _ => true) true "s1" None None None name_of 10 "How long is it?" [] 5 false false first second).

Lemma retry_is_safe_witness :
  t_tool_used new_turn = false /\
  (run_query hash64 (fun _ => true) true "s1" None None None true collision_script good_script new_turn).2 = [false; true].
Proof.
  split; [reflexivity|].
  pose proof (retry_is_safe hash64 (fun _ => true) true "s1" None None None true collision_script good_script new_turn eq_refl) as H.
  cbv zeta in H. destruct (run_query _ _ _ _ _ _ _ _ _ _ _) as [[t o] attempts]. apply H.
  split_and!; [done| |vm_compute; reflexivity|vm_compute; reflexivity]. exists RuntimeError, "exit code 1". split; [vm_compute; reflexivity|done].
Defined.


Lemma turn_events_accepted_witness : Forall accepted_event (t_events (a_turn (example_run good_script good_script))).
Proof.
  apply turn_events_accepted; [exact hash64_length| |]; split; cbn; repeat constructor; cbn; lia.
Defined.

(** An empty text between two others separates them twice in the answer and
    once in the stream. *)
Example empty_text_differs :
  let r := example_run (mk_script [AssistantMessage [TextBlock "a"; TextBlock ""; TextBlock "b"] UsageFails] [] SdkEnds []) good_script in
  a_answer r = Ok ("a" +:+ paragraph +:+ paragraph +:+ "b") /\
  str_join "" (t_offered (a_turn r)).*1 = "a" +:+ paragraph +:+ "b".
Proof. vm_compute. done. Qed.

(** A text that times out after its separator was taken: the next text is
    separated twice. *)
Example dropped_text_separated_twice :
  let r := run_inner hash64 (fun n => negb (Nat.eqb n 2)) true "s1" None None None name_of 10 "p" [] 5 false false
             (mk_script [AssistantMessage [TextBlock "a"; TextBlock "b"; TextBlock "c"] UsageFails] [] SdkEnds []) good_script in
  (filter (fun c => c.2 = true) (t_offered (a_turn r))).*1 = ["a"; paragraph; paragraph; "c"].
Proof. vm_compute. reflexivity. Qed.

(** The message that exceeds the budget is part of the answer and missing from
    the log. *)
Example over_budget_not_logged :
  let r := run_inner hash64 (fun _ => true) true "s1" None None (Some 100) name_of 10 "p" [] 5 false false good_script good_script in
  a_answer r = Ok "Let me look." /\
  r_text <$> t_rows (a_turn r) = ["p"; "Budget exceeded: 120 tokens used of 100 limit."].
Proof. vm_compute. done. Qed.

(** The failure is logged twice, by the turn and by the request. *)
Example failure_logged_twice :
  let x := example_execute (fun _ => true) "How long is it?" (mk_script [] [] (SdkRaises RuntimeError "boom") []) good_script in
  x_raised x = Some RuntimeError /\ r_text <$> x_rows x = ["How long is it?"; "RuntimeError: boom"; "RuntimeError: boom"].
Proof. vm_compute. done. Qed.

(** The text of the first attempt stays on the stream when the prompt is
    replayed. *)
Example replay_streams_twice :
  let x := example_execute (fun _ => false) "p"
             (mk_script [AssistantMessage [TextBlock "Hm."] UsageFails] [] (SdkRaises RuntimeError "x") ["session s1 already in use"])
             good_script in
  k_content <$> x_chunks x = ["p"; "Hm."; "Let me look."; paragraph; "It holds 3 lines."; ""] /\
  x_replies x = ["Let me look." +:+ paragraph +:+ "It holds 3 lines."].
Proof. vm_compute. done. Qed.
