(* ===== verification/ClaudeHooks.v ===== *)
(** * The tool-call gate of the Claude backend (backends/claude/executor.py)

    The PreToolUse callback: the rules in force ([ClaudeConfig]) decide
    ([HooksEngine]), the decision goes back to the SDK, and an event about it
    goes to the harness ([EventIngress]) as a background post under a cap.
    The posts are interleaved at their suspension points; the network and the
    environment are parameters. *)
From S2P Require Import Prelude PyStr PyVal HooksEngine EventSchema Bus EventIngress.

(** ** The transport *)

Definition HOOK_POST_MAX_INFLIGHT_DEFAULT : Z := 64.

(** [HOOK_POST_MAX_INFLIGHT] *)
Definition hook_post_max_inflight (var : option string) : Z :=
  match py_int (default "32" var) with
  | Some n => if n <=? 0 then HOOK_POST_MAX_INFLIGHT_DEFAULT else n
  | None => HOOK_POST_MAX_INFLIGHT_DEFAULT
  end.

(** The token and the description of its source. *)
Definition resolve_harness_events_auth_token (environ : string -> option string) : string * string :=
  let primary := default "" (environ "HARNESS_EVENTS_AUTH_TOKEN") in
  let fallback := default "" (environ "TRIGGERS_AUTH_TOKEN") in
  if decide (primary <> "") then (primary, "HARNESS_EVENTS_AUTH_TOKEN")
  else if decide (fallback <> "") then (fallback, "TRIGGERS_AUTH_TOKEN (legacy fallback — set HARNESS_EVENTS_AUTH_TOKEN to silence)")
  else ("", "(unset)").

(** A post: its task exists, awaits the answer, or is over. *)
Inductive stage : Type := Created | Awaiting | Over.

Record post : Type := mk_post { p_event : pydict; p_stage : stage }.

(** The in-flight set, the flags of the two one-shot warnings and what they
    guard, and the counter of shed events. Ghost: the hook calls and the
    times the shed warning was re-armed. *)
Record poster : Type := mk_poster {
  q_posts : gmap nat post;
  q_inflight : gset nat;
  q_shed_warned : bool;
  q_shed_warnings : Z;
  q_shed : Z;
  q_token_warned : bool;
  q_token_warnings : Z;
  q_sent : list (nat * string);
  q_calls : Z;
  q_rearms : Z;
  q_next : nat
}.

Definition new_poster : poster := mk_poster ∅ ∅ false 0 0 false 0 [] 0 0 0.

Definition set_post (p : poster) (i : nat) (x : post) : poster :=
  mk_poster (<[i := x]> (q_posts p)) (q_inflight p) (q_shed_warned p) (q_shed_warnings p) (q_shed p) (q_token_warned p)
    (q_token_warnings p) (q_sent p) (q_calls p) (q_rearms p) (q_next p).

Definition set_shed (p : poster) (warn : bool) : poster :=
  mk_poster (q_posts p) (q_inflight p) (q_shed_warned p || warn)
    (if warn then q_shed_warnings p + 1 else q_shed_warnings p) (q_shed p + 1) (q_token_warned p) (q_token_warnings p)
    (q_sent p) (q_calls p + 1) (q_rearms p) (q_next p).

Definition add_post (p : poster) (event : pydict) : poster :=
  mk_poster (<[q_next p := mk_post event Created]> (q_posts p)) ({[q_next p]} ∪ q_inflight p) (q_shed_warned p)
    (q_shed_warnings p) (q_shed p) (q_token_warned p) (q_token_warnings p) (q_sent p) (q_calls p + 1) (q_rearms p)
    (S (q_next p)).

Section Transport.
Variable cap : Z.

(** The scheduling of a post by the callback; [created]: [create_task] does
    not raise. *)
Definition schedule (p : poster) (event : pydict) (created : bool) : poster :=
  if cap <=? Z.of_nat (size (q_inflight p)) then set_shed p (negb (q_shed_warned p))
  else if created then add_post p event else set_shed p false.

(** [_post_hook_event_to_harness] up to the await of the answer. *)
Definition start_post (environ : string -> option string) (url : string) (p : poster) (i : nat) (event : pydict) : poster :=
  if decide (url = "") then set_post p i (mk_post event Over)
  else
    let token := (resolve_harness_events_auth_token environ).1 in
    if decide (token = "") then
      let p := set_post p i (mk_post event Over) in
      mk_poster (q_posts p) (q_inflight p) (q_shed_warned p) (q_shed_warnings p) (q_shed p) true
        (if q_token_warned p then q_token_warnings p else q_token_warnings p + 1) (q_sent p) (q_calls p) (q_rearms p) (q_next p)
    else
      let p := set_post p i (mk_post event Awaiting) in
      mk_poster (q_posts p) (q_inflight p) (q_shed_warned p) (q_shed_warnings p) (q_shed p) (q_token_warned p)
        (q_token_warnings p) ((i, "Bearer " +:+ token) :: q_sent p) (q_calls p) (q_rearms p) (q_next p).

(** The answer, or an exception, which is swallowed. *)
Definition finish_post (p : poster) (i : nat) (event : pydict) : poster := set_post p i (mk_post event Over).

(** The done callback. *)
Definition post_done (p : poster) (i : nat) : poster :=
  let inflight := q_inflight p ∖ {[i]} in
  let rearm := Z.of_nat (size inflight) <? cap / 2 in
  mk_poster (q_posts p) inflight (if rearm then false else q_shed_warned p) (q_shed_warnings p) (q_shed p) (q_token_warned p)
    (q_token_warnings p) (q_sent p) (q_calls p) (if rearm then q_rearms p + 1 else q_rearms p) (q_next p).

Inductive step : poster -> poster -> Prop :=
| st_call p event created : step p (schedule p event created)
| st_start p i event environ url :
    q_posts p !! i = Some (mk_post event Created) -> step p (start_post environ url p i event)
| st_finish p i event : q_posts p !! i = Some (mk_post event Awaiting) -> step p (finish_post p i event)
| st_done p i event : q_posts p !! i = Some (mk_post event Over) -> i ∈ q_inflight p -> step p (post_done p i).
End Transport.

(** ** The callback *)

Section Gate.
Context {re : Type}.
Variable re_search : re -> string -> bool.

(** The event: [traceparent] is that of the current span. *)
Definition decision_event (session tool decision : string) (matched : option (rule (re := re))) (traceparent : option string)
    : pydict :=
  let field := fun (f : rule -> string) => match matched with Some r => f r | None => "" end in
  mk_dict [("agent", VStr "claude"); ("session_id", VStr session); ("tool", VStr tool); ("decision", VStr decision);
           ("rule_name", VStr (field r_name)); ("reason", VStr (field r_reason)); ("source", VStr (field r_source));
           ("traceparent", match traceparent with Some t => VStr t | None => VNone end)].

(** The session of the event: the bound reference, even while it is empty,
    or the SDK's id when there is none. *)
Definition resolved_session (reference : option string) (input_session : string) : string := default input_session reference.

(** The reason of a denial, if the call is denied, and the transport
    afterwards. *)
Definition pre_tool_use (cap : Z) (st : hook_state (re := re)) (reference : option string) (input_session tool_name : string)
    (tool_input : pydict) (traceparent : option string) (created : bool) (p : poster) : option string * poster :=
  let '(decision, matched) := evaluate_pre_tool_use re_search tool_name tool_input (active_rules st) in
  let event := decision_event (resolved_session reference input_session) tool_name decision matched traceparent in
  let p := schedule cap p event created in
  match matched with
  | Some r => if decide (decision = DECISION_DENY) then (Some (r_reason r), p) else (None, p)
  | None => (None, p)
  end.
End Gate.

(** ** Lemmas *)

Section Invariant.
Variable cap : Z.
Hypothesis cap_positive : 0 < cap.

(** Every hook call was shed or has its post; the set holds the posts whose
    callback has not run, within the cap; each post that was sent was sent
    once; one shed warning at most follows each re-arming. *)
Record poster_ok (p : poster) : Prop := {
  po_calls : q_calls p = q_shed p + Z.of_nat (q_next p);
  po_shed : 0 <= q_shed_warnings p <= q_shed p;
  po_cap : Z.of_nat (size (q_inflight p)) <= cap;
  po_set : forall i, i ∈ q_inflight p -> is_Some (q_posts p !! i);
  po_live : forall i x, q_posts p !! i = Some x -> p_stage x <> Over -> i ∈ q_inflight p;
  po_known : forall i, is_Some (q_posts p !! i) <-> (i < q_next p)%nat;
  po_sent : NoDup (q_sent p).*1;
  po_sent_stage : forall i, i ∈ (q_sent p).*1 -> exists x, q_posts p !! i = Some x /\ p_stage x <> Created;
  po_warned : q_shed_warnings p <= q_rearms p + (if q_shed_warned p then 1 else 0);
  po_token : q_token_warnings p = if q_token_warned p then 1 else 0
}.

Lemma new_poster_ok : poster_ok new_poster.
Proof.
  constructor; cbn; try done; try lia; try set_solver.
  - rewrite size_empty. lia.
  - intros i. rewrite lookup_empty. split; [by intros []|lia].
  - constructor.
Qed.

Lemma set_post_known p i x j : is_Some (q_posts p !! i) -> is_Some (q_posts (set_post p i x) !! j) <-> is_Some (q_posts p !! j).
Proof.
  intros Hi. cbn. destruct (decide (i = j)) as [<-|Hne]; [rewrite lookup_insert_eq; naive_solver|by rewrite lookup_insert_ne].
Qed.

Lemma advance_ok p i x y :
  q_posts p !! i = Some x -> p_stage x <> Over -> p_stage y <> Created ->
  poster_ok p -> poster_ok (set_post p i y).
Proof.
  intros Hx Hlive Hy []. constructor; try done.
  - intros j Hj. apply set_post_known; [done|]. auto.
  - intros j z Hz Hs. cbn in *. destruct (decide (i = j)) as [<-|Hne]; [eauto|]. rewrite lookup_insert_ne in Hz by done. eauto.
  - intros j. rewrite set_post_known by done. auto.
  - intros j Hj. cbn. destruct (decide (i = j)) as [<-|Hne]; [rewrite lookup_insert_eq; eauto|].
    rewrite lookup_insert_ne by done. auto.
Qed.

Lemma sent_fresh p i event : poster_ok p -> q_posts p !! i = Some (mk_post event Created) -> i ∉ (q_sent p).*1.
Proof. intros Hp Hi Hin. destruct (po_sent_stage _ Hp _ Hin) as (x & Hx & Hs). by simplify_eq. Qed.

Lemma schedule_ok p event created : poster_ok p -> poster_ok (schedule cap p event created).
Proof.
  intros Hp. unfold schedule. destruct (Z.leb_spec cap (Z.of_nat (size (q_inflight p)))) as [Hc|Hc].
  { destruct Hp. constructor; try done; cbn; destruct (q_shed_warned p); cbn in *; lia. }
  destruct created; [|destruct Hp; constructor; try done; cbn; rewrite ?orb_false_r; lia].
  destruct Hp as [Hcalls Hshed Hcap Hset Hlive Hknown Hsent Hstage Hwarn Htok].
  assert (Hnew : q_posts p !! q_next p = None).
  { destruct (q_posts p !! q_next p) eqn:E; [|done]. assert (q_next p < q_next p)%nat; [|lia]. apply Hknown. eauto. }
  constructor; try done; cbn.
  - lia.
  - rewrite size_union by (apply disjoint_singleton_l; intros Hin; apply Hset in Hin; rewrite Hnew in Hin; by destruct Hin).
    rewrite size_singleton. lia.
  - intros i [->%elem_of_singleton|Hi]%elem_of_union; [rewrite lookup_insert_eq; eauto|].
    rewrite lookup_insert_ne by (intros <-; apply Hset in Hi; rewrite Hnew in Hi; by destruct Hi). auto.
  - intros i x Hx Hs. destruct (decide (q_next p = i)) as [<-|Hne]; [set_solver|].
    rewrite lookup_insert_ne in Hx by done. set_solver.
  - intros i. destruct (decide (q_next p = i)) as [<-|Hne]; [rewrite lookup_insert_eq; split; [lia|eauto]|].
    rewrite lookup_insert_ne, Hknown by done. lia.
  - intros i Hi. destruct (Hstage _ Hi) as (x & Hx & Hs). exists x. split; [|done].
    rewrite lookup_insert_ne; [done|]. intros <-. congruence.
Qed.

Lemma poster_step_ok p p' : step cap p p' -> poster_ok p -> poster_ok p'.
Proof.
  destruct 1 as [p event created|p i event environ url Hi|p i event Hi|p i event Hi Hin]; intros Hp.
  - by apply schedule_ok.
  - unfold start_post. assert (Hadv : forall s, s <> Created -> poster_ok (set_post p i (mk_post event s))).
    { intros s Hs. by eapply advance_ok. }
    case_decide; [by apply Hadv|]. cbv zeta. case_decide.
    + destruct (Hadv Over) as []; [done|]. constructor; try done. cbn in *. destruct (q_token_warned p); lia.
    + pose proof (sent_fresh p i event Hp Hi). destruct (Hadv Awaiting) as []; [done|]. constructor; try done; cbn in *.
      * by apply NoDup_cons.
      * intros j [->|Hj]%elem_of_cons; [rewrite lookup_insert_eq; by eexists|auto].
  - eapply advance_ok; eauto; done.
  - destruct Hp as [Hcalls Hshed Hcap Hset Hlive Hknown Hsent Hstage Hwarn Htok]. constructor; try done; cbn.
    + rewrite size_difference by set_solver. rewrite size_singleton. lia.
    + intros j Hj. apply Hset. set_solver.
    + intros j x Hx Hs. assert (j <> i) by (intros ->; simplify_eq). specialize (Hlive _ _ Hx Hs). set_solver.
    + destruct (Z.ltb_spec (Z.of_nat (size (q_inflight p ∖ {[i]}))) (cap / 2)); destruct (q_shed_warned p); lia.
Qed.
End Invariant.

Lemma max_inflight_positive var : 0 < hook_post_max_inflight var.
Proof. unfold hook_post_max_inflight. destruct (py_int _) as [n|]; [|done]. destruct (Z.leb_spec n 0); [done|lia]. Qed.

Lemma poster_reachable cap p : 0 < cap -> rtc (step cap) new_poster p -> poster_ok cap p.
Proof.
  intros Hc. apply (rtc_ind_r (poster_ok cap)); [by apply new_poster_ok|]. intros p1 p2 _ Hs Hp. by eapply poster_step_ok.
Qed.

Section GateLemmas.
Context {re : Type}.
Variable re_search : re -> string -> bool.
#[local] Abbreviation rule := (@rule re).
#[local] Abbreviation fires := (fires re_search).

(** What the harness makes of a decision's event. *)
Lemma received_decision session tool d (m : option rule) tp :
  d ∈ [DECISION_ALLOW; DECISION_WARN; DECISION_DENY] ->
  h_agent (hook_event_of (decision_event session tool d m tp)) = "claude" /\
  h_decision (hook_event_of (decision_event session tool d m tp)) = d.
Proof. intros Hd. repeat (apply elem_of_cons in Hd as [->|Hd]; [by split|]). by apply elem_of_nil in Hd. Qed.

Lemma schedule_calls cap p event created : q_calls (schedule cap p event created) = q_calls p + 1.
Proof. unfold schedule. case_match; [done|]. by destruct created. Qed.

Lemma schedule_posts cap p event created i x :
  q_posts (schedule cap p event created) !! i = Some x -> q_posts p !! i = Some x \/ x = mk_post event Created.
Proof.
  unfold schedule. case_match; [by left|]. destruct created; [|by left]. cbn.
  intros [[_ <-]|[_ ?]]%lookup_insert_Some; auto.
Qed.

(** The reply and the decision behind it. *)
Lemma reply_spec cap (st : hook_state) reference session tool input tp created p :
  exists d m, decision_spec re_search None tool input (active_rules st) (d, m) /\
    pre_tool_use re_search cap st reference session tool input tp created p =
      (if decide (d = DECISION_DENY) then r_reason <$> m else None,
       schedule cap p (decision_event (resolved_session reference session) tool d m tp) created).
Proof.
  unfold pre_tool_use, evaluate_pre_tool_use.
  pose proof (evaluate_from_spec re_search None tool input (active_rules st)) as Hs.
  destruct (evaluate_from re_search None tool input (active_rules st)) as [d m]. exists d, m. split; [done|].
  destruct m; cbn; by case_decide.
Qed.

Lemma decision_known tool input (rules : list rule) d m :
  decision_spec re_search None tool input rules (d, m) -> d ∈ [DECISION_ALLOW; DECISION_WARN; DECISION_DENY].
Proof. intros [(r & [= -> ->] & _)|(_ & [(r & [= -> ->] & _)|([= -> ->] & _)])]; set_solver. Qed.

Lemma deny_reason tool input (rules : list rule) d m reason :
  decision_spec re_search None tool input rules (d, m) ->
  (if decide (d = DECISION_DENY) then r_reason <$> m else None) = Some reason <->
  exists r, first_with (fires DECISION_DENY tool input) rules r /\ r_reason r = reason.
Proof.
  intros [(r & [= -> ->] & Hf)|(Hno & Hd)].
  - rewrite decide_True by done. cbn. split; [intros [= <-]; eauto|].
    intros (r' & Hf' & <-). by rewrite (first_with_inj _ _ _ _ Hf Hf').
  - rewrite decide_False by (destruct Hd as [(r & [= -> ->] & _)|([= -> ->] & _)]; done). split; [done|].
    intros (r & (pre & post & -> & Hr & _) & _). rewrite Forall_forall in Hno. destruct (Hno r); [set_solver|done].
Qed.
End GateLemmas.

(** ** Theorems *)

(** However the calls of the hook, the posts and their callbacks
    interleave, whatever the environment holds and however the posts end: the
    posts that are not over never exceed the configured cap, which is
    positive; every call of the hook left a post or was counted as shed; a
    post is sent once at most; the warning about shed events is logged once
    at most between two re-armings and the one about the missing token once
    at most. *)
Theorem hook_posts_bounded var p :
  let cap := hook_post_max_inflight var in
  rtc (step cap) new_poster p ->
  0 < cap /\
  (forall live : gset nat, (forall i, i ∈ live -> exists x, q_posts p !! i = Some x /\ p_stage x <> Over) ->
     Z.of_nat (size live) <= cap) /\
  q_calls p = q_shed p + Z.of_nat (size (dom (q_posts p))) /\
  NoDup (q_sent p).*1 /\
  q_shed_warnings p <= q_rearms p + 1 /\ q_token_warnings p <= 1.
Proof.
  intros cap Hr. pose proof (max_inflight_positive var) as Hc.
  destruct (poster_reachable cap p Hc Hr) as [Hcalls Hshed Hcap Hset Hlive Hknown Hsent Hstage Hwarn Htok].
  split; [done|]. split_and!.
  - intros live Hl. etrans; [|exact Hcap]. apply inj_le, subseteq_size. intros i Hi.
    destruct (Hl i Hi) as (x & Hx & Hs). eauto.
  - rewrite Hcalls. do 2 f_equal.
    assert (dom (q_posts p) = set_seq 0 (q_next p)) as ->.
    { apply set_eq. intros i. rewrite elem_of_dom, Hknown, elem_of_set_seq. lia. }
    by rewrite size_set_seq.
  - done.
  - destruct (q_shed_warned p); lia.
  - destruct (q_token_warned p); lia.
Qed.

(** C30: the answer to the SDK does not depend on the transport: a call of a
    tool is denied exactly when a deny rule in force applies to it, with the
    reason of the first such rule. Each call is counted once, and a post it
    schedules carries an event the harness accepts, with the agent "claude"
    and the decision [deny] exactly when the call was denied. *)
Theorem pre_tool_use_decides {re : Type} (re_search : re -> string -> bool) cap (st : hook_state) reference session tool
    input tp created p :
  let '(reply, p') := pre_tool_use re_search cap st reference session tool input tp created p in
  (forall reason, reply = Some reason <->
     exists r, first_with (fires re_search DECISION_DENY tool input) (active_rules st) r /\ r_reason r = reason) /\
  q_calls p' = q_calls p + 1 /\
  (forall i x, q_posts p' !! i = Some x -> q_posts p !! i = None ->
     let e := hook_event_of (p_event x) in
     h_agent e = "claude" /\ h_decision e <> "" /\ (h_decision e = DECISION_DENY <-> is_Some reply)).
Proof.
  destruct (reply_spec re_search cap st reference session tool input tp created p) as (d & m & Hs & ->).
  pose proof (fun reason => deny_reason re_search tool input _ d m reason Hs) as Hd. split_and!.
  - exact Hd.
  - apply schedule_calls.
  - intros i x [?| ->]%schedule_posts Hnone; [congruence|]. pose proof (decision_known _ _ _ _ _ _ Hs) as Hk.
    destruct (received_decision (resolved_session reference session) tool d m tp Hk) as [Ha He].
    cbv zeta. cbn [p_event]. rewrite Ha, He. split_and!; [done| |].
    + repeat (apply elem_of_cons in Hk as [->|Hk]; [done|]). by apply elem_of_nil in Hk.
    + destruct Hs as [(r & [= -> ->] & _)|(_ & [(r & [= -> ->] & _)|([= -> ->] & _)])]; cbn; split; try done; by intros [].
Qed.

(** ** Witnesses and examples *)

Definition one_call : poster := schedule 1 new_poster (mk_dict []) true.

Lemma hook_posts_bounded_witness :
  let p := start_post (fun v => if decide (v = "TRIGGERS_AUTH_TOKEN") then Some "t" else None) "http://h" one_call 0 (mk_dict []) in
  q_sent p = [(0%nat, "Bearer t")] /\ NoDup (q_sent p).*1.
Proof.
  split; [by vm_compute|].
  refine (proj1 (proj2 (proj2 (proj2 (hook_posts_bounded (Some "1") _ _))))).
  eapply rtc_l; [apply (st_call _ new_poster (mk_dict []) true)|].
  eapply rtc_l; [by eapply (st_start _ _ 0 (mk_dict []))|]. apply rtc_refl.
Defined.

(** With a cap of one the shed warning is never re-armed: the threshold,
    half the cap, is zero. *)
Example shed_warning_not_rearmed :
  let p := schedule 1 one_call (mk_dict []) true in
  let p := post_done 1 (finish_post p 0 (mk_dict [])) 0 in
  q_inflight p = ∅ /\ q_shed_warned p = true /\ q_rearms p = 0.
Proof. by vm_compute. Qed.

Lemma rearm_needs_two p i : q_shed_warned p = true -> q_shed_warned (post_done 1 p i) = true.
Proof.
  intros H. unfold post_done. change (1 / 2) with 0. cbn [q_shed_warned].
  destruct (Z.ltb_spec (Z.of_nat (size (q_inflight p ∖ {[i]}))) 0); [lia|done].
Qed.

(** The token of the side channel: the dedicated name, else the legacy one;
    the name the harness itself reads is not tried. *)
Example token_names :
  let env := fun name v => if decide (v = name) then Some "t" else None in
  ((resolve_harness_events_auth_token (env "HARNESS_EVENTS_AUTH_TOKEN")).1,
   (resolve_harness_events_auth_token (env "TRIGGERS_AUTH_TOKEN")).1,
   (resolve_harness_events_auth_token (env "HOOK_EVENTS_AUTH_TOKEN")).1) = ("t", "t", "").
Proof. by vm_compute. Qed.
