(* ===== verification/GeminiHistory.v ===== *)
(** * The conversation file of the Gemini backend (backends/gemini/executor.py)

    What [_save_history] writes and [_load_history] reads back: the dump of
    the chat's history, its trim to a number of turns and then to a number of
    bytes, at boundaries where the model accepts a conversation to start, and
    the tolerant load.  The SDK's parts, their dumps and their validation, and
    the size of a JSON text, are parameters. *)
From Stdlib Require Import Ascii.
From S2P Require Import Prelude PyStr PyVal.

(** A row of the file: the role and the dumped parts. *)
Record entry : Type := mk_entry { e_role : pyval; e_parts : list pydict }.

Definition is_user (e : entry) : bool := match e_role e with VStr r => bool_decide (r = "user") | _ => false end.

Definition has_response (e : entry) : bool := existsb (fun p => dict_has p "function_response") (e_parts e).

(** A conversation may start here. *)
Definition safe (e : entry) : bool := is_user e && negb (has_response e).

(** From the first entry that satisfies [P]; empty when there is none. *)
Fixpoint from_first (P : entry -> bool) (raw : list entry) : list entry :=
  match raw with
  | [] => []
  | e :: rest => if P e then raw else from_first P rest
  end.

Section Trim.
(** [len(json.dumps(raw, default=str).encode())]; [None] when it raises. *)
Variable json_size : list entry -> option Z.
(** [_SAVE_HISTORY_MAX_TURNS] and [_SAVE_HISTORY_MAX_BYTES] *)
Variables max_turns max_bytes : Z.

Definition trim_turns (raw : list entry) : list entry :=
  let n := Z.of_nat (length raw) in
  if (0 <? max_turns) && (max_turns <? n) then
    match from_first safe (drop (Z.to_nat (n - max_turns)) raw) with
    | [] => raw
    | kept => kept
    end
  else raw.

(** The loop over [current_bytes]; [forced] counts the splits at a boundary
    that is not safe. *)
Fixpoint shrink (fuel : nat) (bytes : Z) (raw : list entry) (forced : Z) : list entry * Z :=
  match fuel with
  | O => (raw, forced)
  | S fuel =>
      if (max_bytes <? bytes) && (1 <? Z.of_nat (length raw)) then
        match from_first safe (tail raw) with
        | e :: rest =>
            match json_size (e :: rest) with
            | Some b => shrink fuel b (e :: rest) forced
            | None => (e :: rest, forced)
            end
        | [] =>
            match from_first is_user (tail raw) with
            | e :: rest =>
                match json_size (e :: rest) with
                | Some b => shrink fuel b (e :: rest) (forced + 1)
                | None => (e :: rest, forced + 1)
                end
            | [] => (raw, forced)
            end
        end
      else (raw, forced)
  end.

Definition trim_bytes (raw : list entry) : list entry * Z :=
  if 0 <? max_bytes then shrink (length raw) (default 0 (json_size raw)) raw 0 else (raw, 0).

Definition trim (raw : list entry) : list entry * Z := trim_bytes (trim_turns raw).
End Trim.

(** ** The SDK's history *)

Section Sdk.
Context {part : Type}.
(** [p.model_dump(exclude_none=True)]; [types.Part( **p )] and the role
    [types.Content] accepts, [None] when they raise. *)
Variable model_dump : part -> pydict.
Variable part_of : pyval -> option part.
Variable role_of : pyval -> option (option string).

Record content : Type := mk_content { c_role : option string; c_parts : option (list (option part)) }.

Definition role_value (r : option string) : pyval := match r with Some r => VStr r | None => VNone end.

Definition dump_content (c : content) : option entry :=
  match omap (fmap model_dump) (default [] (c_parts c)) with
  | [] => None
  | parts => Some (mk_entry (role_value (c_role c)) parts)
  end.

(** The rows of a history. *)
Definition dump_history (history : list content) : list entry := omap dump_content history.

(** The JSON value of the file. *)
Definition entry_value (e : entry) : pyval :=
  VDict (mk_dict [("role", e_role e); ("parts", VList (VDict <$> e_parts e))]).
Definition file_value (raw : list entry) : pyval := VList (entry_value <$> raw).

(** [for p in entry.get("parts", [])]: what it iterates over. *)
Definition iterate (v : pyval) : res (list pyval) :=
  match v with
  | VList l => Ok l
  | VStr s => Ok ((fun c => VStr (String c "")) <$> String.list_ascii_of_string s)
  | VDict d => Ok d.*1
  | _ => Raise TypeError
  end.

(** The good parts, and the number of bad ones. *)
Definition load_parts (ps : list pyval) : list part * Z :=
  let tried := filter (fun p => truthy p = true) ps in
  (omap part_of tried, Z.of_nat (length (filter (fun p => part_of p = None) tried))).

(** One row: the content if there is one, and the parts dropped. *)
Definition load_entry (v : pyval) : res (option content * Z) :=
  ps <-- match v with VDict d => iterate (dict_get_default d "parts" (VList [])) | _ => Ok [] end ;;
  let '(parts, dropped) := load_parts ps in
  match parts, v with
  | _ :: _, VDict d =>
      Ok (role ← dict_get d "role"; r ← role_of role; Some (mk_content r (Some (Some <$> parts))), dropped)
  | _, _ => Ok (None, dropped)
  end.

(** The contents, and the parts and rows dropped. *)
Fixpoint load_entries (vs : list pyval) : res (list content * Z * Z) :=
  match vs with
  | [] => Ok ([], 0, 0)
  | v :: vs =>
      o <-- load_entry v ;;
      rest <-- load_entries vs ;;
      let '(cs, dp, de) := rest in
      Ok (match o.1 with Some c => (c :: cs, o.2 + dp, de) | None => (cs, o.2 + dp, de + 1) end)
  end.

(** [file]: [None] when there is none; [Some None] when it cannot be read or
    parsed. *)
Definition load_history (file : option (option pyval)) : res (list content * Z * Z) :=
  match file with
  | Some (Some (VList vs)) => load_entries vs
  | _ => Ok ([], 0, 0)
  end.

(** The contents that are written: those with a part. *)
Definition kept_content (c : content) : option content :=
  match omap id (default [] (c_parts c)) with
  | [] => None
  | parts => Some (mk_content (c_role c) (Some (Some <$> parts)))
  end.

Definition kept (history : list content) : list content := omap kept_content history.
End Sdk.
Arguments content : clear implicits.

(** ** Lemmas: the trim *)

Lemma from_first_spec P raw :
  exists pre, raw = pre ++ from_first P raw /\ Forall (fun e => P e = false) pre /\
    forall e rest, from_first P raw = e :: rest -> P e = true.
Proof.
  induction raw as [|e raw (pre & E & Hpre & Hhd)]; cbn; [by exists []|]. destruct (P e) eqn:He.
  - exists []. split_and!; [done|done|]. by intros e' rest [= <- <-].
  - exists (e :: pre). split_and!; [by rewrite E at 1|by constructor|done].
Qed.

Lemma from_first_nil P raw : from_first P raw = [] -> Forall (fun e => P e = false) raw.
Proof. intros H. destruct (from_first_spec P raw) as (pre & E & Hpre & _). rewrite H, app_nil_r in E. by rewrite E. Qed.

(** A suffix that starts with a match is a suffix of what is found. *)
Lemma from_first_suffix P raw pre e rest :
  raw = pre ++ e :: rest -> P e = true -> exists pre', from_first P raw = pre' ++ e :: rest.
Proof.
  intros -> He. induction pre as [|x pre IH]; cbn; [rewrite He; by exists []|].
  destruct (P x); [by exists (x :: pre)|done].
Qed.

Section TrimLemmas.
Variable json_size : list entry -> option Z.
Variables max_turns max_bytes : Z.

(** What the loop stops at. *)
Definition settled (out : list entry) : Prop :=
  (match json_size out with Some b => b <= max_bytes | None => True end) \/ (length out <= 1)%nat \/
  Forall (fun e => is_user e = false) (tail out).

(** [out] is what is left of [raw]. *)
Record cut_of (raw out : list entry) (forced : Z) : Prop := {
  cu_suffix : exists cut, raw = cut ++ out;
  cu_some : raw <> [] -> out <> [];
  cu_forced : 0 <= forced;
  cu_head : out = raw \/ exists e rest, out = e :: rest /\ is_user e = true /\ (forced = 0 -> safe e = true)
}.

Lemma cut_of_refl raw : cut_of raw raw 0.
Proof. constructor; [by exists []|done|done|by left]. Qed.

Lemma cut_of_step raw cut e rest out forced (b : bool) :
  raw = cut ++ e :: rest -> is_user e = true -> (b = false -> safe e = true) -> cut_of (e :: rest) out forced ->
  cut_of raw out (forced + if b then 1 else 0).
Proof.
  intros -> Hu Hsafe [(cut' & E) Hne Hf Hh]. constructor.
  - exists (cut ++ cut'). by rewrite <-app_assoc, <-E.
  - intros _. by apply Hne.
  - destruct b; lia.
  - right. destruct Hh as [->|(e' & rest' & -> & Hu' & Hs')].
    + exists e, rest. split_and!; [done|done|]. intros H0. apply Hsafe. destruct b; [lia|done].
    + exists e', rest'. split_and!; [done|done|]. intros H0. apply Hs'. destruct b; lia.
Qed.

Lemma no_safe raw pre e rest : from_first safe raw = [] -> raw = pre ++ e :: rest -> safe e = true -> False.
Proof.
  intros Hn%from_first_nil -> He. rewrite Forall_app, Forall_cons in Hn. destruct Hn as (_ & Hn & _). congruence.
Qed.

(** Every safe boundary between the start and the result was tried. *)
Definition all_tried (raw out : list entry) : Prop :=
  forall pre e rest, raw = pre ++ e :: rest -> pre <> [] -> safe e = true -> (length out < S (length rest))%nat ->
    exists b, json_size (e :: rest) = Some b /\ max_bytes < b.

Lemma all_tried_refl raw : all_tried raw raw.
Proof. intros pre e rest -> Hpre _. rewrite length_app. destruct pre; [done|]. cbn. lia. Qed.

Lemma all_tried_next x raw e0 rest0 out :
  from_first safe raw = e0 :: rest0 -> all_tried (e0 :: rest0) out ->
  ((length out < S (length rest0))%nat -> exists b, json_size (e0 :: rest0) = Some b /\ max_bytes < b) ->
  all_tried (x :: raw) out.
Proof.
  intros Hf Hall Hhere [|y pre] e rest; [done|]. intros [= <- E] _ Hs Hlen.
  destruct (from_first_suffix safe raw pre e rest E Hs) as ([|z pre'] & E'); rewrite Hf in E'.
  - injection E' as -> ->. auto.
  - by eapply Hall.
Qed.

Lemma shrink_spec fuel raw bytes forced :
  (length raw <= fuel)%nat -> default 0 (json_size raw) = bytes -> 0 < max_bytes ->
  let '(out, forced') := shrink json_size max_bytes fuel bytes raw forced in
  cut_of raw out (forced' - forced) /\ settled out /\ all_tried raw out /\ (bytes <= max_bytes -> out = raw).
Proof.
  revert raw bytes forced. induction fuel as [|fuel IH]; intros raw bytes forced Hlen <- Hmax; cbn [shrink].
  { assert (raw = []) as -> by (by destruct raw; [|cbn in Hlen; lia]). rewrite Z.sub_diag.
    split_and!; [apply cut_of_refl|right; left; cbn; lia|apply all_tried_refl|done]. }
  destruct (max_bytes <? default 0 (json_size raw)) eqn:Hb; boolp; cbn [andb].
  2: { rewrite Z.sub_diag. split_and!; [apply cut_of_refl| |apply all_tried_refl|done].
       left. destruct (json_size raw); [done|exact I]. }
  destruct (1 <? Z.of_nat (length raw)) eqn:H1; boolp.
  2: { rewrite Z.sub_diag. split_and!; [apply cut_of_refl|right; left; lia|apply all_tried_refl|done]. }
  destruct raw as [|x raw]; [cbn in H1; lia|]. cbn [tail]. cbn [length] in Hlen.
  assert (Hcut : forall (P : entry -> bool) e rest (b : bool), from_first P raw = e :: rest ->
    (forall e, P e = true -> is_user e = true) -> (b = false -> forall e, P e = true -> safe e = true) ->
    (length (e :: rest) <= fuel)%nat /\
    forall out forced, cut_of (e :: rest) out forced -> cut_of (x :: raw) out (forced + if b then 1 else 0)).
  { intros P e rest b Hf Hu Hsafe. destruct (from_first_spec P raw) as (pre & E & _ & Hhd). rewrite Hf in E.
    specialize (Hhd e rest Hf). split; [rewrite E, length_app in Hlen; lia|]. intros out f Hc.
    apply (cut_of_step _ (x :: pre) e rest); [cbn; by rewrite E|auto|auto|done]. }
  destruct (from_first safe raw) as [|e0 rest0] eqn:Hf.
  - assert (Hnone : forall out, all_tried (x :: raw) out).
    { intros out [|y pre] e rest; [done|]. intros [= <- E] _ Hs. by destruct (no_safe raw pre e rest Hf E Hs). }
    destruct (from_first is_user raw) as [|e1 rest1] eqn:Hu.
    + rewrite Z.sub_diag. split_and!; [apply cut_of_refl|right; right; by apply from_first_nil|apply Hnone|lia].
    + destruct (Hcut is_user e1 rest1 true Hu) as [Hl Hcut1]; [done|done|].
      destruct (json_size (e1 :: rest1)) as [b|] eqn:Hsz.
      * specialize (IH (e1 :: rest1) b (forced + 1) Hl ltac:(by rewrite Hsz) Hmax).
        destruct (shrink _ _ _ _ _ _) as [out forced']. destruct IH as (Hc & Hset & _ & _).
        split_and!; [|done|apply Hnone|lia]. replace (forced' - forced) with (forced' - (forced + 1) + 1) by lia. by apply Hcut1.
      * split_and!; [|left; by rewrite Hsz|apply Hnone|lia]. replace (forced + 1 - forced) with (0 + 1) by lia.
        apply Hcut1, cut_of_refl.
  - destruct (Hcut safe e0 rest0 false Hf) as [Hl Hcut0]; [by intros e [? _]%andb_true_iff|done|].
    destruct (json_size (e0 :: rest0)) as [b|] eqn:Hsz.
    + specialize (IH (e0 :: rest0) b forced Hl ltac:(by rewrite Hsz) Hmax).
      destruct (shrink _ _ _ _ _ _) as [out forced']. destruct IH as (Hc & Hset & Hall & Hid).
      split_and!; [|done| |lia].
      * replace (forced' - forced) with (forced' - forced + 0) by lia. by apply Hcut0.
      * eapply all_tried_next; [done..|]. intros Hlt. exists b. split; [done|].
        destruct (Z.le_gt_cases b max_bytes) as [Hle|]; [|lia]. rewrite (Hid Hle) in Hlt. cbn in Hlt. lia.
    + split_and!; [|left; by rewrite Hsz| |lia].
      * replace (forced - forced) with (0 + 0) by lia. apply Hcut0, cut_of_refl.
      * eapply all_tried_next; [done|apply all_tried_refl|cbn; lia].
Qed.

Lemma trim_turns_cut raw : exists cut, raw = cut ++ trim_turns max_turns raw.
Proof.
  unfold trim_turns. cbv zeta. destruct (_ && _); [|by exists []].
  destruct (from_first_spec safe (drop (Z.to_nat (Z.of_nat (length raw) - max_turns)) raw)) as (pre & E & _).
  destruct (from_first safe _) as [|e rest]; [by exists []|].
  exists (take (Z.to_nat (Z.of_nat (length raw) - max_turns)) raw ++ pre). by rewrite <-app_assoc, <-E, take_drop.
Qed.

Lemma trim_turns_head raw :
  trim_turns max_turns raw = raw \/
  exists e rest, trim_turns max_turns raw = e :: rest /\ safe e = true /\ Z.of_nat (length (e :: rest)) <= max_turns.
Proof.
  unfold trim_turns. cbv zeta. destruct ((0 <? max_turns) && (max_turns <? Z.of_nat (length raw))) eqn:Hc; boolp; [|by left].
  destruct (from_first_spec safe (drop (Z.to_nat (Z.of_nat (length raw) - max_turns)) raw)) as (pre & E & _ & Hhd).
  destruct (from_first safe _) as [|e rest]; [by left|]. right. exists e, rest. split_and!; [done|by eapply Hhd|].
  apply (f_equal length) in E. rewrite length_drop, length_app in E. lia.
Qed.

(** The turns are cut if the window has a safe boundary. *)
Lemma trim_turns_kept raw :
  0 < max_turns < Z.of_nat (length raw) -> trim_turns max_turns raw = raw ->
  Forall (fun e => safe e = false) (drop (Z.to_nat (Z.of_nat (length raw) - max_turns)) raw).
Proof.
  intros Hm. unfold trim_turns. cbv zeta. replace (_ && _) with true by (symmetry; apply andb_true_iff; split; lia).
  destruct (from_first safe _) as [|e rest] eqn:Hf; [intros _; by apply from_first_nil|]. intros E.
  destruct (from_first_spec safe (drop (Z.to_nat (Z.of_nat (length raw) - max_turns)) raw)) as (pre & E' & _).
  rewrite Hf in E'. apply (f_equal length) in E, E'. rewrite length_drop, length_app in E'. lia.
Qed.
End TrimLemmas.

(** ** Lemmas: reading back *)

Section Back.
Context {part : Type}.
Variable model_dump : part -> pydict.
Variable part_of : pyval -> option part.
Variable role_of : pyval -> option (option string).
(** The SDK validates what it dumped, and no dump is empty. *)
Hypothesis dump_some : forall p, model_dump p <> [].
Hypothesis part_dump : forall p, part_of (VDict (model_dump p)) = Some p.
Hypothesis role_dump : forall r, role_of (role_value r) = Some r.

Lemma load_dumped ps : load_parts part_of (VDict <$> (model_dump <$> ps)) = (ps, 0).
Proof.
  unfold load_parts. rewrite (filter_all _ (VDict <$> _)).
  2: { apply Forall_fmap, Forall_fmap, Forall_true. intros p. cbn. pose proof (dump_some p). by destruct (model_dump p). }
  rewrite filter_none.
  2: { apply Forall_fmap, Forall_fmap, Forall_true. intros p. cbn. by rewrite part_dump. }
  f_equal. induction ps as [|p ps IH]; [done|]. cbn. rewrite part_dump. cbn. by f_equal.
Qed.

Lemma dump_parts (l : list (option part)) : omap (fmap model_dump) l = model_dump <$> omap id l.
Proof. induction l as [|[p|] l IH]; cbn; [done|by rewrite IH|done]. Qed.

Lemma load_content c e :
  dump_content model_dump c = Some e ->
  exists c', kept_content c = Some c' /\ c_role c' = c_role c /\ load_entry part_of role_of (entry_value e) = Ok (Some c', 0).
Proof.
  unfold dump_content, kept_content. rewrite dump_parts. destruct (omap id _) as [|p ps]; [done|]. intros [= <-].
  eexists. split_and!; [done|done|]. unfold load_entry. cbn [entry_value mk_dict fmap list_fmap e_role e_parts fst snd].
  change (dict_get_default _ "parts" _) with (VList (VDict <$> (model_dump <$> p :: ps))). cbn [iterate res_bind].
  rewrite load_dumped. cbn -[role_value]. rewrite decide_True by done. cbn -[role_value]. by rewrite role_dump.
Qed.

Lemma kept_none c : dump_content model_dump c = None -> kept_content c = None.
Proof. unfold dump_content, kept_content. rewrite dump_parts. by destruct (omap id _). Qed.

Lemma dump_user c e : dump_content model_dump c = Some e -> is_user e = true <-> c_role c = Some "user".
Proof.
  unfold dump_content. destruct (omap _ _); [done|]. intros [= <-]. unfold is_user. cbn.
  destruct (c_role c) as [r|]; cbn; [|done]. rewrite bool_decide_eq_true. split; [by intros ->|by intros [= ->]].
Qed.

(** What is left of a dumped history after a cut is loaded as the contents
    it came from. *)
Lemma load_cut history cut out :
  dump_history model_dump history = cut ++ out ->
  load_entries part_of role_of (entry_value <$> out) = Ok (drop (length cut) (kept history), 0, 0) /\
  forall e rest, out = e :: rest -> exists c cs, drop (length cut) (kept history) = c :: cs /\
    (is_user e = true <-> c_role c = Some "user").
Proof.
  unfold dump_history, kept. revert cut out. induction history as [|c history IH]; intros cut out; cbn.
  { intros E. symmetry in E. apply app_eq_nil in E as [-> ->]. split; [done|]. by intros e rest [=]. }
  destruct (dump_content model_dump c) as [e|] eqn:Hc.
  2: { rewrite (kept_none c Hc). apply IH. }
  destruct (load_content c e Hc) as (c' & Hk & Hr & Hl). rewrite Hk. destruct cut as [|x cut]; cbn.
  - intros <-. destruct (IH [] _ eq_refl) as [IHl _]. split.
    + cbn. rewrite Hl. cbn. by rewrite IHl.
    + intros e' rest [= <- _]. exists c', (omap kept_content history). split; [done|]. rewrite Hr. by apply dump_user.
  - intros [= <- E]. by apply IH.
Qed.
End Back.

Lemma trim_spec json_size max_turns max_bytes raw :
  let t := trim_turns max_turns raw in
  let '(out, forced) := trim json_size max_turns max_bytes raw in
  (exists cut, raw = cut ++ out) /\ (raw <> [] -> out <> []) /\ 0 <= forced /\
  (out = raw \/ exists e rest, out = e :: rest /\ is_user e = true /\ (forced = 0 -> safe e = true)) /\
  (0 < max_turns < Z.of_nat (length raw) ->
     Z.of_nat (length t) <= max_turns \/
     t = raw /\ Forall (fun e => safe e = false) (drop (Z.to_nat (Z.of_nat (length raw) - max_turns)) raw)) /\
  (0 < max_bytes -> settled json_size max_bytes out /\ all_tried json_size max_bytes t out).
Proof.
  cbv zeta. unfold trim, trim_bytes. pose proof (trim_turns_head max_turns raw) as Hh.
  destruct (trim_turns_cut max_turns raw) as (cut & Ecut).
  assert (Hwin : 0 < max_turns < Z.of_nat (length raw) ->
     Z.of_nat (length (trim_turns max_turns raw)) <= max_turns \/ trim_turns max_turns raw = raw /\
     Forall (fun e => safe e = false) (drop (Z.to_nat (Z.of_nat (length raw) - max_turns)) raw)).
  { intros Hm. destruct Hh as [E|(e & rest & -> & _ & ?)]; [right; split; [done|by apply trim_turns_kept]|by left]. }
  assert (Hne : raw <> [] -> trim_turns max_turns raw <> []) by (destruct Hh as [->|(? & ? & -> & _)]; done).
  assert (Hu : forall e, safe e = true -> is_user e = true) by (by intros e [? _]%andb_true_iff).
  destruct (0 <? max_bytes) eqn:Hb; boolp.
  2: { split_and!; [by exists cut|done|done| |done|lia]. destruct Hh as [E|(e & rest & -> & He & _)]; [by left|right; eauto 7]. }
  pose proof (shrink_spec json_size max_bytes (length (trim_turns max_turns raw)) (trim_turns max_turns raw) _ 0
    (Nat.le_refl _) eq_refl Hb) as Hs.
  destruct (shrink _ _ _ _ _ _) as [out forced]. rewrite Z.sub_0_r in Hs.
  destruct Hs as ([(cut' & E') Hn Hf Hhd] & Hset & Hall & _). split_and!; [|auto|done| |done|done].
  - exists (cut ++ cut'). by rewrite <-app_assoc, <-E'.
  - destruct Hhd as [->|?]; [|by right]. destruct Hh as [E|(e & rest & -> & He & _)]; [by left|right; eauto 7].
Qed.

(** ** Theorems *)

(** C33: the trim never breaks a conversation: what is kept is the end of the
    history, is not empty unless the history was, and starts where it did or
    with a user entry, which answers no tool call unless the splits that
    count as forced happened. The cut by turns keeps at most the cap, or the
    whole history when no boundary of the window is safe. The cut by bytes
    always ends: it fits, or a single entry is left, or no user entry follows
    the first; and every safe boundary before the one it keeps was tried and
    too long. *)
Theorem trim_keeps_a_conversation json_size max_turns max_bytes raw :
  let t := trim_turns max_turns raw in
  let '(out, forced) := trim json_size max_turns max_bytes raw in
  (exists cut, raw = cut ++ out) /\ (raw <> [] -> out <> []) /\ 0 <= forced /\
  (out = raw \/ exists e rest, out = e :: rest /\ is_user e = true /\ (forced = 0 -> safe e = true)) /\
  (0 < max_turns < Z.of_nat (length raw) ->
     Z.of_nat (length t) <= max_turns \/
     t = raw /\ Forall (fun e => safe e = false) (drop (Z.to_nat (Z.of_nat (length raw) - max_turns)) raw)) /\
  (0 < max_bytes -> settled json_size max_bytes out /\ all_tried json_size max_bytes t out).
Proof. apply trim_spec. Qed.

(** C34: what is saved is read back: the file of a history, trimmed or not,
    loads without a loss as the end of the conversation it was made of,
    starting where that one did or with a turn of the user. *)
Theorem history_roundtrip {part} (model_dump : part -> pydict) part_of role_of json_size max_turns max_bytes history :
  (forall p, model_dump p <> []) -> (forall p, part_of (VDict (model_dump p)) = Some p) ->
  (forall r, role_of (role_value r) = Some r) ->
  let saved := (trim json_size max_turns max_bytes (dump_history model_dump history)).1 in
  exists n, load_history part_of role_of (Some (Some (file_value saved))) = Ok (drop n (kept history), 0, 0) /\
    (n = 0%nat \/ exists c cs, drop n (kept history) = c :: cs /\ c_role c = Some "user").
Proof.
  intros Hd Hp Hr. cbv zeta. pose proof (trim_spec json_size max_turns max_bytes (dump_history model_dump history)) as Ht.
  cbv zeta in Ht. destruct (trim json_size max_turns max_bytes (dump_history model_dump history)) as [out forced].
  destruct Ht as ((cut & E) & _ & _ & Hhd & _). cbn [fst].
  destruct (load_cut model_dump part_of role_of Hd Hp Hr history cut out E) as [Hl Hfirst].
  exists (length cut). split; [exact Hl|]. destruct Hhd as [->|(e & rest & -> & Hu & _)].
  - left. apply (f_equal length) in E. rewrite length_app in E. lia.
  - right. destruct (Hfirst e rest eq_refl) as (c & cs & Hc & Hiff). exists c, cs. split; [done|]. by apply Hiff.
Qed.

(** ** Examples and witnesses *)

(** Parts are texts here. *)
Definition text_dump (p : string) : pydict := mk_dict [("text", VStr p)].
Definition text_part (v : pyval) : option string :=
  match v with VDict d => match dict_get d "text" with Some (VStr s) => Some s | _ => None end | _ => None end.
Definition any_role (v : pyval) : option (option string) :=
  match v with VStr r => Some (Some r) | VNone => Some None | _ => None end.
Definition rows_size (raw : list entry) : option Z := Some (100 * Z.of_nat (length raw)).

Definition turn (role text : string) : content string := mk_content (Some role) (Some [Some text]).

Lemma history_roundtrip_witness :
  load_history text_part any_role (Some (Some (file_value
    (trim rows_size 3 250 (dump_history text_dump [turn "user" "a"; turn "model" "b"; turn "user" "c"; turn "model" "d"])).1)))
  = Ok ([turn "user" "c"; turn "model" "d"], 0, 0) /\
  exists n, load_history text_part any_role (Some (Some (file_value
    (trim rows_size 3 250 (dump_history text_dump [turn "user" "a"; turn "model" "b"; turn "user" "c"; turn "model" "d"])).1)))
  = Ok (drop n (kept [turn "user" "a"; turn "model" "b"; turn "user" "c"; turn "model" "d"]), 0, 0).
Proof.
  split; [vm_compute; reflexivity|].
  destruct (history_roundtrip text_dump text_part any_role rows_size 3 250
    [turn "user" "a"; turn "model" "b"; turn "user" "c"; turn "model" "d"]) as (n & H & _);
    [done|done|by intros []|]. exists n. exact H.
Defined.

(** An entry whose parts are null is not skipped: the load raises. *)
Example null_parts_raise :
  load_history text_part any_role (Some (Some (VList [VDict (mk_dict [("role", VStr "user"); ("parts", VNone)])]))) = Raise TypeError.
Proof. reflexivity. Qed.

Definition call_entry (role key : string) : entry := mk_entry (VStr role) [mk_dict [(key, VDict (mk_dict []))]].

(** A history that is one chain of tool calls is split by force, in front of a
    response without its call. *)
Example forced_split :
  let chain := [call_entry "user" "text"; call_entry "model" "function_call"; call_entry "user" "function_response";
                call_entry "model" "function_call"; call_entry "user" "function_response"] in
  trim rows_size 0 350 chain = ([call_entry "user" "function_response"; call_entry "model" "function_call"; call_entry "user" "function_response"], 1).
Proof. vm_compute. reflexivity. Qed.
