(* ===== verification/SessionLocks.v ===== *)
(** * The locks of the Gemini backend's sessions (backends/gemini/executor.py)

    [asyncio.Lock] with its queue of waiters, and the table of reference-counted
    locks, one per session in use: [_acquire_session_lock] before a turn waits
    for its lock, [_release_session_lock] after it let go of it.  Entries are
    objects: a turn keeps the entry it found, the table may come to hold
    another one for the same session. *)
From S2P Require Import Prelude PyStr.

(** ** [asyncio.Lock] *)

(** The waiters in order, with whether they were woken. *)
Record lock : Type := mk_lock { k_locked : bool; k_waiters : list (nat * bool) }.

Definition new_lock : lock := mk_lock false [].

(** [acquire] up to its await: whether it got the lock at once. A cancelled
    waiter leaves the queue at once. *)
Definition acquire (k : lock) (i : nat) : bool * lock :=
  match k_locked k, k_waiters k with
  | false, [] => (true, mk_lock true [])
  | b, ws => (false, mk_lock b (ws ++ [(i, false)]))
  end.

(** [_wake_up_first] *)
Definition wake_first (ws : list (nat * bool)) : list (nat * bool) :=
  match ws with (i, _) :: rest => (i, true) :: rest | [] => [] end.

(** A woken waiter resumes. *)
Definition resume (k : lock) (i : nat) : lock := mk_lock true (od_pop (k_waiters k) i).

Definition release (k : lock) : lock := mk_lock false (wake_first (k_waiters k)).

(** A waiter is cancelled. *)
Definition forsake (k : lock) (i : nat) : lock :=
  let ws := od_pop (k_waiters k) i in mk_lock (k_locked k) (if k_locked k then ws else wake_first ws).

(** ** The table *)

(** [_RefCountedLock] *)
Record ref_lock : Type := mk_ref { r_lock : lock; r_count : Z }.

(** [session_locks] and the entries there ever were. *)
Record locks : Type := mk_locks { l_table : gmap string nat; l_entries : gmap nat ref_lock }.

Definition set_ref (ls : locks) (e : nat) (r : ref_lock) : locks := mk_locks (l_table ls) (<[e := r]> (l_entries ls)).

(** Applies [f] to the lock of the entry [e]. *)
Definition on_lock (ls : locks) (e : nat) (f : lock -> lock) : locks :=
  match l_entries ls !! e with Some r => set_ref ls e (mk_ref (f (r_lock r)) (r_count r)) | None => ls end.

(** The entry of the session, with one more reference. *)
Definition acquire_session_lock (ls : locks) (sid : string) : nat * locks :=
  match l_table ls !! sid with
  | Some e =>
      (e, match l_entries ls !! e with Some r => set_ref ls e (mk_ref (r_lock r) (r_count r + 1)) | None => ls end)
  | None =>
      let e := fresh (dom (l_entries ls)) in
      (e, mk_locks (<[sid := e]> (l_table ls)) (<[e := mk_ref new_lock 1]> (l_entries ls)))
  end.

Definition release_session_lock (ls : locks) (sid : string) : locks :=
  match l_table ls !! sid with
  | None => ls
  | Some e =>
      match l_entries ls !! e with
      | None => ls
      | Some r =>
          let ls := set_ref ls e (mk_ref (r_lock r) (r_count r - 1)) in
          if r_count r - 1 <=? 0 then mk_locks (delete sid (l_table ls)) (l_entries ls) else ls
      end
  end.

(** The eviction of a session drops its entry only when nobody refers to it. *)
Definition evict_lock (ls : locks) (sid : string) : locks :=
  match l_table ls !! sid with
  | Some e =>
      match l_entries ls !! e with
      | Some r => if r_count r <=? 0 then mk_locks (delete sid (l_table ls)) (l_entries ls) else ls
      | None => ls
      end
  | None => ls
  end.

(** ** Users

    A turn between the two calls: waiting for the lock of its entry, holding
    it, or past it. *)
Inductive phase : Type := Waits | Holds | Past.

#[export] Instance phase_eq_dec : EqDecision phase.
Proof. solve_decision. Defined.

Record use : Type := mk_use { u_sid : string; u_entry : nat; u_phase : phase }.

Definition uses_entry (e : nat) (u : use) : bool := bool_decide (u_entry u = e).
Definition holds_entry (e : nat) (u : use) : bool := bool_decide (u_entry u = e /\ u_phase u = Holds).

Record lock_ok (k : lock) (holders : nat) (waiting : nat -> Prop) : Prop := {
  lo_locked : holders = if k_locked k then 1%nat else 0%nat;
  lo_waiters : forall i, i ∈ (k_waiters k).*1 <-> waiting i;
  lo_nodup : NoDup (k_waiters k).*1;
  (** the first of the queue is woken exactly while the lock is free *)
  lo_woken : match k_waiters k with
             | [] => True
             | (_, b) :: rest => b = negb (k_locked k) /\ Forall (fun w => w.2 = false) rest
             end
}.

Record locks_ok (ls : locks) (uses : gmap nat use) : Prop := {
  ls_inj : forall s s' e, l_table ls !! s = Some e -> l_table ls !! s' = Some e -> s = s';
  ls_use : forall i u, uses !! i = Some u -> l_table ls !! u_sid u = Some (u_entry u);
  ls_ref : forall s e, l_table ls !! s = Some e -> exists r, l_entries ls !! e = Some r /\
    r_count r = Z.of_nat (map_count (uses_entry e) uses) /\ 0 < r_count r /\
    lock_ok (r_lock r) (map_count (holds_entry e) uses)
      (fun i => exists u, uses !! i = Some u /\ u_entry u = e /\ u_phase u = Waits)
}.

(** ** Lemmas: one lock *)

Lemma new_lock_ok (P : nat -> Prop) : (forall i, ~ P i) -> lock_ok new_lock 0 P.
Proof. intros HP. constructor; cbn; try done; [|constructor]. intros i. split; [set_solver|]. intros H. by destruct (HP i). Qed.

Lemma lock_ok_ext k n n' P P' : n = n' -> (forall i, P i <-> P' i) -> lock_ok k n P -> lock_ok k n' P'.
Proof. intros -> HP []. constructor; try done. intros i. by rewrite lo_waiters0. Qed.

Lemma acquire_ok k n P i :
  lock_ok k n P -> ~ P i ->
  let '(got, k') := acquire k i in
  if got then n = 0%nat /\ lock_ok k' 1 P else lock_ok k' n (fun j => P j \/ j = i).
Proof.
  intros [Hl Hw Hnd Hwk] Hi. unfold acquire.
  assert (i ∉ (k_waiters k).*1) as Hnot by (by rewrite Hw).
  assert (forall b ws, k_locked k = b -> k_waiters k = ws -> b = true \/ ws <> [] ->
            lock_ok (mk_lock b (ws ++ [(i, false)])) n (fun j => P j \/ j = i)) as Hq.
  { intros b ws <- <- Hne. constructor; cbn; [done| | |].
    - intros j. rewrite fmap_app, elem_of_app, Hw. cbn. rewrite list_elem_of_singleton. done.
    - rewrite fmap_app. apply NoDup_app. split_and!; [done|set_solver|apply NoDup_singleton].
    - destruct (k_waiters k) as [|[j b] rest]; cbn; [destruct Hne as [->|]; done|]. destruct Hwk as [-> Hr].
      split; [done|]. by apply Forall_app_2, Forall_singleton. }
  destruct (k_locked k) eqn:Hk; [apply Hq; auto|]. destruct (k_waiters k) as [|w ws] eqn:Hws; [|apply Hq; auto].
  split; [done|]. constructor; cbn; try done.
Qed.

Lemma wake_first_keys ws : (wake_first ws).*1 = ws.*1.
Proof. by destruct ws as [|[] ws]. Qed.

Lemma wake_first_ok ws :
  Forall (fun w : nat * bool => w.2 = false) (tail ws) ->
  match wake_first ws with [] => True | (_, b) :: rest => b = true /\ Forall (fun w => w.2 = false) rest end.
Proof. by destruct ws as [|[] ws]. Qed.

Lemma od_pop_keys_iff (ws : list (nat * bool)) i j : j ∈ (od_pop ws i).*1 <-> j ∈ ws.*1 /\ j <> i.
Proof. change ((od_pop ws i).*1) with (od_keys (od_pop ws i)). rewrite od_pop_keys, list_elem_of_filter. unfold od_keys. tauto. Qed.

Lemma od_pop_fresh (ws : list (nat * bool)) i : i ∉ ws.*1 -> od_pop ws i = ws.
Proof. intros Hi. apply filter_all. apply Forall_forall. intros [j b] Hj. cbn. intros ->. apply Hi. by apply (list_elem_of_fmap_2 fst _ _ Hj). Qed.

Lemma od_pop_false (ws : list (nat * bool)) i : Forall (fun w => w.2 = false) ws -> Forall (fun w => w.2 = false) (od_pop ws i).
Proof. rewrite !Forall_forall. intros H [j b] [_ Hj]%elem_of_od_pop. by apply H. Qed.

Lemma lock_resume_ok k n P i :
  lock_ok k n P -> (i, true) ∈ k_waiters k -> n = 0%nat /\ lock_ok (resume k i) 1 (fun j => P j /\ j <> i).
Proof.
  intros [Hl Hw Hnd Hwk] Hi. destruct (k_waiters k) as [|[j b] rest] eqn:Hws; [by apply elem_of_nil in Hi|].
  destruct Hwk as [-> Hrest]. assert (Hunl : k_locked k = false /\ j = i).
  { apply elem_of_cons in Hi as [[= -> Hb]|Hi]; [split; [by destruct (k_locked k)|done]|].
    rewrite Forall_forall in Hrest. by specialize (Hrest _ Hi). }
  destruct Hunl as [Hk ->]. rewrite Hk in *. split; [done|].
  assert (E : od_pop ((i, true) :: rest) i = rest).
  { unfold od_pop. rewrite filter_cons_False by (cbn; tauto). apply od_pop_fresh. cbn in Hnd. by apply NoDup_cons in Hnd as [? _]. }
  constructor; cbn; rewrite ?Hws; cbn [negb]; [done| | |].
  - intros x. rewrite od_pop_keys_iff. cbn in *. by rewrite Hw.
  - rewrite E. cbn in Hnd. by apply NoDup_cons in Hnd as [_ ?].
  - rewrite E. destruct rest as [|[x b] rest]; [done|]. apply Forall_cons in Hrest as [Hb ?]. cbn in Hb. by subst b.
Qed.

Lemma lock_release_ok k P : lock_ok k 1 P -> lock_ok (release k) 0 P.
Proof.
  intros [Hl Hw Hnd Hwk]. constructor; cbn; [done|by setoid_rewrite wake_first_keys|by rewrite wake_first_keys|].
  apply wake_first_ok. destruct (k_waiters k) as [|[] rest]; [constructor|]. by destruct Hwk.
Qed.

Lemma forsake_ok k n P i : lock_ok k n P -> lock_ok (forsake k i) n (fun j => P j /\ j <> i).
Proof.
  intros [Hl Hw Hnd Hwk]. unfold forsake.
  assert (Ht : Forall (fun w => w.2 = false) (tail (od_pop (k_waiters k) i))).
  { destruct (k_waiters k) as [|[j b] rest]; [constructor|]. destruct Hwk as [_ Hr]. unfold od_pop. rewrite filter_cons.
    case_decide; cbn; [by apply od_pop_false|]. apply (od_pop_false _ i) in Hr. unfold od_pop in Hr.
    destruct (filter _ rest); [constructor|]. by apply Forall_cons in Hr as [_ ?]. }
  assert (Hkeys : forall j, j ∈ (od_pop (k_waiters k) i).*1 <-> P j /\ j <> i) by (intros j; by rewrite od_pop_keys_iff, Hw).
  assert (Hnd' : NoDup (od_pop (k_waiters k) i).*1) by (by apply (od_pop_NoDup (k_waiters k) i)).
  destruct (k_locked k) eqn:Hk; constructor; cbn; rewrite ?Hk; try done.
  - destruct (od_pop (k_waiters k) i) as [|[j b] rest] eqn:E; [done|]. cbn in Ht. split; [|done].
    assert ((j, b) ∈ k_waiters k) as Hj by (apply (elem_of_od_pop _ i); rewrite E; set_solver).
    destruct (k_waiters k) as [|[x y] ws]; [by apply elem_of_nil in Hj|]. destruct Hwk as [-> Hr].
    apply elem_of_cons in Hj as [[= _ ->]|Hj]; [done|]. rewrite Forall_forall in Hr. by apply (Hr _ Hj).
  - intros j. by rewrite wake_first_keys.
  - by rewrite wake_first_keys.
  - by apply wake_first_ok.
Qed.

(** ** Lemmas: the table *)

(** A turn begins to use the lock of its session: the entry, and whether it
    holds it. *)
Definition enter (ls : locks) (sid : string) (i : nat) : nat * bool * locks :=
  let '(e, ls) := acquire_session_lock ls sid in
  match l_entries ls !! e with
  | Some r => let '(got, k) := acquire (r_lock r) i in (e, got, set_ref ls e (mk_ref k (r_count r)))
  | None => (e, false, ls)
  end.

(** It lets go of the lock, or of its place in the queue. *)
Definition leave (ls : locks) (e i : nat) (ph : phase) : locks :=
  match ph with
  | Waits => on_lock ls e (fun k => forsake k i)
  | Holds => on_lock ls e release
  | Past => ls
  end.

Definition waits_on (uses : gmap nat use) (e i : nat) : Prop :=
  exists u, uses !! i = Some u /\ u_entry u = e /\ u_phase u = Waits.

Lemma use_counts (uses : gmap nat use) i u e ph (P : use -> bool) :
  uses !! i = Some u ->
  (map_count P (<[i := mk_use (u_sid u) e ph]> uses) + (if P u then 1 else 0) =
   map_count P uses + if P (mk_use (u_sid u) e ph) then 1 else 0)%nat.
Proof. intros Hu. pose proof (map_count_insert P uses i (mk_use (u_sid u) e ph)) as E. rewrite Hu in E. exact E. Qed.

Lemma waits_on_insert uses i sid e ph e' j :
  waits_on (<[i := mk_use sid e ph]> uses) e' j <->
  (i = j /\ e = e' /\ ph = Waits) \/ (i <> j /\ waits_on uses e' j).
Proof.
  unfold waits_on. split.
  - intros (u & [[<- <-]|[Hne Hu]]%lookup_insert_Some & <- & Hp); [left|right]; eauto.
  - intros [(<- & <- & ->)|(Hne & u & Hu & <- & Hp)]; [eexists; rewrite lookup_insert_eq; done|].
    exists u. by rewrite lookup_insert_ne.
Qed.

(** One turn moves on, and with it the lock of its entry. *)
Lemma locks_move ls uses i u r ph k :
  locks_ok ls uses -> uses !! i = Some u -> l_entries ls !! u_entry u = Some r ->
  let uses' := <[i := mk_use (u_sid u) (u_entry u) ph]> uses in
  lock_ok k (map_count (holds_entry (u_entry u)) uses') (waits_on uses' (u_entry u)) ->
  locks_ok (set_ref ls (u_entry u) (mk_ref k (r_count r))) uses'.
Proof.
  intros [Hinj Huse Href] Hu Hr uses' Hk. pose proof (Huse i u Hu) as Ht. constructor; cbn.
  - done.
  - intros j v [[<- <-]|[_ Hv]]%lookup_insert_Some; [done|by eapply Huse].
  - intros s e He. destruct (Href s e He) as (r' & Hr' & Hc & Hp & Hl).
    destruct (decide (u_entry u = e)) as [<-|Hne].
    + exists (mk_ref k (r_count r)). rewrite lookup_insert_eq. split; [done|]. cbn. simplify_eq.
      split_and!; [|done|done]. rewrite Hc. f_equal.
      pose proof (use_counts uses i u (u_entry u) ph (uses_entry (u_entry u)) Hu) as E. unfold uses_entry at 2 4 in E. cbn in E.
      rewrite bool_decide_true in E by done. unfold uses'. lia.
    + exists r'. rewrite lookup_insert_ne by done. split; [done|].
      assert (forall P : use -> bool, P u = false -> P (mk_use (u_sid u) (u_entry u) ph) = false ->
                map_count P uses' = map_count P uses) as Hsame.
      { intros P H1 H2. pose proof (use_counts uses i u (u_entry u) ph P Hu) as E. rewrite H1, H2 in E. unfold uses'. lia. }
      split_and!; [by rewrite Hsame by (by apply bool_decide_false)|done|].
      eapply lock_ok_ext; [| |exact Hl].
      * symmetry. apply Hsame; apply bool_decide_false; by intros [? _].
      * intros j. fold (waits_on uses e j) (waits_on uses' e j). unfold uses'. rewrite waits_on_insert. split; [|naive_solver].
        intros (v & Hv & Hve & Hvp). right. split; [|by exists v]. intros <-. congruence.
Qed.

Lemma locks_entry ls uses i u :
  locks_ok ls uses -> uses !! i = Some u -> exists r, l_entries ls !! u_entry u = Some r /\
    lock_ok (r_lock r) (map_count (holds_entry (u_entry u)) uses) (waits_on uses (u_entry u)).
Proof.
  intros [_ Huse Href] Hu. destruct (Href _ _ (Huse i u Hu)) as (r & Hr & _ & _ & Hl). by exists r.
Qed.

Lemma resume_use ls uses i sid e :
  locks_ok ls uses -> uses !! i = Some (mk_use sid e Waits) ->
  (forall r, l_entries ls !! e = Some r -> (i, true) ∈ k_waiters (r_lock r)) ->
  locks_ok (on_lock ls e (fun k => resume k i)) (<[i := mk_use sid e Holds]> uses).
Proof.
  intros Hls Hu Hwoken. destruct (locks_entry _ _ _ _ Hls Hu) as (r & Hr & Hl). cbn in *. unfold on_lock. rewrite Hr.
  apply (locks_move ls uses i (mk_use sid e Waits) r Holds); [done..|]. cbn.
  destruct (lock_resume_ok _ _ _ i Hl (Hwoken r Hr)) as [Hn Hl']. eapply lock_ok_ext; [| |exact Hl'].
  - pose proof (use_counts uses i _ e Holds (holds_entry e) Hu) as E. unfold holds_entry at 2 4 in E. cbn in E.
    rewrite bool_decide_false, bool_decide_true in E by naive_solver. cbn in *. lia.
  - intros j. rewrite waits_on_insert. naive_solver.
Qed.

Lemma leave_use ls uses i sid e ph :
  locks_ok ls uses -> uses !! i = Some (mk_use sid e ph) -> locks_ok (leave ls e i ph) (<[i := mk_use sid e Past]> uses).
Proof.
  intros Hls Hu. destruct (locks_entry _ _ _ _ Hls Hu) as (r & Hr & Hl). cbn in *.
  assert (forall k, lock_ok k (map_count (holds_entry e) (<[i := mk_use sid e Past]> uses))
                      (waits_on (<[i := mk_use sid e Past]> uses) e) ->
            locks_ok (set_ref ls e (mk_ref k (r_count r))) (<[i := mk_use sid e Past]> uses)) as Hmove.
  { intros k Hk. by apply (locks_move ls uses i (mk_use sid e ph) r Past). }
  pose proof (use_counts uses i _ e Past (holds_entry e) Hu) as E. unfold holds_entry at 2 4 in E. cbn in E.
  rewrite (bool_decide_false (e = e /\ Past = Holds)) in E by (by intros [_ ?]).
  destruct ph; unfold leave, on_lock; rewrite ?Hr.
  - apply Hmove. rewrite (bool_decide_false (e = e /\ Waits = Holds)) in E by (by intros [_ ?]).
    eapply lock_ok_ext; [| |exact (forsake_ok _ _ _ i Hl)]; [lia|].
    intros j. rewrite waits_on_insert. naive_solver.
  - apply Hmove. rewrite bool_decide_true in E by done.
    assert (map_count (holds_entry e) uses = 1%nat) as H1.
    { destruct Hl as [Hn _ _ _]. rewrite Hn in *. destruct (k_locked _); [done|lia]. }
    rewrite H1 in *. eapply lock_ok_ext; [| |exact (lock_release_ok _ _ Hl)]; [lia|].
    intros j. rewrite waits_on_insert. split; [|naive_solver]. intros Hj. right. split; [|done]. intros <-.
    destruct Hj as (u & Hu' & _ & Hp). rewrite Hu in Hu'. by simplify_eq.
  - by rewrite insert_id.
Qed.

Lemma release_use ls uses i sid e :
  locks_ok ls uses -> uses !! i = Some (mk_use sid e Past) -> locks_ok (release_session_lock ls sid) (delete i uses).
Proof.
  intros [Hinj Huse Href] Hu. pose proof (Huse i _ Hu) as Ht. cbn in Ht.
  destruct (Href _ _ Ht) as (r & Hr & Hc & Hp & Hl). unfold release_session_lock. rewrite Ht, Hr.
  assert (Hdel : forall P : use -> bool, (map_count P (delete i uses) + (if P (mk_use sid e Past) then 1 else 0) = map_count P uses)%nat).
  { intros P. rewrite <-(insert_delete_id uses i _ Hu) at 2. rewrite map_count_fresh by apply lookup_delete_eq. done. }
  assert (Hwaits : forall e' j, waits_on (delete i uses) e' j <-> waits_on uses e' j).
  { intros e' j. unfold waits_on. split; intros (u & Hv & ? & Hph).
    - apply lookup_delete_Some in Hv as [_ ?]. eauto.
    - exists u. rewrite lookup_delete_ne; [done|]. intros <-. by simplify_eq. }
  assert (Hothers : forall s' e', e' <> e -> l_table ls !! s' = Some e' -> exists r', l_entries ls !! e' = Some r' /\
    r_count r' = Z.of_nat (map_count (uses_entry e') (delete i uses)) /\ 0 < r_count r' /\
    lock_ok (r_lock r') (map_count (holds_entry e') (delete i uses)) (waits_on (delete i uses) e')).
  { intros s' e' Hne He. destruct (Href s' e' He) as (r' & ? & Hc' & ? & Hl'). exists r'. split_and!; [done| |done|].
    - pose proof (Hdel (uses_entry e')) as E. unfold uses_entry at 2 in E. cbn in E. rewrite bool_decide_false in E by done. lia.
    - eapply lock_ok_ext; [| |exact Hl']; [|intros j; symmetry; apply Hwaits].
      pose proof (Hdel (holds_entry e')) as E. unfold holds_entry at 2 in E. cbn in E.
      rewrite bool_decide_false in E by naive_solver. lia. }
  pose proof (Hdel (uses_entry e)) as Eu. unfold uses_entry at 2 in Eu. cbn in Eu. rewrite bool_decide_true in Eu by done.
  destruct (Z.leb_spec (r_count r - 1) 0) as [Hz|Hz]; constructor; cbn.
  - intros s1 s2 e1 [_ ?]%lookup_delete_Some [_ ?]%lookup_delete_Some. by eapply Hinj.
  - intros j v [Hne Hv]%lookup_delete_Some. rewrite lookup_delete_ne; [by eapply Huse|]. intros Hs.
    assert (u_entry v = e) as Hve by (specialize (Huse j v Hv); congruence).
    assert (H0 : map_count (uses_entry e) (delete i uses) = 0%nat) by lia. rewrite map_count_0 in H0.
    specialize (H0 j v). rewrite lookup_delete_ne in H0 by done. specialize (H0 Hv). unfold uses_entry in H0.
    by rewrite bool_decide_true in H0.
  - intros s1 e1 [Hne He]%lookup_delete_Some. assert (e1 <> e) by (intros ->; apply Hne; by eapply Hinj).
    rewrite lookup_insert_ne by done. by eapply Hothers.
  - done.
  - intros j v [Hne Hv]%lookup_delete_Some. by eapply Huse.
  - intros s1 e1 He. destruct (decide (e1 = e)) as [->|Hne]; [|rewrite lookup_insert_ne by done; by eapply Hothers].
    exists (mk_ref (r_lock r) (r_count r - 1)). rewrite lookup_insert_eq. cbn. split_and!; [done|lia|lia|].
    eapply lock_ok_ext; [| |exact Hl]; [|intros j; symmetry; apply Hwaits].
    pose proof (Hdel (holds_entry e)) as E. unfold holds_entry at 2 in E. cbn in E.
    rewrite bool_decide_false in E by naive_solver. lia.
Qed.

Lemma evict_lock_id ls uses sid : locks_ok ls uses -> evict_lock ls sid = ls.
Proof.
  intros [_ _ Href]. unfold evict_lock. destruct (l_table ls !! sid) as [e|] eqn:He; [|done].
  destruct (Href sid e He) as (r & -> & _ & Hp & _). destruct (Z.leb_spec (r_count r) 0); [lia|done].
Qed.

Lemma enter_use ls uses sid i :
  locks_ok ls uses -> uses !! i = None ->
  let '(e, got, ls') := enter ls sid i in
  locks_ok ls' (<[i := mk_use sid e (if got : bool then Holds else Waits)]> uses).
Proof.
  intros [Hinj Huse Href] Hi. unfold enter, acquire_session_lock.
  set (new := fun e (got : bool) => mk_use sid e (if got then Holds else Waits)).
  assert (Hself : forall e got, uses_entry e (new e got) = true) by (intros; by apply bool_decide_eq_true).
  assert (Hother : forall e e' got, e' <> e -> uses_entry e' (new e got) = false) by (intros; apply bool_decide_false; cbn; congruence).
  assert (Hheld : forall e got, holds_entry e (new e got) = got).
  { intros e []; [by apply bool_decide_eq_true|]. apply bool_decide_false. by intros [_ ?]. }
  assert (Hfree : forall e e' got, e' <> e -> holds_entry e' (new e got) = false).
  { intros e e' got Hne. apply bool_decide_false. cbn. intros [? _]. congruence. }
  assert (Hcount : forall e got (P : use -> bool), map_count P (<[i := new e got]> uses) = (map_count P uses + if P (new e got) then 1 else 0)%nat).
  { intros. by apply map_count_fresh. }
  assert (Hwait : forall e got e' j, waits_on (<[i := new e got]> uses) e' j <->
    waits_on uses e' j \/ (j = i /\ e = e' /\ got = false)).
  { intros e got e' j. unfold waits_on. split.
    - intros (u & [[<- <-]|[Hne Hu]]%lookup_insert_Some & He & Hp); [right|left; eauto].
      destruct got; [done|]. by split_and!.
    - intros [(u & Hu & He & Hp)|(-> & <- & ->)]; [|eexists; rewrite lookup_insert_eq; done].
      exists u. rewrite lookup_insert_ne; [done|]. intros <-. congruence. }
  assert (Hadd : forall ls' e (got : bool) r, (forall s e', l_table ls' !! s = Some e' -> e' = e <-> s = sid) ->
    l_table ls' !! sid = Some e -> (forall s, s <> sid -> l_table ls' !! s = l_table ls !! s) ->
    l_entries ls' !! e = Some r -> (forall e', e' <> e -> l_entries ls' !! e' = l_entries ls !! e') ->
    (forall j u, uses !! j = Some u -> u_sid u = sid -> u_entry u = e) ->
    r_count r = Z.of_nat (map_count (uses_entry e) uses) + 1 ->
    lock_ok (r_lock r) (map_count (holds_entry e) uses + if got then 1%nat else 0%nat)
      (fun j => waits_on uses e j \/ (j = i /\ got = false)) ->
    locks_ok ls' (<[i := new e got]> uses)).
  { intros ls' e got r He Ht Hto Hr Hro Hsame Hc Hl. constructor.
    - intros s s' e' Hs Hs'. destruct (decide (e' = e)) as [->|Hne].
      + transitivity sid; [by apply (He s e Hs)|symmetry; by apply (He s' e Hs')].
      + assert (s <> sid) by (intros ->; congruence). assert (s' <> sid) by (intros ->; congruence).
        rewrite Hto in Hs, Hs' by done. by eapply Hinj.
    - intros j u [[<- <-]|[_ Hu]]%lookup_insert_Some; [done|]. destruct (decide (u_sid u = sid)) as [E|E].
      + rewrite E, Ht. f_equal. symmetry. by eapply Hsame.
      + rewrite Hto by done. by eapply Huse.
    - intros s e' Hs. destruct (decide (e' = e)) as [->|Hne].
      + exists r. split_and!; [done| |lia|].
        * rewrite Hcount, Hc, Hself. lia.
        * eapply lock_ok_ext; [| |exact Hl].
          -- by rewrite Hcount, Hheld.
          -- intros j. fold (waits_on (<[i := new e got]> uses) e j). rewrite Hwait. naive_solver.
      + assert (s <> sid) by (intros ->; congruence). rewrite Hto in Hs by done. rewrite Hro by done.
        destruct (Href s e' Hs) as (r' & Hr' & Hc' & Hp & Hl'). exists r'. split_and!; [done| |done|].
        * rewrite Hcount, Hc', Hother by done. lia.
        * eapply lock_ok_ext; [| |exact Hl'].
          -- rewrite Hcount, Hfree by done. lia.
          -- intros j. fold (waits_on uses e' j) (waits_on (<[i := new e got]> uses) e' j). rewrite Hwait. split; [by left|]. intros [?|(_ & ? & _)]; [done|congruence]. }
  assert (Hnw : forall e, ~ waits_on uses e i) by (intros e (u & Hu & _); congruence).
  destruct (l_table ls !! sid) as [e|] eqn:Ht.
  - destruct (Href sid e Ht) as (r & Hr & Hc & Hp & Hl). rewrite Hr. cbn [set_ref l_entries]. rewrite lookup_insert_eq.
    cbn [r_lock r_count]. pose proof (acquire_ok (r_lock r) _ _ i Hl (Hnw e)) as Ha.
    destruct (acquire (r_lock r) i) as [got k]. unfold set_ref. cbn [l_table l_entries].
    apply (Hadd _ e got (mk_ref k (r_count r + 1))); cbn.
    + intros s e' Hs. split; [intros ->; by eapply Hinj|intros ->; congruence].
    + done.
    + done.
    + apply lookup_insert_eq.
    + intros e' Hne. by rewrite !lookup_insert_ne.
    + intros j u Hu Hsid. specialize (Huse j u Hu). rewrite Hsid in Huse. congruence.
    + lia.
    + destruct got; [destruct Ha as [H0 Ha]; rewrite H0|]; (eapply lock_ok_ext; [| |exact Ha]; [lia|]); intros j.
      * split; [by left|]. by intros [?|[_ ?]].
      * split; [intros [?| ->]; [by left|by right]|]. intros [?|[? _]]; [by left|by right].
  - cbn [l_entries]. rewrite lookup_insert_eq. cbn [r_lock r_count]. cbn [acquire new_lock k_locked k_waiters].
    set (e := fresh (dom (l_entries ls))). assert (l_entries ls !! e = None) as He by apply not_elem_of_dom, is_fresh.
    assert (forall s, l_table ls !! s = Some e -> False) as Hno.
    { intros s Hs. destruct (Href s e Hs) as (r & Hr & _). congruence. }
    assert (forall j u, uses !! j = Some u -> u_entry u <> e) as Hnu.
    { intros j u Hu <-. by apply (Hno (u_sid u)), (Huse j). }
    apply (Hadd _ e true (mk_ref (mk_lock true []) 1)); cbn.
    + intros s e' [[<- <-]|[Hne Hs]]%lookup_insert_Some; [done|]. split; [intros ->; by destruct (Hno s)|congruence].
    + apply lookup_insert_eq.
    + intros s Hne. by rewrite lookup_insert_ne.
    + apply lookup_insert_eq.
    + intros e' Hne. by rewrite !lookup_insert_ne.
    + intros j u Hu Hsid. specialize (Huse j u Hu). rewrite Hsid in Huse. congruence.
    + rewrite (proj2 (map_count_0 _ _)); [done|]. intros j u Hu. apply bool_decide_false. by eapply Hnu.
    + rewrite (proj2 (map_count_0 _ _)); [|intros j u Hu; apply bool_decide_false; intros [? _]; by eapply Hnu].
      constructor; cbn; [done| |constructor|done]. intros j. split; [set_solver|].
      intros [(u & Hu & ? & _)|[_ ?]]; [by destruct (Hnu j u)|done].
Qed.

(** What the invariant says to a client: one holder per session, and a turn
    that waits behind nobody is woken. *)
Lemma one_holder ls uses i j u v :
  locks_ok ls uses -> uses !! i = Some u -> uses !! j = Some v -> u_sid u = u_sid v ->
  u_phase u = Holds -> u_phase v = Holds -> i = j.
Proof.
  intros Hls Hu Hv Hs Hpu Hpv. destruct (decide (i = j)) as [|Hne]; [done|]. exfalso.
  destruct (locks_entry _ _ _ _ Hls Hu) as (r & _ & [Hn _ _ _]).
  assert (u_entry v = u_entry u) as He.
  { pose proof (ls_use _ _ Hls i u Hu) as H1. pose proof (ls_use _ _ Hls j v Hv) as H2. rewrite Hs in H1. congruence. }
  assert (2 <= map_count (holds_entry (u_entry u)) uses)%nat as H2; [|rewrite Hn in H2; destruct (k_locked _); lia].
  unfold map_count. rewrite <-(size_dom (D := gset nat)). assert (size ({[i; j]} : gset nat) = 2%nat) as <-.
  { rewrite size_union by set_solver. by rewrite !size_singleton. }
  apply subseteq_size. intros x [->%elem_of_singleton| ->%elem_of_singleton]%elem_of_union; apply elem_of_dom; eexists;
    apply map_lookup_filter_Some; (split; [done|]); cbn; apply bool_decide_eq_true; done.
Qed.

Lemma waiter_woken ls uses i u :
  locks_ok ls uses -> uses !! i = Some u -> u_phase u = Waits ->
  (forall j v, uses !! j = Some v -> u_sid v = u_sid u -> u_phase v <> Holds) ->
  exists r j, l_entries ls !! u_entry u = Some r /\ (j, true) ∈ k_waiters (r_lock r).
Proof.
  intros Hls Hu Hp Hno. destruct (locks_entry _ _ _ _ Hls Hu) as (r & Hr & [Hn Hw _ Hwk]).
  assert (i ∈ (k_waiters (r_lock r)).*1) as Hi by (apply Hw; by exists u).
  assert (k_locked (r_lock r) = false) as Hk.
  { destruct (k_locked (r_lock r)); [|done]. exfalso.
    assert (map_count (holds_entry (u_entry u)) uses = 0%nat); [|lia]. apply map_count_0. intros j v Hv.
    apply bool_decide_false. intros [He Hh]. apply (Hno j v Hv); [|done].
    eapply (ls_inj _ _ Hls); [by apply (ls_use _ _ Hls j)|]. rewrite He. by apply (ls_use _ _ Hls i). }
  destruct (k_waiters (r_lock r)) as [|[j b] rest] eqn:E; [by apply elem_of_nil in Hi|]. rewrite Hk in Hwk.
  destruct Hwk as [-> _]. exists r, j. split; [done|]. rewrite E. set_solver.
Qed.
