(* ===== verification/SessionDisk.v ===== *)
(** * The conversation files of the Gemini backend (backends/gemini/executor.py)

    The files as the turns see them: a worker thread writes a save to the
    session's one temporary file, which the event loop then moves over the
    session's file.  Files are inodes: a thread that still has an inode open
    writes to it wherever its name has gone.  [H] stands for what is saved
    ([GeminiHistory]). *)
From S2P Require Import Prelude PyStr.

(** ** The disk *)

Section Disk.
Context {H : Type}.

(** The text of a file: all of a save, or anything else. *)
Inductive text : Type := Whole (h : H) | Torn.

(** [n_open]: the threads that have it open for writing; [n_mixed]: one was
    opened while another was. Ghost: the session. *)
Record inode : Type := mk_inode { n_sid : string; n_text : text; n_open : gset nat; n_mixed : bool }.

(** A worker thread runs [_write_history_tmp_blocking]. *)
Inductive thread_stage : Type := Pending | Open (n : nat) | Written | Broken.

Record thread : Type := mk_thread { th_sid : string; th_raw : H; th_stage : thread_stage }.

Record disk : Type := mk_disk {
  d_inodes : gmap nat inode;
  d_files : gmap string nat;
  d_tmps : gmap string nat;
  d_threads : gmap nat thread
}.

Definition set_thread (d : disk) (k : nat) (th : thread) (s : thread_stage) : disk :=
  mk_disk (d_inodes d) (d_files d) (d_tmps d) (<[k := mk_thread (th_sid th) (th_raw th) s]> (d_threads d)).

Definition start_thread (d : disk) (sid : string) (raw : H) : nat * disk :=
  let k := fresh (dom (d_threads d)) in
  (k, mk_disk (d_inodes d) (d_files d) (d_tmps d) (<[k := mk_thread sid raw Pending]> (d_threads d))).

(** [open(tmp_path, "w")]: the file is truncated, or created. *)
Definition open_tmp (d : disk) (k : nat) (th : thread) : disk :=
  let sid := th_sid th in
  let n := default (fresh (dom (d_inodes d))) (d_tmps d !! sid) in
  let opened := match d_inodes d !! n with Some nd => n_open nd | None => ∅ end in
  set_thread
    (mk_disk (<[n := mk_inode sid Torn ({[k]} ∪ opened) (negb (bool_decide (opened = ∅)))]> (d_inodes d)) (d_files d)
       (<[sid := n]> (d_tmps d)) (d_threads d)) k th (Open n).

(** The dump is over and the file closed. *)
Definition close_tmp (d : disk) (k : nat) (th : thread) (n : nat) (ok : bool) : disk :=
  let inodes :=
    match d_inodes d !! n with
    | Some nd =>
        <[n := mk_inode (n_sid nd) (if ok && negb (n_mixed nd) then Whole (th_raw th) else Torn)
                 (n_open nd ∖ {[k]}) (n_mixed nd)]> (d_inodes d)
    | None => d_inodes d
    end in
  set_thread (mk_disk inodes (d_files d) (d_tmps d) (d_threads d)) k th (if ok then Written else Broken).

(** [os.replace(tmp_path, path)]; it raises when there is no such file. *)
Definition replace_file (d : disk) (sid : string) : option (nat * disk) :=
  n ← d_tmps d !! sid;
  Some (n, mk_disk (d_inodes d) (<[sid := n]> (d_files d)) (delete sid (d_tmps d)) (d_threads d)).

Definition remove_tmp (d : disk) (sid : string) : disk :=
  mk_disk (d_inodes d) (d_files d) (delete sid (d_tmps d)) (d_threads d).

(** [os.remove(path)], whose errors are swallowed everywhere. *)
Definition remove_file (d : disk) (sid : string) (ok : bool) : disk :=
  if ok then mk_disk (d_inodes d) (delete sid (d_files d)) (d_tmps d) (d_threads d) else d.

(** The history in the file: a text that cannot be parsed is no history. *)
Definition read_file (d : disk) (sid : string) : option H :=
  n ← d_files d !! sid; nd ← d_inodes d !! n; match n_text nd with Whole h => Some h | Torn => None end.

(** *** What holds of the disk

    [savers]: the turns that wait for their thread, with its session, its text
    and its number; [orphaned]: the sessions one of whose turns left while its
    thread was running; [published]: the files there ever were, with their
    text. *)
Record disk_ok (orphaned : gset string) (published : list (string * nat * H)) (d : disk)
    (savers : gmap nat (string * H * nat)) : Prop := {
  dk_file : forall s n, d_files d !! s = Some n -> exists nd, d_inodes d !! n = Some nd /\ n_sid nd = s /\
    (s ∉ orphaned -> exists h, (s, n, h) ∈ published /\ n_text nd = Whole h);
  dk_tmp : forall s n, d_tmps d !! s = Some n -> d_files d !! s <> Some n /\
    exists nd, d_inodes d !! n = Some nd /\ n_sid nd = s;
  dk_open : forall k th n, d_threads d !! k = Some th -> th_stage th = Open n -> exists nd,
    d_inodes d !! n = Some nd /\ n_sid nd = th_sid th /\
    (th_sid th ∉ orphaned -> d_tmps d !! th_sid th = Some n /\ n_mixed nd = false);
  dk_opened : forall n nd k, d_inodes d !! n = Some nd -> k ∈ n_open nd ->
    exists th, d_threads d !! k = Some th /\ th_stage th = Open n /\ th_sid th = n_sid nd;
  dk_owner : forall k th, d_threads d !! k = Some th -> th_sid th ∉ orphaned ->
    match th_stage th with Pending | Open _ => exists i, savers !! i = Some (th_sid th, th_raw th, k) | _ => True end;
  dk_saver : forall i s raw k, savers !! i = Some (s, raw, k) -> exists th, d_threads d !! k = Some th /\
    th_sid th = s /\ th_raw th = raw /\
    (s ∉ orphaned -> th_stage th = Written -> exists n nd, d_tmps d !! s = Some n /\ d_inodes d !! n = Some nd /\
       n_text nd = Whole raw)
}.

(** ** Lemmas: the disk *)

Section DiskLemmas.
Implicit Types (orphaned : gset string) (published : list (string * nat * H)) (d : disk) (savers : gmap nat (string * H * nat)).

Definition one_saver savers : Prop :=
  forall i j s r k r' k', savers !! i = Some (s, r, k) -> savers !! j = Some (s, r', k') -> i = j.

(** While a turn of a session waits for its thread, no other thread of the
    session runs; and none runs when no turn does. *)
Lemma live_thread orphaned published d savers k th :
  disk_ok orphaned published d savers -> d_threads d !! k = Some th -> th_sid th ∉ orphaned ->
  (th_stage th = Pending \/ exists n, th_stage th = Open n) -> exists i, savers !! i = Some (th_sid th, th_raw th, k).
Proof. intros Hd Hk Ho Hs. pose proof (dk_owner _ _ _ _ Hd k th Hk Ho) as Hw. destruct Hs as [E|[n E]]; rewrite E in Hw; done. Qed.

Lemma only_thread orphaned published d savers i s raw k k' th :
  disk_ok orphaned published d savers -> one_saver savers -> savers !! i = Some (s, raw, k) -> s ∉ orphaned ->
  d_threads d !! k' = Some th -> th_sid th = s -> (th_stage th = Pending \/ exists n, th_stage th = Open n) -> k' = k.
Proof.
  intros Hd H1 Hi Ho Hk <- Hs. destruct (live_thread _ _ _ _ _ _ Hd Hk Ho Hs) as (j & Hj).
  pose proof (H1 _ _ _ _ _ _ _ Hi Hj) as <-. congruence.
Qed.

Lemma start_thread_ok orphaned published d savers i s raw :
  disk_ok orphaned published d savers -> savers !! i = None ->
  let '(k, d') := start_thread d s raw in disk_ok orphaned published d' (<[i := (s, raw, k)]> savers).
Proof.
  intros [Hf Ht Ho Hod Hw Hs] Hi. unfold start_thread. set (k := fresh _).
  assert (d_threads d !! k = None) as Hk by apply not_elem_of_dom, is_fresh.
  assert (forall k' th, d_threads d !! k' = Some th -> k <> k') as Hne by (intros k' th H1 <-; congruence).
  constructor; cbn; try done.
  - intros k' th n [[<- <-]|[_ ?]]%lookup_insert_Some; [done|eauto].
  - intros n nd k' Hn Hin. destruct (Hod n nd k' Hn Hin) as (th & Hth & ?). exists th.
    rewrite lookup_insert_ne by eauto. done.
  - intros k' th [[<- <-]|[_ Hth]]%lookup_insert_Some Hor; [exists i; apply lookup_insert_eq|].
    specialize (Hw k' th Hth Hor). destruct (th_stage th); try done; destruct Hw as (j & Hj); exists j;
      (rewrite lookup_insert_ne; [done|]; intros <-; congruence).
  - intros j s' r' k' [[<- [= <- <- <-]]|[_ Hj]]%lookup_insert_Some.
    + eexists. rewrite lookup_insert_eq. split_and!; [done|done|done|by intros _].
    + destruct (Hs j s' r' k' Hj) as (th & Hth & ?). exists th. rewrite lookup_insert_ne by eauto. done.
Qed.

Lemma open_fails_ok orphaned published d savers k th :
  disk_ok orphaned published d savers -> d_threads d !! k = Some th -> th_stage th = Pending ->
  disk_ok orphaned published (set_thread d k th Broken) savers.
Proof.
  intros [Hf Ht Ho Hod Hw Hs] Hk Hp. constructor; cbn; try done.
  - intros k' th' n [[<- <-]|[_ ?]]%lookup_insert_Some; [done|eauto].
  - intros n nd k' Hn Hin. destruct (Hod n nd k' Hn Hin) as (th' & Hth & Hst & ?).
    destruct (decide (k = k')) as [<-|Hne]; [congruence|]. exists th'. rewrite lookup_insert_ne by done. done.
  - intros k' th' [[<- <-]|[_ Hth]]%lookup_insert_Some Hor; [done|exact (Hw k' th' Hth Hor)].
  - intros j s' r' k' Hj. destruct (Hs j s' r' k' Hj) as (th' & Hth & Hsid & Hraw & Hwr).
    destruct (decide (k = k')) as [<-|Hne]; [|exists th'; rewrite lookup_insert_ne by done; done].
    assert (th' = th) as -> by congruence. eexists. rewrite lookup_insert_eq. split_and!; [done|done|done|by intros _].
Qed.

Lemma open_tmp_ok orphaned published d savers k th :
  disk_ok orphaned published d savers -> one_saver savers -> d_threads d !! k = Some th -> th_stage th = Pending ->
  disk_ok orphaned published (open_tmp d k th) savers.
Proof.
  intros Hd H1 Hk Hp. pose proof Hd as [Hf Ht Ho Hod Hw Hs]. unfold open_tmp. cbv zeta.
  set (n := default _ _). set (opened := match d_inodes d !! n with Some nd => n_open nd | None => ∅ end).
  assert (Hn : d_files d !! th_sid th <> Some n /\ forall nd, d_inodes d !! n = Some nd -> n_sid nd = th_sid th).
  { subst n. destruct (d_tmps d !! th_sid th) as [n|] eqn:E; cbn.
    - destruct (Ht _ _ E) as (Hnf & nd & Hnd & Hsid). split; [done|]. intros nd' Hnd'. congruence.
    - assert (d_inodes d !! fresh (dom (d_inodes d)) = None) as E' by apply not_elem_of_dom, is_fresh.
      split; [|congruence]. intros Hx. destruct (Hf _ _ Hx) as (nd & Hnd & _). congruence. }
  destruct Hn as [Hnf Hnsid].
  assert (Hnew : forall s m, m = n -> d_tmps d !! s = Some m -> s = th_sid th).
  { intros s m -> Hm. destruct (Ht s n Hm) as (_ & nd & Hnd & <-). by apply Hnsid. }
  constructor; cbn.
  - intros s m Hm. destruct (Hf s m Hm) as (nd & Hnd & Hsid & Hwh). exists nd. rewrite lookup_insert_ne; [done|].
    intros ->. rewrite (Hnsid nd Hnd) in Hsid. congruence.
  - intros s m [[<- <-]|[Hne Hm]]%lookup_insert_Some; [split; [done|]; eexists; by rewrite lookup_insert_eq|].
    destruct (Ht s m Hm) as (? & nd & Hnd & Hsid). split; [done|]. exists nd. rewrite lookup_insert_ne; [done|].
    intros <-. apply Hne. symmetry. by eapply Hnew.
  - intros k' th' m [[<- <-]|[Hne Hth]]%lookup_insert_Some; cbn.
    + intros [= <-]. eexists. rewrite !lookup_insert_eq. split_and!; [done|done|]. intros Hor. split; [done|]. cbn.
      apply negb_false_iff, bool_decide_eq_true. apply set_eq. intros k'. split; [|set_solver]. intros Hin. exfalso.
      unfold opened in Hin. destruct (d_inodes d !! n) as [nd|] eqn:Hnd; [|set_solver].
      destruct (Hod n nd k' Hnd Hin) as (th' & Hth' & Hst & Hsid). rewrite (Hnsid nd eq_refl) in Hsid.
      destruct (live_thread _ _ _ _ _ _ Hd Hk Hor (or_introl Hp)) as (i & Hi).
      assert (k' = k) as -> by (eapply only_thread; eauto). congruence.
    + intros Hst. destruct (Ho k' th' m Hth Hst) as (nd & Hnd & Hsid & Hm).
      destruct (decide (th_sid th' = th_sid th)) as [E|E].
      * assert (Hor : ~ (th_sid th' ∉ orphaned)).
        { rewrite E. intros Hor. destruct (live_thread _ _ _ _ _ _ Hd Hk Hor (or_introl Hp)) as (i & Hi).
          apply Hne. symmetry. eapply only_thread; eauto. }
        destruct (decide (n = m)) as [<-|Hnm]; [eexists; rewrite lookup_insert_eq|exists nd; rewrite lookup_insert_ne by congruence];
          (split_and!; [done|cbn; congruence|done]).
      * assert (n <> m) as Hnm by (intros <-; specialize (Hnsid _ Hnd); congruence).
        exists nd. rewrite !lookup_insert_ne by congruence. done.
  - intros m nd k' [[<- <-]|[Hne Hnd]]%lookup_insert_Some; cbn.
    + intros [->%elem_of_singleton|Hin]%elem_of_union; [eexists; by rewrite lookup_insert_eq|].
      unfold opened in Hin. destruct (d_inodes d !! n) as [nd|] eqn:Hnd; [|set_solver].
      destruct (Hod n nd k' Hnd Hin) as (th' & Hth' & Hst & Hsid). rewrite (Hnsid nd eq_refl) in Hsid.
      destruct (decide (k = k')) as [<-|]; [eexists; by rewrite lookup_insert_eq|]. exists th'. by rewrite lookup_insert_ne.
    + intros Hin. destruct (Hod m nd k' Hnd Hin) as (th' & Hth' & Hst & Hsid).
      exists th'. rewrite lookup_insert_ne; [done|]. intros <-. congruence.
  - intros k' th' [[<- <-]|[_ Hth]]%lookup_insert_Some Hor; [|exact (Hw k' th' Hth Hor)]. cbn in *.
    exact (live_thread _ _ _ _ _ _ Hd Hk Hor (or_introl Hp)).
  - intros j s' r' k' Hj. destruct (Hs j s' r' k' Hj) as (th' & Hth & Hsid & Hraw & Hwr).
    destruct (decide (k = k')) as [<-|Hne].
    { assert (th' = th) as -> by congruence. eexists. rewrite lookup_insert_eq. split_and!; [done|done|done|by intros _]. }
    exists th'. rewrite lookup_insert_ne by done. split_and!; [done..|]. intros Hor Hst.
    destruct (Hwr Hor Hst) as (m & nd & Hm & Hnd & Hwh).
    assert (s' <> th_sid th).
    { intros ->. apply Hne. eapply only_thread; eauto. }
    exists m, nd. rewrite !lookup_insert_ne; [done|..|congruence]. intros <-. by apply H0, (Hnew _ n).
Qed.

Lemma close_tmp_ok orphaned published d savers k th n ok :
  disk_ok orphaned published d savers -> one_saver savers -> d_threads d !! k = Some th -> th_stage th = Open n ->
  disk_ok orphaned published (close_tmp d k th n ok) savers.
Proof.
  intros Hd H1 Hk Hp. pose proof Hd as [Hf Ht Ho Hod Hw Hs]. unfold close_tmp. cbv zeta.
  set (inodes := match d_inodes d !! n with Some nd => _ | None => _ end).
  assert (Hold : forall m nd, d_inodes d !! m = Some nd -> exists nd', inodes !! m = Some nd' /\ n_sid nd' = n_sid nd /\
            n_mixed nd' = n_mixed nd /\ (m <> n -> nd' = nd)).
  { intros m nd Hm. unfold inodes. destruct (d_inodes d !! n) as [nd0|] eqn:E; [|by exists nd].
    destruct (decide (n = m)) as [<-|Hne]; [|exists nd; by rewrite lookup_insert_ne].
    rewrite lookup_insert_eq. eexists. split_and!; [done|cbn; congruence..]. }
  assert (Hopen : forall m nd' k', inodes !! m = Some nd' -> k' ∈ n_open nd' -> k' <> k /\
            exists nd, d_inodes d !! m = Some nd /\ k' ∈ n_open nd /\ n_sid nd' = n_sid nd).
  { intros m nd' k' Hm Hin. unfold inodes in Hm. destruct (d_inodes d !! n) as [nd0|] eqn:E.
    - apply lookup_insert_Some in Hm as [[<- <-]|[Hne Hm]].
      + cbn in Hin. apply elem_of_difference in Hin as [Hin Hk']. split; [set_solver|by exists nd0].
      + split; [|by exists nd']. intros ->. destruct (Hod m nd' k Hm Hin) as (th' & Hth' & Hst & _). congruence.
    - split; [|by exists nd']. intros ->. destruct (Hod m nd' k Hm Hin) as (th' & Hth' & Hst & _). congruence. }
  assert (Hend : (if ok then Written else Broken) <> Pending /\ forall m, (if ok then Written else Broken) <> Open m)
    by (by destruct ok).
  constructor; cbn.
  - intros s m Hm. destruct (Hf s m Hm) as (nd & Hnd & Hsid & Hwh). destruct (Hold m nd Hnd) as (nd' & Hnd' & Hsid' & _ & Hsame).
    exists nd'. split_and!; [done|congruence|]. intros Hor. rewrite Hsame; [auto|]. intros ->.
    destruct (Ho k th n Hk Hp) as (nd0 & Hnd0 & Hsid0 & Htm). assert (th_sid th = s) as <- by congruence.
    by destruct (Ht _ _ (proj1 (Htm Hor))) as [? _].
  - intros s m Hm. destruct (Ht s m Hm) as (? & nd & Hnd & Hsid). split; [done|].
    destruct (Hold m nd Hnd) as (nd' & ? & ? & _). exists nd'. split; [done|congruence].
  - intros k' th' m [[<- <-]|[Hne Hth]]%lookup_insert_Some; cbn; [intros E; by destruct (proj2 Hend m)|].
    intros Hst. destruct (Ho k' th' m Hth Hst) as (nd & Hnd & Hsid & Hm).
    destruct (Hold m nd Hnd) as (nd' & ? & ? & E & _). exists nd'. rewrite E. split_and!; [done|congruence|done].
  - intros m nd' k' Hm Hin. destruct (Hopen m nd' k' Hm Hin) as (Hne & nd & Hnd & Hin' & Hsid).
    destruct (Hod m nd k' Hnd Hin') as (th' & ? & ? & ?). exists th'. rewrite lookup_insert_ne by done. split_and!; [done..|congruence].
  - intros k' th' [[<- <-]|[_ Hth]]%lookup_insert_Some Hor; [cbn; by destruct ok|exact (Hw k' th' Hth Hor)].
  - intros j s' r' k' Hj. destruct (Hs j s' r' k' Hj) as (th' & Hth & Hsid & Hraw & Hwr).
    destruct (decide (k = k')) as [<-|Hne].
    + assert (th' = th) as -> by congruence. eexists. rewrite lookup_insert_eq. split_and!; [done|done|done|]. cbn.
      intros Hor Hst. destruct ok; [|done]. subst s' r'.
      destruct (Ho k th n Hk Hp) as (nd & Hnd & _ & Htm). destruct (Htm Hor) as [Htm' Hmx].
      exists n, (mk_inode (n_sid nd) (Whole (th_raw th)) (n_open nd ∖ {[k]}) (n_mixed nd)). split_and!; [done| |done].
      unfold inodes. rewrite Hnd, lookup_insert_eq. cbn. by rewrite Hmx.
    + exists th'. rewrite lookup_insert_ne by done. split_and!; [done..|]. intros Hor Hst.
      destruct (Hwr Hor Hst) as (m & nd & Hm & Hnd & Hwh). exists m. destruct (Hold m nd Hnd) as (nd' & Hnd' & _ & _ & Hsame).
      exists nd'. split_and!; [done..|]. rewrite Hsame; [done|]. intros ->.
      destruct (Ho k th n Hk Hp) as (nd0 & Hnd0 & Hsid0 & _). destruct (Ht _ _ Hm) as (_ & nd1 & Hnd1 & Hsid1).
      apply Hne. eapply (only_thread _ _ _ _ j); eauto. congruence.
Qed.

Definition ended (th : thread) : Prop := th_stage th = Written \/ th_stage th = Broken.

Definition no_saver savers (s : string) : Prop := forall j raw k, savers !! j <> Some (s, raw, k).

Lemma drop_saver_ok orphaned published d savers i s raw k th :
  disk_ok orphaned published d savers -> savers !! i = Some (s, raw, k) -> d_threads d !! k = Some th -> ended th ->
  disk_ok orphaned published d (delete i savers).
Proof.
  intros [Hf Ht Ho Hod Hw Hs] Hi Hk He. constructor; try done.
  - intros k' th' Hth Hor. specialize (Hw k' th' Hth Hor).
    destruct (decide (k' = k)) as [->|Hne]; [assert (th' = th) as -> by congruence; by destruct He as [->| ->]|].
    destruct (th_stage th'); try done; destruct Hw as (j & Hj); exists j; (rewrite lookup_delete_ne; [done|]; intros <-; congruence).
  - intros j s' r' k' [_ Hj]%lookup_delete_Some. eauto.
Qed.

Lemma dropped_none savers i s raw k : one_saver savers -> savers !! i = Some (s, raw, k) -> no_saver (delete i savers) s.
Proof. intros H1 Hi j r' k' [Hne Hj]%lookup_delete_Some. apply Hne. by eapply H1. Qed.

(** Without a saver, no thread of the session has its temporary file open. *)
Lemma no_open orphaned published d savers s k th n :
  disk_ok orphaned published d savers -> no_saver savers s -> d_threads d !! k = Some th -> th_stage th = Open n ->
  th_sid th = s -> s ∉ orphaned -> False.
Proof.
  intros Hd Hn Hk Hst <- Hor. destruct (live_thread _ _ _ _ _ _ Hd Hk Hor (or_intror (ex_intro _ n Hst))) as (j & Hj).
  by destruct (Hn j (th_raw th) k).
Qed.

Lemma remove_tmp_ok orphaned published d savers s :
  disk_ok orphaned published d savers -> no_saver savers s -> disk_ok orphaned published (remove_tmp d s) savers.
Proof.
  intros Hd Hn. pose proof Hd as [Hf Ht Ho Hod Hw Hs]. constructor; cbn; try done.
  - intros s' n [_ ?]%lookup_delete_Some. eauto.
  - intros k th n Hk Hst. destruct (Ho k th n Hk Hst) as (nd & ? & ? & Hm). exists nd. split_and!; [done..|]. intros Hor.
    rewrite lookup_delete_ne; [auto|]. intros E. by apply (no_open _ _ _ _ s k th n Hd Hn); [..|congruence].
  - intros j s' r' k' Hj. destruct (Hs j s' r' k' Hj) as (th & ? & ? & ? & Hwr). exists th. split_and!; [done..|].
    rewrite lookup_delete_ne; [done|]. intros ->. by destruct (Hn j r' k').
Qed.

Lemma replace_ok orphaned published d savers s n d' raw :
  disk_ok orphaned published d savers -> no_saver savers s -> replace_file d s = Some (n, d') ->
  (s ∉ orphaned -> exists nd, d_inodes d !! n = Some nd /\ n_text nd = Whole raw) ->
  disk_ok orphaned ((s, n, raw) :: published) d' savers.
Proof.
  intros Hd Hn Hr Hraw. unfold replace_file in Hr. destruct (d_tmps d !! s) as [m|] eqn:Hm; [|done]. injection Hr as -> <-.
  pose proof Hd as [Hf Ht Ho Hod Hw Hs]. destruct (Ht s n Hm) as (_ & nd & Hnd & Hsid). constructor; cbn.
  - intros s' n' [[<- <-]|[Hne Hf']]%lookup_insert_Some.
    + exists nd. split_and!; [done..|]. intros Hor. destruct (Hraw Hor) as (nd' & ? & ?). exists raw. split; [set_solver|congruence].
    + destruct (Hf s' n' Hf') as (nd' & ? & ? & Hwh). exists nd'. split_and!; [done..|]. intros Hor.
      destruct (Hwh Hor) as (h & ? & ?). exists h. split; [set_solver|done].
  - intros s' n' [Hne Ht']%lookup_delete_Some. rewrite lookup_insert_ne by done. eauto.
  - intros k th n' Hk Hst. destruct (Ho k th n' Hk Hst) as (nd' & ? & ? & Hm'). exists nd'. split_and!; [done..|]. intros Hor.
    rewrite lookup_delete_ne; [auto|]. intros E. by apply (no_open _ _ _ _ s k th n' Hd Hn); [..|congruence].
  - done.
  - done.
  - intros j s' r' k' Hj. destruct (Hs j s' r' k' Hj) as (th & ? & ? & ? & Hwr). exists th. split_and!; [done..|].
    rewrite lookup_delete_ne; [done|]. intros ->. by destruct (Hn j r' k').
Qed.

Lemma remove_file_ok orphaned published d savers s ok :
  disk_ok orphaned published d savers -> disk_ok orphaned published (remove_file d s ok) savers.
Proof.
  destruct ok; [|done]. intros [Hf Ht Ho Hod Hw Hs]. constructor; cbn; try done.
  - intros s' n [_ ?]%lookup_delete_Some. eauto.
  - intros s' n Hn. destruct (Ht s' n Hn) as [Hne Hnd]. split; [|done]. intros [_ ?]%lookup_delete_Some. done.
Qed.

Lemma orphan_ok orphaned published d savers i s raw k :
  disk_ok orphaned published d savers -> savers !! i = Some (s, raw, k) ->
  disk_ok ({[s]} ∪ orphaned) published d (delete i savers).
Proof.
  intros [Hf Ht Ho Hod Hw Hs] Hi. constructor; try done.
  - intros s' n Hn. destruct (Hf s' n Hn) as (nd & ? & ? & Hwh). exists nd. split_and!; [done..|]. intros Hor. apply Hwh. set_solver.
  - intros k' th n Hk Hst. destruct (Ho k' th n Hk Hst) as (nd & ? & ? & Hm). exists nd. split_and!; [done..|]. intros Hor. apply Hm. set_solver.
  - intros k' th Hk Hor. assert (th_sid th ∉ orphaned) as Hor' by set_solver. specialize (Hw k' th Hk Hor').
    destruct (th_stage th); try done; destruct Hw as (j & Hj); exists j; (rewrite lookup_delete_ne; [done|]; intros <-; simplify_eq; set_solver).
  - intros j s' r' k' [_ Hj]%lookup_delete_Some. destruct (Hs j s' r' k' Hj) as (th & ? & ? & ? & Hwr). exists th.
    split_and!; [done..|]. intros Hor. apply Hwr. set_solver.
Qed.
End DiskLemmas.
End Disk.
Arguments text : clear implicits.
Arguments inode : clear implicits.
Arguments thread : clear implicits.
Arguments disk : clear implicits.
