(* ===== verification/GeminiSessions.v ===== *)
(** * Sessions of the Gemini backend (backends/gemini/executor.py)

    The turns of the backend and what they share: the lock of each session
    ([SessionLocks]), the file with its conversation, the temporary file a
    worker thread writes before it replaces it, the cleanup epochs, the events
    that announce a save, the LRU of sessions and the tasks that remove the
    files of evicted ones.  [run_query], [_save_history], [_track_session] and
    the exits of [_run_inner] are cut at their suspension points; what the
    model answers, which calls fail and when a time limit strikes are
    arguments of the steps. *)
From S2P Require Import Prelude PyStr SessionLocks SessionDisk.

(** ** Turns *)

Section Sessions.
Context {H : Type}.
#[local] Abbreviation disk := (disk H).

(** A call of [_save_history]: the text, the epoch it started in, its
    done-event and the attempts left after this one. *)
Record attempt : Type := mk_attempt { a_raw : H; a_epoch : Z; a_event : nat; a_left : nat }.

(** Where a turn is: waiting for the session's lock; loading the history;
    talking to the model; waiting for its writer thread; between two attempts;
    past the lock, before the session is promoted; out of budget, before that;
    timed out, waiting for a save to end; over. *)
Inductive stage : Type :=
| Waiting
| Loading
| Streaming
| Saving (a : attempt) (k : nat)
| Backoff (a : attempt)
| Saved
| Budgeted
| Expired
| Over.

(** [t_base]: the inode of the session's file when the history was read;
    [t_loaded]: what was read. *)
Record turn : Type := mk_turn {
  t_sid : string;
  t_entry : nat;
  t_stage : stage;
  t_base : option nat;
  t_loaded : option H
}.

Definition set_stage (t : turn) (s : stage) : turn := mk_turn (t_sid t) (t_entry t) s (t_base t) (t_loaded t).

Definition phase_of (s : stage) : option phase :=
  match s with
  | Waiting => Some Waits
  | Loading | Streaming | Saving _ _ | Backoff _ => Some Holds
  | Saved => Some Past
  | Budgeted | Expired | Over => None
  end.

Definition use_of (t : turn) : option use := mk_use (t_sid t) (t_entry t) <$> phase_of (t_stage t).

Definition saver_of (t : turn) : option (string * H * nat) :=
  match t_stage t with Saving a k => Some (t_sid t, a_raw a, k) | _ => None end.

(** A task that removes the file of an evicted session: created; waiting for
    a save; about to remove; with the file removed. *)
Inductive eviction : Type := Created | AwaitingSave | Removing | Removed.

Record world : Type := mk_world {
  w_turns : gmap nat turn;
  w_locks : locks;
  (** [sessions], [history_save_failed], [_session_cleanup_epoch] and
      [_history_write_done] *)
  w_sessions : list (string * Z);
  w_failed : gset string;
  w_epochs : gmap string Z;
  w_pending : gmap string nat;
  w_next_event : nat;
  w_evictions : gmap nat (string * eviction);
  w_disk : disk;
  (** ghost *)
  w_orphaned : gset string;
  w_published : list (string * nat * H)
}.

Definition set_turn (w : world) (i : nat) (t : turn) : world :=
  mk_world (<[i := t]> (w_turns w)) (w_locks w) (w_sessions w) (w_failed w) (w_epochs w) (w_pending w) (w_next_event w)
    (w_evictions w) (w_disk w) (w_orphaned w) (w_published w).

Definition set_locks (w : world) (ls : locks) : world :=
  mk_world (w_turns w) ls (w_sessions w) (w_failed w) (w_epochs w) (w_pending w) (w_next_event w)
    (w_evictions w) (w_disk w) (w_orphaned w) (w_published w).

Definition set_sessions (w : world) (ss : list (string * Z)) : world :=
  mk_world (w_turns w) (w_locks w) ss (w_failed w) (w_epochs w) (w_pending w) (w_next_event w)
    (w_evictions w) (w_disk w) (w_orphaned w) (w_published w).

Definition set_failed (w : world) (fs : gset string) : world :=
  mk_world (w_turns w) (w_locks w) (w_sessions w) fs (w_epochs w) (w_pending w) (w_next_event w)
    (w_evictions w) (w_disk w) (w_orphaned w) (w_published w).

Definition set_epochs (w : world) (es : gmap string Z) : world :=
  mk_world (w_turns w) (w_locks w) (w_sessions w) (w_failed w) es (w_pending w) (w_next_event w)
    (w_evictions w) (w_disk w) (w_orphaned w) (w_published w).

Definition set_pending (w : world) (ps : gmap string nat) : world :=
  mk_world (w_turns w) (w_locks w) (w_sessions w) (w_failed w) (w_epochs w) ps (w_next_event w)
    (w_evictions w) (w_disk w) (w_orphaned w) (w_published w).

Definition set_evictions (w : world) (vs : gmap nat (string * eviction)) : world :=
  mk_world (w_turns w) (w_locks w) (w_sessions w) (w_failed w) (w_epochs w) (w_pending w) (w_next_event w)
    vs (w_disk w) (w_orphaned w) (w_published w).

Definition set_disk (w : world) (d : disk) : world :=
  mk_world (w_turns w) (w_locks w) (w_sessions w) (w_failed w) (w_epochs w) (w_pending w) (w_next_event w)
    (w_evictions w) d (w_orphaned w) (w_published w).

(** ** Cleanup *)

Definition epoch (w : world) (sid : string) : Z := default 0 (w_epochs w !! sid).

Definition bump_cleanup_epoch (w : world) (sid : string) : world :=
  set_epochs w (<[sid := epoch w sid + 1]> (w_epochs w)).

(** The second bump after a removal, and the removal of the counter. *)
Definition end_cleanup (w : world) (sid : string) : world :=
  let w := bump_cleanup_epoch w sid in set_epochs w (delete sid (w_epochs w)).

Definition unlink (w : world) (sid : string) (ok : bool) : world := set_disk w (remove_file (w_disk w) sid ok).

Definition add_eviction (w : world) (sid : string) (v : eviction) : world :=
  set_evictions w (<[fresh (dom (w_evictions w)) := (sid, v)]> (w_evictions w)).

Section Track.
(** [MAX_SESSIONS] and [_EVICT_REMOVE_TASKS_MAX]. *)
Variables max_sessions max_tasks : Z.

(** What follows the eviction of a session from the LRU. *)
Definition evict (w : world) (sid : string) (unlink_ok : bool) : world :=
  let w := set_locks w (evict_lock (w_locks w) sid) in
  let w := set_failed w (w_failed w ∖ {[sid]}) in
  let w := bump_cleanup_epoch w sid in
  if max_tasks <=? Z.of_nat (size (w_evictions w)) then
    match w_pending w !! sid with
    | Some _ => add_eviction w sid AwaitingSave
    | None => end_cleanup (unlink w sid unlink_ok) sid
    end
  else add_eviction w sid Created.

Definition track_session (w : world) (sid : string) (now : Z) (unlink_ok : bool) : world :=
  match od_get (w_sessions w) sid with
  | Some _ => set_sessions w (od_pop (w_sessions w) sid ++ [(sid, now)])
  | None =>
      let w :=
        if max_sessions <=? Z.of_nat (length (w_sessions w)) then
          match w_sessions w with
          | (v, _) :: rest => evict (set_sessions w rest) v unlink_ok
          | [] => w
          end
        else w in
      set_sessions w (w_sessions w ++ [(sid, now)])
  end.
End Track.

(** ** One turn *)

Definition read_turn (t : turn) (base : option nat) (loaded : option H) : turn :=
  mk_turn (t_sid t) (t_entry t) Streaming base loaded.

(** The turn holds the lock. After a save that failed it starts over, without
    the file if it can be removed. *)
Definition locked (w : world) (i : nat) (t : turn) (unlink_ok : bool) : world :=
  if decide (t_sid t ∈ w_failed w) then
    let w := unlink w (t_sid t) unlink_ok in set_turn w i (read_turn t (d_files (w_disk w) !! t_sid t) None)
  else set_turn w i (set_stage t Loading).

(** A new turn, up to its first suspension. *)
Definition begin_turn (w : world) (sid : string) (unlink_ok : bool) : world :=
  let i := fresh (dom (w_turns w)) in
  let '(e, got, ls) := enter (w_locks w) sid i in
  let t := mk_turn sid e Waiting None None in
  if got then locked (set_locks w ls) i t unlink_ok else set_turn (set_locks w ls) i t.

(** Its lock is free. *)
Definition wake_turn (w : world) (i : nat) (t : turn) (unlink_ok : bool) : world :=
  locked (set_locks w (on_lock (w_locks w) (t_entry t) (fun k => resume k i))) i t unlink_ok.

Definition load (w : world) (i : nat) (t : turn) : world :=
  set_turn w i (read_turn t (d_files (w_disk w) !! t_sid t) (read_file (w_disk w) (t_sid t))).

(** The exits of [async with entry.lock] and of the [try] around it. *)
Definition leave_session (w : world) (i : nat) (t : turn) : world :=
  match phase_of (t_stage t) with
  | Some ph => set_locks w (release_session_lock (leave (w_locks w) (t_entry t) i ph) (t_sid t))
  | None => w
  end.

(** The [finally] of [_save_history]. *)
Definition end_save (w : world) (a : attempt) (sid : string) : world :=
  match w_pending w !! sid with
  | Some e => if decide (e = a_event a) then set_pending w (delete sid (w_pending w)) else w
  | None => w
  end.

Definition start_attempt (w : world) (i : nat) (t : turn) (a : attempt) : world :=
  let '(k, d) := start_thread (w_disk w) (t_sid t) (a_raw a) in set_turn (set_disk w d) i (set_stage t (Saving a k)).

(** After [_save_history], up to the next suspension. *)
Definition finish_save (w : world) (i : nat) (t : turn) (a : attempt) (ok : bool) : world :=
  let w := end_save w a (t_sid t) in
  let w := set_failed w (if ok then w_failed w ∖ {[t_sid t]} else {[t_sid t]} ∪ w_failed w) in
  set_turn (set_locks w (leave (w_locks w) (t_entry t) i Holds)) i (set_stage t Saved).

(** [_save_history] with [retries] attempts, up to its first suspension. *)
Definition begin_save (retries : nat) (w : world) (i : nat) (t : turn) (raw : H) : world :=
  let a := mk_attempt raw (epoch w (t_sid t)) (w_next_event w) (pred retries) in
  let w :=
    mk_world (w_turns w) (w_locks w) (w_sessions w) (w_failed w) (w_epochs w)
      (<[t_sid t := w_next_event w]> (w_pending w)) (S (w_next_event w)) (w_evictions w) (w_disk w) (w_orphaned w)
      (w_published w) in
  match retries with O => finish_save w i t a false | S _ => start_attempt w i t a end.

Definition retry_save (w : world) (i : nat) (t : turn) (a : attempt) : world :=
  match a_left a with
  | O => finish_save w i t a false
  | S n => set_turn w i (set_stage t (Backoff (mk_attempt (a_raw a) (a_epoch a) (a_event a) n)))
  end.

Definition publish (w : world) (sid : string) (n : nat) (d : disk) (raw : H) : world :=
  mk_world (w_turns w) (w_locks w) (w_sessions w) (w_failed w) (w_epochs w) (w_pending w) (w_next_event w)
    (w_evictions w) d (w_orphaned w) ((sid, n, raw) :: w_published w).

(** The thread wrote the temporary file; [io_ok]: the call on files that
    follows does not raise. *)
Definition thread_written (w : world) (i : nat) (t : turn) (a : attempt) (io_ok : bool) : world :=
  let sid := t_sid t in
  if decide (epoch w sid = a_epoch a) then
    match (if io_ok then replace_file (w_disk w) sid else None) with
    | Some (n, d) => finish_save (publish w sid n d (a_raw a)) i t a true
    | None => retry_save w i t a
    end
  else if io_ok then finish_save (set_disk w (remove_tmp (w_disk w) sid)) i t a false
  else retry_save w i t a.

(** An exception in the turn; [mark]: it was raised by the model's stream. *)
Definition fail_turn (w : world) (i : nat) (t : turn) (mark : bool) : world :=
  let sid := t_sid t in
  let w := if mark then set_failed w ({[sid]} ∪ w_failed w) else w in
  let w := leave_session w i t in
  let w :=
    match od_get (w_sessions w) sid with
    | Some _ => w
    | None => set_pending (set_epochs w (delete sid (w_epochs w))) (delete sid (w_pending w))
    end in
  set_turn w i (set_stage t Over).

Definition exceed_budget (w : world) (i : nat) (t : turn) : world :=
  set_turn (leave_session (set_failed w ({[t_sid t]} ∪ w_failed w)) i t) i (set_stage t Budgeted).

(** A time limit or a cancellation unwinds [run_query]. A thread that is
    running runs on. *)
Definition unwind (w : world) (i : nat) (t : turn) : world :=
  let w :=
    match t_stage t with
    | Saving a k =>
        let w := end_save w a (t_sid t) in
        match d_threads (w_disk w) !! k with
        | Some (mk_thread _ _ (Written | Broken)) => w
        | _ =>
            mk_world (w_turns w) (w_locks w) (w_sessions w) (w_failed w) (w_epochs w) (w_pending w) (w_next_event w)
              (w_evictions w) (w_disk w) ({[t_sid t]} ∪ w_orphaned w) (w_published w)
        end
    | Backoff a => end_save w a (t_sid t)
    | _ => w
    end in
  leave_session w i t.

(** The end of the timeout branch. *)
Definition expire (w : world) (i : nat) (t : turn) (unlink_ok : bool) : world :=
  let w := end_cleanup (unlink w (t_sid t) unlink_ok) (t_sid t) in
  set_turn (set_pending w (delete (t_sid t) (w_pending w))) i (set_stage t Over).

Definition time_out (w : world) (i : nat) (t : turn) (unlink_ok : bool) : world :=
  let sid := t_sid t in
  let w := unwind w i t in
  let w := set_failed (set_sessions w (od_pop (w_sessions w) sid)) (w_failed w ∖ {[sid]}) in
  let w := bump_cleanup_epoch w sid in
  match w_pending w !! sid with
  | Some _ => set_turn w i (set_stage t Expired)
  | None => expire w i t unlink_ok
  end.

Definition cancel (w : world) (i : nat) (t : turn) : world := set_turn (unwind w i t) i (set_stage t Over).

(** ** Interleaving *)

Section Steps.
(** [MAX_SESSIONS], [_EVICT_REMOVE_TASKS_MAX] and
    [_SAVE_HISTORY_MAX_RETRIES]. *)
Variables max_sessions max_tasks : Z.
Variable retries : nat.

(** Promotion in [run_query], the reference given back, promotion again in
    [_run_inner]. *)
Definition promote (w : world) (i : nat) (t : turn) (now : Z) (unlink_ok : bool) : world :=
  let w := leave_session (track_session max_sessions max_tasks w (t_sid t) now unlink_ok) i t in
  set_turn (track_session max_sessions max_tasks w (t_sid t) now unlink_ok) i (set_stage t Over).

Definition budget_end (w : world) (i : nat) (t : turn) (now : Z) (unlink_ok : bool) : world :=
  set_turn (track_session max_sessions max_tasks w (t_sid t) now unlink_ok) i (set_stage t Over).

Inductive step : world -> world -> Prop :=
| st_begin w sid ok : step w (begin_turn w sid ok)
| st_wake w i t r ok :
    w_turns w !! i = Some t -> t_stage t = Waiting -> l_entries (w_locks w) !! t_entry t = Some r ->
    (i, true) ∈ k_waiters (r_lock r) -> step w (wake_turn w i t ok)
| st_load w i t : w_turns w !! i = Some t -> t_stage t = Loading -> step w (load w i t)
| st_save w i t raw : w_turns w !! i = Some t -> t_stage t = Streaming -> step w (begin_save retries w i t raw)
| st_open w k th : d_threads (w_disk w) !! k = Some th -> th_stage th = Pending -> step w (set_disk w (open_tmp (w_disk w) k th))
| st_open_fails w k th :
    d_threads (w_disk w) !! k = Some th -> th_stage th = Pending -> step w (set_disk w (set_thread (w_disk w) k th Broken))
| st_close w k th n ok :
    d_threads (w_disk w) !! k = Some th -> th_stage th = Open n -> step w (set_disk w (close_tmp (w_disk w) k th n ok))
| st_written w i t a k th io_ok :
    w_turns w !! i = Some t -> t_stage t = Saving a k -> d_threads (w_disk w) !! k = Some th -> th_stage th = Written ->
    step w (thread_written w i t a io_ok)
| st_broken w i t a k th :
    w_turns w !! i = Some t -> t_stage t = Saving a k -> d_threads (w_disk w) !! k = Some th -> th_stage th = Broken ->
    step w (retry_save w i t a)
| st_again w i t a : w_turns w !! i = Some t -> t_stage t = Backoff a -> step w (start_attempt w i t a)
| st_promote w i t now ok : w_turns w !! i = Some t -> t_stage t = Saved -> step w (promote w i t now ok)
| st_fail w i t mark :
    w_turns w !! i = Some t -> t_stage t = Loading \/ t_stage t = Streaming -> step w (fail_turn w i t mark)
| st_budget w i t : w_turns w !! i = Some t -> t_stage t = Streaming -> step w (exceed_budget w i t)
| st_budget_end w i t now ok : w_turns w !! i = Some t -> t_stage t = Budgeted -> step w (budget_end w i t now ok)
| st_time_out w i t ok :
    w_turns w !! i = Some t -> is_Some (phase_of (t_stage t)) -> step w (time_out w i t ok)
| st_expire w i t ok : w_turns w !! i = Some t -> t_stage t = Expired -> step w (expire w i t ok)
| st_cancel w i t : w_turns w !! i = Some t -> t_stage t <> Over -> step w (cancel w i t)
| st_evict_start w v sid :
    w_evictions w !! v = Some (sid, Created) ->
    step w (set_evictions w (<[v := (sid, match w_pending w !! sid with Some _ => AwaitingSave | None => Removing end)]>
                               (w_evictions w)))
| st_evict_waited w v sid :
    w_evictions w !! v = Some (sid, AwaitingSave) -> step w (set_evictions w (<[v := (sid, Removing)]> (w_evictions w)))
| st_evict_unlink w v sid ok :
    w_evictions w !! v = Some (sid, Removing) ->
    step w (set_evictions (unlink w sid ok) (<[v := (sid, Removed)]> (w_evictions w)))
| st_evict_end w v sid :
    w_evictions w !! v = Some (sid, Removed) -> step w (set_evictions (end_cleanup w sid) (delete v (w_evictions w))).
End Steps.

(** ** What holds of the sessions *)

Implicit Types (ts : gmap nat turn).

Definition uses ts : gmap nat use := omap use_of ts.
Definition savers ts : gmap nat (string * H * nat) := omap saver_of ts.
#[local] Arguments uses : simpl never.
#[local] Arguments savers : simpl never.

(** The turn read the file and has not replaced it yet. *)
Definition has_read (s : stage) : Prop :=
  match s with Streaming | Saving _ _ | Backoff _ => True | _ => False end.

(** The file is the one the turn read, unless it was removed; and what was read
    was saved. *)
Record base_ok (w : world) (t : turn) : Prop := {
  bo_file : d_files (w_disk w) !! t_sid t = None \/ d_files (w_disk w) !! t_sid t = t_base t;
  bo_loaded : forall h, t_loaded t = Some h -> exists n, t_base t = Some n /\
    (t_sid t ∉ w_orphaned w -> (t_sid t, n, h) ∈ w_published w)
}.

(** The world is as it should be for the turns [ts]. *)
Record fits ts (w : world) : Prop := {
  wo_locks : locks_ok (w_locks w) (uses ts);
  wo_disk : disk_ok (w_orphaned w) (w_published w) (w_disk w) (savers ts);
  wo_base : forall i t, ts !! i = Some t -> has_read (t_stage t) -> base_ok w t
}.

Definition world_ok (w : world) : Prop := fits (w_turns w) w.

Lemma uses_lookup ts i t ph :
  ts !! i = Some t -> phase_of (t_stage t) = Some ph -> uses ts !! i = Some (mk_use (t_sid t) (t_entry t) ph).
Proof. intros Ht Hp. unfold uses. rewrite lookup_omap, Ht. cbn. unfold use_of. by rewrite Hp. Qed.

Lemma uses_none ts i t : ts !! i = Some t -> phase_of (t_stage t) = None -> uses ts !! i = None.
Proof. intros Ht Hp. unfold uses. rewrite lookup_omap, Ht. cbn. unfold use_of. by rewrite Hp. Qed.

Lemma savers_lookup ts i t a k :
  ts !! i = Some t -> t_stage t = Saving a k -> savers ts !! i = Some (t_sid t, a_raw a, k).
Proof. intros Ht Hp. unfold savers. rewrite lookup_omap, Ht. cbn. unfold saver_of. by rewrite Hp. Qed.

Lemma savers_none ts i t : ts !! i = Some t -> saver_of t = None -> savers ts !! i = None.
Proof. intros Ht Hp. unfold savers. by rewrite lookup_omap, Ht. Qed.

Lemma savers_inv ts i s r k :
  savers ts !! i = Some (s, r, k) -> exists t a, ts !! i = Some t /\ t_stage t = Saving a k /\ t_sid t = s /\ a_raw a = r.
Proof.
  unfold savers. rewrite lookup_omap. destruct (ts !! i) as [t|]; [|done]. cbn. unfold saver_of.
  destruct (t_stage t) as [| | |a k'| | | | |] eqn:E; try done. intros [= <- <- <-]. by exists t, a.
Qed.

Lemma uses_insert ts i t : uses (<[i := t]> ts) = match use_of t with Some u => <[i := u]> (uses ts) | None => delete i (uses ts) end.
Proof. unfold uses. rewrite omap_insert. by destruct (use_of t). Qed.

Lemma savers_insert ts i t : savers (<[i := t]> ts) = match saver_of t with Some u => <[i := u]> (savers ts) | None => delete i (savers ts) end.
Proof. unfold savers. rewrite omap_insert. by destruct (saver_of t). Qed.

Lemma uses_delete ts i : uses (delete i ts) = delete i (uses ts).
Proof. apply omap_delete. Qed.

Lemma savers_delete ts i : savers (delete i ts) = delete i (savers ts).
Proof. apply omap_delete. Qed.

(** At most one turn of a session holds its lock. *)
Lemma one_holds ls ts i j t t' :
  locks_ok ls (uses ts) -> ts !! i = Some t -> ts !! j = Some t' -> t_sid t = t_sid t' ->
  phase_of (t_stage t) = Some Holds -> phase_of (t_stage t') = Some Holds -> i = j.
Proof.
  intros Hl Ht Ht' Hs Hp Hp'.
  by eapply (one_holder _ _ i j _ _ Hl); [eapply uses_lookup; eassumption|eapply uses_lookup; eassumption|..].
Qed.

Lemma savers_one ls ts : locks_ok ls (uses ts) -> one_saver (savers ts).
Proof.
  intros Hl i j s r k r' k' (t & a & Ht & Hs & Hsid & _)%savers_inv (t' & a' & Ht' & Hs' & Hsid' & _)%savers_inv.
  eapply (one_holds ls ts i j); eauto; [congruence|by rewrite Hs|by rewrite Hs'].
Qed.

Lemma has_read_holds s : has_read s -> phase_of s = Some Holds.
Proof. by destruct s. Qed.

(** *** Steps of the world alone *)

Lemma base_mono w w' t :
  base_ok w t -> (d_files (w_disk w') !! t_sid t = d_files (w_disk w) !! t_sid t \/ d_files (w_disk w') !! t_sid t = None) ->
  w_orphaned w ⊆ w_orphaned w' -> (forall x, x ∈ w_published w -> x ∈ w_published w') -> base_ok w' t.
Proof.
  intros [Hf Hl] Hd Ho Hp. constructor.
  - destruct Hd as [->| ->]; auto.
  - intros h (n & Hn & Hpub)%Hl. exists n. split; [done|]. intros Hor. apply Hp, Hpub. set_solver.
Qed.

(** Only tables that the turns do not depend on differ. *)
Definition same_core (w w' : world) : Prop :=
  w_turns w' = w_turns w /\ w_locks w' = w_locks w /\ w_disk w' = w_disk w /\ w_orphaned w' = w_orphaned w /\ w_published w' = w_published w.

Lemma same_core_fits w w' ts : same_core w w' -> fits ts w -> fits ts w'.
Proof.
  intros (E1 & E2 & E3 & E4 & E5) [Hl Hd Hb]. constructor; [by rewrite E2|by rewrite E3, E4, E5|].
  intros i t Ht Hr. destruct (Hb i t Ht Hr). constructor; by rewrite ?E3, ?E4, ?E5.
Qed.

Lemma set_failed_fits w x ts : fits ts w -> fits ts (set_failed w x).
Proof. by apply same_core_fits. Qed.
Lemma set_sessions_fits w x ts : fits ts w -> fits ts (set_sessions w x).
Proof. by apply same_core_fits. Qed.
Lemma set_epochs_fits w x ts : fits ts w -> fits ts (set_epochs w x).
Proof. by apply same_core_fits. Qed.
Lemma set_pending_fits w x ts : fits ts w -> fits ts (set_pending w x).
Proof. by apply same_core_fits. Qed.
Lemma set_evictions_fits w x ts : fits ts w -> fits ts (set_evictions w x).
Proof. by apply same_core_fits. Qed.
Lemma end_cleanup_fits w sid ts : fits ts w -> fits ts (end_cleanup w sid).
Proof. by apply same_core_fits. Qed.

Lemma end_save_core w a sid : same_core w (end_save w a sid).
Proof. unfold end_save. destruct (_ !! _); [case_decide|]; done. Qed.

(** A step of the disk that leaves every session's file, or removes it. *)
Lemma set_disk_fits w d ts :
  fits ts w -> disk_ok (w_orphaned w) (w_published w) d (savers ts) ->
  (forall s, d_files d !! s = d_files (w_disk w) !! s \/ d_files d !! s = None) -> fits ts (set_disk w d).
Proof.
  intros [Hl Hd Hb] Hd' Hf. constructor; [done|done|]. intros i t Ht Hr. apply (base_mono w); [by eapply Hb|apply Hf|done..].
Qed.

Lemma unlink_fits w sid ok ts : fits ts w -> fits ts (unlink w sid ok).
Proof.
  intros Hw. apply set_disk_fits; [done|apply remove_file_ok, Hw|]. intros s. destruct ok; cbn; [|by left].
  destruct (decide (sid = s)) as [->|Hne]; [right; by rewrite lookup_delete_eq|left; by rewrite lookup_delete_ne].
Qed.

Lemma evict_fits m w sid ok ts : fits ts w -> fits ts (evict m w sid ok).
Proof.
  intros Hw. unfold evict. cbv zeta. rewrite (evict_lock_id _ _ sid (wo_locks _ _ Hw)).
  assert (fits ts (bump_cleanup_epoch (set_failed (set_locks w (w_locks w)) (w_failed w ∖ {[sid]})) sid)) as Hb by (by apply (same_core_fits w)).
  case_match; [|by apply set_evictions_fits]. case_match; [by apply set_evictions_fits|]. by apply end_cleanup_fits, unlink_fits.
Qed.

Lemma track_session_fits m m' w sid now ok ts : fits ts w -> fits ts (track_session m m' w sid now ok).
Proof.
  intros Hw. unfold track_session. case_match; [by apply set_sessions_fits|]. apply set_sessions_fits. case_match; [|done].
  case_match; [done|]. case_match. by apply evict_fits, set_sessions_fits.
Qed.

Lemma track_session_turns m m' w sid now ok : w_turns (track_session m m' w sid now ok) = w_turns w.
Proof.
  unfold track_session, evict. repeat (case_match; try done).
Qed.

(** *** Steps of a turn *)

(** A turn that no longer counts: it let go of the lock and of its save. *)
Lemma leave_session_locks w i t :
  w_turns w !! i = Some t -> locks_ok (w_locks w) (uses (w_turns w)) ->
  locks_ok (w_locks (leave_session w i t)) (uses (delete i (w_turns w))).
Proof.
  intros Ht Hl. rewrite uses_delete. unfold leave_session. destruct (phase_of (t_stage t)) as [ph|] eqn:Hp.
  - pose proof (uses_lookup _ i t ph Ht Hp) as Hu. pose proof (leave_use _ _ _ _ _ _ Hl Hu) as Hl'.
    assert (<[i := mk_use (t_sid t) (t_entry t) Past]> (uses (w_turns w)) !! i = Some (mk_use (t_sid t) (t_entry t) Past)) as Hi
      by apply lookup_insert_eq.
    pose proof (release_use _ _ _ _ _ Hl' Hi) as Hr. by rewrite delete_insert_eq in Hr.
  - rewrite delete_id; [done|]. by eapply uses_none.
Qed.

Lemma leave_session_core w i t : w_turns (leave_session w i t) = w_turns w.
Proof. unfold leave_session. by destruct (phase_of _). Qed.

Lemma leave_session_fits w i t :
  w_turns w !! i = Some t -> locks_ok (w_locks w) (uses (w_turns w)) ->
  disk_ok (w_orphaned w) (w_published w) (w_disk w) (delete i (savers (w_turns w))) ->
  (forall j t', j <> i -> w_turns w !! j = Some t' -> has_read (t_stage t') -> base_ok w t') ->
  fits (delete i (w_turns w)) (leave_session w i t).
Proof.
  intros Ht Hl Hd Hb. constructor; [by apply leave_session_locks|rewrite savers_delete; unfold leave_session; by destruct (phase_of _)|].
  intros j t' [Hne Hj]%lookup_delete_Some Hr. apply (base_mono w); [eapply Hb; eauto|..]; unfold leave_session; destruct (phase_of _); auto.
Qed.

Lemma gone_ok w i t s :
  fits (delete i (w_turns w)) w -> phase_of s = None -> world_ok (set_turn w i (set_stage t s)).
Proof.
  intros [Hl Hd Hb] Hp. constructor.
  - cbn. rewrite uses_insert. unfold use_of. cbn. by rewrite Hp, <-uses_delete.
  - cbn. rewrite savers_insert. unfold saver_of. cbn. destruct s; try done; by rewrite <-savers_delete.
  - cbn. intros j t' [[<- <-]|[Hne Hj]]%lookup_insert_Some Hr; [apply has_read_holds in Hr; cbn in Hr; congruence|].
    assert (base_ok w t') as [] by (eapply Hb; [by rewrite lookup_delete_ne|done]). by constructor.
Qed.

(** A turn that is not saving leaves. *)
Lemma quit_fits w i t :
  world_ok w -> w_turns w !! i = Some t -> saver_of t = None -> fits (delete i (w_turns w)) (leave_session w i t).
Proof.
  intros [Hl Hd Hb] Ht Hs. apply leave_session_fits; [done..| |eauto]. rewrite delete_id; [done|]. by eapply savers_none.
Qed.

(** A turn that holds the lock moves on, holding it. *)
Lemma holds_uses w i t t' :
  w_turns w !! i = Some t -> use_of t' = use_of t -> uses (<[i := t']> (w_turns w)) = uses (w_turns w).
Proof.
  intros Ht E. rewrite uses_insert, E. destruct (use_of t) as [u|] eqn:Hu; [apply insert_id|apply delete_id];
    unfold uses; rewrite lookup_omap, Ht; done.
Qed.

Lemma set_turn_ok w i t :
  locks_ok (w_locks w) (uses (<[i := t]> (w_turns w))) ->
  disk_ok (w_orphaned w) (w_published w) (w_disk w) (savers (<[i := t]> (w_turns w))) ->
  (has_read (t_stage t) -> base_ok w t) ->
  (forall j t', j <> i -> w_turns w !! j = Some t' -> has_read (t_stage t') -> base_ok w t') ->
  world_ok (set_turn w i t).
Proof.
  intros Hl Hd Hb Ho. constructor; [done|done|]. cbn [w_turns set_turn]. intros j t' [[<- <-]|[Hne Hj]]%lookup_insert_Some Hr.
  - destruct (Hb Hr). by constructor.
  - destruct (Ho j t' (not_eq_sym Hne) Hj Hr). by constructor.
Qed.

Lemma locked_ok w i t ok :
  locks_ok (w_locks w) (<[i := mk_use (t_sid t) (t_entry t) Holds]> (uses (w_turns w))) ->
  disk_ok (w_orphaned w) (w_published w) (w_disk w) (delete i (savers (w_turns w))) ->
  (forall j t', j <> i -> w_turns w !! j = Some t' -> has_read (t_stage t') -> base_ok w t') ->
  world_ok (locked w i t ok).
Proof.
  intros Hl Hd Hb. unfold locked. case_decide; cbv zeta; apply set_turn_ok; rewrite ?uses_insert, ?savers_insert; cbn; try done.
  - by apply remove_file_ok.
  - intros _. constructor; cbn; [by right|done].
  - intros j t' Hne Hj Hr. apply (base_mono w); [by eapply Hb| |done|done]. cbn. destruct ok; cbn; [|by left].
    destruct (decide (t_sid t = t_sid t')) as [->|]; [right; by rewrite lookup_delete_eq|left; by rewrite lookup_delete_ne].
Qed.

Lemma begin_turn_ok w sid ok : world_ok w -> world_ok (begin_turn w sid ok).
Proof.
  intros [Hl Hd Hb]. unfold begin_turn. cbv zeta. set (i := fresh _).
  assert (w_turns w !! i = None) as Hi by apply not_elem_of_dom, is_fresh. clearbody i.
  assert (uses (w_turns w) !! i = None) as Hu by (unfold uses; by rewrite lookup_omap, Hi).
  assert (delete i (savers (w_turns w)) = savers (w_turns w)) as Hs by (apply delete_id; unfold savers; by rewrite lookup_omap, Hi).
  pose proof (enter_use _ _ sid i Hl Hu) as He. destruct (enter (w_locks w) sid i) as [[e got] ls].
  assert (forall j t', w_turns w !! j = Some t' -> has_read (t_stage t') -> base_ok (set_locks w ls) t') as Hb'.
  { intros j t' Hj Hr. apply (base_mono w); [by eapply Hb|auto..]. }
  destruct got.
  - apply locked_ok; cbn; [done|by rewrite Hs|eauto].
  - apply set_turn_ok; cbn; [by rewrite uses_insert|rewrite savers_insert; cbn; by rewrite Hs|done|eauto].
Qed.

Lemma wake_turn_ok w i t r ok :
  world_ok w -> w_turns w !! i = Some t -> t_stage t = Waiting -> l_entries (w_locks w) !! t_entry t = Some r ->
  (i, true) ∈ k_waiters (r_lock r) -> world_ok (wake_turn w i t ok).
Proof.
  intros [Hl Hd Hb] Ht Hs Hr Hw. apply locked_ok; cbn.
  - apply (resume_use _ _ _ _ _ Hl); [by eapply uses_lookup; [|rewrite Hs]|]. intros r' Hr'. congruence.
  - rewrite delete_id; [done|]. eapply savers_none; [done|]. unfold saver_of. by rewrite Hs.
  - intros j t' _ Hj Hrd. apply (base_mono w); [by eapply Hb|auto..].
Qed.

Lemma load_ok w i t : world_ok w -> w_turns w !! i = Some t -> t_stage t = Loading -> world_ok (load w i t).
Proof.
  intros [Hl Hd Hb] Ht Hs. apply set_turn_ok.
  - rewrite (holds_uses w i t); [done..|]. unfold use_of. cbn. by rewrite Hs.
  - rewrite savers_insert. cbn. rewrite delete_id; [done|]. eapply savers_none; [done|]. unfold saver_of. by rewrite Hs.
  - intros _. constructor; cbn; [by right|]. intros h Hh. unfold read_file in Hh.
    destruct (d_files (w_disk w) !! t_sid t) as [n|] eqn:Hn; [|done]. exists n. split; [done|]. intros Hor. cbn in Hh.
    destruct (dk_file _ _ _ _ Hd _ _ Hn) as (nd & Hnd & _ & Hwh). destruct (Hwh Hor) as (h' & Hpub & Htext).
    rewrite Hnd in Hh. cbn in Hh. rewrite Htext in Hh. by simplify_eq.
  - eauto.
Qed.

Lemma start_attempt_ok w i t a :
  world_ok w -> w_turns w !! i = Some t -> has_read (t_stage t) -> saver_of t = None -> world_ok (start_attempt w i t a).
Proof.
  intros [Hl Hd Hb] Ht Hr Hs. unfold start_attempt.
  pose proof (start_thread_ok _ _ _ _ i (t_sid t) (a_raw a) Hd (savers_none _ _ _ Ht Hs)) as Hd'.
  destruct (start_thread (w_disk w) (t_sid t) (a_raw a)) as [k d] eqn:E.
  assert (d_files d = d_files (w_disk w)) as Hf by (unfold start_thread in E; by simplify_eq/=).
  assert (forall t', base_ok w t' -> base_ok (set_disk w d) t') as Hmono.
  { intros t' Hb'. apply (base_mono w); [done| |done|done]. left. cbn. by rewrite Hf. }
  apply set_turn_ok; cbn.
  - rewrite (holds_uses w i t); [done..|]. unfold use_of. cbn. by rewrite (has_read_holds _ Hr).
  - by rewrite savers_insert.
  - intros _. destruct (Hmono t) as []; [by eapply Hb|]. by constructor.
  - intros j t' _ Hj Hr'. apply Hmono. by eapply Hb.
Qed.

(** The end of a save, whatever became of its thread. *)
Lemma finish_save_ok w i t a ok :
  w_turns w !! i = Some t -> phase_of (t_stage t) = Some Holds -> locks_ok (w_locks w) (uses (w_turns w)) ->
  disk_ok (w_orphaned w) (w_published w) (w_disk w) (delete i (savers (w_turns w))) ->
  (forall j t', j <> i -> w_turns w !! j = Some t' -> has_read (t_stage t') -> base_ok w t') ->
  world_ok (finish_save w i t a ok).
Proof.
  intros Ht Hp Hl Hd Hb. unfold finish_save. cbv zeta.
  destruct (end_save_core w a (t_sid t)) as (E1 & E2 & E3 & E4 & E5). set (w1 := end_save w a (t_sid t)) in *.
  apply set_turn_ok; cbn; rewrite ?E1, ?E2, ?E3, ?E4, ?E5, ?uses_insert, ?savers_insert; [|done|done|].
  - apply (leave_use _ _ i (t_sid t) (t_entry t) Holds Hl). by apply uses_lookup.
  - intros j t' Hne Hj Hr. apply (base_mono w); [by eapply Hb|..]; cbn; rewrite ?E3, ?E4, ?E5; auto.
Qed.

Lemma begin_save_ok retries w i t raw :
  world_ok w -> w_turns w !! i = Some t -> t_stage t = Streaming -> world_ok (begin_save retries w i t raw).
Proof.
  intros Hw Ht Hs. unfold begin_save. cbv zeta. set (w1 := mk_world _ _ _ _ _ _ _ _ _ _ _).
  assert (fits (w_turns w1) w1) as Hw1 by (by apply (same_core_fits w)).
  assert (saver_of t = None) as Hn by (unfold saver_of; by rewrite Hs).
  destruct retries; [|apply start_attempt_ok; [done..|by rewrite Hs|done]].
  apply finish_save_ok; [done|by rewrite Hs|apply Hw1| |].
  - rewrite delete_id; [apply Hw1|]. by eapply savers_none.
  - intros j t' _. apply Hw1.
Qed.

(** The thread of the turn ended: the turn no longer depends on it. *)
Lemma thread_ended w i t a k th :
  world_ok w -> w_turns w !! i = Some t -> t_stage t = Saving a k -> d_threads (w_disk w) !! k = Some th -> ended th ->
  disk_ok (w_orphaned w) (w_published w) (w_disk w) (delete i (savers (w_turns w))) /\
  no_saver (delete i (savers (w_turns w))) (t_sid t).
Proof.
  intros [Hl Hd _] Ht Hs Hk He. pose proof (savers_lookup _ _ _ _ _ Ht Hs) as Hi. split; [by eapply drop_saver_ok|].
  eapply dropped_none; [by eapply savers_one|done].
Qed.

Lemma retry_save_ok w i t a k th :
  world_ok w -> w_turns w !! i = Some t -> t_stage t = Saving a k -> d_threads (w_disk w) !! k = Some th -> ended th ->
  world_ok (retry_save w i t a).
Proof.
  intros Hw Ht Hs Hk He. destruct (thread_ended _ _ _ _ _ _ Hw Ht Hs Hk He) as [Hd _]. destruct Hw as [Hl _ Hb].
  unfold retry_save. destruct (a_left a) as [|n].
  - apply finish_save_ok; [done|by rewrite Hs|done|done|eauto].
  - apply set_turn_ok; [|by rewrite savers_insert| |eauto].
    + rewrite (holds_uses w i t); [done..|]. unfold use_of. cbn. by rewrite Hs.
    + intros _. destruct (Hb i t Ht) as []; [by rewrite Hs|]. by constructor.
Qed.

Lemma thread_written_ok w i t a k th io_ok :
  world_ok w -> w_turns w !! i = Some t -> t_stage t = Saving a k -> d_threads (w_disk w) !! k = Some th ->
  th_stage th = Written -> world_ok (thread_written w i t a io_ok).
Proof.
  intros Hw Ht Hs Hk Hst. assert (ended th) as He by (by left).
  pose proof (thread_ended _ _ _ _ _ _ Hw Ht Hs Hk He) as [Hd Hno].
  pose proof (retry_save_ok _ _ _ _ _ _ Hw Ht Hs Hk He) as Hretry.
  assert (phase_of (t_stage t) = Some Holds) as Hp by (by rewrite Hs).
  destruct Hw as [Hl Hd0 Hb]. unfold thread_written. cbv zeta. case_decide; [|destruct io_ok; [|done]].
  - destruct io_ok; [|done]. destruct (replace_file (w_disk w) (t_sid t)) as [[n d]|] eqn:Hr; [|done].
    apply finish_save_ok; cbn; [done..| |].
    + eapply replace_ok; [done..|]. intros Hor.
      destruct (dk_saver _ _ _ _ Hd0 _ _ _ _ (savers_lookup _ _ _ _ _ Ht Hs)) as (th' & Hk' & _ & _ & Hwr).
      assert (th' = th) as -> by congruence. destruct (Hwr Hor Hst) as (m & nd & Hm & Hnd & Hwh).
      unfold replace_file in Hr. rewrite Hm in Hr. simplify_eq/=. by exists nd.
    + intros j t' Hne Hj Hrd. assert (t_sid t <> t_sid t') as Hsid.
      { intros Hsid. apply Hne. symmetry. eapply (one_holds _ _ i j t t'); eauto. by apply has_read_holds. }
      apply (base_mono w); [by eapply Hb| |done|]; cbn; [left|set_solver].
      unfold replace_file in Hr. destruct (d_tmps (w_disk w) !! t_sid t); simplify_eq/=. by rewrite lookup_insert_ne.
  - apply finish_save_ok; cbn; [done..|by apply remove_tmp_ok|].
    intros j t' _ Hj Hrd. apply (base_mono w); [by eapply Hb|auto..].
Qed.

(** *** Exits *)

Lemma fail_turn_ok w i t mark :
  world_ok w -> w_turns w !! i = Some t -> saver_of t = None -> world_ok (fail_turn w i t mark).
Proof.
  intros Hw Ht Hs. unfold fail_turn. cbv zeta. set (w1 := if mark then _ else w).
  assert (world_ok w1 /\ w_turns w1 = w_turns w) as [Hw1 E] by (subst w1; destruct mark; [split; [by apply set_failed_fits|]|]; done).
  rewrite <-E in Ht. pose proof (quit_fits _ _ _ Hw1 Ht Hs) as Hq. rewrite <-(leave_session_core w1 i t) in Hq.
  apply gone_ok; [|done]. case_match; [done|]. by apply set_pending_fits, set_epochs_fits.
Qed.

Lemma exceed_budget_ok w i t :
  world_ok w -> w_turns w !! i = Some t -> saver_of t = None -> world_ok (exceed_budget w i t).
Proof.
  intros Hw Ht Hs. unfold exceed_budget. set (w1 := set_failed _ _). apply gone_ok; [|done]. rewrite leave_session_core.
  apply (quit_fits w1); [by apply set_failed_fits|done..].
Qed.

Lemma unwind_core w i t : w_turns (unwind w i t) = w_turns w.
Proof.
  unfold unwind. rewrite leave_session_core. destruct (t_stage t) as [| | |a k|a| | | |]; try done.
  - destruct (end_save_core w a (t_sid t)) as (E & _). cbv zeta. repeat case_match; done.
  - by destruct (end_save_core w a (t_sid t)) as (E & _).
Qed.

Lemma unwind_fits w i t :
  world_ok w -> w_turns w !! i = Some t -> fits (delete i (w_turns (unwind w i t))) (unwind w i t).
Proof.
  intros Hw Ht. rewrite unwind_core. unfold unwind. destruct (saver_of t) as [[[s raw] k']|] eqn:Hs.
  - unfold saver_of in Hs. destruct (t_stage t) as [| | |a k| | | | |] eqn:Hst; try done. clear Hs.
    pose proof (savers_lookup _ _ _ _ _ Ht Hst) as Hi. cbv zeta. set (w1 := end_save w a (t_sid t)).
    assert (same_core w w1) as Hc by apply end_save_core. pose proof (same_core_fits _ _ _ Hc Hw) as [Hl1 Hd1 Hb1].
    destruct Hc as (E1 & _). rewrite <-E1 in *.
    match goal with |- context [leave_session ?w' i t] => set (w2 := w') end.
    assert (w_turns w2 = w_turns w1 /\ w_locks w2 = w_locks w1 /\ d_files (w_disk w2) = d_files (w_disk w1) /\
            w_orphaned w1 ⊆ w_orphaned w2 /\ w_published w2 = w_published w1 /\
            disk_ok (w_orphaned w2) (w_published w2) (w_disk w2) (delete i (savers (w_turns w1)))) as (F1 & F2 & F3 & F4 & F5 & F6).
    { subst w2. destruct (d_threads (w_disk w1) !! k) as [[s1 r1 st]|] eqn:Hk.
      - assert (st = Written \/ st = Broken -> disk_ok (w_orphaned w1) (w_published w1) (w_disk w1) (delete i (savers (w_turns w1)))) as Hend
          by (intros He; exact (drop_saver_ok _ _ _ _ _ _ _ _ _ Hd1 Hi Hk He)).
        destruct st; cbn; split_and!; try done; try set_solver; try (by eapply orphan_ok); apply Hend; auto.
      - cbn. split_and!; try done; [set_solver|by eapply orphan_ok]. }
    rewrite <-F1. apply leave_session_fits; rewrite ?F1, ?F2; [done..|].
    intros j t' Hne Hj Hr. apply (base_mono w1); [by eapply Hb1|left; by rewrite F3|done|by rewrite F5].
  - assert (forall w', same_core w w' -> fits (delete i (w_turns w)) (leave_session w' i t)) as Hq.
    { intros w' Hc. pose proof Hc as (E1 & _). rewrite <-E1. apply quit_fits; [|by rewrite E1|done].
      unfold world_ok. rewrite E1. by apply (same_core_fits w). }
    destruct (t_stage t) as [| | |a k|a| | | |] eqn:Hst; try (by apply Hq).
    + unfold saver_of in Hs. by rewrite Hst in Hs.
    + apply Hq, end_save_core.
Qed.

Lemma expire_ok w i t ok : fits (delete i (w_turns w)) w -> world_ok (expire w i t ok).
Proof. intros Hw. unfold expire. cbv zeta. apply gone_ok; [|done]. by apply set_pending_fits, end_cleanup_fits, unlink_fits. Qed.

Lemma over_fits w i t :
  world_ok w -> w_turns w !! i = Some t -> phase_of (t_stage t) = None -> fits (delete i (w_turns w)) w.
Proof.
  intros [Hl Hd Hb] Ht Hp. constructor.
  - rewrite uses_delete, delete_id; [done|]. by eapply uses_none.
  - rewrite savers_delete, delete_id; [done|]. eapply savers_none; [done|]. unfold saver_of. by destruct (t_stage t).
  - intros j t' [_ Hj]%lookup_delete_Some Hr. by eapply Hb.
Qed.

Lemma time_out_ok w i t ok : world_ok w -> w_turns w !! i = Some t -> world_ok (time_out w i t ok).
Proof.
  intros Hw Ht. pose proof (unwind_fits w i t Hw Ht) as Hu. unfold time_out. cbv zeta.
  set (w1 := bump_cleanup_epoch _ _). assert (fits (delete i (w_turns w1)) w1) as Hw1 by (by apply (same_core_fits (unwind w i t))).
  case_match; [by apply gone_ok|by apply expire_ok].
Qed.

Lemma cancel_ok w i t : world_ok w -> w_turns w !! i = Some t -> world_ok (cancel w i t).
Proof. intros Hw Ht. apply gone_ok; [by apply unwind_fits|done]. Qed.

Section StepLemmas.
Variables (max_sessions max_tasks : Z) (retries : nat).

Lemma promote_ok w i t now ok :
  world_ok w -> w_turns w !! i = Some t -> t_stage t = Saved -> world_ok (promote max_sessions max_tasks w i t now ok).
Proof.
  intros Hw Ht Hs. unfold promote. cbv zeta. set (w1 := track_session _ _ w _ _ _).
  assert (w_turns w1 = w_turns w) as E by apply track_session_turns.
  apply gone_ok; [|done]. rewrite track_session_turns, leave_session_core. apply track_session_fits, quit_fits; [|by rewrite E|].
  - unfold world_ok. rewrite E. by apply track_session_fits.
  - unfold saver_of. by rewrite Hs.
Qed.

Lemma budget_end_ok w i t now ok :
  world_ok w -> w_turns w !! i = Some t -> t_stage t = Budgeted -> world_ok (budget_end max_sessions max_tasks w i t now ok).
Proof.
  intros Hw Ht Hs. unfold budget_end. apply gone_ok; [|done]. rewrite track_session_turns. apply track_session_fits.
  apply (over_fits w i t); [done..|by rewrite Hs].
Qed.

Lemma thread_step_ok w d :
  world_ok w -> d_files d = d_files (w_disk w) -> disk_ok (w_orphaned w) (w_published w) d (savers (w_turns w)) ->
  world_ok (set_disk w d).
Proof. intros Hw Hf Hd. apply set_disk_fits; [done..|]. intros s. left. by rewrite Hf. Qed.

Lemma session_step_ok w w' : world_ok w -> step max_sessions max_tasks retries w w' -> world_ok w'.
Proof.
  intros Hw Hst. pose proof (savers_one _ _ (wo_locks _ _ Hw)) as H1. pose proof (wo_disk _ _ Hw) as Hd.
  assert (forall t s, t_stage t = s -> saver_of t = match s with Saving a k => Some (t_sid t, a_raw a, k) | _ => None end) as Hsv
    by (by intros t s <-).
  destruct Hst.
  - by apply begin_turn_ok.
  - by eapply wake_turn_ok.
  - by apply load_ok.
  - by apply begin_save_ok.
  - by apply thread_step_ok, open_tmp_ok.
  - by apply thread_step_ok; [..|eapply open_fails_ok].
  - by apply thread_step_ok; [..|eapply close_tmp_ok].
  - by eapply thread_written_ok.
  - eapply retry_save_ok; eauto. by right.
  - apply start_attempt_ok; [done..|by rewrite H2|by rewrite (Hsv _ _ H2)].
  - by apply promote_ok.
  - apply fail_turn_ok; [done..|]. destruct H2 as [E|E]; by rewrite (Hsv _ _ E).
  - apply exceed_budget_ok; [done..|]. by rewrite (Hsv _ _ H2).
  - by apply budget_end_ok.
  - by apply time_out_ok.
  - apply expire_ok, (over_fits w i t); [done..|by rewrite H2].
  - by apply cancel_ok.
  - by apply set_evictions_fits.
  - by apply set_evictions_fits.
  - by apply set_evictions_fits, unlink_fits.
  - by apply set_evictions_fits, end_cleanup_fits.
Qed.
End StepLemmas.

(** ** Properties *)

(** A process that starts: no turn, no lock, no thread; the files it finds are
    whole, temporary files may have been left behind. *)
Record started (w : world) : Prop := {
  sw_turns : w_turns w = ∅;
  sw_locks : w_locks w = mk_locks ∅ ∅;
  sw_threads : d_threads (w_disk w) = ∅;
  sw_open : forall n nd, d_inodes (w_disk w) !! n = Some nd -> n_open nd = ∅;
  sw_files : forall s n, d_files (w_disk w) !! s = Some n -> exists nd h, d_inodes (w_disk w) !! n = Some nd /\
    n_sid nd = s /\ (s, n, h) ∈ w_published w /\ n_text nd = Whole h;
  sw_tmps : forall s n, d_tmps (w_disk w) !! s = Some n -> d_files (w_disk w) !! s <> Some n /\
    exists nd, d_inodes (w_disk w) !! n = Some nd /\ n_sid nd = s
}.

Lemma started_ok w : started w -> world_ok w.
Proof.
  intros [Ht Hl Hth Ho Hf Htm]. unfold world_ok. rewrite Ht. constructor; [rewrite Hl| |by intros i t Hi].
  - by constructor.
  - constructor.
    + intros s n Hn. destruct (Hf s n Hn) as (nd & h & ? & ? & ? & ?). exists nd. split_and!; [done..|]. intros _. by exists h.
    + done.
    + intros k th n. by rewrite Hth.
    + intros n nd k Hn. rewrite (Ho n nd Hn). set_solver.
    + intros k th. by rewrite Hth.
    + by intros i s raw k Hi.
Qed.

Section Properties.
Variables (max_sessions max_tasks : Z) (retries : nat).

Lemma session_reachable_ok w0 w : started w0 -> rtc (step max_sessions max_tasks retries) w0 w -> world_ok w.
Proof.
  intros H0 Hr. revert w Hr. apply (rtc_ind_r world_ok); [by apply started_ok|]. intros w w' _ Hst Hw. by eapply session_step_ok.
Qed.

Lemma uses_inv ts i u : uses ts !! i = Some u -> exists t, ts !! i = Some t /\ phase_of (t_stage t) = Some (u_phase u) /\ u_sid u = t_sid t /\ u_entry u = t_entry t.
Proof.
  unfold uses. rewrite lookup_omap. destruct (ts !! i) as [t|]; [|done]. cbn. unfold use_of.
  destruct (phase_of (t_stage t)) as [ph|] eqn:Hp; [|done]. intros [= <-]. by exists t.
Qed.

(** C35: However turns, time limits, cancellations, evictions and cleanups
    interleave, at most one turn of a session is between the acquisition of its
    lock and the end of its save; an entry of the table of locks counts exactly
    the turns that use it, so it is dropped with the last of them and no two
    turns of a session ever use different locks; and when a turn waits while
    none of its session holds the lock, some turn of the session was woken and
    can take it. *)
Theorem turns_exclusive w0 w :
  started w0 -> rtc (step max_sessions max_tasks retries) w0 w ->
  (forall i j t t', w_turns w !! i = Some t -> w_turns w !! j = Some t' -> t_sid t = t_sid t' ->
     phase_of (t_stage t) = Some Holds -> phase_of (t_stage t') = Some Holds -> i = j) /\
  (forall sid e, l_table (w_locks w) !! sid = Some e -> exists r, l_entries (w_locks w) !! e = Some r /\
     r_count r = Z.of_nat (map_count (uses_entry e) (uses (w_turns w))) /\ 0 < r_count r) /\
  (forall i t, w_turns w !! i = Some t -> is_Some (phase_of (t_stage t)) ->
     l_table (w_locks w) !! t_sid t = Some (t_entry t)) /\
  (forall i t, w_turns w !! i = Some t -> t_stage t = Waiting ->
     (forall j t', w_turns w !! j = Some t' -> t_sid t' = t_sid t -> phase_of (t_stage t') <> Some Holds) ->
     exists j t', w_turns w !! j = Some t' /\ t_sid t' = t_sid t /\ t_stage t' = Waiting /\
       forall ok, step max_sessions max_tasks retries w (wake_turn w j t' ok)).
Proof.
  intros H0 Hr. pose proof (wo_locks _ _ (session_reachable_ok _ _ H0 Hr)) as Hl. split_and!.
  - intros i j t t' Hi Hj. by apply (one_holds _ _ i j t t' Hl).
  - intros sid e He. destruct (ls_ref _ _ Hl sid e He) as (r & ? & ? & ? & _). by exists r.
  - intros i t Ht [ph Hp]. by apply (ls_use _ _ Hl i _ (uses_lookup _ _ _ _ Ht Hp)).
  - intros i t Ht Hs Hno. assert (phase_of (t_stage t) = Some Waits) as Hp by (by rewrite Hs).
    pose proof (uses_lookup _ _ _ _ Ht Hp) as Hu.
    destruct (waiter_woken _ _ _ _ Hl Hu eq_refl) as (r & j & Hre & Hj).
    { intros j v (t' & Ht' & Hp' & Hsid & _)%uses_inv E Eh. rewrite Eh in Hp'. apply (Hno j t'); [done| |done]. cbn in E. congruence. }
    destruct (locks_entry _ _ _ _ Hl Hu) as (r' & Hr' & [_ Hw _ _]). assert (r' = r) as -> by congruence.
    destruct (proj1 (Hw j)) as (u & Hju & Hue & Hup); [by apply (list_elem_of_fmap_2 fst _ _ Hj)|].
    destruct (uses_inv _ _ _ Hju) as (t' & Ht' & Hp' & Hsid & Hent). rewrite Hup in Hp'. cbn in Hue, Hre.
    assert (t_stage t' = Waiting) as Hw' by (by destruct (t_stage t')).
    exists j, t'. split_and!; [done| |done|].
    + eapply (ls_inj _ _ Hl); [|by apply (ls_use _ _ Hl i _ Hu)]. rewrite <-Hsid. cbn. rewrite <-Hue. by apply (ls_use _ _ Hl j).
    + intros ok. apply (st_wake _ _ _ w j t' r); [done..| |done]. by rewrite <-Hent, Hue.
Qed.

(** C36: A turn that read the history of its session finds, until its own save
    is published, either the very file it read or no file (a cleanup removed
    it): no save of another turn comes between, so what it publishes replaces
    nothing it did not know; what it read is a save that was published. While no
    turn of the session was interrupted with its writer thread running, the
    session's file is all of a published save, and the temporary file holds all
    of the turn's own text when the turn is about to publish it. *)
Theorem no_lost_update w0 w :
  started w0 -> rtc (step max_sessions max_tasks retries) w0 w ->
  (forall i t, w_turns w !! i = Some t -> has_read (t_stage t) ->
     (d_files (w_disk w) !! t_sid t = None \/ d_files (w_disk w) !! t_sid t = t_base t) /\
     (forall h, t_loaded t = Some h -> exists n, t_base t = Some n /\
        (t_sid t ∉ w_orphaned w -> (t_sid t, n, h) ∈ w_published w))) /\
  (forall sid n, sid ∉ w_orphaned w -> d_files (w_disk w) !! sid = Some n ->
     exists h, (sid, n, h) ∈ w_published w /\ read_file (w_disk w) sid = Some h) /\
  (forall i t a k th, w_turns w !! i = Some t -> t_stage t = Saving a k -> t_sid t ∉ w_orphaned w ->
     d_threads (w_disk w) !! k = Some th -> th_stage th = Written ->
     exists n d, replace_file (w_disk w) (t_sid t) = Some (n, d) /\ read_file d (t_sid t) = Some (a_raw a)).
Proof.
  intros H0 Hr. pose proof (session_reachable_ok _ _ H0 Hr) as [_ Hd Hb]. split_and!.
  - intros i t Ht Hrd. by destruct (Hb i t Ht Hrd).
  - intros sid n Hor Hn. destruct (dk_file _ _ _ _ Hd sid n Hn) as (nd & Hnd & _ & Hwh). destruct (Hwh Hor) as (h & Hpub & Htx).
    exists h. split; [done|]. unfold read_file. rewrite Hn. cbn. rewrite Hnd. cbn. by rewrite Htx.
  - intros i t a k th Ht Hs Hor Hk Hst.
    destruct (dk_saver _ _ _ _ Hd _ _ _ _ (savers_lookup _ _ _ _ _ Ht Hs)) as (th' & Hk' & _ & _ & Hwr).
    assert (th' = th) as -> by congruence. destruct (Hwr Hor Hst) as (n & nd & Hn & Hnd & Htx).
    unfold replace_file. rewrite Hn. cbn. eexists n, _. split; [done|]. unfold read_file. cbn. rewrite lookup_insert_eq. cbn.
    rewrite Hnd. cbn. by rewrite Htx.
Qed.
End Properties.
End Sessions.
Arguments attempt : clear implicits.
Arguments stage : clear implicits.
Arguments turn : clear implicits.
Arguments world : clear implicits.

(** ** Runs *)

Module Runs.

(** The session ["s"] has a file with the history [7]. *)
Definition boot : world nat :=
  mk_world ∅ (mk_locks ∅ ∅) [] ∅ ∅ ∅ 0 ∅ (mk_disk {[0%nat := mk_inode "s" (Whole 7%nat) ∅ false]} {["s" := 0%nat]} ∅ ∅) ∅
    [("s", 0%nat, 7%nat)].

Lemma boot_started : started boot.
Proof.
  constructor; try reflexivity.
  - intros n nd. cbn. by intros [_ <-]%lookup_singleton_Some.
  - intros s n. cbn. intros [<- <-]%lookup_singleton_Some. eexists _, 7%nat. split_and!; [done|done|set_solver|done].
  - by intros s n.
Qed.

(** A step of a turn, of a thread, of an eviction. *)
Definition by_turn (i : nat) (f : world nat -> nat -> turn nat -> world nat) (w : world nat) : world nat :=
  match w_turns w !! i with Some t => f w i t | None => w end.

Definition by_thread (k : nat) (f : disk nat -> nat -> thread nat -> disk nat) (w : world nat) : world nat :=
  match d_threads (w_disk w) !! k with Some th => set_disk w (f (w_disk w) k th) | None => w end.

Definition opens (k : nat) : world nat -> world nat := by_thread k open_tmp.

Definition closes (k : nat) : world nat -> world nat :=
  by_thread k (fun d k th => match th_stage th with Open n => close_tmp d k th n true | _ => d end).

Definition begins (sid : string) (w : world nat) : world nat := begin_turn w sid true.
Definition wakes (i : nat) : world nat -> world nat := by_turn i (fun w i t => wake_turn w i t true).
Definition loads (i : nat) : world nat -> world nat := by_turn i load.
Definition saves (i raw : nat) : world nat -> world nat := by_turn i (fun w i t => begin_save 3 w i t raw).

Definition publishes (i : nat) : world nat -> world nat :=
  by_turn i (fun w i t => match t_stage t with Saving a _ => thread_written w i t a true | _ => w end).

Definition promotes (i : nat) (now : Z) : world nat -> world nat := by_turn i (fun w i t => promote 1 10 w i t now true).
Definition times_out (i : nat) : world nat -> world nat := by_turn i (fun w i t => time_out w i t true).

(** The deferred removal [v] runs to its end, its wait for the save having
    timed out. *)
Definition removes (v : nat) (w : world nat) : world nat :=
  match w_evictions w !! v with
  | Some (sid, Created) => set_evictions (end_cleanup (unlink w sid true) sid) (delete v (w_evictions w))
  | _ => w
  end.

Fixpoint run (fs : list (world nat -> world nat)) (w : world nat) : world nat :=
  match fs with [] => w | f :: fs => run fs (f w) end.

(** What became of a session: its history on disk, and whether the file of the
    session is known to the LRU. *)
Definition history (w : world nat) (sid : string) : option nat := read_file (w_disk w) sid.

(** Two turns of a session: the second waits, then reads what the first saved. *)
Definition first_turn : list (world nat -> world nat) := [begins "s"; begins "s"; loads 0; saves 0 8; opens 0; closes 0].

Example second_reads_first :
  let w := run (first_turn ++ [publishes 0; wakes 1; loads 1]) boot in
  history w "s" = Some 8%nat /\ (t_loaded <$> w_turns w !! 1%nat) = Some (Some 8%nat).
Proof. vm_compute. done. Qed.

(** The first save of session [s] ends in time and the turn is promoted; the
    next one is writing when another session evicts [s], and the removal of the
    file gives up waiting for it: the counter of epochs is back where the
    writer found it, and the history of the evicted session comes back. *)
Example evicted_file_returns :
  let w := run (first_turn ++
    [publishes 0; promotes 0 1; wakes 1; loads 1; saves 1 9; opens 1; begins "t"; loads 2; saves 2 5; opens 2; closes 2;
     publishes 2; promotes 2 2; removes 0]) boot in
  history w "s" = None /\ od_get (w_sessions w) "s" = None /\ w_evictions w = ∅ /\ epoch w "s" = 0 /\
  history (run [closes 1; publishes 1] w) "s" = Some 9%nat.
Proof. vm_compute. done. Qed.

(** A turn times out while its thread writes; the next turn of the session
    opens the same temporary file, and publishes what both wrote to it. *)
Example interrupted_writer_tears :
  let w := run [begins "s"; loads 0; saves 0 8; opens 0; times_out 0; begins "s"; loads 1; saves 1 9; opens 1; closes 1;
    publishes 1] boot in
  (t_stage <$> w_turns w !! 1%nat) = Some Saved /\ ("s" ∈ w_failed w -> False) /\
  is_Some (d_files (w_disk w) !! "s") /\ history w "s" = None.
Proof. vm_compute. split_and!; [done|done|by eexists|done]. Qed.
End Runs.

Lemma by_turn_step w i f (ok : turn nat -> bool) :
  match w_turns w !! i with Some t => ok t | None => false end = true ->
  (forall t, w_turns w !! i = Some t -> ok t = true -> step 1 10 3 w (f w i t)) -> step 1 10 3 w (Runs.by_turn i f w).
Proof. unfold Runs.by_turn. destruct (w_turns w !! i); [auto|done]. Qed.

Lemma by_thread_step w k f (ok : thread nat -> bool) :
  match d_threads (w_disk w) !! k with Some th => ok th | None => false end = true ->
  (forall th, d_threads (w_disk w) !! k = Some th -> ok th = true -> step 1 10 3 w (set_disk w (f (w_disk w) k th))) ->
  step 1 10 3 w (Runs.by_thread k f w).
Proof. unfold Runs.by_thread. destruct (d_threads _ !! k); [auto|done]. Qed.

Lemma first_turn_reachable : rtc (step 1 10 3) Runs.boot (Runs.run Runs.first_turn Runs.boot).
Proof.
  unfold Runs.first_turn. cbn [Runs.run].
  eapply rtc_l; [apply (st_begin _ _ _ _ "s" true)|]. eapply rtc_l; [apply (st_begin _ _ _ _ "s" true)|].
  eapply rtc_l; [apply (by_turn_step _ 0 load (fun t => match t_stage t with Loading => true | _ => false end))|].
  { vm_compute. reflexivity. }
  { intros t Ht Hs. apply st_load; [done|]. by destruct (t_stage t). }
  eapply rtc_l; [apply (by_turn_step _ 0 (fun w i t => begin_save 3 w i t 8%nat) (fun t => match t_stage t with Streaming => true | _ => false end))|].
  { vm_compute. reflexivity. }
  { intros t Ht Hs. apply st_save; [done|]. by destruct (t_stage t). }
  eapply rtc_l; [apply (by_thread_step _ 0 open_tmp (fun th => match th_stage th with Pending => true | _ => false end))|].
  { vm_compute. reflexivity. }
  { intros th Ht Hs. apply st_open; [done|]. by destruct (th_stage th). }
  apply rtc_once. apply (by_thread_step _ 0 _ (fun th => match th_stage th with Open _ => true | _ => false end)).
  { vm_compute. reflexivity. }
  intros th Ht Hs. destruct (th_stage th) as [|n| |] eqn:E; try done. by apply st_close.
Qed.

Lemma turns_exclusive_witness :
  let w := Runs.run Runs.first_turn Runs.boot in
  started Runs.boot /\ rtc (step 1 10 3) Runs.boot w /\
  (exists r, l_entries (w_locks w) !! 0%nat = Some r /\
     r_count r = Z.of_nat (map_count (uses_entry 0) (uses (w_turns w))) /\ 0 < r_count r).
Proof.
  cbv zeta. split; [apply Runs.boot_started|]. split; [apply first_turn_reachable|].
  apply (turns_exclusive 1 10 3 Runs.boot _ Runs.boot_started first_turn_reachable) with (sid := "s"). vm_compute. reflexivity.
Defined.

Lemma no_lost_update_witness :
  let w := Runs.run Runs.first_turn Runs.boot in
  started Runs.boot /\ rtc (step 1 10 3) Runs.boot w /\
  (exists n d, replace_file (w_disk w) "s" = Some (n, d) /\ read_file d "s" = Some 8%nat).
Proof.
  cbv zeta. split; [apply Runs.boot_started|]. split; [apply first_turn_reachable|].
  destruct (no_lost_update 1 10 3 Runs.boot _ Runs.boot_started first_turn_reachable) as (_ & _ & Hp).
  assert (exists t a th, w_turns (Runs.run Runs.first_turn Runs.boot) !! 0%nat = Some t /\ t_stage t = Saving a 0 /\
    t_sid t = "s" /\ a_raw a = 8%nat /\ d_threads (w_disk (Runs.run Runs.first_turn Runs.boot)) !! 0%nat = Some th /\
    th_stage th = Written) as (t & a & th & Ht & Hs & Hsid & Hraw & Hth & Hw)
    by (vm_compute; do 3 eexists; split_and!; reflexivity).
  rewrite <-Hsid, <-Hraw. apply (Hp 0%nat t a 0%nat th Ht Hs); [|done|done]. vm_compute. by intros ?.
Defined.
