(* ===== verification/Conversations.v ===== *)
(** * The log endpoints of the backends (shared/conversations.py)

    Who may read the conversation, trace and tool-audit logs, the parameters of
    a request, the rows a request selects, and the cache of parsed files the
    readers share: worker threads that look at a file, may find its rows in the
    cache, and otherwise parse it again.  The parsers of JSON and of ISO-8601
    times, and the clock's calendar, are parameters. *)
From Stdlib Require Import Ascii.
From S2P Require Import Prelude PyStr PyVal Http.

(** ** The gate *)

Section Gate.
Variable environ : string -> option string.

Definition auth_disabled_escape_hatch : bool :=
  bool_decide (str_lower (str_strip (default "" (environ "CONVERSATIONS_AUTH_DISABLED"))) ∈ ["1"; "true"; "yes"; "on"]).

(** What a handler does before it looks at the parameters: the answer, or
    [None] to go on. *)
Definition check_auth (auth_token authorization : string) : option outcome :=
  if decide (auth_token = "") then
    if auth_disabled_escape_hatch then None else Some (Status 503)
  else
    match compare_digest ("Bearer " +:+ auth_token) authorization with
    | Raise e => Some (Escapes e)
    | Ok true => None
    | Ok false => Some (Status 401)
    end.
End Gate.

(** ** Times

    A [datetime]: its instant in microseconds and whether it has an offset.
    Comparing two of different kinds raises [TypeError]. *)
Record stamp : Type := mk_stamp { aware : bool; instant : Z }.

Definition stamp_lt (a b : stamp) : res bool :=
  if decide (aware a = aware b) then Ok (instant a <? instant b) else Raise TypeError.

Definition stamp_ge (a b : stamp) : res bool :=
  if decide (aware a = aware b) then Ok (instant b <=? instant a) else Raise TypeError.

(** ** Rows *)

(** [deque(maxlen=n)] filled with the rows. *)
Definition keep_last {A} (limit : option Z) (rows : list A) : res (list A) :=
  match limit with
  | None => Ok rows
  | Some n => if n <? 0 then Raise ValueError else Ok (lastn (Z.to_nat n) rows)
  end.

(** [filter] with a test that may raise. *)
Fixpoint filter_res {A} (f : A -> res bool) (l : list A) : res (list A) :=
  match l with
  | [] => Ok []
  | x :: l => b <-- f x ;; rest <-- filter_res f l ;; Ok (if b : bool then x :: rest else rest)
  end.

Section Rows.
(** [datetime.fromisoformat] after ["Z"] is replaced; [datetime.fromtimestamp]
    in UTC of a number. [None] when they raise what is caught. *)
Variable fromisoformat : string -> option stamp.
Variable fromtimestamp : pyval -> option Z.

(** The test of [_filter_and_limit]: every exception drops the row. *)
Definition row_since (since_dt : option stamp) (row : pyval) : bool :=
  match since_dt with
  | None => true
  | Some since =>
      match row with
      | VDict d =>
          match (if truthy (dict_get_none d "ts") then dict_get_none d "ts" else VStr "") with
          | VStr s => match fromisoformat s with
                      | Some ts => match stamp_lt ts since with Ok lt => negb lt | Raise _ => false end
                      | None => false
                      end
          | _ => false
          end
      | _ => false
      end
  end.

Definition filter_and_limit (entries : list pyval) (since_dt : option stamp) (limit_n : option Z) : res (list pyval) :=
  keep_last limit_n (filter (fun row => row_since since_dt row = true) entries).

(** [str(entry.get(k) or "")] *)
Definition text_of (d : pydict) (k : string) : string :=
  if truthy (dict_get_none d k) then py_str (dict_get_none d k) else "".

Definition is_float (v : pyval) : bool := match v with VFloat _ => true | _ => false end.

(** The times of the rows: texts and numbers; a row of any other kind has
    none. *)
Definition audit_since (since_dt : option stamp) (d : pydict) : res bool :=
  match since_dt with
  | None => Ok true
  | Some since =>
      let raw := dict_get_none d "ts" in
      if is_int raw || is_float raw then
        match fromtimestamp raw with Some t => stamp_ge (mk_stamp true t) since | None => Ok false end
      else match raw with
           | VStr s => match fromisoformat s with Some ts => stamp_ge ts since | None => Ok false end
           | _ => Ok false
           end
  end.

Definition given (p : option string) : option string :=
  match p with Some s => if decide (s = "") then None else Some s | None => None end.

(** The test of [_read_tool_audit_jsonl]. A row that is no mapping raises at
    the first filter in use. *)
Definition audit_row (since_dt : option stamp) (decision tool session : option string) (row : pyval) : res bool :=
  match since_dt, given decision, given tool, given session with
  | None, None, None, None => Ok true
  | _, _, _, _ =>
      match row with
      | VDict d =>
          b <-- audit_since since_dt d ;;
          if negb b then Ok false
          else Ok
            (match given decision with
             | Some x => bool_decide (str_lower (text_of d "decision") = str_lower x)
             | None => true
             end &&
             match given tool with
             | Some x => bool_decide
                 ((if truthy (dict_get_none d "tool_name") then py_str (dict_get_none d "tool_name") else text_of d "tool") = x)
             | None => true
             end &&
             match given session with Some x => bool_decide (text_of d "session_id" = x) | None => true end)
      | _ => Raise AttributeError
      end
  end.

(** The bounded [deque] is made before the rows are read. *)
Definition audit_filter (entries : list pyval) (since_dt : option stamp) (limit_n : option Z)
    (decision tool session : option string) : res (list pyval) :=
  _ <-- keep_last limit_n ([] : list pyval) ;;
  rows <-- filter_res (audit_row since_dt decision tool session) entries ;;
  keep_last limit_n rows.

(** ** Parameters of a request *)

Inductive answer : Type := Reply (o : outcome) | Rows (rows : list pyval).

Definition param (query : list (string * string)) (k : string) : option string := od_get query k.

(** [int(limit) if limit else None]: [None] on [ValueError]. *)
Definition parse_limit (query : list (string * string)) : option (option Z) :=
  match given (param query "limit") with
  | None => Some None
  | Some s => match py_int s with Some n => Some (Some n) | None => None end
  end.

Definition parse_since (query : list (string * string)) : option (option stamp) :=
  match given (param query "since") with
  | None => Some None
  | Some s => match fromisoformat s with Some t => Some (Some t) | None => None end
  end.

Definition decision_known (query : list (string * string)) : bool :=
  match given (param query "decision") with
  | None => true
  | Some d => bool_decide (str_lower d ∈ ["allow"; "warn"; "deny"])
  end.

Definition answer_of (r : res (list pyval)) : answer :=
  match r with Ok rows => Rows rows | Raise e => Reply (Escapes e) end.

(** The checks of all handlers in their order, and what follows them. *)
Definition checked (environ : string -> option string) (auth_token authorization : string)
    (query : list (string * string)) (decisions : bool) (k : option stamp -> option Z -> res (list pyval)) : answer :=
  match check_auth environ auth_token authorization with
  | Some o => Reply o
  | None =>
      match parse_limit query with
      | None => Reply (Status 400)
      | Some limit_n =>
          match parse_since query with
          | None => Reply (Status 400)
          | Some since_dt =>
              if decisions && negb (decision_known query) then Reply (Status 400) else answer_of (k since_dt limit_n)
          end
      end
  end.

(** [entries]: what the file holds for the reader (below). *)
Definition conversations_handler environ auth_token authorization query (entries : list pyval) : answer :=
  checked environ auth_token authorization query false (filter_and_limit entries).

Definition trace_handler environ auth_token authorization query (entries : list pyval) : answer :=
  checked environ auth_token authorization query false (filter_and_limit entries).

Definition tool_audit_handler environ auth_token authorization query (entries : list pyval) : answer :=
  checked environ auth_token authorization query true
    (fun since_dt limit_n => audit_filter entries since_dt limit_n (param query "decision") (param query "tool") (param query "session")).

(** The harness's variants pass [since] on as it came. *)
Definition proxy_conversations_handler environ auth_token authorization query
    (fetch_fn : option string -> option Z -> res (list pyval)) : answer :=
  checked environ auth_token authorization query false (fun _ limit_n => fetch_fn (param query "since") limit_n).

Definition proxy_trace_handler environ auth_token authorization query
    (fetch_fn : option string -> option Z -> res (list pyval)) : answer :=
  checked environ auth_token authorization query false (fun _ limit_n => fetch_fn (param query "since") limit_n).

Definition proxy_tool_audit_handler environ auth_token authorization query
    (fetch_fn : option string -> option Z -> option string -> option string -> option string -> res (list pyval)) : answer :=
  checked environ auth_token authorization query true
    (fun _ limit_n => fetch_fn (param query "since") limit_n (param query "decision") (param query "tool") (param query "session")).
End Rows.

(** ** Files *)

Definition newline : ascii := ascii_of_N 10.

Section Reader.
(** [json.loads], [None] on [JSONDecodeError]. *)
Variable json_loads : string -> option pyval.
(** [_TAIL_CACHE_ENTRY_CAP] *)
Variable entry_cap : Z.

(** The lines with a newline at their end; the rest is a torn line. *)
Definition complete_lines (content : string) : list string := removelast (str_split newline content).

Definition parse_line (line : string) : option pyval :=
  let s := str_strip line in if decide (s = "") then None else json_loads s.

(** [entries[-cap:]] when there are more. *)
Definition cap_entries (entries : list pyval) : list pyval :=
  if entry_cap <? Z.of_nat (length entries) then
    if entry_cap <? 0 then drop (Z.to_nat (- entry_cap)) entries
    else if entry_cap =? 0 then entries
    else lastn (Z.to_nat entry_cap) entries
  else entries.

(** What a reader has of a file; nothing when there is none. *)
Definition parsed (content : string) : list pyval := cap_entries (omap parse_line (complete_lines content)).
Definition rows_of (content : option string) : list pyval := match content with Some c => parsed c | None => [] end.

(** The offset after the last complete line, which is stored and not used:
    every change of the file drops the entry. *)
Definition safe_offset (content : string) : Z := foldr (fun l n => str_len l + 1 + n) 0 (complete_lines content).

(** *** The cache and its readers

    [(st_ino, st_size, st_mtime)] of a file; no version of a file has the key
    of an earlier one. *)
Context {key : Type} `{EqDecision key}.

(** A worker thread after its [os.stat]; after it found no valid entry; with
    the lines it read; at its end. *)
Inductive reader_stage : Type :=
| Statted (k : key)
| Reading (k : key)
| Parsed (k : key) (content : string)
| Answered (rows : list pyval).

(** Ghost: [r_seen], the versions of the file since the reader's [os.stat]. *)
Record reader : Type := mk_reader { r_path : string; r_stage : reader_stage; r_seen : list (option string) }.

Record files : Type := mk_files {
  f_files : gmap string (key * string);
  (** [_TAIL_CACHE]: key, offset, rows *)
  f_cache : gmap string (key * Z * list pyval);
  f_readers : gmap nat reader;
  (** ghost: the keys there were *)
  f_keys : list (string * key)
}.

Definition set_reader (w : files) (i : nat) (r : reader) : files :=
  mk_files (f_files w) (f_cache w) (<[i := r]> (f_readers w)) (f_keys w).

Definition at_stage (r : reader) (s : reader_stage) : reader := mk_reader (r_path r) s (r_seen r).

Definition content_of (w : files) (path : string) : option string := snd <$> f_files w !! path.

(** A reader that has not answered sees the new version. *)
Definition witness_version (path : string) (v : option string) (r : reader) : reader :=
  match r_stage r with
  | Answered _ => r
  | _ => if decide (r_path r = path) then mk_reader (r_path r) (r_stage r) (v :: r_seen r) else r
  end.

(** Some process writes, replaces or removes the file. *)
Definition change_file (w : files) (path : string) (v : option (key * string)) : files :=
  mk_files (match v with Some f => <[path := f]> (f_files w) | None => delete path (f_files w) end) (f_cache w)
    (witness_version path (snd <$> v) <$> f_readers w) (match v with Some (k, _) => (path, k) :: f_keys w | None => f_keys w end).

Definition start_reader (w : files) (i : nat) (path : string) : files :=
  set_reader w i (mk_reader path (match f_files w !! path with Some (k, _) => Statted k | None => Answered [] end) [content_of w path]).

Definition look_up (w : files) (i : nat) (r : reader) (k : key) : files :=
  set_reader w i (at_stage r
    (match f_cache w !! r_path r with
     | Some (k', _, rows) => if decide (k' = k) then Answered rows else Reading k
     | None => Reading k
     end)).

Definition read_lines (w : files) (i : nat) (r : reader) (k : key) : files :=
  set_reader w i (at_stage r (match content_of w (r_path r) with Some c => Parsed k c | None => Answered [] end)).

Definition store (w : files) (i : nat) (r : reader) (k : key) (c : string) : files :=
  set_reader (mk_files (f_files w) (<[r_path r := (k, safe_offset c, parsed c)]> (f_cache w)) (f_readers w) (f_keys w)) i
    (at_stage r (Answered (parsed c))).

Inductive read_step : files -> files -> Prop :=
| rs_change w path v :
    match v with Some (k, _) => (path, k) ∉ f_keys w | None => True end -> read_step w (change_file w path v)
| rs_start w i path : f_readers w !! i = None -> read_step w (start_reader w i path)
| rs_look w i r k : f_readers w !! i = Some r -> r_stage r = Statted k -> read_step w (look_up w i r k)
| rs_read w i r k : f_readers w !! i = Some r -> r_stage r = Reading k -> read_step w (read_lines w i r k)
| rs_store w i r k c : f_readers w !! i = Some r -> r_stage r = Parsed k c -> read_step w (store w i r k c).

(** *** What holds of the cache *)

Definition key_of (s : reader_stage) : option key :=
  match s with Statted k | Reading k | Parsed k _ => Some k | Answered _ => None end.

Record reader_ok (w : files) (r : reader) : Prop := {
  ro_key : forall k, key_of (r_stage r) = Some k -> (r_path r, k) ∈ f_keys w;
  ro_current : forall k, key_of (r_stage r) = Some k -> content_of w (r_path r) ∈ r_seen r;
  ro_cached : forall k o rows, key_of (r_stage r) = Some k -> f_cache w !! r_path r = Some (k, o, rows) ->
    exists c, c ∈ r_seen r /\ rows = rows_of c;
  ro_parsed : forall k c, r_stage r = Parsed k c -> Some c ∈ r_seen r /\
    forall c', f_files w !! r_path r = Some (k, c') -> c' = c;
  ro_answer : forall rows, r_stage r = Answered rows -> exists c, c ∈ r_seen r /\ rows = rows_of c
}.

Record files_ok (w : files) : Prop := {
  fo_keys : forall p k c, f_files w !! p = Some (k, c) -> (p, k) ∈ f_keys w;
  fo_cache : forall p k o rows, f_cache w !! p = Some (k, o, rows) ->
    (p, k) ∈ f_keys w /\ forall c, f_files w !! p = Some (k, c) -> rows = parsed c;
  fo_reader : forall i r, f_readers w !! i = Some r -> reader_ok w r;
  (** what one reader parsed under a key, another that saw the key has seen *)
  fo_pair : forall i j r r' k c, f_readers w !! i = Some r -> f_readers w !! j = Some r' -> r_stage r = Parsed k c ->
    r_path r' = r_path r -> key_of (r_stage r') = Some k -> Some c ∈ r_seen r'
}.

Lemma witness_stage path v r : r_stage (witness_version path v r) = r_stage r /\ r_path (witness_version path v r) = r_path r.
Proof. unfold witness_version. destruct (r_stage r) eqn:E; [case_decide..|]; done. Qed.

Lemma witness_seen path v r c : c ∈ r_seen r -> c ∈ r_seen (witness_version path v r).
Proof. unfold witness_version. destruct (r_stage r); [case_decide; cbn; set_solver..|done]. Qed.

Lemma witness_new path v r k : key_of (r_stage r) = Some k -> r_path r = path -> v ∈ r_seen (witness_version path v r).
Proof. unfold witness_version. intros Hk <-. destruct (r_stage r); [rewrite decide_True by done; cbn; set_solver..|done]. Qed.

Lemma change_ok w path v :
  files_ok w -> match v with Some (k, _) => (path, k) ∉ f_keys w | None => True end -> files_ok (change_file w path v).
Proof.
  intros [Hk Hc Hr Hp] Hfresh.
  assert (Hkeys : forall x, x ∈ f_keys w -> x ∈ f_keys (change_file w path v)) by (intros x; cbn; destruct v as [[]|]; set_solver).
  assert (Hfile : forall p k c, f_files (change_file w path v) !! p = Some (k, c) ->
    (p = path /\ v = Some (k, c)) \/ (p <> path /\ f_files w !! p = Some (k, c))).
  { intros p k c. cbn. destruct v as [f|]; [intros [[<- ->]|[? ?]]%lookup_insert_Some|intros [? ?]%lookup_delete_Some]; auto. }
  assert (Hold : forall p k c, (p, k) ∈ f_keys w -> f_files (change_file w path v) !! p = Some (k, c) -> f_files w !! p = Some (k, c)).
  { intros p k c Hin [[-> ->]|[_ ?]]%Hfile; [by destruct Hfresh|done]. }
  constructor.
  - intros p k c [[-> ->]|[_ ?]]%Hfile; [cbn; set_solver|by eapply Hkeys, Hk].
  - intros p k o rows Hl. destruct (Hc p k o rows Hl) as [Hin He]. split; [auto|]. intros c Hf. apply He. by apply Hold.
  - cbn. intros i r' Hi. rewrite lookup_fmap in Hi. destruct (f_readers w !! i) as [r|] eqn:Ei; [|done]. injection Hi as <-.
    destruct (witness_stage path (snd <$> v) r) as [Es Ep]. destruct (Hr i r Ei) as [H1 H2 H3 H4 H5].
    constructor; rewrite ?Es, ?Ep.
    + intros k Hk'. apply Hkeys. auto.
    + intros k Hk'. unfold content_of. destruct (decide (r_path r = path)) as [E|E].
      * replace (snd <$> f_files (change_file w path v) !! r_path r) with (snd <$> v); [by eapply witness_new|].
        cbn. rewrite E. destruct v; [by rewrite lookup_insert_eq|by rewrite lookup_delete_eq].
      * apply witness_seen. replace (f_files (change_file w path v) !! r_path r) with (f_files w !! r_path r); [by eapply H2|].
        cbn. destruct v; [by rewrite lookup_insert_ne|by rewrite lookup_delete_ne].
    + intros k o rows Hk' Hl. destruct (H3 k o rows Hk' Hl) as (c & ? & ?). exists c. split; [by apply witness_seen|done].
    + intros k c Hst. destruct (H4 k c Hst) as [Hs Hcur]. split; [by apply witness_seen|]. intros c' Hf. apply Hcur, Hold; [|done].
      apply H1. by rewrite Hst.
    + intros rows Hst. destruct (H5 rows Hst) as (c & ? & ?). exists c. split; [by apply witness_seen|done].
  - cbn. intros i j r1 r1' k c Hi Hj. rewrite lookup_fmap in Hi, Hj.
    destruct (f_readers w !! i) as [r|] eqn:Ei; [|done]. destruct (f_readers w !! j) as [r'|] eqn:Ej; [|done].
    injection Hi as <-. injection Hj as <-. destruct (witness_stage path (snd <$> v) r) as [-> ->].
    destruct (witness_stage path (snd <$> v) r') as [-> ->]. intros Hst Hpath Hkey. apply witness_seen. by apply (Hp i j r r' k c).
Qed.

(** A reader goes on; only the cache may change with it. *)
Lemma move_ok w w' i r :
  files_ok w -> w' = set_reader (mk_files (f_files w) (f_cache w') (f_readers w) (f_keys w)) i r ->
  (forall p k o rows, f_cache w' !! p = Some (k, o, rows) ->
     (p, k) ∈ f_keys w /\ forall c, f_files w !! p = Some (k, c) -> rows = parsed c) ->
  reader_ok w' r ->
  (forall j r', j <> i -> f_readers w !! j = Some r' -> reader_ok w' r') ->
  (forall j r' k c, j <> i -> f_readers w !! j = Some r' -> r_path r' = r_path r ->
     (r_stage r = Parsed k c -> key_of (r_stage r') = Some k -> Some c ∈ r_seen r') /\
     (r_stage r' = Parsed k c -> key_of (r_stage r) = Some k -> Some c ∈ r_seen r)) ->
  files_ok w'.
Proof.
  intros [Hk Hc Hr Hp] E Hcache Hself Hothers Hpair. rewrite E. constructor; cbn.
  - done.
  - done.
  - rewrite <-E. intros j r' [[<- <-]|[Hne Hj]]%lookup_insert_Some; [done|]. by eapply Hothers.
  - intros j1 j2 r1 r2 k c [[<- <-]|[Hn1 H1]]%lookup_insert_Some [[<- <-]|[Hn2 H2]]%lookup_insert_Some Hst Hpath Hkey.
    + by apply (ro_parsed _ _ Hself k c Hst).
    + by apply (Hpair j2 r2 k c (not_eq_sym Hn2) H2 Hpath).
    + by apply (Hpair j1 r1 k c (not_eq_sym Hn1) H1 (eq_sym Hpath)).
    + by apply (Hp j1 j2 r1 r2 k c).
Qed.

(** The others do not notice a step that leaves the files and the cache. *)
Lemma reader_ok_same w w' r :
  f_files w' = f_files w -> f_cache w' = f_cache w -> f_keys w' = f_keys w -> reader_ok w r -> reader_ok w' r.
Proof. intros E1 E2 E3 []. constructor; unfold content_of in *; rewrite ?E1, ?E2, ?E3; done. Qed.

Lemma start_ok w i path : files_ok w -> f_readers w !! i = None -> files_ok (start_reader w i path).
Proof.
  intros Hw Hi. pose proof Hw as [Hk Hc Hr Hp]. apply (move_ok w _ i _ Hw eq_refl); [done| | |].
  - constructor; cbn.
    + intros k E. destruct (f_files w !! path) as [[k' c]|] eqn:Ef; [|done]. injection E as <-. by eapply Hk.
    + intros _ _. set_solver.
    + intros k o rows E Hl. destruct (f_files w !! path) as [[k' c]|] eqn:Ef; [|done]. injection E as <-.
      exists (content_of w path). split; [set_solver|]. unfold content_of. rewrite Ef. cbn. by apply (Hc _ _ _ _ Hl).
    + intros k c E. by destruct (f_files w !! path) as [[]|].
    + intros rows E. exists (content_of w path). split; [set_solver|]. unfold content_of.
      destruct (f_files w !! path) as [[]|]; [done|]. by injection E as <-.
  - intros j r' _ Hj. apply (reader_ok_same w); [done..|by eapply Hr].
  - intros j r' k c _ Hj. cbn. intros Hpath. split; [by destruct (f_files w !! path) as [[]|]|]. intros Hst Hkey.
    destruct (f_files w !! path) as [[k' c']|] eqn:Ef; [|done]. injection Hkey as ->.
    rewrite <-Hpath in Ef. pose proof (proj2 (ro_parsed _ _ (Hr j r' Hj) k c Hst) c' Ef) as ->.
    unfold content_of. rewrite <-Hpath, Ef. set_solver.
Qed.

Lemma look_ok w i r k : files_ok w -> f_readers w !! i = Some r -> r_stage r = Statted k -> files_ok (look_up w i r k).
Proof.
  intros Hw Hi Hst. pose proof Hw as [Hk Hc Hr Hp]. pose proof (Hr i r Hi) as [H1 H2 H3 H4 H5]. rewrite Hst in *.
  assert (forall s, (exists rows, s = Answered rows /\ exists c, c ∈ r_seen r /\ rows = rows_of c) \/ s = Reading k ->
            files_ok (set_reader w i (at_stage r s))) as Hgo.
  { intros s Hs. apply (move_ok w _ i _ Hw eq_refl); [done| | |].
    - constructor; cbn.
      + intros k' E. destruct Hs as [(rows & -> & _)| ->]; [done|]. by apply H1.
      + intros k' E. destruct Hs as [(rows & -> & _)| ->]; [done|]. by apply (H2 k).
      + intros k' o rows E. destruct Hs as [(rows' & -> & _)| ->]; [done|]. injection E as <-. by apply H3.
      + intros k' c ->. by destruct Hs as [(? & ? & _)|?].
      + intros rows ->. destruct Hs as [(? & [= <-] & ?)|?]; done.
    - intros j r' _ Hj. apply (reader_ok_same w); [done..|by eapply Hr].
    - intros j r' k' c Hne Hj Hpath. cbn in *. split; [intros ->; by destruct Hs as [(? & ? & _)|?]|]. intros Hst' E.
      destruct Hs as [(rows & -> & _)| ->]; [done|]. injection E as <-. eapply (Hp j i); eauto. by rewrite Hst. }
  unfold look_up. apply Hgo. destruct (f_cache w !! r_path r) as [[[k' o] rows]|] eqn:El; [|by right].
  case_decide; [|by right]. subst k'. left. exists rows. split; [done|]. by eapply (H3 k).
Qed.

Lemma read_ok w i r k : files_ok w -> f_readers w !! i = Some r -> r_stage r = Reading k -> files_ok (read_lines w i r k).
Proof.
  intros Hw Hi Hst. pose proof Hw as [Hk Hc Hr Hp]. pose proof (Hr i r Hi) as [H1 H2 H3 H4 H5]. rewrite Hst in *.
  pose proof (H2 k eq_refl) as Hcur. unfold read_lines. apply (move_ok w _ i _ Hw eq_refl); [done| | |].
  - destruct (content_of w (r_path r)) as [c|] eqn:Ec; [|constructor; cbn; try done; intros rows [= <-]; by exists None].
    constructor; cbn; [exact H1|intros ? _; change (content_of w (r_path r) ∈ r_seen r); by rewrite Ec|exact H3| |done].
    intros k' c0 [= <- <-]. split; [done|]. unfold content_of in Ec. intros c' Hf. rewrite Hf in Ec. by injection Ec.
  - intros j r' _ Hj. apply (reader_ok_same w); [done..|by eapply Hr].
  - intros j r' k' c Hne Hj Hpath. cbn in *. split.
    + intros E Hkey. unfold content_of in E. destruct (f_files w !! r_path r) as [[kc c0]|] eqn:Ef; [|done]. injection E as <- <-.
      pose proof (ro_current _ _ (Hr j r' Hj) k Hkey) as Hcur'. unfold content_of in Hcur'. by rewrite Hpath, Ef in Hcur'.
    + intros Hst' E. destruct (content_of w (r_path r)); [|done]. injection E as <-. eapply (Hp j i); eauto. by rewrite Hst.
Qed.

Lemma store_ok w i r k c : files_ok w -> f_readers w !! i = Some r -> r_stage r = Parsed k c -> files_ok (store w i r k c).
Proof.
  intros Hw Hi Hst. pose proof Hw as [Hk Hc Hr Hp]. pose proof (Hr i r Hi) as [H1 H2 H3 H4 H5]. rewrite Hst in *.
  destruct (H4 k c eq_refl) as [Hseen Hcur]. apply (move_ok w _ i _ Hw eq_refl).
  - cbn. intros p k' o rows [[<- [= <- <- <-]]|[_ Hl]]%lookup_insert_Some; [|by eapply Hc].
    split; [by apply H1|]. intros c' Hf. by rewrite (Hcur c' Hf).
  - constructor; cbn; try done. intros rows [= <-]. by exists (Some c).
  - intros j r' Hne Hj. destruct (Hr j r' Hj) as [G1 G2 G3 G4 G5]. constructor; cbn; try done.
    intros k' o rows Hkey [[Hpath [= <- <- <-]]|[_ Hl]]%lookup_insert_Some; [|by eapply G3].
    exists (Some c). split; [|done]. eapply (Hp i j r r'); eauto.
  - cbn. intros j r' k' c' Hne Hj Hpath. done.
Qed.

Lemma read_step_ok w w' : read_step w w' -> files_ok w -> files_ok w'.
Proof. intros [] Hw; [by apply change_ok|by apply start_ok|by apply look_ok|by apply read_ok|by apply store_ok]. Qed.

Lemma read_reachable_ok w0 w :
  f_cache w0 = ∅ -> f_readers w0 = ∅ -> (forall p k c, f_files w0 !! p = Some (k, c) -> (p, k) ∈ f_keys w0) ->
  rtc read_step w0 w -> files_ok w.
Proof.
  intros Hc Hr Hk. revert w. apply (rtc_ind_r files_ok); [|intros w w' _ Hs Hw; by eapply read_step_ok].
  constructor; [done|intros p k o rows; by rewrite Hc|intros i r; by rewrite Hr|intros i j r r' k c; by rewrite Hr].
Qed.

End Reader.
Arguments reader_stage : clear implicits.
Arguments reader : clear implicits.
Arguments files : clear implicits.

(** ** The answers *)

(** Who presents the token, or asks where the operator opted out. *)
Definition authorised (environ : string -> option string) (auth_token authorization : string) : Prop :=
  (auth_token <> "" /\ authorization = "Bearer " +:+ auth_token) \/
  (auth_token = "" /\ auth_disabled_escape_hatch environ = true).

Lemma check_auth_spec environ auth_token authorization :
  match check_auth environ auth_token authorization with
  | None => authorised environ auth_token authorization
  | Some (Status c) => ~ authorised environ auth_token authorization /\
      ((c = 503 /\ auth_token = "" /\ auth_disabled_escape_hatch environ = false) \/
       (c = 401 /\ auth_token <> "" /\ authorization <> "Bearer " +:+ auth_token))
  | Some (Escapes e) => e = TypeError /\ auth_token <> "" /\ (is_ascii ("Bearer " +:+ auth_token) = false \/ is_ascii authorization = false)
  end.
Proof.
  unfold check_auth, authorised. case_decide as Ht.
  - destruct (auth_disabled_escape_hatch environ); [by right|]. split; [naive_solver|by left].
  - destruct (compare_digest _ _) as [[]|e] eqn:E.
    + apply compare_true in E as [<- _]. by left.
    + assert (authorization <> "Bearer " +:+ auth_token) as Hne.
      { intros ->. unfold compare_digest in E. destruct (is_ascii _); cbn in E; [|done]. by rewrite bool_decide_true in E. }
      split; [naive_solver|by right].
    + apply compare_raises in E as [-> ?]. auto.
Qed.

Lemma keep_last_Ok {A} limit (rows out : list A) :
  keep_last limit rows = Ok out <->
  match limit with None => out = rows | Some n => 0 <= n /\ out = lastn (Z.to_nat n) rows end.
Proof. unfold keep_last. destruct limit as [n|]; [|naive_solver]. destruct (Z.ltb_spec n 0); naive_solver lia. Qed.

Lemma keep_last_Raise {A} limit (rows : list A) e : keep_last limit rows = Raise e -> e = ValueError /\ exists n, limit = Some n /\ n < 0.
Proof. unfold keep_last. destruct limit as [n|]; [|done]. destruct (Z.ltb_spec n 0); [|done]. intros [= <-]. eauto. Qed.

Lemma keep_last_elem {A} limit (rows out : list A) x : keep_last limit rows = Ok out -> x ∈ out -> x ∈ rows.
Proof. intros H%keep_last_Ok. destruct limit; [destruct H as [_ ->]; apply elem_of_lastn|by subst]. Qed.

Lemma filter_res_elem {A} (f : A -> res bool) l out x : filter_res f l = Ok out -> x ∈ out -> x ∈ l /\ f x = Ok true.
Proof.
  revert out. induction l as [|y l IH]; intros out; cbn; [intros [= <-]; by intros ?%elem_of_nil|].
  rewrite res_bind_Ok. intros (b & Hb & H). rewrite res_bind_Ok in H. destruct H as (rest & Hrest & [= <-]).
  destruct b; [intros [->|Hx]%elem_of_cons|intros Hx]; [split; [set_solver|done]|..]; destruct (IH rest Hrest Hx); set_solver.
Qed.

Lemma filter_res_Raise {A} (f : A -> res bool) l e : filter_res f l = Raise e -> exists x, x ∈ l /\ f x = Raise e.
Proof.
  induction l as [|y l IH]; cbn; [done|]. rewrite res_bind_Raise. intros [H|(b & Hb & H)]; [exists y; set_solver|].
  rewrite res_bind_Raise in H. destruct H as [H|(rest & _ & [=])]. destruct (IH H) as (x & ? & ?). exists x. set_solver.
Qed.

Section Answers.
Variable fromisoformat : string -> option stamp.
Variable fromtimestamp : pyval -> option Z.

Lemma row_since_true since row :
  row_since fromisoformat (Some since) row = true <->
  exists d s ts, row = VDict d /\ (dict_get_none d "ts" = VStr s \/ truthy (dict_get_none d "ts") = false /\ s = "") /\
    fromisoformat s = Some ts /\ aware ts = aware since /\ instant since <= instant ts.
Proof.
  unfold row_since. destruct row as [| | | | | |d]; try (split; [done|intros (?&?&?&[=]&_)]).
  assert (Hlt : forall s, match fromisoformat s with
                          | Some ts => match stamp_lt ts since with Ok lt => negb lt | Raise _ => false end
                          | None => false
                          end = true <->
    exists ts, fromisoformat s = Some ts /\ aware ts = aware since /\ instant since <= instant ts).
  { intros s. destruct (fromisoformat s) as [ts|]; [|naive_solver]. unfold stamp_lt. case_decide; [|naive_solver].
    boolp. naive_solver lia. }
  set (v := dict_get_none d "ts"). assert (Hv : truthy v = false -> v = VStr "" \/ forall s, v <> VStr s).
  { destruct v as [| | | |s| |]; auto. cbn. intros H%bool_decide_eq_false. left. f_equal. by destruct (decide (s = "")). }
  destruct (truthy v) eqn:Ht.
  - destruct v as [| | | |s| |] eqn:Ev;
      try (split; [done|intros (d' & s' & ts & [= <-] & [Hx|[Hx _]] & _); fold v in Hx; congruence]).
    cbv iota beta. rewrite Hlt. split; [intros (ts & ?); exists d, s, ts; tauto|].
    intros (d' & s' & ts & [= <-] & [Hx|[Hx _]] & Hrest); fold v in Hx; [|congruence].
    rewrite Ev in Hx. injection Hx as <-. by exists ts.
  - cbv iota beta. rewrite Hlt. split; [intros (ts & ?); exists d, "", ts; tauto|].
    intros (d' & s' & ts & [= <-] & [Hs|[_ ->]] & Hrest); [|by exists ts]. fold v in Hs. destruct (Hv eq_refl) as [E|E]; [|by destruct (E s')].
    rewrite E in Hs. injection Hs as <-. by exists ts.
Qed.

(** What every handler answers. *)
Lemma checked_spec environ auth_token authorization query decisions k :
  match checked fromisoformat environ auth_token authorization query decisions k with
  | Rows rows => authorised environ auth_token authorization /\ exists since_dt limit_n,
      parse_limit query = Some limit_n /\ parse_since fromisoformat query = Some since_dt /\ k since_dt limit_n = Ok rows
  | Reply (Status c) =>
      (c = 503 /\ auth_token = "" /\ auth_disabled_escape_hatch environ = false) \/
      (c = 401 /\ auth_token <> "" /\ authorization <> "Bearer " +:+ auth_token) \/
      (c = 400 /\ authorised environ auth_token authorization /\
         (parse_limit query = None \/ parse_since fromisoformat query = None \/ decisions = true /\ decision_known query = false))
  | Reply (Escapes e) =>
      (e = TypeError /\ auth_token <> "" /\ (is_ascii ("Bearer " +:+ auth_token) = false \/ is_ascii authorization = false)) \/
      (authorised environ auth_token authorization /\ exists since_dt limit_n,
         parse_limit query = Some limit_n /\ parse_since fromisoformat query = Some since_dt /\ k since_dt limit_n = Raise e)
  end.
Proof.
  unfold checked. pose proof (check_auth_spec environ auth_token authorization) as Ha.
  destruct (check_auth _ _ _) as [[c|e]|]; [destruct Ha as [_ [?|?]]; auto|by left|].
  destruct (parse_limit query) as [limit_n|]; [|right; right; auto].
  destruct (parse_since _ query) as [since_dt|]; [|right; right; auto].
  destruct decisions, (decision_known query); cbn; try (right; right; split_and!; auto; fail);
    (destruct (k since_dt limit_n) as [rows|e] eqn:E; cbn; [split; [done|]|right; split; [done|]]; by exists since_dt, limit_n).
Qed.

Lemma audit_since_spec since d :
  match audit_since fromisoformat fromtimestamp (Some since) d with
  | Ok true => exists ts, aware ts = aware since /\ instant since <= instant ts /\
      ((exists s, dict_get_none d "ts" = VStr s /\ fromisoformat s = Some ts) \/
       ((is_int (dict_get_none d "ts") = true \/ is_float (dict_get_none d "ts") = true) /\
        fromtimestamp (dict_get_none d "ts") = Some (instant ts) /\ aware ts = true))
  | Ok false => True
  | Raise e => e = TypeError
  end.
Proof.
  unfold audit_since. set (v := dict_get_none d "ts").
  assert (Hge : forall ts, match stamp_ge ts since with
                           | Ok true => aware ts = aware since /\ instant since <= instant ts | Ok false => True | Raise e => e = TypeError
                           end).
  { intros ts. unfold stamp_ge. case_decide; [|done]. destruct (Z.leb_spec (instant since) (instant ts)); done. }
  destruct (is_int v || is_float v) eqn:Hn.
  - apply orb_true_iff in Hn. destruct (fromtimestamp v) as [t|] eqn:Ef; [|done]. specialize (Hge (mk_stamp true t)).
    destruct (stamp_ge _ _) as [[]|]; [|done..]. exists (mk_stamp true t). naive_solver.
  - destruct v as [| | | |s| |]; try done. destruct (fromisoformat s) as [ts|] eqn:Ef; [|done]. specialize (Hge ts).
    destruct (stamp_ge _ _) as [[]|]; [|done..]. exists ts. split_and!; [tauto..|]. left. by exists s.
Qed.

(** What a row of the tool audit is selected for. *)
Definition audit_selected (since_dt : option stamp) (decision tool session : option string) (row : pyval) : Prop :=
  (forall since, since_dt = Some since -> exists d ts, row = VDict d /\ aware ts = aware since /\ instant since <= instant ts /\
     ((exists s, dict_get_none d "ts" = VStr s /\ fromisoformat s = Some ts) \/
      fromtimestamp (dict_get_none d "ts") = Some (instant ts) /\ aware ts = true)) /\
  (forall x, given decision = Some x -> exists d, row = VDict d /\ str_lower (text_of d "decision") = str_lower x) /\
  (forall x, given tool = Some x -> exists d, row = VDict d /\
     (py_str (dict_get_none d "tool_name") = x /\ truthy (dict_get_none d "tool_name") = true \/
      text_of d "tool" = x /\ truthy (dict_get_none d "tool_name") = false)) /\
  (forall x, given session = Some x -> exists d, row = VDict d /\ text_of d "session_id" = x).

Lemma audit_row_true since_dt decision tool session row :
  audit_row fromisoformat fromtimestamp since_dt decision tool session row = Ok true ->
  audit_selected since_dt decision tool session row.
Proof.
  unfold audit_row, audit_selected. intros H.
  destruct (decide (since_dt = None /\ given decision = None /\ given tool = None /\ given session = None)) as [(-> & -> & -> & ->)|Hany];
    [split_and!; done|].
  assert (exists d, row = VDict d /\ audit_since fromisoformat fromtimestamp since_dt d = Ok true /\
    (match given decision with Some x => bool_decide (str_lower (text_of d "decision") = str_lower x) | None => true end &&
     match given tool with
     | Some x => bool_decide
         ((if truthy (dict_get_none d "tool_name") then py_str (dict_get_none d "tool_name") else text_of d "tool") = x)
     | None => true
     end && match given session with Some x => bool_decide (text_of d "session_id" = x) | None => true end) = true) as (d & -> & Hs & Hf).
  { destruct since_dt, (given decision), (given tool), (given session); try (by destruct Hany);
      (destruct row as [| | | | | |d]; try done; exists d; split; [done|]; cbn [res_bind] in H;
       apply res_bind_Ok in H as ([] & Hb & H); cbn [negb] in H; [|done]; split; [done|congruence]). }
  rewrite !andb_true_iff in Hf. destruct Hf as [[Hd Ht] Hse]. split_and!.
  - intros since ->. pose proof (audit_since_spec since d) as Hspec. rewrite Hs in Hspec.
    destruct Hspec as (ts & ? & ? & Hts). exists d, ts. split_and!; [done..|tauto].
  - intros x Hx. rewrite Hx, bool_decide_eq_true in Hd. by exists d.
  - intros x Hx. rewrite Hx, bool_decide_eq_true in Ht. exists d. split; [done|]. destruct (truthy _); auto.
  - intros x Hx. rewrite Hx, bool_decide_eq_true in Hse. by exists d.
Qed.

Lemma audit_row_Raise since_dt decision tool session row e :
  audit_row fromisoformat fromtimestamp since_dt decision tool session row = Raise e ->
  (e = AttributeError /\ is_dict row = false) \/ (e = TypeError /\ is_Some since_dt).
Proof.
  unfold audit_row. intros H.
  assert (is_dict row = false /\ e = AttributeError \/ exists d, audit_since fromisoformat fromtimestamp since_dt d = Raise e) as [[]|(d & Hs)].
  { destruct since_dt, (given decision), (given tool), (given session); try done;
      (destruct row as [| | | | | |d]; try (left; split; [done|congruence]); right; exists d;
       apply res_bind_Raise in H as [H|([] & _ & H)]; done). }
  - by left.
  - right. destruct since_dt as [since|]; [|done]. pose proof (audit_since_spec since d) as Hspec. rewrite Hs in Hspec. done.
Qed.

(** What the two kinds of readers of a log get. Rows only for who presents
    the configured token, or for anyone where there is none and the operator
    opted out: the last [limit] of the rows that are not older than [since] (and,
    of the tool audit, match the filters), in their order. Otherwise 503, 401 or
    400 by the first check that fails; the exceptions that escape are those of a
    token or header that is not ASCII, of a negative limit, and, for the tool
    audit, of a row that is no mapping or a time without an offset. *)
Theorem log_requests_answered environ auth_token authorization query entries :
  let conv := conversations_handler fromisoformat environ auth_token authorization query entries in
  let audit := tool_audit_handler fromisoformat fromtimestamp environ auth_token authorization query entries in
  (forall rows, conv = Rows rows -> authorised environ auth_token authorization /\ exists since_dt limit_n,
     parse_since fromisoformat query = Some since_dt /\ parse_limit query = Some limit_n /\
     let sel := filter (fun row => row_since fromisoformat since_dt row = true) entries in
     match limit_n with None => rows = sel | Some n => 0 <= n /\ rows = lastn (Z.to_nat n) sel end) /\
  (forall rows, audit = Rows rows -> authorised environ auth_token authorization /\ exists since_dt limit_n,
     parse_since fromisoformat query = Some since_dt /\ parse_limit query = Some limit_n /\
     (forall n, limit_n = Some n -> Z.of_nat (length rows) <= n) /\
     forall row, row ∈ rows -> row ∈ entries /\
       audit_selected since_dt (param query "decision") (param query "tool") (param query "session") row) /\
  (forall c, conv = Reply (Status c) \/ audit = Reply (Status c) ->
     (c = 503 /\ auth_token = "" /\ auth_disabled_escape_hatch environ = false) \/
     (c = 401 /\ auth_token <> "" /\ authorization <> "Bearer " +:+ auth_token) \/
     (c = 400 /\ authorised environ auth_token authorization /\
        (parse_limit query = None \/ parse_since fromisoformat query = None \/ decision_known query = false))) /\
  (forall e, conv = Reply (Escapes e) \/ audit = Reply (Escapes e) ->
     (e = TypeError /\ (is_ascii ("Bearer " +:+ auth_token) = false \/ is_ascii authorization = false)) \/
     authorised environ auth_token authorization /\
       ((e = ValueError /\ exists n, parse_limit query = Some (Some n) /\ n < 0) \/
        (audit = Reply (Escapes e) /\ e = AttributeError /\ exists row, row ∈ entries /\ is_dict row = false) \/
        (audit = Reply (Escapes e) /\ e = TypeError /\ exists since, parse_since fromisoformat query = Some (Some since)))).
Proof.
  cbv zeta. unfold conversations_handler, tool_audit_handler.
  pose proof (checked_spec environ auth_token authorization query false (filter_and_limit fromisoformat entries)) as Hc.
  set (kc := filter_and_limit fromisoformat entries) in *.
  set (ka := fun since_dt limit_n => audit_filter _ _ entries since_dt limit_n _ _ _).
  pose proof (checked_spec environ auth_token authorization query true ka) as Ha.
  set (conv := checked _ _ _ _ _ false kc) in *. set (audit := checked _ _ _ _ _ true ka) in *. split_and!.
  - intros rows E. rewrite E in Hc. destruct Hc as (Hauth & since_dt & limit_n & Hl & Hs & Hk). split; [done|].
    exists since_dt, limit_n. split_and!; [done..|]. by apply keep_last_Ok in Hk.
  - intros rows E. rewrite E in Ha. destruct Ha as (Hauth & since_dt & limit_n & Hl & Hs & Hk). split; [done|].
    exists since_dt, limit_n. split_and!; [done..| |]; unfold ka, audit_filter in Hk; apply res_bind_Ok in Hk as (? & _ & Hk);
      apply res_bind_Ok in Hk as (sel & Hsel & Hk).
    + intros n ->. apply keep_last_Ok in Hk as [? ->]. rewrite length_lastn. lia.
    + intros row Hrow. destruct (filter_res_elem _ _ _ row Hsel (keep_last_elem _ _ _ _ Hk Hrow)) as [Hin Htrue].
      split; [done|]. by apply audit_row_true.
  - intros c [E|E]; [rewrite E in Hc|rewrite E in Ha]; naive_solver.
  - intros e [E|E]; [rewrite E in Hc; destruct Hc as [?|(Hauth & since_dt & limit_n & Hl & Hs & Hk)]|
                     rewrite E in Ha; destruct Ha as [?|(Hauth & since_dt & limit_n & Hl & Hs & Hk)]]; [left; tauto| |left; tauto|]; right;
      (split; [done|]).
    + apply keep_last_Raise in Hk as (-> & n & -> & ?). left. split; [done|]. by exists n.
    + unfold ka, audit_filter in Hk. apply res_bind_Raise in Hk as [Hk|(? & _ & Hk)].
      { apply keep_last_Raise in Hk as (-> & n & -> & ?). left. split; [done|]. by exists n. }
      apply res_bind_Raise in Hk as [Hk|(sel & _ & Hk)].
      2: { apply keep_last_Raise in Hk as (-> & n & -> & ?). left. split; [done|]. by exists n. }
      apply filter_res_Raise in Hk as (row & Hin & Hrow). right.
      destruct (audit_row_Raise _ _ _ _ _ _ Hrow) as [[-> Hd]|[-> [since ->]]]; [left|right]; rewrite E; split_and!; eauto.
Qed.
End Answers.

(** ** Examples and witnesses *)

Definition line_value (s : string) : option pyval := if decide (s = "{") then None else Some (VStr s).
Definition text_lines (ls : list string) : string := foldr (fun l s => l +:+ String newline s) "" ls.

(** A line without its newline is left for the next read, a malformed one is
    dropped; the rows kept are the last ones. *)
Example torn_and_malformed :
  parsed line_value 5000 (text_lines ["a"; ""; "{"; " b "] +:+ "c") = [VStr "a"; VStr "b"] /\
  safe_offset (text_lines ["a"; ""; "{"; " b "] +:+ "c") = 9 /\ parsed line_value 2 (text_lines ["a"; "b"; "c"]) = [VStr "b"; VStr "c"].
Proof. vm_compute. done. Qed.

(** A [since] without an offset: the conversation log answers no row at all,
    the tool audit raises. *)
Definition day (s : string) : option stamp :=
  if decide (s = "d1") then Some (mk_stamp false 1) else if decide (s = "d2+00:00") then Some (mk_stamp true 2) else None.

Example naive_since :
  let row := VDict (mk_dict [("ts", VStr "d2+00:00")]) in
  let environ k := if decide (k = "CONVERSATIONS_AUTH_DISABLED") then Some " Yes " else None in
  conversations_handler day environ "" "" [("since", "d1")] [row] = Rows [] /\
  tool_audit_handler day (fun _ => None) environ "" "" [("since", "d1")] [row] = Reply (Escapes TypeError) /\
  conversations_handler day environ "" "" [("limit", "-1")] [row] = Reply (Escapes ValueError).
Proof. vm_compute. done. Qed.

Definition log0 : files Z := mk_files {["log" := (1, text_lines ["a"])]} ∅ ∅ [("log", 1)].

(** Reader 0 looks before a change and reads after it; reader 1 then finds its
    parse under a key that is no longer the file's. *)
Definition after_reader (w : files Z) (i : nat) (f : files Z -> nat -> reader Z -> files Z) : files Z :=
  match f_readers w !! i with Some r => f w i r | None => w end.
Definition log1 : files Z := start_reader log0 0 "log".
Definition log2 : files Z := after_reader log1 0 (fun w i r => look_up w i r 1).
Definition log3 : files Z := change_file log2 "log" (Some (2, text_lines ["a"; "b"])).
Definition log4 : files Z := after_reader log3 0 (fun w i r => read_lines w i r 1).
Definition log5 : files Z := after_reader log4 0 (fun w i r => store line_value 5000 w i r 1 (text_lines ["a"; "b"])).

Lemma log5_reachable : rtc (read_step line_value 5000) log0 log5.
Proof.
  apply rtc_l with log1; [by apply rs_start|].
  apply rtc_l with log2; [by eapply (rs_look _ _ log1 0)|].
  apply rtc_l with log3; [apply rs_change; vm_compute; intros [[=]|[]%elem_of_nil]%elem_of_cons|].
  apply rtc_l with log4; [by eapply (rs_read _ _ log3 0)|].
  apply rtc_once. by eapply (rs_store _ _ log4 0).
Qed.

