(* ===== verification/ConversationsProxy.v ===== *)
(** * Fan-out of log reads to the backends (harness/conversations_proxy.py)

    One GET per backend under a cap on the body, the rows of those that answer
    merged without duplicates, sorted by time and cut to the limit.  The HTTP
    client, the parse of a body and the calendar are parameters. *)
From Stdlib Require Import Ascii Sorted.
From S2P Require Import Prelude PyStr PyVal Http Routing Conversations.

(** ** Stable sort

    [list.sort(key=...)] on texts. *)
Section Sort.
Context {A : Type}.
Variable sort_key : A -> string.

Fixpoint insert_row (x : A) (l : list A) : list A :=
  match l with
  | [] => [x]
  | y :: l' => if String.leb (sort_key x) (sort_key y) then x :: l else y :: insert_row x l'
  end.

Definition py_sort (l : list A) : list A := foldr insert_row [] l.

Definition key_le (x y : A) : Prop := String.le (sort_key x) (sort_key y).
End Sort.

(** ** One backend *)

(** A response: its status, the chunks of its body, and whether the body comes
    to its end. *)
Record response : Type := mk_response { rs_status : Z; rs_chunks : list string; rs_complete : bool }.

Section Fetch.
(** The decoded body parsed; [Ok None] when it is no JSON. *)
Variable parse_body : string -> res (option pyval).
(** The client's GET; [None] when it raises. *)
Variable get : string -> list (string * string) -> list (string * string) -> option response.
(** [_PROXY_MAX_RESPONSE_BYTES] *)
Variable max_bytes : Z.

Definition whole_body (r : response) : res string :=
  if rs_complete r then Ok (str_concat (rs_chunks r)) else Raise OtherError.

(** [Ok None]: the cap is passed. *)
Fixpoint capped_body (total : Z) (acc : string) (chunks : list string) (complete : bool) : res (option string) :=
  match chunks with
  | [] => if complete then Ok (Some acc) else Raise OtherError
  | c :: cs => if max_bytes <? total + str_len c then Ok None else capped_body (total + str_len c) (acc +:+ c) cs complete
  end.

Definition capped_get_json (url : string) (params headers : list (string * string)) : res (Z * option pyval) :=
  match get url params headers with
  | None => Raise OtherError
  | Some r =>
      if negb (rs_status r =? 200) then _ <-- whole_body r ;; Ok (rs_status r, None)
      else if max_bytes <=? 0 then
        body <-- whole_body r ;; v <-- parse_body body ;; Ok (200, v)
      else
        body <-- capped_body 0 "" (rs_chunks r) (rs_complete r) ;;
        match body with None => Ok (200, None) | Some body => v <-- parse_body body ;; Ok (200, v) end
  end.

(** The rows of a backend, and whether the failure is counted. *)
Definition fetch_one (path : string) (params headers : list (string * string)) (b : backend_config) : list pyval * bool :=
  if negb (truthy (b_url b)) then ([], false)
  else match b_url b with
       | VStr url =>
           match capped_get_json (str_rstrip "/" url +:+ path) params headers with
           | Ok (status, body) =>
               if status =? 200 then (match body with Some (VList rows) => rows | _ => [] end, false) else ([], true)
           | Raise _ => ([], true)
           end
       | _ => ([], true)
       end.
End Fetch.

(** ** The merge *)

Definition keys_eqb (a b : list pyval) : bool :=
  (length a =? length b)%nat && forallb (fun xy => key_eqb xy.1 xy.2) (combine a b).

Section Merge.
Variable row_key : pyval -> res (list pyval).

(** [key not in seen] raises for a key that has no hash. *)
Definition hash_key (row : pyval) : res (list pyval) :=
  k <-- row_key row ;; if forallb hashable k then Ok k else Raise TypeError.

Fixpoint dedup (seen : list (list pyval)) (rows : list pyval) : res (list pyval) :=
  match rows with
  | [] => Ok []
  | row :: rows =>
      k <-- hash_key row ;;
      if existsb (fun s => keys_eqb s k) seen then dedup seen rows
      else rest <-- dedup (k :: seen) rows ;; Ok (row :: rest)
  end.
End Merge.

(** [rows[-limit:]] *)
Definition last_rows (limit : option Z) (rows : list pyval) : list pyval :=
  match limit with
  | None => rows
  | Some n => if 0 <? n then lastn (Z.to_nat n) rows else if n =? 0 then rows else drop (Z.to_nat (- n)) rows
  end.

Definition or_else (d : pydict) (k k' : string) : pyval :=
  if truthy (dict_get_none d k) then dict_get_none d k else dict_get_none d k'.

(** [(entry.get("text") or "")[:64]] *)
Definition text_prefix (d : pydict) : res pyval :=
  let v := dict_get_none d "text" in
  if truthy v then
    match v with
    | VStr s => Ok (VStr (str_take 64 s))
    | VList l => Ok (VList (take 64 l))
    | _ => Raise TypeError
    end
  else Ok (VStr "").

Definition conversation_key (row : pyval) : res (list pyval) :=
  match row with
  | VDict d =>
      text <-- text_prefix d ;;
      Ok [dict_get_none d "ts"; dict_get_none d "session_id"; dict_get_none d "role"; dict_get_none d "agent"; text]
  | _ => Raise AttributeError
  end.

Definition trace_key (row : pyval) : res (list pyval) :=
  match row with
  | VDict d => Ok [dict_get_none d "ts"; dict_get_none d "session_id"; dict_get_none d "event_type"; or_else d "id" "tool_use_id"]
  | _ => Raise AttributeError
  end.

Definition tool_audit_key (row : pyval) : res (list pyval) :=
  match row with
  | VDict d => Ok [dict_get_none d "ts"; dict_get_none d "session_id"; dict_get_none d "tool_use_id";
                   or_else d "tool_name" "tool"; dict_get_none d "decision"]
  | _ => Raise AttributeError
  end.

Section Times.
(** [datetime.fromtimestamp(ts, tz=utc).isoformat()], [None] when it raises. *)
Variable iso_of : pyval -> option string.

Definition ts_sort_key (row : pyval) : string :=
  match row with
  | VDict d =>
      let ts := dict_get_default d "ts" (VStr "") in
      if is_int ts || is_float ts then default (py_str ts) (iso_of ts)
      else match ts with VNone => "" | _ => py_str ts end
  | _ => ""
  end.

Definition audit_sort_key (row : pyval) : string :=
  match row with VDict d => py_str (dict_get_default d "ts" (VStr "")) | _ => "" end.

(** ** The three fan-outs *)

Definition base_params (since : option string) (limit : option Z) : list (string * string) :=
  match given since with Some s => [("since", s)] | None => [] end ++
  match limit with Some n => [("limit", py_str_int n)] | None => [] end.

Definition if_given (k : string) (v : option string) : list (string * string) :=
  match given v with Some s => [(k, s)] | None => [] end.

Definition auth_headers (auth_token : option string) : list (string * string) :=
  match given auth_token with Some t => [("Authorization", "Bearer " +:+ t)] | None => [] end.

Section Fan.
Variable parse_body : string -> res (option pyval).
Variable get : string -> list (string * string) -> list (string * string) -> option response.
Variable max_bytes : Z.

(** The merged rows, or what escapes; and the backends whose failure was
    counted. *)
Definition fan_out (path : string) (row_key : pyval -> res (list pyval)) (sort_key : pyval -> string)
    (params : list (string * string)) (limit : option Z) (auth_token : option string) (backends : list backend_config) :
    res (list pyval) * list pyval :=
  let fetched := fetch_one parse_body get max_bytes path params (auth_headers auth_token) <$> backends in
  (rows <-- dedup row_key [] (mjoin fetched.*1) ;; Ok (last_rows limit (py_sort sort_key rows)),
   (fun bf => b_id bf.1) <$> filter (fun bf => bf.2.2 = true) (combine backends fetched)).

Definition fetch_backend_conversations backends since limit auth_token :=
  fan_out "/conversations" conversation_key ts_sort_key (base_params since limit) limit auth_token backends.

Definition fetch_backend_trace backends since limit auth_token :=
  fan_out "/trace" trace_key ts_sort_key (base_params since limit) limit auth_token backends.

Definition fetch_backend_tool_audit backends since limit decision tool session auth_token :=
  fan_out "/tool-audit" tool_audit_key audit_sort_key
    (base_params since limit ++ if_given "decision" decision ++ if_given "tool" tool ++ if_given "session" session)
    limit auth_token backends.

(** *** The endpoints of the harness (harness/main.py) *)

Variable fromisoformat : string -> option stamp.
Variable environ : string -> option string.

(** [GET /conversations] and [GET /trace] over the configured backends. *)
Definition conversations_endpoint (authorization : string) (query : list (string * string)) (backends : list backend_config) : answer :=
  proxy_conversations_handler fromisoformat environ (default "" (environ "CONVERSATIONS_AUTH_TOKEN")) authorization query
    (fun since limit => (fetch_backend_conversations backends since limit (given (environ "BACKEND_CONVERSATIONS_AUTH_TOKEN"))).1).

Definition trace_endpoint (authorization : string) (query : list (string * string)) (backends : list backend_config) : answer :=
  proxy_trace_handler fromisoformat environ (default "" (environ "CONVERSATIONS_AUTH_TOKEN")) authorization query
    (fun since limit => (fetch_backend_trace backends since limit (given (environ "BACKEND_CONVERSATIONS_AUTH_TOKEN"))).1).
End Fan.
End Times.

(** ** Lemmas: the sort *)

Section SortLemmas.
Context {A : Type}.
Variable sort_key : A -> string.
#[local] Abbreviation insert_row := (insert_row sort_key).
#[local] Abbreviation py_sort := (py_sort sort_key).
#[local] Abbreviation key_le := (key_le sort_key).

Lemma leb_le a b : String.leb a b = true <-> String.le a b.
Proof. unfold String.le. by destruct (String.leb a b). Qed.

Lemma leb_false a b : String.leb a b = false -> String.le b a.
Proof. intros H. destruct (total String.le a b) as [Hab|]; [|done]. apply leb_le in Hab. congruence. Qed.

#[local] Instance key_le_trans : Transitive key_le.
Proof. intros x y z. apply (transitivity (R := String.le)). Qed.

Lemma insert_row_perm x l : insert_row x l ≡ₚ x :: l.
Proof. induction l as [|y l IH]; cbn; [done|]. destruct (String.leb _ _); [done|]. rewrite IH. apply Permutation_swap. Qed.

Lemma py_sort_perm l : py_sort l ≡ₚ l.
Proof. induction l as [|x l IH]; cbn; [done|]. by rewrite insert_row_perm, IH. Qed.

Lemma insert_row_sorted x l : StronglySorted key_le l -> StronglySorted key_le (insert_row x l).
Proof.
  induction 1 as [|y l Hl IH Hy]; cbn; [repeat constructor|]. destruct (String.leb _ _) eqn:E.
  - apply leb_le in E. constructor; [by constructor|]. constructor; [done|]. eapply Forall_impl; [exact Hy|].
    intros z Hz. by etrans.
  - constructor; [done|]. rewrite insert_row_perm. constructor; [by apply leb_false|done].
Qed.

Lemma py_sort_sorted l : StronglySorted key_le (py_sort l).
Proof. induction l; cbn; [constructor|by apply insert_row_sorted]. Qed.

(** A row goes in front of the first row that is not older. *)
Lemma insert_row_split x l :
  exists p q, insert_row x l = p ++ x :: q /\ l = p ++ q /\ Forall (fun y => String.leb (sort_key x) (sort_key y) = false) p.
Proof.
  induction l as [|y l (p & q & E & El & Hp)]; cbn; [by exists [], []|]. destruct (String.leb _ _) eqn:Hy; [by exists [], (y :: l)|].
  exists (y :: p), q. cbn. rewrite E. split_and!; [done|by rewrite El|by constructor].
Qed.

(** Inserting [y] with and without [x] in the list. *)
Lemma insert_row_mid y x p q :
  StronglySorted key_le (p ++ x :: q) ->
  exists p' q', insert_row y (p ++ x :: q) = p' ++ x :: q' /\ insert_row y (p ++ q) = p' ++ q' /\ (length q <= length q')%nat.
Proof.
  induction p as [|z p IH]; cbn; intros Hs.
  - destruct (String.leb (sort_key y) (sort_key x)) eqn:E.
    + exists [y], q. split_and!; [done| |done]. destruct q as [|z q]; [done|]. cbn.
      apply StronglySorted_inv in Hs as [_ Hx]. apply Forall_cons in Hx as [Hxz _]. apply leb_le in E.
      by replace (String.leb _ _) with true by (symmetry; apply leb_le; by etrans).
    + exists [], (insert_row y q). split_and!; [done..|]. rewrite insert_row_perm. cbn. lia.
  - destruct (String.leb (sort_key y) (sort_key z)) eqn:E; [by exists (y :: z :: p), q|].
    apply StronglySorted_inv in Hs as [Hs _]. destruct (IH Hs) as (p' & q' & E1 & E2 & Hl). exists (z :: p'), q'.
    by rewrite E1, E2.
Qed.

(** A row comes before all the rows behind it in the list that are not older. *)
Lemma py_sort_split l1 x l2 :
  exists p q, py_sort (l1 ++ x :: l2) = p ++ x :: q /\ py_sort (l1 ++ l2) = p ++ q /\
    (length (filter (fun y => String.leb (sort_key x) (sort_key y) = true) l2) <= length q)%nat.
Proof.
  induction l1 as [|y l1 (p & q & E1 & E2 & Hl)]; cbn.
  - destruct (insert_row_split x (py_sort l2)) as (p & q & E & El & Hp). exists p, q. split_and!; [done..|].
    assert (filter (fun y => String.leb (sort_key x) (sort_key y) = true) l2 ≡ₚ
            filter (fun y => String.leb (sort_key x) (sort_key y) = true) (p ++ q)) as -> by (by rewrite <-El, py_sort_perm).
    rewrite filter_app, (filter_none _ p); [apply length_filter|].
    eapply Forall_impl; [exact Hp|]. intros z Hz. cbn. congruence.
  - fold (py_sort (l1 ++ x :: l2)) (py_sort (l1 ++ l2)). pose proof (py_sort_sorted (l1 ++ x :: l2)) as Hs. rewrite E1 in Hs.
    destruct (insert_row_mid y x p q Hs) as (p' & q' & F1 & F2 & Hq). exists p', q'. rewrite E1, E2. split_and!; [done..|lia].
Qed.

Lemma lastn_remove n (p : list A) x q : (n <= length q)%nat -> lastn n (p ++ x :: q) = lastn n (p ++ q).
Proof.
  intros Hn. unfold lastn. rewrite !length_app. cbn [length].
  rewrite !drop_app_ge by lia.
  replace (length p + S (length q) - n - length p)%nat with (S (length q - n)) by lia.
  by replace (length p + length q - n - length p)%nat with (length q - n)%nat by lia.
Qed.

(** What a source drops beyond its last [n] rows never shows. *)
Lemma py_sort_lastn n pre l post :
  StronglySorted key_le l -> lastn n (py_sort (pre ++ l ++ post)) = lastn n (py_sort (pre ++ lastn n l ++ post)).
Proof.
  induction 1 as [|x l Hl IH Hx]; [done|]. destruct (decide (length l < n)%nat) as [Hlt|Hge].
  { rewrite (lastn_all n (x :: l)) by (cbn; lia). done. }
  replace (lastn n (x :: l)) with (lastn n l) by (symmetry; apply (lastn_remove n [] x l); lia).
  rewrite <-IH. cbn. destruct (py_sort_split pre x (l ++ post)) as (p & q & -> & -> & Hq). apply lastn_remove.
  rewrite filter_app, length_app, filter_all in Hq; [lia|]. eapply Forall_impl; [exact Hx|]. intros y. apply leb_le.
Qed.

Lemma py_sort_lastn_all n pre ls :
  Forall (StronglySorted key_le) ls -> lastn n (py_sort (pre ++ mjoin ls)) = lastn n (py_sort (pre ++ mjoin (lastn n <$> ls))).
Proof.
  intros Hls. revert pre. induction Hls as [|l ls Hl _ IH]; intros pre; cbn; [done|].
  rewrite py_sort_lastn by done. by rewrite !app_assoc, IH.
Qed.
End SortLemmas.

(** ** Lemmas: keys *)

Lemma key_eqb_sym a b : key_eqb a b = key_eqb b a.
Proof. destruct a, b; cbn; try done; try apply Z.eqb_sym; apply bool_decide_ext; split; congruence. Qed.

Lemma keys_eqb_refl k : forallb hashable k = true -> keys_eqb k k = true.
Proof.
  unfold keys_eqb. rewrite Nat.eqb_refl. cbn. induction k as [|v k IH]; cbn; [done|]. rewrite andb_true_iff. intros [Hv Hk].
  by rewrite key_eqb_refl, IH.
Qed.

Lemma keys_eqb_sym a b : keys_eqb a b = keys_eqb b a.
Proof.
  unfold keys_eqb. rewrite Nat.eqb_sym. f_equal. revert b. induction a as [|x a IH]; intros [|y b]; cbn; try done.
  by rewrite key_eqb_sym, IH.
Qed.

Section MergeLemmas.
Variable row_key : pyval -> res (list pyval).

(** The rows have keys, and no two the same. *)
Fixpoint distinct_rows (rows : list pyval) : Prop :=
  match rows with
  | [] => True
  | r :: rows => exists k, hash_key row_key r = Ok k /\
      (forall r' k', r' ∈ rows -> hash_key row_key r' = Ok k' -> keys_eqb k k' = false) /\ distinct_rows rows
  end.

Fixpoint distinctb (rows : list pyval) : bool :=
  match rows with
  | [] => true
  | r :: rows =>
      match hash_key row_key r with
      | Ok k =>
          forallb (fun r' => match hash_key row_key r' with Ok k' => negb (keys_eqb k k') | Raise _ => true end) rows && distinctb rows
      | Raise _ => false
      end
  end.

Lemma distinctb_true rows : distinctb rows = true -> distinct_rows rows.
Proof.
  induction rows as [|r rows IH]; cbn; [done|]. destruct (hash_key row_key r) as [k|]; [|done].
  rewrite andb_true_iff, forallb_forall. intros [Hall Hd]. exists k. split_and!; [done| |auto].
  intros r' k' Hin%list_elem_of_In Hk'. specialize (Hall r' Hin). rewrite Hk' in Hall. by apply negb_true_iff.
Qed.

Lemma hash_key_refl r k : hash_key row_key r = Ok k -> keys_eqb k k = true.
Proof.
  unfold hash_key. rewrite res_bind_Ok. intros (k' & _ & H). destruct (forallb hashable k') eqn:E; [|done].
  injection H as <-. by apply keys_eqb_refl.
Qed.

Lemma distinct_sublist rows rows' : rows' `sublist_of` rows -> distinct_rows rows -> distinct_rows rows'.
Proof.
  induction 1 as [|r l1 l2 Hs IH|r l1 l2 _ IH]; cbn; [done| |intros (k & _ & _ & H); auto].
  intros (k & Hk & Hne & H). exists k. split_and!; [done| |auto]. intros r' k' Hin. apply Hne.
  by apply (elem_of_sublist l1 l2).
Qed.

Lemma distinct_perm rows rows' : rows ≡ₚ rows' -> distinct_rows rows -> distinct_rows rows'.
Proof.
  induction 1 as [|r l1 l2 Hp IH|r1 r2 l|l1 l2 l3 _ IH1 _ IH2]; cbn; [done| | |auto].
  - intros (k & Hk & Hne & H). exists k. split_and!; [done| |auto]. intros r' k' Hin. apply Hne. by rewrite Hp.
  - intros (k2 & Hk2 & Hne2 & k1 & Hk1 & Hne1 & H). exists k1. split_and!; [done| |].
    + intros r' k' [->|Hin]%elem_of_cons Hk'; [|by apply (Hne1 r')]. assert (k' = k2) as -> by congruence.
      rewrite keys_eqb_sym. apply (Hne2 r1); [set_solver|done].
    + exists k2. split_and!; [done| |done]. intros r' k' Hin. apply Hne2. set_solver.
Qed.

Lemma dedup_distinct seen rows :
  distinct_rows rows -> (forall s r k, s ∈ seen -> r ∈ rows -> hash_key row_key r = Ok k -> keys_eqb s k = false) ->
  dedup row_key seen rows = Ok rows.
Proof.
  revert seen. induction rows as [|r rows IH]; intros seen; cbn; [done|]. intros (k & Hk & Hne & Hd) Hseen. rewrite Hk. cbn.
  replace (existsb _ seen) with false.
  2: { symmetry. apply not_true_iff_false. rewrite existsb_exists. intros (s & Hs & E). apply list_elem_of_In in Hs.
       rewrite (Hseen s r k) in E; [done|done|set_solver|done]. }
  rewrite IH; [done|done|]. intros s r' k' [->|Hs]%elem_of_cons Hr' Hk'; [by apply (Hne r')|]. apply (Hseen s r'); [done|set_solver|done].
Qed.

Lemma dedup_spec seen rows :
  match dedup row_key seen rows with
  | Ok out => out `sublist_of` rows /\ distinct_rows out /\
      (forall s r k, s ∈ seen -> r ∈ out -> hash_key row_key r = Ok k -> keys_eqb s k = false) /\
      (forall r, r ∈ rows -> exists k, hash_key row_key r = Ok k /\
         ((exists s, s ∈ seen /\ keys_eqb s k = true) \/
          exists r' k', r' ∈ out /\ hash_key row_key r' = Ok k' /\ keys_eqb k' k = true))
  | Raise e => exists r, r ∈ rows /\ hash_key row_key r = Raise e
  end.
Proof.
  revert seen. induction rows as [|r rows IH]; intros seen; cbn; [split_and!; [done|done|set_solver..]|].
  destruct (hash_key row_key r) as [k|e] eqn:Hk; cbn; [|exists r; split; [set_solver|done]].
  destruct (existsb (fun s => keys_eqb s k) seen) eqn:Hex.
  - specialize (IH seen). apply existsb_exists in Hex as (s & Hs%list_elem_of_In & Hsk).
    destruct (dedup row_key seen rows) as [out|e]; [|destruct IH as (r' & ? & ?); exists r'; split; [set_solver|done]].
    destruct IH as (Hsub & Hd & Hseen & Hall). split_and!; [by apply sublist_cons|done|done|].
    intros r' [->|Hr']%elem_of_cons; [|auto]. exists k. split; [done|]. left. by exists s.
  - specialize (IH (k :: seen)).
    destruct (dedup row_key (k :: seen) rows) as [out|e]; cbn; [|destruct IH as (r' & ? & ?); exists r'; split; [set_solver|done]].
    destruct IH as (Hsub & Hd & Hseen & Hall). split_and!.
    + by apply sublist_skip.
    + exists k. split_and!; [done| |done]. intros r' k' Hr' Hk'. apply (Hseen k r'); [set_solver|done..].
    + intros s r' k' Hs [->|Hr']%elem_of_cons Hk'; [|apply (Hseen s r'); [set_solver|done..]].
      assert (k' = k) as -> by congruence. apply not_true_iff_false. intros E. apply not_true_iff_false in Hex. apply Hex.
      apply existsb_exists. exists s. split; [by apply list_elem_of_In|done].
    + intros r' [->|Hr']%elem_of_cons.
      { exists k. split; [done|]. right. exists r, k. split_and!; [set_solver|done|by eapply hash_key_refl]. }
      destruct (Hall r' Hr') as (k' & Hk' & [(s & [->|Hs]%elem_of_cons & E)|(r0 & k0 & ? & ? & ?)]); exists k'; (split; [done|]).
      * right. exists r, k. split_and!; [set_solver|done|done].
      * left. by exists s.
      * right. exists r0, k0. split_and!; [set_solver|done|done].
Qed.
End MergeLemmas.

(** ** Lemmas: one backend *)

Section FetchLemmas.
Variable parse_body : string -> res (option pyval).
Variable get : string -> list (string * string) -> list (string * string) -> option response.
Variable max_bytes : Z.

(** What the backend [b] answers. *)
Definition answers (path : string) (params headers : list (string * string)) (b : backend_config) (rows : list pyval) : Prop :=
  exists url chunks, b_url b = VStr url /\ url <> "" /\
    get (str_rstrip "/" url +:+ path) params headers = Some (mk_response 200 chunks true) /\
    (max_bytes <= 0 \/ str_len (str_concat chunks) <= max_bytes) /\
    parse_body (str_concat chunks) = Ok (Some (VList rows)).

Lemma capped_body_spec total acc chunks complete body :
  capped_body max_bytes total acc chunks complete = Ok (Some body) <->
  complete = true /\ body = acc +:+ str_concat chunks /\ (chunks = [] \/ total + str_len (str_concat chunks) <= max_bytes).
Proof.
  revert total acc. induction chunks as [|c cs IH]; intros total acc; cbn [capped_body].
  - destruct complete; [|naive_solver]. change (str_concat []) with "". rewrite str_app_nil_r. naive_solver.
  - change (str_concat (c :: cs)) with (c +:+ str_concat cs). rewrite str_len_app.
    assert (0 <= str_len (str_concat cs)) as Hn by (unfold str_len; lia).
    destruct (Z.ltb_spec max_bytes (total + str_len c)) as [Hlt|Hge].
    + split; [done|]. intros (_ & _ & [[=]|H]). lia.
    + rewrite IH, str_app_assoc. split; intros (-> & -> & H); (split_and!; [done..|]).
      * right. destruct H as [->|H]; [change (str_len (str_concat [])) with 0|]; lia.
      * destruct H as [[=]|H]. right. lia.
Qed.

Lemma fetch_one_answers path params headers b rows :
  answers path params headers b rows -> fetch_one parse_body get max_bytes path params headers b = (rows, false).
Proof.
  intros (url & chunks & Hu & Hne & Hg & Hm & Hp). unfold fetch_one. rewrite Hu. cbn [truthy]. rewrite bool_decide_true by done.
  cbn [negb]. unfold capped_get_json. rewrite Hg. cbn [rs_status rs_chunks rs_complete negb Z.eqb Pos.eqb].
  destruct (Z.leb_spec max_bytes 0) as [H0|H0].
  - unfold whole_body. cbn. by rewrite Hp.
  - rewrite (proj2 (capped_body_spec 0 "" chunks true (str_concat chunks))); [cbn; by rewrite Hp|].
    split_and!; [done|done|]. right. lia.
Qed.

Lemma fetch_one_rows path params headers b row :
  row ∈ (fetch_one parse_body get max_bytes path params headers b).1 ->
  exists rows, answers path params headers b rows /\ row ∈ rows.
Proof.
  unfold fetch_one. destruct (truthy (b_url b)) eqn:Ht; cbn [negb]; [|by intros ?%elem_of_nil].
  destruct (b_url b) as [| | | |url| |] eqn:Hu; try by intros ?%elem_of_nil.
  cbn in Ht. apply bool_decide_eq_true in Ht.
  destruct (capped_get_json _ _ _ _ _ _) as [[c v]|e] eqn:Hc; [|by intros ?%elem_of_nil].
  unfold capped_get_json in Hc. destruct (get _ _ _) as [[status chunks complete]|] eqn:Hg; [|done]. cbn [rs_status rs_chunks rs_complete] in Hc.
  destruct (Z.eqb_spec status 200) as [->|Hs]; cbn [negb] in Hc.
  2: { apply res_bind_Ok in Hc as (? & _ & [= <- <-]). replace (status =? 200) with false by lia. by intros ?%elem_of_nil. }
  assert (Hrow : forall rows, v = Some (VList rows) -> (max_bytes <= 0 \/ str_len (str_concat chunks) <= max_bytes) /\ complete = true /\
            parse_body (str_concat chunks) = Ok (Some (VList rows))).
  { intros rows ->. destruct (Z.leb_spec max_bytes 0) as [H0|H0].
    - apply res_bind_Ok in Hc as (body & Hb & Hc). apply res_bind_Ok in Hc as (? & Hp & [= <- ->]).
      unfold whole_body in Hb. cbn in Hb. destruct complete; [|done]. injection Hb as <-. auto.
    - apply res_bind_Ok in Hc as ([body|] & Hb & Hc); [|done]. apply res_bind_Ok in Hc as (? & Hp & [= <- ->]).
      apply capped_body_spec in Hb as (-> & -> & Hlen). split_and!; [|done|done]. right. destruct Hlen as [->|?]; [change (str_len (str_concat [])) with 0|]; lia. }
  assert (c = 200) as ->.
  { destruct (max_bytes <=? 0).
    - apply res_bind_Ok in Hc as (? & _ & Hc). by apply res_bind_Ok in Hc as (? & _ & [= <- _]).
    - apply res_bind_Ok in Hc as ([] & _ & Hc); [|by injection Hc]. by apply res_bind_Ok in Hc as (? & _ & [= <- _]). }
  rewrite Z.eqb_refl. cbn [fst]. destruct v as [[| | | | |rows|]|]; try by intros ?%elem_of_nil. intros Hin. exists rows. split; [|done].
  destruct (Hrow rows eq_refl) as (Hm & -> & Hp). exists url, chunks. done.
Qed.
End FetchLemmas.

Lemma elem_of_combine_fmap {A B} (f : A -> B) l a b : (a, b) ∈ combine l (f <$> l) -> a ∈ l /\ b = f a.
Proof.
  induction l as [|x l IH]; cbn; [by intros ?%elem_of_nil|]. intros [[= -> ->]|H]%elem_of_cons; [split; [set_solver|done]|].
  destruct (IH H). split; [set_solver|done].
Qed.

(** ** Theorems *)

Section Theorems.
Variable iso_of : pyval -> option string.
Variable parse_body : string -> res (option pyval).
Variable get : string -> list (string * string) -> list (string * string) -> option response.
Variable max_bytes : Z.
#[local] Abbreviation fan_out := (fan_out parse_body get max_bytes).
#[local] Abbreviation fetch := (fetch_one parse_body get max_bytes).
#[local] Abbreviation answers := (answers parse_body get max_bytes).

Lemma last_rows_elem limit rows r : r ∈ last_rows limit rows -> r ∈ rows.
Proof.
  unfold last_rows. destruct limit as [n|]; [|done]. destruct (0 <? n); [apply elem_of_lastn|].
  destruct (n =? 0); [done|]. intros H. by apply (elem_of_sublist (drop (Z.to_nat (- n)) rows)); [|apply sublist_drop].
Qed.

Lemma last_rows_suffix limit rows : exists pre, rows = pre ++ last_rows limit rows.
Proof.
  unfold last_rows. destruct limit as [n|]; [|by exists []]. destruct (0 <? n); [apply lastn_suffix|].
  destruct (n =? 0); [by exists []|]. exists (take (Z.to_nat (- n)) rows). by rewrite take_drop.
Qed.

Lemma fetched_rows path params headers backends row :
  row ∈ mjoin (fetch path params headers <$> backends).*1 ->
  exists b rows, b ∈ backends /\ answers path params headers b rows /\ row ∈ rows.
Proof.
  rewrite list_elem_of_join. intros (rows & Hrow & Hin). rewrite <-list_fmap_compose in Hin.
  apply list_elem_of_fmap in Hin as (b & -> & Hb). destruct (fetch_one_rows _ _ _ _ _ _ _ _ Hrow) as (rows & ? & ?).
  exists b, rows. done.
Qed.

Lemma answered_rows path params headers backends b rows row :
  b ∈ backends -> answers path params headers b rows -> row ∈ rows -> row ∈ mjoin (fetch path params headers <$> backends).*1.
Proof.
  intros Hb Ha Hrow. apply list_elem_of_join. exists rows. split; [done|]. rewrite <-list_fmap_compose.
  apply list_elem_of_fmap. exists b. split; [|done]. cbn. by rewrite (fetch_one_answers _ _ _ _ _ _ _ _ Ha).
Qed.


Lemma join_lastn_sublist n (ls : list (list pyval)) : mjoin (lastn n <$> ls) `sublist_of` mjoin ls.
Proof.
  induction ls as [|l ls IH]; cbn; [done|]. apply sublist_app; [|done]. destruct (lastn_suffix n l) as (pre & E). rewrite E at 2.
  by apply sublist_inserts_l.
Qed.

Lemma fan_out_distinct path row_key sort_key params limit auth_token backends rows :
  mjoin (fetch path params (auth_headers auth_token) <$> backends).*1 = rows -> distinct_rows row_key rows ->
  (fan_out path row_key sort_key params limit auth_token backends).1 = Ok (last_rows limit (py_sort sort_key rows)).
Proof. intros E Hd. unfold ConversationsProxy.fan_out. cbn [fst]. rewrite E, dedup_distinct; [done|done|]. set_solver. Qed.

(** Asking every backend for its last [n] rows loses none of the last [n]
    rows of all: when each log is in the order of its times, no row is in two of
    them, and a backend that is given a limit answers the last rows of what it
    answers without one, the limited fan-out returns exactly the last [n] rows
    of the unlimited one, ties included. *)
Theorem limit_reaches_the_same_rows since n auth_token backends :
  let rows_with limit b := (fetch "/conversations" (base_params since limit) (auth_headers auth_token) b).1 in
  0 < n ->
  (forall b, b ∈ backends -> rows_with (Some n) b = lastn (Z.to_nat n) (rows_with None b)) ->
  (forall b, b ∈ backends -> StronglySorted (key_le (ts_sort_key iso_of)) (rows_with None b)) ->
  distinct_rows conversation_key (mjoin (rows_with None <$> backends)) ->
  exists all,
    (fetch_backend_conversations iso_of parse_body get max_bytes backends since None auth_token).1 = Ok all /\
    (fetch_backend_conversations iso_of parse_body get max_bytes backends since (Some n) auth_token).1 = Ok (lastn (Z.to_nat n) all).
Proof.
  cbv zeta. intros Hn Hlim Hsorted Hd. set (L := (fun b => (fetch "/conversations" (base_params since None) (auth_headers auth_token) b).1) <$> backends) in *.
  assert (E : mjoin (fetch "/conversations" (base_params since (Some n)) (auth_headers auth_token) <$> backends).*1 =
              mjoin (lastn (Z.to_nat n) <$> L)).
  { f_equal. unfold L. rewrite <-!list_fmap_compose. apply list_fmap_ext. intros i b Hi. cbn. apply Hlim.
    by eapply list_elem_of_lookup_2. }
  exists (py_sort (ts_sort_key iso_of) (mjoin L)). split.
  - unfold fetch_backend_conversations. rewrite (fan_out_distinct _ _ _ _ _ _ _ (mjoin L)); [done| |done].
    unfold L. by rewrite <-list_fmap_compose.
  - unfold fetch_backend_conversations. rewrite (fan_out_distinct _ _ _ _ _ _ _ _ E).
    2: { eapply distinct_sublist; [apply join_lastn_sublist|done]. }
    unfold last_rows. destruct (Z.ltb_spec 0 n); [|lia]. f_equal. symmetry.
    apply (py_sort_lastn_all (ts_sort_key iso_of) (Z.to_nat n) [] L). unfold L. apply Forall_fmap, Forall_forall. exact Hsorted.
Qed.
End Theorems.

(** The endpoint returns rows of the backends to whom the harness's own gate
    admits, and to nobody else. *)
Theorem endpoint_rows iso_of parse_body get max_bytes fromisoformat environ authorization query backends rows :
  conversations_endpoint iso_of parse_body get max_bytes fromisoformat environ authorization query backends = Rows rows ->
  authorised environ (default "" (environ "CONVERSATIONS_AUTH_TOKEN")) authorization /\
  exists limit, parse_limit query = Some limit /\
    (fetch_backend_conversations iso_of parse_body get max_bytes backends (param query "since") limit
       (given (environ "BACKEND_CONVERSATIONS_AUTH_TOKEN"))).1 = Ok rows.
Proof.
  unfold conversations_endpoint, proxy_conversations_handler. intros E.
  match type of E with checked _ _ ?t _ _ _ ?k = _ => pose proof (checked_spec fromisoformat environ t authorization query false k) as H end.
  rewrite E in H. destruct H as (Ha & since & limit & Hl & _ & Hk). split; [done|]. by exists limit.
Qed.

(** ** Examples and witnesses *)

Definition row_at (session : string) (ts : pyval) (text : string) : pyval :=
  VDict (mk_dict [("session_id", VStr session); ("ts", ts); ("text", VStr text)]).

Definition backend_at (id url : string) : backend_config := mk_backend (VStr id) VNone VNone (VStr url) [].

(** Two backends that keep the last rows they are asked for. *)
Definition log_of (url : string) : list pyval :=
  if decide (url = "http://a/conversations") then [row_at "a" (VStr "1") "x"; row_at "a" (VStr "3") "y"]
  else [row_at "b" (VStr "2") "z"; row_at "b" (VStr "3") "w"].

Definition echo_get (url : string) (params headers : list (string * string)) : option response :=
  Some (mk_response 200 [default "" (od_get params "limit"); url] true).

Definition echo_body (s : string) : res (option pyval) :=
  match s with
  | String "2" url => match keep_last (Some 2) (log_of url) with Ok rows => Ok (Some (VList rows)) | Raise e => Raise e end
  | String "1" url => match keep_last (Some 1) (log_of url) with Ok rows => Ok (Some (VList rows)) | Raise e => Raise e end
  | url => Ok (Some (VList (log_of url)))
  end.

Definition two_backends : list backend_config := [backend_at "A" "http://a/"; backend_at "B" "http://b"].

Definition no_iso (v : pyval) : option string := None.

Lemma limit_reaches_the_same_rows_witness :
  (fetch_backend_conversations no_iso echo_body echo_get 1000 two_backends None (Some 1) None).1 = Ok [row_at "b" (VStr "3") "w"] /\
  exists all,
    (fetch_backend_conversations no_iso echo_body echo_get 1000 two_backends None None None).1 = Ok all /\
    (fetch_backend_conversations no_iso echo_body echo_get 1000 two_backends None (Some 1) None).1 = Ok (lastn 1 all).
Proof.
  split; [vm_compute; reflexivity|].
  apply (limit_reaches_the_same_rows no_iso echo_body echo_get 1000 None 1 None two_backends).
  - lia.
  - intros b [->|[->|[]%elem_of_nil]%elem_of_cons]%elem_of_cons; vm_compute; reflexivity.
  - assert (forall url, StronglySorted (key_le (ts_sort_key no_iso)) (log_of url)) as Hlog.
    { intros url. unfold log_of. case_decide; repeat constructor. }
    intros b [->|[->|[]%elem_of_nil]%elem_of_cons]%elem_of_cons.
    + replace (_.1) with (log_of "http://a/conversations") by (vm_compute; reflexivity). apply Hlog.
    + replace (_.1) with (log_of "http://b/conversations") by (vm_compute; reflexivity). apply Hlog.
  - apply distinctb_true. vm_compute. reflexivity.
Defined.

(** One row that is no mapping, from one backend, and nobody's rows are
    returned. *)
Example one_bad_row_fails_all :
  let get url _ _ := Some (mk_response 200 [url] true) in
  let parse url := Ok (Some (VList (if decide (url = "http://a/conversations") then [VStr "oops"] else [row_at "b" (VStr "2") "z"]))) in
  fetch_backend_conversations no_iso parse get 1000 two_backends None None None = (Raise AttributeError, []).
Proof. vm_compute. reflexivity. Qed.

(** Two rows of one session and time whose texts agree on 64 characters are
    taken for one. *)
Example long_texts_merged :
  let prefix := str_join "" (replicate 64 "x") in
  let get url _ _ := Some (mk_response 200 [url] true) in
  let parse (_ : string) := Ok (Some (VList [row_at "s" (VStr "1") (prefix +:+ "a"); row_at "s" (VStr "1") (prefix +:+ "b")])) in
  (fetch_backend_conversations no_iso parse get 1000 [backend_at "A" "http://a"] None None None).1 =
    Ok [row_at "s" (VStr "1") (prefix +:+ "a")].
Proof. vm_compute. reflexivity. Qed.

(** The tool audit sorts numbers and ISO texts as texts: a number of this year
    comes before a text of 2024, and a limit drops it. *)
Example audit_times_mixed :
  let get url _ _ := Some (mk_response 200 [url] true) in
  let parse url := Ok (Some (VList (if decide (url = "http://a/tool-audit") then [row_at "new" (VInt 1767225600) "x"]
                                    else [row_at "old" (VStr "2024-01-01T00:00:00+00:00") "y"]))) in
  let iso v := match v with VInt 1767225600 => Some "2026-01-01T00:00:00+00:00" | _ => None end in
  (fetch_backend_tool_audit parse get 1000 two_backends None (Some 1) None None None None).1 =
    Ok [row_at "old" (VStr "2024-01-01T00:00:00+00:00") "y"] /\
  ts_sort_key iso (row_at "new" (VInt 1767225600) "x") = "2026-01-01T00:00:00+00:00".
Proof. vm_compute. done. Qed.
