(* ===== verification/McpStacks.v ===== *)
(** * Stacks of tool servers (backends/openai/executor.py, backends/gemini/executor.py)

    A backend enters the tool servers of its configuration once, in an
    [AsyncExitStack]; requests share the current stack and a reload replaces it.
    A replaced stack is parked until the last request that uses it releases it.
    [_apply_mcp_config], [_acquire_mcp_stack], [_release_mcp_stack], [close] and
    the watchdog of the Gemini backend are cut at their awaits; the critical
    sections exclude each other by the lock. What servers start, cancellations
    and the clock are arguments of the steps. *)
From S2P Require Import Prelude PyStr.

(** ** State *)

(** The servers that started in it; ghost: how often the stack was closed. *)
Record stack : Type := mk_stack { sk_servers : list string; sk_closed : nat }.

(** A request: before it has the lock to acquire; with what it acquired; before
    it has the lock to release; closing a parked stack under the lock; over. *)
Inductive client : Type :=
| Acquiring
| Using (held : option nat) (servers : list string)
| Releasing (s : nat)
| ClosingOld (s : nat)
| Finished.

(** A reload: before it has the lock; closing the stack it replaces; entering
    the servers [todo] into the new one. *)
Inductive reload : Type :=
| Queued (config : list string)
| ClosingPrev (s : nat) (config : list string)
| Entering (s : nat) (todo live : list string).

(** [close]: not called; closing the current stack; draining the parked ones;
    closing one of them; done. *)
Inductive shutdown : Type := Running | ShutCurrent (s : nat) | Draining | ShutOld (s : nat) | Shut.

Inductive actor : Type := AClient (i : nat) | AReload (r : nat).

Record pool : Type := mk_pool {
  m_stacks : gmap nat stack;
  (** [_mcp_stack], [_live_mcp_servers], [_mcp_stack_refcount],
      [_mcp_old_stacks] (with the time they were parked), [_mcp_servers_lock] *)
  m_current : option nat;
  m_live : list string;
  m_ref : Z;
  m_old : list (nat * Z * Z);
  m_lock : option actor;
  m_clients : gmap nat client;
  m_reloads : gmap nat reload;
  (** the stacks the watchdog is closing *)
  m_watchdog : list nat;
  m_shutdown : shutdown;
  (** ghost: references whose release was cancelled; stacks that a cancelled
      task left behind; stacks closed whatever their references *)
  m_lost : list nat;
  m_abandoned : list nat;
  m_forced : list nat
}.

Definition new_pool : pool := mk_pool ∅ None [] 0 [] None ∅ ∅ [] Running [] [] [].

Definition set_stacks (w : pool) (ss : gmap nat stack) : pool :=
  mk_pool ss (m_current w) (m_live w) (m_ref w) (m_old w) (m_lock w) (m_clients w) (m_reloads w) (m_watchdog w) (m_shutdown w)
    (m_lost w) (m_abandoned w) (m_forced w).

Definition set_current (w : pool) (s : option nat) (live : list string) (ref : Z) : pool :=
  mk_pool (m_stacks w) s live ref (m_old w) (m_lock w) (m_clients w) (m_reloads w) (m_watchdog w) (m_shutdown w)
    (m_lost w) (m_abandoned w) (m_forced w).

Definition set_old (w : pool) (old : list (nat * Z * Z)) : pool :=
  mk_pool (m_stacks w) (m_current w) (m_live w) (m_ref w) old (m_lock w) (m_clients w) (m_reloads w) (m_watchdog w) (m_shutdown w)
    (m_lost w) (m_abandoned w) (m_forced w).

Definition set_lock (w : pool) (l : option actor) : pool :=
  mk_pool (m_stacks w) (m_current w) (m_live w) (m_ref w) (m_old w) l (m_clients w) (m_reloads w) (m_watchdog w) (m_shutdown w)
    (m_lost w) (m_abandoned w) (m_forced w).

Definition set_client (w : pool) (i : nat) (c : client) : pool :=
  mk_pool (m_stacks w) (m_current w) (m_live w) (m_ref w) (m_old w) (m_lock w) (<[i := c]> (m_clients w)) (m_reloads w)
    (m_watchdog w) (m_shutdown w) (m_lost w) (m_abandoned w) (m_forced w).

Definition set_reloads (w : pool) (rs : gmap nat reload) : pool :=
  mk_pool (m_stacks w) (m_current w) (m_live w) (m_ref w) (m_old w) (m_lock w) (m_clients w) rs (m_watchdog w) (m_shutdown w)
    (m_lost w) (m_abandoned w) (m_forced w).

Definition set_watchdog (w : pool) (l : list nat) : pool :=
  mk_pool (m_stacks w) (m_current w) (m_live w) (m_ref w) (m_old w) (m_lock w) (m_clients w) (m_reloads w) l (m_shutdown w)
    (m_lost w) (m_abandoned w) (m_forced w).

Definition set_shutdown (w : pool) (sd : shutdown) : pool :=
  mk_pool (m_stacks w) (m_current w) (m_live w) (m_ref w) (m_old w) (m_lock w) (m_clients w) (m_reloads w) (m_watchdog w) sd
    (m_lost w) (m_abandoned w) (m_forced w).

(** Ghost updates. *)
Definition lose (w : pool) (s : nat) : pool :=
  mk_pool (m_stacks w) (m_current w) (m_live w) (m_ref w) (m_old w) (m_lock w) (m_clients w) (m_reloads w) (m_watchdog w)
    (m_shutdown w) (s :: m_lost w) (m_abandoned w) (m_forced w).

Definition abandon (w : pool) (l : list nat) : pool :=
  mk_pool (m_stacks w) (m_current w) (m_live w) (m_ref w) (m_old w) (m_lock w) (m_clients w) (m_reloads w) (m_watchdog w)
    (m_shutdown w) (m_lost w) (l ++ m_abandoned w) (m_forced w).

Definition force (w : pool) (l : list nat) : pool :=
  mk_pool (m_stacks w) (m_current w) (m_live w) (m_ref w) (m_old w) (m_lock w) (m_clients w) (m_reloads w) (m_watchdog w)
    (m_shutdown w) (m_lost w) (m_abandoned w) (l ++ m_forced w).

(** [aclose], whose exceptions are logged; a server entered. *)
Definition closed_stack (w : pool) (s : nat) : pool :=
  set_stacks w (alter (fun k => mk_stack (sk_servers k) (S (sk_closed k))) s (m_stacks w)).

Definition entered (w : pool) (s : nat) (x : string) : pool :=
  set_stacks w (alter (fun k => mk_stack (sk_servers k ++ [x]) (sk_closed k)) s (m_stacks w)).

(** ** Requests *)

Definition acquire_mcp_stack (w : pool) (i : nat) : pool :=
  match m_current w with
  | Some s => set_client (set_current w (Some s) (m_live w) (m_ref w + 1)) i (Using (Some s) (m_live w))
  | None => set_client w i (Using None (m_live w))
  end.

(** The first entry of the parked stacks for [s]: what is before it, its
    count and time, what is after. *)
Fixpoint find_old (old : list (nat * Z * Z)) (s : nat) : option (list (nat * Z * Z) * Z * Z * list (nat * Z * Z)) :=
  match old with
  | [] => None
  | (s', n, t) :: old =>
      if decide (s' = s) then Some ([], n, t, old)
      else match find_old old s with Some (pre, m, u, post) => Some ((s', n, t) :: pre, m, u, post) | None => None end
  end.

(** [_release_mcp_stack] of a stack, from its lock to its next await. *)
Definition release_mcp_stack (w : pool) (i s : nat) : pool :=
  if decide (m_current w = Some s) then
    set_client (set_current w (Some s) (m_live w) (if 0 <? m_ref w then m_ref w - 1 else m_ref w)) i Finished
  else
    match find_old (m_old w) s with
    | Some (pre, n, t, post) =>
        if n - 1 <=? 0 then set_client (set_lock (set_old w (pre ++ post)) (Some (AClient i))) i (ClosingOld s)
        else set_client (set_old w (pre ++ (s, n - 1, t) :: post)) i Finished
    | None => set_client w i Finished
    end.

Definition old_closed (w : pool) (i s : nat) : pool := set_client (set_lock (closed_stack w s) None) i Finished.

(** What a request does when it ends or is cancelled: a request that holds a
    stack goes to release it; one that waits to release it is gone. *)
Definition end_use (w : pool) (i : nat) (held : option nat) : pool :=
  set_client w i (match held with Some s => Releasing s | None => Finished end).

(** ** Reloads *)

Section Reloads.
(** Whether an empty configuration makes a stack (OpenAI) or none (Gemini). *)
Variable empty_stack : bool.

(** After the previous stack is dealt with. *)
Definition build (w : pool) (r : nat) (config : list string) : pool :=
  if negb empty_stack && bool_decide (config = []) then set_lock (set_reloads w (delete r (m_reloads w))) None
  else
    let s := fresh (dom (m_stacks w)) in
    let w := set_stacks w (<[s := mk_stack [] 0]> (m_stacks w)) in
    set_lock (set_reloads w (<[r := Entering s config []]> (m_reloads w))) (Some (AReload r)).

Definition start_reload (w : pool) (r : nat) (config : list string) (now : Z) : pool :=
  match m_current w with
  | None => build w r config
  | Some s =>
      if m_ref w <=? 0 then
        set_lock (set_reloads (set_current w None [] 0) (<[r := ClosingPrev s config]> (m_reloads w))) (Some (AReload r))
      else build (set_old (set_current w None [] 0) (m_old w ++ [(s, m_ref w, now)])) r config
  end.

Definition prev_closed (w : pool) (r s : nat) (config : list string) : pool := build (closed_stack w s) r config.

(** One server: it starts, or is left out. *)
Definition enter_server (w : pool) (r s : nat) (x : string) (todo live : list string) (ok : bool) : pool :=
  if ok then set_reloads (entered w s x) (<[r := Entering s todo (live ++ [x])]> (m_reloads w))
  else set_reloads w (<[r := Entering s todo live]> (m_reloads w)).

Definition publish_stack (w : pool) (r s : nat) (live : list string) : pool :=
  set_lock (set_reloads (set_current w (Some s) live (m_ref w)) (delete r (m_reloads w))) None.

(** An exception outside the start of a server: the new stack is closed. *)
Definition unwind_reload (w : pool) (r s : nat) : pool := set_lock (set_reloads (closed_stack w s) (delete r (m_reloads w))) None.

(** A cancellation: no handler closes a stack that is being entered. *)
Definition cancel_reload (w : pool) (r : nat) (st : reload) : pool :=
  match st with
  | Queued _ => set_reloads w (delete r (m_reloads w))
  | ClosingPrev s _ => set_lock (set_reloads (closed_stack w s) (delete r (m_reloads w))) None
  | Entering s _ _ => set_lock (set_reloads (abandon w [s]) (delete r (m_reloads w))) None
  end.
End Reloads.

(** ** The watchdog *)

Section Watchdog.
(** [_mcp_parked_stack_max_age_s] and the hard grace. *)
Variables max_age hard_grace : Z.

Definition stale (now : Z) (e : nat * Z * Z) : bool :=
  let '(_, n, t) := e in (max_age <? now - t) && ((n <=? 0) || (hard_grace <? now - t)).

Definition watchdog_tick (w : pool) (now : Z) : pool :=
  let to_close := (fun e => e.1.1) <$> filter (fun e => stale now e = true) (m_old w) in
  force (set_watchdog (set_old w (filter (fun e => stale now e = false) (m_old w))) to_close) to_close.
End Watchdog.

Definition watchdog_close (w : pool) (s : nat) (rest : list nat) : pool := set_watchdog (closed_stack w s) rest.

(** Cancelled in the [aclose] of the first. *)
Definition watchdog_cancel (w : pool) : pool :=
  match m_watchdog w with
  | s :: rest => abandon (set_watchdog (closed_stack w s) []) rest
  | [] => w
  end.

(** ** Shutdown, after the reloads of the watchers and the watchdog are over
    (a first load that outlives its time limit, shielded, is taken to be over) *)

Definition begin_shutdown (w : pool) : pool :=
  match m_current w with
  | Some s => set_shutdown (force w [s]) (ShutCurrent s)
  | None => set_shutdown w Draining
  end.

Definition current_shut (w : pool) (s : nat) : pool := set_shutdown (set_current (closed_stack w s) None [] 0) Draining.

(** [pop()] takes the last one. *)
Definition drain_old (w : pool) : pool :=
  match last (m_old w) with
  | Some (s, _, _) => set_shutdown (force (set_old w (removelast (m_old w))) [s]) (ShutOld s)
  | None => set_shutdown w Shut
  end.

Definition old_shut (w : pool) (s : nat) : pool := set_shutdown (closed_stack w s) Draining.

(** ** Interleaving *)

Section Steps.
Variable empty_stack : bool.
Variables max_age hard_grace : Z.

Inductive pool_step : pool -> pool -> Prop :=
| ps_arrive w i : m_clients w !! i = None -> pool_step w (set_client w i Acquiring)
| ps_acquire w i : m_clients w !! i = Some Acquiring -> m_lock w = None -> pool_step w (acquire_mcp_stack w i)
| ps_leave w i : m_clients w !! i = Some Acquiring -> pool_step w (set_client w i Finished)
| ps_end w i held servers : m_clients w !! i = Some (Using held servers) -> pool_step w (end_use w i held)
| ps_release w i s : m_clients w !! i = Some (Releasing s) -> m_lock w = None -> pool_step w (release_mcp_stack w i s)
| ps_lose w i s : m_clients w !! i = Some (Releasing s) -> pool_step w (set_client (lose w s) i Finished)
| ps_old_closed w i s : m_clients w !! i = Some (ClosingOld s) -> pool_step w (old_closed w i s)
| ps_reload w r config :
    m_reloads w !! r = None -> m_shutdown w = Running -> pool_step w (set_reloads w (<[r := Queued config]> (m_reloads w)))
| ps_start w r config now :
    m_reloads w !! r = Some (Queued config) -> m_lock w = None -> pool_step w (start_reload empty_stack w r config now)
| ps_prev_closed w r s config :
    m_reloads w !! r = Some (ClosingPrev s config) -> pool_step w (prev_closed empty_stack w r s config)
| ps_enter w r s x todo live ok :
    m_reloads w !! r = Some (Entering s (x :: todo) live) -> pool_step w (enter_server w r s x todo live ok)
| ps_publish w r s live : m_reloads w !! r = Some (Entering s [] live) -> pool_step w (publish_stack w r s live)
| ps_unwind w r s todo live : m_reloads w !! r = Some (Entering s todo live) -> pool_step w (unwind_reload w r s)
| ps_cancel w r st : m_reloads w !! r = Some st -> pool_step w (cancel_reload w r st)
| ps_tick w now : m_lock w = None -> m_watchdog w = [] -> m_shutdown w = Running -> pool_step w (watchdog_tick max_age hard_grace w now)
| ps_watchdog_close w s rest : m_watchdog w = s :: rest -> pool_step w (watchdog_close w s rest)
| ps_watchdog_cancel w : pool_step w (watchdog_cancel w)
| ps_shutdown w : m_shutdown w = Running -> m_reloads w = ∅ -> m_watchdog w = [] -> pool_step w (begin_shutdown w)
| ps_current_shut w s : m_shutdown w = ShutCurrent s -> pool_step w (current_shut w s)
| ps_drain w : m_shutdown w = Draining -> pool_step w (drain_old w)
| ps_old_shut w s : m_shutdown w = ShutOld s -> pool_step w (old_shut w s).
End Steps.

(** ** Counting *)

Definition occ (s : nat) (l : list nat) : nat := length (filter (fun x => x = s) l).

#[local] Arguments occ : simpl never.
#[local] Arguments map_count : simpl never.
#[local] Arguments bool_decide : simpl never.

Lemma occ_nil s : occ s [] = 0%nat.
Proof. done. Qed.

Lemma occ_cons s x l : occ s (x :: l) = ((if decide (x = s) then 1 else 0) + occ s l)%nat.
Proof. unfold occ. rewrite filter_cons. by case_decide. Qed.

Ltac tally := cbn in *; rewrite ?occ_nil in *; repeat case_bool_decide; repeat case_decide; cbn in *; simplify_eq; try lia.

Lemma occ_app s l l' : occ s (l ++ l') = (occ s l + occ s l')%nat.
Proof. unfold occ. by rewrite filter_app, length_app. Qed.

Lemma occ_pos s l : s ∈ l -> (0 < occ s l)%nat.
Proof.
  intros Hs. unfold occ. assert (s ∈ filter (fun x => x = s) l) as H by (by apply list_elem_of_filter).
  destruct (filter _ l); [by apply elem_of_nil in H|cbn; lia].
Qed.

Lemma occ_0 s l : s ∉ l -> occ s l = 0%nat.
Proof.
  intros Hs. unfold occ. rewrite filter_none; [done|]. apply Forall_forall. intros x Hx ->. done.
Qed.

Definition holds (s : nat) (c : client) : bool :=
  match c with Using (Some s') _ | Releasing s' => bool_decide (s' = s) | _ => false end.

Definition closing (s : nat) (c : client) : bool := match c with ClosingOld s' => bool_decide (s' = s) | _ => false end.

Definition owns (s : nat) (rl : reload) : bool :=
  match rl with ClosingPrev s' _ | Entering s' _ _ => bool_decide (s' = s) | Queued _ => false end.

Definition old_ids (w : pool) : list nat := (fun e => e.1.1) <$> m_old w.

(** The references to a stack: of requests that use it or are about to release
    it, and those lost. *)
Definition refs (w : pool) (s : nat) : nat := (map_count (holds s) (m_clients w) + occ s (m_lost w))%nat.

Definition shutting (s : nat) (sd : shutdown) : nat :=
  match sd with ShutOld s' => if decide (s' = s) then 1%nat else 0%nat | _ => 0%nat end.

(** Who is in charge of closing it. *)
Definition custody (w : pool) (s : nat) : nat :=
  ((if decide (m_current w = Some s) then 1 else 0) + occ s (old_ids w) + map_count (closing s) (m_clients w) +
   map_count (owns s) (m_reloads w) + occ s (m_watchdog w) + shutting s (m_shutdown w) + occ s (m_abandoned w))%nat.

Definition busy (rl : reload) : bool := match rl with Queued _ => false | _ => true end.

Definition down (sd : shutdown) : bool := match sd with Draining | ShutOld _ | Shut => true | _ => false end.

Record pool_ok (w : pool) : Prop := {
  po_known : forall s k, m_stacks w !! s = Some k -> (sk_closed k + custody w s = 1)%nat;
  po_unknown : forall s, m_stacks w !! s = None -> custody w s = 0%nat /\ refs w s = 0%nat /\ s ∉ m_forced w;
  po_current : forall s, m_current w = Some s -> m_ref w = Z.of_nat (refs w s) /\
    exists k, m_stacks w !! s = Some k /\ m_live w = sk_servers k;
  po_none : m_current w = None -> m_ref w = 0 /\ m_live w = [];
  po_old : forall s n t, (s, n, t) ∈ m_old w -> n = Z.of_nat (refs w s) /\ 0 < n;
  po_free : forall s, s ∉ m_forced w -> (0 < refs w s)%nat -> m_current w = Some s \/ s ∈ old_ids w;
  po_busy : forall r rl, m_reloads w !! r = Some rl -> busy rl = true -> m_lock w = Some (AReload r) /\ m_current w = None;
  po_entering : forall r s todo live, m_reloads w !! r = Some (Entering s todo live) ->
    (s ∉ m_forced w) /\ (exists k, m_stacks w !! s = Some k /\ live = sk_servers k);
  po_reloads : m_shutdown w <> Running -> m_reloads w = ∅;
  po_closer : forall i s, m_clients w !! i = Some (ClosingOld s) -> m_lock w = Some (AClient i);
  po_shut : forall s, m_shutdown w = ShutCurrent s -> m_current w = Some s /\ s ∈ m_forced w;
  po_watch : m_shutdown w <> Running -> m_watchdog w = [];
  po_down : down (m_shutdown w) = true -> m_current w = None;
  po_drained : m_shutdown w = Shut -> m_old w = []
}.

Lemma closer_keep w i c :
  pool_ok w -> (forall s, c <> ClosingOld s) ->
  forall j s, <[i := c]> (m_clients w) !! j = Some (ClosingOld s) -> m_lock w = Some (AClient j).
Proof.
  intros Hw Hc j s. destruct (decide (i = j)) as [->|Hne].
  - rewrite lookup_insert_eq. intros [= E]. by apply Hc in E.
  - rewrite lookup_insert_ne by done. by apply po_closer.
Qed.

(** ** What requests do *)

(** A request changes what it holds; nothing else does. *)
Lemma client_counts w i c c' :
  m_clients w !! i = Some c ->
  (forall s, map_count (holds s) (<[i := c']> (m_clients w)) + (if holds s c then 1 else 0) =
             map_count (holds s) (m_clients w) + (if holds s c' then 1 else 0))%nat /\
  (forall s, map_count (closing s) (<[i := c']> (m_clients w)) + (if closing s c then 1 else 0) =
             map_count (closing s) (m_clients w) + (if closing s c' then 1 else 0))%nat.
Proof.
  intros Hi. split; intros s.
  - pose proof (map_count_insert (holds s) (m_clients w) i c') as E. by rewrite Hi in E.
  - pose proof (map_count_insert (closing s) (m_clients w) i c') as E. by rewrite Hi in E.
Qed.

(** Two worlds that agree on all but who holds what among the requests. *)
Lemma pool_ok_same w w' :
  pool_ok w -> m_stacks w' = m_stacks w -> m_current w' = m_current w -> m_live w' = m_live w -> m_ref w' = m_ref w ->
  m_old w' = m_old w -> (forall r, m_lock w = Some (AReload r) -> m_lock w' = m_lock w) -> m_reloads w' = m_reloads w ->
  m_shutdown w' = m_shutdown w -> m_watchdog w' = m_watchdog w -> m_forced w' = m_forced w ->
  (forall i s, m_clients w' !! i = Some (ClosingOld s) -> m_lock w' = Some (AClient i)) ->
  (forall s, refs w' s = refs w s) -> (forall s, custody w' s = custody w s) -> pool_ok w'.
Proof.
  intros [] E1 E2 E3 E4 E5 E6 E7 E8 Ewd E9 Ecl E10 E11. constructor; unfold old_ids in *; rewrite ?E1, ?E2, ?E3, ?E4, ?E5, ?E7, ?E8, ?E9, ?Ewd; try done.
  - intros s k. rewrite E11. auto.
  - intros s. rewrite E10, E11. auto.
  - intros s. rewrite E10. auto.
  - intros s n t. rewrite E10. eauto.
  - intros s. rewrite E10. auto.
  - intros r rl Hr Hb. destruct (po_busy0 r rl Hr Hb) as [Hl ?]. rewrite (E6 r Hl). auto.
Qed.

Lemma arrive_ok w i : pool_ok w -> m_clients w !! i = None -> pool_ok (set_client w i Acquiring).
Proof.
  intros Hw Hi. apply (pool_ok_same w); try done; [by apply (closer_keep w i)| |]; intros s; unfold refs, custody, old_ids; cbn;
    rewrite !map_count_fresh by done; cbn; lia.
Qed.

(** A request moves between stages with the same holdings. *)
Lemma shift_ok w i c c' :
  pool_ok w -> m_clients w !! i = Some c -> (forall s, holds s c' = holds s c) -> (forall s, closing s c' = closing s c) ->
  (forall s, c' <> ClosingOld s) ->
  pool_ok (set_client w i c').
Proof.
  intros Hw Hi Hh Hc Hno. destruct (client_counts w i c c' Hi) as [Eh Ec].
  apply (pool_ok_same w); try done; [by apply (closer_keep w i)| |]; intros s; unfold refs, custody, old_ids; cbn; specialize (Eh s); specialize (Ec s);
    rewrite Hh in Eh; rewrite Hc in Ec; destruct (holds s c), (closing s c); lia.
Qed.

Lemma end_use_ok w i held servers : pool_ok w -> m_clients w !! i = Some (Using held servers) -> pool_ok (end_use w i held).
Proof. intros Hw Hi. apply (shift_ok w i _ _ Hw Hi); intros s; by destruct held. Qed.

Lemma lose_ok w i s : pool_ok w -> m_clients w !! i = Some (Releasing s) -> pool_ok (set_client (lose w s) i Finished).
Proof.
  intros Hw Hi. destruct (client_counts w i _ Finished Hi) as [Eh Ec].
  apply (pool_ok_same w); try done; [by apply (closer_keep w i)| |]; intros s'; unfold refs, custody, old_ids; cbn; specialize (Eh s'); specialize (Ec s'); rewrite ?occ_cons; tally.
Qed.

Lemma stack_acquire_ok w i : pool_ok w -> m_clients w !! i = Some Acquiring -> pool_ok (acquire_mcp_stack w i).
Proof.
  intros Hw Hi. unfold acquire_mcp_stack. destruct (m_current w) as [s|] eqn:Hcur.
  2: { by apply (shift_ok w i Acquiring). }
  destruct (client_counts w i _ (Using (Some s) (m_live w)) Hi) as [Eh Ec]. pose proof Hw as [].
  set (w' := set_client _ _ _).
  assert (Hrefs : forall s', refs w' s' = (refs w s' + (if decide (s = s') then 1 else 0))%nat).
  { intros s'. unfold refs, w'. specialize (Eh s'). tally. }
  assert (Hcust : forall s', custody w' s' = custody w s').
  { intros s'. unfold custody, old_ids, w'. cbn. specialize (Ec s'). cbn in Ec. rewrite Hcur. lia. }
  destruct (po_current0 s Hcur) as (Href & k & Hk & Hlive). constructor; cbn; try done.
  - intros s' k'. rewrite Hcust. auto.
  - intros s' Hs'. rewrite Hcust, Hrefs. destruct (po_unknown0 s' Hs') as (? & ? & ?). rewrite decide_False by congruence. split_and!; [done|lia|done].
  - intros s' [= <-]. rewrite Hrefs, decide_True by done. split; [lia|by exists k].
  - intros s' n t Hin. destruct (po_old0 s' n t Hin) as [-> ?]. rewrite Hrefs. rewrite decide_False; [split; [lia|done]|]. intros <-.
    pose proof (po_known0 s k Hk) as Hc. unfold custody in Hc. rewrite Hcur, decide_True in Hc by done.
    pose proof (occ_pos s (old_ids w)) as Ho. assert (s ∈ old_ids w); [|specialize (Ho H0); lia].
    by apply (list_elem_of_fmap_2 (fun e => e.1.1) _ _ Hin).
  - intros s' Hf. rewrite Hrefs. case_decide as E; [subst; auto|]. intros Hpos.
    destruct (po_free0 s' Hf) as [Hc|?]; [lia| |by right]. left. congruence.
  - intros r rl Hr Hb. destruct (po_busy0 r rl Hr Hb) as [_ ?]. congruence.
  - by apply (closer_keep w i).
  - intros s' E. destruct (po_shut0 s' E). split; [congruence|done].
  - intros E. apply po_down0 in E. congruence.
Qed.

Lemma find_old_some old s pre n t post :
  find_old old s = Some (pre, n, t, post) -> old = pre ++ (s, n, t) :: post.
Proof.
  revert pre. induction old as [|[[s' n'] t'] old IH]; cbn; intros pre; [done|]. case_decide as E.
  - intros [= <- <- <- <-]. by rewrite E.
  - destruct (find_old old s) as [[[[pre' ?] ?] ?]|] eqn:Hf; [|done]. intros [= <- -> -> ->]. cbn. f_equal. by apply IH.
Qed.

Lemma find_old_none old s : find_old old s = None -> s ∉ (fun e : nat * Z * Z => e.1.1) <$> old.
Proof.
  induction old as [|[[s' n'] t'] old IH]; cbn; intros Hf; [apply not_elem_of_nil|]. case_decide as E; [done|].
  destruct (find_old old s) as [[[[? ?] ?] ?]|]; [done|]. apply not_elem_of_cons. split; [done|auto].
Qed.

(** A stack is in the charge of one place at most. *)
Lemma custody_one w s : pool_ok w -> (custody w s <= 1)%nat.
Proof.
  intros []. destruct (m_stacks w !! s) as [k|] eqn:Hk; [|destruct (po_unknown0 s Hk); lia]. specialize (po_known0 s k Hk). lia.
Qed.

Lemma old_id s n t (old : list (nat * Z * Z)) : (s, n, t) ∈ old -> s ∈ ((fun e : nat * Z * Z => e.1.1) <$> old : list nat).
Proof. intros H. apply (list_elem_of_fmap_2 (fun e => e.1.1) _ _ H). Qed.

Lemma current_not_old w s : pool_ok w -> m_current w = Some s -> s ∉ old_ids w.
Proof.
  intros Hw Hc Hin. apply occ_pos in Hin. pose proof (custody_one w s Hw) as H. unfold custody in H. rewrite Hc, decide_True in H by done. lia.
Qed.

(** [pool_ok] of a world where one request gave up one reference to [s], which
    is accounted for. *)
Lemma drop_ref_ok w w' s :
  pool_ok w -> (forall s', (refs w s' = refs w' s' + (if decide (s = s') then 1 else 0))%nat) ->
  (forall s', custody w' s' = custody w s') -> m_stacks w' = m_stacks w -> m_current w' = m_current w -> m_live w' = m_live w ->
  m_forced w' = m_forced w -> m_reloads w' = m_reloads w -> m_shutdown w' = m_shutdown w ->
  m_watchdog w' = m_watchdog w -> (m_old w = [] -> m_old w' = []) ->
  (forall i s, m_clients w' !! i = Some (ClosingOld s) -> m_lock w' = Some (AClient i)) ->
  (forall r, m_lock w = Some (AReload r) -> m_lock w' = m_lock w) ->
  (forall s', m_current w = Some s' -> m_ref w' = Z.of_nat (refs w' s')) -> (m_current w = None -> m_ref w' = 0) ->
  (forall s' n t, (s', n, t) ∈ m_old w' -> n = Z.of_nat (refs w' s') /\ 0 < n) ->
  (forall s', (0 < refs w' s')%nat -> s' ∈ old_ids w -> s' ∈ old_ids w') -> pool_ok w'.
Proof.
  intros [] Hr Hcu E1 E2 E3 E4 E5 E6 E7 E8 Hcl Hl H1 H2 H3 H4.
  constructor; rewrite ?E1, ?E2, ?E3, ?E4, ?E5, ?E6, ?E7; try done.
  - intros s' k. rewrite Hcu. auto.
  - intros s' Hs'. rewrite Hcu. destruct (po_unknown0 s' Hs') as (? & ? & ?). specialize (Hr s'). split_and!; [done|lia|done].
  - intros s' Hc. split; [auto|]. by apply po_current0.
  - intros Hc. split; [auto|]. by apply po_none0.
  - intros s' Hf Hpos. destruct (po_free0 s' Hf); [specialize (Hr s'); lia|by left|right; auto].
  - intros r rl Hrl Hb. destruct (po_busy0 r rl Hrl Hb) as [Hlk ?]. rewrite (Hl r Hlk). auto.
  - auto.
Qed.

(** The parked entry of a stack is the only one. *)
Lemma old_split w s pre n t post :
  pool_ok w -> m_old w = pre ++ (s, n, t) :: post -> n = Z.of_nat (refs w s) /\
  forall s' n' t', (s', n', t') ∈ pre ++ post -> s <> s' /\ (s', n', t') ∈ m_old w.
Proof.
  intros Hw Ho. split.
  { apply (po_old _ Hw s n t). rewrite Ho. set_solver. }
  intros s' n' t' Hin. split; [|rewrite Ho; set_solver]. intros <-.
  pose proof (custody_one w s Hw) as H. unfold custody, old_ids in H. rewrite Ho, fmap_app, fmap_cons, occ_app, occ_cons in H. cbn in H.
  apply old_id in Hin. rewrite fmap_app in Hin. apply occ_pos in Hin. rewrite occ_app in Hin. tally.
Qed.

Lemma release_parked w i s pre n t post :
  pool_ok w -> m_clients w !! i = Some (Releasing s) -> m_lock w = None -> m_current w <> Some s ->
  m_old w = pre ++ (s, n, t) :: post ->
  pool_ok (if n - 1 <=? 0 then set_client (set_lock (set_old w (pre ++ post)) (Some (AClient i))) i (ClosingOld s)
           else set_client (set_old w (pre ++ (s, n - 1, t) :: post)) i Finished).
Proof.
  intros Hw Hi Hl Hcur Ho. pose proof Hw as []. destruct (old_split w s pre n t post Hw Ho) as [Hn Hrest].
  set (w' := if n - 1 <=? 0 then _ else _).
  assert (Hrefs : forall s', (refs w s' = refs w' s' + (if decide (s = s') then 1 else 0))%nat).
  { intros s'. unfold w', refs. destruct (n - 1 <=? 0);
      [destruct (client_counts w i _ (ClosingOld s) Hi) as [Eh _]|destruct (client_counts w i _ Finished Hi) as [Eh _]];
      specialize (Eh s'); tally. }
  apply (drop_ref_ok w w' s); try done; try (unfold w'; by destruct (n - 1 <=? 0)).
  - intros s'. unfold custody, old_ids, w'. rewrite Ho, fmap_app, fmap_cons, occ_app, occ_cons. destruct (n - 1 <=? 0);
      [destruct (client_counts w i _ (ClosingOld s) Hi) as [_ Ec]|destruct (client_counts w i _ Finished Hi) as [_ Ec]];
      specialize (Ec s'); cbn [m_old set_client set_old set_lock]; rewrite fmap_app, ?fmap_cons, occ_app, ?occ_cons; tally.
  - rewrite Ho. by destruct pre.
  - unfold w'. destruct (n - 1 <=? 0); [|by apply (closer_keep w i)]. intros j s'. cbn. destruct (decide (i = j)) as [->|Hne]; [done|].
    rewrite lookup_insert_ne by done. intros Hj. apply po_closer0 in Hj. congruence.
  - unfold w'. destruct (n - 1 <=? 0); cbn; [|done]. congruence.
  - intros s' Hs. assert (m_ref w = Z.of_nat (refs w s')) by (by apply po_current0). specialize (Hrefs s').
    rewrite decide_False in Hrefs by congruence. replace (m_ref w') with (m_ref w) by (unfold w'; by destruct (n - 1 <=? 0)); lia.
  - intros Hs. destruct (po_none0 Hs). unfold w'. by destruct (n - 1 <=? 0).
  - intros s' n' t' Hin. specialize (Hrefs s').
    assert ((s', n', t') ∈ pre ++ post \/ 1 < n /\ s' = s /\ n' = n - 1) as [Hin'|(? & -> & ->)].
    { unfold w' in Hin. destruct (n - 1 <=? 0) eqn:?; cbn in Hin; [by left|]. apply elem_of_app in Hin as [?|Hin]; [set_solver|].
      apply elem_of_cons in Hin as [[= -> -> ->]|?]; [right; lia|set_solver]. }
    + destruct (Hrest s' n' t' Hin') as [Hne Hin2]. rewrite decide_False in Hrefs by done. destruct (po_old0 s' n' t' Hin2). lia.
    + rewrite decide_True in Hrefs by done. lia.
  - intros s' Hpos. specialize (Hrefs s'). unfold old_ids, w' in *. rewrite Ho, fmap_app, fmap_cons. cbn.
    destruct (n - 1 <=? 0) eqn:?; cbn; rewrite fmap_app, ?fmap_cons; cbn; [|done]. intros Hin.
    case_decide; [subst s'; lia|]. set_solver.
Qed.

Lemma stack_release_ok w i s :
  pool_ok w -> m_clients w !! i = Some (Releasing s) -> m_lock w = None -> pool_ok (release_mcp_stack w i s).
Proof.
  intros Hw Hi Hl. pose proof Hw as []. unfold release_mcp_stack. case_decide as Hcur; [|destruct (find_old (m_old w) s) as [[[[pre n] t] post]|] eqn:Hf].
  - destruct (client_counts w i _ Finished Hi) as [Eh Ec]. destruct (po_current0 s Hcur) as (Href & k & Hk & _).
    assert (Hpos : (0 < refs w s)%nat).
    { unfold refs. specialize (Eh s). tally. }
    apply (drop_ref_ok w _ s); try done; [| |by apply (closer_keep w i)| | |].
    + intros s'. unfold refs. specialize (Eh s'). tally.
    + intros s'. unfold custody, old_ids. specialize (Ec s'). rewrite Hcur. tally.
    + cbn. intros s' E. rewrite Hcur in E. injection E as <-. unfold refs in *. specialize (Eh s).
      assert ((0 <? m_ref w) = true) as -> by lia. tally.
    + congruence.
    + cbn. intros s' n t Hin. destruct (po_old0 s' n t Hin) as [-> ?]. split; [|done]. unfold refs. specialize (Eh s'). cbn.
      assert (s <> s') by (intros <-; apply old_id in Hin; by apply (current_not_old w s Hw Hcur)). tally.
  - apply (release_parked w i s pre n t post Hw Hi Hl Hcur). by apply find_old_some.
  - destruct (client_counts w i _ Finished Hi) as [Eh Ec]. apply find_old_none in Hf.
    apply (drop_ref_ok w _ s); try done; [| |by apply (closer_keep w i)| | |].
    + intros s'. unfold refs. specialize (Eh s'). tally.
    + intros s'. unfold custody, old_ids. specialize (Ec s'). tally.
    + intros s' E. cbn. destruct (po_current0 s' E) as [-> _]. unfold refs. specialize (Eh s'). tally.
    + intros E. by apply po_none0.
    + cbn. intros s' n t Hin. destruct (po_old0 s' n t Hin) as [-> ?]. split; [|done]. unfold refs. specialize (Eh s').
      assert (s <> s') by (intros <-; apply old_id in Hin; done). tally.
Qed.

(** ** Closing a stack *)

Lemma closed_lookup w s s' :
  m_stacks (closed_stack w s) !! s' = (fun k => mk_stack (sk_servers k) ((if decide (s = s') then 1 else 0) + sk_closed k)) <$> (m_stacks w !! s').
Proof.
  cbn. case_decide as E.
  - subst s'. rewrite lookup_alter_eq. by destruct (m_stacks w !! s) as [[]|].
  - rewrite lookup_alter_ne by done. by destruct (m_stacks w !! s') as [[]|].
Qed.

(** Whoever is in charge of a stack closes it. *)
Lemma retire_ok w w' s :
  pool_ok w -> m_stacks w' = m_stacks (closed_stack w s) ->
  (forall s', (custody w s' = custody w' s' + (if decide (s = s') then 1 else 0))%nat) -> (forall s', refs w' s' = refs w s') ->
  m_forced w' = m_forced w -> m_old w' = m_old w ->
  (m_current w' = m_current w /\ m_live w' = m_live w /\ m_ref w' = m_ref w \/
   m_current w' = None /\ m_live w' = [] /\ m_ref w' = 0 /\ down (m_shutdown w') = true /\ forall s', m_current w = Some s' -> s' ∈ m_forced w) ->
  (forall r rl, m_reloads w' !! r = Some rl -> m_reloads w !! r = Some rl /\ (busy rl = true -> m_lock w' = m_lock w)) ->
  (forall i s, m_clients w' !! i = Some (ClosingOld s) -> m_lock w' = Some (AClient i)) ->
  (m_shutdown w' = m_shutdown w \/ m_shutdown w' = Draining /\ m_current w' = None /\ m_shutdown w <> Running) ->
  (m_shutdown w <> Running -> m_watchdog w' = m_watchdog w) -> pool_ok w'.
Proof.
  intros [] E1 Hcu Hr E2 E3 Hc Hrl Hcl Hsd Hwd.
  assert (Hnr : m_shutdown w' <> Running -> m_shutdown w <> Running) by (destruct Hsd as [->|(-> & _ & ?)]; done).
  constructor.
  - intros s' k. rewrite E1, closed_lookup. intros Hk. apply fmap_Some in Hk as (k' & Hk & ->). specialize (Hcu s').
    specialize (po_known0 s' k' Hk). cbn. lia.
  - intros s' Hs'. rewrite E1, closed_lookup in Hs'. apply fmap_None in Hs'. destruct (po_unknown0 s' Hs') as (? & ? & ?).
    specialize (Hcu s'). rewrite Hr, E2. split_and!; [lia|done|done].
  - intros s' Hs'. rewrite Hr. destruct Hc as [(Ec & -> & ->)|(Ec & _)]; [|congruence]. rewrite Ec in Hs'.
    destruct (po_current0 s' Hs') as (? & k & Hk & ?). split; [done|]. rewrite E1, closed_lookup, Hk. by eexists.
  - intros Hn. destruct Hc as [(Ec & -> & ->)|(_ & -> & -> & _)]; [|done]. apply po_none0. congruence.
  - intros s' n t. rewrite E3, Hr. apply po_old0.
  - intros s'. rewrite E2, Hr. unfold old_ids. rewrite E3. intros Hf Hpos. destruct (po_free0 s' Hf Hpos) as [Hs'|?]; [|by right].
    destruct Hc as [(Ec & _)|(_ & _ & _ & _ & Hfc)]; [left; congruence|]. by apply Hfc in Hs'.
  - intros r rl Hrl' Hb. destruct (Hrl r rl Hrl') as [Hrl'' ->]; [|done]. destruct (po_busy0 r rl Hrl'' Hb). split; [done|].
    destruct Hc as [(-> & _)|(-> & _)]; done.
  - intros r s' todo live Hrl'. destruct (Hrl r _ Hrl') as [Hrl'' _]. destruct (po_entering0 _ _ _ _ Hrl'') as (? & k & Hk & ->).
    rewrite E2, E1, closed_lookup, Hk. split; [done|]. by eexists.
  - intros Hn. apply map_empty. intros r. destruct (m_reloads w' !! r) as [rl|] eqn:Hrl'; [|done]. destruct (Hrl r rl Hrl') as [H _].
    rewrite po_reloads0 in H by auto. by rewrite lookup_empty in H.
  - done.
  - intros s' Hs'. destruct Hsd as [E|(E & _)]; [|congruence]. rewrite E in Hs'. destruct (po_shut0 s' Hs') as [Ecur ?].
    rewrite E2. split; [|done]. destruct Hc as [(-> & _)|(_ & _ & _ & Hd & _)]; [done|].
    rewrite E in Hd. by rewrite Hs' in Hd.
  - intros Hn. rewrite Hwd by auto. auto.
  - intros Hd. destruct Hsd as [E|(_ & ? & _)]; [|done]. rewrite E in Hd. destruct Hc as [(-> & _)|(-> & _)]; [auto|done].
  - intros Hs'. rewrite E3. apply po_drained0. destruct Hsd as [<-|(E & _)]; [done|congruence].
Qed.

Lemma closer_gone w i s c :
  pool_ok w -> m_clients w !! i = Some (ClosingOld s) -> (forall s', c <> ClosingOld s') ->
  forall j s', <[i := c]> (m_clients w) !! j <> Some (ClosingOld s').
Proof.
  intros Hw Hi Hc j s'. destruct (decide (i = j)) as [->|Hne].
  - rewrite lookup_insert_eq. intros [= E]. by apply Hc in E.
  - rewrite lookup_insert_ne by done. intros Hj. apply (po_closer w Hw) in Hi, Hj. congruence.
Qed.

Lemma old_closed_ok w i s : pool_ok w -> m_clients w !! i = Some (ClosingOld s) -> pool_ok (old_closed w i s).
Proof.
  intros Hw Hi. pose proof (po_closer w Hw i s Hi) as Hl. destruct (client_counts w i _ Finished Hi) as [Eh Ec].
  apply (retire_ok w _ s); try done.
  - intros s'. unfold custody, old_ids. specialize (Ec s'). tally.
  - intros s'. unfold refs. specialize (Eh s'). tally.
  - by left.
  - cbn. intros r rl Hr. split; [done|]. intros Hb. destruct (po_busy w Hw r rl Hr Hb). congruence.
  - intros j s' Hj. by apply (closer_gone w i s Finished Hw Hi) in Hj.
  - by left.
Qed.

(** A reload that holds the lock is the only one, and no request closes a stack. *)
Lemma lock_holder w r rl r' rl' :
  pool_ok w -> m_reloads w !! r = Some rl -> busy rl = true -> m_reloads w !! r' = Some rl' -> busy rl' = true -> r' = r.
Proof. intros Hw Hr Hb Hr' Hb'. destruct (po_busy w Hw r rl Hr Hb), (po_busy w Hw r' rl' Hr' Hb'). congruence. Qed.

Lemma lock_no_closer w r rl i s :
  pool_ok w -> m_reloads w !! r = Some rl -> busy rl = true -> m_clients w !! i <> Some (ClosingOld s).
Proof. intros Hw Hr Hb Hi. destruct (po_busy w Hw r rl Hr Hb). apply (po_closer w Hw) in Hi. congruence. Qed.

Lemma owner_closes_ok w r rl s :
  pool_ok w -> m_reloads w !! r = Some rl -> (forall s', owns s' rl = bool_decide (s = s')) -> busy rl = true ->
  pool_ok (set_lock (set_reloads (closed_stack w s) (delete r (m_reloads w))) None).
Proof.
  intros Hw Hr Ho Hb. apply (retire_ok w _ s); try done.
  - intros s'. unfold custody, old_ids. pose proof (map_count_delete (owns s') (m_reloads w) r rl Hr) as E. rewrite Ho in E. tally.
  - by left.
  - cbn. intros r' rl' Hr'. apply lookup_delete_Some in Hr' as [Hne Hr']. split; [done|]. intros Hb'.
    by destruct Hne; symmetry; apply (lock_holder w r rl r' rl').
  - cbn. intros i s' Hi. by apply (lock_no_closer w r rl) in Hi.
  - by left.
Qed.

Lemma watchdog_close_ok w s rest : pool_ok w -> m_watchdog w = s :: rest -> pool_ok (watchdog_close w s rest).
Proof.
  intros Hw Hd. apply (retire_ok w _ s); try done.
  - intros s'. unfold custody, old_ids. rewrite Hd, occ_cons. tally.
  - by left.
  - cbn. by apply (po_closer w).
  - by left.
  - intros Hn. apply (po_watch w Hw) in Hn. congruence.
Qed.

Lemma current_shut_ok w s : pool_ok w -> m_shutdown w = ShutCurrent s -> pool_ok (current_shut w s).
Proof.
  intros Hw Hs. destruct (po_shut w Hw s Hs) as [Hcur Hf]. apply (retire_ok w _ s); try done.
  - intros s'. unfold custody, old_ids. cbn. rewrite Hcur, Hs. tally.
  - right. split_and!; try done. congruence.
  - cbn. by apply (po_closer w).
  - right. split_and!; [done|done|congruence].
Qed.

Lemma old_shut_ok w s : pool_ok w -> m_shutdown w = ShutOld s -> pool_ok (old_shut w s).
Proof.
  intros Hw Hs. assert (Hcur : m_current w = None) by (apply (po_down w Hw); by rewrite Hs). apply (retire_ok w _ s); try done.
  - intros s'. unfold custody, old_ids. cbn. rewrite Hs. tally.
  - by left.
  - cbn. by apply (po_closer w).
  - right. split_and!; [done|done|congruence].
Qed.

(** ** Reloads *)

(** A reload moves between stages, or ends, with what it owns accounted for;
    the stacks themselves do not change. *)
Lemma reloads_ok w rs l ab :
  pool_ok w ->
  (forall s, (map_count (owns s) rs + occ s ab = map_count (owns s) (m_reloads w))%nat) ->
  (m_shutdown w <> Running -> rs = ∅) ->
  (forall r rl, rs !! r = Some rl -> busy rl = true -> m_reloads w !! r = Some rl /\ l = m_lock w) ->
  (forall i s, m_clients w !! i = Some (ClosingOld s) -> l = Some (AClient i)) ->
  pool_ok (set_lock (set_reloads (abandon w ab) rs) l).
Proof.
  intros [] Hc Hs Hb Hcl.
  assert (Hcu : forall s, custody (set_lock (set_reloads (abandon w ab) rs) l) s = custody w s).
  { intros s. unfold custody, old_ids. cbn. specialize (Hc s). rewrite occ_app. lia. }
  constructor; try done.
  - intros s k. rewrite Hcu. apply po_known0.
  - intros s. rewrite Hcu. apply po_unknown0.
  - cbn. intros r rl Hr Hbr. destruct (Hb r rl Hr Hbr) as [Hr' ->]. by apply (po_busy0 r rl).
  - cbn. intros r s todo live Hr. destruct (Hb r _ Hr eq_refl) as [Hr' _]. by apply (po_entering0 r s todo).
Qed.

Lemma queue_ok w r config :
  pool_ok w -> m_reloads w !! r = None -> m_shutdown w = Running -> pool_ok (set_reloads w (<[r := Queued config]> (m_reloads w))).
Proof.
  intros Hw Hr Hs. change (pool_ok (set_lock (set_reloads (abandon w []) (<[r := Queued config]> (m_reloads w))) (m_lock w))).
  apply reloads_ok; try done.
  - intros s. rewrite map_count_fresh by done. tally.
  - intros r' rl Hr' Hb. apply lookup_insert_Some in Hr' as [[<- <-]|[_ ?]]; done.
  - apply (po_closer w Hw).
Qed.

Lemma stack_cancel_ok w r st : pool_ok w -> m_reloads w !! r = Some st -> pool_ok (cancel_reload w r st).
Proof.
  intros Hw Hr. destruct st as [config|s config|s todo live]; cbn.
  - change (pool_ok (set_lock (set_reloads (abandon w []) (delete r (m_reloads w))) (m_lock w))). apply reloads_ok; try done.
    + intros s. pose proof (map_count_delete (owns s) (m_reloads w) r _ Hr). tally.
    + intros Hs. rewrite (po_reloads w Hw Hs). apply delete_empty.
    + intros r' rl Hr' _. apply lookup_delete_Some in Hr' as [_ ?]. done.
    + apply (po_closer w Hw).
  - by apply (owner_closes_ok w r (ClosingPrev s config)).
  - apply (reloads_ok w (delete r (m_reloads w)) None [s]); try done.
    + intros s'. pose proof (map_count_delete (owns s') (m_reloads w) r _ Hr). rewrite occ_cons. tally.
    + intros Hs. rewrite (po_reloads w Hw Hs). apply delete_empty.
    + intros r' rl Hr' Hb. apply lookup_delete_Some in Hr' as [Hne Hr']. destruct Hne. symmetry.
      by apply (lock_holder w r (Entering s todo live) r' rl).
    + intros i s' Hi. by apply (lock_no_closer w r (Entering s todo live)) in Hi.
Qed.

(** The lock is held by the reload [r], or free for it. *)
Definition lock_for (w : pool) (r : nat) : Prop := m_lock w = None \/ m_lock w = Some (AReload r).

Lemma build_ok w r c config empty_stack :
  pool_ok w -> m_reloads w !! r = Some (Queued c) -> lock_for w r -> m_current w = None -> pool_ok (build empty_stack w r config).
Proof.
  intros Hw Hr Hl Hcur. pose proof Hw as [].
  assert (Hcl : forall i s, m_clients w !! i <> Some (ClosingOld s)).
  { intros i s Hi. apply po_closer0 in Hi. destruct Hl; congruence. }
  assert (Hnb : forall r' rl, m_reloads w !! r' = Some rl -> busy rl = false).
  { intros r' rl Hr'. destruct (busy rl) eqn:Hb; [|done]. destruct (po_busy0 r' rl Hr' Hb) as [E _].
    destruct Hl as [?|Hl]; [congruence|]. assert (r' = r) as -> by congruence. by simplify_eq. }
  assert (Hrun : m_shutdown w = Running).
  { destruct (m_shutdown w) eqn:Hsd; [done| | | |]; rewrite po_reloads0 in Hr by done; by rewrite lookup_empty in Hr. }
  unfold build. destruct (negb empty_stack && _).
  { change (pool_ok (set_lock (set_reloads (abandon w []) (delete r (m_reloads w))) None)). apply reloads_ok; try done.
    - intros s. pose proof (map_count_delete (owns s) (m_reloads w) r _ Hr). tally.
    - intros r' rl Hr' Hb. apply lookup_delete_Some in Hr' as [_ Hr']. apply Hnb in Hr'. congruence.
    - intros i s Hi. by apply Hcl in Hi. }
  set (s := fresh (dom (m_stacks w))).
  assert (Hs : m_stacks w !! s = None) by (apply not_elem_of_dom, is_fresh).
  destruct (po_unknown0 s Hs) as (Hc0 & Hr0 & Hf0). cbn zeta. set (w' := set_lock _ _).
  assert (Hcu : forall s', custody w' s' = (custody w s' + (if decide (s = s') then 1 else 0))%nat).
  { intros s'. unfold custody, old_ids, w'. pose proof (map_count_insert (owns s') (m_reloads w) r (Entering s config [])) as E.
    rewrite Hr in E. tally. }
  constructor; cbn; try done.
  - intros s' k. rewrite Hcu. destruct (decide (s = s')) as [<-|Hne].
    + rewrite lookup_insert_eq. intros [= <-]. cbn. lia.
    + rewrite lookup_insert_ne by done. intros Hk. specialize (po_known0 s' k Hk). lia.
  - intros s' Hs'. apply lookup_insert_None in Hs' as [Hs' Hne]. rewrite Hcu, decide_False by done. rewrite Nat.add_0_r. by apply po_unknown0.
  - congruence.
  - intros r' rl Hr' Hb. apply lookup_insert_Some in Hr' as [[<- <-]|[_ Hr']]; [done|]. apply Hnb in Hr'. congruence.
  - intros r' s' todo live Hr'. apply lookup_insert_Some in Hr' as [[<- [= <- <- <-]]|[_ Hr']].
    + split; [done|]. eexists. by rewrite lookup_insert_eq.
    + apply Hnb in Hr'. done.
  - intros i s' Hi. by apply Hcl in Hi.
Qed.

Lemma entered_lookup w s x s' :
  m_stacks (entered w s x) !! s' =
  (fun k => mk_stack (if decide (s = s') then sk_servers k ++ [x] else sk_servers k) (sk_closed k)) <$> (m_stacks w !! s').
Proof.
  cbn. case_decide as E.
  - subst s'. rewrite lookup_alter_eq. by destruct (m_stacks w !! s) as [[]|].
  - rewrite lookup_alter_ne by done. by destruct (m_stacks w !! s') as [[]|].
Qed.

(** A stack that is being entered is not the current one, has no reference and
    is not parked. *)
Lemma entering_alone w r s todo live :
  pool_ok w -> m_reloads w !! r = Some (Entering s todo live) ->
  m_current w = None /\ (s ∉ old_ids w) /\ refs w s = 0%nat /\
  (forall s' todo' live' r', m_reloads w !! r' = Some (Entering s' todo' live') -> r' = r /\ s' = s).
Proof.
  intros Hw Hr. destruct (po_busy w Hw r _ Hr eq_refl) as [Hl Hcur]. destruct (po_entering w Hw r s todo live Hr) as [Hf _].
  assert (Ho : s ∉ old_ids w).
  { intros Hin. apply occ_pos in Hin. pose proof (custody_one w s Hw) as H. unfold custody in H.
    pose proof (map_count_delete (owns s) (m_reloads w) r _ Hr) as E. tally. }
  split_and!; [done|done| |].
  - destruct (decide (refs w s = 0%nat)) as [?|Hne]; [done|]. destruct (po_free w Hw s Hf); [lia|congruence|done].
  - intros s' todo' live' r' Hr'. destruct (po_busy w Hw r' _ Hr' eq_refl) as [Hl' _]. assert (r' = r) as -> by congruence. by simplify_eq.
Qed.

Lemma enter_ok w r s x todo live ok :
  pool_ok w -> m_reloads w !! r = Some (Entering s (x :: todo) live) -> pool_ok (enter_server w r s x todo live ok).
Proof.
  intros Hw Hr. destruct (entering_alone w r s _ live Hw Hr) as (Hcur & Ho & Hz & Hone). pose proof Hw as [].
  assert (Hrel : m_shutdown w = Running).
  { destruct (m_shutdown w) eqn:Hsd; [done| | | |]; rewrite po_reloads0 in Hr by done; by rewrite lookup_empty in Hr. }
  assert (Hc : forall live' s', (map_count (owns s') (<[r := Entering s todo live']> (m_reloads w)) = map_count (owns s') (m_reloads w))%nat).
  { intros live' s'. pose proof (map_count_insert (owns s') (m_reloads w) r (Entering s todo live')) as E. rewrite Hr in E. tally. }
  assert (Hb : forall live' r' rl, <[r := Entering s todo live']> (m_reloads w) !! r' = Some rl -> busy rl = true ->
    m_lock w = Some (AReload r') /\ m_current w = None).
  { intros live' r' rl Hr' Hb. apply lookup_insert_Some in Hr' as [[<- <-]|[_ Hr']]; [by apply (po_busy0 r _ Hr eq_refl)|by apply (po_busy0 r' rl)]. }
  destruct (po_entering0 _ _ _ _ Hr) as (Hf & k & Hk & Hlive). unfold enter_server. destruct ok.
  - assert (Hcu : forall s', custody (set_reloads (entered w s x) (<[r := Entering s todo (live ++ [x])]> (m_reloads w))) s' = custody w s').
    { intros s'. unfold custody, old_ids. cbn. by rewrite Hc. }
    constructor; cbn -[entered]; try done.
    + intros s' k'. rewrite Hcu, entered_lookup. intros Hk'. apply fmap_Some in Hk' as (k0 & Hk0 & ->). apply (po_known0 s' k0 Hk0).
    + intros s' Hs'. rewrite entered_lookup in Hs'. apply fmap_None in Hs'. rewrite Hcu. by apply po_unknown0.
    + intros s' Hs'. cbn in Hs'. congruence.
    + by apply Hb.
    + intros r' s' todo' live' Hr'. apply lookup_insert_Some in Hr' as [[<- [= <- <- <-]]|[Hne Hr']].
      * split; [done|]. rewrite entered_lookup, Hk. cbn. rewrite decide_True by done. eexists. split; [done|]. cbn. by rewrite Hlive.
      * destruct (Hone _ _ _ _ Hr'). congruence.
  - assert (Hcu : forall s', custody (set_reloads w (<[r := Entering s todo live]> (m_reloads w))) s' = custody w s').
    { intros s'. unfold custody, old_ids. cbn. by rewrite Hc. }
    constructor; cbn; try done.
    + intros s' k'. rewrite Hcu. apply po_known0.
    + intros s' Hs'. rewrite Hcu. by apply po_unknown0.
    + by apply Hb.
    + intros r' s' todo' live' Hr'. apply lookup_insert_Some in Hr' as [[<- [= <- <- <-]]|[Hne Hr']]; [by eauto|].
      destruct (Hone _ _ _ _ Hr'). congruence.
Qed.

Lemma stack_publish_ok w r s live : pool_ok w -> m_reloads w !! r = Some (Entering s [] live) -> pool_ok (publish_stack w r s live).
Proof.
  intros Hw Hr. destruct (entering_alone w r s _ live Hw Hr) as (Hcur & Ho & Hz & Hone). pose proof Hw as [].
  destruct (po_entering0 _ _ _ _ Hr) as (Hf & k & Hk & Hlive).
  assert (Hrel : m_shutdown w = Running).
  { destruct (m_shutdown w) eqn:Hsd; [done| | | |]; rewrite po_reloads0 in Hr by done; by rewrite lookup_empty in Hr. }
  assert (Hcu : forall s', custody (publish_stack w r s live) s' = custody w s').
  { intros s'. unfold custody, old_ids. cbn. pose proof (map_count_delete (owns s') (m_reloads w) r _ Hr). rewrite Hcur. tally. }
  constructor; cbn; try done.
  - intros s' k'. rewrite Hcu. apply po_known0.
  - intros s' Hs'. rewrite Hcu. by apply po_unknown0.
  - intros s' [= <-]. destruct (po_none0 Hcur) as [-> _]. split; [change (0 = Z.of_nat (refs w s)); by rewrite Hz|]. by exists k.
  - intros s' Hf' Hpos. destruct (po_free0 s' Hf' Hpos); [congruence|by right].
  - intros r' rl Hr' Hb. apply lookup_delete_Some in Hr' as [Hne Hr']. destruct Hne. symmetry.
    by apply (lock_holder w r (Entering s [] live) r' rl).
  - intros r' s' todo' live' Hr'. apply lookup_delete_Some in Hr' as [Hne Hr']. by eapply po_entering0.
  - intros i s' Hi. by apply (lock_no_closer w r (Entering s [] live)) in Hi.
  - intros; congruence.
  - rewrite Hrel. done.
Qed.

(** ** Replacing the current stack *)

(** The current stack is retired to the parked ones, or to a reload that closes it. *)
Lemma park_ok w s now :
  pool_ok w -> m_current w = Some s -> m_shutdown w = Running -> 0 < m_ref w ->
  pool_ok (set_old (set_current w None [] 0) (m_old w ++ [(s, m_ref w, now)])).
Proof.
  intros Hw Hcur Hrun Hpos. pose proof Hw as []. destruct (po_current0 s Hcur) as (Href & _).
  set (w' := set_old _ _).
  assert (Hcu : forall s', custody w' s' = custody w s').
  { intros s'. unfold custody, old_ids, w'. rewrite Hcur. cbn. rewrite fmap_app, occ_app. cbn. rewrite occ_cons. tally. }
  constructor; try done.
  - intros s' k. rewrite Hcu. apply po_known0.
  - intros s' Hs'. rewrite Hcu. by apply po_unknown0.
  - cbn. intros s' n t Hin. apply elem_of_app in Hin as [Hin|Hin]; [by apply (po_old0 s' n t)|].
    apply list_elem_of_singleton in Hin as [= -> -> ->]. by split.
  - intros s' Hf Hp. right. unfold old_ids, w'. cbn. rewrite fmap_app. apply elem_of_app.
    destruct (po_free0 s' Hf Hp) as [E|?]; [right|by left]. assert (s' = s) as -> by congruence. cbn. set_solver.
  - cbn. intros r rl Hr Hb. destruct (po_busy0 r rl Hr Hb). congruence.
  - cbn. intros s' Hs'. congruence.
  - cbn. intros E. congruence.
Qed.

Lemma stack_start_ok w r config now empty_stack :
  pool_ok w -> m_reloads w !! r = Some (Queued config) -> m_lock w = None -> pool_ok (start_reload empty_stack w r config now).
Proof.
  intros Hw Hr Hl.
  assert (Hrun : m_shutdown w = Running).
  { destruct (m_shutdown w) eqn:Hsd; [done| | | |]; rewrite (po_reloads w Hw) in Hr by congruence; by rewrite lookup_empty in Hr. }
  unfold start_reload. destruct (m_current w) as [s|] eqn:Hcur.
  2: { apply (build_ok w r config); [done|done|by left|done]. }
  destruct (m_ref w <=? 0) eqn:Hz.
  2: { apply (build_ok _ r config); [apply (park_ok w s now); [done|done|done|lia]|done|by left|done]. }
  destruct ((po_current w Hw) s Hcur) as (Href & _). set (w' := set_lock _ _).
  assert (Hno : forall r' rl, m_reloads w !! r' = Some rl -> busy rl = false).
  { intros r' rl Hr'. destruct (busy rl) eqn:Hb; [|done]. destruct ((po_busy w Hw) r' rl Hr' Hb). congruence. }
  assert (Hcu : forall s', custody w' s' = custody w s').
  { intros s'. unfold custody, old_ids, w'. pose proof (map_count_insert (owns s') (m_reloads w) r (ClosingPrev s config)) as E.
    rewrite Hr in E. rewrite Hcur. tally. }
  pose proof Hw as []. constructor; try done.
  - intros s' k. rewrite Hcu. apply (po_known w Hw).
  - intros s' Hs'. rewrite Hcu. by apply (po_unknown w Hw).
  - intros s' Hf Hp. right. destruct ((po_free w Hw) s' Hf Hp) as [E|?]; [|done]. assert (s' = s) as -> by congruence.
    change (0 < refs w s)%nat in Hp. lia.
  - cbn. intros r' rl Hr' Hb. apply lookup_insert_Some in Hr' as [[<- <-]|[_ Hr']]; [done|]. apply Hno in Hr'. congruence.
  - cbn. intros r' s' todo live Hr'. apply lookup_insert_Some in Hr' as [[<- ?]|[_ Hr']]; [done|]. by apply Hno in Hr'.
  - cbn. intros i s' Hi. apply (po_closer w Hw) in Hi. congruence.
  - cbn. intros s' E. congruence.
Qed.

(** [build] depends on the reloads other than its own only, and not on the lock. *)
Lemma build_same empty_stack w l rs r config :
  delete r rs = delete r (m_reloads w) -> build empty_stack (set_lock (set_reloads w rs) l) r config = build empty_stack w r config.
Proof.
  intros E. unfold build. cbn. rewrite E. destruct (_ && _); [done|].
  by rewrite <-(insert_delete_eq rs), E, insert_delete_eq.
Qed.

Lemma prev_closed_ok w r s config empty_stack :
  pool_ok w -> m_reloads w !! r = Some (ClosingPrev s config) -> pool_ok (prev_closed empty_stack w r s config).
Proof.
  intros Hw Hr. destruct (po_busy w Hw r _ Hr eq_refl) as [Hl Hcur].
  assert (Hrun : m_shutdown w = Running).
  { destruct (m_shutdown w) eqn:Hsd; [done| | | |]; rewrite (po_reloads w Hw) in Hr by congruence; by rewrite lookup_empty in Hr. }
  pose proof (owner_closes_ok w r (ClosingPrev s config) s Hw Hr (fun s' => eq_refl) eq_refl) as H1.
  apply (queue_ok _ r config) in H1; [|apply lookup_delete_eq|done].
  apply (build_ok _ r config config empty_stack) in H1; [|apply lookup_insert_eq|by left|done].
  unfold prev_closed. rewrite <-(build_same _ _ None (<[r := Queued config]> (delete r (m_reloads w)))); [exact H1|].
  cbn. by rewrite delete_insert_eq, delete_delete_eq.
Qed.

(** ** The watchdog and the shutdown *)

Lemma occ_partition s (f : nat * Z * Z -> bool) old :
  occ s ((fun e : nat * Z * Z => e.1.1) <$> old) =
  (occ s ((fun e : nat * Z * Z => e.1.1) <$> filter (fun e => f e = true) old) +
   occ s ((fun e : nat * Z * Z => e.1.1) <$> filter (fun e => f e = false) old))%nat.
Proof.
  induction old as [|e old IH]; [done|]. rewrite fmap_cons, occ_cons, IH. destruct (f e) eqn:E.
  - rewrite (filter_cons_True (fun e => f e = true)), (filter_cons_False (fun e => f e = false)) by congruence.
    rewrite fmap_cons, occ_cons. lia.
  - rewrite (filter_cons_False (fun e => f e = true)), (filter_cons_True (fun e => f e = false)) by congruence.
    rewrite fmap_cons, occ_cons. lia.
Qed.

(** Parked stacks leave for someone who closes them whatever their references. *)
Lemma force_ok w w' out :
  pool_ok w -> (forall s, custody w' s = custody w s) -> (forall s, s ∈ out -> s ∈ old_ids w \/ m_current w = Some s) ->
  (forall s, s ∉ out -> s ∈ old_ids w -> s ∈ old_ids w') ->
  (forall e, e ∈ m_old w' -> e ∈ m_old w) -> m_forced w' = out ++ m_forced w ->
  m_stacks w' = m_stacks w -> m_current w' = m_current w -> m_live w' = m_live w -> m_ref w' = m_ref w -> m_lock w' = m_lock w ->
  m_clients w' = m_clients w -> m_reloads w' = m_reloads w -> m_lost w' = m_lost w ->
  (m_shutdown w' <> Running -> m_reloads w = ∅ /\ m_watchdog w' = []) ->
  (forall s, m_shutdown w' = ShutCurrent s -> m_current w = Some s /\ s ∈ out ++ m_forced w) ->
  (down (m_shutdown w') = true -> m_current w = None) -> (m_shutdown w' = Shut -> m_old w' = []) -> pool_ok w'.
Proof.
  intros Hw Hcu Hout Hkept Hsub Ef E1 E2 E3 E4 E5 E6 E7 E8 Hs1 Hs2 Hs3 Hs4. pose proof Hw as [].
  assert (Hr : forall s, refs w' s = refs w s) by (intros s; unfold refs; by rewrite E6, E8).
  assert (Hch : forall s, s ∈ out -> (0 < occ s (old_ids w) + (if decide (m_current w = Some s) then 1 else 0))%nat).
  { intros s Hs. destruct (Hout s Hs) as [Hin|Hin]; [apply occ_pos in Hin; lia|rewrite decide_True by done; lia]. }
  constructor; rewrite ?E1, ?E2, ?E3, ?E4, ?E5, ?E6, ?E7, ?Ef; try done.
  - intros s k. rewrite Hcu. apply po_known0.
  - intros s Hs. rewrite Hcu, Hr. destruct (po_unknown0 s Hs) as (Hc & ? & Hf). split_and!; [done|done|].
    intros Hin. apply elem_of_app in Hin as [Hin|?]; [|done]. apply Hch in Hin. unfold custody in Hc. lia.
  - intros s. rewrite Hr. apply po_current0.
  - intros s n t Hin. rewrite Hr. by apply (po_old0 s n t), Hsub.
  - intros s Hf Hp. rewrite Hr in Hp. rewrite not_elem_of_app in Hf. destruct Hf as [Hf1 Hf2].
    destruct (po_free0 s Hf2 Hp) as [?|Hin]; [by left|right; by apply Hkept].
  - intros r s todo live Hrl. destruct (po_entering0 _ _ _ _ Hrl) as (Hf & Hk). split; [|done].
    destruct (entering_alone w r s todo live Hw Hrl) as (Hcur & Ho & _).
    intros Hin. apply elem_of_app in Hin as [Hin|?]; [|done]. destruct (Hout s Hin); [done|congruence].
  - intros Hn. by apply Hs1.
  - intros Hn. by apply Hs1.
Qed.

Lemma tick_ok w now max_age hard_grace :
  pool_ok w -> m_watchdog w = [] -> m_shutdown w = Running -> pool_ok (watchdog_tick max_age hard_grace w now).
Proof.
  intros Hw Hd Hrun. set (f := stale max_age hard_grace now).
  eapply (force_ok w _ ((fun e => e.1.1) <$> filter (fun e => f e = true) (m_old w)) Hw); try done.
  - intros s. unfold custody, old_ids. cbn. rewrite Hd, (occ_partition s f (m_old w)). unfold f. tally.
  - intros s Hs. left. unfold old_ids. apply list_elem_of_fmap in Hs as (e & -> & He). apply list_elem_of_filter in He as [_ He].
    by apply (list_elem_of_fmap_2 (fun e => e.1.1)).
  - intros s Hno Hin. unfold old_ids in *. apply list_elem_of_fmap in Hin as (e & -> & He).
    apply (list_elem_of_fmap_2 (fun e => e.1.1)), list_elem_of_filter. split; [|done]. destruct (f e) eqn:Hf; [|done].
    destruct Hno. apply (list_elem_of_fmap_2 (fun e => e.1.1)), list_elem_of_filter. done.
  - intros e He. cbn in He. by apply list_elem_of_filter in He as [_ He].
  - cbn. by rewrite Hrun.
  - cbn. by rewrite Hrun.
  - cbn. by rewrite Hrun.
Qed.

Lemma watchdog_left_ok w : pool_ok w -> pool_ok (abandon (set_watchdog w []) (m_watchdog w)).
Proof.
  intros Hw. apply (force_ok w _ [] Hw); try done.
  - intros s. unfold custody, old_ids. cbn. rewrite occ_app. tally.
  - intros s Hs. by apply elem_of_nil in Hs.
  - cbn. intros Hn. split; [by apply (po_reloads w Hw)|done].
  - apply (po_shut w Hw).
  - apply (po_down w Hw).
  - apply (po_drained w Hw).
Qed.

Lemma watchdog_cancel_ok w : pool_ok w -> pool_ok (watchdog_cancel w).
Proof.
  intros Hw. unfold watchdog_cancel. destruct (m_watchdog w) as [|s rest] eqn:Hd; [done|].
  apply (watchdog_left_ok (watchdog_close w s rest)). by apply watchdog_close_ok.
Qed.

Lemma begin_ok w : pool_ok w -> m_shutdown w = Running -> m_reloads w = ∅ -> m_watchdog w = [] -> pool_ok (begin_shutdown w).
Proof.
  intros Hw Hrun Hr Hd. unfold begin_shutdown. destruct (m_current w) as [s|] eqn:Hcur.
  - apply (force_ok w _ [s] Hw); try done.
    + intros s'. unfold custody, old_ids. cbn. rewrite Hrun. tally.
    + intros s' Hs. apply list_elem_of_singleton in Hs as ->. by right.
    + cbn. intros s' [= <-]. split; [done|]. set_solver.
  - apply (force_ok w _ [] Hw); try done.
    + intros s'. unfold custody, old_ids. cbn. rewrite Hrun. tally.
    + intros s' Hs. by apply elem_of_nil in Hs.
Qed.

Lemma drain_ok w : pool_ok w -> m_shutdown w = Draining -> pool_ok (drain_old w).
Proof.
  intros Hw Hs. assert (Hcur : m_current w = None) by (apply (po_down w Hw); by rewrite Hs).
  assert (Hn : m_shutdown w <> Running) by congruence. pose proof (po_reloads w Hw Hn) as Hr. pose proof (po_watch w Hw Hn) as Hd.
  unfold drain_old. destruct (last (m_old w)) as [[[s n] t]|] eqn:Hl.
  - apply last_Some in Hl as [l Hl]. assert (Hrm : removelast (m_old w) = l) by (by rewrite Hl, removelast_last). rewrite Hrm.
    assert (Ho' : old_ids w = ((fun e : nat * Z * Z => e.1.1) <$> l) ++ [s]) by (unfold old_ids; by rewrite Hl, fmap_app).
    apply (force_ok w _ [s] Hw); try done.
    + intros s'. unfold custody. rewrite Ho', occ_app, occ_cons, Hs. unfold old_ids. tally.
    + intros s' Hin. apply list_elem_of_singleton in Hin as ->. left. rewrite Ho'. set_solver.
    + intros s' Hno Hin. rewrite Ho' in Hin. unfold old_ids. cbn. set_solver.
    + cbn. intros e He. rewrite Hl. set_solver.
  - apply last_None in Hl. apply (force_ok w _ [] Hw); try done.
    + intros s'. unfold custody, old_ids. cbn. rewrite Hs. tally.
    + intros s' Hin. by apply elem_of_nil in Hin.
Qed.

(** ** Every step *)

Lemma pool_ok_new : pool_ok new_pool.
Proof.
  constructor; try done.
  - intros s _. split_and!; [done|done|apply not_elem_of_nil].
  - intros s n t Hin. by apply elem_of_nil in Hin.
  - intros s _ Hp. change (0 < 0)%nat in Hp. lia.
Qed.

Lemma pool_step_ok es ma hg w w' : pool_step es ma hg w w' -> pool_ok w -> pool_ok w'.
Proof.
  destruct 1; intros Hw.
  - by apply arrive_ok.
  - by apply stack_acquire_ok.
  - by apply (shift_ok w i Acquiring).
  - by eapply end_use_ok.
  - by apply stack_release_ok.
  - by apply lose_ok.
  - by apply old_closed_ok.
  - by apply queue_ok.
  - by apply stack_start_ok.
  - by apply prev_closed_ok.
  - by apply enter_ok.
  - by apply stack_publish_ok.
  - by apply (owner_closes_ok w r (Entering s todo live)).
  - by apply stack_cancel_ok.
  - by apply tick_ok.
  - by apply watchdog_close_ok.
  - by apply watchdog_cancel_ok.
  - by apply begin_ok.
  - by apply current_shut_ok.
  - by apply drain_ok.
  - by apply old_shut_ok.
Qed.

Lemma reachable_pool_ok es ma hg w : rtc (pool_step es ma hg) new_pool w -> pool_ok w.
Proof.
  intros H. apply (rtc_ind_r (R := pool_step es ma hg) pool_ok new_pool); [apply pool_ok_new| |done]. intros y z _ Hyz Hy. by eapply pool_step_ok.
Qed.

(** *** What a request sees *)

Definition snapshots_ok (w : pool) : Prop :=
  forall i s servers, m_clients w !! i = Some (Using (Some s) servers) -> exists k, m_stacks w !! s = Some k /\ sk_servers k = servers.

Definition servers_kept (w w' : pool) : Prop :=
  forall s k, m_stacks w !! s = Some k -> exists k', m_stacks w' !! s = Some k' /\ sk_servers k' = sk_servers k.

Lemma kept_refl w w' : m_stacks w' = m_stacks w -> servers_kept w w'.
Proof. intros E s k Hk. rewrite E. by exists k. Qed.

Lemma kept_closed w w' s : m_stacks w' = m_stacks (closed_stack w s) -> servers_kept w w'.
Proof. intros E s' k Hk. rewrite E, closed_lookup, Hk. by eexists. Qed.

Lemma kept_build es w w0 r config : m_stacks w0 = m_stacks w -> servers_kept w (build es w0 r config).
Proof.
  intros E s k Hk. unfold build. destruct (_ && _); cbn; rewrite E; [by exists k|].
  rewrite lookup_insert_ne; [by exists k|]. intros Hs. apply (is_fresh (dom (m_stacks w))). rewrite Hs. apply elem_of_dom. by exists k.
Qed.

Lemma kept_trans w1 w2 w3 : servers_kept w1 w2 -> servers_kept w2 w3 -> servers_kept w1 w3.
Proof. intros H1 H2 s k Hk. destruct (H1 s k Hk) as (k' & Hk' & <-). by apply H2. Qed.

Lemma snapshots_keep w w' :
  snapshots_ok w -> servers_kept w w' ->
  (forall i s servers, m_clients w' !! i = Some (Using (Some s) servers) -> m_clients w !! i = Some (Using (Some s) servers)) ->
  snapshots_ok w'.
Proof. intros Hs Hk Hc i s l Hi. apply Hc in Hi. destruct (Hs i s l Hi) as (k & Hk1 & <-). by apply Hk. Qed.

(** No request uses a new value that it did not acquire. *)
Lemma snapshots_set w w' i c :
  snapshots_ok w -> servers_kept w w' -> m_clients w' = <[i := c]> (m_clients w) -> (forall s l, c <> Using (Some s) l) -> snapshots_ok w'.
Proof.
  intros Hs Hk E Hc. apply (snapshots_keep w); [done|done|]. intros j s l Hj. rewrite E in Hj.
  apply lookup_insert_Some in Hj as [[_ Hj]|[_ Hj]]; [by apply Hc in Hj|done].
Qed.

Lemma snapshots_acquire w i : pool_ok w -> snapshots_ok w -> snapshots_ok (acquire_mcp_stack w i).
Proof.
  intros Hw Hs. unfold acquire_mcp_stack. destruct (m_current w) as [s|] eqn:Hcur.
  - intros j s' l Hj. cbn in *. apply lookup_insert_Some in Hj as [[_ [= <- <-]]|[_ Hj]]; [|by apply (Hs j)].
    destruct (po_current w Hw s Hcur) as (_ & k & Hk & ->). by exists k.
  - by apply (snapshots_set w _ i (Using None (m_live w))); [|apply kept_refl| |].
Qed.

Lemma snapshots_enter w r s x todo live ok :
  pool_ok w -> m_reloads w !! r = Some (Entering s (x :: todo) live) -> snapshots_ok w -> snapshots_ok (enter_server w r s x todo live ok).
Proof.
  intros Hw Hr Hs. unfold enter_server. destruct ok; [|by apply (snapshots_keep w); [|apply kept_refl|]].
  intros i s' l Hi. destruct (Hs i s' l Hi) as (k & Hk & <-).
  change (m_stacks (set_reloads ?a _)) with (m_stacks a).
  exists k. split; [|done]. cbn. rewrite lookup_alter_ne; [done|]. intros <-.
  destruct (entering_alone w r s _ live Hw Hr) as (_ & _ & Hz & _). unfold refs in Hz. cbn in Hi.
  pose proof (map_count_delete (holds s) (m_clients w) i _ Hi). tally.
Qed.

Lemma snapshots_start w r config now es : snapshots_ok w -> snapshots_ok (start_reload es w r config now).
Proof.
  intros Hs. unfold start_reload. destruct (m_current w); [destruct (_ <=? _)|].
  - by apply (snapshots_keep w); [|apply kept_refl|].
  - apply (snapshots_keep w); [done|by apply kept_build|]. unfold build. by destruct (_ && _).
  - apply (snapshots_keep w); [done|by apply kept_build|]. unfold build. by destruct (_ && _).
Qed.

Lemma snapshots_release w i s : snapshots_ok w -> snapshots_ok (release_mcp_stack w i s).
Proof.
  intros Hs. unfold release_mcp_stack. case_decide; [|destruct (find_old _ _) as [[[[? n] ?] ?]|]; [destruct (n - 1 <=? 0)|]];
    eapply (snapshots_set w _ i); try done; by apply kept_refl.
Qed.

Lemma snapshots_step es ma hg w w' : pool_step es ma hg w w' -> pool_ok w -> snapshots_ok w -> snapshots_ok w'.
Proof.
  destruct 1; intros Hw Hs.
  - by apply (snapshots_set w _ i Acquiring); [|apply kept_refl| |].
  - by apply snapshots_acquire.
  - by apply (snapshots_set w _ i Finished); [|apply kept_refl| |].
  - eapply (snapshots_set w _ i); [done|by apply kept_refl|done|by destruct held].
  - by apply snapshots_release.
  - by apply (snapshots_set w _ i Finished); [|apply kept_refl| |].
  - by apply (snapshots_set w _ i Finished); [|apply (kept_closed w _ s)| |].
  - by apply (snapshots_keep w); [|apply kept_refl|].
  - by apply snapshots_start.
  - apply (snapshots_keep w); [done| |].
    + unfold prev_closed. eapply kept_trans; [by apply (kept_closed w (closed_stack w s) s)|by apply kept_build].
    + unfold prev_closed, build. by destruct (_ && _).
  - by apply snapshots_enter.
  - by apply (snapshots_keep w); [|apply kept_refl|].
  - by apply (snapshots_keep w); [|apply (kept_closed w _ s)|].
  - destruct st; cbn; [|by apply (snapshots_keep w); [|apply (kept_closed w _ s)|]|]; by apply (snapshots_keep w); [|apply kept_refl|].
  - by apply (snapshots_keep w); [|apply kept_refl|].
  - by apply (snapshots_keep w); [|apply (kept_closed w _ s)|].
  - unfold watchdog_cancel. destruct (m_watchdog w) as [|s rest]; [done|]. by apply (snapshots_keep w); [|apply (kept_closed w _ s)|].
  - unfold begin_shutdown. destruct (m_current w); by apply (snapshots_keep w); [|apply kept_refl|].
  - by apply (snapshots_keep w); [|apply (kept_closed w _ s)|].
  - unfold drain_old. destruct (last _) as [[[? ?] ?]|]; by apply (snapshots_keep w); [|apply kept_refl|].
  - by apply (snapshots_keep w); [|apply (kept_closed w _ s)|].
Qed.

Lemma reachable_snapshots es ma hg w : rtc (pool_step es ma hg) new_pool w -> snapshots_ok w.
Proof.
  intros H. apply (rtc_ind_r (R := pool_step es ma hg) (fun w => pool_ok w /\ snapshots_ok w) new_pool); [split; [apply pool_ok_new|]| |done].
  - intros i s l Hi. change ((∅ : gmap nat client) !! i = Some (Using (Some s) l)) in Hi. by rewrite lookup_empty in Hi.
  - intros y z _ Hyz [Hy Hs]. split; [by eapply pool_step_ok|by eapply snapshots_step].
Qed.

(** ** What it promises *)

(** C39: in every interleaving of requests, reloads, the watchdog and the
    shutdown, no stack of tool servers is closed twice; the stack of a request
    that uses it is open, unless it was closed whatever its references, and the
    request sees the servers that are entered in it; the current stack is open,
    and its count is the number of references to it; so is the count of a
    parked one, which is at least one. *)
Theorem stacks_closed_once es ma hg w s k :
  rtc (pool_step es ma hg) new_pool w -> m_stacks w !! s = Some k ->
  (sk_closed k <= 1)%nat /\
  (forall i servers, m_clients w !! i = Some (Using (Some s) servers) ->
    servers = sk_servers k /\ (s ∉ m_forced w -> sk_closed k = 0%nat)) /\
  (m_current w = Some s -> sk_closed k = 0%nat /\ m_ref w = Z.of_nat (refs w s) /\ m_live w = sk_servers k) /\
  (forall n t, (s, n, t) ∈ m_old w -> sk_closed k = 0%nat /\ n = Z.of_nat (refs w s) /\ 0 < n).
Proof.
  intros Hr Hk. pose proof (reachable_pool_ok es ma hg w Hr) as Hw. pose proof (po_known w Hw s k Hk) as Hc.
  assert (Hcur : m_current w = Some s -> sk_closed k = 0%nat) by (intros E; unfold custody in Hc; rewrite E in Hc; tally).
  assert (Hold : s ∈ old_ids w -> sk_closed k = 0%nat) by (intros E; apply occ_pos in E; unfold custody in Hc; lia).
  split_and!; [lia| | |].
  - intros i servers Hi. destruct (reachable_snapshots es ma hg w Hr i s servers Hi) as (k' & Hk' & <-). split; [by simplify_eq|].
    intros Hf. assert (Hp : (0 < refs w s)%nat).
    { unfold refs. pose proof (map_count_delete (holds s) (m_clients w) i _ Hi). tally. }
    destruct (po_free w Hw s Hf Hp); auto.
  - intros E. destruct (po_current w Hw s E) as (? & k' & Hk' & ->). simplify_eq. auto.
  - intros n t Hin. destruct (po_old w Hw s n t Hin). split; [|done]. by apply Hold, (old_id s n t).
Qed.

(** Who could still close a stack, or hold it. *)
Definition quiet (w : pool) : Prop :=
  (forall i c, m_clients w !! i = Some c -> match c with Acquiring | Using None _ | Finished => True | _ => False end) /\
  (forall r rl, m_reloads w !! r = Some rl -> busy rl = false) /\ m_watchdog w = [] /\ (forall s, m_shutdown w <> ShutOld s) /\
  m_lost w = [] /\ m_abandoned w = [].

(** C40: once no request holds a stack, no reload is under way, and no cancelled
    task lost a reference or left a stack behind, every stack but the current
    one has been closed, exactly once, and nothing is parked. *)
Theorem quiet_reclaims es ma hg w s k :
  rtc (pool_step es ma hg) new_pool w -> quiet w -> m_stacks w !! s = Some k ->
  m_old w = [] /\ (m_current w = Some s \/ sk_closed k = 1%nat).
Proof.
  intros Hr (Hcl & Hrl & Hd & Hs & Hl & Ha) Hk. pose proof (reachable_pool_ok es ma hg w Hr) as Hw.
  assert (Hz : forall s, refs w s = 0%nat).
  { intros s'. unfold refs. rewrite Hl, (proj2 (map_count_0 (holds s') _)); [done|]. intros i c Hi. specialize (Hcl i c Hi). by destruct c as [|[]| | |]. }
  assert (Hold : m_old w = []).
  { destruct (m_old w) as [|[[s' n] t] old] eqn:E; [done|]. assert (Hin : (s', n, t) ∈ m_old w) by (rewrite E; set_solver).
    apply (po_old w Hw) in Hin as [-> H]. rewrite Hz in H. lia. }
  split; [done|]. pose proof (po_known w Hw s k Hk) as Hc. unfold custody, old_ids in Hc. rewrite Hold, Hd, Ha in Hc.
  rewrite (proj2 (map_count_0 (closing s) _)) in Hc by (intros i c Hi; specialize (Hcl i c Hi); by destruct c as [|[]| | |]).
  rewrite (proj2 (map_count_0 (owns s) _)) in Hc by (intros r rl Hi; specialize (Hrl r rl Hi); by destruct rl).
  assert (Hsh : shutting s (m_shutdown w) = 0%nat) by (destruct (m_shutdown w); try done; by destruct (Hs s0)).
  rewrite Hsh in Hc. case_decide; [by left|right]. cbn in Hc. rewrite occ_nil in Hc. lia.
Qed.

(** C0: after [close], every stack there ever was has been closed once, whatever
    the requests in flight hold, but for those that a request is closing and
    those that a cancelled reload or watchdog left behind. *)
Theorem shutdown_closes_all es ma hg w s k :
  rtc (pool_step es ma hg) new_pool w -> m_shutdown w = Shut -> m_stacks w !! s = Some k ->
  (forall i, m_clients w !! i <> Some (ClosingOld s)) -> s ∉ m_abandoned w -> sk_closed k = 1%nat.
Proof.
  intros Hr Hs Hk Hcl Ha. pose proof (reachable_pool_ok es ma hg w Hr) as Hw. assert (Hn : m_shutdown w <> Running) by congruence.
  pose proof (po_known w Hw s k Hk) as Hc. unfold custody, old_ids in Hc.
  rewrite (po_drained w Hw Hs), (po_watch w Hw Hn), (po_reloads w Hw Hn), Hs, (occ_0 s (m_abandoned w) Ha) in Hc.
  rewrite (po_down w Hw) in Hc by (by rewrite Hs).
  rewrite (proj2 (map_count_0 (closing s) _)) in Hc; [rewrite map_count_empty in Hc; tally|].
  intros i c Hi. destruct c; try done. cbn. apply bool_decide_false. intros ->. by apply (Hcl i).
Qed.

(** ** Witnesses and examples *)

Section Demo.
Open Scope string_scope.
Abbreviation step := (pool_step true 600 2400).

(** A first configuration; a request uses it; a second configuration. *)
Definition demo1 : pool := set_reloads new_pool {[0%nat := Queued ["k8s"]]}.
Definition demo2 : pool := start_reload true demo1 0 ["k8s"] 0.
Definition demo3 : pool := enter_server demo2 0 0 "k8s" [] [] true.
Definition demo4 : pool := publish_stack demo3 0 0 ["k8s"].
Definition demo5 : pool := acquire_mcp_stack (set_client demo4 0 Acquiring) 0.
Definition demo6 : pool := set_reloads demo5 (<[1%nat := Queued []]> (m_reloads demo5)).
Definition demo7 : pool := publish_stack (start_reload true demo6 1 [] 10) 1 1 [].
Definition demo8 : pool := release_mcp_stack (end_use demo7 0 (Some 0%nat)) 0 0.
Definition demo9 : pool := old_closed demo8 0 0.
(** The shutdown while the request still holds the first stack. *)
Definition demo_shut : pool :=
  drain_old (old_shut (drain_old (current_shut (begin_shutdown demo7) 1)) 0).

Lemma demo3_reachable : rtc step new_pool demo3.
Proof.
  eapply rtc_r; [eapply rtc_r; [eapply rtc_r; [apply rtc_refl|]|]|].
  - by apply (ps_reload _ _ _ new_pool 0 ["k8s"]).
  - apply (ps_start _ _ _ demo1 0 ["k8s"] 0); [by vm_compute|done].
  - by apply (ps_enter _ _ _ demo2 0 0 "k8s" [] [] true).
Qed.

Lemma demo7_reachable : rtc step new_pool demo7.
Proof.
  eapply rtc_r; [eapply rtc_r; [eapply rtc_r; [eapply rtc_r; [eapply rtc_r; [eapply rtc_r; [apply demo3_reachable|]|]|]|]|]|].
  - by apply (ps_publish _ _ _ demo3 0 0 ["k8s"]).
  - by apply (ps_arrive _ _ _ demo4 0).
  - by apply (ps_acquire _ _ _ (set_client demo4 0 Acquiring) 0).
  - by apply (ps_reload _ _ _ demo5 1 []).
  - by apply (ps_start _ _ _ demo6 1 [] 10).
  - by apply (ps_publish _ _ _ (start_reload true demo6 1 [] 10) 1 1 []).
Qed.

Lemma demo9_reachable : rtc step new_pool demo9.
Proof.
  eapply rtc_r; [eapply rtc_r; [eapply rtc_r; [apply demo7_reachable|]|]|].
  - by apply (ps_end _ _ _ demo7 0 (Some 0%nat) ["k8s"]).
  - by apply (ps_release _ _ _ (end_use demo7 0 (Some 0%nat)) 0 0).
  - by apply (ps_old_closed _ _ _ demo8 0 0).
Qed.

Lemma demo_shut_reachable : rtc step new_pool demo_shut.
Proof.
  eapply rtc_r; [eapply rtc_r; [eapply rtc_r; [eapply rtc_r; [eapply rtc_r; [apply demo7_reachable|]|]|]|]|].
  - by apply (ps_shutdown _ _ _ demo7).
  - by apply (ps_current_shut _ _ _ (begin_shutdown demo7) 1).
  - by apply (ps_drain _ _ _ (current_shut (begin_shutdown demo7) 1)).
  - by apply (ps_old_shut _ _ _ (drain_old (current_shut (begin_shutdown demo7) 1)) 0).
  - by apply (ps_drain _ _ _ (old_shut (drain_old (current_shut (begin_shutdown demo7) 1)) 0)).
Qed.

(** A reload replaced the stack a request uses: it is parked with one
    reference, and open. *)
Lemma stacks_closed_once_witness :
  m_old demo7 = [(0%nat, 1, 10)] /\ m_current demo7 = Some 1%nat /\ exists k, m_stacks demo7 !! 0%nat = Some k /\ sk_closed k = 0%nat /\ (sk_closed k <= 1)%nat.
Proof.
  split_and!; [by vm_compute|by vm_compute|]. exists (mk_stack ["k8s"] 0). split_and!; [by vm_compute|done|].
  apply (stacks_closed_once true 600 2400 demo7 0 (mk_stack ["k8s"] 0) demo7_reachable). by vm_compute.
Defined.

Lemma quiet_reclaims_witness : sk_closed <$> m_stacks demo9 !! 0%nat = Some 1%nat /\ m_old demo9 = [].
Proof.
  assert (Hq : quiet demo9).
  { split_and!; try by vm_compute.
    - intros i c Hi. change (({[0%nat := Finished]} : gmap nat client) !! i = Some c) in Hi.
      apply lookup_singleton_Some in Hi as [_ <-]. done. }
  split; [by vm_compute|]. apply (quiet_reclaims true 600 2400 demo9 0 (mk_stack ["k8s"] 1) demo9_reachable Hq). by vm_compute.
Defined.

Lemma shutdown_closes_all_witness :
  (exists servers, m_clients demo_shut !! 0%nat = Some (Using (Some 0%nat) servers)) /\ sk_closed (mk_stack ["k8s"] 1) = 1%nat.
Proof.
  split; [exists ["k8s"]; by vm_compute|].
  apply (shutdown_closes_all true 600 2400 demo_shut 0 (mk_stack ["k8s"] 1) demo_shut_reachable); [done|by vm_compute| |].
  - intros i Hi. change (({[0%nat := Using (Some 0%nat) ["k8s"]]} : gmap nat client) !! i = Some (ClosingOld 0)) in Hi.
    apply lookup_singleton_Some in Hi as [_ Hi]. done.
  - apply not_elem_of_nil.
Defined.

(** A reload cancelled while it enters its servers: the stack is in no one's
    charge, and stays open through the shutdown. *)
Definition demo_cancelled : pool := cancel_reload demo3 0 (Entering 0 [] ["k8s"]).
Definition demo_leak : pool := drain_old (begin_shutdown demo_cancelled).

Example cancelled_reload_leaks :
  rtc step new_pool demo_leak /\ m_shutdown demo_leak = Shut /\ m_stacks demo_leak !! 0%nat = Some (mk_stack ["k8s"] 0).
Proof.
  split_and!; [|by vm_compute|by vm_compute].
  eapply rtc_r; [eapply rtc_r; [eapply rtc_r; [apply demo3_reachable|]|]|].
  - by apply (ps_cancel _ _ _ demo3 0 (Entering 0 [] ["k8s"])).
  - by apply (ps_shutdown _ _ _ demo_cancelled).
  - by apply (ps_drain _ _ _ (begin_shutdown demo_cancelled)).
Qed.

(** A request cancelled while it waits for the lock to release: its reference
    is lost, and the parked stack stays open with nobody using it. *)
Definition demo_lost : pool := set_client (lose (end_use demo7 0 (Some 0%nat)) 0) 0 Finished.

Example lost_release_parks :
  rtc step new_pool demo_lost /\ m_clients demo_lost !! 0%nat = Some Finished /\ m_old demo_lost = [(0%nat, 1, 10)] /\
  m_stacks demo_lost !! 0%nat = Some (mk_stack ["k8s"] 0).
Proof.
  split_and!; try by vm_compute. eapply rtc_r; [eapply rtc_r; [apply demo7_reachable|]|].
  - by apply (ps_end _ _ _ demo7 0 (Some 0%nat) ["k8s"]).
  - by apply (ps_lose _ _ _ (end_use demo7 0 (Some 0%nat)) 0 0).
Qed.
End Demo.
